(* ===== verification/_CoqProject ===== *)
-Q . S2P
Prelude.v
CString.v
CStdio.v
Entry.v
Lookup.v
CatalogFS.v
Resources.v
Sample.v
CatalogProps.v
BinSearchInFile.v
Chain.v
Queue.v
Generate.v
Format.v
Pad.v
Tools.v
Listing.v
Order.v
Mount.v
SampleTree.v
GeneratorProps.v
Rofs.v
FuseOpt.v
FuseOptSpec.v
FuseOptProps.v
FuseNodes.v
FuseTable.v
FuseNodesSpec.v
FuseTree.v
FuseNodesProps.v
FuseLocks.v
FuseLocksProps.v
FuseDir.v
FuseDirProps.v
FuseCatalog.v
FuseLib.v
FuseLibSpec.v
FuseLibProps.v
FuseMount.v
FuseHandle.v
FuseHandleProps.v
FuseDirMount.v
FuseWire.v
FuseDevice.v
FuseLowlevel.v
FuseWireProps.v
FuseDevProps.v
FuseSessionProps.v
FuseKernel.v
FuseKernelProps.v
FuseLoop.v
FuseLoopProps.v
FuseStack.v
FuseSubdir.v
FuseSubdirProps.v
FuseSubdirSpec.v
FuseInode.v
FuseInodeProps.v
FuseAccount.v
FuseBelow.v
FuseFile.v
FuseFileProps.v
FuseFileAccount.v
Archive.v
ArchiveFS.v
ArchiveTree.v
ArchiveLinks.v
ArchiveInsert.v
ArchiveSpec.v
ArchiveRefine.v
ArchiveCreate.v
ArchiveRename.v
ArchiveMount.v
ArchiveProps.v
ArchiveData.v
ArchiveDataProps.v
ArchiveSave.v
ArchiveSaveProps.v
