(* ===== verification/Prelude.v ===== *)
(** * Verification of the catalog file system

    The repository keeps listings of removable media as catalogs and shows them as
    read-only file systems. Three programs cooperate through a text file:

    - [generate_catalog] (generate_catalog.c) walks a directory breadth first and
      writes one record per directory entry to the catalog, then pads all the
      records to one length;
    - [catalogfsmount] (a shell script) computes the record length and count, and
      passes them to catalogfs in environment variables;
    - [catalogfs] (catalogfs.c) serves FUSE requests by binary search in the file.

    ** The files of the development

    - [Prelude]: outcomes of running C code (return, exit, undefined behaviour,
      out of fuel), the state monad [M] and its program logic [runs] and
      [no_hang], machine integers, lemmas on sorted lists.
    - [CString], [CStdio]: the parts of the C library that the programs call:
      [strcmp], [strcpy] into an array of known size, [sscanf] as an interpreter
      of formats, the printed form of integers, [atoi].
    - [Entry]: the record reader of catalogfs.c ([getEntry_from_catalog],
      [getEntry_depth_filepath], [getEntry_filepath]) with the process state it
      changes, and the interface [CatalogView] under which the file is a list of
      records.
    - [Lookup]: [findDepth], [binSearch] and its phases, [get_directory_contents];
      their termination on any file, and their correctness, against
      [CatalogView], on a catalog sorted by depth and path.
    - [CatalogFS]: the FUSE callbacks, the operation table as the dispatcher
      [catalog_operations], [main], and the specification of each callback over
      the list of records.
    - [Resources]: descriptors and heap blocks of the mounted process, as an
      invariant of the step relation [step], in which requests alternate with
      rewritings of the catalog file.
    - [Sample], [CatalogProps]: a concrete mounted catalog, and the properties of
      catalogfs with their instances at it.
    - [Queue]: the linked-list queue of generate_catalog.c in an explicit heap,
      refined to a list of names.
    - [Generate]: the rest of generate_catalog.c: record writer, directory scan,
      breadth-first loop, padding, [main].
    - [Format]: the record format, as the round trip from writer to reader.
    - [Pad], [Listing], [Order]: the padding pass; the listing as a traversal,
      level by level, on which the queue loop is proved to terminate, to be
      complete and to free what it allocates; the order of the records.
    - [Mount]: the generated file satisfies [CatalogView], so that the theorems
      about catalogfs apply to it.
    - [SampleTree], [GeneratorProps]: concrete trees, and the properties of the
      generator alone and followed by a mount.
    - [BinSearchInFile], [Tools]: the prototype of the search (binsearchinfile.c),
      proved equivalent to the search of catalogfs; [bytecount], the first listing
      program (generate_catalog.old.c) and the experiments under helper/.
    - [Rofs]: the read-only file system other_fs/rofs, from which catalogfs is
      adapted, over the system calls as parameters.
    - [Chain]: linked lists in a heap, for the files that have them.
    - [FuseOpt], [FuseOptSpec], [FuseOptProps]: the option parser of the FUSE
      library that catalogfs and rofs call (other_fs/fuse-2.7.3/lib/fuse_opt.c), in
      a heap of argument vectors; its abstract specification, a translation of
      lists of strings by the table of templates; the refinement.
    - [FuseNodes]: the table of nodes of the FUSE library (the first part of
      other_fs/fuse-2.7.3/lib/fuse.c), which turns the node numbers of the kernel
      into the paths that catalogfs gets. [FuseTable]: a hash table of linked
      nodes, by an interface [Table] with an instance for each of the two tables;
      [FuseNodesSpec]: the operations on the contents of the table, whatever the
      order of the buckets; [FuseTree]: the tree of directories and its reference
      counts; [FuseNodesProps]: the requests of the kernel and their invariant.
    - [FuseLocks], [FuseLocksProps]: the file locks of a node (fuse.c): an interval
      list with splitting and merging, refined to a map from owners and bytes.
    - [FuseDir], [FuseDirProps]: the buffer of an open directory ([fill_dir],
      [fuse_lib_readdir] in fuse.c, [fuse_add_direntry] in fuse_lowlevel.c) and the
      loop of the kernel module that reads it (kernel/dir.c); [FuseCatalog]: the
      same with [catalog_readdir] above it. [FuseHandle], [FuseHandleProps]: the open
      directories in the heap of the library (fuse.c, [fuse_lib_opendir] to
      [fuse_lib_fsyncdir]), by a class [DirSystem] of what fills them; [FuseDirMount]: a
      process that lists a directory of a mounted catalog.
    - [FuseLib], [FuseLibSpec], [FuseLibProps]: the requests of the kernel (fuse.c, [fuse_lib_*]):
      from the number of a node to its path, to the operation of the file system
      ([fuse_fs_*]), to the reply; the file system is a record [fuse_operations],
      and the class [FileSystem] what is expected of it. [FuseMount]: the same with
      [catalog_getattr] below it.
    - [FuseWire]: the messages of the FUSE protocol (kernel/fuse_kernel.h) and how
      the kernel module fills in each request (kernel/dir.c, file.c, inode.c);
      [FuseDevice]: the device between the kernel and the library (kernel/dev.c), its
      queues, numbers and interrupts; [FuseLowlevel]: the side of the library
      (lib/fuse_lowlevel.c), from a message to the call of an operation and from an
      answer to a reply. [FuseWireProps]: the two ways, end to end;
      [FuseDevProps]: the account of the device, over any reads, writes and signals;
      [FuseSessionProps]: the account of the library, over any messages and answers.
    - [FuseKernel], [FuseKernelProps]: the kernel module above its device: the reply to
      the first message, direct reading and writing, and locks.
    - [FuseLoop]: the session of the library (lib/fuse_session.c, fuse_kern_chan.c,
      fuse_loop.c) between the device and a file system, with the processes that use it
      as a script of events; [FuseLoopProps]: what a session does for its callers.
      [FuseStack]: all of it together, from a process to the catalog file and back.
    - [FuseSubdir]: a module that shows a directory of a file system
      (lib/modules/subdir.c); [FuseSubdirProps]: its relative links, by the walks that
      paths stand for; [FuseSubdirSpec]: the module as calls of the file system below.
    - [FuseInode]: the inodes and names that the kernel module keeps (kernel/dir.c,
      inode.c), and its operations from the VFS to the requests and back; what the VFS
      decides is a record [vfs]. [FuseInodeProps]: the invariant of their account, over a
      class [Server] of what answers; [FuseAccount]: the states from the mount on;
      [FuseBelow]: the path-based library as such a server.
    - [FuseFile]: the open files of the kernel module (kernel/file.c, dir.c), from [open] or
      an atomic creation to the release, and the owners of locks. [FuseFileProps]: each
      operation, over a class [OpenServer] of what answers; [FuseFileAccount]: the states
      from the mount on, and a strict server.
    - [Archive], [ArchiveFS]: archivemount (other_fs/archivemount-0.5.3/archivemount.c), a file
      system that shows an archive: its nodes in a heap, with the insertion by path and the
      search; the reading of the archive, and the callbacks. [ArchiveTree]: paths, and when a
      heap is a tree; [ArchiveLinks]: the lists of siblings; [ArchiveInsert]: what insertion,
      removal and search do to a tree; [ArchiveSpec]: the abstract file system, a list of
      members; [ArchiveRefine], [ArchiveCreate], [ArchiveRename]: the callbacks, one by one;
      [ArchiveMount]: all of them, after the archive is read; [ArchiveProps]: a concrete
      libarchive, links, and where the program fails. [ArchiveData], [ArchiveDataProps]: the
      contents of files, from the archive and in temporary files; [ArchiveSave],
      [ArchiveSaveProps]: the new archive that is written after unmounting.
    ** What is shown

    On a tree whose names and attributes fit the format and the buffers, and in
    which no directory name is a sibling's name followed by a byte below the
    slash, a generated and mounted catalog answers every [getattr], [readdir] and
    [readlink] as the tree would ([GeneratorProps]: [generated_getattr],
    [generated_readdir], [generated_readlink]): a [readdir] of a directory other than
    the root as long as its path lies in an array with a byte to spare, a [readlink] as
    far as [printf] leaves the destination, which lies in the array of a returned call
    ([printf_leaves]). The listing ends and is complete on any tree of finite height
    ([traversal_complete]), and its records are in the order of the search exactly under
    that condition on names ([listing_is_sorted]); without it files are lost
    ([name_order_clash]). [main] of the generator leaves that listing in the catalog file
    ([generate_main_writes_tree]). The search itself is linear search on a sorted catalog
    and ends on any file; the callbacks are characterised on any sorted catalog
    ([CatalogProps]). The remaining theorems are about resources (descriptors do
    not leak within an [int] offset, blocks leak on every probe) and about the
    limits past which the programs write outside their arrays.

    Below catalogfs, the option parser of FUSE does what its table says and loses
    no memory ([fuse_opt_parse_refines]) when its allocations succeed; otherwise a vector may
    dangle ([add_arg_strdup_failure_dangles]); the table of nodes keeps its lists and
    counts under every sequence of requests that the kernel may send
    ([node_table_invariant]), and what it hands to a callback is the path that was
    looked up ([found_node_path]). What a [readdir] hands to the library is what a
    reader gets from the kernel ([readdir_round_trip]), so that a listing of the
    mounted catalog is the directory that was catalogued ([mounted_ls], and
    [catalog_listed] from [opendir] to [closedir], which is undefined in the block of
    exact size that the library allocates, except for the root), and a
    lookup in it finds the file that was there ([mounted_lookup]). Over any file
    system whose operations answer, every request ends with a reply and a whole
    table of nodes ([library_invariant]), also those on open directories, of which none is
    used after its release or filled past its block ([directory_handles]), apart from a lost reply about a missing
    name that the kernel may keep, which aborts the library ([lost_negative_entry_aborts]). Setting a file
    lock is an update of the map of locks ([locks_insert_refines]).

    Between the kernel and the library, each call of the kernel arrives as the
    operation that it means, with its arguments ([request_round_trip]), and each
    answer as what was answered ([reply_round_trip]). Both sides keep account of
    their requests whatever the other one sends ([session_accounts],
    [device_accounts], with what each read, signal and write does); no caller waits on a connection that
    has ended ([connection_ends]); users who may not, get an error and nothing else
    ([refusals]). One answer of the library can destroy a list of the kernel
    ([second_again_corrupts]). Above the device, the limits of a connection are those
    that the file system chose ([handshake]); a direct write sends its buffer in
    pieces, in order ([direct_write_sends]), though not within the limit agreed on
    ([direct_write_exceeds_max_write]) nor on every error path
    ([direct_write_bad_put]); the lock in a reply is the one that was given
    ([lock_round_trip]). A session answers every call that its processes make, in
    order, with what the file system says ([session_serves]); with the library and
    catalogfs below it, a process finds in the kernel the attributes that the file had
    when the catalog was generated ([catalog_through_kernel]). The subdir module is the
    file system below it on other paths, from its start to its end ([subdir_oper_refines]); the links that it makes
    relative lead where they led ([rellinks_lead_inside]), and those out of its base stay
    ([rellinks_outside_kept]), unless slashes are repeated ([rellinks_slashes_pass]).
    The caches of the kernel give back no lookup that they have not had, and free every
    request, over any server ([caches_account]); over the library, each inode stands for a
    node that the library still has, so that none of the requests about names and
    attributes makes it abort ([kernel_over_library]). The open files of the kernel are those
    that are open at the server, and each of them is released once ([open_files_account]),
    apart from a creation with an invalid reply ([invalid_creation_leaks]); no two processes
    show as one owner of locks ([lock_owners_distinct]).

    archivemount, on an archive whose directories come before what is in them, is a list of
    members in the order of the archive, on which every callback does what its name says
    ([archive_refines]), as long as no directory is named like the one it is in, and a file
    is not renamed into an empty directory or onto another one ([repeated_name_is_misplaced],
    [rename_drags_siblings], [rename_onto_file_loses]); these bounds are [regular], of an
    archive, and [permitted], of a callback. Hard links end unless they go in
    circles ([links_end], [link_circle_never_ends]), but those of most archives lead nowhere
    ([relative_link_dangles]). Files read as what the archive holds ([archive_read]) and keep
    their beginning when they are truncated ([truncate_keeps]), but a write to a file of the
    archive is lost ([archived_write_lost]); names, removals and attributes reach the new
    archive ([archive_saved], against a description of the new archive, [holds_members],
    and laws of libarchive, [HeaderLaws]), and a new directory destroys it ([new_directory_destroys]).

    ** Conventions

    A byte string is the list of its bytes before the NUL. A function that the C
    code calls for its effects is a computation in [M]; a write past an array of
    known size, a null dereference, an unrepresentable conversion is [UB]. The
    locals that the code reads before it sets them, the rest of a short read and
    the arrays of a returned call that its caller still reads ([dead_stack]) are
    fields of the environment, as is what [printf] leaves of the latter ([printf_leaves]), so that a theorem that does not constrain them
    holds whatever they contain. The target is LP64: [int] of 32 bits, [long] and
    [off_t] of 64, [char] signed or not.

    Loops carry fuel. For the loops of the search it is the length of the interval
    that they shrink, plus one ([span_fuel]); [requests_terminate] shows that no
    request runs out of it. The listing loop takes its fuel as an argument;
    [traversal_complete] shows that the number of directories plus one is enough.
    A bucket of the table of nodes is walked with one step more than there are
    nodes ([list_fuel]), the search of a free number with two more, and the way to
    the root with one step for each byte of the longest path ([path_fuel]);
    [node_table_invariant] and [found_node_path] show that no request runs out of
    them. The search of a hidden name ([hide_fuel]) has one step more than there are
    nodes too.
    The tree of archivemount is searched with one step more than there are nodes for the
    siblings ([sibling_fuel]), and one level more than the path has bytes; the links that a
    callback follows have a bound of their own ([links_end]).
    [insert_fuel] and the loop of [parse_dirfile] have theirs in the length of
    the list and of the page; only the doubling of the size of a directory buffer
    has no bound beyond 2 GiB ([extend_contents_spins]).

    The system is a parameter: what [lstat], [readlink], [readdir] return for a
    path, which allocations succeed, what the FUSE filler does with an entry. What
    it is assumed to do is stated where it is used ([good_tree], [mount_fits]).

    ** What is not modelled

    Text printed on the standard streams, apart from the output of the helper
    programs, where a [long] printed with [%d] is taken to be printed in full; the
    exhaustion of descriptors; the rest of the kernel module (its pages and
    mount options) and of the FUSE library (threads, and
    the module iconv): requests are served one at a time, a file system
    answers before it returns, signals come while a read waits, the operations on the table of
    nodes, which hold its lock, and those on the device do not interleave;
    [add_name] is modelled by the lengths of the strings, without the pointer that it
    moves in front of its buffer when a name is too long; changes of the tree while it
    is listed; the shell script, of which [mounts] states what it is meant to
    establish; fuse.gunzip, which calls zlib and an external cache. Of archivemount, allocations succeed, the renaming
    of a directory with what is in it is modelled without a theorem, and [main] is left out. *)

From stdpp Require Export base list strings sorting gmap.
From Stdlib Require Export Ascii Lia ZifyBool.

#[global] Open Scope Z_scope.

(** * Byte strings

    A C string is the list of its bytes before the terminating NUL. *)

Abbreviation bytes := (list ascii).

(** A Rocq string literal as bytes. *)
Fixpoint B (s : string) : bytes :=
  match s with
  | EmptyString => []
  | String c s' => c :: B s'
  end.

(** The value of a byte read as an [unsigned char]. *)
Definition code (c : ascii) : Z := Z.of_N (N_of_ascii c).

Lemma code_inj c d : code c = code d -> c = d.
Proof.
  unfold code. intros H. apply N2Z.inj in H.
  rewrite <- (ascii_N_embedding c), <- (ascii_N_embedding d). by rewrite H.
Qed.

Lemma code_range c : 0 <= code c < 256.
Proof. unfold code. pose proof (N_ascii_bounded c). lia. Qed.

(** * Outcomes of running C code

    A run returns normally, ends the process with [exit(status)], has undefined
    behaviour (a write outside an array, a null dereference, an out-of-range
    conversion), or is still running when the fuel of a loop is used up. *)

Inductive outcome (A : Type) : Type :=
| Ret (a : A)
| Exit (status : Z)
| UB
| Hang.

Arguments Ret {A} a.
Arguments Exit {A} status.
Arguments UB {A}.
Arguments Hang {A}.

(** Computations that thread a state [S]. *)
Definition M (S A : Type) : Type := S -> outcome (A * S).

#[global] Instance M_ret {S} : MRet (M S) := fun A a s => Ret (a, s).
#[global] Instance M_bind {S} : MBind (M S) := fun A C f m s =>
  match m s with
  | Ret (a, s') => f a s'
  | Exit z => Exit z
  | UB => UB
  | Hang => Hang
  end.

Definition ub {S A} : M S A := fun _ => UB.
Definition exit {S A} (status : Z) : M S A := fun _ => Exit status.
Definition hang {S A} : M S A := fun _ => Hang.
Definition get {S} : M S S := fun s => Ret (s, s).
Definition modify {S} (f : S -> S) : M S unit := fun s => Ret (tt, f s).

(** [assert_defined b] has undefined behaviour unless [b]. *)
Definition assert_defined {S} (b : bool) : M S unit := if b then mret tt else ub.

(** ** Reasoning about computations *)

(** [runs m s Q]: from [s], [m] returns normally with a result and state in [Q]. *)
Definition runs {S A} (m : M S A) (s : S) (Q : A -> S -> Prop) : Prop :=
  match m s with
  | Ret (a, s') => Q a s'
  | _ => False
  end.

(** [no_hang m]: [m] never runs out of fuel, whatever the state. *)
Definition no_hang {S A} (m : M S A) : Prop := forall s, m s <> Hang.

Create HintDb no_hang.

Section MonadLemmas.
Context {S : Type}.

Lemma runs_ret {A} (a : A) (s : S) (Q : A -> S -> Prop) :
  Q a s -> runs (mret a) s Q.
Proof. done. Qed.

Lemma runs_bind {A C} (m : M S A) (f : A -> M S C) s (Q : C -> S -> Prop) :
  runs m s (fun a s' => runs (f a) s' Q) -> runs (m ≫= f) s Q.
Proof. unfold runs, mbind, M_bind. destruct (m s) as [[a s']| | |]; done. Qed.

Lemma runs_bind_inv {A C} (m : M S A) (f : A -> M S C) s (Q : C -> S -> Prop) :
  runs (m ≫= f) s Q -> runs m s (fun a s' => runs (f a) s' Q).
Proof. unfold runs, mbind, M_bind. destruct (m s) as [[a s']| | |]; done. Qed.

Lemma runs_mono {A} (m : M S A) s (Q R : A -> S -> Prop) :
  runs m s Q -> (forall a s', Q a s' -> R a s') -> runs m s R.
Proof. unfold runs. destruct (m s) as [[a s']| | |]; eauto. Qed.

Lemma runs_conj {A} (m : M S A) s (Q R : A -> S -> Prop) :
  runs m s Q -> runs m s R -> runs m s (fun a s' => Q a s' /\ R a s').
Proof. unfold runs. destruct (m s) as [[a s']| | |]; eauto. Qed.

Lemma runs_eq {A} (m : M S A) s (Q : A -> S -> Prop) :
  runs m s Q <-> exists a s', m s = Ret (a, s') /\ Q a s'.
Proof.
  unfold runs. destruct (m s) as [[a s']| | |]; split; try done;
    try (intros (? & ? & [= <- <-] & ?); done); try (intros (? & ? & [=] & _)).
  intros H. by exists a, s'.
Qed.

Lemma runs_eq_run {A} (m m' : M S A) s (Q : A -> S -> Prop) :
  m s = m' s -> runs m' s Q -> runs m s Q.
Proof. unfold runs. by intros ->. Qed.

Lemma runs_get (s : S) (Q : S -> S -> Prop) : Q s s -> runs get s Q.
Proof. done. Qed.

Lemma runs_modify (f : S -> S) s (Q : unit -> S -> Prop) :
  Q tt (f s) -> runs (modify f) s Q.
Proof. done. Qed.

Lemma runs_assert (b : bool) (s : S) (Q : unit -> S -> Prop) :
  b = true -> Q tt s -> runs (assert_defined b) s Q.
Proof. intros -> ?. done. Qed.

Lemma assert_false {A} (f : unit -> M S A) (b : bool) (s : S) :
  b = false -> (assert_defined b ≫= f) s = UB.
Proof. by intros ->. Qed.

Lemma bind_runs_eq {A C} (m : M S A) (f : A -> M S C) s a s' :
  m s = Ret (a, s') -> (m ≫= f) s = f a s'.
Proof. unfold mbind, M_bind. by intros ->. Qed.

Lemma bind_ub_eq {A C} (m : M S A) (f : A -> M S C) s :
  m s = UB -> (m ≫= f) s = UB.
Proof. unfold mbind, M_bind. by intros ->. Qed.

Lemma bind_ext {A C} (m : M S A) (f g : A -> M S C) s :
  (forall a s', f a s' = g a s') -> (m ≫= f) s = (m ≫= g) s.
Proof. intros H. unfold mbind, M_bind. destruct (m s) as [[a s']| | |]; auto. Qed.

Lemma bind_eq {A C} (m m' : M S A) (f : A -> M S C) s :
  m s = m' s -> (m ≫= f) s = (m' ≫= f) s.
Proof. unfold mbind, M_bind. by intros ->. Qed.

Lemma bind_assoc {A C D} (m : M S A) (f : A -> M S C) (g : C -> M S D) s :
  ((m ≫= f) ≫= g) s = (m ≫= fun a => f a ≫= g) s.
Proof. unfold mbind, M_bind. by destruct (m s) as [[a s']| | |]. Qed.

Lemma no_hang_ret {A} (a : A) : no_hang (mret a : M S A).
Proof. done. Qed.

Lemma no_hang_bind {A C} (m : M S A) (f : A -> M S C) :
  no_hang m -> (forall a, no_hang (f a)) -> no_hang (m ≫= f).
Proof.
  intros Hm Hf s. unfold mbind, M_bind. specialize (Hm s).
  destruct (m s) as [[a s']| | |]; try done. apply Hf.
Qed.

Lemma no_hang_ub {A} : no_hang (ub : M S A).
Proof. done. Qed.

Lemma no_hang_exit {A} z : no_hang (exit z : M S A).
Proof. done. Qed.

Lemma no_hang_get : no_hang (get : M S S).
Proof. done. Qed.

Lemma no_hang_modify (f : S -> S) : no_hang (modify f).
Proof. done. Qed.

Lemma no_hang_assert b : no_hang (assert_defined b : M S unit).
Proof. by destruct b. Qed.

Lemma no_hang_if {A} (b : bool) (m1 m2 : M S A) :
  no_hang m1 -> no_hang m2 -> no_hang (if b then m1 else m2).
Proof. by destruct b. Qed.
End MonadLemmas.

(** ** Partial correctness, and the state that a computation ends in *)

Section Partial.
Context {S : Type}.

Definition returns {A} (m : M S A) (s : S) (Q : A -> S -> Prop) : Prop :=
  forall a s', m s = Ret (a, s') -> Q a s'.

Lemma returns_ret {A} (a : A) (s : S) (Q : A -> S -> Prop) : Q a s -> returns (mret a) s Q.
Proof. intros HQ b s' [= <- <-]. done. Qed.

Lemma returns_bind {A C} (m : M S A) (g : A -> M S C) s (Q : C -> S -> Prop) :
  returns m s (fun a s' => returns (g a) s' Q) -> returns (m ≫= g) s Q.
Proof.
  intros Hm c s' E. unfold mbind, M_bind in E. destruct (m s) as [[a s1]| | |] eqn:Em; try done.
  by eapply Hm.
Qed.

Lemma returns_runs {A} (m : M S A) s (Q : A -> S -> Prop) : runs m s Q -> returns m s Q.
Proof. intros H a s' E. unfold runs in H. by rewrite E in H. Qed.

Lemma returns_mono {A} (m : M S A) s (Q R : A -> S -> Prop) :
  returns m s Q -> (forall a s', Q a s' -> R a s') -> returns m s R.
Proof. intros H HQ a s' E. by apply HQ, H. Qed.

Lemma returns_get (s : S) (Q : S -> S -> Prop) : Q s s -> returns get s Q.
Proof. intros H. by apply returns_runs, runs_get. Qed.

Lemma returns_modify (g : S -> S) s (Q : unit -> S -> Prop) : Q tt (g s) -> returns (modify g) s Q.
Proof. intros H. by apply returns_runs, runs_modify. Qed.

Lemma returns_assert b (s : S) (Q : unit -> S -> Prop) : Q tt s -> returns (assert_defined b) s Q.
Proof. intros H. destruct b; [by apply returns_ret | done]. Qed.
End Partial.

(** The state after [m], or the same one when [m] does not return. *)
Definition after {S A} (m : M S A) (s : S) : S := match m s with Ret (_, s') => s' | _ => s end.

#[export] Hint Resolve no_hang_ret no_hang_ub no_hang_exit no_hang_get
  no_hang_modify no_hang_assert : no_hang.
#[export] Hint Resolve no_hang_bind no_hang_if : no_hang.

(** One step of a symbolic run of a computation whose next action is known. *)
Ltac run_step :=
  lazymatch goal with
  | |- runs (mret _) _ _ => apply runs_ret
  | |- runs (mbind _ _) _ _ => apply runs_bind
  | |- runs get _ _ => apply runs_get
  | |- runs (modify _) _ _ => apply runs_modify
  end.
Ltac run := repeat (run_step; cbv beta match).

(** Proves that a straight-line computation never hangs. *)
Ltac never_hangs :=
  repeat first
    [ progress intros
    | solve [auto with no_hang]
    | apply no_hang_bind
    | apply no_hang_if
    | case_match ].

(** * Machine integers of the LP64 target *)

Definition in_range (lo hi v : Z) : bool := (lo <=? v) && (v <=? hi).
Definition in_i32 : Z -> bool := in_range (- 2 ^ 31) (2 ^ 31 - 1).
Definition in_i64 : Z -> bool := in_range (- 2 ^ 63) (2 ^ 63 - 1).

(** Conversion to a signed or unsigned type of [w] bits. *)
Definition to_unsigned (w v : Z) : Z := v mod 2 ^ w.
Definition to_signed (w v : Z) : Z := (v + 2 ^ (w - 1)) mod 2 ^ w - 2 ^ (w - 1).
Definition to_i32 : Z -> Z := to_signed 32.
Definition to_i64 : Z -> Z := to_signed 64.
Definition to_u32 : Z -> Z := to_unsigned 32.
Definition to_u64 : Z -> Z := to_unsigned 64.

Lemma in_range_spec lo hi v : in_range lo hi v = true <-> lo <= v <= hi.
Proof. unfold in_range. rewrite andb_true_iff, !Z.leb_le. done. Qed.

Lemma to_signed_id w v :
  0 < w -> - 2 ^ (w - 1) <= v < 2 ^ (w - 1) -> to_signed w v = v.
Proof.
  intros Hw Hv. unfold to_signed.
  assert (2 ^ w = 2 * 2 ^ (w - 1)) as Hp.
  { rewrite <- Z.pow_succ_r by lia. f_equal. lia. }
  rewrite Z.mod_small; lia.
Qed.

Lemma to_unsigned_id w v : 0 <= v < 2 ^ w -> to_unsigned w v = v.
Proof. intros. unfold to_unsigned. by apply Z.mod_small. Qed.

Lemma to_i32_id v : - 2 ^ 31 <= v < 2 ^ 31 -> to_i32 v = v.
Proof. intros. apply to_signed_id; lia. Qed.

Lemma to_i64_id v : - 2 ^ 63 <= v < 2 ^ 63 -> to_i64 v = v.
Proof. intros. apply to_signed_id; lia. Qed.

Lemma to_u32_id v : 0 <= v < 2 ^ 32 -> to_u32 v = v.
Proof. apply to_unsigned_id. Qed.

Lemma to_u64_id v : 0 <= v < 2 ^ 64 -> to_u64 v = v.
Proof. apply to_unsigned_id. Qed.

(** * Lists indexed by [Z] *)

(** The element of [l] at a nonnegative index. *)
Definition zlookup {A} (l : list A) (i : Z) : option A :=
  if i <? 0 then None else l !! Z.to_nat i.

Lemma zlookup_lookup {A} (l : list A) i : 0 <= i -> zlookup l i = l !! Z.to_nat i.
Proof. intros. unfold zlookup. destruct (i <? 0) eqn:E; [lia | done]. Qed.

Lemma zlookup_Some {A} (l : list A) i x :
  zlookup l i = Some x -> 0 <= i < Z.of_nat (length l).
Proof.
  unfold zlookup. destruct (i <? 0) eqn:E; [done |]. intros H.
  apply lookup_lt_Some in H. lia.
Qed.

Lemma zlookup_is_Some {A} (l : list A) i :
  0 <= i < Z.of_nat (length l) -> exists x, zlookup l i = Some x.
Proof.
  intros. rewrite zlookup_lookup by lia. apply lookup_lt_is_Some. lia.
Qed.

(** * Records of one size laid end to end *)

Lemma concat_slice {A} (ls : list (list A)) n i x :
  Forall (fun l => length l = n) ls -> ls !! i = Some x ->
  take n (drop (n * i) (concat ls)) = x.
Proof.
  intros Hn. revert i. induction Hn as [|l ls Hl Hn IH]; intros [|i]; simpl; try done.
  - intros [= ->]. rewrite Nat.mul_0_r, drop_0. by rewrite <- Hl, take_app_length.
  - intros Hi. rewrite <- (IH i Hi). f_equal.
    replace (n * S i)%nat with (length l + n * i)%nat by lia.
    by rewrite <- drop_drop, drop_app_length.
Qed.

Lemma length_concat_uniform {A} (ls : list (list A)) n :
  Forall (fun l => length l = n) ls -> length (concat ls) = (n * length ls)%nat.
Proof.
  induction 1 as [|l ls Hl Hn IH]; simpl; [lia |]. rewrite length_app. lia.
Qed.

(** * Strictly sorted lists by position *)

Lemma sorted_lookup {A} (R : relation A) (l : list A) i j x y :
  StronglySorted R l -> zlookup l i = Some x -> zlookup l j = Some y -> i < j -> R x y.
Proof.
  intros Hs Hx Hy Hij.
  pose proof (zlookup_Some _ _ _ Hx). pose proof (zlookup_Some _ _ _ Hy).
  rewrite zlookup_lookup in Hx, Hy by lia.
  rewrite <- (take_drop (Z.to_nat j) l) in Hs.
  eapply StronglySorted_app_1_elem_of; [exact Hs | |].
  - apply list_elem_of_lookup. exists (Z.to_nat i). rewrite lookup_take_lt by lia. done.
  - apply list_elem_of_lookup. exists 0%nat. by rewrite lookup_drop, Nat.add_0_r.
Qed.

(** A predicate that holds exactly on an interval of positions selects a slice. *)
Lemma filter_interval {A} (P : A -> Prop) `{!forall x, Decision (P x)} (l : list A) a b :
  (a <= b)%nat -> (forall i x, l !! i = Some x -> (a <= i < b)%nat <-> P x) ->
  filter P l = take (b - a) (drop a l).
Proof.
  revert a b. induction l as [|y l IH]; intros a b Hab HP.
  { by rewrite drop_nil, take_nil. }
  assert (forall i x, l !! i = Some x -> (pred a <= i < pred b)%nat <-> P x) as HP'.
  { intros i x Hi. rewrite <- (HP (S i) x) by done. lia. }
  rewrite filter_cons. pose proof (HP 0%nat y eq_refl) as H0.
  destruct a as [|a]; simpl.
  - destruct b as [|b]; simpl.
    + rewrite decide_False by (rewrite <- H0; lia).
      rewrite (IH 0%nat 0%nat) by (lia || (intros; rewrite <- HP' by done; simpl; lia)). done.
    + rewrite decide_True by (rewrite <- H0; lia). f_equal.
      rewrite (IH 0%nat b) by (lia || done). by rewrite Nat.sub_0_r, drop_0.
  - rewrite decide_False by (rewrite <- H0; lia).
    destruct b as [|b]; [lia |]. simpl. apply IH; [lia | done].
Qed.

Lemma sorted_filter {A} (R : relation A) (P : A -> Prop) `{!forall x, Decision (P x)} l :
  StronglySorted R l -> StronglySorted R (filter P l).
Proof.
  induction 1 as [|x l Hs IH Hx]; [constructor |]. rewrite filter_cons. case_decide; [| done].
  constructor; [done |]. apply Forall_forall. intros y Hy.
  apply list_elem_of_filter in Hy as [_ Hy]. by apply (proj1 (Forall_forall _ _) Hx).
Qed.

Lemma sublist_forall {A} (P : A -> Prop) (l k : list A) :
  l `sublist_of` k -> Forall P k -> Forall P l.
Proof. induction 1; rewrite ?Forall_cons; naive_solver. Qed.

Lemma sublist_map {A C} (f : A -> C) (l k : list A) :
  l `sublist_of` k -> map f l `sublist_of` map f k.
Proof. induction 1; cbn [map]; by constructor. Qed.

Lemma sorted_sublist {A} (R : relation A) (l k : list A) :
  l `sublist_of` k -> StronglySorted R k -> StronglySorted R l.
Proof.
  induction 1 as [|x l k Hlk IH|x l k Hlk IH]; [done | |]; rewrite ?StronglySorted_cons; [| naive_solver].
  intros [Hx Hs]. split; [| auto]. by eapply sublist_forall.
Qed.

Lemma sorted_list_filter {A} (R : relation A) (f : A -> bool) l :
  StronglySorted R l -> StronglySorted R (List.filter f l).
Proof.
  induction 1 as [|x l Hs IH Hx]; simpl; [constructor |]. destruct (f x); [| done].
  constructor; [done |]. apply Forall_forall. intros y Hy.
  apply list_elem_of_In, filter_In in Hy as [Hy _]. apply list_elem_of_In in Hy.
  by apply (proj1 (Forall_forall _ _) Hx).
Qed.

(** In a list sorted by a strict order and by another relation, the second
    relation holds where the first does. *)
Lemma sorted_transfer {A} (R T : relation A) l a b :
  (forall x, ~ R x x) -> (forall x y, R x y -> ~ R y x) ->
  StronglySorted R l -> StronglySorted T l -> a ∈ l -> b ∈ l -> R a b -> T a b.
Proof.
  intros Hirr Hasym. induction 1 as [|x l Hs IH Hx]; [set_solver |].
  rewrite StronglySorted_cons. intros [Ht Hl] Ha Hb Hab.
  rewrite Forall_forall in Hx, Ht.
  apply elem_of_cons in Ha as [-> | Ha], Hb as [-> | Hb]; [| by apply Ht | | by apply IH].
  - by destruct (Hirr x).
  - destruct (Hasym _ _ Hab). by apply Hx.
Qed.

(** Two lists sorted by a strict order are equal when they have the same elements. *)
Lemma sorted_ext {A} (R : relation A) (l k : list A) :
  (forall x, ~ R x x) -> (forall x y, R x y -> ~ R y x) ->
  StronglySorted R l -> StronglySorted R k -> (forall x, x ∈ l <-> x ∈ k) -> l = k.
Proof.
  intros Hirr Hasym Hl Hk Hel.
  assert (forall m, StronglySorted R m -> NoDup m) as Hnd.
  { induction 1 as [|x m Hs IH Hx]; constructor; [| done]. intros Hin.
    apply (Hirr x). by apply (proj1 (Forall_forall _ _) Hx). }
  apply (StronglySorted_unique_strong R); [| done | done |].
  - intros x y _ _ Hxy Hyx. destruct (Hasym _ _ Hxy Hyx).
  - apply NoDup_Permutation; auto.
Qed.

Lemma sorted_map {A C} (R : relation C) (f : A -> C) (l : list A) :
  StronglySorted R (map f l) <-> StronglySorted (fun x y => R (f x) (f y)) l.
Proof.
  induction l as [|x l IH]; simpl; [split; constructor |].
  rewrite !StronglySorted_cons, IH, Forall_map. done.
Qed.

Lemma sorted_concat {A} (R : relation A) (ls : list (list A)) :
  Forall (StronglySorted R) ls ->
  StronglySorted (fun l1 l2 => forall x y, x ∈ l1 -> y ∈ l2 -> R x y) ls ->
  StronglySorted R (concat ls).
Proof.
  induction 1 as [|l ls Hl Hls IH]; simpl; [constructor |].
  rewrite StronglySorted_cons. intros [Hall Hs]. apply StronglySorted_app_2; [| done | auto].
  intros x y Hx Hy. apply list_elem_of_In, in_concat in Hy as (l2 & Hl2 & Hy).
  apply list_elem_of_In in Hl2, Hy. rewrite Forall_forall in Hall. by apply (Hall l2).
Qed.

Lemma sorted_mono {A} (R R' : relation A) (P : A -> Prop) (l : list A) :
  (forall x y, P x -> P y -> R x y -> R' x y) -> Forall P l ->
  StronglySorted R l -> StronglySorted R' l.
Proof.
  intros HR. induction 1 as [|x l Hx Hl IH]; [constructor |].
  rewrite !StronglySorted_cons. intros [Hall Hs]. split; [| auto].
  rewrite Forall_forall in Hall, Hl |- *. eauto.
Qed.

Lemma Forall_concat_map {A C} (P : C -> Prop) (f : A -> list C) (l : list A) :
  Forall P (concat (map f l)) <-> Forall (fun x => Forall P (f x)) l.
Proof.
  induction l as [|x l IH]; simpl; [split; constructor |].
  rewrite Forall_app, Forall_cons, IH. done.
Qed.
