(* ===== verification/CString.v ===== *)
(** C strings: the functions of <string.h> that the programs call, on byte lists
    without NUL, with the size of the destination array where they write. *)

From S2P Require Import Prelude.

Definition NUL : ascii := "000".
Definition SOH : ascii := "001".
Definition STX : ascii := "002".
Definition VT : ascii := "011".
Definition LF : ascii := "010".
Definition SLASH : ascii := "/".

(** [MAXPATHLEN] of <sys/param.h>. *)
Definition MAXPATHLEN : Z := 4096.

Definition strlen (s : bytes) : Z := Z.of_nat (length s).

(** The C string at the start of a buffer: its bytes before the first NUL. *)
Fixpoint cstr (buf : bytes) : bytes :=
  match buf with
  | [] => []
  | c :: buf' => if decide (c = NUL) then [] else c :: cstr buf'
  end.

(** A list of bytes that is a C string. *)
Definition nul_free (s : bytes) : Prop := NUL ∉ s.

(** ** Comparison *)

(** [strcmp]: negative, zero or positive as the first differing bytes, read as
    unsigned, decide. *)
Fixpoint strcmp (a b : bytes) : Z :=
  match a, b with
  | [], [] => 0
  | [], _ :: _ => -1
  | _ :: _, [] => 1
  | x :: a', y :: b' =>
      if code x =? code y then strcmp a' b' else code x - code y
  end.

(** [strncmp]: the comparison of at most [n] bytes. *)
Definition strncmp (a b : bytes) (n : Z) : Z :=
  strcmp (take (Z.to_nat n) a) (take (Z.to_nat n) b).

Definition bytes_lt (a b : bytes) : Prop := strcmp a b < 0.
#[global] Instance bytes_lt_dec a b : Decision (bytes_lt a b) := Z_lt_dec _ _.

Definition bytes_le (a b : bytes) : Prop := strcmp a b <= 0.
#[global] Instance bytes_le_dec a b : Decision (bytes_le a b) := Z_le_dec _ _.

(** ** Copying and concatenation

    [cap] is the size of the destination array: the copy writes the bytes and
    the terminating NUL, and is undefined behaviour when they do not fit. *)

Definition strcpy {S} (cap : Z) (src : bytes) : M S bytes :=
  _ ← assert_defined (strlen src <? cap); mret src.

Definition strcat {S} (cap : Z) (dst src : bytes) : M S bytes :=
  _ ← assert_defined (strlen dst + strlen src <? cap); mret (dst ++ src).

(** [strncpy(buf, src, n)] on an array [buf]: writes exactly [n] bytes, the
    string cut at [n] and padded with NULs; the rest of [buf] is kept. *)
Definition strncpy {S} (buf src : bytes) (n : Z) : M S bytes :=
  _ ← assert_defined (n <=? strlen buf);
  let k := Z.to_nat n in
  mret (take k (src ++ replicate k NUL) ++ drop k buf).

(** GNU [basename]: the bytes after the last slash. *)
Fixpoint basename_from (acc s : bytes) : bytes :=
  match s with
  | [] => rev acc
  | c :: s' => if decide (c = SLASH) then basename_from [] s' else basename_from (c :: acc) s'
  end.
Definition basename (s : bytes) : bytes := basename_from [] s.

(** ** The order of [strcmp] *)

Lemma strcmp_refl a : strcmp a a = 0.
Proof. induction a as [|x a IH]; simpl; [done |]. by rewrite Z.eqb_refl. Qed.

Lemma strcmp_eq a b : strcmp a b = 0 <-> a = b.
Proof.
  split; [| intros ->; apply strcmp_refl].
  revert b. induction a as [|x a IH]; intros [|y b]; simpl; try done.
  destruct (code x =? code y) eqn:E; intros H.
  - apply Z.eqb_eq, code_inj in E as ->. f_equal. by apply IH.
  - lia.
Qed.

Lemma strcmp_lt_gt a b : strcmp a b < 0 <-> 0 < strcmp b a.
Proof.
  revert b. induction a as [|x a IH]; intros [|y b]; simpl; try lia.
  destruct (code x =? code y) eqn:E.
  - apply Z.eqb_eq in E. rewrite E, Z.eqb_refl. apply IH.
  - rewrite Z.eqb_sym, E. lia.
Qed.

#[global] Instance bytes_lt_trans : Transitive bytes_lt.
Proof.
  unfold bytes_lt. intros a. induction a as [|x a IH]; intros [|y b] [|z c]; simpl; try lia.
  destruct (code x =? code y) eqn:E1, (code y =? code z) eqn:E2,
    (code x =? code z) eqn:E3; intros; try lia. eapply IH; eauto.
Qed.

#[global] Instance bytes_lt_irrefl : Irreflexive bytes_lt.
Proof. intros a. unfold complement, bytes_lt. rewrite strcmp_refl. lia. Qed.

#[global] Instance bytes_lt_strict : StrictOrder bytes_lt.
Proof. split; apply _. Qed.

Lemma bytes_trichotomy a b : bytes_lt a b \/ a = b \/ bytes_lt b a.
Proof.
  unfold bytes_lt. pose proof (strcmp_lt_gt b a). pose proof (strcmp_eq a b).
  destruct (Z.lt_trichotomy (strcmp a b) 0) as [?|[?|?]]; [auto | | right; right; lia].
  right. left. tauto.
Qed.

Lemma bytes_lt_not_gt a b : bytes_lt a b -> ~ bytes_lt b a.
Proof. intros H1 H2. by apply (bytes_lt_irrefl a), (bytes_lt_trans a b a). Qed.

Lemma bytes_le_lteq a b : bytes_le a b <-> bytes_lt a b \/ a = b.
Proof. unfold bytes_le, bytes_lt. rewrite <- strcmp_eq. lia. Qed.

#[global] Instance bytes_le_trans : Transitive bytes_le.
Proof.
  intros a b c. rewrite !bytes_le_lteq.
  intros [H1 | ->] [H2 | ->]; eauto. left. by transitivity b.
Qed.

#[global] Instance bytes_le_total : Total bytes_le.
Proof.
  intros a b. rewrite !bytes_le_lteq. destruct (bytes_trichotomy a b) as [?|[?|?]]; auto.
Qed.

Lemma strcmp_app_l p a b : strcmp (p ++ a) (p ++ b) = strcmp a b.
Proof. induction p as [|x p IH]; simpl; [done |]. by rewrite Z.eqb_refl. Qed.

Lemma bytes_lt_app_l p a b : bytes_lt (p ++ a) (p ++ b) <-> bytes_lt a b.
Proof. unfold bytes_lt. by rewrite strcmp_app_l. Qed.

(** A proper prefix comes first. *)
Lemma bytes_lt_prefix p c a : bytes_lt p (p ++ c :: a).
Proof. rewrite <- (app_nil_r p) at 1. rewrite bytes_lt_app_l. done. Qed.

Lemma bytes_lt_code c d a b : code c < code d -> bytes_lt (c :: a) (d :: b).
Proof.
  unfold bytes_lt. simpl. intros H. destruct (code c =? code d) eqn:E; lia.
Qed.

Lemma bytes_lt_head c d a b : bytes_lt (c :: a) (d :: b) -> c <> d -> code c < code d.
Proof.
  unfold bytes_lt. simpl. intros H Hne. destruct (code c =? code d) eqn:E; [| lia].
  apply Z.eqb_eq, code_inj in E. done.
Qed.

(** When [a] and [b] differ before either ends, what follows is irrelevant. *)
Lemma bytes_lt_extend a b x y :
  bytes_lt a b -> ~ a `prefix_of` b -> bytes_lt (a ++ x) (b ++ y).
Proof.
  unfold bytes_lt. revert b. induction a as [|c a IH]; intros b Hlt Hp.
  - destruct Hp. apply prefix_nil.
  - destruct b as [|d b]; simpl in *; [lia |].
    destruct (code c =? code d) eqn:E; [| lia].
    apply IH; [done |]. intros Hp'. apply Hp.
    apply Z.eqb_eq, code_inj in E as ->. by apply prefix_cons.
Qed.

(** The strings between [p] and an extension of [p] extend [p]. *)
Lemma bytes_between_prefix p a b :
  bytes_lt p a -> bytes_lt a b -> p `prefix_of` b -> p `prefix_of` a.
Proof.
  unfold bytes_lt. intros H1 H2 [k ->]. revert a H1 H2.
  induction p as [|c p IH]; intros a H1 H2; [apply prefix_nil |].
  destruct a as [|d a]; simpl in *; [lia |].
  destruct (code c =? code d) eqn:E.
  - apply Z.eqb_eq, code_inj in E as ->. rewrite Z.eqb_refl in H2.
    apply prefix_cons. by apply IH.
  - rewrite Z.eqb_sym, E in H2. lia.
Qed.

Lemma strncmp_prefix p s : strncmp p s (strlen p) = 0 <-> p `prefix_of` s.
Proof.
  unfold strncmp, strlen. rewrite Nat2Z.id, strcmp_eq, firstn_all. split.
  - intros H. exists (drop (length p) s). rewrite H at 1. symmetry. apply take_drop.
  - intros [k ->]. by rewrite take_app_length.
Qed.

(** ** C strings in buffers *)

Lemma cstr_nul_free s : nul_free (cstr s).
Proof.
  unfold nul_free. induction s as [|c s IH]; simpl; [apply not_elem_of_nil |].
  destruct (decide (c = NUL)) as [->|Hc]; [apply not_elem_of_nil |].
  rewrite not_elem_of_cons. by split.
Qed.

Lemma cstr_app s buf : nul_free s -> cstr (s ++ NUL :: buf) = s.
Proof.
  unfold nul_free. induction s as [|c s IH]; simpl; [done |].
  rewrite not_elem_of_cons. intros [Hc Hs]. rewrite decide_False by congruence.
  by rewrite IH.
Qed.

Lemma cstr_id s : nul_free s -> cstr s = s.
Proof.
  unfold nul_free. induction s as [|c s IH]; simpl; [done |].
  rewrite not_elem_of_cons. intros [Hc Hs]. rewrite decide_False by congruence.
  by rewrite IH.
Qed.

Lemma nul_free_app a b : nul_free (a ++ b) <-> nul_free a /\ nul_free b.
Proof. unfold nul_free. rewrite not_elem_of_app. done. Qed.

Lemma strlen_nonneg s : 0 <= strlen s.
Proof. unfold strlen. lia. Qed.

Lemma strlen_app a b : strlen (a ++ b) = strlen a + strlen b.
Proof. unfold strlen. rewrite length_app. lia. Qed.

(** ** Running the copying functions *)

Lemma strcpy_fits {S} cap src (s : S) : strlen src < cap -> strcpy cap src s = Ret (src, s).
Proof.
  intros H. unfold strcpy, assert_defined, mbind, M_bind.
  by replace (strlen src <? cap) with true by lia.
Qed.


Lemma strlen_cons c s : strlen (c :: s) = 1 + strlen s.
Proof. unfold strlen. simpl. lia. Qed.

Lemma strlen_pos s : s <> [] -> (strlen s <=? 0) = false.
Proof. destruct s; [done |]. unfold strlen. simpl. lia. Qed.

Lemma runs_strcpy {S} cap src (s : S) (Q : bytes -> S -> Prop) :
  strlen src < cap -> Q src s -> runs (strcpy cap src) s Q.
Proof.
  intros. unfold strcpy. apply runs_bind, runs_assert; [by apply Z.ltb_lt |].
  by apply runs_ret.
Qed.

Lemma runs_strcat {S} cap dst src (s : S) (Q : bytes -> S -> Prop) :
  strlen dst + strlen src < cap -> Q (dst ++ src) s -> runs (strcat cap dst src) s Q.
Proof.
  intros. unfold strcat. apply runs_bind, runs_assert; [by apply Z.ltb_lt |].
  by apply runs_ret.
Qed.

Lemma no_hang_strcpy {S} cap src : no_hang (strcpy cap src : M S bytes).
Proof. never_hangs. Qed.

Lemma no_hang_strcat {S} cap dst src : no_hang (strcat cap dst src : M S bytes).
Proof. never_hangs. Qed.

Lemma no_hang_strncpy {S} buf src n : no_hang (strncpy buf src n : M S bytes).
Proof. never_hangs. Qed.

#[export] Hint Resolve no_hang_strcpy no_hang_strcat no_hang_strncpy : no_hang.

(** ** [basename] *)

Lemma basename_from_app acc d n :
  SLASH ∉ n -> basename_from acc (d ++ SLASH :: n) = n.
Proof.
  intros Hn. revert acc. induction d as [|c d IH]; intros acc; simpl.
  - assert (forall acc', basename_from acc' n = rev acc' ++ n) as Hgen.
    { clear acc. revert Hn. induction n as [|c n IH]; intros Hn acc; simpl.
      - by rewrite app_nil_r.
      - apply not_elem_of_cons in Hn as [Hc Hn].
        rewrite decide_False by congruence. rewrite IH by done. simpl.
        by rewrite <- app_assoc. }
    apply Hgen.
  - destruct (decide (c = SLASH)); apply IH.
Qed.

Lemma basename_app d n : SLASH ∉ n -> basename (d ++ SLASH :: n) = n.
Proof. apply basename_from_app. Qed.
