(* ===== verification/CStdio.v ===== *)
(** The parts of <stdio.h> and <stdlib.h> that the programs call: the [printf]
    conversions, an interpreter of [sscanf] formats, [atoi] and [atol], and the
    round trip between a printed integer and its conversion back. *)

From S2P Require Import Prelude.
From S2P Require Import CString.

(** * Character classes *)

(** [isspace] in the C locale. *)
Definition is_space (c : ascii) : bool :=
  (code c =? 32) || ((9 <=? code c) && (code c <=? 13)).

Fixpoint skip_space (s : bytes) : bytes :=
  match s with
  | c :: s' => if is_space c then skip_space s' else s
  | [] => []
  end.

(** The value of a digit in base [b <= 10]. *)
Definition digit_val (b : Z) (c : ascii) : option Z :=
  let d := code c - 48 in
  if (0 <=? d) && (d <? b) then Some d else None.

(** * Printing *)

(** The digit of value [d < 10]. *)
Definition digit (d : Z) : ascii := ascii_of_N (Z.to_N (48 + d)).

Fixpoint digits (fuel : nat) (b n : Z) : bytes :=
  match fuel with
  | O => []
  | S fuel' => if n <? b then [digit n] else digits fuel' b (n / b) ++ [digit (n mod b)]
  end.

(** The digits of [n >= 0] in base [b >= 2]: [log2 n + 1] steps are enough. *)
Definition show_nat (b n : Z) : bytes := digits (S (Z.to_nat (Z.log2 n))) b n.

(** [%d], [%ld] and [%lld]. *)
Definition show_dec (n : Z) : bytes :=
  if n <? 0 then "-"%char :: show_nat 10 (- n) else show_nat 10 n.

(** [%lo], of an [unsigned long]. *)
Definition show_oct (n : Z) : bytes := show_nat 8 (to_u64 n).

(** * Scanning *)

Fixpoint scan_digits (b acc : Z) (s : bytes) : Z * bytes :=
  match s with
  | c :: s' =>
      match digit_val b c with
      | Some d => scan_digits b (acc * b + d) s'
      | None => (acc, s)
      end
  | [] => (acc, [])
  end.

(** At least one digit. *)
Definition scan_nat (b : Z) (s : bytes) : option (Z * bytes) :=
  match s with
  | c :: _ => match digit_val b c with
              | Some _ => Some (scan_digits b 0 s)
              | None => None
              end
  | [] => None
  end.

(** An optional sign and digits, after white space. *)
Definition scan_int (b : Z) (s : bytes) : option (Z * bytes) :=
  match skip_space s with
  | c :: s' =>
      if decide (c = "-"%char) then
        match scan_nat b s' with Some (v, r) => Some (- v, r) | None => None end
      else if decide (c = "+"%char) then scan_nat b s'
      else scan_nat b (c :: s')
  | [] => None
  end.

(** [atoi] and [atol]: 0 when there is no number; [None] (undefined behaviour)
    when the value is not representable. *)
Definition ato (fits : Z -> bool) (s : bytes) : option Z :=
  match scan_int 10 s with
  | Some (v, _) => if fits v then Some v else None
  | None => Some 0
  end.
Definition atoi : bytes -> option Z := ato in_i32.
Definition atol : bytes -> option Z := ato in_i64.

(** ** Message formats *)

(** A format of the [printf] family that takes no argument: each [%] starts [%%]
    or the GNU [%m]. *)
Fixpoint format_plain (s : bytes) : bool :=
  match s with
  | [] => true
  | c :: s' =>
      if decide (c = "%"%char) then
        match s' with
        | d :: s'' => bool_decide (d = "%"%char \/ d = "m"%char) && format_plain s''
        | [] => false
        end
      else format_plain s'
  end.

(** [error(0, errnum, format)] without further arguments. *)
Definition error {S} (format : bytes) : M S unit := assert_defined (format_plain format).

Lemma runs_error {S} format (s : S) (Q : unit -> S -> Prop) :
  format_plain format = true -> Q tt s -> runs (error format) s Q.
Proof. apply runs_assert. Qed.

Lemma no_hang_error {S} format : no_hang (error format : M S unit).
Proof. apply no_hang_assert. Qed.
#[export] Hint Resolve no_hang_error : no_hang.

(** ** [sscanf] *)

Inductive intconv := Cd | Cld | Clo.

Definition conv_base (k : intconv) : Z := match k with Clo => 8 | _ => 10 end.

(** The value stored by a conversion; [None] when the result does not fit the
    object, which the C standard leaves undefined. [%lo] converts to [unsigned
    long] and stores the bits in a [long]. *)
Definition conv_store (k : intconv) (v : Z) : option Z :=
  match k with
  | Cd => if in_i32 v then Some v else None
  | Cld => if in_i64 v then Some v else None
  | Clo => if (- 2 ^ 64 <? v) && (v <? 2 ^ 64) then Some (to_i64 v) else None
  end.

Inductive directive :=
| DSpace                              (* white space in the format *)
| DLit (c : ascii)                    (* any other ordinary character *)
| DChar                               (* %c *)
| DInt (k : intconv)                  (* %d, %ld, %lld, %lo *)
| DNotSet (stop : ascii) (cap : Z)    (* %[^stop] into an array of [cap] bytes *)
| DSkipWord                           (* %*s *)
| DSkipInt (k : intconv).             (* %*d *)

Inductive sval := VChar (c : ascii) | VInt (z : Z) | VStr (s : bytes).

Fixpoint span_not (stop : ascii) (s : bytes) : bytes * bytes :=
  match s with
  | c :: s' => if decide (c = stop) then ([], s)
               else let '(u, r) := span_not stop s' in (c :: u, r)
  | [] => ([], [])
  end.

Fixpoint span_word (s : bytes) : bytes * bytes :=
  match s with
  | c :: s' => if is_space c then ([], s)
               else let '(u, r) := span_word s' in (c :: u, r)
  | [] => ([], [])
  end.

(** The values assigned by [sscanf], in order, up to the first directive that
    fails; [None] is undefined behaviour. *)
Fixpoint sscanf (fmt : list directive) (s : bytes) : option (list sval) :=
  match fmt with
  | [] => Some []
  | DSpace :: fmt' => sscanf fmt' (skip_space s)
  | DLit c :: fmt' =>
      match s with
      | x :: s' => if decide (x = c) then sscanf fmt' s' else Some []
      | [] => Some []
      end
  | DChar :: fmt' =>
      match s with
      | x :: s' => cons (VChar x) <$> sscanf fmt' s'
      | [] => Some []
      end
  | DInt k :: fmt' =>
      match scan_int (conv_base k) s with
      | Some (v, s') =>
          match conv_store k v with
          | Some w => cons (VInt w) <$> sscanf fmt' s'
          | None => None
          end
      | None => Some []
      end
  | DNotSet stop cap :: fmt' =>
      let '(u, s') := span_not stop s in
      match u with
      | [] => Some []
      | _ => if strlen u <? cap then cons (VStr u) <$> sscanf fmt' s' else None
      end
  | DSkipWord :: fmt' =>
      let '(u, s') := span_word (skip_space s) in
      match u with
      | [] => Some []
      | _ => sscanf fmt' s'
      end
  | DSkipInt k :: fmt' =>
      match scan_int (conv_base k) s with
      | Some (_, s') => sscanf fmt' s'
      | None => Some []
      end
  end.

(** * Round trips *)

Lemma code_digit d : 0 <= d < 10 -> code (digit d) = 48 + d.
Proof.
  intros. unfold code, digit. rewrite N_ascii_embedding by lia. lia.
Qed.

Lemma digit_val_digit b d : 0 <= d < b -> b <= 10 -> digit_val b (digit d) = Some d.
Proof.
  intros. unfold digit_val. rewrite code_digit by lia.
  replace (48 + d - 48) with d by lia.
  destruct ((0 <=? d) && (d <? b)) eqn:E; [done | lia].
Qed.

Lemma digits_scan b fuel n acc rest :
  2 <= b <= 10 -> 0 <= n < b ^ Z.of_nat fuel ->
  scan_digits b acc (digits fuel b n ++ rest) =
  scan_digits b (acc * b ^ strlen (digits fuel b n) + n) rest.
Proof.
  intros Hb. revert n acc rest. induction fuel as [|fuel IH]; intros n acc rest Hn.
  { simpl in Hn. assert (n = 0) as -> by lia. simpl. f_equal. unfold strlen. simpl. lia. }
  simpl. destruct (n <? b) eqn:E.
  { simpl. rewrite digit_val_digit by lia. do 2 f_equal. unfold strlen. simpl. lia. }
  rewrite <- app_assoc. rewrite Nat2Z.inj_succ, Z.pow_succ_r in Hn by lia.
  rewrite IH.
  2:{ split; [apply Z.div_pos; lia | apply Z.div_lt_upper_bound; lia]. }
  simpl. pose proof (Z.mod_pos_bound n b ltac:(lia)).
  rewrite digit_val_digit by lia.
  f_equal. rewrite strlen_app. change (strlen [_]) with 1.
  pose proof (strlen_nonneg (digits fuel b (n / b))).
  rewrite Z.pow_add_r, Z.pow_1_r by lia.
  pose proof (Z.div_mod n b ltac:(lia)). nia.
Qed.

Lemma log2_fuel b n : 2 <= b -> 0 <= n -> n < b ^ Z.of_nat (S (Z.to_nat (Z.log2 n))).
Proof.
  intros Hb Hn. rewrite Nat2Z.inj_succ, Z2Nat.id by apply Z.log2_nonneg.
  destruct (decide (n = 0)) as [->|].
  - apply Z.pow_pos_nonneg; [lia |]. pose proof (Z.log2_nonneg 0). lia.
  - pose proof (Z.log2_spec n ltac:(lia)) as [_ H].
    eapply Z.lt_le_trans; [exact H |]. apply Z.pow_le_mono_l. lia.
Qed.

(** The text after a number does not go on with a digit. *)
Definition ends_number (b : Z) (rest : bytes) : Prop :=
  match rest with
  | c :: _ => digit_val b c = None
  | [] => True
  end.

Lemma digits_head b fuel n :
  2 <= b <= 10 -> 0 <= n -> exists d s, digits (S fuel) b n = digit d :: s /\ 0 <= d < b.
Proof.
  intros Hb. revert n. induction fuel as [|fuel IH]; intros n Hn; simpl.
  - destruct (n <? b) eqn:E; [exists n, []; split; [done | lia] |].
    exists (n mod b), []. split; [done |]. apply Z.mod_pos_bound. lia.
  - destruct (n <? b) eqn:E; [exists n, []; split; [done | lia] |].
    destruct (IH (n / b)) as (d & s & Hd & Hr); [apply Z.div_pos; lia |].
    exists d, (s ++ [digit (n mod b)]). split; [| done].
    cbn [digits] in Hd. by rewrite Hd.
Qed.

Lemma scan_nat_show b n rest :
  2 <= b <= 10 -> 0 <= n -> ends_number b rest ->
  scan_nat b (show_nat b n ++ rest) = Some (n, rest).
Proof.
  intros Hb Hn Hrest. unfold scan_nat, show_nat.
  destruct (digits_head b (Z.to_nat (Z.log2 n)) n Hb Hn) as (d & s & Hd & Hr).
  assert (scan_digits b 0 (digits (S (Z.to_nat (Z.log2 n))) b n ++ rest) = (n, rest)) as Hs.
  { rewrite digits_scan; [| done | split; [done | apply log2_fuel; lia]].
    rewrite Z.mul_0_l, Z.add_0_l. destruct rest as [|c rest]; simpl in *; [done |].
    by rewrite Hrest. }
  rewrite Hd in *. cbn [app] in *. rewrite digit_val_digit by lia. by rewrite Hs.
Qed.

Lemma digit_not_special d :
  0 <= d < 10 ->
  is_space (digit d) = false /\ digit d <> "-"%char /\ digit d <> "+"%char.
Proof.
  intros Hd. pose proof (code_digit d Hd) as Hc. split_and!.
  - unfold is_space. rewrite Hc. lia.
  - intros E. rewrite E in Hc. change (code "-") with 45 in Hc. lia.
  - intros E. rewrite E in Hc. change (code "+") with 43 in Hc. lia.
Qed.

Lemma scan_int_unsigned b n rest :
  2 <= b <= 10 -> 0 <= n -> ends_number b rest ->
  scan_int b (show_nat b n ++ rest) = Some (n, rest).
Proof.
  intros Hb Hn Hrest. rewrite <- (scan_nat_show b n rest) by done.
  unfold scan_int, show_nat.
  destruct (digits_head b (Z.to_nat (Z.log2 n)) n Hb Hn) as (d & s & -> & Hr).
  destruct (digit_not_special d ltac:(lia)) as (H1 & H2 & H3).
  cbn [app skip_space]. rewrite H1. by rewrite !decide_False.
Qed.

(** Printing in decimal and converting back, with blanks before the number. *)
Lemma scan_int_dec n rest :
  ends_number 10 rest -> scan_int 10 (show_dec n ++ rest) = Some (n, rest).
Proof.
  intros Hrest. unfold show_dec. destruct (n <? 0) eqn:E.
  - unfold scan_int. cbn [app skip_space].
    replace (is_space "-") with false by reflexivity.
    rewrite decide_True by done. rewrite scan_nat_show by (done || lia).
    do 2 f_equal. lia.
  - apply scan_int_unsigned; [lia | lia | done].
Qed.

Lemma scan_int_space b s : scan_int b (" "%char :: s) = scan_int b s.
Proof. reflexivity. Qed.

Lemma skip_space_space s : skip_space (" "%char :: s) = skip_space s.
Proof. reflexivity. Qed.

Lemma digits_chars b fuel n :
  2 <= b <= 10 -> 0 <= n -> Forall (fun c => 48 <= code c < 58) (digits fuel b n).
Proof.
  intros Hb. revert n. induction fuel as [|fuel IH]; intros n Hn; simpl; [constructor |].
  destruct (n <? b) eqn:E.
  - constructor; [| constructor]. rewrite code_digit by lia. lia.
  - apply Forall_app. split; [apply IH, Z.div_pos; lia |].
    constructor; [| constructor]. pose proof (Z.mod_pos_bound n b ltac:(lia)).
    rewrite code_digit by lia. lia.
Qed.

(** Printed numbers are made of digits and a sign. *)
Lemma show_nat_chars b n :
  2 <= b <= 10 -> 0 <= n -> Forall (fun c => 45 <= code c < 58) (show_nat b n).
Proof.
  intros Hb Hn. unfold show_nat.
  eapply Forall_impl; [apply digits_chars; done |]. simpl. lia.
Qed.

Lemma show_dec_chars n : Forall (fun c => 45 <= code c < 58) (show_dec n).
Proof.
  unfold show_dec. destruct (n <? 0) eqn:E; [constructor; [by compute |] |];
    apply show_nat_chars; lia.
Qed.

Lemma show_oct_chars n : Forall (fun c => 45 <= code c < 58) (show_oct n).
Proof.
  unfold show_oct. apply show_nat_chars; [lia |].
  unfold to_u64, to_unsigned. apply Z.mod_pos_bound. lia.
Qed.

Lemma span_not_app stop u r :
  stop ∉ u -> span_not stop (u ++ stop :: r) = (u, stop :: r).
Proof.
  induction u as [|c u IH]; simpl.
  - by rewrite decide_True.
  - rewrite not_elem_of_cons. intros [Hc Hu].
    rewrite decide_False by congruence. by rewrite IH.
Qed.
