(* ===== verification/Entry.v ===== *)
(** catalogfs.c, the catalog record reader: [getEntry_from_catalog] and its
    wrapper [getEntry_depth_filepath], with the process
    state they change (heap blocks, file descriptors) and the interface
    [CatalogView] that the search is proved against. *)

From S2P Require Import Prelude.
From S2P Require Import CString.
From S2P Require Import CStdio.

(** * File types and attributes *)

Definition S_IFIFO : Z := 4096.
Definition S_IFCHR : Z := 8192.
Definition S_IFDIR : Z := 16384.
Definition S_IFBLK : Z := 24576.
Definition S_IFREG : Z := 32768.
Definition S_IFLNK : Z := 40960.
Definition S_IFSOCK : Z := 49152.

(** The fields of [struct stat] that the programs use: [st_mode], [st_uid] and
    [st_gid] are 32-bit unsigned, [st_nlink] 64-bit unsigned, the size and the
    times 64-bit signed. *)
Record stat := Stat {
  st_mode : Z; st_nlink : Z; st_uid : Z; st_gid : Z; st_size : Z;
  st_atime : Z; st_mtime : Z; st_ctime : Z }.

#[global] Instance stat_eq_dec : EqDecision stat.
Proof. solve_decision. Defined.

(** [memset(&st, 0, sizeof st)]. *)
Definition zero_stat : stat := Stat 0 0 0 0 0 0 0 0.

Record stat_wdf := StatWdf {
  depth : Z; file_path : bytes; st_data : stat; link_dest : bytes }.

(** * The process *)

(** Resources of the process; [ticks] counts the calls whose locals are
    indeterminate, so that two calls need not find the same stack contents. *)
Record sys := Sys { ticks : nat; live_blocks : Z; open_fds : Z }.

Definition tick (s : sys) : sys := Sys (S (ticks s)) (live_blocks s) (open_fds s).
Definition add_block (s : sys) : sys := Sys (S (ticks s)) (live_blocks s + 1) (open_fds s).
Definition fd_opened (s : sys) : sys := Sys (ticks s) (live_blocks s) (open_fds s + 1).
Definition fd_closed (s : sys) : sys := Sys (ticks s) (live_blocks s) (open_fds s - 1).

(** What [open] and [read] find under the catalog's name. *)
Inductive catalog_source :=
| Unopenable                  (* open returns -1 *)
| Unreadable                  (* open succeeds and read returns -1: a directory *)
| Readable (data : bytes).

(** The indeterminate contents of the locals of [getEntry_from_catalog]. *)
Record frame := Frame {
  f_entry : nat -> ascii;
  f_c : ascii; f_mode : Z; f_nlink : Z; f_uid : Z; f_gid : Z; f_size : Z;
  f_atime : Z; f_mtime : Z; f_ctime : Z; f_depth : Z;
  f_file_path : bytes; f_link_dest : bytes }.

(** The globals [catalogFile], [entry_size] and [catalog_len] that [main] sets
    once, and the surroundings: the file, the allocator, the stack contents;
    [dead_stack n s] is what a caller, which calls nothing but [strcpy], finds in a
    returned call's array that held [s], and [printf_leaves n s] what it finds there
    after a call of [printf], which uses the same stack. *)
Record env := Env {
  catalogFile : bytes;
  entry_size : Z;
  catalog_len : Z;
  source : catalog_source;
  malloc_ok : nat -> bool;
  junk : nat -> frame;
  junk_mid : Z;
  dead_stack : nat -> bytes -> bytes;
  printf_leaves : nat -> bytes -> bytes }.

(** A string of [getEntry_from_catalog]'s frame read by the caller after the
    return, through the pointer left in the [stat_wdf]: what the dead array still
    holds is up to the implementation. *)
Definition read_dead (e : env) (s : bytes) : M sys bytes :=
  st ← get; mret (dead_stack e (ticks st) s).

(** The same after a call of [printf]. *)
Definition read_printed (e : env) (s : bytes) : M sys bytes :=
  st ← get; mret (printf_leaves e (ticks st) s).

Definition malloc (e : env) : M sys bool :=
  s ← get;
  if malloc_ok e (ticks s) then _ ← modify add_block; mret true
  else _ ← modify tick; mret false.

(** * Decoding one record *)

(** The format of the [sscanf] call:
    [%c %lo %ld %ld %ld %lld %lld %lld %lld %d \1%[^\1]s\1\n]. *)
Definition catalog_format : list directive :=
  [DChar; DSpace; DInt Clo; DSpace; DInt Cld; DSpace; DInt Cld; DSpace; DInt Cld;
   DSpace; DInt Cld; DSpace; DInt Cld; DSpace; DInt Cld; DSpace; DInt Cld; DSpace;
   DInt Cd; DSpace; DLit SOH; DNotSet SOH MAXPATHLEN; DLit "s"; DLit SOH; DSpace].

Definition frame_vars (u : frame) : list sval :=
  [VChar (f_c u); VInt (f_mode u); VInt (f_nlink u); VInt (f_uid u); VInt (f_gid u);
   VInt (f_size u); VInt (f_atime u); VInt (f_mtime u); VInt (f_ctime u);
   VInt (f_depth u); VStr (f_file_path u)].

(** The variables after a call that assigned [vs] to the first of them. *)
Definition assign (vs vars : list sval) : list sval := vs ++ drop (length vs) vars.

(** The [switch(c)] that adds the file type to the permission bits. *)
Definition mode_of_type (c : ascii) (mode : Z) : Z :=
  if decide (c = "d"%char) then Z.lor S_IFDIR mode
  else if decide (c = "l"%char) then Z.lor S_IFLNK mode
  else if decide (c = "f"%char) then Z.lor S_IFREG mode
  else if decide (c = "b"%char) then Z.lor S_IFBLK mode
  else if decide (c = "c"%char) then Z.lor S_IFCHR mode
  else if decide (c = "p"%char) then Z.lor S_IFIFO mode
  else if decide (c = "s"%char) then Z.lor S_IFSOCK mode
  else mode.

(** The loop that cuts a link's text at [\2]: the path and the destination; the
    destination keeps its indeterminate contents when there is no [\2]. *)
Definition split_link (file_path junk_dest : bytes) : bytes * bytes :=
  match span_not STX file_path with
  | (temp, _ :: dest) => (temp, dest)
  | (temp, []) => (temp, junk_dest)
  end.

(** From the bytes of the record to the [stat_wdf]; [None] is undefined
    behaviour. *)
Definition decode_entry (u : frame) (entry : bytes) : option stat_wdf :=
  match sscanf catalog_format entry with
  | None => None
  | Some vs =>
      match assign vs (frame_vars u) with
      | [VChar c; VInt mode; VInt nlink; VInt uid; VInt gid; VInt size; VInt atime;
         VInt mtime; VInt ctime; VInt depth; VStr file_path] =>
          let st := Stat (to_u32 (mode_of_type c mode)) (to_u64 nlink) (to_u32 uid)
                         (to_u32 gid) size atime mtime ctime in
          if decide (c = "l"%char) then
            if strlen file_path <? MAXPATHLEN then
              let '(path, dest) := split_link file_path (f_link_dest u) in
              Some (StatWdf depth path st dest)
            else None
          else Some (StatWdf depth file_path st [])
      | _ => None
      end
  end.

(** * Reading a record from the file *)

(** The text of [errormsg] before the file name. *)
Definition open_error : bytes := LF :: B "ERROR:Cannot open catalog file:".

(** The array [entry] after the read: what was read, then indeterminate bytes,
    and the NUL stored at [entry[entry_size]]. *)
Definition fill_entry (u : frame) (size : nat) (got : bytes) : bytes :=
  got ++ map (f_entry u) (seq (length got) (size - length got)) ++ [NUL].

Definition getEntry_from_catalog (e : env) (location : Z) : M sys (option stat_wdf) :=
  s ← get;
  let u := junk e (ticks s) in
  _ ← modify tick;
  _ ← assert_defined (0 <=? entry_size e);           (* char entry[entry_size+1] *)
  errormsg ← strcpy 256 (open_error ++ catalogFile e); (* sprintf *)
  match source e with
  | Unopenable => _ ← error errormsg; exit (-1)
  | src =>
      _ ← modify fd_opened;
      _ ← assert_defined (in_i64 (entry_size e * location));
      let offset := to_i32 (entry_size e * location) in
      if offset <? 0 then mret None                  (* lseek fails; fd stays open *)
      else
        match src with
        | Readable data =>
            let got := take (Z.to_nat (entry_size e)) (drop (Z.to_nat offset) data) in
            _ ← modify fd_closed;
            let entry := cstr (fill_entry u (Z.to_nat (entry_size e)) got) in
            match decode_entry u entry with
            | Some w => mret (Some w)
            | None => ub
            end
        | _ => mret None                             (* read fails; fd stays open *)
        end
  end.

(** The depth and path of a record; the block that receives it is never freed. *)
Definition getEntry_depth_filepath (e : env) (location : Z) : M sys (option (Z * bytes)) :=
  ok ← malloc e;
  _ ← assert_defined ok;                             (* memset of the block *)
  r ← getEntry_from_catalog e location;
  match r with
  | None => mret None
  | Some w =>
      path ← read_dead e (file_path w);
      p ← strcpy MAXPATHLEN path;
      mret (Some (depth w, p))
  end.

(** * Facts *)

Lemma no_hang_malloc e : no_hang (malloc e).
Proof. unfold malloc. never_hangs. Qed.
#[export] Hint Resolve no_hang_malloc : no_hang.

Lemma no_hang_read_dead e p : no_hang (read_dead e p).
Proof. unfold read_dead. never_hangs. Qed.
#[export] Hint Resolve no_hang_read_dead : no_hang.

Lemma no_hang_read_printed e p : no_hang (read_printed e p).
Proof. unfold read_printed. never_hangs. Qed.
#[export] Hint Resolve no_hang_read_printed : no_hang.

Lemma no_hang_getEntry e i : no_hang (getEntry_from_catalog e i).
Proof. unfold getEntry_from_catalog. never_hangs. Qed.
#[export] Hint Resolve no_hang_getEntry : no_hang.

Lemma no_hang_getEntry_depth_filepath e i : no_hang (getEntry_depth_filepath e i).
Proof. unfold getEntry_depth_filepath. never_hangs. Qed.

#[export] Hint Resolve no_hang_getEntry_depth_filepath : no_hang.

(** * The catalog seen as a list of records

    [CatalogView e l]: whatever the stack holds, reading location [i] of the
    mounted catalog gives the [i]-th record of [l], and leaves no descriptor
    open. The search is proved against this interface; [catalog_view_of_lines]
    discharges it for a file made of records of one size. *)

Class CatalogView (e : env) (l : list stat_wdf) : Prop := {
  view_len : catalog_len e = Z.of_nat (length l);
  view_read : forall i w s,
    zlookup l i = Some w -> getEntry_from_catalog e i s = Ret (Some w, tick s);
  view_path : Forall (fun w => strlen (file_path w) < MAXPATHLEN) l;
  view_malloc : forall n, malloc_ok e n = true;
  view_stack : forall n p, dead_stack e n p = p }.

Section View.
Context {e : env} {l : list stat_wdf} `{!CatalogView e l}.

Lemma view_path_at i w : zlookup l i = Some w -> strlen (file_path w) < MAXPATHLEN.
Proof.
  intros H. pose proof (zlookup_Some _ _ _ H).
  rewrite zlookup_lookup in H by lia.
  exact (Forall_lookup_1 _ _ _ _ (view_path (e := e)) H).
Qed.

Lemma view_depth_filepath i w s :
  zlookup l i = Some w ->
  getEntry_depth_filepath e i s = Ret (Some (depth w, file_path w), tick (add_block s)).
Proof.
  intros H. unfold getEntry_depth_filepath.
  rewrite (bind_runs_eq _ _ _ true (add_block s)).
  2:{ unfold malloc, mbind, M_bind. simpl. by rewrite (view_malloc (ticks s)). }
  rewrite (bind_runs_eq _ _ _ tt (add_block s)) by done.
  rewrite (bind_runs_eq _ _ _ (Some w) (tick (add_block s))) by by apply view_read.
  unfold read_dead, get, mret, M_ret, strcpy, assert_defined, mbind, M_bind.
  rewrite view_stack. pose proof (view_path_at _ _ H) as Hp. apply Z.ltb_lt in Hp. by rewrite Hp.
Qed.
End View.

(** A line of [size] bytes that decodes to [w] whatever the stack holds. *)
Definition encodes (size : nat) (line : bytes) (w : stat_wdf) : Prop :=
  length line = size /\ nul_free line /\ (forall u, decode_entry u line = Some w) /\
  strlen (file_path w) < MAXPATHLEN.

Lemma fill_entry_full u size line :
  length line = size -> fill_entry u size line = line ++ [NUL].
Proof. intros <-. unfold fill_entry. by rewrite Nat.sub_diag. Qed.

Lemma read_line e data size i line w s :
  source e = Readable data -> entry_size e = Z.of_nat size ->
  strlen (open_error ++ catalogFile e) < 256 ->
  0 <= i -> Z.of_nat size * i < 2 ^ 31 ->
  take size (drop (size * Z.to_nat i) data) = line -> encodes size line w ->
  getEntry_from_catalog e i s = Ret (Some w, tick s).
Proof.
  intros Hsrc Hsize Hname Hi Hoff Hline (Hlen & Hnul & Hdec & _).
  unfold getEntry_from_catalog.
  rewrite (bind_runs_eq _ _ _ s s) by done.
  rewrite (bind_runs_eq _ _ _ tt (tick s)) by done.
  rewrite (bind_runs_eq _ _ _ tt (tick s)).
  2:{ unfold assert_defined. by replace (0 <=? entry_size e) with true by lia. }
  rewrite (bind_runs_eq _ _ _ (open_error ++ catalogFile e) (tick s)).
  2:{ unfold strcpy, assert_defined, mbind, M_bind.
      by replace (strlen (open_error ++ catalogFile e) <? 256) with true by lia. }
  rewrite Hsrc. rewrite (bind_runs_eq _ _ _ tt (fd_opened (tick s))) by done.
  rewrite Hsize. rewrite to_i32_id by lia.
  rewrite (bind_runs_eq _ _ _ tt (fd_opened (tick s))).
  2:{ unfold assert_defined, in_i64.
      replace (in_range (- 2 ^ 63) (2 ^ 63 - 1) (Z.of_nat size * i)) with true; [done |].
      symmetry. apply in_range_spec. lia. }
  replace (Z.of_nat size * i <? 0) with false by lia.
  rewrite (bind_runs_eq _ _ _ tt (fd_closed (fd_opened (tick s)))) by done.
  rewrite Nat2Z.id. replace (Z.to_nat (Z.of_nat size * i)) with (size * Z.to_nat i)%nat by lia.
  rewrite Hline, fill_entry_full, cstr_app, Hdec by done.
  unfold mret, M_ret, tick, fd_closed, fd_opened. simpl. do 3 f_equal. lia.
Qed.

(** The interface holds of a file of fixed-size records whose last offset fits
    an [int], under a name short enough for [errormsg]. *)
Lemma catalog_view_of_lines e lines l size :
  source e = Readable (concat lines) -> entry_size e = Z.of_nat size ->
  catalog_len e = Z.of_nat (length l) ->
  strlen (open_error ++ catalogFile e) < 256 ->
  Z.of_nat size * Z.of_nat (length l) < 2 ^ 31 ->
  (forall n, malloc_ok e n = true) -> (forall n p, dead_stack e n p = p) ->
  Forall2 (encodes size) lines l ->
  CatalogView e l.
Proof.
  intros Hsrc Hsize Hlen Hname Hoff Hm Hdead Henc. split; [done | | | done | done].
  - intros i w s Hi. pose proof (zlookup_Some _ _ _ Hi) as Hr.
    rewrite zlookup_lookup in Hi by lia.
    destruct (Forall2_lookup_r _ _ _ _ _ Henc Hi) as (line & Hline & Hd).
    apply (read_line e (concat lines) size i line w s); [done .. | lia | nia | | done].
    apply concat_slice; [| done].
    eapply Forall_lookup_2. intros j x Hx.
    destruct (Forall2_lookup_l _ _ _ _ _ Henc Hx) as (w' & _ & Hw'). apply Hw'.
  - apply Forall_lookup_2. intros j w Hw.
    destruct (Forall2_lookup_r _ _ _ _ _ Henc Hw) as (line & _ & Hd). apply Hd.
Qed.
