(* ===== verification/Lookup.v ===== *)
(** catalogfs.c, the search: [findDepth], [getEntry_filepath], the three phases of
    [binSearch] and [get_directory_contents], with their correctness on a catalog
    sorted by depth and then by path. *)

From S2P Require Import Prelude.
From S2P Require Import CString.
From S2P Require Import CStdio.
From S2P Require Import Entry.

Definition ENOENT : Z := 2.

(** * The interface of the search

    The search is written over the function that reads the depth and the path of
    a record, [getEntry_depth_filepath], and the number of records; a second
    program holds the same search over its own reader. [mid_init] is what [mid]
    holds before the search sets it. *)

Class Reader (T : Type) := {
  probe : T -> Z -> M sys (option (Z * bytes));
  records : T -> Z;
  mid_init : T -> Z;
  no_hang_probe : forall e i, no_hang (probe e i) }.

#[export] Hint Resolve no_hang_probe : no_hang.

(** What the search needs of a reader: location [i] gives the depth and the path
    of the [i]-th record of [l], for the price of one block. *)
Class Searchable {T : Type} `{Reader T} (e : T) (l : list stat_wdf) : Prop := {
  search_len : records e = Z.of_nat (length l);
  search_probe : forall i w s, zlookup l i = Some w ->
    probe e i s = Ret (Some (depth w, file_path w), tick (add_block s)) }.

#[global] Instance catalogfs_reader : Reader env := {
  probe := getEntry_depth_filepath; records := catalog_len; mid_init := junk_mid;
  no_hang_probe := no_hang_getEntry_depth_filepath }.

#[global] Instance catalog_searchable e l : CatalogView e l -> Searchable e l.
Proof. intros Hv. split; [apply view_len | apply view_depth_filepath]. Qed.

Section Code.
Context {T : Type} `{HR : Reader T}.

(** * The code *)

Definition calculateMid (low high : Z) : Z := low + Z.quot (high - low) 2.

Fixpoint count_slashes (s : bytes) : Z :=
  match s with
  | [] => 0
  | c :: s' => (if decide (c = SLASH) then 1 else 0) + count_slashes s'
  end.

Definition findDepth (path : bytes) : Z :=
  match path with
  | c :: _ => if decide (c = SLASH) then count_slashes path else -1
  | [] => -1
  end.

(** Binary search for a record of the given depth; the result is the final
    [*low], [*high], [*mid] and [*depth], or [None] for the return value -1. *)
Fixpoint find_index (fuel : nat) (e : T) (searchPath_depth low high mid depth : Z)
  : M sys (option (Z * Z * Z * Z)) :=
  match fuel with
  | O => hang
  | S fuel' =>
      if low <=? high then
        let mid' := calculateMid low high in
        r ← probe e mid';
        match r with
        | None => mret None
        | Some (depth', _) =>
            if depth' =? searchPath_depth then mret (Some (low, high, mid', depth'))
            else if depth' <? searchPath_depth
            then find_index fuel' e searchPath_depth (mid' + 1) high mid' depth'
            else find_index fuel' e searchPath_depth low (mid' - 1) mid' depth'
        end
      else mret (Some (low, high, mid, depth))
  end.

(** The loop of [find_lowest_index]; [i] is [low_index_with_same_depth]. *)
Fixpoint lowest_loop (fuel : nat) (e : T) (searchPath_depth low i depth : Z)
  : M sys (option Z) :=
  match fuel with
  | O => hang
  | S fuel' =>
      if depth =? searchPath_depth then
        let i' := i - 1 in
        if i' <? low then mret (Some i')
        else
          r ← probe e i';
          match r with
          | None => mret None
          | Some (depth', _) => lowest_loop fuel' e searchPath_depth low i' depth'
          end
      else mret (Some i)
  end.

(** The new [*low]. *)
Definition find_lowest_index (e : T) (searchPath_depth low mid depth : Z)
  : M sys (option Z) :=
  r ← lowest_loop (S (S (Z.to_nat (mid - low)))) e searchPath_depth low mid depth;
  mret ((fun i => i + 1) <$> r).

Fixpoint highest_loop (fuel : nat) (e : T) (searchPath_depth high i depth : Z)
  : M sys (option Z) :=
  match fuel with
  | O => hang
  | S fuel' =>
      if depth =? searchPath_depth then
        let i' := i + 1 in
        if high <? i' then mret (Some i')
        else
          r ← probe e i';
          match r with
          | None => mret None
          | Some (depth', _) => highest_loop fuel' e searchPath_depth high i' depth'
          end
      else mret (Some i)
  end.

(** The new [*high]. *)
Definition find_highest_index (e : T) (searchPath_depth high mid depth : Z)
  : M sys (option Z) :=
  r ← highest_loop (S (S (Z.to_nat (high - mid)))) e searchPath_depth high mid depth;
  mret ((fun i => i - 1) <$> r).

Definition getEntry_filepath (e : T) (location : Z) : M sys (option bytes) :=
  r ← probe e location;
  mret (snd <$> r).

(** The last loop of [binSearch], over records of the same depth. *)
Fixpoint path_loop (fuel : nat) (e : T) (searchPath : bytes) (low high : Z) : M sys Z :=
  match fuel with
  | O => hang
  | S fuel' =>
      if low <=? high then
        let mid := calculateMid low high in
        r ← getEntry_filepath e mid;
        match r with
        | None => mret (-1)
        | Some file_path =>
            let comp_result := strcmp file_path searchPath in
            if comp_result =? 0 then mret mid
            else if comp_result <? 0
            then path_loop fuel' e searchPath (mid + 1) high
            else path_loop fuel' e searchPath low (mid - 1)
        end
      else mret (-1)
  end.

(** Iterations of a loop over the interval from [low] to [high]. *)
Definition span_fuel (low high : Z) : nat := S (Z.to_nat (high - low + 1)).

(** The location of [searchPath], or -1; the [long] result is returned as an
    [int]. *)
Definition binSearch (e : T) (searchPath : bytes) : M sys Z :=
  let low := 0 in
  let high := records e - 1 in
  let searchPath_depth := findDepth searchPath in
  if searchPath_depth <=? 0 then mret (-1)
  else
    r ← find_index (span_fuel low high) e searchPath_depth low high (mid_init e) 1;
    match r with
    | None => mret (-1)
    | Some (low, high, mid, depth) =>
        if high <? low then mret (-1)
        else
          lo ← find_lowest_index e searchPath_depth low mid depth;
          match lo with
          | None => mret (-1)
          | Some low =>
              hi ← find_highest_index e searchPath_depth high mid searchPath_depth;
              match hi with
              | None => mret (-1)
              | Some high =>
                  result ← path_loop (span_fuel low high) e searchPath low high;
                  mret (to_i32 result)
              end
          end
    end.

(** The scan of [get_directory_contents] from the directory's own record. *)
Fixpoint contents_loop (fuel : nat) (e : T) (file_path : bytes) (depth i : Z)
  : M sys (option Z) :=
  match fuel with
  | O => hang
  | S fuel' =>
      let i' := i + 1 in
      if records e <=? i' then mret (Some i')
      else
        r ← probe e i';
        match r with
        | None => mret None
        | Some (entry_depth, entry_file_path) =>
            if negb (entry_depth =? depth)
               || negb (strncmp file_path entry_file_path (strlen file_path) =? 0)
            then mret (Some i')
            else contents_loop fuel' e file_path depth i'
        end
  end.

(** The return value, and [*low] and [*high] as far as they are set. *)
Definition get_directory_contents (e : T) (file_path : bytes)
  : M sys (Z * option Z * option Z) :=
  if (strlen file_path <=? 0) || negb (bool_decide (last file_path = Some SLASH))
  then mret (-1, Some (-1), Some (-1))
  else
    low ← binSearch e file_path;
    if low <? 0 then mret (- ENOENT, Some low, None)
    else
      let depth := findDepth file_path in
      if depth <=? 0 then mret (- ENOENT, Some low, None)
      else
        r ← contents_loop (S (Z.to_nat (records e - low))) e file_path depth low;
        match r with
        | None => mret (- ENOENT, Some low, None)
        | Some i => mret (0, Some low, Some (i - 1))
        end.

(** * Termination

    Whatever the file holds, the search ends: the fuel of each loop is enough. *)

Lemma count_slashes_nonneg s : 0 <= count_slashes s.
Proof. induction s as [|c s IH]; simpl; [lia |]. case_decide; lia. Qed.

Lemma calculateMid_bounds low high :
  low <= high -> low <= calculateMid low high <= high.
Proof.
  intros H. unfold calculateMid.
  pose proof (Z.quot_pos (high - low) 2 ltac:(lia) ltac:(lia)).
  pose proof (Z.quot_le_upper_bound (high - low) 2 (high - low) ltac:(lia) ltac:(lia)). lia.
Qed.

Lemma no_hang_getEntry_filepath e i : no_hang (getEntry_filepath e i).
Proof. unfold getEntry_filepath. never_hangs. Qed.
#[local] Hint Resolve no_hang_getEntry_filepath : no_hang.

Lemma no_hang_find_index fuel e d low high mid depth :
  Z.max 0 (high - low + 1) < Z.of_nat fuel ->
  no_hang (find_index fuel e d low high mid depth).
Proof.
  revert low high mid depth. induction fuel as [|fuel IH]; intros low high mid depth Hf; [lia |].
  simpl. destruct (low <=? high) eqn:E; [| auto with no_hang].
  pose proof (calculateMid_bounds low high ltac:(lia)).
  apply no_hang_bind; [auto with no_hang |]. intros [[d' p]|]; [| auto with no_hang].
  apply no_hang_if; [auto with no_hang |]. apply no_hang_if; apply IH; lia.
Qed.

Lemma no_hang_lowest_loop fuel e d low i depth :
  Z.max 0 (i - low) < Z.of_nat fuel -> no_hang (lowest_loop fuel e d low i depth).
Proof.
  revert i depth. induction fuel as [|fuel IH]; intros i depth Hf; [lia |].
  simpl. apply no_hang_if; [| auto with no_hang].
  destruct (i - 1 <? low) eqn:E; [auto with no_hang |].
  apply no_hang_bind; [auto with no_hang |]. intros [[d' p]|]; [| auto with no_hang].
  apply IH. lia.
Qed.

Lemma no_hang_highest_loop fuel e d high i depth :
  Z.max 0 (high - i) < Z.of_nat fuel -> no_hang (highest_loop fuel e d high i depth).
Proof.
  revert i depth. induction fuel as [|fuel IH]; intros i depth Hf; [lia |].
  simpl. apply no_hang_if; [| auto with no_hang].
  destruct (high <? i + 1) eqn:E; [auto with no_hang |].
  apply no_hang_bind; [auto with no_hang |]. intros [[d' p]|]; [| auto with no_hang].
  apply IH. lia.
Qed.

Lemma no_hang_path_loop fuel e p low high :
  Z.max 0 (high - low + 1) < Z.of_nat fuel -> no_hang (path_loop fuel e p low high).
Proof.
  revert low high. induction fuel as [|fuel IH]; intros low high Hf; [lia |].
  simpl. destruct (low <=? high) eqn:E; [| auto with no_hang].
  pose proof (calculateMid_bounds low high ltac:(lia)).
  apply no_hang_bind; [auto with no_hang |]. intros [p'|]; [| auto with no_hang].
  apply no_hang_if; [auto with no_hang |]. apply no_hang_if; apply IH; lia.
Qed.

Lemma no_hang_contents_loop fuel e p d i :
  Z.max 0 (records e - i) < Z.of_nat fuel -> no_hang (contents_loop fuel e p d i).
Proof.
  revert i. induction fuel as [|fuel IH]; intros i Hf; [lia |].
  simpl. destruct (records e <=? i + 1) eqn:E; [auto with no_hang |].
  apply no_hang_bind; [auto with no_hang |]. intros [[d' p']|]; [| auto with no_hang].
  apply no_hang_if; [auto with no_hang |]. apply IH. lia.
Qed.

Lemma no_hang_binSearch e p : no_hang (binSearch e p).
Proof.
  unfold binSearch, span_fuel. apply no_hang_if; [auto with no_hang |].
  apply no_hang_bind; [apply no_hang_find_index; lia |].
  intros [[[[low high] mid] d]|]; [| auto with no_hang].
  apply no_hang_if; [auto with no_hang |].
  apply no_hang_bind.
  { apply no_hang_bind; [apply no_hang_lowest_loop; lia | auto with no_hang]. }
  intros [low'|]; [| auto with no_hang].
  apply no_hang_bind.
  { apply no_hang_bind; [apply no_hang_highest_loop; lia | auto with no_hang]. }
  intros [high'|]; [| auto with no_hang].
  apply no_hang_bind; [apply no_hang_path_loop; lia | auto with no_hang].
Qed.
#[local] Hint Resolve no_hang_binSearch : no_hang.

Lemma no_hang_get_directory_contents e p : no_hang (get_directory_contents e p).
Proof.
  unfold get_directory_contents. apply no_hang_if; [auto with no_hang |].
  apply no_hang_bind; [auto with no_hang |]. intros low.
  apply no_hang_if; [auto with no_hang |].
  apply no_hang_if; [auto with no_hang |].
  apply no_hang_bind; [apply no_hang_contents_loop; lia |].
  intros [i|]; auto with no_hang.
Qed.

End Code.
#[export] Hint Resolve no_hang_getEntry_filepath no_hang_binSearch
  no_hang_get_directory_contents : no_hang.

(** * Correctness on a sorted catalog *)

(** The order in which the search expects the records. *)
Definition key_lt (v w : stat_wdf) : Prop :=
  depth v < depth w \/ (depth v = depth w /\ bytes_lt (file_path v) (file_path w)).

(** Each record's depth field is the depth of its path, which is absolute. *)
Definition depth_ok (w : stat_wdf) : Prop :=
  depth w = findDepth (file_path w) /\ 0 < depth w.

#[global] Instance key_lt_dec v w : Decision (key_lt v w).
Proof. unfold key_lt. apply _. Defined.
#[global] Instance depth_ok_dec w : Decision (depth_ok w).
Proof. unfold depth_ok. apply _. Defined.

Definition catalog_sorted (l : list stat_wdf) : Prop :=
  StronglySorted key_lt l /\ Forall depth_ok l.

(** What a lookup does to the process: it leaks blocks and keeps descriptors. *)
Definition lookup_step (s s' : sys) : Prop :=
  open_fds s' = open_fds s /\ live_blocks s <= live_blocks s'.

#[global] Instance lookup_step_preorder : PreOrder lookup_step.
Proof. unfold lookup_step. split; intros ?; [lia |]. intros. lia. Qed.

Lemma lookup_step_probe s : lookup_step s (tick (add_block s)).
Proof. unfold lookup_step. simpl. lia. Qed.

Lemma lookup_step_probe_trans s s' :
  lookup_step (tick (add_block s)) s' -> lookup_step s s'.
Proof. intros. etrans; [apply lookup_step_probe | done]. Qed.
#[export] Hint Resolve lookup_step_probe lookup_step_probe_trans : core.

Section Correct.
Context {T : Type} `{HR : Reader T} {e : T} {l : list stat_wdf} `{!Searchable e l}.
Context (Hsorted : catalog_sorted l).

Lemma key_at i j v w :
  zlookup l i = Some v -> zlookup l j = Some w -> i < j -> key_lt v w.
Proof. apply sorted_lookup, Hsorted. Qed.

Lemma depth_at i w : zlookup l i = Some w -> depth_ok w.
Proof.
  intros H. pose proof (zlookup_Some _ _ _ H). rewrite zlookup_lookup in H by lia.
  exact (Forall_lookup_1 _ _ _ _ (proj2 Hsorted) H).
Qed.

(** Every record below [low] sorts before depth [d], every one above [high]
    after it. *)
Definition depth_bounds (d low high : Z) : Prop :=
  0 <= low /\ high < Z.of_nat (length l) /\
  (forall i w, zlookup l i = Some w -> i < low -> depth w < d) /\
  (forall i w, zlookup l i = Some w -> high < i -> d < depth w).

Lemma depth_bounds_low d low high i w :
  depth_bounds d low high -> zlookup l i = Some w -> depth w < d ->
  depth_bounds d (i + 1) high.
Proof.
  intros (H1 & H2 & H3 & H4) Hi Hd. pose proof (zlookup_Some _ _ _ Hi).
  split_and!; [lia | done | | done]. intros j v Hj Hji.
  destruct (decide (j = i)) as [->|]; [congruence |].
  destruct (key_at j i v w Hj Hi ltac:(lia)); lia.
Qed.

Lemma depth_bounds_high d low high i w :
  depth_bounds d low high -> zlookup l i = Some w -> d < depth w ->
  depth_bounds d low (i - 1).
Proof.
  intros (H1 & H2 & H3 & H4) Hi Hd. pose proof (zlookup_Some _ _ _ Hi).
  split_and!; [done | lia | done |]. intros j v Hj Hji.
  destruct (decide (j = i)) as [->|]; [congruence |].
  destruct (key_at i j w v Hi Hj ltac:(lia)); lia.
Qed.

Lemma search_filepath i w s :
  zlookup l i = Some w ->
  getEntry_filepath e i s = Ret (Some (file_path w), tick (add_block s)).
Proof.
  intros Hi. unfold getEntry_filepath.
  by rewrite (bind_runs_eq _ _ _ _ _ (search_probe _ _ s Hi)).
Qed.

Lemma find_index_spec fuel d low high mid dep s :
  depth_bounds d low high -> Z.max 0 (high - low + 1) < Z.of_nat fuel ->
  runs (find_index fuel e d low high mid dep) s (fun r s' =>
    lookup_step s s' /\ exists low' high' mid' dep',
      r = Some (low', high', mid', dep') /\ depth_bounds d low' high' /\
      (high' < low' \/
       (low' <= mid' <= high' /\ dep' = d /\
        exists w, zlookup l mid' = Some w /\ depth w = d))).
Proof.
  revert low high mid dep s.
  induction fuel as [|fuel IH]; intros low high mid dep s Hb Hf; [lia |]. simpl.
  destruct (low <=? high) eqn:E.
  2:{ split; [done |]. exists low, high, mid, dep. split_and!; [done .. | lia]. }
  pose proof (calculateMid_bounds low high ltac:(lia)) as Hmid.
  destruct (zlookup_is_Some l (calculateMid low high)) as [w Hw].
  { destruct Hb as (? & ? & _). lia. }
  apply runs_bind. unfold runs at 1. rewrite (search_probe _ _ s Hw).
  destruct (depth w =? d) eqn:E1; [| destruct (depth w <? d) eqn:E2].
  - split; [auto |]. exists low, high, (calculateMid low high), (depth w).
    split_and!; [done .. |]. right. split; [done |]. split; [lia |].
    exists w. split; [done | lia].
  - eapply runs_mono;
      [apply IH; [by eapply depth_bounds_low; eauto; lia | lia] |].
    intros r s' [Hl Hr]. eauto.
  - eapply runs_mono;
      [apply IH; [by eapply depth_bounds_high; eauto; lia | lia] |].
    intros r s' [Hl Hr]. eauto.
Qed.

(** From a record [i] of depth [d] whose successors up to [mid] have depth [d],
    the loop stops just below the first record of that depth. *)
Lemma lowest_loop_spec fuel d low high i dep v s :
  depth_bounds d low high -> low <= i <= high -> Z.max 0 (i - low) < Z.of_nat fuel ->
  zlookup l i = Some v -> depth v = dep -> dep <= d ->
  runs (lowest_loop fuel e d low i dep) s (fun r s' =>
    lookup_step s s' /\ exists j, r = Some j /\ low - 1 <= j <= i /\
      (dep = d -> j < i) /\
      (forall k w, zlookup l k = Some w -> j < k <= i -> depth w = d) /\
      (forall k w, zlookup l k = Some w -> k <= j -> depth w < d)).
Proof.
  revert i dep v s. induction fuel as [|fuel IH];
    intros i dep v s Hb Hi Hf Hv Hdep Hle; [lia |]. simpl.
  destruct (dep =? d) eqn:E.
  2:{ split; [done |]. exists i. split_and!; [done | lia | lia | lia | lia |].
      intros k w Hk Hki. destruct (decide (k = i)) as [->|].
      - assert (w = v) as -> by congruence. lia.
      - destruct (key_at k i w v Hk Hv ltac:(lia)); lia. }
  destruct (i - 1 <? low) eqn:E1.
  { split; [done |]. exists (i - 1). split_and!; [done | lia | lia | lia | |].
    - intros k w Hk Hki. assert (k = i) as -> by lia.
      assert (w = v) as -> by congruence. lia.
    - intros k w Hk Hki. destruct Hb as (_ & _ & Hb & _). eapply Hb; [done | lia]. }
  destruct (zlookup_is_Some l (i - 1)) as [w Hw].
  { destruct Hb as (? & ? & _). lia. }
  apply runs_bind. unfold runs at 1. rewrite (search_probe _ _ s Hw).
  eapply runs_mono.
  { apply (IH (i - 1) (depth w) w); [done | lia | lia | done | done |].
    destruct (key_at (i - 1) i w v Hw Hv ltac:(lia)); lia. }
  intros r s' (Hl & j & -> & Hj & Hlt & Hmid & Hlow). split; [eauto |].
  exists j. split_and!; [done | lia | lia | lia | | done].
  intros k w' Hk Hkj. destruct (decide (k = i)) as [->|].
  - assert (w' = v) as -> by congruence. lia.
  - eapply Hmid; [done | lia].
Qed.

Lemma highest_loop_spec fuel d low high i dep v s :
  depth_bounds d low high -> low <= i <= high -> Z.max 0 (high - i) < Z.of_nat fuel ->
  zlookup l i = Some v -> depth v = dep -> d <= dep ->
  runs (highest_loop fuel e d high i dep) s (fun r s' =>
    lookup_step s s' /\ exists j, r = Some j /\ i <= j <= high + 1 /\
      (dep = d -> i < j) /\
      (forall k w, zlookup l k = Some w -> i <= k < j -> depth w = d) /\
      (forall k w, zlookup l k = Some w -> j <= k -> d < depth w)).
Proof.
  revert i dep v s. induction fuel as [|fuel IH];
    intros i dep v s Hb Hi Hf Hv Hdep Hle; [lia |]. simpl.
  destruct (dep =? d) eqn:E.
  2:{ split; [done |]. exists i. split_and!; [done | lia | lia | lia | lia |].
      intros k w Hk Hki. destruct (decide (k = i)) as [->|].
      - assert (w = v) as -> by congruence. lia.
      - destruct (key_at i k v w Hv Hk ltac:(lia)); lia. }
  destruct (high <? i + 1) eqn:E1.
  { split; [done |]. exists (i + 1). split_and!; [done | lia | lia | lia | |].
    - intros k w Hk Hki. assert (k = i) as -> by lia.
      assert (w = v) as -> by congruence. lia.
    - intros k w Hk Hki. destruct Hb as (_ & _ & _ & Hb). eapply Hb; [done | lia]. }
  destruct (zlookup_is_Some l (i + 1)) as [w Hw].
  { destruct Hb as (? & ? & _). lia. }
  apply runs_bind. unfold runs at 1. rewrite (search_probe _ _ s Hw).
  eapply runs_mono.
  { apply (IH (i + 1) (depth w) w); [done | lia | lia | done | done |].
    destruct (key_at i (i + 1) v w Hv Hw ltac:(lia)); lia. }
  intros r s' (Hl & j & -> & Hj & Hlt & Hmid & Hlow). split; [eauto |].
  exists j. split_and!; [done | lia | lia | lia | | done].
  intros k w' Hk Hkj. destruct (decide (k = i)) as [->|].
  - assert (w' = v) as -> by congruence. lia.
  - eapply Hmid; [done | lia].
Qed.

Definition path_bounds (d : Z) (p : bytes) (low high : Z) : Prop :=
  0 <= low /\ high < Z.of_nat (length l) /\
  (forall i w, zlookup l i = Some w -> low <= i <= high -> depth w = d) /\
  (forall i w, zlookup l i = Some w -> i < low ->
     depth w < d \/ (depth w = d /\ bytes_lt (file_path w) p)) /\
  (forall i w, zlookup l i = Some w -> high < i ->
     d < depth w \/ (depth w = d /\ bytes_lt p (file_path w))).

(** [r] is the location of the record of path [p], or -1 when there is none. *)
Definition location_of (p : bytes) (r : Z) : Prop :=
  (exists w, zlookup l r = Some w /\ file_path w = p) \/
  (r = -1 /\ forall i w, zlookup l i = Some w -> file_path w <> p).

Lemma path_bounds_low d p low high i w :
  path_bounds d p low high -> low <= i <= high -> zlookup l i = Some w ->
  bytes_lt (file_path w) p -> path_bounds d p (i + 1) high.
Proof.
  intros (H1 & H2 & H3 & H4 & H5) Hr Hi Hlt.
  split_and!; [lia | done | | | done]; intros j v Hj Hji; [apply (H3 j v Hj); lia |].
  pose proof (H3 i w Hi Hr) as Hd.
  destruct (decide (j = i)) as [->|].
  - assert (v = w) as -> by congruence. by right.
  - destruct (key_at j i v w Hj Hi ltac:(lia)) as [?|[??]]; [left; lia |].
    right. split; [lia | by etrans].
Qed.

Lemma path_bounds_high d p low high i w :
  path_bounds d p low high -> low <= i <= high -> zlookup l i = Some w ->
  bytes_lt p (file_path w) -> path_bounds d p low (i - 1).
Proof.
  intros (H1 & H2 & H3 & H4 & H5) Hr Hi Hlt.
  split_and!; [done | lia | | done |]; intros j v Hj Hji; [apply (H3 j v Hj); lia |].
  pose proof (H3 i w Hi Hr) as Hd.
  destruct (decide (j = i)) as [->|].
  - assert (v = w) as -> by congruence. by right.
  - destruct (key_at i j w v Hi Hj ltac:(lia)) as [?|[??]]; [left; lia |].
    right. split; [lia | by etrans].
Qed.

Lemma path_bounds_empty p low high :
  path_bounds (findDepth p) p low high -> high < low -> location_of p (-1).
Proof.
  intros (H1 & H2 & H3 & H4 & H5) Hlt. right. split; [done |]. intros i w Hi Hp.
  destruct (decide (i < low)).
  - destruct (H4 i w Hi ltac:(lia)) as [?|[_ ?]].
    + destruct (depth_at _ _ Hi) as [Hd _]. rewrite Hp in Hd. lia.
    + rewrite Hp in *. by eapply bytes_lt_irrefl.
  - destruct (H5 i w Hi ltac:(lia)) as [?|[_ ?]].
    + destruct (depth_at _ _ Hi) as [Hd _]. rewrite Hp in Hd. lia.
    + rewrite Hp in *. by eapply bytes_lt_irrefl.
Qed.

Lemma path_loop_spec fuel p low high s :
  path_bounds (findDepth p) p low high -> Z.max 0 (high - low + 1) < Z.of_nat fuel ->
  runs (path_loop fuel e p low high) s (fun r s' => lookup_step s s' /\ location_of p r).
Proof.
  revert low high s. induction fuel as [|fuel IH]; intros low high s Hb Hf; [lia |]. simpl.
  destruct (low <=? high) eqn:E.
  2:{ split; [done |]. eapply path_bounds_empty; [done | lia]. }
  pose proof (calculateMid_bounds low high ltac:(lia)) as Hmid.
  destruct (zlookup_is_Some l (calculateMid low high)) as [w Hw].
  { destruct Hb as (? & ? & _). lia. }
  apply runs_bind. unfold runs at 1. rewrite (search_filepath _ _ s Hw).
  destruct (strcmp (file_path w) p =? 0) eqn:E1;
    [| destruct (strcmp (file_path w) p <? 0) eqn:E2].
  - split; [auto |]. left. exists w. split; [done |]. apply strcmp_eq. lia.
  - eapply runs_mono; [apply IH; [| lia] |].
    + eapply path_bounds_low; [done .. |]. unfold bytes_lt. lia.
    + intros r s' [Hl Hr]. eauto.
  - eapply runs_mono; [apply IH; [| lia] |].
    + eapply path_bounds_high; [done .. |]. unfold bytes_lt.
      apply strcmp_lt_gt. lia.
    + intros r s' [Hl Hr]. eauto.
Qed.

Lemma location_of_range p r :
  location_of p r -> -1 <= r < Z.of_nat (length l).
Proof.
  intros [(w & Hw & _) | [-> _]]; [apply zlookup_Some in Hw |]; lia.
Qed.

(** [binSearch] finds the record of a path exactly when there is one. *)
Lemma binSearch_spec p s :
  Z.of_nat (length l) < 2 ^ 31 ->
  runs (binSearch e p) s (fun r s' => lookup_step s s' /\ location_of p r).
Proof.
  intros Hlen. unfold binSearch.
  destruct (findDepth p <=? 0) eqn:Ed.
  { split; [done |]. right. split; [done |]. intros i w Hi Hp.
    destruct (depth_at _ _ Hi) as [Hd Hpos]. rewrite Hp in Hd. lia. }
  apply runs_bind. eapply runs_mono.
  { apply find_index_spec; [| unfold span_fuel; lia].
    rewrite (search_len (e := e)). split_and!; [lia | lia | |];
      intros i w Hi ?; apply zlookup_Some in Hi; lia. }
  intros r s1 (Hs1 & low & high & mid & dep & -> & Hb & Hcase).
  destruct (high <? low) eqn:E.
  { split; [done |]. right. split; [done |]. intros i w Hi Hp.
    destruct (depth_at _ _ Hi) as [Hd _]. rewrite Hp in Hd.
    destruct Hb as (_ & _ & Hlo & Hhi).
    destruct (decide (i < low)); [pose proof (Hlo i w Hi) | pose proof (Hhi i w Hi)]; lia. }
  destruct Hcase as [?|(Hmid & -> & w & Hw & Hdw)]; [lia |].
  apply runs_bind. unfold find_lowest_index. apply runs_bind. eapply runs_mono.
  { apply (lowest_loop_spec _ (findDepth p) low high mid _ w); [done | lia | lia | done | done | lia]. }
  intros r s2 (Hs2 & lo & -> & Hlo & Hlo1 & Hloeq & Hlolt). run. cbn [fmap option_fmap option_map].
  apply runs_bind. unfold find_highest_index. apply runs_bind. eapply runs_mono.
  { apply (highest_loop_spec _ (findDepth p) low high mid _ w); [done | lia | lia | done | done | lia]. }
  intros r s3 (Hs3 & hi & -> & Hhi & Hhi1 & Hhieq & Hhigt). run. cbn [fmap option_fmap option_map].
  apply runs_bind. eapply runs_mono.
  { apply path_loop_spec; [| unfold span_fuel; lia].
    destruct Hb as (? & ? & _).
    split_and!; [lia | lia | | |]; intros i v Hi Hr.
    - destruct (decide (i <= mid)); [eapply Hloeq | eapply Hhieq]; try done; lia.
    - left. eapply Hlolt; [done | lia].
    - left. eapply Hhigt; [done | lia]. }
  intros r s4 (Hs4 & Hr). run. pose proof (location_of_range _ _ Hr).
  rewrite to_i32_id by lia. split; [| done]. by etrans; [etrans; [etrans |] |].
Qed.

(** The records listed for directory [p], a path ending in a slash. *)
Definition listed_in (p : bytes) (w : stat_wdf) : Prop :=
  depth w = findDepth p /\ p `prefix_of` file_path w.

Lemma contents_loop_spec fuel p i s :
  0 <= i < Z.of_nat (length l) -> Z.of_nat (length l) - i < Z.of_nat fuel ->
  runs (contents_loop fuel e p (findDepth p) i) s (fun r s' =>
    lookup_step s s' /\ exists j, r = Some j /\ i < j <= Z.of_nat (length l) /\
      (forall k w, zlookup l k = Some w -> i < k < j -> listed_in p w) /\
      (forall w, zlookup l j = Some w -> ~ listed_in p w)).
Proof.
  revert i s. induction fuel as [|fuel IH]; intros i s Hi Hf; [lia |]. simpl.
  rewrite (search_len (e := e)).
  destruct (Z.of_nat (length l) <=? i + 1) eqn:E.
  { split; [done |]. exists (i + 1). split_and!; [done | lia | lia | lia |].
    intros w Hw. apply zlookup_Some in Hw. lia. }
  destruct (zlookup_is_Some l (i + 1)) as [w Hw]; [lia |].
  apply runs_bind. unfold runs at 1. rewrite (search_probe _ _ s Hw).
  pose proof (strncmp_prefix p (file_path w)) as Hp.
  destruct (negb (depth w =? findDepth p) || _) eqn:E1.
  { split; [auto |]. exists (i + 1). split_and!; [done | lia | lia | lia |].
    intros w' Hw'. assert (w' = w) as -> by congruence. intros [Hd Hpre].
    apply Hp in Hpre. lia. }
  eapply runs_mono; [apply IH; lia |].
  intros r s' (Hl & j & -> & Hj & Hin & Hout). split; [eauto |].
  exists j. split_and!; [done | lia | lia | | done].
  intros k w' Hk Hkj. destruct (decide (k = i + 1)) as [->|].
  - assert (w' = w) as -> by congruence. split; [lia |]. apply Hp. lia.
  - eapply Hin; [done | lia].
Qed.

Lemma listed_after p low v i w :
  zlookup l low = Some v -> file_path v = p -> zlookup l i = Some w ->
  listed_in p w -> file_path w <> p -> low < i.
Proof.
  intros Hlow Hv Hi [Hd [k Hk]] Hne.
  destruct (Z.lt_trichotomy i low) as [Hlt | [-> | ?]]; [| congruence | done].
  exfalso. destruct (depth_at _ _ Hlow) as [Hdv _]. rewrite Hv in Hdv.
  destruct (key_at i low w v Hi Hlow Hlt) as [? | [_ Hb]]; [lia |].
  rewrite Hv, Hk in Hb. apply (bytes_lt_not_gt _ _ Hb).
  destruct k as [|c k]; [rewrite app_nil_r in Hk; congruence | apply bytes_lt_prefix].
Qed.

Lemma listed_contiguous p low v i j w u :
  zlookup l low = Some v -> file_path v = p -> low < i < j ->
  zlookup l i = Some w -> zlookup l j = Some u -> listed_in p u -> listed_in p w.
Proof.
  intros Hlow Hv Hij Hi Hj [Hd Hpre].
  destruct (depth_at _ _ Hlow) as [Hdv _]. rewrite Hv in Hdv.
  destruct (key_at low i v w Hlow Hi ltac:(lia)) as [Hlt1 | [Heq1 Hb1]];
    destruct (key_at i j w u Hi Hj ltac:(lia)) as [Hlt2 | [Heq2 Hb2]]; try lia.
  split; [lia |]. rewrite Hv in Hb1. by eapply bytes_between_prefix.
Qed.

(** The interval computed for a directory of the catalog holds its own record,
    then exactly the records listed in it. *)
Lemma get_directory_contents_spec p s :
  Z.of_nat (length l) < 2 ^ 31 -> last p = Some SLASH ->
  runs (get_directory_contents e p) s (fun r s' => lookup_step s s' /\
    ((exists low high v, r = (0, Some low, Some high) /\
        zlookup l low = Some v /\ file_path v = p /\ low <= high < Z.of_nat (length l) /\
        forall i w, zlookup l i = Some w ->
          low < i <= high <-> listed_in p w /\ file_path w <> p) \/
     (r = (- ENOENT, Some (-1), None) /\
        forall i w, zlookup l i = Some w -> file_path w <> p))).
Proof.
  intros Hlen Hlast. unfold get_directory_contents.
  assert (0 < strlen p) as Hpos.
  { destruct p; [done |]. unfold strlen. simpl. lia. }
  rewrite bool_decide_eq_true_2 by done. replace (strlen p <=? 0) with false by lia. cbn [orb negb].
  apply runs_bind. eapply runs_mono; [by apply binSearch_spec |].
  intros low s1 (Hs1 & [(v & Hv & Hvp) | [-> Hnone]]).
  2:{ simpl. split; [done |]. by right. }
  pose proof (zlookup_Some _ _ _ Hv). replace (low <? 0) with false by lia.
  destruct (depth_at _ _ Hv) as [Hdv Hdpos]. rewrite Hvp in Hdv.
  replace (findDepth p <=? 0) with false by lia.
  apply runs_bind. rewrite (search_len (e := e)). eapply runs_mono.
  { apply contents_loop_spec; lia. }
  intros r s2 (Hs2 & j & -> & Hj & Hin & Hout). run.
  split; [by etrans |]. left. exists low, (j - 1), v.
  split_and!; [done .. | lia | lia |]. intros i w Hi. split.
  - intros Hr. split; [apply (Hin i w Hi); lia |]. intros Hw.
    destruct (key_at low i v w Hv Hi ltac:(lia)) as [? | [_ Hb]].
    + destruct (depth_at _ _ Hi) as [Hd _]. rewrite Hw in Hd. lia.
    + rewrite Hvp, Hw in Hb. by eapply bytes_lt_irrefl.
  - intros [Hl Hne]. pose proof (listed_after p low v i w Hv Hvp Hi Hl Hne).
    split; [done |]. destruct (decide (i <= j - 1)); [done |]. exfalso.
    destruct (decide (i = j)) as [->|]; [by apply (Hout w Hi) |].
    pose proof (zlookup_Some _ _ _ Hi).
    destruct (zlookup_is_Some l j) as [u Hu]; [lia |].
    apply (Hout u Hu). apply (listed_contiguous p low v j i u w); try done. lia.
Qed.
End Correct.

(** * The reference: linear search *)

(** The record of a path, by scanning the whole catalog. *)
Definition lookup_path (l : list stat_wdf) (p : bytes) : option stat_wdf :=
  snd <$> list_find (fun w => file_path w = p) l.

Lemma same_path l i j v w :
  catalog_sorted l -> zlookup l i = Some v -> zlookup l j = Some w ->
  file_path v = file_path w -> i = j.
Proof.
  intros [Hs Hd] Hi Hj Hvw.
  assert (forall k u, zlookup l k = Some u -> depth u = findDepth (file_path u)) as Hdep.
  { intros k u Hk. pose proof (zlookup_Some _ _ _ Hk).
    rewrite zlookup_lookup in Hk by lia. apply (Forall_lookup_1 _ _ _ _ Hd Hk). }
  assert (depth v = depth w) by (rewrite (Hdep _ _ Hi), (Hdep _ _ Hj); congruence).
  destruct (Z.lt_trichotomy i j) as [Hlt | [? | Hlt]]; [exfalso | done | exfalso].
  - destruct (sorted_lookup _ _ _ _ _ _ Hs Hi Hj Hlt) as [? | [_ Hb]]; [lia |].
    rewrite Hvw in Hb. by apply bytes_lt_irrefl in Hb.
  - destruct (sorted_lookup _ _ _ _ _ _ Hs Hj Hi Hlt) as [? | [_ Hb]]; [lia |].
    rewrite Hvw in Hb. by apply bytes_lt_irrefl in Hb.
Qed.

Lemma lookup_path_Some l i w :
  catalog_sorted l -> zlookup l i = Some w -> lookup_path l (file_path w) = Some w.
Proof.
  intros Hs Hi. pose proof (zlookup_Some _ _ _ Hi) as Hr. unfold lookup_path.
  destruct (list_find _ l) as [[j v]|] eqn:Hf; simpl.
  - apply list_find_Some in Hf as (Hj & Hv & _). f_equal.
    assert (zlookup l (Z.of_nat j) = Some v) as Hj'
      by (rewrite zlookup_lookup, Nat2Z.id by lia; done).
    pose proof (same_path _ _ _ _ _ Hs Hi Hj' (eq_sym Hv)). subst i. congruence.
  - apply list_find_None in Hf. rewrite zlookup_lookup in Hi by lia.
    exfalso. by apply (Forall_lookup_1 _ _ _ _ Hf Hi).
Qed.

Lemma lookup_path_None l p :
  (forall i w, zlookup l i = Some w -> file_path w <> p) -> lookup_path l p = None.
Proof.
  intros Hn. unfold lookup_path.
  destruct (list_find _ l) as [[j v]|] eqn:Hf; [| done].
  apply list_find_Some in Hf as (Hj & Hv & _). exfalso.
  apply (Hn (Z.of_nat j) v); [| done]. by rewrite zlookup_lookup, Nat2Z.id by lia.
Qed.

(** The location found by the search and the record found by the scan agree. *)
Lemma location_lookup {l} p r :
  catalog_sorted l -> @location_of l p r ->
  lookup_path l p = (if r <? 0 then None else zlookup l r).
Proof.
  intros Hs [(w & Hw & <-) | [-> Hn]].
  - pose proof (zlookup_Some _ _ _ Hw). replace (r <? 0) with false by lia.
    rewrite Hw. by eapply lookup_path_Some.
  - by apply lookup_path_None.
Qed.
