(* ===== verification/CatalogFS.v ===== *)
(** catalogfs.c, the file system: the FUSE callbacks, the table
    [catalog_operations] as a dispatcher of requests, and [main]. *)

From S2P Require Import Prelude.
From S2P Require Import CString.
From S2P Require Import CStdio.
From S2P Require Import Entry.
From S2P Require Import Lookup.

Definition EPERM : Z := 1.
Definition EROFS : Z := 30.

(** * Callbacks that answer without the catalog *)

Definition catalog_mknod (path : bytes) (mode rdev : Z) : Z := - EROFS.
Definition catalog_mkdir (path : bytes) (mode : Z) : Z := - EROFS.
Definition catalog_unlink (path : bytes) : Z := - EROFS.
Definition catalog_rmdir (path : bytes) : Z := - EROFS.
Definition catalog_symlink (from to : bytes) : Z := - EROFS.
Definition catalog_link (from to : bytes) : Z := - EROFS.
Definition catalog_rename (from to : bytes) : Z := - EROFS.
Definition catalog_chmod (path : bytes) (mode : Z) : Z := - EROFS.
Definition catalog_chown (path : bytes) (uid gid : Z) : Z := - EROFS.
Definition catalog_truncate (path : bytes) (size : Z) : Z := - EROFS.
Definition catalog_utimens (path : bytes) (tv : list (Z * Z)) : Z := - EROFS.
Definition catalog_release (path : bytes) : Z := 0.
Definition catalog_releasedir (path : bytes) : Z := 0.
Definition catalog_fsync (path : bytes) (throw : Z) : Z := 0.
Definition catalog_fsyncdir (path : bytes) (throw : Z) : Z := 0.
Definition catalog_setxattr (path name value : bytes) (size flags : Z) : Z := - EROFS.
Definition catalog_getxattr (path name : bytes) (size : Z) : Z := 0.
Definition catalog_listxattr (path : bytes) (size : Z) : Z := 0.
Definition catalog_removexattr (path name : bytes) : Z := - EROFS.
Definition catalog_access (path : bytes) (mode : Z) : Z := 0.
Definition catalog_open (path : bytes) : Z := - EPERM.
Definition catalog_read (path : bytes) (size offset : Z) : Z := - EPERM.
Definition catalog_write (path buf : bytes) (size offset : Z) : Z := - EROFS.
Definition catalog_opendir (path : bytes) : Z := 0.
Definition catalog_destroy : unit := tt.

Record statvfs := Statvfs {
  f_bsize : Z; f_frsize : Z; f_blocks : Z; f_bfree : Z; f_bavail : Z; f_files : Z;
  f_ffree : Z; f_favail : Z; f_fsid : Z; f_flag : Z; f_namemax : Z }.

Definition ST_RDONLY : Z := 1.
Definition ST_NOSUID : Z := 2.
Definition ST_NODEV : Z := 4.
Definition ST_NOEXEC : Z := 8.

Definition catalog_statfs (path : bytes) : Z * statvfs :=
  (0, {| f_bsize := 0; f_frsize := 0; f_blocks := 0; f_bfree := 0; f_bavail := 0;
         f_files := 0; f_ffree := 0; f_favail := 0; f_fsid := 0;
         f_flag := Z.lor (Z.lor (Z.lor ST_RDONLY ST_NOSUID) ST_NODEV) ST_NOEXEC;
         f_namemax := 255 |}).

(** * Attributes *)

(** The return value and [*st_data], which keeps its contents on failure. *)
Definition getattr_by_location (e : env) (location : Z) (st : stat) : M sys (Z * stat) :=
  r ← getEntry_from_catalog e location;
  match r with
  | None => mret (- ENOENT, st)
  | Some w =>
      let d := st_data w in
      mret (0, {| st_mode := st_mode d; st_nlink := st_nlink d; st_uid := st_uid d;
                  st_gid := st_gid d; st_size := st_size d; st_atime := st_atime d;
                  st_mtime := st_mtime d; st_ctime := st_ctime d |})
  end.

Definition getattr_by_path (e : env) (path : bytes) (st : stat) : M sys (Z * stat) :=
  location ← binSearch e path;
  if location <? 0 then mret (- ENOENT, st)
  else
    r ← getattr_by_location e location st;
    let '(ret_val, st') := r in
    if ret_val <? 0 then mret (- ENOENT, st') else mret (0, st').

Definition catalog_getattr (e : env) (path : bytes) : M sys (Z * stat) :=
  getattr_by_path e path zero_stat.

(** * Directories *)

(** FUSE's [fuse_fill_dir_t]: adds a name to the buffer and returns 1 when the
    buffer is full. *)
Definition fill_dir (F : Type) : Type := F -> bytes -> option stat -> F * Z.

Section Readdir.
Context {F : Type} (filler : fill_dir F).

Fixpoint fill_loop (fuel : nat) (e : env) (buf : F) (location high_index : Z) : M sys F :=
  match fuel with
  | O => hang
  | S fuel' =>
      if location <=? high_index then
        a ← getattr_by_location e location zero_stat;
        p ← getEntry_filepath e location;
        let '(buf', full) :=
          match p with
          | Some pathname =>
              if 0 <=? fst a then
                let '(b, full) := filler buf (basename pathname) (Some (snd a)) in
                (b, negb (full =? 0))
              else (buf, false)
          | None => (buf, false)
          end in
        if full then mret buf'
        else
          _ ← assert_defined (in_i32 (location + 1));
          fill_loop fuel' e buf' (location + 1) high_index
      else mret buf
  end.

(** [path_cap] is the size of the array that holds [path], to which [strcat]
    appends a slash; the result is the return value, the directory buffer and
    the path array after the call. *)
Definition catalog_readdir (e : env) (path_cap : Z) (path : bytes) (buf : F)
  : M sys (Z * F * bytes) :=
  let buf := fst (filler buf (B ".") None) in
  let buf := fst (filler buf (B "..") None) in
  path ← (if negb (strcmp path (B "/") =? 0) then strcat path_cap path (B "/")
          else mret path);
  r ← get_directory_contents e path;
  match r with
  | (ret_val, Some low_index, Some high_index) =>
      if (ret_val <? 0) || (low_index <? 0) || (high_index <? 0)
      then mret (- ENOENT, buf, path)
      else
        let location := to_i32 (low_index + 1) in
        buf ← fill_loop (span_fuel location high_index) e buf location high_index;
        mret (0, buf, path)
  | (ret_val, _, _) =>
      if ret_val <? 0 then mret (- ENOENT, buf, path)
      else ub                                   (* reads an unset index *)
  end.
End Readdir.

(** * Symbolic links *)

(** [buf] is the array of [size] bytes that receives the destination. *)
Definition catalog_readlink (e : env) (path : bytes) (buf : bytes) (size : Z)
  : M sys (Z * bytes) :=
  ok ← malloc e;
  _ ← assert_defined ok;
  location ← binSearch e path;
  if location <? 0 then mret (- ENOENT, buf)
  else
    r ← getEntry_from_catalog e location;
    match r with
    | None => mret (- ENOENT, buf)
    | Some w =>
        _ ← modify tick;                          (* printf of the destination *)
        dest ← read_printed e (link_dest w);
        buf' ← strncpy buf dest (to_u64 (size - 1));
        mret (0, buf')
    end.

(** * The table of operations *)

Inductive request :=
| Getattr (path : bytes)
| Access (path : bytes) (mode : Z)
| Destroy
| Open (path : bytes)
| Read (path : bytes) (size offset : Z)
| Write (path buf : bytes) (size offset : Z)
| Rename (from to : bytes)
| Statfs (path : bytes)
| Release (path : bytes)
| Releasedir (path : bytes)
| Fsync (path : bytes) (datasync : Z)
| Fsyncdir (path : bytes) (datasync : Z)
| Opendir (path : bytes)
| Readdir (path_cap : Z) (path : bytes)
| Mkdir (path : bytes) (mode : Z)
| Rmdir (path : bytes)
| Link (from to : bytes)
| Readlink (path buf : bytes) (size : Z)
| Symlink (from to : bytes)
| Unlink (path : bytes)
| Mknod (path : bytes) (mode rdev : Z)
| Chmod (path : bytes) (mode : Z)
| Chown (path : bytes) (uid gid : Z)
| Utimens (path : bytes) (tv : list (Z * Z))
| Truncate (path : bytes) (size : Z)
| Setxattr (path name value : bytes) (size flags : Z)
| Getxattr (path name : bytes) (size : Z)
| Listxattr (path : bytes) (size : Z)
| Removexattr (path name : bytes).

Inductive reply (F : Type) :=
| RVoid
| RInt (ret : Z)
| RStat (ret : Z) (st : stat)
| RStatvfs (ret : Z) (st : statvfs)
| RDir (ret : Z) (buf : F)
| RLink (ret : Z) (buf : bytes).
Arguments RVoid {F}.
Arguments RInt {F} ret.
Arguments RStat {F} ret st.
Arguments RStatvfs {F} ret st.
Arguments RDir {F} ret buf.
Arguments RLink {F} ret buf.

(** The callback that [catalog_operations] gives for each request. *)
Definition catalog_operations {F} (filler : fill_dir F) (empty : F) (e : env)
  (q : request) : M sys (reply F) :=
  match q with
  | Getattr path => r ← catalog_getattr e path; mret (RStat (fst r) (snd r))
  | Access path mode => mret (RInt (catalog_access path mode))
  | Destroy => let _ := catalog_destroy in mret RVoid
  | Open path => mret (RInt (catalog_open path))
  | Read path size offset => mret (RInt (catalog_read path size offset))
  | Write path buf size offset => mret (RInt (catalog_write path buf size offset))
  | Rename from to => mret (RInt (catalog_rename from to))
  | Statfs path => let '(r, st) := catalog_statfs path in mret (RStatvfs r st)
  | Release path => mret (RInt (catalog_release path))
  | Releasedir path => mret (RInt (catalog_releasedir path))
  | Fsync path d => mret (RInt (catalog_fsync path d))
  | Fsyncdir path d => mret (RInt (catalog_fsyncdir path d))
  | Opendir path => mret (RInt (catalog_opendir path))
  | Readdir cap path =>
      r ← catalog_readdir filler e cap path empty;
      mret (RDir (fst (fst r)) (snd (fst r)))
  | Mkdir path mode => mret (RInt (catalog_mkdir path mode))
  | Rmdir path => mret (RInt (catalog_rmdir path))
  | Link from to => mret (RInt (catalog_link from to))
  | Readlink path buf size =>
      r ← catalog_readlink e path buf size; mret (RLink (fst r) (snd r))
  | Symlink from to => mret (RInt (catalog_symlink from to))
  | Unlink path => mret (RInt (catalog_unlink path))
  | Mknod path mode rdev => mret (RInt (catalog_mknod path mode rdev))
  | Chmod path mode => mret (RInt (catalog_chmod path mode))
  | Chown path uid gid => mret (RInt (catalog_chown path uid gid))
  | Utimens path tv => mret (RInt (catalog_utimens path tv))
  | Truncate path size => mret (RInt (catalog_truncate path size))
  | Setxattr path name value size flags =>
      mret (RInt (catalog_setxattr path name value size flags))
  | Getxattr path name size => mret (RInt (catalog_getxattr path name size))
  | Listxattr path size => mret (RInt (catalog_listxattr path size))
  | Removexattr path name => mret (RInt (catalog_removexattr path name))
  end.

(** * [main] *)

(** From the environment variables to the globals with which [fuse_main] is
    called, or the exit status. *)
Definition main (getenv : bytes -> option bytes) : outcome (bytes * Z * Z) :=
  let catalog := getenv (B "CATALOGFS_CATALOG") in
  let error0 := bool_decide (catalog = None) in
  let size_var := getenv (B "CATALOGFS_ENTRY_SIZE") in
  match from_option atoi (Some 0) size_var with
  | None => UB
  | Some size =>
      let error1 := error0 || bool_decide (size_var = None) in
      let len_var := getenv (B "CATALOGFS_CATALOG_LEN") in
      match from_option atol (Some 0) len_var with
      | None => UB
      | Some len =>
          let error2 := error1 || bool_decide (len_var = None) in
          let error3 := error2 || (size <? 13) in
          let error4 := error3 || (len <=? 0) in
          if error4 then Exit 1 else Ret (from_option id [] catalog, size, len)
      end
  end.

(** * Specification of the callbacks over the list of records *)

Lemma lookup_step_tick s : lookup_step s (tick s).
Proof. unfold lookup_step. simpl. lia. Qed.
#[export] Hint Resolve lookup_step_tick : core.

(** What a directory buffer gets for a record. *)
Definition dir_entry (w : stat_wdf) : bytes * stat := (basename (file_path w), st_data w).

#[global] Instance listed_in_dec p w : Decision (listed_in p w).
Proof. unfold listed_in. apply _. Defined.

(** The records a directory shows, [p] being its path with a final slash. *)
Definition dir_records (l : list stat_wdf) (p : bytes) : list stat_wdf :=
  filter (fun w => listed_in p w /\ file_path w <> p) l.

(** Handing entries to the filler until it reports a full buffer. *)
Fixpoint feed {F} (filler : fill_dir F) (buf : F) (items : list (bytes * stat)) : F :=
  match items with
  | [] => buf
  | (name, st) :: items' =>
      let '(buf', full) := filler buf name (Some st) in
      if full =? 0 then feed filler buf' items' else buf'
  end.

(** The path under which a directory's contents are recorded. *)
Definition slash_path (path : bytes) : bytes :=
  if decide (path = B "/") then path else path ++ [SLASH].

Lemma last_slash_path path : last (slash_path path) = Some SLASH.
Proof.
  unfold slash_path. case_decide as H; [by rewrite H | apply last_snoc].
Qed.

(** Without room for the slash, [strcat] writes past the end of the path. *)
Lemma catalog_readdir_overruns {F} (filler : fill_dir F) e path_cap path buf s :
  path <> B "/" -> path_cap <= strlen path + 1 -> catalog_readdir filler e path_cap path buf s = UB.
Proof.
  intros Hp Hcap. unfold catalog_readdir.
  replace (strcmp path (B "/") =? 0) with false
    by (symmetry; apply Z.eqb_neq; by rewrite strcmp_eq).
  cbn [negb]. apply bind_ub_eq. unfold strcat. apply assert_false.
  change (strlen (B "/")) with 1. lia.
Qed.

(** What [strncpy(buf, dest, size-1)] leaves in an array of [size] bytes. *)
Definition link_buffer (dest buf : bytes) (size : Z) : bytes :=
  let k := Z.to_nat (size - 1) in take k (dest ++ replicate k NUL) ++ drop k buf.

Lemma take_app_replicate (dest : bytes) k rest :
  (length dest < k)%nat -> nul_free dest ->
  cstr (take k (dest ++ replicate k NUL) ++ rest) = dest.
Proof.
  intros Hk Hn. rewrite take_app_ge by lia. rewrite take_replicate.
  replace (k - length dest)%nat with (S (k - S (length dest))) by lia.
  rewrite Nat.min_l by lia. cbn [replicate]. rewrite <- app_assoc. by apply cstr_app.
Qed.

(** A destination that fits is terminated; the last byte is never written. *)
Lemma link_buffer_facts dest buf size :
  0 < size < 2 ^ 64 -> strlen buf = size ->
  strlen (link_buffer dest buf size) = size /\
  (forall rest, nul_free dest -> strlen dest < size - 1 ->
     cstr (link_buffer dest buf size ++ rest) = dest) /\
  last (link_buffer dest buf size) = last buf.
Proof.
  intros Hsize Hbuf. unfold link_buffer, strlen in *.
  set (k := Z.to_nat (size - 1)). assert (length buf = S k) as Hk by lia. split_and!.
  - rewrite length_app, length_take, length_app, length_replicate, length_drop. lia.
  - intros rest Hn Hd. rewrite <- app_assoc. apply take_app_replicate; [lia | done].
  - destruct (drop k buf) as [|c [|d r]] eqn:E;
      pose proof (f_equal length E) as El; rewrite length_drop in El; simpl in El; try lia.
    rewrite last_snoc. rewrite <- (take_drop k buf), E. by rewrite last_snoc.
Qed.

Section Spec.
Context {e : env} {l : list stat_wdf} `{!CatalogView e l}.
Context (Hsorted : catalog_sorted l) (Hlen : Z.of_nat (length l) < 2 ^ 31).

Lemma getattr_by_location_spec i w st s :
  zlookup l i = Some w ->
  getattr_by_location e i st s = Ret ((0, st_data w), tick s).
Proof.
  intros Hi. unfold getattr_by_location.
  rewrite (bind_runs_eq _ _ _ _ _ (view_read _ _ s Hi)). simpl.
  by destruct (st_data w).
Qed.

Lemma getattr_by_path_spec path st s :
  runs (getattr_by_path e path st) s (fun r s' => lookup_step s s' /\
    r = match lookup_path l path with
        | Some w => (0, st_data w)
        | None => (- ENOENT, st)
        end).
Proof.
  unfold getattr_by_path. apply runs_bind.
  eapply runs_mono; [by apply binSearch_spec |]. intros r s1 [Hs1 Hloc].
  rewrite (location_lookup path r Hsorted Hloc).
  destruct (r <? 0) eqn:Er; [done |].
  destruct Hloc as [(w & Hw & _) | [-> _]]; [| done]. rewrite Hw.
  apply runs_bind. unfold runs at 1. rewrite (getattr_by_location_spec _ _ _ _ Hw).
  simpl. split; [| done]. by etrans.
Qed.

Lemma fill_loop_spec {F} (filler : fill_dir F) fuel buf i high s :
  0 <= i -> high < Z.of_nat (length l) -> Z.max 0 (high - i + 1) < Z.of_nat fuel ->
  runs (fill_loop filler fuel e buf i high) s (fun b s' => lookup_step s s' /\
    b = feed filler buf
          (map dir_entry (take (Z.to_nat (high + 1 - i)) (drop (Z.to_nat i) l)))).
Proof.
  revert buf i s. induction fuel as [|fuel IH]; intros buf i s Hi Hhigh Hf; [lia |]. simpl.
  destruct (i <=? high) eqn:E.
  2:{ replace (Z.to_nat (high + 1 - i)) with 0%nat by lia. done. }
  destruct (zlookup_is_Some l i) as [w Hw]; [lia |].
  apply runs_bind. unfold runs at 1. rewrite (getattr_by_location_spec _ _ _ _ Hw).
  apply runs_bind. unfold runs at 1. rewrite (search_filepath _ _ (tick s) Hw). simpl.
  replace (Z.to_nat (high + 1 - i)) with (S (Z.to_nat (high + 1 - (i + 1)))) by lia.
  rewrite zlookup_lookup in Hw by lia. rewrite (drop_S _ _ _ Hw). simpl.
  destruct (filler buf (basename (file_path w)) (Some (st_data w))) as [b full].
  destruct (full =? 0) eqn:Ef; simpl; [| split; [| done]].
  - apply runs_bind, runs_assert; [unfold in_i32; apply in_range_spec; lia |].
    eapply runs_mono; [apply IH; lia |]. intros b' s' [Hs ->].
    replace (Z.to_nat (i + 1)) with (S (Z.to_nat i)) by lia. split; [| done].
    etrans; [apply lookup_step_tick |]. eauto.
  - etrans; [apply lookup_step_tick |]. eauto.
Qed.

(** The interval of a directory is the list of its records. *)
Lemma dir_records_slice p low high :
  0 <= low <= high -> high < Z.of_nat (length l) ->
  (forall i w, zlookup l i = Some w -> low < i <= high <-> listed_in p w /\ file_path w <> p) ->
  dir_records l p = take (Z.to_nat (high + 1 - (low + 1))) (drop (Z.to_nat (low + 1)) l).
Proof.
  intros Hlow Hhigh Hin. unfold dir_records.
  rewrite (filter_interval _ l (Z.to_nat (low + 1)) (Z.to_nat (high + 1))); [| lia |].
  - do 2 f_equal. lia.
  - intros i w Hi. rewrite <- (Hin (Z.of_nat i) w); [lia |].
    by rewrite zlookup_lookup, Nat2Z.id by lia.
Qed.

Lemma catalog_readdir_spec {F} (filler : fill_dir F) path_cap path buf s :
  path = B "/" \/ strlen path + 1 < path_cap ->
  let start := fst (filler (fst (filler buf (B ".") None)) (B "..") None) in
  let p := slash_path path in
  runs (catalog_readdir filler e path_cap path buf) s (fun r s' => lookup_step s s' /\
    r = match lookup_path l p with
        | Some _ => (0, feed filler start (map dir_entry (dir_records l p)), p)
        | None => (- ENOENT, start, p)
        end).
Proof.
  intros Hcap start p. unfold catalog_readdir. apply runs_bind.
  apply (runs_mono _ s (fun q s' => s' = s /\ q = p)).
  { unfold p, slash_path. case_decide as Hroot.
    - by subst path.
    - replace (strcmp path (B "/") =? 0) with false.
      2:{ symmetry. apply Z.eqb_neq. by rewrite strcmp_eq. }
      destruct Hcap as [? | Hcap]; [done |]. by apply runs_strcat. }
  intros q s1 [-> ->]. apply runs_bind.
  eapply runs_mono; [apply (get_directory_contents_spec Hsorted); [done | apply last_slash_path] |].
  intros r s1 [Hs1 [(low & high & v & -> & Hv & Hvp & Hlh & Hin) | [-> Hnone]]].
  2:{ simpl. rewrite lookup_path_None by done. by split. }
  pose proof (zlookup_Some _ _ _ Hv).
  replace (lookup_path l p) with (Some v)
    by (symmetry; rewrite <- Hvp; by eapply lookup_path_Some).
  cbn [Z.ltb Z.compare orb].
  replace (low <? 0) with false by lia. replace (high <? 0) with false by lia. cbn [orb].
  rewrite to_i32_id by lia.
  apply runs_bind. eapply runs_mono.
  { apply (fill_loop_spec filler); [lia | lia | unfold span_fuel; lia]. }
  intros b s2 [Hs2 ->]. run. split; [by etrans |].
  by rewrite (dir_records_slice p low high) by (lia || done).
Qed.

Lemma catalog_readlink_spec path buf size s :
  0 < size < 2 ^ 64 -> strlen buf = size ->
  runs (catalog_readlink e path buf size) s (fun r s' => lookup_step s s' /\
    match lookup_path l path with
    | Some w => exists n, r = (0, link_buffer (printf_leaves e n (link_dest w)) buf size)
    | None => r = (- ENOENT, buf)
    end).
Proof.
  intros Hsize Hbuf. unfold catalog_readlink. apply runs_bind.
  apply (runs_mono _ s (fun ok s' => ok = true /\ s' = add_block s)).
  { unfold malloc. apply runs_bind, runs_get.
    rewrite (view_malloc (ticks s)). by run. }
  intros ok s1 [-> ->]. apply runs_bind, runs_assert; [done |].
  apply runs_bind. eapply runs_mono; [by apply binSearch_spec |].
  intros r s1 [Hs1 Hloc]. rewrite (location_lookup path r Hsorted Hloc).
  assert (lookup_step s s1) as Hs by (etrans; [| done]; unfold lookup_step; simpl; lia).
  destruct (r <? 0) eqn:Er; [done |].
  destruct Hloc as [(w & Hw & _) | [-> _]]; [| done]. rewrite Hw.
  apply runs_bind. unfold runs at 1. rewrite (view_read _ _ _ Hw).
  rewrite to_u64_id by lia. unfold read_printed, strncpy. run. apply runs_assert; [lia |].
  run. split; [| by eexists]. do 2 (etrans; [| apply lookup_step_tick]). by etrans.
Qed.
End Spec.
