(* ===== verification/Resources.v ===== *)
(** catalogfs.c over time: the mounted file system as a step relation in which
    requests are served and the catalog file may be rewritten between them, with
    the invariant on file descriptors and heap blocks. *)

From S2P Require Import Prelude.
From S2P Require Import CString.
From S2P Require Import CStdio.
From S2P Require Import Entry.
From S2P Require Import Lookup.
From S2P Require Import CatalogFS.

(** * Partial correctness *)

(** [ensures m s Q]: when [m] returns from [s], [Q] holds of the result. *)
Definition ensures {S A} (m : M S A) (s : S) (Q : A -> S -> Prop) : Prop :=
  match m s with
  | Ret (a, s') => Q a s'
  | _ => True
  end.

Lemma ensures_ret {S A} (a : A) (s : S) (Q : A -> S -> Prop) :
  Q a s -> ensures (mret a) s Q.
Proof. done. Qed.

Lemma ensures_get {S} (s : S) (Q : S -> S -> Prop) : Q s s -> ensures get s Q.
Proof. done. Qed.

Lemma ensures_bind {S A C} (m : M S A) (f : A -> M S C) s (Q : C -> S -> Prop) :
  ensures m s (fun a s' => ensures (f a) s' Q) -> ensures (m ≫= f) s Q.
Proof. unfold ensures, mbind, M_bind. destruct (m s) as [[a s']| | |]; done. Qed.

Lemma ensures_mono {S A} (m : M S A) s (Q R : A -> S -> Prop) :
  ensures m s Q -> (forall a s', Q a s' -> R a s') -> ensures m s R.
Proof. unfold ensures. destruct (m s) as [[a s']| | |]; eauto. Qed.

Lemma ensures_assert {S} b (s : S) (Q : unit -> S -> Prop) :
  (b = true -> Q tt s) -> ensures (assert_defined b) s Q.
Proof. unfold ensures, assert_defined. destruct b; cbn; eauto. Qed.

Lemma ensures_strcpy {S} cap src (s : S) (Q : bytes -> S -> Prop) :
  Q src s -> ensures (strcpy cap src) s Q.
Proof. intros. unfold strcpy. apply ensures_bind, ensures_assert. intros _. by apply ensures_ret. Qed.

Lemma ensures_strcat {S} cap dst src (s : S) (Q : bytes -> S -> Prop) :
  Q (dst ++ src) s -> ensures (strcat cap dst src) s Q.
Proof. intros. unfold strcat. apply ensures_bind, ensures_assert. intros _. by apply ensures_ret. Qed.

Lemma ensures_read_dead e p s (Q : bytes -> sys -> Prop) :
  Q (dead_stack e (ticks s) p) s -> ensures (read_dead e p) s Q.
Proof. done. Qed.

Lemma ensures_read_printed e p s (Q : bytes -> sys -> Prop) :
  Q (printf_leaves e (ticks s) p) s -> ensures (read_printed e p) s Q.
Proof. done. Qed.

Lemma ensures_eq {S A} (m : M S A) s (Q : A -> S -> Prop) a s' :
  ensures m s Q -> m s = Ret (a, s') -> Q a s'.
Proof. unfold ensures. intros H E. by rewrite E in H. Qed.

(** Equal runs whose continuations agree on what the first part can return. *)
Lemma bind_ext_ensures {S A C} (m m' : M S A) (f g : A -> M S C) s (Q : A -> S -> Prop) :
  m s = m' s -> ensures m' s Q -> (forall a s', Q a s' -> f a s' = g a s') ->
  (m ≫= f) s = (m' ≫= g) s.
Proof.
  unfold ensures, mbind, M_bind. intros -> HQ H. destruct (m' s) as [[a s']| | |]; auto.
Qed.

Ltac unfold_steps := unfold lookup_step in *.

(** Composes the effects of consecutive lookups. *)
Ltac lookup_chain := cbv beta in *; unfold_steps; lia.

(** * One request *)

Section Request.
Context (e : env) (data : bytes).
Context (Hsrc : source e = Readable data) (Hsize : 0 <= entry_size e).
Context (Hlen : 0 <= catalog_len e < 2 ^ 31) (Hfit : entry_size e * catalog_len e < 2 ^ 31).

Definition in_catalog (i : Z) : Prop := 0 <= i < catalog_len e.

Lemma getEntry_keeps i s :
  in_catalog i -> ensures (getEntry_from_catalog e i) s (fun _ s' => lookup_step s s').
Proof.
  intros Hi. unfold getEntry_from_catalog.
  apply ensures_bind. unfold ensures, get. apply ensures_bind. unfold ensures, modify.
  apply ensures_bind, ensures_assert. intros _.
  apply ensures_bind, ensures_strcpy. rewrite Hsrc.
  apply ensures_bind. unfold ensures, modify. apply ensures_bind, ensures_assert. intros _.
  unfold in_catalog in Hi. rewrite to_i32_id by nia.
  replace (entry_size e * i <? 0) with false by nia.
  apply ensures_bind. unfold ensures, modify.
  destruct (decode_entry _ _); [| done]. unfold mret, M_ret, lookup_step. simpl. lia.
Qed.

Lemma malloc_keeps s :
  ensures (malloc e) s (fun ok s' =>
    lookup_step s s' /\ (ok = true -> live_blocks s < live_blocks s')).
Proof.
  unfold malloc. apply ensures_bind. unfold ensures, get.
  destruct (malloc_ok e (ticks s)); unfold mbind, M_bind, modify, lookup_step; simpl;
    split; done || lia.
Qed.

(** A probe that returns has lost a block. *)
Definition lossy_step (s s' : sys) : Prop :=
  lookup_step s s' /\ live_blocks s < live_blocks s'.

Lemma getEntry_depth_filepath_keeps i s :
  in_catalog i -> ensures (getEntry_depth_filepath e i) s (fun _ s' => lossy_step s s').
Proof.
  intros Hi. unfold getEntry_depth_filepath. apply ensures_bind.
  eapply ensures_mono; [apply malloc_keeps |]. intros ok s1 [Hs1 Hok].
  apply ensures_bind, ensures_assert. intros Ht. specialize (Hok Ht). apply ensures_bind.
  eapply ensures_mono; [by apply getEntry_keeps |]. intros [w|] s2 Hs2.
  - apply ensures_bind, ensures_read_dead, ensures_bind, ensures_strcpy, ensures_ret.
    split; lookup_chain.
  - apply ensures_ret. split; lookup_chain.
Qed.

Lemma getEntry_filepath_keeps i s :
  in_catalog i -> ensures (getEntry_filepath e i) s (fun _ s' => lossy_step s s').
Proof.
  intros Hi. unfold getEntry_filepath. apply ensures_bind.
  eapply ensures_mono; [by apply getEntry_depth_filepath_keeps |]. intros r s1 Hs1. done.
Qed.

Lemma find_index_keeps fuel d low high mid dep s :
  0 <= low -> high < catalog_len e ->
  ensures (find_index fuel e d low high mid dep) s (fun r s' => lookup_step s s' /\
    match r with
    | Some (low', high', mid', _) =>
        0 <= low' /\ high' < catalog_len e /\ (high' < low' \/ low' <= mid' <= high')
    | None => True
    end).
Proof.
  revert low high mid dep s. induction fuel as [|fuel IH]; intros low high mid dep s Hl Hh;
    [done |]. cbn [find_index].
  destruct (low <=? high) eqn:E; [| apply ensures_ret; split; [done | lia]].
  pose proof (calculateMid_bounds low high ltac:(lia)). apply ensures_bind.
  eapply ensures_mono; [apply getEntry_depth_filepath_keeps; unfold in_catalog; lia |].
  intros [[d' p]|] s1 [Hs1 Hlt]; [| by apply ensures_ret].
  destruct (d' =? d) eqn:E1; [apply ensures_ret; split; [done | lia] |].
  destruct (d' <? d); (eapply ensures_mono; [apply IH; lia |]);
    intros r s2 [Hs2 Hr]; (split; [lookup_chain | done]).
Qed.

Lemma lowest_loop_keeps fuel d low i dep s :
  0 <= low <= i -> i < catalog_len e ->
  ensures (lowest_loop fuel e d low i dep) s (fun r s' => lookup_step s s' /\
    match r with Some j => low - 1 <= j <= i | None => True end).
Proof.
  revert i dep s. induction fuel as [|fuel IH]; intros i dep s Hl Hi; [done |].
  cbn [lowest_loop]. destruct (dep =? d); [| apply ensures_ret; split; [done | lia]].
  destruct (i - 1 <? low) eqn:E; [apply ensures_ret; split; [done | lia] |].
  apply ensures_bind.
  eapply ensures_mono; [apply getEntry_depth_filepath_keeps; unfold in_catalog; lia |].
  intros [[d' p]|] s1 [Hs1 Hlt]; [| by apply ensures_ret].
  eapply ensures_mono; [apply IH; lia |]. intros r s2 [Hs2 Hr].
  split; [lookup_chain |]. destruct r; lia.
Qed.

Lemma highest_loop_keeps fuel d high i dep s :
  0 <= i <= high -> high < catalog_len e ->
  ensures (highest_loop fuel e d high i dep) s (fun r s' => lookup_step s s' /\
    match r with Some j => i <= j <= high + 1 | None => True end).
Proof.
  revert i dep s. induction fuel as [|fuel IH]; intros i dep s Hl Hi; [done |].
  cbn [highest_loop]. destruct (dep =? d); [| apply ensures_ret; split; [done | lia]].
  destruct (high <? i + 1) eqn:E; [apply ensures_ret; split; [done | lia] |].
  apply ensures_bind.
  eapply ensures_mono; [apply getEntry_depth_filepath_keeps; unfold in_catalog; lia |].
  intros [[d' p]|] s1 [Hs1 Hlt]; [| by apply ensures_ret].
  eapply ensures_mono; [apply IH; lia |]. intros r s2 [Hs2 Hr].
  split; [lookup_chain |]. destruct r; lia.
Qed.

Lemma path_loop_keeps fuel p low high s :
  0 <= low -> high < catalog_len e ->
  ensures (path_loop fuel e p low high) s (fun r s' => lookup_step s s' /\
    (r = -1 \/ (in_catalog r /\ live_blocks s < live_blocks s'))).
Proof.
  revert low high s. induction fuel as [|fuel IH]; intros low high s Hl Hh; [done |].
  cbn [path_loop]. destruct (low <=? high) eqn:E; [| apply ensures_ret; split; [lookup_chain | auto]].
  pose proof (calculateMid_bounds low high ltac:(lia)). apply ensures_bind.
  eapply ensures_mono; [apply getEntry_filepath_keeps; unfold in_catalog; lia |].
  intros [p'|] s1 [Hs1 Hlt]; [| apply ensures_ret; split; [lookup_chain | auto]].
  destruct (strcmp p' p =? 0); [apply ensures_ret; unfold in_catalog; split; [done | lia] |].
  destruct (strcmp p' p <? 0); (eapply ensures_mono; [apply IH; lia |]);
    intros r s2 [Hs2 Hr]; (split; [lookup_chain |]);
    (destruct Hr as [? | [? ?]]; [by left | right; split; [done | lookup_chain]]).
Qed.

Lemma binSearch_keeps p s :
  ensures (binSearch e p) s (fun r s' => lookup_step s s' /\
    (r = -1 \/ (in_catalog r /\ live_blocks s < live_blocks s'))).
Proof.
  unfold binSearch. cbn [records catalogfs_reader].
  destruct (findDepth p <=? 0); [apply ensures_ret; split; [lookup_chain | auto] |].
  apply ensures_bind. eapply ensures_mono; [apply find_index_keeps; lia |].
  intros [[[[low high] mid] dep]|] s1 [Hs1 Hr]; [| apply ensures_ret; split; [lookup_chain | auto]].
  destruct (high <? low) eqn:E; [apply ensures_ret; split; [lookup_chain | auto] |].
  destruct Hr as (Hl & Hh & [? | Hm]); [lia |].
  apply ensures_bind. unfold find_lowest_index. apply ensures_bind.
  eapply ensures_mono; [apply lowest_loop_keeps; lia |]. intros [lo|] s2 [Hs2 Hlo].
  2:{ apply ensures_ret, ensures_ret. split; [lookup_chain | auto]. }
  apply ensures_ret. cbn [fmap option_fmap option_map].
  apply ensures_bind. unfold find_highest_index. apply ensures_bind.
  eapply ensures_mono; [apply highest_loop_keeps; lia |]. intros [hi|] s3 [Hs3 Hhi].
  2:{ apply ensures_ret, ensures_ret. split; [lookup_chain | auto]. }
  apply ensures_ret. cbn [fmap option_fmap option_map]. apply ensures_bind.
  eapply ensures_mono; [apply path_loop_keeps; lia |]. intros r s4 [Hs4 Hr].
  apply ensures_ret. unfold in_catalog in *. rewrite to_i32_id by lia.
  split; [lookup_chain |].
  destruct Hr as [? | [? ?]]; [by left | right; split; [done | lookup_chain]].
Qed.

Lemma contents_loop_keeps fuel p d i s :
  0 <= i < catalog_len e ->
  ensures (contents_loop fuel e p d i) s (fun r s' => lookup_step s s' /\
    match r with Some j => i < j <= catalog_len e | None => True end).
Proof.
  revert i s. induction fuel as [|fuel IH]; intros i s Hi; [done |].
  cbn [contents_loop records catalogfs_reader]. destruct (catalog_len e <=? i + 1) eqn:E;
    [apply ensures_ret; split; [done | lia] |].
  apply ensures_bind.
  eapply ensures_mono; [apply getEntry_depth_filepath_keeps; unfold in_catalog; lia |].
  intros [[d' p']|] s1 [Hs1 Hlt]; [| by apply ensures_ret].
  destruct (_ || _); [apply ensures_ret; split; [done | lia] |].
  eapply ensures_mono; [apply IH; lia |]. intros r s2 [Hs2 Hr].
  split; [lookup_chain |]. destruct r; lia.
Qed.

Lemma get_directory_contents_keeps p s :
  ensures (get_directory_contents e p) s (fun r s' => lookup_step s s' /\
    match r with
    | (ret, Some low, Some high) => ret < 0 \/ (0 <= low <= high /\ high < catalog_len e)
    | _ => True
    end).
Proof.
  unfold get_directory_contents. cbn [records catalogfs_reader].
  destruct (_ || _); [apply ensures_ret; split; [done | lia] |].
  apply ensures_bind. eapply ensures_mono; [apply binSearch_keeps |].
  intros low s1 [Hs1 Hlow]. destruct (low <? 0) eqn:E; [by apply ensures_ret |].
  destruct (findDepth p <=? 0); [by apply ensures_ret |]. apply ensures_bind.
  assert (in_catalog low) as Hin by (destruct Hlow as [? | [? _]]; [lia | done]).
  eapply ensures_mono; [by apply contents_loop_keeps |].
  intros [j|] s2 [Hs2 Hj]; apply ensures_ret; (split; [lookup_chain |]); [| done].
  unfold in_catalog in Hin. right. lia.
Qed.

Lemma getattr_by_location_keeps i st s :
  in_catalog i -> ensures (getattr_by_location e i st) s (fun _ s' => lookup_step s s').
Proof.
  intros Hi. unfold getattr_by_location. apply ensures_bind.
  eapply ensures_mono; [by apply getEntry_keeps |]. by intros [w|] s1 Hs1.
Qed.

Lemma catalog_getattr_keeps p s :
  ensures (catalog_getattr e p) s (fun r s' => lookup_step s s' /\
    (0 <= fst r -> live_blocks s < live_blocks s')).
Proof.
  unfold catalog_getattr, getattr_by_path. apply ensures_bind.
  eapply ensures_mono; [apply binSearch_keeps |]. intros i s1 [Hs1 Hi].
  destruct (i <? 0) eqn:E; [apply ensures_ret; split; [done | unfold ENOENT; simpl; lia] |].
  destruct Hi as [? | [Hi Hlt]]; [lia |]. apply ensures_bind.
  eapply ensures_mono; [by apply getattr_by_location_keeps |].
  intros [r st'] s2 Hs2. destruct (r <? 0); apply ensures_ret; simpl; split; lookup_chain.
Qed.

Lemma catalog_readlink_keeps p buf size s :
  ensures (catalog_readlink e p buf size) s (fun _ s' => lookup_step s s').
Proof.
  unfold catalog_readlink. apply ensures_bind.
  eapply ensures_mono; [apply malloc_keeps |]. intros ok s0 [Hs0 _].
  apply ensures_bind, ensures_assert. intros _. apply ensures_bind.
  eapply ensures_mono; [apply binSearch_keeps |]. intros i s1 [Hs1 Hi].
  destruct (i <? 0) eqn:E; [apply ensures_ret; lookup_chain |]. apply ensures_bind.
  eapply ensures_mono; [apply getEntry_keeps; destruct Hi as [? | [? _]]; [lia | done] |].
  intros [w|] s2 Hs2; [| apply ensures_ret; lookup_chain].
  apply ensures_bind. unfold modify, ensures at 1.
  apply ensures_bind, ensures_read_printed.
  unfold strncpy. apply ensures_bind, ensures_bind, ensures_assert. intros _.
  apply ensures_ret, ensures_ret. unfold_steps. cbn. lookup_chain.
Qed.

Context {F : Type} (filler : fill_dir F).

Lemma fill_loop_keeps fuel buf i high s :
  0 <= i -> high < catalog_len e ->
  ensures (fill_loop filler fuel e buf i high) s (fun _ s' => lookup_step s s').
Proof.
  revert buf i s. induction fuel as [|fuel IH]; intros buf i s Hi Hh; [done |].
  cbn [fill_loop]. destruct (i <=? high) eqn:E; [| by apply ensures_ret].
  apply ensures_bind.
  eapply ensures_mono; [apply getattr_by_location_keeps; unfold in_catalog; lia |].
  intros a s1 Hs1. apply ensures_bind.
  eapply ensures_mono; [apply getEntry_filepath_keeps; unfold in_catalog; lia |].
  intros p s2 [Hs2 _]. destruct (match p with Some _ => _ | None => _ end) as [buf' full].
  destruct full; [apply ensures_ret; lookup_chain |].
  apply ensures_bind, ensures_assert. intros _.
  eapply ensures_mono; [apply IH; lia |]. intros b s3 Hs3. lookup_chain.
Qed.

Lemma catalog_readdir_keeps cap p buf s :
  ensures (catalog_readdir filler e cap p buf) s (fun _ s' => lookup_step s s').
Proof.
  unfold catalog_readdir. apply ensures_bind.
  apply (ensures_mono _ _ (fun _ s' => s' = s)).
  { destruct (negb _); [by apply ensures_strcat | done]. }
  intros q s0 ->. apply ensures_bind.
  eapply ensures_mono; [apply get_directory_contents_keeps |].
  intros [[ret [low|]] [high|]] s1 [Hs1 Hr]; try (case_match; done).
  destruct (_ || _) eqn:E; [by apply ensures_ret |].
  destruct Hr as [? | [Hl Hh]]; [lia |].
  cbv zeta. apply ensures_bind. rewrite to_i32_id by lia.
  eapply ensures_mono; [apply fill_loop_keeps; lia |]. intros b s2 Hs2.
  apply ensures_ret. lookup_chain.
Qed.

(** No request changes the number of open descriptors or frees a block. *)
Lemma catalog_operations_keeps (empty : F) q s :
  ensures (catalog_operations filler empty e q) s (fun _ s' => lookup_step s s').
Proof.
  destruct q; try (by apply ensures_ret); cbn [catalog_operations]; apply ensures_bind.
  - eapply ensures_mono; [apply catalog_getattr_keeps |]. by intros r s' [? _].
  - eapply ensures_mono; [apply catalog_readdir_keeps |]. done.
  - eapply ensures_mono; [apply catalog_readlink_keeps |]. done.
Qed.
End Request.

(** * The mounted file system *)

Record mounted := Mounted { m_env : env; m_sys : sys }.

(** The same mount over other contents of the catalog file. *)
Definition with_source (e : env) (data : bytes) : env :=
  Env (catalogFile e) (entry_size e) (catalog_len e) (Readable data) (malloc_ok e)
      (junk e) (junk_mid e) (dead_stack e) (printf_leaves e).

Section System.
Context {F : Type} (filler : fill_dir F) (empty : F).

Inductive step : relation mounted :=
| step_request e s q r s' :
    catalog_operations filler empty e q s = Ret (r, s') ->
    step (Mounted e s) (Mounted e s')
| step_rewrite e s data :
    step (Mounted e s) (Mounted (with_source e data) s).

(** The parameters of the mount keep every offset within an [int]. *)
Definition offsets_fit (e : env) : Prop :=
  (exists data, source e = Readable data) /\ 0 <= entry_size e /\
  0 <= catalog_len e < 2 ^ 31 /\ entry_size e * catalog_len e < 2 ^ 31.

Lemma step_invariant m m' :
  step m m' -> offsets_fit (m_env m) ->
  offsets_fit (m_env m') /\ lookup_step (m_sys m) (m_sys m').
Proof.
  intros [e s q r s' Hq | e s data] (Hd & H1 & H2 & H3); simpl in *.
  - split; [done |]. destruct Hd as [data Hd].
    by eapply (ensures_eq _ _ _ _ _ (catalog_operations_keeps e data Hd H1 H2 H3 filler empty q s)).
  - split; [| done]. split_and!; simpl; try lia. by exists data.
Qed.

Lemma reachable_invariant m m' :
  rtc step m m' -> offsets_fit (m_env m) ->
  offsets_fit (m_env m') /\ lookup_step (m_sys m) (m_sys m').
Proof.
  induction 1 as [m | m m1 m2 Hstep _ IH]; [done |]. intros Hf.
  destruct (step_invariant _ _ Hstep Hf) as [Hf1 Hs1].
  destruct (IH Hf1) as [Hf2 Hs2]. split; [done | by etrans].
Qed.
End System.
