(* ===== verification/Sample.v ===== *)
(** A concrete catalog of six records, mounted: the inputs at which the theorems
    about catalogfs are evaluated. *)

From S2P Require Import Prelude.
From S2P Require Import CString.
From S2P Require Import CStdio.
From S2P Require Import Entry.
From S2P Require Import Lookup.
From S2P Require Import CatalogFS.

(** A line of 60 bytes from its fields and path. *)
Definition sample_line (fields : string) (path : bytes) : bytes :=
  let text := B fields ++ [SOH] ++ path in
  text ++ replicate (59 - length text) SOH ++ [LF].

Definition sample_lines : list bytes :=
  [sample_line "d 755 2 1001 1001 4096 10 20 30 1 " (B "/");
   sample_line "d 755 2 1001 1001 4096 10 20 30 1 " (B "/a");
   sample_line "f 644 1 1001 1001 745 10 20 30 1 " (B "/b");
   sample_line "l 777 1 1001 1001 14 10 20 30 1 " (B "/l" ++ [STX] ++ B "../x");
   sample_line "d 755 2 1001 1001 4096 10 20 30 2 " (B "/a/");
   sample_line "f 600 1 1001 1001 9 10 20 30 2 " (B "/a/x")].

Definition sample_dir : stat := Stat 16877 2 1001 1001 4096 10 20 30.
Definition sample_file : stat := Stat 33188 1 1001 1001 745 10 20 30.
Definition sample_link : stat := Stat 41471 1 1001 1001 14 10 20 30.
Definition sample_private : stat := Stat 33152 1 1001 1001 9 10 20 30.

Definition sample_records : list stat_wdf :=
  [StatWdf 1 (B "/") sample_dir []; StatWdf 1 (B "/a") sample_dir [];
   StatWdf 1 (B "/b") sample_file []; StatWdf 1 (B "/l") sample_link (B "../x");
   StatWdf 2 (B "/a/") sample_dir []; StatWdf 2 (B "/a/x") sample_private []].

Definition sample_frame : frame :=
  Frame (fun _ => NUL) NUL 0 0 0 0 0 0 0 0 0 [] [].

Definition sample_env : env :=
  Env (B "/tmp/catalog.list") 60 6 (Readable (concat sample_lines)) (fun _ => true)
      (fun _ => sample_frame) 0 (fun _ s => s) (fun _ s => s).

Definition sample_sys : sys := Sys 0 0 0.

#[global] Instance sample_view : CatalogView sample_env sample_records.
Proof.
  apply (catalog_view_of_lines _ sample_lines _ 60); try reflexivity.
  repeat (constructor; [split_and!; [reflexivity | | intros u; reflexivity | reflexivity] |]).
  all: try constructor.
  all: apply (bool_decide_unpack _); vm_compute; exact I.
Qed.

Lemma sample_sorted : catalog_sorted sample_records.
Proof. split; apply (bool_decide_unpack _); vm_compute; exact I. Qed.

(** A filler that keeps the names and never reports a full buffer. *)
Definition name_filler : fill_dir (list bytes) := fun buf name _ => (buf ++ [name], 0).
