(* ===== verification/CatalogProps.v ===== *)
(** The properties of catalogfs: the search, the callbacks, the resources they
    use, and the limits beyond which they misbehave. *)

From S2P Require Import Prelude.
From S2P Require Import CString.
From S2P Require Import CStdio.
From S2P Require Import Entry.
From S2P Require Import Lookup.
From S2P Require Import CatalogFS.
From S2P Require Import Resources.
From S2P Require Import Sample.

(** * Definitions used by the statements *)

(** The requests that would change a file system. *)
Definition mutating (q : request) : bool :=
  match q with
  | Write _ _ _ _ | Rename _ _ | Mkdir _ _ | Rmdir _ | Link _ _ | Symlink _ _
  | Unlink _ | Mknod _ _ _ | Chmod _ _ | Chown _ _ _ | Utimens _ _ | Truncate _ _
  | Setxattr _ _ _ _ _ | Removexattr _ _ => true
  | _ => false
  end.

(** The requests that would read the contents of a file. *)
Definition opening (q : request) : bool :=
  match q with Open _ | Read _ _ _ => true | _ => false end.

(** The result of a run that returns. *)
Definition unwrap {A} (o : outcome A) (default : A) : A :=
  match o with Ret a => a | _ => default end.

(** A mount whose catalog has a name of 230 bytes. *)
Definition long_name_env : env :=
  Env (replicate 230 "c"%char) 60 6 (Readable []) (fun _ => true) (fun _ => sample_frame) 0
      (fun _ s => s) (fun _ s => s).

(** * Termination of every request *)

Lemma no_hang_getattr_by_location e i st : no_hang (getattr_by_location e i st).
Proof. unfold getattr_by_location. never_hangs. Qed.
#[local] Hint Resolve no_hang_getattr_by_location : no_hang.

Lemma no_hang_getattr e p : no_hang (catalog_getattr e p).
Proof. unfold catalog_getattr, getattr_by_path. never_hangs. Qed.

Lemma no_hang_fill_loop {F} (filler : fill_dir F) fuel e buf i high :
  Z.max 0 (high - i + 1) < Z.of_nat fuel -> no_hang (fill_loop filler fuel e buf i high).
Proof.
  revert buf i. induction fuel as [|fuel IH]; intros buf i Hf; [lia |].
  cbn [fill_loop]. destruct (i <=? high) eqn:E; [| auto with no_hang].
  apply no_hang_bind; [auto with no_hang |]. intros a.
  apply no_hang_bind; [auto with no_hang |]. intros p.
  destruct (match p with Some _ => _ | None => _ end) as [buf' full].
  destruct full; [auto with no_hang |].
  apply no_hang_bind; [auto with no_hang |]. intros []. apply IH. lia.
Qed.

Lemma no_hang_readdir {F} (filler : fill_dir F) e cap path buf :
  no_hang (catalog_readdir filler e cap path buf).
Proof.
  unfold catalog_readdir. apply no_hang_bind.
  { apply no_hang_if; [apply no_hang_strcat | auto with no_hang]. }
  intros p. apply no_hang_bind; [auto with no_hang |].
  intros [[ret [low|]] [high|]]; try (apply no_hang_if; auto with no_hang).
  cbv zeta. apply no_hang_bind; [| auto with no_hang].
  apply no_hang_fill_loop. unfold span_fuel. lia.
Qed.

Lemma no_hang_readlink e path buf size : no_hang (catalog_readlink e path buf size).
Proof. unfold catalog_readlink. pose proof (@no_hang_strncpy sys). never_hangs. Qed.
#[local] Hint Resolve no_hang_getattr no_hang_readdir no_hang_readlink : no_hang.

(** * The error message *)

Lemma getEntry_long e i s :
  256 <= strlen (open_error ++ catalogFile e) -> getEntry_from_catalog e i s = UB.
Proof.
  intros H. unfold getEntry_from_catalog.
  rewrite (bind_runs_eq _ _ _ s s) by done. rewrite (bind_runs_eq _ _ _ tt (tick s)) by done.
  destruct (0 <=? entry_size e); [| done].
  rewrite (bind_runs_eq _ _ _ tt (tick s)) by done.
  apply bind_ub_eq. unfold strcpy. apply assert_false. lia.
Qed.

Lemma getEntry_depth_filepath_long e i s :
  256 <= strlen (open_error ++ catalogFile e) -> getEntry_depth_filepath e i s = UB.
Proof.
  intros H. unfold getEntry_depth_filepath.
  destruct (malloc e s) as [[[] s']| | |] eqn:E;
    rewrite ?(bind_runs_eq _ _ _ _ _ E); try done.
  - rewrite (bind_runs_eq _ _ _ tt s') by done. by apply bind_ub_eq, getEntry_long.
  - exfalso. revert E. unfold malloc, mbind, M_bind, get. by destruct (malloc_ok _ _).
  - by apply bind_ub_eq.
  - by destruct (no_hang_malloc e s).
Qed.

(** An absolute path has a positive depth. *)
Lemma findDepth_absolute p : head p = Some SLASH -> 0 < findDepth p.
Proof.
  destruct p as [|c p]; intros [= ->]. unfold findDepth.
  rewrite decide_True by done. simpl. pose proof (count_slashes_nonneg p). lia.
Qed.

(** * The search *)

(** C11. On a catalog sorted by depth and path, the three-phase binSearch
    returns the location of the record that a linear scan finds, and -1 exactly
    when the scan finds none; it leaves no descriptor open. *)
Theorem binSearch_is_linear_search e l p s :
  CatalogView e l -> catalog_sorted l -> Z.of_nat (length l) < 2 ^ 31 ->
  runs (binSearch e p) s (fun r s' => lookup_step s s' /\
    ((r = -1 /\ lookup_path l p = None) \/
     (exists w, zlookup l r = Some w /\ lookup_path l p = Some w))).
Proof.
  intros Hv Hs Hl. eapply runs_mono; [by apply binSearch_spec |].
  intros r s' [Hstep Hloc]. split; [done |].
  pose proof (location_lookup _ _ Hs Hloc) as Hr.
  destruct Hloc as [(w & Hw & Hp) | [-> _]]; [right | by left].
  pose proof (zlookup_Some _ _ _ Hw). replace (r <? 0) with false in Hr by lia.
  exists w. split; [done | congruence].
Qed.

Lemma binSearch_is_linear_search_witness :
  runs (binSearch sample_env (B "/a/x")) sample_sys (fun r s' =>
    lookup_step sample_sys s' /\
    ((r = -1 /\ lookup_path sample_records (B "/a/x") = None) \/
     (exists w, zlookup sample_records r = Some w /\
                lookup_path sample_records (B "/a/x") = Some w))).
Proof.
  apply binSearch_is_linear_search; [apply sample_view | apply sample_sorted | reflexivity].
Defined.

(** C12. get_directory_contents returns, for a path that ends in a slash, an
    interval whose first record is that of the path and whose other records are
    exactly those of the same depth that the path is a proper prefix of; -ENOENT
    when the path has no record. *)
Theorem directory_interval e l p s :
  CatalogView e l -> catalog_sorted l -> Z.of_nat (length l) < 2 ^ 31 ->
  last p = Some SLASH ->
  runs (get_directory_contents e p) s (fun r s' => lookup_step s s' /\
    match lookup_path l p with
    | None => r = (- ENOENT, Some (-1), None)
    | Some v => exists low high, r = (0, Some low, Some high) /\
        zlookup l low = Some v /\ low <= high < Z.of_nat (length l) /\
        forall i w, zlookup l i = Some w ->
          low < i <= high <->
          findDepth (file_path w) = findDepth p /\ p `prefix_of` file_path w /\
          file_path w <> p
    end).
Proof.
  intros Hv Hs Hl Hp. eapply runs_mono; [by apply get_directory_contents_spec |].
  intros r s' [Hstep [(low & high & v & -> & Hlow & <- & Hr & Hin) | [-> Hn]]];
    (split; [done |]).
  - rewrite (lookup_path_Some _ _ _ Hs Hlow). exists low, high. split_and!; try done; try lia.
    intros i w Hi. rewrite (Hin i w Hi). unfold listed_in.
    destruct (depth_at Hs _ _ Hi) as [-> _]. tauto.
  - by rewrite lookup_path_None.
Qed.

Lemma directory_interval_witness :
  runs (get_directory_contents sample_env (B "/a/")) sample_sys (fun r s' =>
    lookup_step sample_sys s' /\
    match lookup_path sample_records (B "/a/") with
    | None => r = (- ENOENT, Some (-1), None)
    | Some v => exists low high, r = (0, Some low, Some high) /\
        zlookup sample_records low = Some v /\
        low <= high < Z.of_nat (length sample_records) /\
        forall i w, zlookup sample_records i = Some w ->
          low < i <= high <->
          findDepth (file_path w) = findDepth (B "/a/") /\
          B "/a/" `prefix_of` file_path w /\ file_path w <> B "/a/"
    end).
Proof.
  apply directory_interval;
    [apply sample_view | apply sample_sorted | reflexivity | reflexivity].
Defined.

(** * The callbacks *)

(** catalog_readdir on any sorted catalog: "." and "..", then the records
    of the directory in the order of the file until the filler reports a full
    buffer; -ENOENT after the two dots when the directory has no record. The
    array that holds the path keeps the appended slash. *)
Theorem catalog_readdir_lists_directory {F} (filler : fill_dir F) e l path_cap path buf s :
  CatalogView e l -> catalog_sorted l -> Z.of_nat (length l) < 2 ^ 31 ->
  path = B "/" \/ strlen path + 1 < path_cap ->
  let start := fst (filler (fst (filler buf (B ".") None)) (B "..") None) in
  let p := slash_path path in
  runs (catalog_readdir filler e path_cap path buf) s (fun r s' => lookup_step s s' /\
    r = match lookup_path l p with
        | Some _ => (0, feed filler start (map dir_entry (dir_records l p)), p)
        | None => (- ENOENT, start, p)
        end).
Proof. intros Hv Hs Hl Hcap. by apply catalog_readdir_spec. Qed.

Lemma catalog_readdir_lists_directory_witness :
  runs (catalog_readdir name_filler sample_env 10 (B "/a") []) sample_sys
    (fun r s' => lookup_step sample_sys s' /\
      r = match lookup_path sample_records (slash_path (B "/a")) with
          | Some _ =>
              (0, feed name_filler [B "."; B ".."]
                    (map dir_entry (dir_records sample_records (slash_path (B "/a")))),
               slash_path (B "/a"))
          | None => (- ENOENT, [B "."; B ".."], slash_path (B "/a"))
          end).
Proof.
  apply (catalog_readdir_lists_directory name_filler);
    [apply sample_view | apply sample_sorted | reflexivity | right; reflexivity].
Defined.

Example readdir_sample_root :
  runs (catalog_readdir name_filler sample_env 10 (B "/") []) sample_sys
    (fun r _ => r = (0, map B ["."; ".."; "a"; "b"; "l"]%string, B "/")).
Proof. reflexivity. Qed.

(** catalog_readlink copies what printf has left of the destination of the
    record into the buffer, terminated when it is shorter than the size less one,
    never writes the last byte of the buffer, and answers -ENOENT without
    touching the buffer when there is no record. *)
Theorem catalog_readlink_copies e l path buf size s :
  CatalogView e l -> catalog_sorted l -> Z.of_nat (length l) < 2 ^ 31 ->
  0 < size < 2 ^ 64 -> strlen buf = size ->
  runs (catalog_readlink e path buf size) s (fun r s' => lookup_step s s' /\
    match lookup_path l path with
    | None => r = (- ENOENT, buf)
    | Some w => fst r = 0 /\ strlen (snd r) = size /\ last (snd r) = last buf /\
        exists n, forall rest, let dest := printf_leaves e n (link_dest w) in
          nul_free dest -> strlen dest < size - 1 -> cstr (snd r ++ rest) = dest
    end).
Proof.
  intros Hv Hs Hl Hsize Hbuf.
  eapply runs_mono; [by apply catalog_readlink_spec |].
  intros r s' [Hstep Hr]. split; [done |].
  destruct (lookup_path l path) as [w|]; [| done]. destruct Hr as [n ->]. cbn [fst snd].
  destruct (link_buffer_facts (printf_leaves e n (link_dest w)) buf size) as (Hlen & Hcopy & Hlast); [done | done |].
  split; [done |]. split; [done |]. split; [done |]. exists n. intros rest. apply Hcopy.
Qed.

Lemma catalog_readlink_copies_witness :
  runs (catalog_readlink sample_env (B "/l") (replicate 8 NUL) 8) sample_sys
    (fun r s' => lookup_step sample_sys s' /\
      match lookup_path sample_records (B "/l") with
      | None => r = (- ENOENT, replicate 8 NUL)
      | Some w => fst r = 0 /\ strlen (snd r) = 8 /\ last (snd r) = last (replicate 8 NUL) /\
          exists n, forall rest, let dest := printf_leaves sample_env n (link_dest w) in
            nul_free dest -> strlen dest < 8 - 1 -> cstr (snd r ++ rest) = dest
      end).
Proof.
  apply catalog_readlink_copies;
    [apply sample_view | apply sample_sorted | reflexivity | split; reflexivity | reflexivity].
Defined.

(** C25. Every request ends, whatever the catalog file holds, sorted or not, and
    whatever the mount parameters: no loop of the search, of the directory scan
    or of readdir runs out of the fuel that the bounds of its interval give. *)
Theorem requests_terminate {F} (filler : fill_dir F) (empty : F) e q s :
  catalog_operations filler empty e q s <> Hang.
Proof.
  revert s. change (no_hang (catalog_operations filler empty e q)).
  destruct q; cbn [catalog_operations]; never_hangs.
Qed.

(** The requests that are answered with -EROFS and no change of the process
    are exactly those that would change a file system. *)
Theorem read_only {F} (filler : fill_dir F) (empty : F) e q s :
  (catalog_operations filler empty e q s = Ret (RInt (- EROFS), s) <-> mutating q = true) /\
  (catalog_operations filler empty e q s = Ret (RInt (- EPERM), s) <-> opening q = true).
Proof.
  destruct q; cbn; split; try (split; [done | intros [=]]; fail); try (split; done).
  all: split; [| done].
  all: unfold mbind, M_bind.
  all: match goal with |- match ?m with _ => _ end = _ -> _ => destruct m as [[? ?]| | |] end; done.
Qed.

(** * Resources *)

(** C39. Over any sequence of requests, interleaved with rewritings of the
    catalog file, the number of open descriptors stays constant and heap blocks
    are only ever added, as long as the mount parameters keep each offset within
    an int. *)
Theorem mounted_resources {F} (filler : fill_dir F) (empty : F) m m' :
  rtc (step filler empty) m m' -> offsets_fit (m_env m) ->
  open_fds (m_sys m') = open_fds (m_sys m) /\
  live_blocks (m_sys m) <= live_blocks (m_sys m') /\ offsets_fit (m_env m').
Proof.
  intros Hr Hf. destruct (reachable_invariant filler empty m m' Hr Hf) as [? [? ?]]. done.
Qed.

Lemma mounted_resources_witness :
  let m' := Mounted sample_env (snd (unwrap (catalog_operations name_filler [] sample_env
                                       (Getattr (B "/a/x")) sample_sys) (RVoid, sample_sys))) in
  open_fds (m_sys m') = open_fds sample_sys /\
  live_blocks sample_sys <= live_blocks (m_sys m') /\ offsets_fit (m_env m').
Proof.
  apply (mounted_resources name_filler [] (Mounted sample_env sample_sys)).
  - eapply rtc_l; [| apply rtc_refl].
    apply (step_request _ _ _ _ (Getattr (B "/a/x")) (RStat 0 sample_private)).
    vm_compute. reflexivity.
  - split; [by eexists |]. vm_compute. intuition discriminate.
Defined.

(** Every getattr that succeeds leaves at least one more block allocated
    than before: the stat_wdf of each probe of the search is never freed. *)
Theorem getattr_leaks e p s st s' :
  offsets_fit e -> catalog_getattr e p s = Ret ((0, st), s') ->
  live_blocks s < live_blocks s'.
Proof.
  intros ((data & Hd) & H1 & H2 & H3) Hr.
  pose proof (ensures_eq _ _ _ _ _ (catalog_getattr_keeps e data Hd H1 H2 H3 p s) Hr) as [_ H].
  by apply H.
Qed.

Lemma getattr_leaks_witness :
  live_blocks sample_sys <
  live_blocks (snd (unwrap (catalog_getattr sample_env (B "/a/x") sample_sys)
                           ((0, zero_stat), sample_sys))).
Proof.
  eapply (getattr_leaks sample_env (B "/a/x") sample_sys sample_private).
  - split; [by eexists |]. vm_compute. intuition discriminate.
  - vm_compute. reflexivity.
Defined.

(** * Limits *)

(** A record whose offset is between 2 GiB and 4 GiB cannot be read: the
    int offset is negative, the function reports an error, and the descriptor
    that it opened stays open. *)
Theorem entry_beyond_2GiB e i data s :
  source e = Readable data -> 0 <= entry_size e ->
  strlen (open_error ++ catalogFile e) < 256 ->
  2 ^ 31 <= entry_size e * i < 2 ^ 32 ->
  getEntry_from_catalog e i s = Ret (None, fd_opened (tick s)).
Proof.
  intros Hsrc Hsize Hname Hoff. unfold getEntry_from_catalog.
  rewrite (bind_runs_eq _ _ _ s s) by done.
  rewrite (bind_runs_eq _ _ _ tt (tick s)) by done.
  rewrite (bind_runs_eq _ _ _ tt (tick s))
    by (unfold assert_defined; by replace (0 <=? entry_size e) with true by lia).
  rewrite (bind_runs_eq _ _ _ _ _ (strcpy_fits _ _ (tick s) Hname)), Hsrc.
  rewrite (bind_runs_eq _ _ _ tt (fd_opened (tick s))) by done.
  rewrite (bind_runs_eq _ _ _ tt (fd_opened (tick s))).
  2:{ unfold assert_defined. replace (in_i64 (entry_size e * i)) with true; [done |].
      symmetry. apply in_range_spec. lia. }
  replace (to_i32 (entry_size e * i)) with (entry_size e * i - 2 ^ 32).
  { by replace (entry_size e * i - 2 ^ 32 <? 0) with true by lia. }
  unfold to_i32, to_signed.
  rewrite <- (Z.mod_add _ (-1) (2 ^ 32)) by lia. rewrite Z.mod_small by lia. lia.
Qed.

Lemma entry_beyond_2GiB_witness :
  getEntry_from_catalog sample_env 40000000 sample_sys =
  Ret (None, fd_opened (tick sample_sys)).
Proof.
  eapply (entry_beyond_2GiB sample_env 40000000);
    [reflexivity | discriminate | reflexivity | split; [discriminate | reflexivity]].
Defined.

(** catalog_readdir of a directory other than the root writes past the end
    of its path when the path is held in an array of its exact size, as the
    strdup of the FUSE library allocates it. *)
Theorem readdir_overruns_exact_path {F} (filler : fill_dir F) e path buf s :
  path <> B "/" -> catalog_readdir filler e (strlen path + 1) path buf s = UB.
Proof. intros Hp. by apply catalog_readdir_overruns. Qed.

Lemma readdir_overruns_exact_path_witness :
  catalog_readdir name_filler sample_env 3 (B "/a") [] sample_sys = UB.
Proof. apply (readdir_overruns_exact_path name_filler sample_env (B "/a")). discriminate. Defined.

(** When the name of the catalog file is too long for errormsg, the first
    getattr of any absolute path overruns that array, although no error occurs.
    *)
Theorem long_catalog_name_overruns_errormsg e p st s :
  256 <= strlen (open_error ++ catalogFile e) ->
  0 < catalog_len e -> head p = Some SLASH ->
  getattr_by_path e p st s = UB.
Proof.
  intros Hname Hlen Hp. unfold getattr_by_path, binSearch.
  pose proof (findDepth_absolute p Hp). replace (findDepth p <=? 0) with false by lia.
  apply bind_ub_eq, bind_ub_eq. unfold span_fuel.
  cbn [find_index records catalogfs_reader].
  replace (0 <=? catalog_len e - 1) with true by lia.
  apply bind_ub_eq. by apply getEntry_depth_filepath_long.
Qed.

(** main of catalogfs mounts a catalog exactly when the three environment
    variables are set, the entry size is a number of at least 13 and the catalog
    length a positive number, and then with these values. *)
Theorem main_accepts getenv c size len :
  main getenv = Ret (c, size, len) <->
  getenv (B "CATALOGFS_CATALOG") = Some c /\
  (exists v, getenv (B "CATALOGFS_ENTRY_SIZE") = Some v /\ atoi v = Some size) /\
  (exists v, getenv (B "CATALOGFS_CATALOG_LEN") = Some v /\ atol v = Some len) /\
  13 <= size /\ 0 < len.
Proof.
  split.
  - unfold main. destruct (getenv (B "CATALOGFS_CATALOG")) as [c'|];
      destruct (getenv (B "CATALOGFS_ENTRY_SIZE")) as [v1|];
      destruct (getenv (B "CATALOGFS_CATALOG_LEN")) as [v2|]; cbn [from_option];
      repeat case_match; rewrite ?bool_decide_eq_true_2 in * by done; try done.
    intros [= <- <- <-]. split_and!; [done | by eexists | by eexists | lia | lia].
  - intros (Hc & (v1 & Hs & Hsize) & (v2 & Hl & Hlen) & H13 & Hpos). unfold main.
    rewrite Hc, Hs, Hl. cbn [from_option]. rewrite Hsize, Hlen.
    rewrite !bool_decide_eq_false_2 by done. cbn [orb].
    by replace (size <? 13) with false by lia; replace (len <=? 0) with false by lia.
Qed.

Lemma long_catalog_name_overruns_errormsg_witness :
  getattr_by_path long_name_env (B "/") zero_stat sample_sys = UB.
Proof.
  apply long_catalog_name_overruns_errormsg; [discriminate | reflexivity | reflexivity].
Defined.
