(* ===== verification/BinSearchInFile.v ===== *)
(** binsearchinfile.c, the prototype of the search over a fixed file of 14 records
    of 84 bytes: its reader, its copy of the search with [int] indices, and [main],
    which looks up the contents of each of its 14 paths. The search is the one of
    [Lookup] at this reader. *)

From S2P Require Import Prelude.
From S2P Require Import CString.
From S2P Require Import CStdio.
From S2P Require Import Entry.
From S2P Require Import Lookup.
From S2P Require Import CatalogFS.
From S2P Require Import Resources.

Definition ENTRY_SIZE : Z := 84.
Definition CATALOG_LEN : Z := 14.

(** * The reader *)

Record stat_wdf := StatWdf { depth : Z; file_path : bytes; st_data : stat }.

(** The surroundings of the program: the file catalog.list, the allocator and the
    indeterminate contents of the stack. *)
Record file_env := FileEnv {
  source : catalog_source;
  malloc_ok : nat -> bool;
  junk : nat -> frame;
  junk_mid : Z;
  dead_stack : nat -> bytes -> bytes }.

(** [%c %lo %ld %ld %ld %lld %lld %lld %lld %d \13%[^\13]s\13\n]; [\13] is the
    vertical tab, which is white space. *)
Definition vt_format : list directive :=
  [DChar; DSpace; DInt Clo; DSpace; DInt Cld; DSpace; DInt Cld; DSpace; DInt Cld;
   DSpace; DInt Cld; DSpace; DInt Cld; DSpace; DInt Cld; DSpace; DInt Cld; DSpace;
   DInt Cd; DSpace; DSpace; DNotSet VT MAXPATHLEN; DLit "s"; DSpace; DSpace].

Definition decode_entry (u : frame) (entry : bytes) : option stat_wdf :=
  match sscanf vt_format entry with
  | None => None
  | Some vs =>
      match assign vs (frame_vars u) with
      | [VChar c; VInt mode; VInt nlink; VInt uid; VInt gid; VInt size; VInt atime;
         VInt mtime; VInt ctime; VInt depth; VStr file_path] =>
          Some (StatWdf depth file_path
            (Stat (to_u32 (mode_of_type c mode)) (to_u64 nlink) (to_u32 uid)
                  (to_u32 gid) size atime mtime ctime))
      | _ => None
      end
  end.

Definition getEntry_from_catalog (e : file_env) (location : Z) : M sys (option stat_wdf) :=
  s ← get;
  let u := junk e (ticks s) in
  _ ← modify tick;
  match source e with
  | Unopenable => exit (-1)
  | src =>
      _ ← modify fd_opened;
      _ ← assert_defined (in_i64 (ENTRY_SIZE * location));
      let offset := to_i32 (ENTRY_SIZE * location) in
      if offset <? 0 then mret None                  (* lseek fails; fd stays open *)
      else
        match src with
        | Readable data =>
            let got := take (Z.to_nat ENTRY_SIZE) (drop (Z.to_nat offset) data) in
            _ ← modify fd_closed;
            match decode_entry u (cstr (fill_entry u (Z.to_nat ENTRY_SIZE) got)) with
            | Some w => mret (Some w)
            | None => ub
            end
        | _ => mret None                             (* read fails; fd stays open *)
        end
  end.

Definition malloc (e : file_env) : M sys bool :=
  s ← get;
  if malloc_ok e (ticks s) then _ ← modify add_block; mret true
  else _ ← modify tick; mret false.

Definition getEntry_depth_filepath (e : file_env) (location : Z)
  : M sys (option (Z * bytes)) :=
  ok ← malloc e;
  _ ← assert_defined ok;                             (* memset of the block *)
  r ← getEntry_from_catalog e location;
  match r with
  | None => mret None
  | Some w =>
      s ← get;                                       (* the callee's array *)
      p ← strcpy MAXPATHLEN (dead_stack e (ticks s) (file_path w));
      mret (Some (depth w, p))
  end.

Lemma no_hang_prototype_entry e i : no_hang (getEntry_depth_filepath e i).
Proof.
  unfold getEntry_depth_filepath, malloc, getEntry_from_catalog.
  pose proof (@no_hang_strcpy sys). never_hangs.
Qed.

#[global] Instance file_reader : Reader file_env := {
  probe := getEntry_depth_filepath; records := fun _ => CATALOG_LEN; mid_init := junk_mid;
  no_hang_probe := no_hang_prototype_entry }.

Definition getEntry_file_path : file_env -> Z -> M sys (option bytes) := getEntry_filepath.

(** * The search *)

Definition calculateMid : Z -> Z -> Z := Lookup.calculateMid.
Definition findDepth : bytes -> Z := Lookup.findDepth.

Definition find_index
  : nat -> file_env -> Z -> Z -> Z -> Z -> Z -> M sys (option (Z * Z * Z * Z)) :=
  Lookup.find_index.

(** As in catalogfs, with an index [i] of type [int]. *)
Fixpoint lowest_loop (fuel : nat) (e : file_env) (searchPath_depth low i depth : Z)
  : M sys (option Z) :=
  match fuel with
  | O => hang
  | S fuel' =>
      if depth =? searchPath_depth then
        _ ← assert_defined (in_i32 (i - 1));
        let i' := i - 1 in
        if i' <? low then mret (Some i')
        else
          r ← getEntry_depth_filepath e i';
          match r with
          | None => mret None
          | Some (depth', _) => lowest_loop fuel' e searchPath_depth low i' depth'
          end
      else mret (Some i)
  end.

Definition find_lowest_index (e : file_env) (searchPath_depth low mid depth : Z)
  : M sys (option Z) :=
  r ← lowest_loop (S (S (Z.to_nat (mid - low)))) e searchPath_depth low (to_i32 mid) depth;
  match r with
  | None => mret None
  | Some i => _ ← assert_defined (in_i32 (i + 1)); mret (Some (i + 1))
  end.

Fixpoint highest_loop (fuel : nat) (e : file_env) (searchPath_depth high i depth : Z)
  : M sys (option Z) :=
  match fuel with
  | O => hang
  | S fuel' =>
      if depth =? searchPath_depth then
        _ ← assert_defined (in_i32 (i + 1));
        let i' := i + 1 in
        if high <? i' then mret (Some i')
        else
          r ← getEntry_depth_filepath e i';
          match r with
          | None => mret None
          | Some (depth', _) => highest_loop fuel' e searchPath_depth high i' depth'
          end
      else mret (Some i)
  end.

Definition find_highest_index (e : file_env) (searchPath_depth high mid depth : Z)
  : M sys (option Z) :=
  r ← highest_loop (S (S (Z.to_nat (high - mid)))) e searchPath_depth high (to_i32 mid) depth;
  match r with
  | None => mret None
  | Some i => _ ← assert_defined (in_i32 (i - 1)); mret (Some (i - 1))
  end.

(** [result] is an [int]. *)
Definition binSearch (e : file_env) (searchPath : bytes) : M sys Z :=
  let low := 0 in
  let high := CATALOG_LEN - 1 in
  let searchPath_depth := findDepth searchPath in
  if searchPath_depth <=? 0 then mret (-1)
  else
    r ← find_index (span_fuel low high) e searchPath_depth low high (junk_mid e) 1;
    match r with
    | None => mret (-1)
    | Some (low, high, mid, depth) =>
        if high <? low then mret (-1)
        else
          lo ← find_lowest_index e searchPath_depth low mid depth;
          match lo with
          | None => mret (-1)
          | Some low =>
              hi ← find_highest_index e searchPath_depth high mid searchPath_depth;
              match hi with
              | None => mret (-1)
              | Some high =>
                  result ← path_loop (span_fuel low high) e searchPath low high;
                  mret (to_i32 result)
              end
          end
    end.

Fixpoint contents_loop (fuel : nat) (e : file_env) (file_path : bytes) (depth i : Z)
  : M sys (option Z) :=
  match fuel with
  | O => hang
  | S fuel' =>
      _ ← assert_defined (in_i32 (i + 1));
      let i' := i + 1 in
      if 14 <=? i' then mret (Some i')
      else
        r ← getEntry_depth_filepath e i';
        match r with
        | None => mret None
        | Some (entry_depth, entry_file_path) =>
            if negb (entry_depth =? depth)
               || negb (strncmp file_path entry_file_path (strlen file_path) =? 0)
            then mret (Some i')
            else contents_loop fuel' e file_path depth i'
        end
  end.

(** The return value, and [*low] and [*high] as far as they are set. *)
Definition get_directory_contents (e : file_env) (file_path : bytes)
  : M sys (Z * option Z * option Z) :=
  if (strlen file_path <=? 0) || negb (bool_decide (last file_path = Some SLASH))
  then mret (-1, Some (-1), Some (-1))
  else
    low ← binSearch e file_path;
    if low <? 0 then mret (-1, Some low, None)
    else
      let depth := findDepth file_path in
      if depth <=? 0 then mret (-1, Some low, None)
      else
        r ← contents_loop (S (Z.to_nat (CATALOG_LEN - low))) e file_path depth (to_i32 low);
        match r with
        | None => mret (-1, Some low, None)
        | Some i => mret (0, Some low, Some (i - 1))
        end.

(** * [main] *)

(** A line of [catalog], of 84 bytes. *)
Definition catalog_line (fields path : string) : bytes :=
  let text := B fields ++ [VT] ++ B path in
  text ++ replicate (83 - length text) VT ++ [LF].

Definition catalog : list bytes :=
  [catalog_line "d 0755 2 1001 1001 1000 1213101162 1213101161 1213113161 1 " "/";
   catalog_line "f 0701 1 0 1 2000 1213102162 1213102161 1213112161 1 " "/.hidden file 1";
   catalog_line "c 0760 1 111 121 22222 1213112162 1213112161 1213101161 1 "
     "/character special file";
   catalog_line "d 0702 2 108 7 3000 1213103162 1213103161 1213111161 1 " "/dir1";
   catalog_line "d 0705 2 122 127 6000 1213106162 1213106161 1213108161 1 " "/dir2";
   catalog_line "d 0702 2 108 7 3000 1213103162 1213103161 1213111161 2 " "/dir1/";
   catalog_line "f 0726 1 115 125 7000 1213107162 1213107161 1213107161 2 "
     "/dir1/.hidden file 2";
   catalog_line "p 0750 1 110 120 11111 1213111162 1213111161 1213102161 2 " "/dir1/fifo file";
   catalog_line "f 0703 1 1002 1002 4000 1213104162 1213104161 1213110161 2 " "/dir1/file 1";
   catalog_line "f 0704 1 41 41 5000 1213105162 1213105161 1213109111 2 " "/dir1/file 2";
   catalog_line "l 0710 1 119 29 9000 1213109162 1213109161 1213105161 2 " "/dir1/link file";
   catalog_line "d 0705 2 122 127 6000 1213106162 1213106161 1213108161 2 " "/dir2/";
   catalog_line "f 0747 1 117 126 8000 1213108162 1213108161 1213106161 2 " "/dir2/hello 2";
   catalog_line "s 0740 1 113 124 10000 1213110162 1213110161 1213103161 2 "
     "/dir2/semaphore file"].

(** [%*s] nine times, [%*d\13%[^\13]s\13]. *)
Definition path_format : list directive :=
  replicate 9 DSkipWord ++ [DSkipInt Cd; DSpace; DNotSet VT MAXPATHLEN; DLit "s"; DSpace].

(** What is printed for an entry: the path, [low] and [high]; [None] is a variable
    that was never set. *)
Definition line_printed : Type := bytes * option Z * option Z.

Fixpoint main_loop (e : file_env) (entries : list bytes) (file_path : bytes)
  (low high : option Z) : M sys (list line_printed) :=
  match entries with
  | [] => mret []
  | entry :: entries' =>
      match sscanf path_format entry with
      | None => ub
      | Some vs =>
          let file_path := match vs with VStr p :: _ => p | _ => file_path end in
          r ← get_directory_contents e file_path;
          let '(_, low', high') := r in
          let low := match low' with Some _ => low' | None => low end in
          let high := match high' with Some _ => high' | None => high end in
          out ← main_loop e entries' file_path low high;
          mret ((file_path, low, high) :: out)
      end
  end.

(** [file_path] is indeterminate before the first [sscanf]. *)
Definition main (e : file_env) (junk_path : bytes) : M sys (list line_printed) :=
  main_loop e catalog junk_path None None.

(** * Facts *)

Lemma in_i32_true v : - 2 ^ 31 <= v < 2 ^ 31 -> in_i32 v = true.
Proof. intros. apply in_range_spec. lia. Qed.

(** ** The intervals stay within the file *)

Section Ranges.
Context {T : Type} `{HR : Reader T} (e : T).

Lemma ensures_probe {A} i (f : option (Z * bytes) -> M sys A) s (Q : A -> sys -> Prop) :
  (forall r s', ensures (f r) s' Q) -> ensures (probe e i ≫= f) s Q.
Proof.
  intros Hf. apply ensures_bind. unfold ensures at 1. destruct (probe e i s) as [[r s']| | |]; [apply Hf | done ..].
Qed.

Lemma find_index_range fuel d low high mid dep s :
  ensures (Lookup.find_index fuel e d low high mid dep) s (fun r _ =>
    match r with
    | Some (low', high', mid', _) =>
        low <= low' /\ high' <= high /\ (high' < low' \/ low' <= mid' <= high')
    | None => True
    end).
Proof.
  revert low high mid dep s. induction fuel as [|fuel IH]; intros low high mid dep s; [done |].
  cbn [Lookup.find_index]. destruct (low <=? high) eqn:E; [| apply ensures_ret; lia].
  pose proof (calculateMid_bounds low high ltac:(lia)).
  apply ensures_probe. intros [[d' p]|] s'; [| by apply ensures_ret].
  destruct (d' =? d); [apply ensures_ret; lia |].
  destruct (d' <? d); (eapply ensures_mono; [apply IH |]);
    intros [[[[low' high'] mid'] ?]|] s2; cbv beta; lia || done.
Qed.

Lemma lowest_loop_range fuel d low i dep s :
  low <= i -> ensures (Lookup.lowest_loop fuel e d low i dep) s (fun r _ =>
    match r with Some j => low - 1 <= j <= i | None => True end).
Proof.
  revert i dep s. induction fuel as [|fuel IH]; intros i dep s Hi; [done |].
  cbn [Lookup.lowest_loop]. destruct (dep =? d); [| apply ensures_ret; lia].
  destruct (i - 1 <? low) eqn:E; [apply ensures_ret; lia |].
  apply ensures_probe. intros [[d' p]|] s'; [| by apply ensures_ret].
  eapply ensures_mono; [apply IH; lia |]. intros [j|] s2; cbv beta; lia || done.
Qed.

Lemma highest_loop_range fuel d high i dep s :
  i <= high -> ensures (Lookup.highest_loop fuel e d high i dep) s (fun r _ =>
    match r with Some j => i <= j <= high + 1 | None => True end).
Proof.
  revert i dep s. induction fuel as [|fuel IH]; intros i dep s Hi; [done |].
  cbn [Lookup.highest_loop]. destruct (dep =? d); [| apply ensures_ret; lia].
  destruct (high <? i + 1) eqn:E; [apply ensures_ret; lia |].
  apply ensures_probe. intros [[d' p]|] s'; [| by apply ensures_ret].
  eapply ensures_mono; [apply IH; lia |]. intros [j|] s2; cbv beta; lia || done.
Qed.

Lemma path_loop_range fuel p low high s :
  ensures (path_loop fuel e p low high) s (fun r _ => r = -1 \/ low <= r <= high).
Proof.
  revert low high s. induction fuel as [|fuel IH]; intros low high s; [done |].
  cbn [path_loop]. destruct (low <=? high) eqn:E; [| apply ensures_ret; auto].
  pose proof (calculateMid_bounds low high ltac:(lia)).
  apply ensures_bind. unfold getEntry_filepath. apply ensures_probe. intros r s'.
  apply ensures_ret. destruct (snd <$> r); [| apply ensures_ret; auto].
  destruct (_ =? 0); [apply ensures_ret; lia |].
  destruct (_ <? 0); (eapply ensures_mono; [apply IH |]); intros j s2; cbv beta; lia.
Qed.
End Ranges.

(** ** The copy is the search of catalogfs *)

Section Copy.
Context (e : file_env).

Lemma lowest_loop_copy fuel d low i dep s :
  0 <= low <= i -> i < 2 ^ 31 ->
  lowest_loop fuel e d low i dep s = Lookup.lowest_loop fuel e d low i dep s.
Proof.
  revert i dep s. induction fuel as [|fuel IH]; intros i dep s Hi Hr; [done |].
  cbn [lowest_loop Lookup.lowest_loop]. destruct (dep =? d); [| done].
  rewrite in_i32_true by lia. rewrite (bind_runs_eq _ _ s tt s) by done. cbv zeta.
  destruct (i - 1 <? low) eqn:E; [done |]. apply bind_ext. intros [[d' p]|] s'; [| done].
  apply IH; lia.
Qed.

Lemma highest_loop_copy fuel d high i dep s :
  0 <= i <= high -> high < 2 ^ 31 - 1 ->
  highest_loop fuel e d high i dep s = Lookup.highest_loop fuel e d high i dep s.
Proof.
  revert i dep s. induction fuel as [|fuel IH]; intros i dep s Hi Hr; [done |].
  cbn [highest_loop Lookup.highest_loop]. destruct (dep =? d); [| done].
  rewrite in_i32_true by lia. rewrite (bind_runs_eq _ _ s tt s) by done. cbv zeta.
  destruct (high <? i + 1) eqn:E; [done |]. apply bind_ext. intros [[d' p]|] s'; [| done].
  apply IH; lia.
Qed.

Lemma contents_loop_copy fuel p d i s :
  0 <= i < 14 -> contents_loop fuel e p d i s = Lookup.contents_loop fuel e p d i s.
Proof.
  revert i s. induction fuel as [|fuel IH]; intros i s Hi; [done |].
  cbn [contents_loop Lookup.contents_loop records file_reader].
  rewrite in_i32_true by lia. rewrite (bind_runs_eq _ _ s tt s) by done. cbv zeta.
  unfold CATALOG_LEN. destruct (14 <=? i + 1) eqn:E; [done |].
  apply bind_ext. intros [[d' p']|] s'; [| done].
  destruct (_ || _); [done |]. apply IH. lia.
Qed.

Lemma find_lowest_index_copy d low mid dep s :
  0 <= low <= mid -> mid < 2 ^ 31 - 1 ->
  find_lowest_index e d low mid dep s = Lookup.find_lowest_index e d low mid dep s.
Proof.
  intros Hl Hm. unfold find_lowest_index, Lookup.find_lowest_index.
  rewrite to_i32_id by lia.
  apply (bind_ext_ensures _ _ _ _ _ _ (lowest_loop_copy _ d low mid dep s Hl ltac:(lia))
           (lowest_loop_range e _ d low mid dep s ltac:(lia))).
  intros [j|] s' Hj; [| done]. rewrite in_i32_true by lia. done.
Qed.

Lemma find_highest_index_copy d high mid dep s :
  0 <= mid <= high -> high < 2 ^ 31 - 1 ->
  find_highest_index e d high mid dep s = Lookup.find_highest_index e d high mid dep s.
Proof.
  intros Hl Hm. unfold find_highest_index, Lookup.find_highest_index.
  rewrite to_i32_id by lia.
  apply (bind_ext_ensures _ _ _ _ _ _ (highest_loop_copy _ d high mid dep s Hl Hm)
           (highest_loop_range e _ d high mid dep s ltac:(lia))).
  intros [j|] s' Hj; [| done]. rewrite in_i32_true by lia. done.
Qed.

Lemma binSearch_copy p s : binSearch e p s = Lookup.binSearch e p s.
Proof.
  unfold binSearch, Lookup.binSearch, findDepth, find_index. cbv zeta.
  cbn [records mid_init file_reader].
  destruct (Lookup.findDepth p <=? 0); [done |].
  apply (bind_ext_ensures _ _ _ _ _ _ eq_refl (find_index_range e _ _ _ _ _ _ s)).
  intros [[[[low high] mid] dep]|] s1 Hr; [| done].
  destruct (high <? low) eqn:E; [done |]. unfold CATALOG_LEN in Hr.
  destruct Hr as (Hl & Hh & [? | Hm]); [lia |].
  rewrite (bind_eq _ _ _ _ (find_lowest_index_copy _ low mid dep s1 ltac:(lia) ltac:(lia))).
  apply bind_ext. intros [lo|] s2; [| done].
  by rewrite (bind_eq _ _ _ _ (find_highest_index_copy _ high mid _ s2 ltac:(lia) ltac:(lia))).
Qed.
End Copy.

(** What a result of catalogfs becomes: each error is -1. *)
Definition plain_error (r : Z * option Z * option Z) : Z * option Z * option Z :=
  let '(ret, low, high) := r in ((if ret <? 0 then -1 else ret), low, high).

Section Contents.
Context (e : file_env).

Lemma binSearch_range p s :
  ensures (Lookup.binSearch e p) s (fun r _ => -1 <= r < 14).
Proof.
  unfold Lookup.binSearch. cbn [records mid_init file_reader].
  destruct (Lookup.findDepth p <=? 0); [apply ensures_ret; lia |].
  apply ensures_bind. eapply ensures_mono; [apply find_index_range |].
  intros [[[[low high] mid] dep]|] s1 Hr; [| apply ensures_ret; lia].
  destruct (high <? low) eqn:E; [apply ensures_ret; lia |]. unfold CATALOG_LEN in Hr.
  destruct Hr as (Hl & Hh & [? | Hm]); [lia |].
  apply ensures_bind. unfold Lookup.find_lowest_index. apply ensures_bind.
  eapply ensures_mono; [apply lowest_loop_range; lia |].
  intros [lo|] s2 Hlo; apply ensures_ret; [| apply ensures_ret; lia].
  cbn [fmap option_fmap option_map].
  apply ensures_bind. unfold Lookup.find_highest_index. apply ensures_bind.
  eapply ensures_mono; [apply highest_loop_range; lia |].
  intros [hi|] s3 Hhi; apply ensures_ret; [| apply ensures_ret; lia].
  cbn [fmap option_fmap option_map]. cbv beta in *. apply ensures_bind.
  eapply ensures_mono; [apply path_loop_range |]. intros r s4 Hr4. apply ensures_ret.
  cbv beta in Hr4. rewrite to_i32_id by lia. lia.
Qed.

Lemma get_directory_contents_copy p s :
  get_directory_contents e p s =
  (r ← Lookup.get_directory_contents e p; mret (plain_error r)) s.
Proof.
  unfold get_directory_contents, Lookup.get_directory_contents, findDepth.
  destruct (_ || _); [done |]. rewrite bind_assoc.
  apply (bind_ext_ensures _ _ _ _ _ _ (binSearch_copy e p s) (binSearch_range p s)).
  intros low s1 Hlow. cbv beta in Hlow. destruct (low <? 0) eqn:El; [done |].
  destruct (Lookup.findDepth p <=? 0); [done |]. rewrite bind_assoc.
  rewrite to_i32_id by lia. cbn [records file_reader].
  rewrite (bind_eq _ _ _ _ (contents_loop_copy e _ p _ low s1 ltac:(lia))).
  apply bind_ext. by intros [i|] s2.
Qed.
End Contents.

(** ** The shipped catalog *)

(** The program run on the catalog of its own array, whatever the stack holds. *)
Definition shipped (junk : nat -> frame) (mid : Z) : file_env :=
  FileEnv (Readable (concat catalog)) (fun _ => true) junk mid (fun _ s => s).

(** The key of an entry of the array. *)
Definition catalog_key (i : nat) (path : string) : Entry.stat_wdf :=
  Entry.StatWdf (if (i <? 5)%nat then 1 else 2) (B path) zero_stat [].

Definition catalog_paths : list string :=
  ["/"; "/.hidden file 1"; "/character special file"; "/dir1"; "/dir2"; "/dir1/";
   "/dir1/.hidden file 2"; "/dir1/fifo file"; "/dir1/file 1"; "/dir1/file 2";
   "/dir1/link file"; "/dir2/"; "/dir2/hello 2"; "/dir2/semaphore file"]%string.

Definition catalog_keys : list Entry.stat_wdf := imap catalog_key catalog_paths.

Lemma shipped_probe junk mid (n : nat) d p s :
  (n < 14)%nat -> strlen p < MAXPATHLEN ->
  (forall u, (fun w => (depth w, file_path w)) <$>
     decode_entry u (cstr (fill_entry u 84 (take 84 (drop (84 * n) (concat catalog))))) =
     Some (d, p)) ->
  probe (shipped junk mid) (Z.of_nat n) s = Ret (Some (d, p), tick (add_block s)).
Proof.
  intros Hn Hp Hdec. cbn [probe file_reader]. unfold getEntry_depth_filepath.
  rewrite (bind_runs_eq _ _ _ true (add_block s)) by done.
  rewrite (bind_runs_eq _ _ _ tt (add_block s)) by done.
  specialize (Hdec (junk (S (ticks s)))).
  destruct (decode_entry _ _) as [w|] eqn:E; [| done]. injection Hdec as <- <-.
  rewrite (bind_runs_eq _ _ _ (Some w) (tick (add_block s))).
  2:{ unfold getEntry_from_catalog, ENTRY_SIZE.
      rewrite (bind_runs_eq _ _ _ (add_block s) (add_block s)) by done.
      rewrite (bind_runs_eq _ _ _ tt (tick (add_block s))) by done.
      cbn [source shipped BinSearchInFile.junk].
      rewrite (bind_runs_eq _ _ _ tt (fd_opened (tick (add_block s)))) by done.
      rewrite (bind_runs_eq _ _ _ tt (fd_opened (tick (add_block s)))).
      2:{ unfold assert_defined, in_i64. replace (in_range _ _ _) with true; [done |].
          symmetry. apply in_range_spec. lia. }
      rewrite to_i32_id by lia. replace (84 * Z.of_nat n <? 0) with false by lia.
      rewrite (bind_runs_eq _ _ _ tt (fd_closed (fd_opened (tick (add_block s))))) by done.
      replace (Z.to_nat (84 * Z.of_nat n)) with (84 * n)%nat by lia.
      change (Z.to_nat 84) with 84%nat. cbn [ticks add_block].
      rewrite E. unfold mret, M_ret, tick, fd_closed, fd_opened. simpl.
      do 3 f_equal. lia. }
  rewrite (bind_runs_eq _ _ _ _ _ (eq_refl : get (tick (add_block s)) = Ret (_, _))).
  cbn [dead_stack shipped]. by rewrite (bind_runs_eq _ _ _ _ _ (strcpy_fits _ _ _ Hp)).
Qed.

#[global] Instance shipped_searchable junk mid : Searchable (shipped junk mid) catalog_keys.
Proof.
  split; [done |]. intros i w s Hi. pose proof (zlookup_Some _ _ _ Hi) as Hr.
  change (Z.of_nat (length catalog_keys)) with 14 in Hr.
  rewrite zlookup_lookup in Hi by lia.
  assert (exists n, i = Z.of_nat n /\ (n < 14)%nat) as (n & -> & Hn)
    by (exists (Z.to_nat i); lia).
  rewrite Nat2Z.id in Hi.
  do 14 (destruct n as [|n]; [injection Hi as <-; apply shipped_probe; [lia | reflexivity | intros u; vm_compute; reflexivity] |]).
  lia.
Qed.

Lemma shipped_sorted : catalog_sorted catalog_keys.
Proof. split; apply (bool_decide_unpack _); vm_compute; exact I. Qed.

(** * Properties *)

(** The prototype search, with its int indices, its own record format and
    its fixed bounds, behaves on any file as the search of catalogfs over the
    same reader: binSearch in the same way, get_directory_contents with each
    error as -1. *)
Theorem prototype_is_catalogfs_search e p s :
  binSearch e p s = Lookup.binSearch e p s /\
  get_directory_contents e p s =
    (r ← Lookup.get_directory_contents e p; mret (plain_error r)) s.
Proof. split; [apply binSearch_copy | apply get_directory_contents_copy]. Qed.

(** On the catalog of its own array, whatever the stack holds, the
    prototype search returns the index of each of the 14 paths and -1 for any
    other string. *)
Theorem prototype_finds_shipped_paths junk mid p s :
  runs (binSearch (shipped junk mid) p) s (fun r _ =>
    (exists name, zlookup catalog_paths r = Some name /\ p = B name) \/
    (r = -1 /\ p ∉ map B catalog_paths)).
Proof.
  apply (runs_eq_run _ _ _ _ (binSearch_copy (shipped junk mid) p s)).
  eapply runs_mono; [by apply (binSearch_spec shipped_sorted) |].
  intros r s' [_ [(w & Hw & <-) | [-> Hn]]]; [left | right; split; [done |]].
  - pose proof (zlookup_Some _ _ _ Hw). rewrite zlookup_lookup in Hw by lia.
    unfold catalog_keys in Hw. rewrite list_lookup_imap in Hw.
    destruct (catalog_paths !! Z.to_nat r) as [name|] eqn:En; [| done].
    injection Hw as <-. exists name. split; [| done]. by rewrite zlookup_lookup by lia.
  - intros Hin. apply list_elem_of_In, in_map_iff in Hin as (name & <- & Hin).
    apply list_elem_of_In, list_elem_of_lookup in Hin as [i Hi].
    apply (Hn (Z.of_nat i) (catalog_key i name)); [| done].
    rewrite zlookup_lookup, Nat2Z.id by lia. unfold catalog_keys.
    by rewrite list_lookup_imap, Hi.
Qed.

(** main of the prototype, run on the catalog of its own array, prints the
    interval of each of the three directories that end in a slash, and -1 for
    the other eleven paths. *)
Theorem prototype_main_output junk mid junk_path s :
  runs (main (shipped junk mid) junk_path) s (fun out _ =>
    out = map (fun '(name, low, high) => (B name, Some low, Some high))
      [("/", 0, 4); ("/.hidden file 1", -1, -1); ("/character special file", -1, -1);
       ("/dir1", -1, -1); ("/dir2", -1, -1); ("/dir1/", 5, 10);
       ("/dir1/.hidden file 2", -1, -1); ("/dir1/fifo file", -1, -1);
       ("/dir1/file 1", -1, -1); ("/dir1/file 2", -1, -1); ("/dir1/link file", -1, -1);
       ("/dir2/", 11, 13); ("/dir2/hello 2", -1, -1); ("/dir2/semaphore file", -1, -1)]%string).
Proof. destruct s. vm_compute. reflexivity. Qed.
