(* ===== verification/Chain.v ===== *)
(** Singly linked lists in a heap: the nodes reached from a pointer, as a list of
    addresses and a list of the data they hold. *)

From S2P Require Import Prelude.

Abbreviation ptr := (option nat).       (* None is NULL *)

Section Chain.
(** A node type with its data, its link, and the update of the link. *)
Context {N D : Type} (data : N -> D) (link : N -> ptr) (relink : N -> ptr -> N).
Context (data_relink : forall n p, data (relink n p) = data n).
Context (link_relink : forall n p, link (relink n p) = p).

(** The nodes at addresses [ns] are chained from [p] and hold [l]. *)
Fixpoint chain (h : gmap nat N) (p : ptr) (ns : list nat) (l : list D) : Prop :=
  match ns, l with
  | [], [] => p = None
  | a :: ns', d :: l' =>
      p = Some a /\ exists n, h !! a = Some n /\ data n = d /\ chain h (link n) ns' l'
  | _, _ => False
  end.

Lemma chain_nil h p l : chain h p [] l <-> p = None /\ l = [].
Proof. destruct l; simpl; naive_solver. Qed.

Lemma chain_length h p ns l : chain h p ns l -> length ns = length l.
Proof.
  revert p l. induction ns as [|a ns IH]; intros p [|d l]; try done.
  intros (_ & n & _ & _ & Hc). simpl. f_equal. eauto.
Qed.

Lemma chain_insert h p ns l a n :
  a ∉ ns -> chain h p ns l -> chain (<[a := n]> h) p ns l.
Proof.
  revert p l. induction ns as [|b ns IH]; intros p [|d l] Ha; simpl; try done.
  apply not_elem_of_cons in Ha as [Hab Ha]. intros (-> & m & Hb & Hd & Hc).
  split; [done |]. exists m. rewrite lookup_insert_ne by done. auto.
Qed.

Lemma chain_delete h p ns l a :
  a ∉ ns -> chain h p ns l -> chain (delete a h) p ns l.
Proof.
  revert p l. induction ns as [|b ns IH]; intros p [|d l] Ha; simpl; try done.
  apply not_elem_of_cons in Ha as [Hab Ha]. intros (-> & m & Hb & Hd & Hc).
  split; [done |]. exists m. rewrite lookup_delete_ne by done. auto.
Qed.

(** Linking a last node. *)
Lemma chain_snoc h p ns l t a new :
  NoDup (ns ++ [a]) -> last ns = Some t -> chain h p ns l ->
  h !! a = Some new -> link new = None ->
  exists n, h !! t = Some n /\ t ∈ ns /\
    chain (<[t := relink n (Some a)]> h) p (ns ++ [a]) (l ++ [data new]).
Proof.
  intros Hnd Hlast Hc Ha Hnew. revert p l Hnd Hlast Hc.
  induction ns as [|b ns IH]; intros p l Hnd Hlast Hc; [done |].
  destruct l as [|e l]; [done |]. destruct Hc as (-> & m & Hb & He & Hc).
  simpl in Hnd. apply NoDup_cons in Hnd as [Hb' Hnd].
  apply not_elem_of_app in Hb' as [Hbns Hba]. apply not_elem_of_cons in Hba as [Hba _].
  destruct ns as [|b' ns].
  - simpl in Hlast. injection Hlast as <-. apply chain_nil in Hc as [Hl ->].
    exists m. split; [done |]. split; [by apply list_elem_of_here |]. simpl.
    split; [done |]. exists (relink m (Some a)). rewrite lookup_insert_eq.
    rewrite data_relink, link_relink. split; [done |]. split; [done |].
    split; [done |]. exists new. by rewrite lookup_insert_ne.
  - destruct (IH (link m) l Hnd Hlast Hc) as (n & Hn & Ht & Hc').
    exists n. split; [done |]. split; [by apply list_elem_of_further |].
    split; [done |]. exists m. split; [| done].
    rewrite lookup_insert_ne; [done |]. intros ->. done.
Qed.
End Chain.
