(* ===== verification/Queue.v ===== *)
(** generate_catalog.c, the breadth-first queue: a singly linked list of
    [struct bf_queue] blocks in a heap, with the globals [head] and [tail], and
    the proof that it implements a first-in first-out list of names. *)

From S2P Require Import Prelude.
From S2P Require Import CString.
From S2P Require Import Chain.

(** [struct bf_queue]. *)
Record node := Node { dirname : bytes; next : ptr }.

(** The queue's part of the process: the heap blocks that hold nodes, the next
    fresh address, the two globals, the number of calls to [malloc] so far, and
    the number of blocks allocated and not freed. *)
Record mem := Mem {
  heap : gmap nat node; brk : nat; head : ptr; tail : ptr; mallocs : nat; blocks : Z }.

Definition set_globals (h t : ptr) (m : mem) : mem :=
  Mem (heap m) (brk m) h t (mallocs m) (blocks m).
Definition set_heap (h : gmap nat node) (m : mem) : mem :=
  Mem h (brk m) (head m) (tail m) (mallocs m) (blocks m).

(** Dereferencing a pointer to a node. *)
Definition load (p : ptr) : M mem node :=
  m ← get;
  match p with
  | None => ub
  | Some a => match heap m !! a with Some n => mret n | None => ub end
  end.

Section Queue.
(** Whether the [n]-th call to [malloc] succeeds. *)
Context (malloc_ok : nat -> bool).

(** A block that holds no node: a name, or a [struct stat]. *)
Definition malloc_plain : M mem bool :=
  m ← get;
  let ok := malloc_ok (mallocs m) in
  _ ← modify (fun m => Mem (heap m) (brk m) (head m) (tail m) (S (mallocs m))
                           (blocks m + (if ok then 1 else 0)));
  mret ok.

Definition free_plain : M mem unit :=
  modify (fun m => Mem (heap m) (brk m) (head m) (tail m) (mallocs m) (blocks m - 1)).

(** A block for a node, at a fresh address. *)
Definition malloc_node : M mem ptr :=
  m ← get;
  if malloc_ok (mallocs m) then
    _ ← modify (fun m => Mem (<[brk m := Node [] None]> (heap m)) (S (brk m))
                             (head m) (tail m) (S (mallocs m)) (blocks m + 1));
    mret (Some (brk m))
  else
    _ ← modify (fun m => Mem (heap m) (brk m) (head m) (tail m) (S (mallocs m)) (blocks m));
    mret None.

Definition store (a : nat) (n : node) : M mem unit :=
  modify (fun m => set_heap (<[a := n]> (heap m)) m).

Definition free_node (a : nat) : M mem unit :=
  modify (fun m => Mem (delete a (heap m)) (brk m) (head m) (tail m) (mallocs m)
                       (blocks m - 1)).

Definition init_queue : M mem unit := modify (set_globals None None).

(** 0, or -1 when there is no memory. *)
Definition insert_queue (dirname : bytes) : M mem Z :=
  temp ← malloc_node;
  match temp with
  | None => mret (-1)
  | Some a =>
      d ← strcpy MAXPATHLEN dirname;
      _ ← store a (Node d None);
      m ← get;
      match head m with
      | None => _ ← modify (set_globals (Some a) (Some a)); mret 0
      | Some _ =>
          n ← load (tail m);
          match tail m with
          | None => ub
          | Some t =>
              _ ← store t (Node (Queue.dirname n) (Some a));
              _ ← modify (fun m => set_globals (head m) (Some a) m);
              mret 0
          end
      end
  end.

(** The name removed, or NULL when the queue is empty; the block allocated for
    the name is lost in that case. *)
Definition remove_queue : M mem (option bytes) :=
  ok ← malloc_plain;
  m ← get;
  match head m with
  | None => mret None
  | Some a =>
      n ← load (Some a);
      _ ← modify (fun m => set_globals (next n) (tail m) m);
      _ ← assert_defined ok;                 (* strcpy into the new block *)
      d ← strcpy MAXPATHLEN (Queue.dirname n);
      _ ← free_node a;
      mret (Some d)
  end.

(** The names from [current] on, in the order in which [print_queue] prints
    them; [fuel] bounds the length of the chain. *)
Fixpoint print_queue (fuel : nat) (current : ptr) : M mem (list bytes) :=
  match fuel with
  | O => hang
  | S fuel' =>
      match current with
      | None => mret []
      | Some _ =>
          n ← load current;
          rest ← print_queue fuel' (next n);
          mret (Queue.dirname n :: rest)
      end
  end.

(** * The queue as a list *)

(** The nodes at addresses [ns] are chained from [p] and hold the names [l]. *)
Abbreviation node_chain := (chain Queue.dirname next).

(** [m] represents the queue of names [l]. *)
Definition queue_rep (m : mem) (l : list bytes) : Prop :=
  exists ns, node_chain (heap m) (head m) ns l /\ NoDup ns /\
    (l <> [] -> tail m = last ns) /\
    Forall (fun a => (a < brk m)%nat) ns /\
    Forall (fun d => strlen d < MAXPATHLEN) l.

Lemma init_queue_spec m (Q : unit -> mem -> Prop) :
  (forall m', queue_rep m' [] -> blocks m' = blocks m -> Q tt m') -> runs init_queue m Q.
Proof.
  intros HQ. apply runs_modify. apply HQ; [| done]. exists []. simpl.
  split_and!; [done | constructor | done | constructor | constructor].
Qed.

Lemma insert_queue_spec l d m (Q : Z -> mem -> Prop) :
  queue_rep m l -> strlen d < MAXPATHLEN ->
  (forall m', malloc_ok (mallocs m) = true -> mallocs m' = S (mallocs m) ->
     queue_rep m' (l ++ [d]) -> blocks m' = blocks m + 1 -> Q 0 m') ->
  (forall m', malloc_ok (mallocs m) = false -> mallocs m' = S (mallocs m) ->
     queue_rep m' l -> blocks m' = blocks m -> Q (-1) m') ->
  runs (insert_queue d) m Q.
Proof.
  intros (ns & Hc & Hnd & Ht & Hlt & Hl) Hd Hok Hfail. unfold insert_queue, malloc_node.
  apply runs_bind, runs_bind, runs_get.
  destruct (malloc_ok (mallocs m)) eqn:Em.
  2:{ run. apply Hfail; [done | done | | done]. by exists ns. }
  run. apply runs_strcpy; [done |]. run. unfold store. run. simpl.
  assert (brk m ∉ ns) as Hfresh.
  { intros Hin. rewrite Forall_forall in Hlt. specialize (Hlt _ Hin). lia. }
  assert (Forall (fun a => (a < S (brk m))%nat) (ns ++ [brk m])) as Hlt'.
  { apply Forall_app. split; [eapply Forall_impl; [done |]; simpl; lia |].
    constructor; [lia | constructor]. }
  assert (NoDup (ns ++ [brk m])) as Hnd'.
  { apply NoDup_app. split; [done |]. split; [| apply NoDup_singleton].
    intros x Hx ->%list_elem_of_singleton. done. }
  assert (Forall (fun d => strlen d < MAXPATHLEN) (l ++ [d])) as Hl'
    by (apply Forall_app; by repeat constructor).
  set (h := <[brk m:=Node d None]> (<[brk m:=Node [] None]> (heap m))).
  assert (node_chain h (head m) ns l) as Hc' by (by repeat apply chain_insert).
  destruct ns as [|a ns], l as [|d0 l]; try done.
  - simpl in Hc. rewrite Hc. run. apply Hok; [done | done | | done].
    exists [brk m]. split_and!; [| done | done | done | done].
    simpl. split; [done |]. exists (Node d None). split; [| done]. apply lookup_insert_eq.
  - destruct Hc as [Hhead Hc]. rewrite Hhead. specialize (Ht ltac:(done)). rewrite Ht.
    destruct (last (a :: ns)) as [t|] eqn:El; [| by rewrite last_None in El].
    assert (h !! brk m = Some (Node d None)) as Hnew by apply lookup_insert_eq.
    destruct (chain_snoc Queue.dirname next (fun n p => Node (Queue.dirname n) p)
      (fun n p => eq_refl) (fun n p => eq_refl)
      h (head m) (a :: ns) (d0 :: l) t (brk m) (Node d None) Hnd' El Hc' Hnew eq_refl)
      as (n & Hn & Hin & Hcs).
    unfold load. run. simpl. fold h. rewrite Hn. run. simpl.
    apply Hok; [done | done | | done].
    exists ((a :: ns) ++ [brk m]). split_and!; [| done | | done | done].
    + simpl. by rewrite Hhead in Hcs.
    + intros _. simpl. symmetry. apply (last_snoc (brk m) (a :: ns)).
Qed.

Lemma remove_queue_nil m (Q : option bytes -> mem -> Prop) :
  queue_rep m [] ->
  (forall m', queue_rep m' [] -> mallocs m' = S (mallocs m) ->
     blocks m' = blocks m + (if malloc_ok (mallocs m) then 1 else 0) -> Q None m') ->
  runs remove_queue m Q.
Proof.
  intros (ns & Hc & Hnd & Ht & Hlt & Hl) HQ. destruct ns; [| done]. simpl in Hc.
  unfold remove_queue, malloc_plain. run. simpl. rewrite Hc. apply runs_ret, HQ; [| done | done].
  exists []. by split_and!.
Qed.

Lemma remove_queue_cons m d l (Q : option bytes -> mem -> Prop) :
  queue_rep m (d :: l) -> malloc_ok (mallocs m) = true ->
  (forall m', queue_rep m' l -> mallocs m' = S (mallocs m) -> blocks m' = blocks m ->
     Q (Some d) m') ->
  runs remove_queue m Q.
Proof.
  intros (ns & Hc & Hnd & Ht & Hlt & Hl) Hm HQ. destruct ns as [|a ns]; [done |].
  destruct Hc as (Hhead & n & Ha & <- & Hc). unfold remove_queue, malloc_plain. run. simpl.
  rewrite Hhead. unfold load. run. simpl. rewrite Ha. run. rewrite Hm.
  apply runs_assert; [done |]. run. inversion Hl; subst.
  apply runs_strcpy; [done |]. unfold free_node. run. simpl.
  apply NoDup_cons in Hnd as [Hna Hnd]. inversion Hlt; subst.
  apply HQ; simpl; [| done | lia].
  exists ns. split_and!; simpl; [by apply chain_delete | done | | done | done].
  intros Hne. rewrite Ht by done. destruct ns; [| done].
  destruct l; [done |]. done.
Qed.

Lemma print_queue_chain fuel m p ns l (Q : list bytes -> mem -> Prop) :
  node_chain (heap m) p ns l -> (length l < fuel)%nat -> Q l m ->
  runs (print_queue fuel p) m Q.
Proof.
  revert p ns l Q. induction fuel as [|fuel IH]; intros p ns l Q Hc Hf HQ; [lia |].
  destruct ns as [|a ns], l as [|d l]; try done; simpl in *.
  - by subst p.
  - destruct Hc as (-> & n & Ha & <- & Hc). unfold load. run. rewrite Ha. run. simpl.
    eapply IH; [done | lia |]. by run.
Qed.
End Queue.
