(* ===== verification/Generate.v ===== *)
(** generate_catalog.c: one record per directory entry, written in breadth-first
    order to the catalog file, then padded to lines of one length. *)

From S2P Require Import Prelude.
From S2P Require Import CString.
From S2P Require Import CStdio.
From S2P Require Import Entry.
From S2P Require Import Lookup.
From S2P Require Import Queue.

(** * What the system provides *)

Definition DT_FIFO : Z := 1.
Definition DT_CHR : Z := 2.
Definition DT_DIR : Z := 4.
Definition DT_BLK : Z := 6.
Definition DT_REG : Z := 8.
Definition DT_LNK : Z := 10.
Definition DT_SOCK : Z := 12.

Record dirent := Dirent { d_name : bytes; d_type : Z }.

(** The tree that is catalogued, as the system calls show it, and the heap:
    [None] is a call that fails. [junk_stat n] is what a fresh block from the
    [n]-th allocation holds. *)
Record os := Os {
  lstat : bytes -> option stat;
  readlink : bytes -> option bytes;
  readdir : bytes -> option (list dirent);
  malloc_ok : nat -> bool;
  junk_stat : nat -> stat }.

(** The process: the queue's heap and the bytes written to [fp_catalog_file]. *)
Record gstate := Gstate { mem_of : mem; catalog_out : bytes }.

Definition on_mem {A} (m : M mem A) : M gstate A := fun g =>
  match m (mem_of g) with
  | Ret (a, h) => Ret (a, Gstate h (catalog_out g))
  | Exit z => Exit z
  | UB => UB
  | Hang => Hang
  end.

Definition fprintf (s : bytes) : M gstate unit :=
  modify (fun g => Gstate (mem_of g) (catalog_out g ++ s)).

(** * Directory entries *)

(** The callback given to [scandir]. *)
Definition filter (ent : dirent) : Z :=
  if (strcmp (d_name ent) (B ".") =? 0) || (strcmp (d_name ent) (B "..") =? 0) then 0 else 1.

Definition filter_dir (ent : dirent) : Z := if d_type ent =? DT_DIR then 1 else 0.

(** [alphasort] in the C locale, in which [strcoll] is [strcmp]. *)
Definition alphasort (a b : dirent) : Prop := bytes_le (d_name a) (d_name b).
#[global] Instance alphasort_dec a b : Decision (alphasort a b) := bytes_le_dec _ _.

(** [scandir]: the selected entries, sorted; [None] is the return value -1. *)
Definition scandir (o : os) (dir : bytes) (select : dirent -> Z) : option (list dirent) :=
  match readdir o dir with
  | None => None
  | Some ents => Some (merge_sort alphasort (List.filter (fun d => negb (select d =? 0)) ents))
  end.

(** * Writing a record *)

Definition findDepth : bytes -> Z := Lookup.findDepth.

(** The letter of a file type, from [st_mode]. *)
Definition type_letter (st_mode : Z) : ascii :=
  let temp := Z.shiftr (Z.land st_mode 61440) 12 in
  if temp =? DT_FIFO then "p"
  else if temp =? DT_CHR then "c"
  else if temp =? DT_DIR then "d"
  else if temp =? DT_BLK then "b"
  else if temp =? DT_REG then "f"
  else if temp =? DT_LNK then "l"
  else if temp =? DT_SOCK then "s"
  else "f".

Definition space : bytes := [" "%char].

(** The text of a record before its path: [%c %lo %ld %ld %ld %lld %lld %lld
    %lld %d ] and the separator. *)
Definition entry_prefix (c : ascii) (mode : Z) (st : stat) (depth : Z) : bytes :=
  [c] ++ space ++ show_oct mode ++ space ++ show_dec (to_i64 (st_nlink st)) ++ space ++
  show_dec (st_uid st) ++ space ++ show_dec (st_gid st) ++ space ++
  show_dec (st_size st) ++ space ++ show_dec (st_atime st) ++ space ++
  show_dec (st_mtime st) ++ space ++ show_dec (st_ctime st) ++ space ++
  show_dec depth ++ space ++ [SOH].

(** The line for a record: for a link, the destination follows the path. *)
Definition entry_line (c : ascii) (mode : Z) (st : stat) (depth : Z) (path link : bytes)
  : bytes :=
  entry_prefix c mode st depth ++
  (if decide (c = "l"%char) then path ++ [STX] ++ link else path) ++ [SOH; LF].

Definition print_entry_to_catalog (st_wdf : stat_wdf) (input_dir : bytes) : M gstate unit :=
  if strlen input_dir =? 0 then exit (-1)
  else
    let st := st_data st_wdf in
    let c := type_letter (st_mode st) in
    let mode := Z.land (st_mode st) 4095 in
    let path := drop (length input_dir) (file_path st_wdf) in
    let depth := findDepth path in
    _ ← fprintf (entry_line c mode st depth path (link_dest st_wdf));
    on_mem free_plain.

Definition print_to_catalog (o : os) (path input_dir : bytes) : M gstate unit :=
  g ← get;
  let junk := junk_stat o (mallocs (mem_of g)) in
  ok1 ← on_mem (malloc_plain (malloc_ok o));
  ok2 ← on_mem (malloc_plain (malloc_ok o));
  _ ← assert_defined (ok1 && ok2);                   (* the blocks are written *)
  let st := from_option id junk (lstat o path) in
  link ← (if Z.shiftr (Z.land (st_mode st) 61440) 12 =? DT_LNK then
            match readlink o path with
            | None => ub                             (* link_buf[-1] = 0 *)
            | Some dest => mret (take (Z.to_nat (MAXPATHLEN - 1)) dest)
            end
          else mret []);
  _ ← print_entry_to_catalog (StatWdf (findDepth path) path st link) input_dir;
  on_mem free_plain.

(** * The breadth-first listing *)

Definition SLASHES : bytes := [SLASH].

(** [current_dir "/" name] in an array of [MAXPATHLEN] bytes. *)
Definition join_path (current_dir name : bytes) : M gstate bytes :=
  t ← strcpy MAXPATHLEN current_dir;
  t ← strcat MAXPATHLEN t SLASHES;
  strcat MAXPATHLEN t name.

Fixpoint list_entries (o : os) (input_dir current_dir : bytes) (namelist : list dirent)
  : M gstate unit :=
  match namelist with
  | [] => mret tt
  | ent :: namelist' =>
      temp ← join_path current_dir (d_name ent);
      _ ← print_to_catalog o temp input_dir;
      _ ← (if d_type ent =? DT_DIR then
             temp ← join_path current_dir (d_name ent);
             _ ← on_mem (insert_queue (malloc_ok o) temp);
             mret tt
           else mret tt);
      list_entries o input_dir current_dir namelist'
  end.

Definition scandir_error : bytes :=
  LF :: B "ERROR:scandir return non-zero value. " ++ LF :: B "Input Directory=".

(** The body of the [while] loop for the directory at the head of the queue. *)
Definition list_directory (o : os) (input_dir : bytes) : M gstate unit :=
  r ← on_mem (remove_queue (malloc_ok o));
  match r with
  | None => ub                                       (* strcpy from NULL *)
  | Some d =>
      current_dir ← strcpy MAXPATHLEN d;
      _ ← on_mem free_plain;
      t ← strcpy MAXPATHLEN current_dir;
      temp ← strcat MAXPATHLEN t SLASHES;
      _ ← print_to_catalog o temp input_dir;
      match scandir o current_dir filter with
      | None => errormsg ← strcpy 256 (scandir_error ++ current_dir); error errormsg
      | Some namelist => list_entries o input_dir current_dir namelist
      end
  end.

(** [while(current_q)]; [fuel] bounds the number of directories. *)
Fixpoint listing_loop (fuel : nat) (o : os) (input_dir : bytes) : M gstate unit :=
  match fuel with
  | O => hang
  | S fuel' =>
      g ← get;
      match head (mem_of g) with
      | None => mret tt
      | Some _ => _ ← list_directory o input_dir; listing_loop fuel' o input_dir
      end
  end.

Definition catalog_listing (fuel : nat) (o : os) (input_dir : bytes) : M gstate Z :=
  _ ← on_mem init_queue;
  current_dir ← strcpy MAXPATHLEN input_dir;
  _ ← on_mem (insert_queue (malloc_ok o) current_dir);
  _ ← listing_loop fuel o input_dir;
  mret 0.

(** * Padding *)

(** The lines read by [getline], each with its newline. *)
Fixpoint getlines (s : bytes) : list bytes :=
  match s with
  | [] => []
  | c :: s' =>
      if decide (c = LF) then [c] :: getlines s'
      else match getlines s' with
           | [] => [[c]]
           | line :: rest => (c :: line) :: rest
           end
  end.

Definition max_line (lines : list bytes) : Z :=
  foldl (fun max_len line => if max_len <? strlen line then strlen line else max_len) 0 lines.

(** The text written for a line: all but its last byte, [\1] up to [max_len], and
    a newline; [strlen] stops at a NUL. *)
Definition pad_line (max_len : Z) (line : bytes) : bytes :=
  let s := cstr line in
  take (length s - 1) s ++ replicate (Z.to_nat (max_len - strlen s)) SOH ++ [LF].

(** What is written to [fp_catalog_file_temp]. *)
Definition pad_each_line (catalog : bytes) : bytes :=
  let lines := getlines catalog in
  concat (map (pad_line (max_line lines)) lines).

(** * [main] *)

Record gen_env := GenEnv {
  gen_os : os;
  stat_mode : bytes -> option Z;       (* st_mode from stat(path) *)
  fopen_ok : bytes -> bool;
  rename_ok : bool }.

Definition is_dir (mode : Z) : bool := Z.land mode 61440 =? S_IFDIR.

(** The return value, and the contents of the catalog file after the renaming. *)
Definition main (fuel : nat) (e : gen_env) (argv : list bytes) : M gstate (Z * bytes) :=
  match argv with
  | [_; arg1; arg2] =>
      input_dir ← strcpy MAXPATHLEN arg1;
      catalog_file ← strcpy MAXPATHLEN arg2;
      if (strlen input_dir <=? 0) || (strlen catalog_file <=? 0) then exit (-1)
      else
        errormsg ← strcpy 256 (LF :: B "ERROR:Cannot get statistics of the directory:" ++ input_dir);
        match stat_mode e input_dir with
        | None => _ ← error errormsg; exit (-1)
        | Some mode =>
            if negb (is_dir mode) then
              errormsg ← strcpy 256 (LF :: B "ERROR:Not a directory:" ++ input_dir);
              _ ← error errormsg; exit (-1)
            else
              errormsg ← strcpy 256 (LF :: B "ERROR:Cannot open catalog file for writing:" ++ catalog_file);
              catalog_file_temp ← strcat MAXPATHLEN catalog_file (B ".temp");
              if negb (fopen_ok e catalog_file) then _ ← error errormsg; exit (-1)
              else
                _ ← catalog_listing fuel (gen_os e) input_dir;
                _ ← assert_defined (fopen_ok e catalog_file_temp);
                g ← get;
                let temp := pad_each_line (catalog_out g) in
                errormsg ← strcpy 256 (LF :: B "ERROR:Cannot rename file:" ++ catalog_file_temp ++
                                       B " to file:" ++ catalog_file);
                if rename_ok e then mret (0, temp) else _ ← error errormsg; exit (-1)
        end
  | _ => exit (-1)
  end.
