(* ===== verification/Format.v ===== *)
(** The record format shared by the two programs: what [print_entry_to_catalog]
    writes and [pad_each_line] pads is what [getEntry_from_catalog] reads back. *)

From S2P Require Import Prelude.
From S2P Require Import CString.
From S2P Require Import CStdio.
From S2P Require Import Entry.
From S2P Require Import Lookup.
From S2P Require Import Queue.
From S2P Require Import Generate.

(** * Steps of [sscanf] over a printed record *)

Lemma skip_space_idem s : skip_space (skip_space s) = skip_space s.
Proof.
  induction s as [|c s IH]; simpl; [done |].
  destruct (is_space c) eqn:E; [done |]. simpl. by rewrite E.
Qed.

Lemma scan_int_skip b s : scan_int b (skip_space s) = scan_int b s.
Proof. unfold scan_int. by rewrite skip_space_idem. Qed.

Lemma sscanf_int k fmt s :
  sscanf (DSpace :: DInt k :: fmt) s =
  match scan_int (conv_base k) s with
  | Some (v, s') =>
      match conv_store k v with
      | Some w => cons (VInt w) <$> sscanf fmt s'
      | None => None
      end
  | None => Some []
  end.
Proof. cbn [sscanf]. by rewrite scan_int_skip. Qed.

Lemma space_ends_number b s : ends_number b (space ++ s).
Proof. done. Qed.

Lemma sscanf_long fmt n rest :
  - 2 ^ 63 <= n < 2 ^ 63 ->
  sscanf (DSpace :: DInt Cld :: fmt) (space ++ show_dec n ++ space ++ rest) =
  cons (VInt n) <$> sscanf fmt (space ++ rest).
Proof.
  intros Hn. rewrite sscanf_int. cbn [app space]. rewrite scan_int_space.
  change (" "%char :: rest) with (space ++ rest). cbn [conv_base].
  rewrite scan_int_dec by apply space_ends_number. cbn [conv_store].
  replace (in_i64 n) with true; [done |]. symmetry. apply in_range_spec. lia.
Qed.

Lemma sscanf_depth fmt n rest :
  - 2 ^ 31 <= n < 2 ^ 31 ->
  sscanf (DSpace :: DInt Cd :: fmt) (space ++ show_dec n ++ space ++ rest) =
  cons (VInt n) <$> sscanf fmt (space ++ rest).
Proof.
  intros Hn. rewrite sscanf_int. cbn [app space]. rewrite scan_int_space.
  change (" "%char :: rest) with (space ++ rest). cbn [conv_base].
  rewrite scan_int_dec by apply space_ends_number. cbn [conv_store].
  replace (in_i32 n) with true; [done |]. symmetry. apply in_range_spec. lia.
Qed.

Lemma sscanf_mode fmt n rest :
  0 <= n < 2 ^ 63 ->
  sscanf (DSpace :: DInt Clo :: fmt) (space ++ show_oct n ++ space ++ rest) =
  cons (VInt n) <$> sscanf fmt (space ++ rest).
Proof.
  intros Hn. rewrite sscanf_int. cbn [app space]. rewrite scan_int_space.
  change (" "%char :: rest) with (space ++ rest). cbn [conv_base].
  unfold show_oct. rewrite to_u64_id by lia.
  rewrite scan_int_unsigned by (lia || apply space_ends_number). cbn [conv_store].
  replace ((- 2 ^ 64 <? n) && (n <? 2 ^ 64)) with true by lia.
  by rewrite to_i64_id by lia.
Qed.

Lemma sscanf_path fmt body rest :
  body <> [] -> SOH ∉ body -> strlen body < MAXPATHLEN ->
  sscanf (DSpace :: DLit SOH :: DNotSet SOH MAXPATHLEN :: DLit "s" :: fmt)
         (space ++ [SOH] ++ body ++ SOH :: rest) = Some [VStr body].
Proof.
  intros Hne Hsoh Hlen. cbn [sscanf app space]. rewrite skip_space_space.
  cbn [skip_space]. replace (is_space SOH) with false by reflexivity.
  rewrite decide_True by done. rewrite span_not_app by done.
  destruct body as [|c body]; [done |].
  replace (strlen (c :: body) <? MAXPATHLEN) with true by lia. done.
Qed.

(** * A record and its line *)

(** Attributes that fit the fields of [struct stat]. *)
Definition stat_ok (st : stat) : Prop :=
  0 <= st_mode st < 2 ^ 32 /\ 0 <= st_nlink st < 2 ^ 64 /\
  0 <= st_uid st < 2 ^ 32 /\ 0 <= st_gid st < 2 ^ 32 /\
  - 2 ^ 63 <= st_size st < 2 ^ 63 /\ - 2 ^ 63 <= st_atime st < 2 ^ 63 /\
  - 2 ^ 63 <= st_mtime st < 2 ^ 63 /\ - 2 ^ 63 <= st_ctime st < 2 ^ 63.

#[global] Instance stat_ok_dec st : Decision (stat_ok st).
Proof. unfold stat_ok. apply _. Defined.

(** The values that the record assigns, for any text of the path. *)
Lemma sscanf_entry c mode st depth body rest :
  stat_ok st -> 0 <= mode < 2 ^ 63 -> - 2 ^ 31 <= depth < 2 ^ 31 ->
  body <> [] -> SOH ∉ body -> strlen body < MAXPATHLEN ->
  sscanf catalog_format (entry_prefix c mode st depth ++ body ++ SOH :: rest) =
  Some [VChar c; VInt mode; VInt (to_i64 (st_nlink st)); VInt (st_uid st);
        VInt (st_gid st); VInt (st_size st); VInt (st_atime st); VInt (st_mtime st);
        VInt (st_ctime st); VInt depth; VStr body].
Proof.
  intros (Hm & Hn & Hu & Hg & Hs & Ha & Hmt & Hc) Hmode Hdepth Hne Hsoh Hlen.
  unfold catalog_format, entry_prefix. rewrite <- !app_assoc.
  assert (- 2 ^ 63 <= to_i64 (st_nlink st) < 2 ^ 63).
  { unfold to_i64, to_signed. pose proof (Z.mod_pos_bound (st_nlink st + 2 ^ (64 - 1)) (2 ^ 64)). lia. }
  change (sscanf (DChar :: ?f) ([c] ++ ?s)) with (cons (VChar c) <$> sscanf f s).
  rewrite sscanf_mode by done. rewrite !sscanf_long by lia. rewrite sscanf_depth by done.
  by rewrite sscanf_path.
Qed.

(** ** File types *)

(** The type field of [st_mode]. *)
Lemma type_field m : Z.shiftr (Z.land m 61440) 12 = (m / 2 ^ 12) mod 16.
Proof.
  rewrite Z.shiftr_land, Z.shiftr_div_pow2 by lia.
  change (Z.shiftr 61440 12) with (Z.ones 4). by rewrite Z.land_ones by lia.
Qed.

Lemma perm_field m : Z.land m 4095 = m mod 2 ^ 12.
Proof. change 4095 with (Z.ones 12). by rewrite Z.land_ones by lia. Qed.

Lemma lor_type_perm k m : 0 <= m < 2 ^ 12 -> Z.lor (k * 2 ^ 12) m = k * 2 ^ 12 + m.
Proof.
  intros Hm.
  assert (Z.land (k * 2 ^ 12) m = 0) as H0.
  { rewrite <- (Z.mod_small m (2 ^ 12)) by lia. rewrite <- Z.land_ones by lia.
    rewrite (Z.land_comm m), Z.land_assoc, Z.land_ones by lia.
    rewrite Z.mod_mul by lia. apply Z.land_0_l. }
  rewrite Z.add_nocarry_lxor by done. symmetry. by apply Z.lxor_lor.
Qed.

(** The mode that catalogfs shows for a file of mode [m]. *)
Definition served_mode (m : Z) : Z := mode_of_type (type_letter m) (Z.land m 4095).

Lemma served_mode_eq m :
  exists k, 0 <= k < 16 /\ served_mode m = k * 2 ^ 12 + m mod 2 ^ 12 /\
    (In ((m / 2 ^ 12) mod 16) [1; 2; 4; 6; 8; 10; 12] -> k = (m / 2 ^ 12) mod 16).
Proof.
  unfold served_mode, type_letter. rewrite type_field, perm_field.
  pose proof (Z.mod_pos_bound m (2 ^ 12) ltac:(lia)) as Hp.
  set (t := (m / 2 ^ 12) mod 16). set (p := m mod 2 ^ 12) in *. cbv zeta.
  unfold DT_FIFO, DT_CHR, DT_DIR, DT_BLK, DT_REG, DT_LNK, DT_SOCK.
  repeat (case_match; [
    match goal with H : (t =? ?n) = true |- _ =>
      exists n; split; [lia | split; [| lia]];
      by rewrite <- (lor_type_perm n p Hp) end |]).
  exists 8. split; [lia | split; [by rewrite <- (lor_type_perm 8 p Hp) |]].
  simpl. lia.
Qed.

Lemma served_mode_range m : 0 <= served_mode m < 2 ^ 16.
Proof.
  destruct (served_mode_eq m) as (k & Hk & -> & _).
  pose proof (Z.mod_pos_bound m (2 ^ 12) ltac:(lia)). lia.
Qed.

(** A file of one of the seven known types keeps its mode. *)
Definition known_type (m : Z) : bool :=
  bool_decide (In ((m / 2 ^ 12) mod 16) [1; 2; 4; 6; 8; 10; 12]).

Lemma served_mode_known m :
  0 <= m < 2 ^ 16 -> known_type m = true -> served_mode m = m.
Proof.
  intros Hm Hk. apply bool_decide_eq_true in Hk.
  destruct (served_mode_eq m) as (k & _ & -> & ->); [| done].
  rewrite (Z.mod_small (m / 2 ^ 12)).
  - pose proof (Z.div_mod m (2 ^ 12)). lia.
  - split; [apply Z.div_pos; lia | apply Z.div_lt_upper_bound; lia].
Qed.

Lemma to_u64_i64 n : 0 <= n < 2 ^ 64 -> to_u64 (to_i64 n) = n.
Proof.
  intros Hn. unfold to_u64, to_i64, to_unsigned, to_signed.
  rewrite Zminus_mod_idemp_l. rewrite <- (Z.mod_small n (2 ^ 64)) at 2 by done.
  f_equal. lia.
Qed.

(** ** What is read back *)

Definition served_stat (st : stat) : stat :=
  {| st_mode := served_mode (st_mode st); st_nlink := st_nlink st; st_uid := st_uid st;
     st_gid := st_gid st; st_size := st_size st; st_atime := st_atime st;
     st_mtime := st_mtime st; st_ctime := st_ctime st |}.

Definition is_link (st : stat) : bool := bool_decide (type_letter (st_mode st) = "l"%char).

(** The record of a file, as catalogfs reads it. *)
Definition record (st : stat) (path link : bytes) : stat_wdf :=
  StatWdf (Lookup.findDepth path) path (served_stat st) (if is_link st then link else []).

(** Bytes that the format can carry. *)
Definition text_ok (s : bytes) : Prop := Forall (fun c => c ∉ [NUL; SOH; STX; LF]) s.
Definition link_text_ok (s : bytes) : Prop := Forall (fun c => c ∉ [NUL; SOH; LF]) s.

#[global] Instance text_ok_dec s : Decision (text_ok s).
Proof. unfold text_ok. apply _. Defined.
#[global] Instance link_text_ok_dec s : Decision (link_text_ok s).
Proof. unfold link_text_ok. apply _. Defined.

Definition entry_body (st : stat) (path link : bytes) : bytes :=
  if is_link st then path ++ [STX] ++ link else path.

(** The record of a file fits the buffers of catalogfs. *)
Definition record_ok (st : stat) (path link : bytes) : Prop :=
  stat_ok st /\ text_ok path /\ path <> [] /\ link_text_ok link /\
  strlen (entry_body st path link) < MAXPATHLEN /\
  Lookup.findDepth path < 2 ^ 31.

(** The line that [print_entry_to_catalog] writes, without its last byte. *)
Definition line_text (st : stat) (path link : bytes) : bytes :=
  entry_prefix (type_letter (st_mode st)) (Z.land (st_mode st) 4095) st
    (Lookup.findDepth path) ++ entry_body st path link ++ [SOH].

Lemma entry_line_text st path link :
  entry_line (type_letter (st_mode st)) (Z.land (st_mode st) 4095) st
    (Lookup.findDepth path) path link = line_text st path link ++ [LF].
Proof.
  unfold entry_line, line_text, entry_body, is_link. rewrite <- !app_assoc.
  case_bool_decide; case_decide; done.
Qed.

Lemma not_in_text (P : list ascii) s c :
  Forall (fun x => x ∉ P) s -> c ∈ P -> c ∉ s.
Proof. intros Hs Hc Hin. rewrite Forall_forall in Hs. by apply (Hs c). Qed.

Lemma body_chars st path link c :
  record_ok st path link -> c ∈ [NUL; SOH; LF] -> c ∉ entry_body st path link.
Proof.
  intros (_ & Hp & _ & Hl & _) Hc. unfold entry_body.
  assert (c ∉ path) by (apply (not_in_text _ _ _ Hp); set_solver).
  assert (c ∉ link) by by apply (not_in_text _ _ _ Hl).
  destruct (is_link st); [| done].
  rewrite !not_elem_of_app, not_elem_of_cons. split_and!; try done.
  - intros ->. rewrite !elem_of_cons in Hc. destruct Hc as [?|[?|[?|?]]]; try done. by apply not_elem_of_nil in H1.
  - apply not_elem_of_nil.
Qed.

Lemma findDepth_lower p : -1 <= Lookup.findDepth p.
Proof.
  unfold Lookup.findDepth. destruct p; [lia |]. case_decide; [| lia].
  pose proof (count_slashes_nonneg (a :: p)). lia.
Qed.

(** The round trip through the catalog, with any padding. *)
Lemma decode_record u st path link rest :
  record_ok st path link ->
  decode_entry u (line_text st path link ++ rest) = Some (record st path link).
Proof.
  intros Hok. pose proof Hok as ((Hm & Hn & Hu & Hg & Hs) & Hp & Hne & Hl & Hlen & Hd).
  unfold decode_entry, line_text. rewrite <- !app_assoc. change ([SOH] ++ rest) with (SOH :: rest).
  rewrite sscanf_entry; [| apply Hok | rewrite perm_field;
    pose proof (Z.mod_pos_bound (st_mode st) (2 ^ 12)); lia |
    pose proof (findDepth_lower path); lia | | by apply (body_chars st path link _ Hok); set_solver | done].
  2:{ unfold entry_body. destruct (is_link st); [| done]. intros E.
      apply app_eq_nil in E as [? ?]. done. }
  cbn [assign frame_vars length drop app].
  replace (to_u32 (mode_of_type (type_letter (st_mode st)) (Z.land (st_mode st) 4095)))
    with (served_mode (st_mode st)).
  2:{ symmetry. pose proof (served_mode_range (st_mode st)).
      apply (to_u32_id (served_mode (st_mode st))). lia. }
  rewrite to_u64_i64, !to_u32_id by done.
  unfold record, entry_body, is_link in *.
  destruct (decide (type_letter (st_mode st) = "l"%char)) as [Hc|Hc];
    [rewrite bool_decide_eq_true_2 in * by done
    | by rewrite bool_decide_eq_false_2 in * by done].
  rewrite (proj2 (Z.ltb_lt _ _) Hlen).
  unfold split_link. cbn [app].
  rewrite span_not_app by (apply (not_in_text _ _ _ Hp); set_solver). done.
Qed.
