(* ===== verification/Pad.v ===== *)
(** generate_catalog.c, [pad_each_line]: the lines read back are those written,
    and every padded line has the length of the longest. *)

From S2P Require Import Prelude.
From S2P Require Import CString.
From S2P Require Import CStdio.
From S2P Require Import Entry.
From S2P Require Import Queue.
From S2P Require Import Generate.

(** A line is its text and a newline. *)
Definition line_of (text : bytes) : bytes := text ++ [LF].

(** Texts that hold neither a newline nor a NUL. *)
Definition plain (text : bytes) : Prop := (LF ∉ text) /\ nul_free text.

(** The padded line of a text when the longest line has [n] bytes. *)
Definition padded (n : nat) (text : bytes) : bytes :=
  text ++ replicate (n - S (length text)) SOH ++ [LF].

Lemma getlines_line text rest :
  LF ∉ text -> getlines (line_of text ++ rest) = line_of text :: getlines rest.
Proof.
  unfold line_of. induction text as [|c text IH]; simpl.
  - done.
  - rewrite not_elem_of_cons. intros [Hc Ht]. rewrite decide_False by congruence.
    by rewrite IH.
Qed.

Lemma getlines_lines texts :
  Forall plain texts -> getlines (concat (map line_of texts)) = map line_of texts.
Proof.
  induction 1 as [|t texts [Hl _] Hts IH]; [done |]. cbn [map concat].
  rewrite getlines_line by done. by rewrite IH.
Qed.

(** [getlines] loses no byte. *)
Lemma concat_getlines s : concat (getlines s) = s.
Proof.
  induction s as [|c s IH]; simpl; [done |].
  case_decide; simpl; [by rewrite IH |].
  destruct (getlines s) as [|line rest]; simpl in *; by rewrite <- IH.
Qed.

Lemma foldl_max_spec lines m :
  let r := foldl (fun max_len line => if max_len <? strlen line then strlen line else max_len)
             m lines in
  m <= r /\ Forall (fun line => strlen line <= r) lines /\
  (r = m \/ exists line, line ∈ lines /\ strlen line = r).
Proof.
  revert m. induction lines as [|x lines IH]; intros m; simpl; [auto with lia |].
  destruct (IH (if m <? strlen x then strlen x else m)) as (H1 & H2 & H3).
  split_and!; [destruct (m <? strlen x) eqn:E; lia | constructor; [| done] |].
  - destruct (m <? strlen x) eqn:E; lia.
  - destruct H3 as [H3 | (line & Hin & Hl)].
    + destruct (m <? strlen x) eqn:E; [| by left].
      right. exists x. split; [by apply list_elem_of_here | done].
    + right. exists line. split; [by apply list_elem_of_further | done].
Qed.

(** The longest line bounds them all, and is one of them. *)
Lemma max_line_spec lines :
  Forall (fun line => strlen line <= max_line lines) lines /\
  (lines <> [] -> exists line, line ∈ lines /\ strlen line = max_line lines).
Proof.
  destruct (foldl_max_spec lines 0) as (H1 & H2 & H3). fold (max_line lines) in *.
  split; [done |]. intros Hne. destruct H3 as [H3 | H3]; [| done].
  destruct lines as [|x lines]; [done |]. exists x. split; [by apply list_elem_of_here |].
  inversion H2; subst. pose proof (strlen_nonneg x). lia.
Qed.

Lemma pad_line_plain n text :
  nul_free text -> pad_line (Z.of_nat n) (line_of text) = padded n text.
Proof.
  intros Hn. unfold pad_line, padded, line_of.
  rewrite cstr_id by (apply nul_free_app; split; [done |]; unfold nul_free, NUL, LF; set_solver).
  rewrite length_app. simpl. replace (length text + 1 - 1)%nat with (length text) by lia.
  rewrite take_app_length. do 3 f_equal. unfold strlen. rewrite length_app. simpl. lia.
Qed.

Lemma padded_length n text : (S (length text) <= n)%nat -> length (padded n text) = n.
Proof. intros. unfold padded. rewrite !length_app, length_replicate. simpl. lia. Qed.

Lemma padded_nul_free n text : nul_free text -> nul_free (padded n text).
Proof.
  intros Hn. unfold padded. rewrite !nul_free_app. split_and!; [done | |].
  - unfold nul_free. rewrite elem_of_replicate. intros [? _]. done.
  - unfold nul_free, NUL, LF. set_solver.
Qed.

Definition longest (texts : list bytes) : nat := Z.to_nat (max_line (map line_of texts)).

Lemma longest_bound texts :
  Forall (fun text => (S (length text) <= longest texts)%nat) texts.
Proof.
  destruct (max_line_spec (map line_of texts)) as [H _].
  rewrite Forall_map in H. eapply Forall_impl; [exact H |].
  intros t Ht. simpl in Ht. unfold longest, line_of in *. rewrite strlen_app in Ht.
  unfold strlen in Ht. simpl in Ht. lia.
Qed.

(** What the second pass writes. *)
Lemma pad_each_line_spec texts :
  Forall plain texts ->
  pad_each_line (concat (map line_of texts)) = concat (map (padded (longest texts)) texts).
Proof.
  intros Hp. unfold pad_each_line. rewrite getlines_lines by done.
  rewrite map_map. f_equal. apply map_ext_in. intros t Ht.
  apply list_elem_of_In in Ht.
  rewrite Forall_forall in Hp. destruct (Hp t Ht) as [_ Hn].
  rewrite <- pad_line_plain by done. f_equal. unfold longest.
  destruct (foldl_max_spec (map line_of texts) 0) as (H0 & _).
  fold (max_line (map line_of texts)) in H0. by rewrite Z2Nat.id.
Qed.

Lemma padded_lengths texts :
  Forall (fun line => length line = longest texts) (map (padded (longest texts)) texts).
Proof.
  rewrite Forall_map. eapply Forall_impl; [apply longest_bound |].
  intros t Ht. by apply padded_length.
Qed.

Lemma padded_as_line n text : (S (length text) <= n)%nat ->
  padded n text = line_of (text ++ replicate (n - S (length text)) SOH).
Proof. intros. unfold padded, line_of. by rewrite <- app_assoc. Qed.

(** The padded lines are read back one by one. *)
Lemma getlines_padded texts :
  Forall plain texts ->
  getlines (concat (map (padded (longest texts)) texts)) = map (padded (longest texts)) texts.
Proof.
  intros Hp.
  assert (map (padded (longest texts)) texts =
          map line_of (map (fun t => t ++ replicate (longest texts - S (length t)) SOH) texts))
    as ->.
  { rewrite map_map. apply map_ext_in. intros t Ht. apply list_elem_of_In in Ht.
    apply padded_as_line. pose proof (longest_bound texts) as Hb.
    rewrite Forall_forall in Hb. by apply Hb. }
  apply getlines_lines. rewrite Forall_map. eapply Forall_impl; [exact Hp |].
  intros t [Hl Hn]. unfold plain. rewrite not_elem_of_app, nul_free_app.
  assert (forall c, c <> SOH -> c ∉ replicate (longest texts - S (length t)) SOH) as Hr.
  { intros c Hc. rewrite elem_of_replicate. naive_solver. }
  split; split; try done; by apply Hr.
Qed.
