(* ===== verification/Tools.v ===== *)
(** The small programs: bytecount.c, that the mount script runs on a catalog;
    generate_catalog.old.c, the first listing of a directory; and the experiments
    of the helper directory with [sscanf] and [stat]. *)

From S2P Require Import Prelude.
From S2P Require Import CString.
From S2P Require Import CStdio.
From S2P Require Import Entry.
From S2P Require Import Chain.
From S2P Require Import Queue.
From S2P Require Import Generate.
From S2P Require Import Format.
From S2P Require Import Pad.

(** * bytecount.c *)

Module ByteCount.

(** The file system: [fopen name "r+"] gives the contents of the file. *)
Definition files : Type := bytes -> option bytes.

(** [input_file_text] is what [%s] prints for the [FILE] pointer that is not set
    yet, [None] when the access faults; the result is the numbers printed. *)
Definition main (fopen : files) (input_file_text : option bytes) (argv : list bytes)
  : M unit (list Z) :=
  match argv with
  | [_; name] =>
      match input_file_text with
      | None => ub
      | Some text =>
          errormsg ← strcpy 256 (LF :: B "ERROR:Cannot open input file for reading:" ++ text);
          match fopen name with
          | None => _ ← error errormsg; exit (-1)
          | Some data => mret (map strlen (getlines data))
          end
      end
  | _ => exit (-1)
  end.

End ByteCount.

(** * generate_catalog.old.c *)

Module OldGenerator.

(** [struct dir_entries]; [entry_name] points into the buffer of the directory
    stream, at the name of the [n]-th entry read. *)
Record dir_entries := DirEntries { entry_name : nat; entry_type : Z; next : ptr }.

Record heap_state := HeapState { nodes : gmap nat dir_entries; fresh : nat }.

Section Listing.
Context (malloc_ok : nat -> bool).

(** A block with the three fields set; the code does not test the result of
    [malloc]. *)
Definition new_node (name : nat) (type : Z) : M heap_state nat :=
  m ← get;
  _ ← assert_defined (malloc_ok (fresh m));
  _ ← modify (fun m => HeapState (<[fresh m := DirEntries name type None]> (nodes m))
                                 (S (fresh m)));
  mret (fresh m).

(** [current->next = temp]. *)
Definition set_next (a temp : nat) : M heap_state unit :=
  m ← get;
  match nodes m !! a with
  | None => ub
  | Some n =>
      modify (fun m => HeapState
        (<[a := DirEntries (entry_name n) (entry_type n) (Some temp)]> (nodes m)) (fresh m))
  end.

(** The [while] loop over the entries from the [n]-th on; [head] and [current] are
    the last arguments. *)
Fixpoint read_loop (ents : list dirent) (n : nat) (head : ptr) (current : nat)
  : M heap_state ptr :=
  match ents with
  | [] => mret head
  | de :: ents' =>
      if negb (strcmp (d_name de) (B ".") =? 0) && negb (strcmp (d_name de) (B "..") =? 0) then
        temp ← new_node n (d_type de);
        match head with
        | None => read_loop ents' (S n) (Some temp) temp
        | Some _ => _ ← set_next current temp; read_loop ents' (S n) head temp
        end
      else read_loop ents' (S n) head current
  end.

(** NULL when the directory cannot be opened or has no entry. *)
Definition directory_listing_sorted (readdir : bytes -> option (list dirent)) (path : bytes)
  : M heap_state ptr :=
  match readdir path with
  | None => mret None
  | Some ents => read_loop ents 0 None 0
  end.

(** The loop of [main] that prints the name and the type of each node; [stream n]
    is what the buffer of the stream, already closed, still holds at the [n]-th
    name. *)
Fixpoint print_loop (fuel : nat) (stream : nat -> bytes) (current : ptr)
  : M heap_state (list (bytes * Z)) :=
  match fuel with
  | O => hang
  | S fuel' =>
      match current with
      | None => mret []
      | Some a =>
          m ← get;
          match nodes m !! a with
          | None => ub
          | Some d =>
              rest ← print_loop fuel' stream (next d);
              mret ((stream (entry_name d), entry_type d) :: rest)
          end
      end
  end.

Definition input_dir : bytes := B "/tmp/temp".

Definition main (fuel : nat) (readdir : bytes -> option (list dirent)) (stream : nat -> bytes)
  : M heap_state (Z * list (bytes * Z)) :=
  head ← directory_listing_sorted readdir input_dir;
  match head with
  | None => mret (1, [])
  | Some _ => out ← print_loop fuel stream head; mret (0, out)
  end.
End Listing.

End OldGenerator.

(** * helper/scanf.c *)

Module Scanf.

(** The format of the record reader, into an array of 50 bytes. *)
Definition format : list directive :=
  [DChar; DSpace; DInt Clo; DSpace; DInt Cld; DSpace; DInt Cld; DSpace; DInt Cld;
   DSpace; DInt Cld; DSpace; DInt Cld; DSpace; DInt Cld; DSpace; DInt Cld; DSpace;
   DInt Cd; DSpace; DLit SOH; DNotSet SOH 50; DLit "s"; DLit SOH; DSpace].

Definition entry : bytes :=
  B "l 0710 1 119 29 9000 1213109162 1213109161 1213105161 3 " ++ [SOH] ++
  B "/dir1/link file" ++ [STX] ++ B "/dir2 kkdskl" ++ replicate 4 SOH ++ [LF].

(** What is printed: the depth, the number of variables read, the path and the
    destination, which is set to kgn before. *)
Definition main (u : frame) (entry : bytes) : option (Z * Z * bytes * bytes) :=
  let link_dest := B "kgn" in
  match sscanf format entry with
  | None => None
  | Some vs =>
      match assign vs (frame_vars u) with
      | [_; _; _; _; _; _; _; _; _; VInt depth; VStr file_path] =>
          if strlen file_path <? 50 then
            let '(temp, dest) := split_link file_path link_dest in
            Some (depth, Z.of_nat (length vs), temp, dest)
          else None
      | _ => None
      end
  end.

End Scanf.

(** * helper/stat.c *)

Module StatTool.

Definition S_IFMT : Z := 61440.

(** The [switch] on the type. *)
Definition type_text (st_mode : Z) : bytes :=
  let t := Z.land st_mode S_IFMT in
  if t =? S_IFBLK then B "block device"
  else if t =? S_IFCHR then B "character device"
  else if t =? S_IFDIR then B "directory"
  else if t =? S_IFIFO then B "FIFO/pipe"
  else if t =? S_IFLNK then B "symlink"
  else if t =? S_IFREG then B "regular file"
  else if t =? S_IFSOCK then B "socket"
  else B "unknown?".

(** The fields of the structure that only this program prints. *)
Record more_stat := MoreStat { st_ino : Z; st_blksize : Z; st_blocks : Z }.

(** The lines printed on the standard output and the exit status; [ctime] is the
    text of a time, with its newline. *)
Definition main (stat : bytes -> option (stat * more_stat)) (ctime : Z -> bytes)
  (argv : list bytes) : list bytes * Z :=
  match argv with
  | [_; path] =>
      match stat path with
      | None => ([], 0)                              (* exit(EXIT_SUCCESS) *)
      | Some (sb, more) =>
          ([B "File type:                " ++ type_text (st_mode sb) ++ [LF];
            B "I-node number:            " ++ show_dec (to_i64 (st_ino more)) ++ [LF];
            B "Mode:                     " ++ show_oct (st_mode sb) ++ B " (octal)" ++ [LF];
            B "Link count:               " ++ show_dec (to_i64 (st_nlink sb)) ++ [LF];
            B "Ownership:                UID=" ++ show_dec (st_uid sb) ++
              B "   GID=" ++ show_dec (st_gid sb) ++ [LF];
            B "Preferred I/O block size: " ++ show_dec (st_blksize more) ++ B " bytes" ++ [LF];
            B "File size:                " ++ show_dec (st_size sb) ++ B " bytes" ++ [LF];
            B "Blocks allocated:         " ++ show_dec (st_blocks more) ++ [LF];
            B "Last inode change:        " ++ ctime (st_ctime sb);
            B "Last file access:         " ++ ctime (st_atime sb);
            B "Last file modification:   " ++ ctime (st_mtime sb)], 0)
      end
  | _ => ([], 1)
  end.

End StatTool.

(** * helper/statfs.c *)

Module StatfsTool.

(** [%c %lo %ld %ld %ld %lld %lld %lld %lld %[^\13]s\n]. *)
Definition format : list directive :=
  [DChar; DSpace; DInt Clo; DSpace; DInt Cld; DSpace; DInt Cld; DSpace; DInt Cld;
   DSpace; DInt Cld; DSpace; DInt Cld; DSpace; DInt Cld; DSpace; DInt Cld; DSpace;
   DNotSet VT MAXPATHLEN; DLit "s"; DSpace].

Definition entry : list bytes :=
  map (fun s => B s ++ [LF])
  ["d 0755 2 1001 1001 1000 1213101162 1213101161 1213113161 /";
   "f 0701 1 0 1 2000 1213102162 1213102161 1213112161 /.hidden file 1";
   "d 0702 2 108 7 3000 1213103162 1213103161 1213111161 /dir1";
   "f 0703 1 1002 1002 4000 1213104162 1213104161 1213110161 /dir1/file 1";
   "f 0704 1 41 41 5000 1213105162 1213105161 1213109111 /dir1/file 2";
   "d 0705 2 122 127 6000 1213106162 1213106161 1213108161 /dir2";
   "f 0726 1 115 125 7000 1213107162 1213107161 1213107161 /dir1/.hidden file 2";
   "f 0747 1 117 126 8000 1213108162 1213108161 1213106161 /dir2/hello 2";
   "l 0710 1 119 29 9000 1213109162 1213109161 1213105161 /dir1/link file";
   "s 0740 1 113 124 10000 1213110162 1213110161 1213103161 /dir2/semaphore file";
   "p 0750 1 110 120 11111 1213111162 1213111161 1213102161 /dir1/fifo file";
   "c 0760 1 111 121 22222 1213112162 1213112161 1213101161 /character special file"]%string.

(** The variables printed, for the entry [i]. *)
Definition main (u : list sval) (i : nat) : option (list sval) :=
  match entry !! i with
  | None => None
  | Some e => (fun vs => assign vs u) <$> sscanf format e
  end.

End StatfsTool.

(** * The listing of the first generator *)

Module OldListing.
Import OldGenerator.

(** What a node holds: the place of the name in the stream, and the type. *)
Definition node_data (n : dir_entries) : nat * Z := (entry_name n, entry_type n).

Abbreviation entry_chain := (chain node_data OldGenerator.next).

Definition keeps (de : dirent) : bool := negb (Generate.filter de =? 0).

(** The entries kept, from the [n]-th on. *)
Fixpoint kept (n : nat) (ents : list dirent) : list (nat * Z) :=
  match ents with
  | [] => []
  | de :: ents' =>
      if keeps de then (n, d_type de) :: kept (S n) ents' else kept (S n) ents'
  end.

Lemma keeps_test de :
  negb (strcmp (d_name de) (B ".") =? 0) && negb (strcmp (d_name de) (B "..") =? 0) = keeps de.
Proof. unfold keeps, Generate.filter. by destruct (strcmp _ (B ".") =? 0), (strcmp _ (B "..") =? 0). Qed.

(** The list under construction: [current] is its last node. *)
Definition building (m : heap_state) (head : ptr) (current : nat) (l : list (nat * Z)) : Prop :=
  exists ns, entry_chain (nodes m) head ns l /\ NoDup ns /\
    Forall (fun a => (a < fresh m)%nat) ns /\ (ns <> [] -> last ns = Some current).

Section Loop.
Context (malloc_ok : nat -> bool) (Hok : forall n, malloc_ok n = true).

Lemma append_first m current name type (Q : nat -> heap_state -> Prop) :
  building m None current [] ->
  (forall temp m', building m' (Some temp) temp [(name, type)] -> Q temp m') ->
  runs (new_node malloc_ok name type) m Q.
Proof.
  intros (ns & Hc & Hnd & Hlt & Hlast) HQ. unfold new_node. run.
  apply runs_assert; [by rewrite Hok |]. run. apply HQ. exists [fresh m]. split_and!.
  - simpl. split; [done |]. exists (DirEntries name type None). by rewrite lookup_insert_eq.
  - apply NoDup_singleton.
  - constructor; [simpl; lia | constructor].
  - done.
Qed.

Lemma append_next m a current l name type (Q : nat -> heap_state -> Prop) :
  building m (Some a) current l ->
  (forall temp m', building m' (Some a) temp (l ++ [(name, type)]) -> Q temp m') ->
  runs (temp ← new_node malloc_ok name type; _ ← set_next current temp; mret temp) m Q.
Proof.
  intros (ns & Hc & Hnd & Hlt & Hlast) HQ. unfold new_node. run.
  apply runs_assert; [by rewrite Hok |]. run. unfold set_next. run.
  assert (fresh m ∉ ns) as Hfresh.
  { intros Hin. rewrite Forall_forall in Hlt. specialize (Hlt _ Hin). lia. }
  assert (NoDup (ns ++ [fresh m])) as Hnd'.
  { apply NoDup_app. split; [done |]. split; [| apply NoDup_singleton].
    intros x Hx ->%list_elem_of_singleton. done. }
  assert (ns <> []) as Hne by (intros ->; apply chain_nil in Hc as [? _]; done).
  set (new := DirEntries name type None).
  assert (<[fresh m := new]> (nodes m) !! fresh m = Some new) as Hnew by apply lookup_insert_eq.
  destruct (chain_snoc node_data OldGenerator.next
    (fun n p => DirEntries (entry_name n) (entry_type n) p)
    (fun n p => eq_refl) (fun n p => eq_refl)
    (<[fresh m := new]> (nodes m)) (Some a) ns l current (fresh m) new Hnd'
    (Hlast Hne) (chain_insert _ _ _ _ _ _ _ _ Hfresh Hc) Hnew eq_refl)
    as (n & Hn & Hin & Hcs).
  cbn [nodes]. rewrite Hn. run. apply HQ. exists (ns ++ [fresh m]). cbn [nodes fresh].
  split_and!; [exact Hcs | done | | intros _; apply last_snoc].
  apply Forall_app. split; [eapply Forall_impl; [done |]; simpl; lia |].
  constructor; [lia | constructor].
Qed.

Lemma read_loop_spec ents n m head current l :
  (head = None -> l = []) -> building m head current l ->
  runs (read_loop malloc_ok ents n head current) m (fun p m' =>
    exists ns, entry_chain (nodes m') p ns (l ++ kept n ents)).
Proof.
  revert n m head current l. induction ents as [|de ents IH]; intros n m head current l Hh Hb.
  { simpl. run. destruct Hb as (ns & Hc & _). exists ns. by rewrite app_nil_r. }
  cbn [read_loop kept]. rewrite keeps_test. destruct (keeps de); [| by apply IH].
  destruct head as [a|].
  - apply (runs_eq_run _ (t ← (temp ← new_node malloc_ok n (d_type de);
      _ ← set_next current temp; mret temp); read_loop malloc_ok ents (S n) (Some a) t)).
    { rewrite bind_assoc. apply bind_ext. intros t s'. by rewrite bind_assoc. }
    apply runs_bind. eapply append_next; [done |]. intros temp m' Hb'.
    eapply runs_mono; [refine (IH (S n) m' (Some a) temp _ _ Hb'); done |].
    intros p m2 [ns Hns]. exists ns. by rewrite <- app_assoc in Hns.
  - rewrite (Hh eq_refl) in *. run. eapply append_first; [done |]. intros temp m' Hb'.
    apply (IH (S n) m' (Some temp) temp [(n, d_type de)] ltac:(done) Hb').
Qed.

Lemma print_loop_spec fuel stream m p ns l :
  entry_chain (nodes m) p ns l -> (length l < fuel)%nat ->
  runs (print_loop fuel stream p) m (fun out m' =>
    out = map (fun '(n, t) => (stream n, t)) l /\ m' = m).
Proof.
  revert p ns l. induction fuel as [|fuel IH]; intros p ns l Hc Hf; [lia |].
  destruct ns as [|a ns], l as [|d l]; try done; simpl in *.
  - by subst p.
  - destruct Hc as (-> & n & Ha & <- & Hc). run. rewrite Ha. run.
    eapply runs_mono; [apply (IH _ ns l Hc); lia |]. intros out m' [-> ->]. by run.
Qed.
End Loop.

Lemma kept_names stream n ents :
  (forall i de, ents !! i = Some de -> stream (n + i)%nat = d_name de) ->
  map (fun '(k, t) => (stream k, t)) (kept n ents) =
  map (fun de => (d_name de, d_type de)) (List.filter keeps ents).
Proof.
  revert n. induction ents as [|de ents IH]; intros n Hs; [done |].
  assert (forall i d, ents !! i = Some d -> stream (S n + i)%nat = d_name d) as Hs'.
  { intros i d Hi. rewrite <- (Hs (S i) d Hi). f_equal. lia. }
  simpl. destruct (keeps de); simpl; rewrite (IH (S n) Hs'); [| done].
  rewrite <- (Hs 0%nat de eq_refl). by replace (n + 0)%nat with n by lia.
Qed.

Lemma kept_length n ents : (length (kept n ents) <= length ents)%nat.
Proof.
  revert n. induction ents as [|de ents IH]; intros n; simpl; [done |].
  specialize (IH (S n)). destruct (keeps de); simpl; lia.
Qed.

(** The first generator prints the entries of its directory other than "."
    and "..", in the order of readdir and not sorted as its name says, as long
    as the closed stream still holds the names; it returns 1 exactly when there
    are none. *)
Theorem old_listing_keeps_directory_order malloc_ok readdir stream ents fuel :
  (forall n, malloc_ok n = true) -> readdir input_dir = Some ents ->
  (forall i de, ents !! i = Some de -> stream i = d_name de) -> (length ents < fuel)%nat ->
  runs (main malloc_ok fuel readdir stream) (HeapState ∅ 0) (fun r _ =>
    let shown := map (fun de => (d_name de, d_type de)) (List.filter keeps ents) in
    r = (match shown with [] => 1 | _ => 0 end, shown)).
Proof.
  intros Hok Hr Hs Hf. unfold main, directory_listing_sorted. run. rewrite Hr.
  eapply runs_mono.
  { apply (read_loop_spec malloc_ok Hok ents 0 _ None 0 []); [done |].
    exists []. split_and!; [done | constructor | constructor | done]. }
  intros p m' [ns Hc]. simpl in Hc. rewrite <- (kept_names stream 0 ents) by done.
  pose proof (kept_length 0 ents). pose proof (chain_length _ _ _ _ _ _ Hc) as Hl.
  destruct p as [a|], (kept 0 ents) as [|x l] eqn:E.
  - destruct ns; [apply chain_nil in Hc as [? _]; done | done].
  - run. eapply runs_mono; [apply (print_loop_spec _ _ _ _ _ _ Hc); simpl in *; lia |].
    intros out m2 [-> _]. by run.
  - by run.
  - destruct ns; [done |]. by destruct Hc as [? _].
Qed.

Definition old_entries : list dirent := [Dirent (B "z") 8; Dirent (B ".") 4; Dirent (B "a") 4].

Lemma old_listing_keeps_directory_order_witness :
  runs (main (fun _ => true) 4 (fun _ => Some old_entries)
          (fun i => from_option d_name [] (old_entries !! i))) (HeapState ∅ 0) (fun r _ =>
    let shown := map (fun de => (d_name de, d_type de)) (List.filter keeps old_entries) in
    r = (match shown with [] => 1 | _ => 0 end, shown)).
Proof.
  apply old_listing_keeps_directory_order; [reflexivity | reflexivity | | vm_compute; lia].
  intros i de Hi. by rewrite Hi.
Defined.

End OldListing.

(** * Properties of the other tools *)

(** The same conversions into a larger array. *)
Definition widen (cap : Z) (d : directive) : directive :=
  match d with DNotSet stop c => DNotSet stop (Z.max cap c) | _ => d end.

Lemma sscanf_widen cap fmt s vs :
  sscanf fmt s = Some vs -> sscanf (map (widen cap) fmt) s = Some vs.
Proof.
  revert s vs. induction fmt as [|d fmt IH]; intros s vs H; [done |].
  destruct d; cbn [map widen sscanf] in *.
  - auto.
  - destruct s; [done |]. case_decide; auto.
  - destruct s; [done |]. destruct (sscanf fmt s) eqn:E; [| done]. by rewrite (IH _ _ E).
  - destruct (scan_int (conv_base k) s) as [[v s']|]; [| done].
    destruct (conv_store k v); [| done].
    destruct (sscanf fmt s') eqn:E; [| done]. by rewrite (IH _ _ E).
  - destruct (span_not stop s) as [u s']. destruct u as [|c u]; [done |].
    destruct (strlen (c :: u) <? cap0) eqn:El; [| done].
    replace (strlen (c :: u) <? Z.max cap cap0) with true by lia.
    destruct (sscanf fmt s') eqn:E; [| done]. by rewrite (IH _ _ E).
  - destruct (span_word (skip_space s)) as [u s']. destruct u; auto.
  - destruct (scan_int (conv_base k) s) as [[v s']|]; auto.
Qed.

(** The kinds of the values that a format assigns. *)
Definition val_kind (v : sval) : Z :=
  match v with VChar _ => 0 | VInt _ => 1 | VStr _ => 2 end.

Fixpoint kinds (fmt : list directive) : list Z :=
  match fmt with
  | [] => []
  | DChar :: fmt' => 0 :: kinds fmt'
  | DInt _ :: fmt' => 1 :: kinds fmt'
  | DNotSet _ _ :: fmt' => 2 :: kinds fmt'
  | _ :: fmt' => kinds fmt'
  end.

Lemma sscanf_kinds fmt s vs : sscanf fmt s = Some vs -> map val_kind vs `prefix_of` kinds fmt.
Proof.
  revert s vs. induction fmt as [|d fmt IH]; intros s vs H; [by injection H as <- |].
  destruct d; cbn [kinds sscanf] in *; repeat case_match; simplify_eq; eauto using prefix_nil.
  all: match type of H with _ <$> ?m = _ => destruct m eqn:Em; [| done] end.
  all: injection H as <-; simpl; eauto using prefix_cons.
Qed.

Lemma assign_kinds vs vars :
  map val_kind vs `prefix_of` map val_kind vars ->
  map val_kind (assign vs vars) = map val_kind vars.
Proof.
  intros [k Hk]. unfold assign. rewrite map_app, <- skipn_map, Hk.
  by rewrite <- (length_map val_kind vs), drop_app_length.
Qed.

(** A frame whose array holds kgn. *)
Definition experiment_frame : frame :=
  Frame (fun _ => NUL) NUL 0 0 0 0 0 0 0 0 0 [] (B "kgn").

(** The letter that the generator writes for a type, as [stat] prints it. *)
Definition letter_text (c : ascii) : bytes :=
  if decide (c = "b"%char) then B "block device"
  else if decide (c = "c"%char) then B "character device"
  else if decide (c = "d"%char) then B "directory"
  else if decide (c = "p"%char) then B "FIFO/pipe"
  else if decide (c = "l"%char) then B "symlink"
  else if decide (c = "f"%char) then B "regular file"
  else B "socket".

Lemma type_bits m : Z.land m 61440 = Z.shiftr (Z.land m 61440) 12 * 2 ^ 12.
Proof.
  rewrite Z.shiftr_div_pow2 by lia.
  pose proof (Z.div_mod (Z.land m 61440) (2 ^ 12) ltac:(lia)) as H.
  assert (Z.land m 61440 mod 2 ^ 12 = 0) as H0; [| lia].
  rewrite <- Z.land_ones by lia. rewrite <- Z.land_assoc. by rewrite Z.land_0_r.
Qed.

Module ToolProps.

(** bytecount, run on a catalog that pad_each_line has written, prints the
    same number for each line, the length of the longest, which is the test that
    the mount script makes. *)
Theorem bytecount_of_padded_catalog texts fopen prog name text :
  Forall plain texts ->
  fopen name = Some (pad_each_line (concat (map line_of texts))) ->
  strlen (LF :: B "ERROR:Cannot open input file for reading:" ++ text) < 256 ->
  ByteCount.main fopen (Some text) [prog; name] tt =
  Ret (replicate (length texts) (Z.of_nat (longest texts)), tt).
Proof.
  intros Hp Hf Ht. cbn [ByteCount.main].
  rewrite (bind_runs_eq _ _ _ _ _ (strcpy_fits _ _ tt Ht)), Hf.
  rewrite pad_each_line_spec, getlines_padded by done. unfold mret, M_ret. do 2 f_equal.
  rewrite map_map. pose proof (longest_bound texts) as Hb. revert Hb.
  generalize (longest texts). intros n. clear. induction 1 as [|t ts Ht Hts IH]; [done |].
  simpl. rewrite IH. f_equal. unfold strlen. by rewrite padded_length.
Qed.

Lemma bytecount_of_padded_catalog_witness :
  ByteCount.main (fun _ => Some (pad_each_line (concat (map line_of [B "a"; B "bcd"]))))
    (Some []) [B "bytecount"; B "c"] tt =
  Ret (replicate (length [B "a"; B "bcd"]) (Z.of_nat (longest [B "a"; B "bcd"])), tt).
Proof.
  apply bytecount_of_padded_catalog; [| reflexivity | reflexivity].
  repeat (constructor; [split; apply (bool_decide_unpack _); vm_compute; exact I |]).
  constructor.
Defined.

(** The experiment of helper/scanf.c is the record reader of catalogfs: on
    a link record that fits its arrays of 50 bytes it prints the depth, path and
    destination that getEntry_from_catalog returns. *)
Theorem scanf_experiment_agrees u text depth n path dest :
  f_link_dest u = B "kgn" -> hd_error text = Some "l"%char ->
  Scanf.main u text = Some (depth, n, path, dest) ->
  exists st, decode_entry u text = Some (StatWdf depth path st dest).
Proof.
  intros Hu Hl. unfold Scanf.main, decode_entry.
  destruct (sscanf Scanf.format text) as [vs|] eqn:E; [| done].
  change catalog_format with (map (widen MAXPATHLEN) Scanf.format).
  rewrite (sscanf_widen _ _ _ _ E).
  pose proof (assign_kinds vs (frame_vars u) (sscanf_kinds _ _ _ E)) as Hk.
  assert (hd_error (assign vs (frame_vars u)) = Some (VChar "l")) as Hc.
  { destruct text as [|c text]; [done |]. injection Hl as ->.
    cbn [sscanf Scanf.format] in E.
    match type of E with _ <$> ?m = _ => destruct m; [| done] end. by injection E as <-. }
  destruct (assign vs (frame_vars u)) as [|v0 l0]; [done |]. injection Hc as ->.
  do 9 (destruct l0 as [|[] l0]; try done). destruct l0 as [|[] [|? ?]]; try done.
  rewrite decide_True by done. rewrite Hu.
  destruct (strlen s <? 50) eqn:E50; [| done].
  replace (strlen s <? MAXPATHLEN) with true by (unfold MAXPATHLEN; lia).
  destruct (split_link s (B "kgn")) as [p d]. intros [= <- <- <- <-]. by eexists.
Qed.

Lemma scanf_experiment_agrees_witness :
  exists st, decode_entry experiment_frame Scanf.entry =
    Some (StatWdf 3 (B "/dir1/link file") st (B "/dir2 kkdskl")).
Proof. apply (scanf_experiment_agrees _ _ _ 11); reflexivity. Defined.

(** helper/stat.c names the type of a file as the letter of its catalog
    record does, except for the types that have no letter, which it reports as
    unknown and the generator as regular files. *)
Theorem stat_tool_agrees_with_catalog m :
  StatTool.type_text m =
  if known_type m then letter_text (type_letter m) else B "unknown?".
Proof.
  unfold StatTool.type_text, StatTool.S_IFMT, known_type, type_letter.
  rewrite type_bits, type_field. set (t := (m / 2 ^ 12) mod 16).
  assert (0 <= t < 16) as Ht by (apply Z.mod_pos_bound; lia).
  assert (t ∈ [0;1;2;3;4;5;6;7;8;9;10;11;12;13;14;15]) as Hin.
  { apply list_elem_of_In. simpl. lia. }
  clearbody t. clear Ht.
  repeat (apply elem_of_cons in Hin as [-> | Hin]; [vm_compute; reflexivity |]).
  by apply not_elem_of_nil in Hin.
Qed.

(** The experiment of helper/statfs.c reads all its fields; its format stops at a
    vertical tab, which its entries do not have, so the newline stays in the path. *)
Example statfs_experiment_path u :
  length u = 10%nat ->
  StatfsTool.main u 10 =
  Some [VChar "p"; VInt 488; VInt 1; VInt 110; VInt 120; VInt 11111; VInt 1213111162;
        VInt 1213111161; VInt 1213102161; VStr (B "/dir1/fifo file" ++ [LF])].
Proof. intros Hu. do 11 (destruct u as [|? u]; try done). Qed.

End ToolProps.
