(* ===== verification/Listing.v ===== *)
(** generate_catalog.c, [catalog_listing]: the queue loop writes exactly the lines
    of the breadth-first traversal, level by level, and frees what it allocates. *)

From S2P Require Import Prelude.
From S2P Require Import CString.
From S2P Require Import CStdio.
From S2P Require Import Entry.
From S2P Require Import Lookup.
From S2P Require Import Queue.
From S2P Require Import Generate.
From S2P Require Import Format.
From S2P Require Import Pad.

(** * The traversal as a function *)

(** A directory's entries, as [scandir] returns them. *)
Definition entries (o : os) (d : bytes) : list dirent :=
  from_option id [] (scandir o d filter).

Definition join (d name : bytes) : bytes := d ++ [SLASH] ++ name.

(** The paths written for a directory: its own, then its entries'. *)
Definition block (o : os) (d : bytes) : list bytes :=
  (d ++ [SLASH]) :: map (fun ent => join d (d_name ent)) (entries o d).

Definition subdir_entries (l : list dirent) : list dirent :=
  List.filter (fun ent => d_type ent =? DT_DIR) l.

Definition subdirs (o : os) (d : bytes) : list bytes :=
  map (fun ent => join d (d_name ent)) (subdir_entries (entries o d)).

(** The paths of the traversal from a queue; [None] when [fuel] runs out. *)
Fixpoint bfs (fuel : nat) (o : os) (q : list bytes) : option (list bytes) :=
  match fuel with
  | O => None
  | S fuel' =>
      match q with
      | [] => Some []
      | d :: q' => app (block o d) <$> bfs fuel' o (q' ++ subdirs o d)
      end
  end.

(** The attributes, link destination and catalog path of a path. *)
Definition stat_of (o : os) (p : bytes) : stat := from_option id zero_stat (lstat o p).
Definition link_of (o : os) (p : bytes) : bytes :=
  if is_link (stat_of o p) then from_option id [] (readlink o p) else [].
Definition rel (root p : bytes) : bytes := drop (length root) p.

Definition text_at (o : os) (root p : bytes) : bytes :=
  line_text (stat_of o p) (rel root p) (link_of o p).

Definition record_at (o : os) (root p : bytes) : stat_wdf :=
  record (stat_of o p) (rel root p) (link_of o p).

(** The text written for a list of paths. *)
Definition listing_text (o : os) (root : bytes) (ps : list bytes) : bytes :=
  concat (map (fun p => line_of (text_at o root p)) ps).

(** The system calls succeed on a path, and its record fits the format. *)
Definition path_ready (o : os) (root p : bytes) : Prop :=
  is_Some (lstat o p) /\
  (is_link (stat_of o p) = true -> is_Some (readlink o p)) /\
  record_ok (stat_of o p) (rel root p) (link_of o p) /\
  strlen p < MAXPATHLEN.

(** A directory is readable, or the error message about it fits. *)
Definition dir_ready (o : os) (d : bytes) : Prop :=
  is_Some (scandir o d filter) \/
  (strlen (scandir_error ++ d) < 256 /\ format_plain (scandir_error ++ d) = true).

Lemma is_link_type st :
  is_link st = (Z.shiftr (Z.land (st_mode st) 61440) 12 =? DT_LNK).
Proof.
  unfold is_link, type_letter.
  unfold DT_FIFO, DT_CHR, DT_DIR, DT_BLK, DT_REG, DT_LNK, DT_SOCK.
  set (t := Z.shiftr _ _). cbv zeta.
  repeat (match goal with |- context [if ?b then _ else _] => destruct b eqn:? end);
    try reflexivity; case_bool_decide; done || (symmetry; lia) || lia.
Qed.

(** * The queue's heap during the listing *)

(** Only the allocator's counters have changed. *)
Definition same_queue (m m' : mem) : Prop :=
  heap m' = heap m /\ brk m' = brk m /\ head m' = head m /\ tail m' = tail m.

Lemma queue_rep_same m m' l : same_queue m m' -> queue_rep m l -> queue_rep m' l.
Proof.
  intros (Hh & Hb & Hhd & Ht) (ns & H). exists ns. by rewrite Hh, Hb, Hhd, Ht.
Qed.

Lemma runs_on_mem {A} (c : M mem A) g (Q : A -> gstate -> Prop) :
  runs c (mem_of g) (fun a m => Q a (Gstate m (catalog_out g))) -> runs (on_mem c) g Q.
Proof. unfold runs, on_mem. destruct (c (mem_of g)) as [[a m]| | |]; done. Qed.

Lemma runs_malloc_plain ok (m : mem) (Q : bool -> mem -> Prop) :
  (forall n, ok n = true) ->
  Q true (Mem (heap m) (brk m) (head m) (tail m) (S (mallocs m)) (blocks m + 1)) ->
  runs (malloc_plain ok) m Q.
Proof. intros Hok HQ. unfold malloc_plain. run. by rewrite Hok. Qed.

Section Listing.
Context (o : os) (root : bytes).
Context (Hmalloc : forall n, Generate.malloc_ok o n = true) (Hroot : root <> []).

Lemma strlen_root : (strlen root =? 0) = false.
Proof. unfold strlen. destruct root; [done | simpl; lia]. Qed.

(** One record is appended; nothing stays allocated. *)
Lemma print_to_catalog_spec p g :
  path_ready o root p ->
  runs (print_to_catalog o p root) g (fun _ g' =>
    catalog_out g' = catalog_out g ++ line_of (text_at o root p) /\
    same_queue (mem_of g) (mem_of g') /\ blocks (mem_of g') = blocks (mem_of g)).
Proof.
  intros ([st Hst] & Hlink & Hok & Hlen). unfold print_to_catalog. run.
  apply runs_on_mem, runs_malloc_plain; [done |]. run.
  apply runs_on_mem, runs_malloc_plain; [done |]. run.
  apply runs_assert; [done |]. rewrite Hst. cbn [from_option id].
  assert (stat_of o p = st) as Hso by (unfold stat_of; by rewrite Hst).
  rewrite Hso in *. rewrite <- is_link_type. run.
  apply (runs_mono _ _ (fun link g1 => link = link_of o p /\
    g1 = Gstate (Mem (heap (mem_of g)) (brk (mem_of g)) (head (mem_of g)) (tail (mem_of g))
           (S (S (mallocs (mem_of g)))) (blocks (mem_of g) + 1 + 1)) (catalog_out g))).
  { unfold link_of. rewrite Hso. destruct (is_link st) eqn:El; [| by run].
    destruct (Hlink eq_refl) as [dest Hdest]. rewrite Hdest. cbn [from_option id].
    run. split; [| done].
    destruct Hok as (_ & _ & _ & _ & Hbody & _). unfold entry_body, link_of in Hbody.
    rewrite Hso, El, Hdest in Hbody. cbn [from_option id] in Hbody.
    rewrite !strlen_app in Hbody. pose proof (strlen_nonneg (rel root p)).
    unfold strlen in *. apply take_ge. simpl in Hbody. unfold MAXPATHLEN in *. lia. }
  intros link g1 [-> ->]. run. unfold print_entry_to_catalog. rewrite strlen_root.
  cbn [st_data file_path link_dest]. run. unfold fprintf. run.
  apply runs_on_mem. unfold free_plain. run. apply runs_on_mem. run. simpl.
  split_and!; [| done | lia].
  unfold Generate.findDepth. fold (rel root p). rewrite entry_line_text.
  unfold text_at. by rewrite Hso.
Qed.

Lemma join_path_spec d name g (Q : bytes -> gstate -> Prop) :
  strlen (join d name) < MAXPATHLEN -> Q (join d name) g -> runs (join_path d name) g Q.
Proof.
  unfold join. rewrite !strlen_app. change (strlen [SLASH]) with 1. intros Hlen HQ.
  pose proof (strlen_nonneg name). unfold join_path.
  apply runs_bind, runs_strcpy; [lia |]. apply runs_bind, runs_strcat.
  { change (strlen SLASHES) with 1. lia. }
  apply runs_strcat; [rewrite strlen_app; change (strlen SLASHES) with 1; lia |].
  by rewrite <- app_assoc.
Qed.

(** The state after writing [ps] with the queue [q]: as many live blocks as
    names in the queue, more than at the start by [base]. *)
Definition listed (base : Z) (ps q : list bytes) (g : gstate) : Prop :=
  catalog_out g = listing_text o root ps /\ queue_rep (mem_of g) q /\
  blocks (mem_of g) = base + Z.of_nat (length q).

Lemma listing_text_app ps ps' :
  listing_text o root (ps ++ ps') = listing_text o root ps ++ listing_text o root ps'.
Proof. unfold listing_text. by rewrite map_app, concat_app. Qed.

Lemma listing_text_one p : listing_text o root [p] = line_of (text_at o root p).
Proof. unfold listing_text. simpl. by rewrite app_nil_r. Qed.

Lemma print_listed base ps q p g :
  path_ready o root p -> listed base ps q g ->
  runs (print_to_catalog o p root) g (fun _ g' => listed base (ps ++ [p]) q g').
Proof.
  intros Hp (Ho & Hq & Hb). eapply runs_mono; [by apply print_to_catalog_spec |].
  intros [] g' (Ho' & Hs & Hb'). split_and!.
  - by rewrite Ho', Ho, listing_text_app, listing_text_one.
  - by eapply queue_rep_same.
  - lia.
Qed.

Lemma insert_listed base ps q d g :
  strlen d < MAXPATHLEN -> listed base ps q g ->
  runs (on_mem (insert_queue (Generate.malloc_ok o) d)) g
    (fun r g' => r = 0 /\ listed base ps (q ++ [d]) g').
Proof.
  intros Hd (Ho & Hq & Hb). apply runs_on_mem.
  eapply insert_queue_spec; [done | done | | intros m' Hm; by rewrite Hmalloc in Hm].
  intros m' _ _ Hq' Hb'. split; [done |]. split_and!; [done | done |].
  simpl. rewrite length_app. simpl. lia.
Qed.

Lemma list_entries_spec base d l ps q g :
  Forall (fun ent => path_ready o root (join d (d_name ent))) l ->
  listed base ps q g ->
  runs (list_entries o root d l) g (fun _ g' =>
    listed base (ps ++ map (fun ent => join d (d_name ent)) l)
      (q ++ map (fun ent => join d (d_name ent)) (subdir_entries l)) g').
Proof.
  intros Hl. revert ps q g. induction Hl as [|ent l Hent Hl IH]; intros ps q g Hg.
  { simpl. run. by rewrite !app_nil_r. }
  cbn [list_entries]. run. apply join_path_spec; [apply Hent |]. run.
  eapply runs_mono; [by apply print_listed |]. intros [] g1 Hg1. run.
  unfold subdir_entries. cbn [List.filter map].
  destruct (d_type ent =? DT_DIR).
  - run. apply join_path_spec; [apply Hent |]. run.
    eapply runs_mono; [apply (insert_listed _ _ _ _ _ (proj2 (proj2 (proj2 Hent))) Hg1) |].
    intros r g2 [_ Hg2]. run. eapply runs_mono; [by apply IH |].
    intros [] g3. by rewrite <- !app_assoc.
  - run. eapply runs_mono; [by apply IH |]. intros [] g3. by rewrite <- !app_assoc.
Qed.

Lemma list_directory_spec base d ps q g :
  Forall (path_ready o root) (block o d) -> dir_ready o d ->
  listed base ps (d :: q) g ->
  runs (list_directory o root) g (fun _ g' =>
    listed base (ps ++ block o d) (q ++ subdirs o d) g').
Proof.
  intros Hb Hd (Ho & Hq & Hbl). unfold list_directory. run. apply runs_on_mem.
  eapply remove_queue_cons; [done | apply Hmalloc |]. intros m' Hq' _ Hbl'. run.
  inversion Hb as [|? ? Hslash Hents]; subst. pose proof Hslash as (_ & _ & _ & Hlen).
  rewrite strlen_app in Hlen. change (strlen [SLASH]) with 1 in Hlen.
  apply runs_strcpy; [lia |]. run. apply runs_on_mem. unfold free_plain. run.
  apply runs_strcpy; [lia |]. run. apply runs_strcat; [done |]. run.
  eapply runs_mono.
  { apply (print_listed base ps q); [done |]. split_and!; [done | exact Hq' |].
    simpl in *. lia. }
  intros [] g1 Hg1. unfold block, subdirs, entries in *.
  destruct Hd as [[l Hl] | [Hd Hf]].
  - rewrite Hl in *. cbn [from_option id] in *. eapply runs_mono.
    + apply list_entries_spec; [| done]. by rewrite Forall_map in Hents.
    + intros [] g2. by rewrite <- app_assoc.
  - destruct (scandir o d filter) as [l|]; cbn [from_option id] in *.
    + eapply runs_mono; [apply list_entries_spec; [| done]; by rewrite Forall_map in Hents |].
      intros [] g2. by rewrite <- app_assoc.
    + run. apply runs_strcpy; [done |]. apply runs_error; [done |].
      simpl. by rewrite app_nil_r.
Qed.

Lemma listing_loop_spec fuel base ps q out g :
  bfs fuel o q = Some out -> Forall (path_ready o root) out ->
  (forall d, d ++ [SLASH] ∈ out -> dir_ready o d) ->
  listed base ps q g ->
  runs (listing_loop fuel o root) g (fun _ g' => listed base (ps ++ out) [] g').
Proof.
  revert ps q out g. induction fuel as [|fuel IH]; intros ps q out g Hbfs Hr Hd Hg; [done |].
  cbn [bfs listing_loop] in *. run. pose proof Hg as (_ & (ns & Hc & _) & _).
  destruct q as [|d q].
  - destruct ns; [| done]. simpl in Hc. rewrite Hc. injection Hbfs as <-.
    run. by rewrite app_nil_r.
  - destruct ns as [|a ns]; [done |]. destruct Hc as [-> _].
    destruct (bfs fuel o (q ++ subdirs o d)) as [out'|] eqn:E; [| done].
    cbn [fmap option_fmap option_map] in Hbfs. injection Hbfs as <-.
    apply (Forall_app _ (block o d) out') in Hr as [Hr1 Hr2]. run. eapply runs_mono.
    { apply list_directory_spec; [done | | done]. apply Hd. by apply list_elem_of_here. }
    intros [] g1 Hg1. eapply runs_mono; [apply (IH _ _ _ _ E Hr2 ltac:(set_solver) Hg1) |].
    intros [] g2. by rewrite <- app_assoc.
Qed.

Lemma catalog_listing_spec fuel out g :
  bfs fuel o [root] = Some out -> Forall (path_ready o root) out ->
  (forall d, d ++ [SLASH] ∈ out -> dir_ready o d) ->
  strlen root < MAXPATHLEN -> catalog_out g = [] ->
  runs (catalog_listing fuel o root) g (fun r g' =>
    r = 0 /\ catalog_out g' = listing_text o root out /\
    queue_rep (mem_of g') [] /\ blocks (mem_of g') = blocks (mem_of g)).
Proof.
  intros Hbfs Hr Hd Hlen Hout. unfold catalog_listing. run. apply runs_on_mem.
  apply init_queue_spec. intros m' Hq Hb. run.
  apply runs_strcpy; [done |]. run. eapply runs_mono.
  { apply (insert_listed (blocks (mem_of g)) [] []); [done |].
    split_and!; [done | done |]. simpl. lia. }
  intros r g1 [_ Hg1]. run. eapply runs_mono; [by eapply listing_loop_spec |].
  intros [] g2 (Ho & Hq2 & Hb2). run. split_and!; [done .. |]. simpl in Hb2. lia.
Qed.
End Listing.
