(* ===== verification/Order.v ===== *)
(** The order of the generated catalog: the breadth-first listing is sorted by
    depth and path, as the search needs, as long as sibling directories keep
    their order when a slash is appended to their names. *)

From S2P Require Import Prelude.
From S2P Require Import CString.
From S2P Require Import CStdio.
From S2P Require Import Entry.
From S2P Require Import Lookup.
From S2P Require Import Queue.
From S2P Require Import Generate.
From S2P Require Import Format.
From S2P Require Import Pad.
From S2P Require Import Listing.

(** * The traversal by levels *)

Definition next_level (o : os) (ds : list bytes) : list bytes :=
  concat (map (subdirs o) ds).

(** The paths written for the directories [ds] and [h - 1] levels below. *)
Fixpoint level_paths (h : nat) (o : os) (ds : list bytes) : list bytes :=
  match h with
  | O => []
  | S h' => concat (map (block o) ds) ++ level_paths h' o (next_level o ds)
  end.

(** One more than the number of directories. *)
Fixpoint level_fuel (h : nat) (o : os) (ds : list bytes) : nat :=
  match h with
  | O => 1
  | S h' => (length ds + level_fuel h' o (next_level o ds))%nat
  end.

(** No directory is more than [h - 1] levels below [ds]. *)
Fixpoint height_le (h : nat) (o : os) (ds : list bytes) : Prop :=
  match h with
  | O => ds = []
  | S h' => height_le h' o (next_level o ds)
  end.

Lemma bfs_app o n q1 q2 :
  bfs (length q1 + n) o (q1 ++ q2) =
  app (concat (map (block o) q1)) <$> bfs n o (q2 ++ concat (map (subdirs o) q1)).
Proof.
  revert q2. induction q1 as [|d q1 IH]; intros q2; simpl.
  - rewrite app_nil_r. by destruct (bfs n o q2).
  - rewrite <- app_assoc, IH, <- app_assoc.
    destruct (bfs n o _); simpl; [| done]. by rewrite <- app_assoc.
Qed.

(** The queue traversal ends on a finite tree, and visits it level by level. *)
Lemma bfs_levels o h ds :
  height_le h o ds -> bfs (level_fuel h o ds) o ds = Some (level_paths h o ds).
Proof.
  revert ds. induction h as [|h IH]; intros ds Hh; simpl in *; [by subst |].
  pose proof (bfs_app o (level_fuel h o (next_level o ds)) ds []) as H.
  rewrite app_nil_r in H. simpl in H. fold (next_level o ds) in H. by rewrite H, IH.
Qed.

(** * Slashes *)

Lemma count_slashes_app a b : count_slashes (a ++ b) = count_slashes a + count_slashes b.
Proof. induction a as [|c a IH]; simpl; [done |]. rewrite IH. lia. Qed.

Lemma count_slashes_none s : SLASH ∉ s -> count_slashes s = 0.
Proof.
  induction s as [|c s IH]; simpl; [done |]. rewrite not_elem_of_cons.
  intros [Hc Hs]. rewrite decide_False by congruence. by rewrite IH.
Qed.

(** Two directories of the same depth are not inside one another. *)
Lemma same_depth_prefix a b :
  count_slashes a = count_slashes b -> a ++ [SLASH] `prefix_of` b ++ [SLASH] -> a = b.
Proof.
  intros Hc [k Hk]. destruct k as [|c k _] using rev_ind.
  - rewrite app_nil_r in Hk. by apply app_inj_tail in Hk as [-> _].
  - rewrite app_assoc in Hk. apply app_inj_tail in Hk as [-> ->].
    rewrite !count_slashes_app in Hc. simpl in Hc.
    pose proof (count_slashes_nonneg k). lia.
Qed.

Lemma two_prefixes a b s :
  count_slashes a = count_slashes b ->
  a ++ [SLASH] `prefix_of` s -> b ++ [SLASH] `prefix_of` s -> a = b.
Proof.
  intros Hc Ha Hb. destruct (prefix_weak_total _ _ _ Ha Hb).
  - by apply same_depth_prefix.
  - symmetry. by apply same_depth_prefix.
Qed.

(** What lies in the earlier of two such directories comes first. *)
Lemma dirs_separate a b x y :
  count_slashes a = count_slashes b -> bytes_lt (a ++ [SLASH]) (b ++ [SLASH]) ->
  bytes_lt ((a ++ [SLASH]) ++ x) ((b ++ [SLASH]) ++ y).
Proof.
  intros Hc Hlt. apply bytes_lt_extend; [done |]. intros Hp.
  apply same_depth_prefix in Hp as ->; [| done]. by apply bytes_lt_irrefl in Hlt.
Qed.

(** * Conditions on the tree *)

Definition slash_lt (n1 n2 : bytes) : Prop := bytes_lt (n1 ++ [SLASH]) (n2 ++ [SLASH]).

(** The names of a directory are distinct file names, and its subdirectories
    are in the same order with a slash after their names. *)
Definition names_ok (o : os) (d : bytes) : Prop :=
  Forall (fun ent => (SLASH ∉ d_name ent) /\ d_name ent <> []) (entries o d) /\
  NoDup (map d_name (entries o d)) /\
  StronglySorted slash_lt (map d_name (subdir_entries (entries o d))).

(** ... which holds of every directory of the tree. *)
Fixpoint tree_names_ok (h : nat) (o : os) (ds : list bytes) : Prop :=
  match h with
  | O => True
  | S h' => Forall (names_ok o) ds /\ tree_names_ok h' o (next_level o ds)
  end.

#[global] Instance alphasort_trans : Transitive alphasort.
Proof. intros x y z. unfold alphasort. apply bytes_le_trans. Qed.

#[global] Instance alphasort_total : Total alphasort.
Proof. intros x y. apply bytes_le_total. Qed.

Lemma entries_sorted o d :
  NoDup (map d_name (entries o d)) -> StronglySorted bytes_lt (map d_name (entries o d)).
Proof.
  unfold entries, scandir. destruct (readdir o d) as [l|]; simpl; [| constructor].
  set (l' := List.filter _ l). intros Hnd.
  assert (StronglySorted bytes_le (map d_name (merge_sort alphasort l'))) as Hs.
  { apply sorted_map. apply (StronglySorted_merge_sort alphasort); apply _. }
  revert Hnd Hs. generalize (map d_name (merge_sort alphasort l')). clear.
  induction l as [|n l IH]; [constructor |].
  rewrite NoDup_cons, !StronglySorted_cons. intros [Hn Hnd] [Hall Hs]. split; [| auto].
  rewrite Forall_forall in Hall |- *. intros m Hm. specialize (Hall m Hm).
  apply bytes_le_lteq in Hall as [? | ->]; done.
Qed.

Section Order.
Context (o : os) (root : bytes).

(** [d] is the directory at relative path [r], [k] levels below the root. *)
Definition dir_at (k : Z) (r d : bytes) : Prop :=
  d = root ++ r /\ count_slashes r = k /\ (r = [] \/ exists r', r = SLASH :: r').

Definition level_ok (k : Z) (ds : list bytes) : Prop :=
  Forall (fun d => exists r, dir_at k r d) ds /\
  StronglySorted (fun d1 d2 => slash_lt (rel root d1) (rel root d2)) ds.

Lemma rel_root r : rel root (root ++ r) = r.
Proof. unfold rel. by rewrite drop_app_length. Qed.

Lemma rel_join r n : rel root (join (root ++ r) n) = (r ++ [SLASH]) ++ n.
Proof. unfold join. by rewrite <- app_assoc, rel_root, <- app_assoc. Qed.

Definition path_lt (p1 p2 : bytes) : Prop := bytes_lt (rel root p1) (rel root p2).

(** The paths of a directory's block extend its own path. *)
Lemma block_prefix k r d p :
  dir_at k r d -> p ∈ block o d -> exists x, rel root p = (r ++ [SLASH]) ++ x.
Proof.
  intros (-> & _ & _) Hp. unfold block in Hp. apply elem_of_cons in Hp as [-> | Hp].
  - exists []. by rewrite <- app_assoc, rel_root, app_nil_r.
  - apply list_elem_of_In, in_map_iff in Hp as (ent & <- & _).
    exists (d_name ent). apply rel_join.
Qed.

Lemma slash_head r x :
  r = [] \/ (exists r', r = SLASH :: r') -> exists y, (r ++ [SLASH]) ++ x = SLASH :: y.
Proof. intros [-> | [r' ->]]; simpl; eauto. Qed.

Lemma findDepth_slash s : Lookup.findDepth (SLASH :: s) = count_slashes (SLASH :: s).
Proof. done. Qed.

Lemma block_depth k r d p :
  dir_at k r d -> names_ok o d -> p ∈ block o d ->
  Lookup.findDepth (rel root p) = k + 1.
Proof.
  intros Hd (Hn & _) Hp. pose proof Hd as (-> & Hk & Hr).
  unfold block in Hp. apply elem_of_cons in Hp as [-> | Hp].
  - rewrite <- app_assoc, rel_root.
    destruct (slash_head r [] Hr) as [y Hy]. rewrite app_nil_r in Hy.
    rewrite Hy, findDepth_slash, <- Hy, count_slashes_app, Hk. done.
  - apply list_elem_of_In, in_map_iff in Hp as (ent & <- & Hin).
    rewrite Forall_forall in Hn. apply list_elem_of_In in Hin.
    destruct (Hn _ Hin) as [Hs _]. rewrite rel_join.
    destruct (slash_head r (d_name ent) Hr) as [y Hy].
    rewrite Hy, findDepth_slash, <- Hy, !count_slashes_app, Hk.
    rewrite (count_slashes_none (d_name ent)) by done. simpl. lia.
Qed.

Lemma block_sorted k r d :
  dir_at k r d -> names_ok o d -> StronglySorted path_lt (block o d).
Proof.
  intros (-> & _ & _) (Hn & Hnd & _). unfold block.
  rewrite StronglySorted_cons. split.
  - rewrite Forall_map. eapply Forall_impl; [exact Hn |]. intros ent [_ Hne].
    unfold path_lt. rewrite rel_join, <- app_assoc, rel_root.
    destruct (d_name ent) as [|c n]; [done |]. apply bytes_lt_prefix.
  - apply sorted_map. pose proof (entries_sorted _ _ Hnd) as Hs. apply (sorted_map bytes_lt d_name) in Hs.
    eapply (sorted_mono _ _ (fun _ => True)); [| by apply Forall_true | exact Hs].
    intros e1 e2 _ _ Hlt. unfold path_lt. rewrite !rel_join. by apply bytes_lt_app_l.
Qed.

Lemma blocks_separate k r1 d1 r2 d2 p1 p2 :
  dir_at k r1 d1 -> dir_at k r2 d2 -> slash_lt (rel root d1) (rel root d2) ->
  p1 ∈ block o d1 -> p2 ∈ block o d2 -> path_lt p1 p2.
Proof.
  intros Hd1 Hd2 Hlt Hp1 Hp2.
  destruct (block_prefix _ _ _ _ Hd1 Hp1) as [x Hx].
  destruct (block_prefix _ _ _ _ Hd2 Hp2) as [y Hy].
  destruct Hd1 as (-> & Hk1 & _), Hd2 as (-> & Hk2 & _). rewrite !rel_root in Hlt.
  unfold path_lt. rewrite Hx, Hy. apply dirs_separate; [congruence | done].
Qed.

Lemma level_blocks_sorted k ds :
  level_ok k ds -> Forall (names_ok o) ds ->
  StronglySorted path_lt (concat (map (block o) ds)) /\
  Forall (fun p => Lookup.findDepth (rel root p) = k + 1) (concat (map (block o) ds)).
Proof.
  intros [Hds Hs] Hn. split.
  - apply sorted_concat.
    + rewrite Forall_map. rewrite Forall_forall in Hds, Hn |- *. intros d Hd.
      destruct (Hds d Hd) as [r Hr]. eapply block_sorted; eauto.
    + apply sorted_map. eapply sorted_mono; [| exact Hds | exact Hs].
      intros d1 d2 [r1 H1] [r2 H2] Hlt p1 p2. by eapply blocks_separate.
  - apply Forall_concat_map. rewrite Forall_forall in Hds, Hn |- *. intros d Hd.
    destruct (Hds d Hd) as [r Hr]. apply Forall_forall. intros p.
    eapply block_depth; eauto.
Qed.

Lemma subdirs_sorted r :
  names_ok o (root ++ r) ->
  StronglySorted (fun d1 d2 => slash_lt (rel root d1) (rel root d2))
    (subdirs o (root ++ r)).
Proof.
  intros (_ & _ & Hs). unfold subdirs. apply sorted_map. apply (sorted_map slash_lt d_name) in Hs.
  eapply (sorted_mono _ _ (fun _ => True)); [| by apply Forall_true | exact Hs].
  intros e1 e2 _ _ Hlt. unfold slash_lt in *. rewrite !rel_join, <- !app_assoc.
  apply bytes_lt_app_l, bytes_lt_app_l. done.
Qed.

Lemma subdir_at k r d d' :
  dir_at k r d -> names_ok o d -> d' ∈ subdirs o d ->
  exists n, (SLASH ∉ n) /\ d' = join d n /\ dir_at (k + 1) ((r ++ [SLASH]) ++ n) d'.
Proof.
  intros (-> & Hk & Hr) (Hn & _) Hd'. unfold subdirs in Hd'.
  apply list_elem_of_In, in_map_iff in Hd' as (ent & <- & Hin).
  apply filter_In in Hin as [Hin _]. apply list_elem_of_In in Hin.
  rewrite Forall_forall in Hn. destruct (Hn _ Hin) as [Hs _].
  exists (d_name ent). split; [done |]. split; [done |]. split_and!.
  - unfold join. by rewrite <- !app_assoc.
  - rewrite !count_slashes_app, Hk, (count_slashes_none (d_name ent)) by done. simpl. lia.
  - right. apply slash_head. done.
Qed.

Lemma next_level_ok k ds :
  level_ok k ds -> Forall (names_ok o) ds -> level_ok (k + 1) (next_level o ds).
Proof.
  intros [Hds Hs] Hn. unfold next_level. split.
  - apply Forall_concat_map. rewrite Forall_forall in Hds, Hn |- *. intros d Hd.
    destruct (Hds d Hd) as [r Hr]. apply Forall_forall. intros d' Hd'.
    destruct (subdir_at _ _ _ _ Hr (Hn _ Hd) Hd') as (n & _ & _ & H). eauto.
  - apply sorted_concat.
    + rewrite Forall_map. rewrite Forall_forall in Hds, Hn |- *. intros d Hd.
      destruct (Hds d Hd) as (r & -> & _). by apply subdirs_sorted, Hn.
    + apply sorted_map.
      eapply (sorted_mono _ _ (fun d => (exists r, dir_at k r d) /\ names_ok o d)); [| | exact Hs].
      2:{ apply Forall_and. done. }
      intros d1 d2 [[r1 H1] Hn1] [[r2 H2] Hn2] Hlt p1 p2 Hp1 Hp2.
      destruct (subdir_at _ _ _ _ H1 Hn1 Hp1) as (n1 & _ & -> & _).
      destruct (subdir_at _ _ _ _ H2 Hn2 Hp2) as (n2 & _ & -> & _).
      destruct H1 as (-> & Hk1 & _), H2 as (-> & Hk2 & _). rewrite !rel_root in Hlt.
      unfold slash_lt. rewrite !rel_join, <- !(app_assoc (_ ++ [SLASH])).
      apply dirs_separate; [congruence | done].
Qed.

(** The records of the listing, in the order of the search. *)
Definition record_lt (p1 p2 : bytes) : Prop :=
  key_lt (record_at o root p1) (record_at o root p2).

Lemma level_paths_sorted h k ds :
  0 <= k -> level_ok k ds -> tree_names_ok h o ds ->
  StronglySorted record_lt (level_paths h o ds) /\
  Forall (fun p => k + 1 <= Lookup.findDepth (rel root p)) (level_paths h o ds).
Proof.
  revert k ds. induction h as [|h IH]; intros k ds Hk Hl Hn; simpl; [split; constructor |].
  destruct Hn as [Hn Hn']. destruct (level_blocks_sorted k ds Hl Hn) as [Hs Hd].
  destruct (IH (k + 1) _ ltac:(lia) (next_level_ok _ _ Hl Hn) Hn') as [Hs' Hd'].
  split.
  - apply StronglySorted_app_2; [| | done].
    + intros p1 p2 H1 H2. rewrite Forall_forall in Hd, Hd'.
      left. cbn [depth record_at record]. specialize (Hd _ H1). specialize (Hd' _ H2). lia.
    + eapply sorted_mono; [| exact Hd | exact Hs].
      intros p1 p2 H1 H2 Hlt. right. simpl in *. split; [congruence | done].
  - apply Forall_app. split; [eapply Forall_impl; [exact Hd |]; simpl; lia |].
    eapply Forall_impl; [exact Hd' |]. simpl. lia.
Qed.

Lemma root_level_ok : level_ok 0 [root].
Proof.
  split; [| repeat constructor]. constructor; [| constructor].
  exists []. split; [by rewrite app_nil_r |]. split; [done | by left].
Qed.

(** The catalog of a tree is sorted for the search. *)
Lemma listing_catalog_sorted h :
  tree_names_ok h o [root] ->
  catalog_sorted (map (record_at o root) (level_paths h o [root])).
Proof.
  intros Hn. destruct (level_paths_sorted h 0 [root] ltac:(lia) root_level_ok Hn) as [Hs Hd].
  split; [by apply sorted_map |]. rewrite Forall_map.
  eapply Forall_impl; [exact Hd |]. intros p Hp. cbv beta in Hp.
  split; [done |]. cbn [depth record_at record]. lia.
Qed.
End Order.

(** * The directories of a listing *)

(** The directories visited from [ds], level by level. *)
Fixpoint level_dirs (h : nat) (o : os) (ds : list bytes) : list bytes :=
  match h with
  | O => []
  | S h' => ds ++ level_dirs h' o (next_level o ds)
  end.

Lemma level_paths_dirs h o ds :
  level_paths h o ds = concat (map (block o) (level_dirs h o ds)).
Proof.
  revert ds. induction h as [|h IH]; intros ds; simpl; [done |].
  by rewrite map_app, concat_app, IH.
Qed.

Lemma level_dirs_ok o root h k ds :
  level_ok root k ds -> tree_names_ok h o ds ->
  Forall (fun d => (exists k r, dir_at root k r d) /\ names_ok o d) (level_dirs h o ds).
Proof.
  revert k ds. induction h as [|h IH]; intros k ds Hl Hn; simpl; [constructor |].
  destruct Hn as [Hn Hn']. apply Forall_app. split.
  - destruct Hl as [Hds _]. rewrite Forall_forall in Hds, Hn |- *. intros d Hd. eauto.
  - eapply IH; [by apply next_level_ok | done].
Qed.

(** The fuel of the traversal: one more than the directories visited, or more. *)
Lemma level_fuel_dirs h o ds : level_fuel h o ds = S (length (level_dirs h o ds)).
Proof.
  revert ds. induction h as [|h IH]; intros ds; cbn [level_fuel level_dirs]; [done |].
  rewrite IH, length_app. lia.
Qed.

Lemma bfs_more n m o q out : bfs n o q = Some out -> (n <= m)%nat -> bfs m o q = Some out.
Proof.
  revert m q out. induction n as [|n IH]; intros m q out E Hm; [done |].
  destruct m as [|m]; [lia |]. cbn [bfs] in *. destruct q as [|d q]; [done |].
  destruct (bfs n o (q ++ subdirs o d)) as [out'|] eqn:E'; [| done].
  by rewrite (IH m _ _ E') by lia.
Qed.

(** The directories below [root] that the traversal can reach. *)
Inductive reached (o : os) (root : bytes) : bytes -> Prop :=
| reached_root : reached o root root
| reached_sub d d' : reached o root d -> d' ∈ subdirs o d -> reached o root d'.

Lemma next_level_elem o ds d : d ∈ next_level o ds <-> exists d0, d0 ∈ ds /\ d ∈ subdirs o d0.
Proof.
  unfold next_level. rewrite list_elem_of_In, in_concat. split.
  - intros (l & Hl & Hd). apply in_map_iff in Hl as (d0 & <- & Hd0).
    exists d0. by rewrite !list_elem_of_In.
  - intros (d0 & Hd0 & Hd). rewrite list_elem_of_In in Hd0, Hd.
    exists (subdirs o d0). split; [by apply in_map | done].
Qed.

(** Every level below a finite tree is within the directories visited. *)
Lemma level_dirs_closed h o ds :
  height_le h o ds -> forall d d', d ∈ level_dirs h o ds -> d' ∈ subdirs o d ->
  d' ∈ level_dirs h o ds.
Proof.
  revert ds. induction h as [|h IH]; intros ds Hh d d' Hd Hs; simpl in *; [set_solver |].
  apply elem_of_app in Hd as [Hd | Hd]; apply elem_of_app; right.
  - assert (d' ∈ next_level o ds) as Hn by (apply next_level_elem; eauto).
    destruct h as [|h]; simpl in *; [rewrite Hh in Hn; set_solver | set_solver].
  - eauto.
Qed.

Lemma level_dirs_reached h o root ds d :
  Forall (reached o root) ds -> d ∈ level_dirs h o ds -> reached o root d.
Proof.
  revert ds. induction h as [|h IH]; intros ds Hds Hd; simpl in *; [set_solver |].
  apply elem_of_app in Hd as [Hd | Hd]; [by apply (proj1 (Forall_forall _ _) Hds) |].
  eapply IH; [| exact Hd]. apply Forall_forall. intros d' Hd'.
  apply next_level_elem in Hd' as (d0 & H0 & Hs).
  eapply reached_sub; [by apply (proj1 (Forall_forall _ _) Hds) | done].
Qed.

(** On a finite tree they are the directories visited. *)
Lemma level_dirs_iff h o root d :
  height_le h o [root] -> d ∈ level_dirs h o [root] <-> reached o root d.
Proof.
  intros Hh. split; [apply level_dirs_reached; repeat constructor |].
  induction 1 as [| d d' _ IH Hs].
  - destruct h; [done |]. by apply list_elem_of_here.
  - by eapply level_dirs_closed.
Qed.

Lemma block_elem o d p :
  p ∈ block o d <-> p = d ++ [SLASH] \/ exists ent, ent ∈ entries o d /\ p = join d (d_name ent).
Proof.
  unfold block. rewrite elem_of_cons, (list_elem_of_In (map _ _)), in_map_iff.
  by setoid_rewrite list_elem_of_In; firstorder.
Qed.

Lemma level_paths_elem h o root p :
  height_le h o [root] ->
  p ∈ level_paths h o [root] <-> exists d, reached o root d /\ p ∈ block o d.
Proof.
  intros Hh. rewrite level_paths_dirs, list_elem_of_In, in_concat. split.
  - intros (l & Hl & Hp). apply in_map_iff in Hl as (d & <- & Hd).
    exists d. rewrite <- (level_dirs_iff h) by done. by rewrite !list_elem_of_In.
  - intros (d & Hd & Hp). rewrite <- (level_dirs_iff h) in Hd by done.
    rewrite list_elem_of_In in Hd, Hp. exists (block o d). split; [by apply in_map | done].
Qed.

(** * Names and their order with a slash appended *)

(** What an earlier name and a later one look like. *)
Lemma bytes_lt_cases a b :
  bytes_lt a b ->
  (exists c k, b = a ++ c :: k) \/
  (exists p c d x y, a = p ++ c :: x /\ b = p ++ d :: y /\ code c < code d).
Proof.
  revert b. induction a as [|c a IH]; intros [|d b] Hlt; try done; [left; eauto |].
  destruct (decide (c = d)) as [->|Hne].
  - pose proof (proj1 (bytes_lt_app_l [d] a b) Hlt) as Hlt'. destruct (IH _ Hlt') as [(e & k & ->) | H].
    + left. by exists e, k.
    + right. destruct H as (p & e & f & x & y & -> & -> & H).
      by exists (d :: p), e, f, x, y.
  - right. exists [], c, d, a, b. split_and!; [done .. |]. by eapply bytes_lt_head.
Qed.

Lemma slash_lt_extension a c k :
  c <> SLASH -> slash_lt a (a ++ c :: k) <-> 47 < code c.
Proof.
  intros Hc. unfold slash_lt. rewrite <- app_assoc, bytes_lt_app_l.
  change (code SLASH) with 47 in *. split.
  - intros H. apply bytes_lt_head in H; [done | congruence].
  - intros H. apply bytes_lt_code. exact H.
Qed.

(** Appending a slash keeps the order of two file names, unless the later one is
    the earlier one followed by a byte below the slash. *)
Lemma slash_lt_iff a b :
  (SLASH ∉ b) -> bytes_lt a b ->
  slash_lt a b <-> ~ exists c k, b = a ++ c :: k /\ code c < 47.
Proof.
  intros Hb Hlt. destruct (bytes_lt_cases _ _ Hlt) as [(c & k & ->) | H].
  - assert (c <> SLASH) as Hc by set_solver. rewrite slash_lt_extension by done.
    assert (code c <> 47) by (intros E; apply Hc, code_inj; exact E).
    split.
    + intros Hlt47 (c' & k' & E & ?). apply app_inv_head in E. simplify_eq. lia.
    + intros Hn. destruct (decide (code c < 47)); [exfalso; eauto | lia].
  - destruct H as (p & c & d & x & y & -> & -> & H). split.
    + intros _ (e & k & E & _). rewrite <- app_assoc in E. apply app_inv_head in E.
      injection E as -> _. lia.
    + intros _. unfold slash_lt. rewrite <- !app_assoc, bytes_lt_app_l.
      by apply bytes_lt_code.
Qed.

(** The subdirectories of a directory keep their order exactly when no name is
    another one followed by a byte below the slash. *)
Lemma subdirs_order o d :
  Forall (fun ent => SLASH ∉ d_name ent) (entries o d) -> NoDup (map d_name (entries o d)) ->
  let names := map d_name (subdir_entries (entries o d)) in
  StronglySorted slash_lt names <->
  forall a b, a ∈ names -> b ∈ names -> ~ exists c k, b = a ++ c :: k /\ code c < 47.
Proof.
  intros Hsl Hnd names.
  assert (StronglySorted bytes_lt names) as Hs.
  { unfold names, subdir_entries. pose proof (entries_sorted o d Hnd) as H.
    apply (sorted_map bytes_lt d_name) in H.
    by apply sorted_map, sorted_list_filter. }
  assert (Forall (fun n => SLASH ∉ n) names) as Hsl'.
  { unfold names, subdir_entries. rewrite Forall_map. apply Forall_forall. intros e He.
    apply list_elem_of_In, filter_In in He as [He _]. apply list_elem_of_In in He.
    by apply (proj1 (Forall_forall _ _) Hsl). }
  rewrite Forall_forall in Hsl'. split.
  - intros Ht a b Ha Hb (c & k & -> & Hc).
    assert (bytes_lt a (a ++ c :: k)) as Hlt by apply bytes_lt_prefix.
    apply (slash_lt_iff a (a ++ c :: k)); [by apply Hsl' | done | | by exists c, k].
    apply (sorted_transfer bytes_lt slash_lt names); try done.
    + intros x. apply bytes_lt_irrefl.
    + intros x y. apply bytes_lt_not_gt.
  - intros Hno. apply (sorted_mono bytes_lt _ (fun n => n ∈ names)); [| by apply Forall_forall | done].
    intros a b Ha Hb Hlt. apply slash_lt_iff; auto.
Qed.

(** * What sortedness asks of the names *)

(** The names of a directory are distinct file names. *)
Definition names_distinct (o : os) (d : bytes) : Prop :=
  Forall (fun ent => (SLASH ∉ d_name ent) /\ d_name ent <> []) (entries o d) /\
  NoDup (map d_name (entries o d)).

Lemma tree_names_forall h o ds :
  tree_names_ok h o ds <-> Forall (names_ok o) (level_dirs h o ds).
Proof.
  revert ds. induction h as [|h IH]; intros ds; cbn [tree_names_ok level_dirs]; [by split; constructor |].
  by rewrite Forall_app, IH.
Qed.

Lemma first_lines_sublist o ds :
  map (fun d => d ++ [SLASH]) ds `sublist_of` concat (map (block o) ds).
Proof.
  induction ds as [|d ds IH]; [constructor |]. cbn [map concat]. unfold block at 1.
  apply sublist_skip. by apply sublist_inserts_l.
Qed.

Lemma subdirs_sublist o ds d : d ∈ ds -> subdirs o d `sublist_of` next_level o ds.
Proof.
  unfold next_level. induction 1; cbn [map concat]; [by apply sublist_inserts_r | by apply sublist_inserts_l].
Qed.

(** The own lines of the subdirectories of a directory are in the listing, in their
    order in the directory. *)
Lemma subdir_lines_sublist h o ds d :
  height_le h o ds -> d ∈ level_dirs h o ds ->
  map (fun d' => d' ++ [SLASH]) (subdirs o d) `sublist_of` level_paths h o ds.
Proof.
  revert ds. induction h as [|h IH]; intros ds Hh Hd; cbn [level_dirs level_paths height_le] in *; [set_solver |].
  apply sublist_inserts_l. apply elem_of_app in Hd as [Hd | Hd]; [| by apply IH].
  etrans; [apply (sublist_map (fun d' => d' ++ [SLASH])), (subdirs_sublist o ds d Hd) |].
  destruct h as [|h]; cbn [height_le level_paths] in *; [rewrite Hh; constructor |].
  apply sublist_inserts_r, first_lines_sublist.
Qed.

Lemma reached_below o root d :
  reached o root d -> exists r, d = root ++ r /\ (r = [] \/ exists r', r = SLASH :: r').
Proof.
  induction 1 as [| d d' _ (r & -> & H) Hs].
  { exists []. split; [by rewrite app_nil_r | by left]. }
  unfold subdirs in Hs. apply list_elem_of_In, in_map_iff in Hs as (ent & <- & _).
  exists ((r ++ [SLASH]) ++ d_name ent). split; [unfold join; by rewrite <- !app_assoc |].
  right. destruct r as [|c r]; [by eexists |]. destruct H as [| [r' [= -> ->]]]; [done |]. by eexists.
Qed.

(** In a sorted listing the subdirectories of each directory keep their order with a
    slash after their names. *)
Lemma listing_sorted_names o root h d :
  height_le h o [root] -> reached o root d -> names_distinct o d ->
  StronglySorted key_lt (map (record_at o root) (level_paths h o [root])) ->
  StronglySorted slash_lt (map d_name (subdir_entries (entries o d))).
Proof.
  intros Hh Hd [Hn _] Hs. apply (proj1 (sorted_map key_lt (record_at o root) _)) in Hs.
  destruct (reached_below o root d Hd) as (r & -> & Hr). apply (level_dirs_iff h) in Hd; [| done].
  pose proof (sorted_sublist _ _ _ (subdir_lines_sublist h o _ _ Hh Hd) Hs) as H.
  unfold subdirs in H. rewrite map_map in H. apply (proj1 (sorted_map _ (fun ent => join (root ++ r) (d_name ent) ++ [SLASH]) _)) in H.
  apply sorted_map. eapply (sorted_mono _ _ (fun ent => SLASH ∉ d_name ent)); [| | exact H].
  2:{ apply Forall_forall. intros ent Hin. unfold subdir_entries in Hin.
      apply list_elem_of_In, filter_In in Hin as [Hin _]. apply list_elem_of_In in Hin.
      by apply (proj1 (Forall_forall _ _) Hn). }
  assert (forall n, rel root (join (root ++ r) n ++ [SLASH]) = (r ++ [SLASH]) ++ n ++ [SLASH]) as Hrel.
  { intros n. unfold join. by rewrite <- !app_assoc, rel_root. }
  assert (forall n, (SLASH ∉ n) ->
    Lookup.findDepth (rel root (join (root ++ r) n ++ [SLASH])) = count_slashes r + 2) as Hdep.
  { intros n Hsl. rewrite Hrel. destruct (slash_head r (n ++ [SLASH]) Hr) as [y Hy].
    rewrite Hy, findDepth_slash, <- Hy, !count_slashes_app, (count_slashes_none n) by done. simpl. lia. }
  intros e1 e2 H1 H2 [Hlt | [_ Hlt]]; cbn [depth file_path record_at record] in Hlt.
  - rewrite !Hdep in Hlt by done. lia.
  - rewrite !Hrel in Hlt. by apply bytes_lt_app_l in Hlt.
Qed.

(** The listing of a tree with distinct names is sorted exactly when no subdirectory has
    the name of a sibling followed by a byte below the slash. *)
Lemma listing_sorted_iff o root h :
  height_le h o [root] -> (forall d, reached o root d -> names_distinct o d) ->
  catalog_sorted (map (record_at o root) (level_paths h o [root])) <->
  forall d, reached o root d -> let names := map d_name (subdir_entries (entries o d)) in
    forall a b, a ∈ names -> b ∈ names -> ~ exists c k, b = a ++ c :: k /\ code c < 47.
Proof.
  intros Hh Hn.
  assert (forall d, reached o root d -> let names := map d_name (subdir_entries (entries o d)) in
    StronglySorted slash_lt names <->
    forall a b, a ∈ names -> b ∈ names -> ~ exists c k, b = a ++ c :: k /\ code c < 47) as Hiff.
  { intros d Hd. destruct (Hn d Hd) as [Hsl Hnd]. apply subdirs_order; [| done].
    eapply Forall_impl; [exact Hsl |]. by intros ent []. }
  split.
  - intros [Hs _] d Hd. apply Hiff; [done |]. by eapply listing_sorted_names; [done | done | apply Hn |].
  - intros Ho. apply listing_catalog_sorted, tree_names_forall, Forall_forall.
    intros d Hd. apply level_dirs_iff in Hd; [| done]. destruct (Hn d Hd) as [Hsl Hnd].
    split; [done |]. split; [done |]. by apply Hiff, Ho.
Qed.
