(* ===== verification/Mount.v ===== *)
(** From a directory to a mounted catalog: the file that generate_catalog.c
    writes, mounted with the parameters that catalogfsmount computes, is a sorted
    catalog whose records are those of the tree. *)

From S2P Require Import Prelude.
From S2P Require Import CString.
From S2P Require Import CStdio.
From S2P Require Import Entry.
From S2P Require Import Lookup.
From S2P Require Import CatalogFS.
From S2P Require Import Queue.
From S2P Require Import Generate.
From S2P Require Import Format.
From S2P Require Import Pad.
From S2P Require Import Listing.
From S2P Require Import Order.

(** * The bytes of a line *)

Definition line_char (c : ascii) : Prop := c <> NUL /\ c <> LF.

Lemma line_char_code c : 11 <= code c -> line_char c.
Proof.
  intros Hc. split; intros ->;
    [change (code NUL) with 0 in Hc | change (code LF) with 10 in Hc]; lia.
Qed.

Lemma show_chars s : Forall (fun c => 45 <= code c < 58) s -> Forall line_char s.
Proof. intros H. eapply Forall_impl; [exact H |]. intros c Hc. cbv beta in Hc. apply line_char_code. lia. Qed.

Lemma type_letter_char m : line_char (type_letter m).
Proof.
  unfold type_letter. cbv zeta.
  repeat case_match; apply line_char_code; by compute.
Qed.

Lemma prefix_chars c mode st d :
  line_char c -> Forall line_char (entry_prefix c mode st d).
Proof.
  intros Hc. assert (Forall line_char space) as Hsp.
  { constructor; [| constructor]. apply line_char_code. by compute. }
  assert (Forall line_char [SOH]) as Hsoh by (apply Forall_singleton; done).
  assert (Forall line_char [c]) as Hc' by by apply Forall_singleton.
  unfold entry_prefix. rewrite !Forall_app.
  split_and!; try done;
    first [apply show_chars, show_dec_chars | apply show_chars, show_oct_chars].
Qed.

Lemma line_text_plain st path link :
  record_ok st path link -> plain (line_text st path link).
Proof.
  intros Hok. unfold plain, nul_free, line_text. rewrite !not_elem_of_app.
  assert (forall c, c = NUL \/ c = LF -> c ∉ entry_prefix (type_letter (st_mode st))
    (Z.land (st_mode st) 4095) st (Lookup.findDepth path)) as Hpre.
  { intros c Hc Hin. pose proof (prefix_chars (type_letter (st_mode st))
      (Z.land (st_mode st) 4095) st (Lookup.findDepth path) (type_letter_char _)) as H.
    rewrite Forall_forall in H. destruct (H c Hin). naive_solver. }
  split_and!; try (apply Hpre; auto); try (apply (body_chars _ _ _ _ Hok); set_solver);
    unfold NUL, LF, SOH; set_solver.
Qed.

Lemma texts_at_plain o root ps :
  Forall (path_ready o root) ps -> Forall plain (map (text_at o root) ps).
Proof.
  rewrite Forall_map. intros H. eapply Forall_impl; [exact H |].
  intros p (_ & _ & Hok & _). by apply line_text_plain.
Qed.

Lemma getlines_listing o root ps :
  Forall (path_ready o root) ps ->
  getlines (listing_text o root ps) = map (fun p => line_of (text_at o root p)) ps.
Proof.
  intros H. unfold listing_text. rewrite <- (map_map (text_at o root) line_of).
  by apply getlines_lines, texts_at_plain.
Qed.

(** * Mounting *)

(** The parameters that catalogfsmount means to pass: every line of the file has
    [entry_size] bytes, and [catalog_len] is their number. *)
Definition mounts (e : env) (file : bytes) : Prop :=
  source e = Readable file /\
  Forall (fun line => strlen line = entry_size e) (getlines file) /\
  catalog_len e = Z.of_nat (length (getlines file)).

(** The mount is within the limits of catalogfs: [errormsg] holds the name, the
    offsets fit an [int], there is memory, and the arrays of a returned call are found as
    they were left until another function is called; after a [printf] they need not be. *)
Definition mount_fits (e : env) (file : bytes) : Prop :=
  strlen (open_error ++ catalogFile e) < 256 /\ strlen file < 2 ^ 31 /\
  (forall n, Entry.malloc_ok e n = true) /\ (forall n p, dead_stack e n p = p).

(** A tree below [root], of at most [h] levels, that generate_catalog can list: there is
    memory, the system calls succeed, and what they answer fits the records. *)
Record listable_tree (o : os) (root : bytes) (h : nat) : Prop := {
  listable_memory : forall n, Generate.malloc_ok o n = true;
  listable_root : root <> [] /\ strlen root < MAXPATHLEN;
  listable_height : height_le h o [root];
  listable_paths : Forall (path_ready o root) (level_paths h o [root]);
  listable_dirs : forall d, d ++ [SLASH] ∈ level_paths h o [root] -> dir_ready o d }.

(** The listing of such a tree, with fuel for all its directories. *)
Lemma list_tree o root h fuel g :
  listable_tree o root h -> (length (level_dirs h o [root]) < fuel)%nat -> catalog_out g = [] ->
  runs (catalog_listing fuel o root) g (fun r g' =>
    r = 0 /\ catalog_out g' = listing_text o root (level_paths h o [root]) /\
    blocks (mem_of g') = blocks (mem_of g)).
Proof.
  intros [Hm [Hr Hl] Hh Hp Hd] Hf Hg. eapply runs_mono.
  { apply (catalog_listing_spec o root Hm Hr fuel (level_paths h o [root])); [| done .. ].
    eapply bfs_more; [by apply bfs_levels |]. rewrite level_fuel_dirs. lia. }
  intros r g' (-> & Ho & _ & Hb). done.
Qed.

(** The lines of the padded file decode to the records of the paths. *)
Lemma listed_lines_decode o root ps :
  Forall (path_ready o root) ps ->
  Forall2 (fun line w => forall u, decode_entry u line = Some w)
    (getlines (pad_each_line (listing_text o root ps))) (map (record_at o root) ps).
Proof.
  intros Hp. unfold listing_text. rewrite <- (map_map (text_at o root) line_of).
  rewrite pad_each_line_spec, getlines_padded by by apply texts_at_plain.
  rewrite map_map. apply Forall2_fmap, Forall_Forall2_diag.
  eapply Forall_impl; [exact Hp |]. intros p (_ & _ & Hok & _) u.
  exact (decode_record u _ _ _ _ Hok).
Qed.

(** A tree below [root], of at most [h] levels, that can be catalogued. *)
Record good_tree (o : os) (root : bytes) (h : nat) : Prop := {
  tree_memory : forall n, Generate.malloc_ok o n = true;
  tree_root : root <> [] /\ strlen root < MAXPATHLEN;
  tree_height : height_le h o [root];
  tree_names : tree_names_ok h o [root];
  tree_paths : Forall (path_ready o root) (level_paths h o [root]);
  tree_dirs : forall d, d ++ [SLASH] ∈ level_paths h o [root] -> dir_ready o d }.

Lemma good_listable o root h : good_tree o root h -> listable_tree o root h.
Proof. by intros []. Qed.

(** The paths catalogued, in the order of the file, and their records. *)
Definition tree_listing (o : os) (root : bytes) (h : nat) : list bytes :=
  level_paths h o [root].
Definition tree_records (o : os) (root : bytes) (h : nat) : list stat_wdf :=
  map (record_at o root) (tree_listing o root h).

Section Tree.
Context {o : os} {root : bytes} {h : nat} (Htree : good_tree o root h).

Let texts : list bytes := map (text_at o root) (tree_listing o root h).

Lemma texts_plain : Forall plain texts.
Proof. apply texts_at_plain, Htree. Qed.

Lemma listing_text_lines :
  listing_text o root (tree_listing o root h) = concat (map line_of texts).
Proof. unfold listing_text, texts. by rewrite map_map. Qed.

(** The file that is renamed to the catalog. *)
Definition tree_file : bytes := pad_each_line (listing_text o root (tree_listing o root h)).

Lemma tree_file_padded : tree_file = concat (map (padded (longest texts)) texts).
Proof.
  unfold tree_file. rewrite listing_text_lines. apply pad_each_line_spec, texts_plain.
Qed.

Lemma getlines_tree_file : getlines tree_file = map (padded (longest texts)) texts.
Proof.
  rewrite tree_file_padded. apply getlines_padded, texts_plain.
Qed.

Lemma tree_lines_encode :
  Forall2 (encodes (longest texts)) (map (padded (longest texts)) texts)
    (tree_records o root h).
Proof.
  unfold tree_records, texts. rewrite map_map.
  apply Forall2_fmap. apply Forall_Forall2_diag.
  pose proof (longest_bound texts) as Hb. unfold texts in Hb at 2.
  rewrite Forall_map in Hb. pose proof (tree_paths _ _ _ Htree) as Hp.
  fold (tree_listing o root h) in Hp. rewrite Forall_forall in Hb, Hp |- *.
  intros p Hin. destruct (Hp p Hin) as (_ & _ & Hok & _). split_and!.
  - by apply padded_length, Hb.
  - by apply padded_nul_free, line_text_plain.
  - intros u. unfold padded. exact (decode_record u _ _ _ _ Hok).
  - destruct Hok as (_ & _ & _ & _ & Hlen & _). simpl. eapply Z.le_lt_trans; [| exact Hlen].
    unfold entry_body. destruct (is_link _); [| lia]. rewrite !strlen_app.
    pose proof (strlen_nonneg [STX]). pose proof (strlen_nonneg (link_of o p)). lia.
Qed.

Lemma tree_records_sorted : catalog_sorted (tree_records o root h).
Proof. apply listing_catalog_sorted, Htree. Qed.

Lemma tree_nonempty : h <> O.
Proof. intros ->. by pose proof (tree_height _ _ _ Htree). Qed.

(** The interface of the search holds of the mounted file. *)
Lemma tree_view e :
  mounts e tree_file -> mount_fits e tree_file -> CatalogView e (tree_records o root h).
Proof.
  intros (Hsrc & Hsize & Hlen) (Hname & Hfile & Hm & Hdead).
  assert (length (tree_records o root h) = length texts) as Hl
    by (unfold tree_records, texts; by rewrite !length_map).
  assert (entry_size e = Z.of_nat (longest texts)) as Hes.
  { rewrite getlines_tree_file in Hsize. pose proof tree_nonempty as Hne.
    assert (texts <> []) as Htx.
    { unfold texts, tree_listing. destruct h; [done |]. done. }
    pose proof (longest_bound texts) as Hb. destruct texts as [|t ts]; [done |].
    inversion Hsize as [|? ? H1 _]; inversion Hb; subst. rewrite <- H1.
    unfold strlen. by rewrite padded_length. }
  eapply (catalog_view_of_lines e (map (padded (longest texts)) texts)); [| done | | done | | done | done |].
  - by rewrite Hsrc, tree_file_padded.
  - by rewrite Hlen, getlines_tree_file, length_map, Hl.
  - unfold strlen in Hfile. rewrite tree_file_padded in Hfile.
    rewrite (length_concat_uniform _ (longest texts)) in Hfile by apply padded_lengths.
    rewrite length_map in Hfile. rewrite Hl. lia.
  - apply tree_lines_encode.
Qed.

Lemma tree_file_count e :
  mount_fits e tree_file -> Z.of_nat (length (tree_records o root h)) < 2 ^ 31.
Proof.
  intros (_ & Hfile & _). rewrite tree_file_padded in Hfile. unfold strlen in Hfile.
  rewrite (length_concat_uniform _ (longest texts)) in Hfile by apply padded_lengths.
  rewrite length_map in Hfile.
  assert (length (tree_records o root h) = length texts) as ->
    by (unfold tree_records, texts; by rewrite !length_map).
  pose proof (longest_bound texts) as Hb. destruct texts as [|t ts]; [simpl; lia |].
  inversion Hb; subst. nia.
Qed.

Lemma tree_lookup p :
  p ∈ tree_listing o root h ->
  lookup_path (tree_records o root h) (rel root p) = Some (record_at o root p).
Proof.
  intros Hp. apply list_elem_of_lookup in Hp as [i Hi].
  apply (lookup_path_Some _ (Z.of_nat i) (record_at o root p)); [apply tree_records_sorted |].
  rewrite zlookup_lookup, Nat2Z.id by lia. unfold tree_records.
  change (map (record_at o root) (tree_listing o root h))
    with (record_at o root <$> tree_listing o root h).
  by rewrite list_lookup_fmap, Hi.
Qed.

Lemma lookup_path_tree q :
  (exists p, p ∈ tree_listing o root h /\ rel root p = q /\
     lookup_path (tree_records o root h) q = Some (record_at o root p)) \/
  ((forall p, p ∈ tree_listing o root h -> rel root p <> q) /\
     lookup_path (tree_records o root h) q = None).
Proof.
  destruct (decide (Exists (fun p => rel root p = q) (tree_listing o root h))) as [He | Hn].
  - left. apply Exists_exists in He as (p & Hp & <-). exists p. split_and!; [done .. |].
    by apply tree_lookup.
  - right. assert (forall p, p ∈ tree_listing o root h -> rel root p <> q) as Hne.
    { intros p Hp E. apply Hn, Exists_exists. eauto. }
    split; [done |]. apply lookup_path_None. intros i w Hi.
    pose proof (zlookup_Some _ _ _ Hi). rewrite zlookup_lookup in Hi by lia.
    apply list_elem_of_lookup_2 in Hi. unfold tree_records in Hi.
    apply list_elem_of_In, in_map_iff in Hi as (p & <- & Hp).
    apply Hne. by apply list_elem_of_In.
Qed.

Lemma tree_path_ready p : p ∈ tree_listing o root h -> path_ready o root p.
Proof. intros Hp. by apply (proj1 (Forall_forall _ _) (tree_paths _ _ _ Htree)). Qed.

Lemma tree_stat p :
  p ∈ tree_listing o root h -> exists st, lstat o p = Some st /\ stat_of o p = st.
Proof.
  intros Hp. destruct (tree_path_ready p Hp) as ([st Hst] & _).
  exists st. unfold stat_of. by rewrite Hst.
Qed.

Lemma tree_link_nul_free p : p ∈ tree_listing o root h -> nul_free (link_of o p).
Proof.
  intros Hp. destruct (tree_path_ready p Hp) as (_ & _ & (_ & _ & _ & Hl & _) & _).
  apply (not_in_text _ _ _ Hl). set_solver.
Qed.

(** ** The records of a directory *)

Lemma tree_dir d :
  reached o root d -> (exists k r, dir_at root k r d) /\ names_ok o d.
Proof.
  intros Hd. apply (level_dirs_iff h) in Hd; [| apply Htree].
  pose proof (level_dirs_ok o root h 0 [root] (root_level_ok root) (tree_names _ _ _ Htree)) as H.
  rewrite Forall_forall in H. by apply H.
Qed.

Lemma tree_listing_elem p :
  p ∈ tree_listing o root h <-> exists d, reached o root d /\ p ∈ block o d.
Proof. apply level_paths_elem, Htree. Qed.
(** The paths of the listing that lie in a directory are those of its entries. *)
Lemma listed_in_block d p :
  reached o root d -> p ∈ tree_listing o root h ->
  listed_in (rel root (d ++ [SLASH])) (record_at o root p) <-> p ∈ block o d.
Proof.
  intros Hd Hp. apply tree_listing_elem in Hp as (d' & Hd' & Hp').
  destruct (tree_dir d Hd) as [(k & r & Hat) Hn].
  destruct (tree_dir d' Hd') as [(k' & r' & Hat') Hn'].
  assert (rel root (d ++ [SLASH]) = r ++ [SLASH]) as Hslash.
  { destruct Hat as (-> & _). by rewrite <- app_assoc, rel_root. }
  assert (Lookup.findDepth (r ++ [SLASH]) = k + 1) as Hdep.
  { rewrite <- Hslash. eapply block_depth; [done | done |]. apply list_elem_of_here. }
  unfold listed_in. cbn [depth file_path record_at record]. rewrite Hslash, Hdep. split.
  - intros [Hk Hpre]. rewrite (block_depth o root k' r' d' p Hat' Hn' Hp') in Hk.
    destruct (block_prefix o root k' r' d' p Hat' Hp') as [x Hx].
    assert (r = r') as <-.
    { apply (two_prefixes _ _ (rel root p)); [| done | by exists x].
      destruct Hat as (_ & Hc & _), Hat' as (_ & Hc' & _). lia. }
    destruct Hat as (-> & _), Hat' as (-> & _). done.
  - intros Hp. rewrite (block_depth o root k r d p Hat Hn Hp). split; [done |].
    destruct (block_prefix o root k r d p Hat Hp) as [x Hx]. by exists x.
Qed.

(** What a directory of the mounted tree shows. *)
Lemma tree_dir_records d :
  reached o root d ->
  dir_records (tree_records o root h) (rel root (d ++ [SLASH])) =
  map (fun ent => record_at o root (join d (d_name ent))) (entries o d).
Proof.
  intros Hd. destruct (tree_dir d Hd) as [(k & r & Hat) Hn].
  pose proof (block_sorted o root k r d Hat Hn) as Hs.
  apply (sorted_ext key_lt).
  - intros w [? | [_ H]]; [lia | by apply bytes_lt_irrefl in H].
  - intros v w [? | [? H1]] [? | [? H2]]; try lia. by apply (bytes_lt_not_gt _ _ H1).
  - apply sorted_filter, tree_records_sorted.
  - unfold block in Hs. apply StronglySorted_cons in Hs as [_ Hs].
    rewrite <- (map_map (fun ent => join d (d_name ent)) (record_at o root)).
    apply sorted_map. eapply (sorted_mono _ _ (fun p => p ∈ block o d)); [| | exact Hs].
    + intros p q Hp Hq Hlt. right. cbn [depth file_path record_at record]. split; [| done].
      by rewrite (block_depth o root k r d p), (block_depth o root k r d q).
    + apply Forall_forall. intros p Hp. by apply list_elem_of_further.
  - intros w. unfold dir_records, tree_records. rewrite list_elem_of_filter.
    rewrite !list_elem_of_In, !in_map_iff. split.
    + intros [[Hin Hne] (p & <- & Hp)]. apply list_elem_of_In in Hp.
      apply (listed_in_block d p Hd Hp) in Hin. unfold block in Hin.
      apply elem_of_cons in Hin as [-> | Hin]; [done |].
      apply list_elem_of_In, in_map_iff in Hin as (ent & <- & Hent). by exists ent.
    + intros (ent & <- & Hent).
      assert (join d (d_name ent) ∈ block o d) as Hb.
      { apply list_elem_of_further, list_elem_of_In, in_map_iff. by exists ent. }
      assert (join d (d_name ent) ∈ tree_listing o root h) as Hl
        by (apply tree_listing_elem; eauto).
      split; [split |].
      * by apply listed_in_block.
      * unfold block in Hs. apply StronglySorted_cons in Hs as [Hs _].
        rewrite Forall_forall in Hs. intros E. cbn [file_path record_at record] in E.
        assert (path_lt root (d ++ [SLASH]) (join d (d_name ent))) as Hlt
          by (apply Hs, list_elem_of_In, in_map_iff; by exists ent).
        unfold path_lt in Hlt. rewrite E in Hlt. by apply bytes_lt_irrefl in Hlt.
      * exists (join d (d_name ent)). by rewrite <- list_elem_of_In.
Qed.

Lemma tree_entry d ent :
  reached o root d -> ent ∈ entries o d ->
  dir_entry (record_at o root (join d (d_name ent))) =
  (d_name ent, served_stat (stat_of o (join d (d_name ent)))).
Proof.
  intros Hd Hent. destruct (tree_dir d Hd) as [(k & r & -> & _) (Hn & _)].
  destruct (proj1 (Forall_forall _ _) Hn ent Hent) as [Hs _].
  unfold dir_entry. cbn [file_path st_data record_at record]. f_equal.
  rewrite rel_join, <- app_assoc. by apply basename_app.
Qed.

(** The whole generator, under a name that fits its buffers. *)
Lemma generate_listing g :
  catalog_out g = [] ->
  runs (catalog_listing (level_fuel h o [root]) o root) g (fun r g' =>
    r = 0 /\ pad_each_line (catalog_out g') = tree_file /\
    blocks (mem_of g') = blocks (mem_of g)).
Proof.
  intros Hg. destruct (tree_root _ _ _ Htree) as [Hr Hl].
  eapply runs_mono.
  { apply (catalog_listing_spec o root (tree_memory _ _ _ Htree) Hr _ (tree_listing o root h));
      [apply bfs_levels, Htree | apply Htree | apply Htree | done | done]. }
  intros r g' (-> & Ho & _ & Hb). split; [done |]. split; [| done]. by rewrite Ho.
Qed.
End Tree.

(** A directory of the tree, served from the file. *)
Lemma tree_readdir {F} (filler : fill_dir F) o root h e d path path_cap buf s :
  good_tree o root h -> reached o root d ->
  slash_path path = rel root (d ++ [SLASH]) ->
  (path = B "/" \/ strlen path + 1 < path_cap) ->
  mounts e (tree_file (o := o) (root := root) (h := h)) ->
  mount_fits e (tree_file (o := o) (root := root) (h := h)) ->
  let start := fst (filler (fst (filler buf (B ".") None)) (B "..") None) in
  runs (catalog_readdir filler e path_cap path buf) s (fun r _ =>
    fst r = (0, feed filler start
      (map (fun ent => (d_name ent, served_stat (stat_of o (join d (d_name ent)))))
           (entries o d)))).
Proof.
  intros Ht Hd Hpath Hcap Hm Hf. pose proof (tree_view Ht e Hm Hf) as Hv. cbv zeta.
  eapply runs_mono.
  { by apply (catalog_readdir_spec (tree_records_sorted Ht) (tree_file_count Ht e Hf)). }
  intros r s' [_ ->]. rewrite Hpath, (tree_lookup Ht), (tree_dir_records Ht d Hd).
  - cbn [fst]. do 2 f_equal. rewrite map_map. apply map_ext_in. intros en Hen.
    apply list_elem_of_In in Hen. by apply (tree_entry Ht).
  - apply (tree_listing_elem Ht). exists d. split; [done |]. apply list_elem_of_here.
Qed.

(** The destination of a link, served from the file. *)
Lemma tree_readlink o root h e q buf size s :
  good_tree o root h -> 0 < size < 2 ^ 64 -> strlen buf = size ->
  mounts e (tree_file (o := o) (root := root) (h := h)) ->
  mount_fits e (tree_file (o := o) (root := root) (h := h)) ->
  runs (catalog_readlink e q buf size) s (fun r _ =>
    (exists p n, p ∈ tree_listing o root h /\ rel root p = q /\
       r = (0, link_buffer (printf_leaves e n (link_of o p)) buf size) /\
       (printf_leaves e n (link_of o p) = link_of o p -> strlen (link_of o p) + 1 < size ->
        cstr (snd r) = link_of o p)) \/
    ((forall p, p ∈ tree_listing o root h -> rel root p <> q) /\ r = (- ENOENT, buf))).
Proof.
  intros Ht Hsize Hbuf Hm Hf. pose proof (tree_view Ht e Hm Hf) as Hv. eapply runs_mono.
  { by apply (catalog_readlink_spec (tree_records_sorted Ht) (tree_file_count Ht e Hf)). }
  intros r s' [_ Hr]. destruct (lookup_path_tree Ht q) as [(p & Hp & <- & Hl) | [Hn Hl]];
    rewrite Hl in Hr; [left | by right].
  destruct Hr as [n ->]. cbn [link_dest record_at record].
  replace (if is_link (stat_of o p) then link_of o p else []) with (link_of o p)
    by (unfold link_of; by destruct (is_link _)).
  exists p, n. split_and!; [done .. |]. intros -> Hlen. cbn [snd].
  pose proof (strlen_nonneg (link_of o p)). rewrite <- (app_nil_r (link_buffer _ _ _)).
  destruct (link_buffer_facts (link_of o p) buf size Hsize Hbuf) as (_ & Hcopy & _).
  apply Hcopy; [by apply (tree_link_nul_free Ht) | lia].
Qed.

(** The attributes of a path, served from the file. *)
Lemma tree_getattr o root h e q s :
  good_tree o root h ->
  mounts e (tree_file (o := o) (root := root) (h := h)) ->
  mount_fits e (tree_file (o := o) (root := root) (h := h)) ->
  runs (catalog_getattr e q) s (fun r _ =>
    (exists p st, p ∈ tree_listing o root h /\ rel root p = q /\ lstat o p = Some st /\
       r = (0, served_stat st)) \/
    ((forall p, p ∈ tree_listing o root h -> rel root p <> q) /\ r = (- ENOENT, zero_stat))).
Proof.
  intros Ht Hm Hf. pose proof (tree_view Ht e Hm Hf) as Hv. unfold catalog_getattr.
  eapply runs_mono.
  { apply (getattr_by_path_spec (tree_records_sorted Ht) (tree_file_count Ht e Hf)). }
  intros res s' [_ ->]. destruct (lookup_path_tree Ht q) as [(p & Hp & <- & Hl) | [Hn Hl]];
    rewrite Hl; [left | by right].
  destruct (tree_stat Ht p Hp) as (st & Hst & Hso). exists p, st. split_and!; try done.
  cbn [st_data record_at record]. by rewrite Hso.
Qed.
