(* ===== verification/SampleTree.v ===== *)
(** Two concrete trees: one on which the theorems about the generator are
    evaluated, and one whose directories [a] and [a b] change order when a slash
    is appended to their names. *)

From S2P Require Import Prelude.
From S2P Require Import CString.
From S2P Require Import CStdio.
From S2P Require Import Entry.
From S2P Require Import Lookup.
From S2P Require Import CatalogFS.
From S2P Require Import Sample.
From S2P Require Import Queue.
From S2P Require Import Generate.
From S2P Require Import Format.
From S2P Require Import Pad.
From S2P Require Import Listing.
From S2P Require Import Order.
From S2P Require Import Mount.

Definition ent (name : string) (d_type : Z) : dirent := Dirent (B name) d_type.

(** [/t] with a file [b], a link [l] and a directory [a] that holds a file [x]. *)
Definition sample_readdir (p : bytes) : option (list dirent) :=
  if decide (p = B "/t") then
    Some [ent "." 4; ent "b" 8; ent ".." 4; ent "l" 10; ent "a" 4]
  else if decide (p = B "/t/a") then Some [ent "x" 8; ent "." 4; ent ".." 4]
  else None.

Definition sample_lstat (p : bytes) : option stat :=
  if decide (p ∈ [B "/t/"; B "/t/a"; B "/t/a/"]) then Some sample_dir
  else if decide (p = B "/t/b") then Some sample_file
  else if decide (p = B "/t/l") then Some sample_link
  else if decide (p = B "/t/a/x") then Some sample_private
  else None.

Definition sample_os : os :=
  Os sample_lstat (fun p => if decide (p = B "/t/l") then Some (B "../x") else None)
     sample_readdir (fun _ => true) (fun _ => zero_stat).

Definition sample_gstate : gstate := Gstate (Mem ∅ 0 None None 0 0) [].

(** What is decided by evaluation. *)
Definition path_ready_bool (o : os) (root p : bytes) : bool :=
  bool_decide (is_Some (lstat o p)) &&
  (negb (is_link (stat_of o p)) || bool_decide (is_Some (readlink o p))) &&
  bool_decide (record_ok (stat_of o p) (rel root p) (link_of o p)) &&
  (strlen p <? MAXPATHLEN).

Lemma path_ready_check o root l :
  forallb (path_ready_bool o root) l = true -> Forall (path_ready o root) l.
Proof.
  intros H. apply Forall_forall. intros p Hp. rewrite forallb_forall in H.
  apply list_elem_of_In, H in Hp. unfold path_ready_bool in Hp.
  apply andb_prop in Hp as [Hp Hlen]. apply andb_prop in Hp as [Hp Hok].
  apply andb_prop in Hp as [Hst Hlink].
  split_and!; [by apply bool_decide_eq_true in Hst | | by apply bool_decide_eq_true in Hok | lia].
  intros Hl. rewrite Hl in Hlink. by apply bool_decide_eq_true in Hlink.
Qed.

(** Every path that ends in a slash names a readable directory. *)
Definition readable_bool (o : os) (p : bytes) : bool :=
  bool_decide (last p <> Some SLASH) ||
  bool_decide (is_Some (scandir o (take (length p - 1) p) filter)).

Lemma scandir_check o l d :
  forallb (readable_bool o) l = true -> d ++ [SLASH] ∈ l -> is_Some (scandir o d filter).
Proof.
  intros H Hd. rewrite forallb_forall in H. apply list_elem_of_In, H in Hd.
  unfold readable_bool in Hd. rewrite last_snoc, length_app in Hd. simpl in Hd.
  replace (length d + 1 - 1)%nat with (length d) in Hd by lia.
  rewrite take_app_length in Hd.
  by apply bool_decide_eq_true in Hd.
Qed.

#[global] Instance names_ok_dec o d : Decision (names_ok o d).
Proof. unfold names_ok. apply _. Defined.

#[global] Instance tree_names_ok_dec h o ds : Decision (tree_names_ok h o ds).
Proof. revert ds. induction h as [|h IH]; intros ds; simpl; apply _. Defined.

Lemma sample_tree : good_tree sample_os (B "/t") 2.
Proof.
  split; [done | done | reflexivity | | by apply path_ready_check | ].
  - apply (bool_decide_unpack _). vm_compute. exact I.
  - intros d Hd. left. apply (scandir_check _ (level_paths 2 sample_os (B "/t" :: nil))).
    + vm_compute. reflexivity.
    + exact Hd.
Qed.

(** The mount of the file that is written for the sample tree. *)
Definition env_of_file (file : bytes) : env :=
  Env (B "/tmp/c") (strlen (hd [] (getlines file))) (Z.of_nat (length (getlines file)))
      (Readable file) (fun _ => true) (fun _ => sample_frame) 0 (fun _ s => s) (fun _ s => s).

Definition sample_tree_file : bytes := tree_file (o := sample_os) (root := B "/t") (h := 2).

Lemma sample_mounts : mounts (env_of_file sample_tree_file) sample_tree_file.
Proof.
  split; [done |]. split; [| done]. apply (bool_decide_unpack _). vm_compute. exact I.
Qed.

Lemma sample_mount_fits : mount_fits (env_of_file sample_tree_file) sample_tree_file.
Proof. split_and!; vm_compute; done. Qed.

(** [/t] with the directories [a], that holds [x], and [a b], that holds [y]. *)
Definition clash_readdir (p : bytes) : option (list dirent) :=
  if decide (p = B "/t") then Some [ent "a" 4; ent "a b" 4; ent "b" 4]
  else if decide (p = B "/t/a") then Some [ent "x" 8]
  else if decide (p = B "/t/a b") then Some [ent "y" 8]
  else Some [].

Definition clash_lstat (p : bytes) : option stat :=
  if decide (p ∈ [B "/t/a/x"; B "/t/a b/y"]) then Some sample_file else Some sample_dir.

Definition clash_os : os :=
  Os clash_lstat (fun _ => None) clash_readdir (fun _ => true) (fun _ => zero_stat).
