(* ===== verification/GeneratorProps.v ===== *)
(** The properties of generate_catalog, alone and followed by a mount of the file
    it writes. *)

From S2P Require Import Prelude.
From S2P Require Import CString.
From S2P Require Import CStdio.
From S2P Require Import Entry.
From S2P Require Import Lookup.
From S2P Require Import CatalogFS.
From S2P Require Import Sample.
From S2P Require Import Queue.
From S2P Require Import Generate.
From S2P Require Import Format.
From S2P Require Import Pad.
From S2P Require Import Listing.
From S2P Require Import Order.
From S2P Require Import Mount.
From S2P Require Import SampleTree.

(** * Definitions used by the statements *)

(** An operation on the queue; [Remove] on an empty queue returns NULL. *)
Inductive qop := Insert (name : bytes) | Remove.

Fixpoint run_ops (ok : nat -> bool) (ops : list qop) : M mem (list (option bytes)) :=
  match ops with
  | [] => mret []
  | Insert d :: ops' => _ ← insert_queue ok d; run_ops ok ops'
  | Remove :: ops' => r ← remove_queue ok; rs ← run_ops ok ops'; mret (r :: rs)
  end.

(** The same operations on a list: the results, and what is left. *)
Fixpoint fifo (ops : list qop) (q : list bytes) : list (option bytes) * list bytes :=
  match ops with
  | [] => ([], q)
  | Insert d :: ops' => fifo ops' (q ++ [d])
  | Remove :: ops' => let '(rs, q') := fifo ops' (drop 1 q) in (hd_error q :: rs, q')
  end.

Definition ops_fit (ops : list qop) : Prop :=
  Forall (fun op => match op with Insert d => strlen d < MAXPATHLEN | Remove => True end) ops.

Definition sample_ops : list qop := [Insert (B "a"); Insert (B "b"); Remove; Remove; Remove].

(** The texts that [sprintf] writes to [errormsg] on a successful run fit. *)
Definition messages_fit (root cat : bytes) : Prop :=
  strlen (LF :: B "ERROR:Cannot get statistics of the directory:" ++ root) < 256 /\
  strlen (LF :: B "ERROR:Cannot open catalog file for writing:" ++ cat) < 256 /\
  strlen (LF :: B "ERROR:Cannot rename file:" ++ (cat ++ B ".temp") ++ B " to file:" ++ cat) < 256.

Definition sample_gen_env : gen_env :=
  GenEnv sample_os (fun p => st_mode <$> sample_lstat (p ++ [SLASH])) (fun _ => true) true.

(** * The queue *)

Lemma run_ops_spec ok ops q m :
  (forall n, ok n = true) -> ops_fit ops -> queue_rep m q ->
  runs (run_ops ok ops) m (fun rs m' =>
    rs = fst (fifo ops q) /\ queue_rep m' (snd (fifo ops q)) /\
    blocks m' - Z.of_nat (length (snd (fifo ops q))) - Z.of_nat (length rs) =
    blocks m - Z.of_nat (length q)).
Proof.
  intros Hok Hf. revert q m. induction Hf as [|op ops Hop Hf IH]; intros q m Hq.
  { simpl. run. simpl. split_and!; [done | done | lia]. }
  destruct op as [d|]; cbn [run_ops fifo]; apply runs_bind.
  - eapply insert_queue_spec; [done | done | | intros m' Hm; by rewrite Hok in Hm].
    intros m' _ _ Hq' Hb. eapply runs_mono; [by apply IH |].
    intros rs m'' (? & ? & Hb'). split_and!; [done .. |].
    rewrite length_app in Hb'. simpl in Hb'. lia.
  - destruct q as [|d q].
    + apply remove_queue_nil; [done |]. intros m' Hq' _ Hb. run.
      eapply runs_mono; [by apply (IH []) |]. intros rs m'' (Hrs & Hr & Hb'). run.
      cbn [drop hd_error]. destruct (fifo ops []) as [rs' q']. simpl in *.
      rewrite Hok in Hb. split_and!; [congruence | done |]. lia.
    + eapply remove_queue_cons; [done | apply Hok |]. intros m' Hq' _ Hb. run.
      eapply runs_mono; [by apply (IH q) |]. intros rs m'' (Hrs & Hr & Hb'). run.
      cbn [drop hd_error]. rewrite skipn_O. destruct (fifo ops q) as [rs' q']. simpl in *.
      split_and!; [congruence | done | lia].
Qed.

(** The linked-list queue implements a first-in first-out list: any
    sequence of insertions and removals returns what the same operations on a
    list return, and the live blocks are the nodes still queued and one block
    per call of remove_queue: the name returned, or the block lost when the
    queue was empty. *)
Theorem queue_is_fifo ok ops m :
  (forall n, ok n = true) -> ops_fit ops ->
  runs (_ ← init_queue; run_ops ok ops) m (fun rs m' =>
    rs = fst (fifo ops []) /\ queue_rep m' (snd (fifo ops [])) /\
    blocks m' = blocks m + Z.of_nat (length (snd (fifo ops []))) + Z.of_nat (length rs)).
Proof.
  intros Hok Hf. apply runs_bind, init_queue_spec. intros m0 Hq Hb.
  eapply runs_mono; [by apply (run_ops_spec ok ops []) |].
  intros rs m' (Hrs & Hq' & Hb'). simplify_eq. simpl in Hb'. split_and!; [done | done | lia].
Qed.

Lemma queue_is_fifo_witness :
  runs (_ ← init_queue; run_ops (fun _ => true) sample_ops) (Mem ∅ 0 None None 0 0)
    (fun rs m' => rs = fst (fifo sample_ops []) /\ queue_rep m' (snd (fifo sample_ops [])) /\
       blocks m' = blocks (Mem ∅ 0 None None 0 0) +
         Z.of_nat (length (snd (fifo sample_ops []))) + Z.of_nat (length rs)).
Proof.
  apply (queue_is_fifo (fun _ => true) sample_ops); [done |].
  repeat (constructor; [done |]). constructor.
Defined.

(** * Padding *)

(** pad_each_line writes, for every line, the same text followed by \1
    bytes up to the length of the longest line, so that all the lines it writes
    have that length and are read back one by one. *)
Theorem pad_each_line_uniform texts :
  Forall plain texts ->
  exists lines, pad_each_line (concat (map line_of texts)) = concat lines /\
    getlines (concat lines) = lines /\
    Forall2 (fun text line =>
      length line = longest texts /\
      line = line_of (text ++ replicate (longest texts - S (length text)) SOH)) texts lines /\
    (texts <> [] -> exists text, text ∈ texts /\ longest texts = S (length text)).
Proof.
  intros Hp. exists (map (padded (longest texts)) texts).
  rewrite pad_each_line_spec by done. split_and!; [done | | |].
  - by apply getlines_padded.
  - apply Forall2_fmap_r, Forall_Forall2_diag. eapply Forall_impl; [apply longest_bound |].
    intros t Ht. cbv beta in Ht. split; [by apply padded_length | by apply padded_as_line].
  - intros Hne. destruct (max_line_spec (map line_of texts)) as [_ Hmax].
    destruct Hmax as (line & Hin & Hl); [by destruct texts |].
    apply list_elem_of_In, in_map_iff in Hin as (t & <- & Ht). exists t.
    rewrite list_elem_of_In. split; [done |]. unfold longest. rewrite <- Hl.
    unfold strlen, line_of. rewrite length_app. simpl. lia.
Qed.

Lemma pad_each_line_uniform_witness :
  exists lines,
    pad_each_line (concat (map line_of [B "a"; B "bcd"; B ""])) = concat lines /\
    getlines (concat lines) = lines /\
    Forall2 (fun text line =>
      length line = longest [B "a"; B "bcd"; B ""] /\
      line = line_of (text ++ replicate (longest [B "a"; B "bcd"; B ""] - S (length text)) SOH))
      [B "a"; B "bcd"; B ""] lines /\
    ([B "a"; B "bcd"; B ""] <> [] ->
     exists text, text ∈ [B "a"; B "bcd"; B ""] /\
       longest [B "a"; B "bcd"; B ""] = S (length text)).
Proof.
  apply (pad_each_line_uniform [B "a"; B "bcd"; B ""]).
  repeat (constructor; [split; apply (bool_decide_unpack _); vm_compute; exact I |]).
  constructor.
Defined.

(** * The record format *)

(** C13. Encode/decode: the line that print_entry_to_catalog writes, padded by
    any number of bytes, decodes in getEntry_from_catalog, whatever its locals
    held, to the depth, path, link destination and attributes of the file; the
    mode is the original one for each of the seven known file types. *)
Theorem record_round_trip st d root p link g u pad :
  root <> [] -> record_ok st (rel root p) link ->
  runs (print_entry_to_catalog (StatWdf d p st link) root) g (fun _ g' =>
    exists text, catalog_out g' = catalog_out g ++ line_of text /\
      decode_entry u (text ++ replicate pad SOH ++ [LF]) = Some (record st (rel root p) link)) /\
  (st_mode st < 2 ^ 16 -> known_type (st_mode st) = true ->
   st_data (record st (rel root p) link) = st).
Proof.
  intros Hroot Hok. split.
  - unfold print_entry_to_catalog. rewrite strlen_root by done. cbn [st_data file_path link_dest].
    run. unfold fprintf. run. apply runs_on_mem. unfold free_plain. run. simpl.
    exists (line_text st (rel root p) link). unfold Generate.findDepth. fold (rel root p).
    rewrite entry_line_text. split; [done |]. exact (decode_record u _ _ _ _ Hok).
  - intros Hm Hk. destruct Hok as ((Hst & _) & _). cbn [st_data record].
    unfold served_stat. rewrite served_mode_known by (done || lia). by destruct st.
Qed.

Lemma record_round_trip_witness :
  runs (print_entry_to_catalog (StatWdf 2 (B "/t/l") sample_link (B "../x")) (B "/t"))
    sample_gstate (fun _ g' =>
      exists text, catalog_out g' = catalog_out sample_gstate ++ line_of text /\
        decode_entry sample_frame (text ++ replicate 5 SOH ++ [LF]) =
        Some (record sample_link (rel (B "/t") (B "/t/l")) (B "../x"))) /\
  (st_mode sample_link < 2 ^ 16 -> known_type (st_mode sample_link) = true ->
   st_data (record sample_link (rel (B "/t") (B "/t/l")) (B "../x")) = sample_link).
Proof.
  apply record_round_trip; [discriminate |]. apply (bool_decide_unpack _). vm_compute. exact I.
Defined.

(** * The listing *)

(** C26. catalog_listing of a tree of finite height ends, whenever it has fuel
    for more rounds than there are directories that can be reached from the
    root, and the lines that it has written are exactly those of these
    directories, each with a final slash, and of their entries. *)
Theorem traversal_complete o root h g :
  listable_tree o root h -> catalog_out g = [] ->
  exists dirs, (forall d, d ∈ dirs <-> reached o root d) /\
  forall fuel, (length dirs < fuel)%nat ->
    runs (catalog_listing fuel o root) g (fun r g' => r = 0 /\
      forall line, line ∈ getlines (catalog_out g') <->
        exists d, reached o root d /\
          (line = line_of (text_at o root (d ++ [SLASH])) \/
           exists ent, ent ∈ entries o d /\ line = line_of (text_at o root (join d (d_name ent))))).
Proof.
  intros Hl Hg. pose proof (listable_height _ _ _ Hl) as Hh. exists (level_dirs h o [root]).
  split; [intros d; by apply level_dirs_iff |]. intros fuel Hfuel.
  eapply runs_mono; [by apply (list_tree o root h) |]. intros r g' (-> & -> & _). split; [done |].
  intros line. rewrite getlines_listing by apply Hl. rewrite list_elem_of_In, in_map_iff. split.
  - intros (p & <- & Hp%list_elem_of_In). apply level_paths_elem in Hp as (d & Hd & Hp); [| done].
    exists d. split; [done |]. apply block_elem in Hp as [-> | (ent & Hent & ->)]; [by left | right; eauto].
  - intros (d & Hd & Hline).
    assert (exists p, line_of (text_at o root p) = line /\ p ∈ block o d) as (p & Hp & Hb).
    { destruct Hline as [-> | (ent & Hent & ->)]; eexists; (split; [done |]); apply block_elem; eauto. }
    exists p. split; [done |]. apply list_elem_of_In, level_paths_elem; eauto.
Qed.

Lemma traversal_complete_witness :
  exists dirs, (forall d, d ∈ dirs <-> reached sample_os (B "/t") d) /\
  forall fuel, (length dirs < fuel)%nat ->
    runs (catalog_listing fuel sample_os (B "/t")) sample_gstate (fun r g' => r = 0 /\
      forall line, line ∈ getlines (catalog_out g') <->
        exists d, reached sample_os (B "/t") d /\
          (line = line_of (text_at sample_os (B "/t") (d ++ [SLASH])) \/
           exists ent, ent ∈ entries sample_os d /\
             line = line_of (text_at sample_os (B "/t") (join d (d_name ent))))).
Proof.
  apply (traversal_complete sample_os (B "/t") 2); [exact (good_listable _ _ _ sample_tree) | reflexivity].
Defined.

(** C27. catalog_listing, with its linked-list queue in a heap, implements the
    traversal: it writes one line per path visited, in order, ends with an empty
    queue, and has freed every block that it allocated. *)
Theorem listing_writes_traversal o root fuel out g :
  (forall n, Generate.malloc_ok o n = true) -> root <> [] -> strlen root < MAXPATHLEN ->
  bfs fuel o [root] = Some out -> Forall (path_ready o root) out ->
  (forall d, d ++ [SLASH] ∈ out -> dir_ready o d) -> catalog_out g = [] ->
  runs (catalog_listing fuel o root) g (fun r g' =>
    r = 0 /\ getlines (catalog_out g') = map (fun p => line_of (text_at o root p)) out /\
    queue_rep (mem_of g') [] /\ blocks (mem_of g') = blocks (mem_of g)).
Proof.
  intros Hm Hroot Hlen Hbfs Hp Hd Hg.
  eapply runs_mono; [by apply (catalog_listing_spec o root Hm Hroot fuel out) |].
  intros r g' (-> & Ho & Hq & Hb). split_and!; [done | | done | done].
  rewrite Ho. by apply getlines_listing.
Qed.

Lemma listing_writes_traversal_witness :
  runs (catalog_listing (level_fuel 2 sample_os [B "/t"]) sample_os (B "/t")) sample_gstate
    (fun r g' => r = 0 /\
      getlines (catalog_out g') =
        map (fun p => line_of (text_at sample_os (B "/t") p)) (level_paths 2 sample_os [B "/t"]) /\
      queue_rep (mem_of g') [] /\ blocks (mem_of g') = blocks (mem_of sample_gstate)).
Proof.
  apply listing_writes_traversal;
    [reflexivity | discriminate | reflexivity | apply bfs_levels; reflexivity
    | apply (tree_paths _ _ _ sample_tree) | apply (tree_dirs _ _ _ sample_tree) | reflexivity].
Defined.

(** C14. What catalog_listing writes for a tree that it can list, padded,
    decodes record by record, and these records are sorted by depth and then by
    path, as binSearch needs, exactly when in no directory the name of a
    subdirectory is that of another one followed by a byte below the slash, as
    "a b" beside "a". *)
Theorem listing_is_sorted o root h g :
  listable_tree o root h -> (forall d, reached o root d -> names_distinct o d) -> catalog_out g = [] ->
  runs (catalog_listing (level_fuel h o [root]) o root) g (fun _ g' =>
    exists records,
      Forall2 (fun line w => forall u, decode_entry u line = Some w)
        (getlines (pad_each_line (catalog_out g'))) records /\
      (catalog_sorted records <->
       forall d, reached o root d -> let names := map d_name (subdir_entries (entries o d)) in
         forall a b, a ∈ names -> b ∈ names -> ~ exists c k, b = a ++ c :: k /\ code c < 47)).
Proof.
  intros Hl Hn Hg. eapply runs_mono.
  { apply (list_tree o root h); [done | rewrite level_fuel_dirs; lia | done]. }
  intros r g' (_ & -> & _). exists (map (record_at o root) (level_paths h o [root])).
  split; [by apply listed_lines_decode, Hl |]. by apply listing_sorted_iff; [apply Hl |].
Qed.

Lemma listing_is_sorted_witness :
  runs (catalog_listing (level_fuel 2 sample_os [B "/t"]) sample_os (B "/t")) sample_gstate (fun _ g' =>
    exists records,
      Forall2 (fun line w => forall u, decode_entry u line = Some w)
        (getlines (pad_each_line (catalog_out g'))) records /\
      (catalog_sorted records <->
       forall d, reached sample_os (B "/t") d ->
         let names := map d_name (subdir_entries (entries sample_os d)) in
         forall a b, a ∈ names -> b ∈ names -> ~ exists c k, b = a ++ c :: k /\ code c < 47)).
Proof.
  apply listing_is_sorted; [exact (good_listable _ _ _ sample_tree) | | reflexivity].
  intros d Hd. destruct (tree_dir sample_tree d Hd) as [_ (H1 & H2 & _)]. by split.
Defined.

(** The condition of the sorted listing, on the entries that scandir
    returns for a directory: its subdirectories keep their order with a slash
    appended exactly when no name is another one followed by a byte below the
    slash, as "a b", "a.b" or "a-b" beside "a". *)
Theorem subdirs_keep_order o d :
  Forall (fun e => SLASH ∉ d_name e) (entries o d) -> NoDup (map d_name (entries o d)) ->
  let names := map d_name (subdir_entries (entries o d)) in
  StronglySorted slash_lt names <->
  forall a b, a ∈ names -> b ∈ names -> ~ exists c k, b = a ++ c :: k /\ code c < 47.
Proof. apply subdirs_order. Qed.

Lemma subdirs_keep_order_witness :
  let names := map d_name (subdir_entries (entries clash_os (B "/t"))) in
  StronglySorted slash_lt names <->
  forall a b, a ∈ names -> b ∈ names -> ~ exists c k, b = a ++ c :: k /\ code c < 47.
Proof.
  apply (subdirs_keep_order clash_os (B "/t")); apply (bool_decide_unpack _); vm_compute; exact I.
Defined.

(** Without that condition the search fails: for a directory with
    subdirectories "a" and "a b", the generator writes a record for /a/x, but
    the mounted catalog answers -ENOENT for its attributes and for the listing
    of /a. *)
Theorem name_order_clash :
  runs (catalog_listing 10 clash_os (B "/t")) sample_gstate (fun r g' =>
    let file := pad_each_line (catalog_out g') in
    let e := env_of_file file in
    r = 0 /\ mounts e file /\
    (exists line, line ∈ getlines file /\
       forall u, file_path <$> decode_entry u line = Some (B "/a/x")) /\
    runs (catalog_getattr e (B "/a/x")) sample_sys (fun res _ => fst res = - ENOENT) /\
    runs (catalog_readdir name_filler e 10 (B "/a") []) sample_sys
      (fun res _ => fst (fst res) = - ENOENT)).
Proof.
  unfold runs at 1. destruct (catalog_listing 10 clash_os (B "/t") sample_gstate) as [[r g]| | |] eqn:E;
    vm_compute in E; try discriminate E. injection E as <- <-. cbn [catalog_out]. cbv zeta.
  split; [done |]. split; [| split; [| split; vm_compute; reflexivity]].
  - split; [done |]. split; [| done]. apply (bool_decide_unpack _). vm_compute. exact I.
  - match goal with |- exists line, line ∈ ?lines /\ _ => exists (nth 5 lines []) end.
    split; [apply list_elem_of_In, nth_In; vm_compute; lia | intros u; vm_compute; reflexivity].
Qed.

(** * From a tree to a mounted catalog *)

(** C2. Generate then mount then stat: when a well-formed tree is listed, padded
    and mounted, catalog_getattr answers, for every path, the attributes that
    lstat gave for the file catalogued under that path, and -ENOENT for every
    path that was not catalogued. *)
Theorem generated_getattr o root h e g q s :
  good_tree o root h -> catalog_out g = [] ->
  runs (catalog_listing (level_fuel h o [root]) o root) g (fun _ g' =>
    let file := pad_each_line (catalog_out g') in
    mounts e file -> mount_fits e file ->
    runs (catalog_getattr e q) s (fun r _ =>
      (exists p st, p ∈ tree_listing o root h /\ rel root p = q /\ lstat o p = Some st /\
         r = (0, served_stat st)) \/
      ((forall p, p ∈ tree_listing o root h -> rel root p <> q) /\ r = (- ENOENT, zero_stat)))).
Proof.
  intros Ht Hg. eapply runs_mono; [by apply (generate_listing Ht) |].
  intros r g' (_ & -> & _). cbv zeta. intros Hm Hf.
  by apply (tree_getattr o root h).
Qed.

Lemma generated_getattr_witness :
  runs (catalog_listing (level_fuel 2 sample_os [B "/t"]) sample_os (B "/t")) sample_gstate
    (fun _ g' =>
      let file := pad_each_line (catalog_out g') in
      let e := env_of_file sample_tree_file in
      mounts e file -> mount_fits e file ->
      runs (catalog_getattr e (B "/a/x")) sample_sys (fun r _ =>
        (exists p st, p ∈ tree_listing sample_os (B "/t") 2 /\ rel (B "/t") p = B "/a/x" /\
           lstat sample_os p = Some st /\ r = (0, served_stat st)) \/
        ((forall p, p ∈ tree_listing sample_os (B "/t") 2 -> rel (B "/t") p <> B "/a/x") /\
         r = (- ENOENT, zero_stat)))).
Proof. apply generated_getattr; [exact sample_tree | reflexivity]. Defined.

(** C3. Generate then mount then ls: when a well-formed tree is listed, padded
    and mounted within the limits of catalogfs, catalog_readdir of a directory
    of the tree, the root or one whose array has a byte to spare for the slash
    that is appended, hands the filler "." and "..", then exactly the entries
    that scandir selected in that directory, in order, with their attributes; in
    an array without that byte the slash is written past the end, which is
    undefined. *)
Theorem generated_readdir {F} (filler : fill_dir F) o root h e g d path path_cap buf s :
  good_tree o root h -> catalog_out g = [] -> reached o root d ->
  slash_path path = rel root (d ++ [SLASH]) ->
  let start := fst (filler (fst (filler buf (B ".") None)) (B "..") None) in
  runs (catalog_listing (level_fuel h o [root]) o root) g (fun _ g' =>
    let file := pad_each_line (catalog_out g') in
    mounts e file -> mount_fits e file ->
    if decide (path = B "/" \/ strlen path + 1 < path_cap) then
      runs (catalog_readdir filler e path_cap path buf) s (fun r _ =>
        fst r = (0, feed filler start
          (map (fun ent => (d_name ent, served_stat (stat_of o (join d (d_name ent)))))
               (entries o d))))
    else catalog_readdir filler e path_cap path buf s = UB).
Proof.
  intros Ht Hg Hd Hpath start. eapply runs_mono; [by apply (generate_listing Ht) |].
  intros r g' (_ & -> & _). cbv zeta. intros Hm Hf.
  case_decide as Hcap; [by apply (tree_readdir filler o root h) |].
  apply catalog_readdir_overruns; [tauto |]. apply Z.nlt_ge. tauto.
Qed.

Lemma generated_readdir_witness :
  runs (catalog_listing (level_fuel 2 sample_os [B "/t"]) sample_os (B "/t")) sample_gstate (fun _ g' =>
    let file := pad_each_line (catalog_out g') in
    let e := env_of_file sample_tree_file in
    mounts e file -> mount_fits e file ->
    runs (catalog_readdir name_filler e 4 (B "/a") []) sample_sys (fun r _ =>
      fst r = (0, feed name_filler [B "."; B ".."]
        (map (fun en => (d_name en, served_stat (stat_of sample_os (join (B "/t/a") (d_name en)))))
             (entries sample_os (B "/t/a")))))).
Proof.
  apply (generated_readdir name_filler sample_os (B "/t") 2 (env_of_file sample_tree_file) sample_gstate
           (B "/t/a") (B "/a") 4); [exact sample_tree | reflexivity | | reflexivity].
  apply (reached_sub _ _ (B "/t")); [constructor |]. apply (bool_decide_unpack _). vm_compute. exact I.
Defined.

(** C10. Generate then mount then readlink, for any path: when a well-formed
    tree is listed, padded and mounted within the limits of catalogfs,
    catalog_readlink of a catalogued path answers 0 and fills the buffer with
    what printf leaves of the destination that the file had, which catalogfs
    prints before it copies it out of the array of a returned call; it reads
    back as that destination if printf leaves it whole and the buffer has room
    for it and a spare byte. For any other path the answer is -ENOENT and the
    buffer is as it was. That printf alone comes in between is assumed: the
    calls before it find the arrays as they were left. *)
Theorem generated_readlink o root h e g q buf size s :
  good_tree o root h -> catalog_out g = [] -> 0 < size < 2 ^ 64 -> strlen buf = size ->
  runs (catalog_listing (level_fuel h o [root]) o root) g (fun _ g' =>
    let file := pad_each_line (catalog_out g') in
    mounts e file -> mount_fits e file ->
    runs (catalog_readlink e q buf size) s (fun r _ =>
      (exists p n, p ∈ tree_listing o root h /\ rel root p = q /\
         r = (0, link_buffer (printf_leaves e n (link_of o p)) buf size) /\
         (printf_leaves e n (link_of o p) = link_of o p -> strlen (link_of o p) + 1 < size ->
          cstr (snd r) = link_of o p)) \/
      ((forall p, p ∈ tree_listing o root h -> rel root p <> q) /\ r = (- ENOENT, buf)))).
Proof.
  intros Ht Hg Hsize Hbuf. eapply runs_mono; [by apply (generate_listing Ht) |].
  intros r g' (_ & -> & _). cbv zeta. intros Hm Hf. by apply (tree_readlink o root h).
Qed.

Lemma generated_readlink_witness :
  runs (catalog_listing (level_fuel 2 sample_os [B "/t"]) sample_os (B "/t")) sample_gstate (fun _ g' =>
    let file := pad_each_line (catalog_out g') in
    let e := env_of_file sample_tree_file in
    mounts e file -> mount_fits e file ->
    runs (catalog_readlink e (B "/l") (replicate 8 NUL) 8) sample_sys (fun r _ =>
      (exists p n, p ∈ tree_listing sample_os (B "/t") 2 /\ rel (B "/t") p = B "/l" /\
         r = (0, link_buffer (printf_leaves e n (link_of sample_os p)) (replicate 8 NUL) 8) /\
         (printf_leaves e n (link_of sample_os p) = link_of sample_os p ->
          strlen (link_of sample_os p) + 1 < 8 -> cstr (snd r) = link_of sample_os p)) \/
      ((forall p, p ∈ tree_listing sample_os (B "/t") 2 -> rel (B "/t") p <> B "/l") /\
       r = (- ENOENT, replicate 8 NUL)))).
Proof. apply generated_readlink; [exact sample_tree | reflexivity | by split | reflexivity]. Defined.

(** * The program *)

(** C32. main of generate_catalog, on the directory of a well-formed tree, with
    file names that fit its buffers, when its files can be opened and renamed
    and nothing has been written before, returns 0 and leaves the padded listing
    of the tree in the catalog file, with no block lost. *)
Theorem generate_main_writes_tree e prog root cat h mode g :
  good_tree (gen_os e) root h -> catalog_out g = [] -> cat <> [] ->
  stat_mode e root = Some mode -> is_dir mode = true ->
  fopen_ok e cat = true -> fopen_ok e (cat ++ B ".temp") = true -> rename_ok e = true ->
  messages_fit root cat ->
  runs (main (level_fuel h (gen_os e) [root]) e [prog; root; cat]) g (fun r g' =>
    r = (0, tree_file (o := gen_os e) (root := root) (h := h)) /\
    blocks (mem_of g') = blocks (mem_of g)).
Proof.
  intros Ht Hg Hcat Hmode Hdir Hfo Hft Hren (Hm1 & Hm2 & Hm3).
  destruct (tree_root _ _ _ Ht) as [Hroot Hlen]. unfold main.
  assert (strlen cat + 5 < 256) as Hc.
  { rewrite !strlen_cons, !strlen_app in Hm3. change (strlen (B ".temp")) with 5 in Hm3.
    pose proof (strlen_nonneg (B "ERROR:Cannot rename file:")).
    pose proof (strlen_nonneg (B " to file:")). pose proof (strlen_nonneg cat). lia. }
  run. apply runs_strcpy; [done |]. run. apply runs_strcpy; [unfold MAXPATHLEN; lia |].
  rewrite (strlen_pos root), (strlen_pos cat) by done. cbn [orb]. run.
  apply runs_strcpy; [done |]. rewrite Hmode, Hdir. cbn [negb]. run.
  apply runs_strcpy; [done |]. run. apply runs_strcat.
  { change (strlen (B ".temp")) with 5. unfold MAXPATHLEN. lia. }
  rewrite Hfo. cbn [negb]. run. eapply runs_mono; [by apply (generate_listing Ht) |].
  intros r g' (_ & Hfile & Hb). run. apply runs_assert; [done |]. run.
  apply runs_strcpy; [done |]. rewrite Hren. run. by rewrite Hfile.
Qed.

Lemma generate_main_writes_tree_witness :
  runs (main (level_fuel 2 (gen_os sample_gen_env) [B "/t"]) sample_gen_env
          [B "generate_catalog"; B "/t"; B "c"]) sample_gstate
    (fun r g' => r = (0, tree_file (o := gen_os sample_gen_env) (root := B "/t") (h := 2)) /\
       blocks (mem_of g') = blocks (mem_of sample_gstate)).
Proof.
  apply (generate_main_writes_tree sample_gen_env (B "generate_catalog") (B "/t") (B "c") 2 16877);
    first [exact sample_tree | discriminate | reflexivity | repeat split].
Defined.

(** generate_catalog overruns errormsg before it looks at the directory
    when the path of the directory is too long for that array, although it fits
    MAXPATHLEN. *)
Theorem long_directory_name_overruns_errormsg fuel e prog root cat g :
  256 <= strlen (LF :: B "ERROR:Cannot get statistics of the directory:" ++ root) ->
  strlen cat < MAXPATHLEN -> cat <> [] ->
  main fuel e [prog; root; cat] g = UB.
Proof.
  intros Hlong Hlen Hcat. unfold main.
  assert (root <> []) as Hroot by (intros ->; by vm_compute in Hlong).
  destruct (decide (strlen root < MAXPATHLEN)) as [Hr | Hr];
    [| apply bind_ub_eq; unfold strcpy; apply assert_false; lia].
  rewrite (bind_runs_eq _ _ _ _ _ (strcpy_fits _ _ g Hr)).
  rewrite (bind_runs_eq _ _ _ _ _ (strcpy_fits _ _ g Hlen)).
  rewrite (strlen_pos root), (strlen_pos cat) by done. cbn [orb].
  apply bind_ub_eq. unfold strcpy. apply assert_false. lia.
Qed.

Lemma long_directory_name_overruns_errormsg_witness :
  main 10 sample_gen_env [B "generate_catalog"; replicate 211 "d"%char; B "c"] sample_gstate = UB.
Proof.
  apply long_directory_name_overruns_errormsg; [discriminate | reflexivity | discriminate].
Defined.
