(* ===== verification/Rofs.v ===== *)
(** other_fs/rofs/rofs.c, the read-only file system from which catalogfs is
    adapted: each request is translated to a path below [rw_path] and passed to
    the system, or refused. *)

From S2P Require Import Prelude.
From S2P Require Import CString.
From S2P Require Import Entry.
From S2P Require Import CatalogFS.
From S2P Require Import Resources.

(** * The system *)

Definition O_WRONLY : Z := 1.
Definition O_RDWR : Z := 2.
Definition O_CREAT : Z := 64.
Definition O_EXCL : Z := 128.
Definition O_TRUNC : Z := 512.

Record dir_entry := DirEntry { d_ino : Z; d_type : Z; d_name : bytes }.

(** The system calls on a tree in state [W]: an error is an [errno]. [open] may
    change the tree; the calls that only read it are functions of its state.
    [pread] gives the bytes read. *)
Record syscalls (W : Type) := Syscalls {
  lstat : W -> bytes -> Z + stat;
  readlink : W -> bytes -> Z + bytes;
  readdir : W -> bytes -> Z + list dir_entry;
  open : W -> bytes -> Z -> W * (Z + unit);
  pread : W -> bytes -> Z -> Z -> Z + bytes;
  statvfs : W -> bytes -> Z + CatalogFS.statvfs;
  access : W -> bytes -> Z -> Z + unit;
  lgetxattr : W -> bytes -> bytes -> Z -> Z + bytes;
  llistxattr : W -> bytes -> Z -> Z + bytes;
  malloc_ok : nat -> bool }.
Arguments lstat {W} s. Arguments readlink {W} s. Arguments readdir {W} s.
Arguments open {W} s. Arguments pread {W} s. Arguments statvfs {W} s.
Arguments access {W} s. Arguments lgetxattr {W} s. Arguments llistxattr {W} s.
Arguments malloc_ok {W} s.

(** The process: the tree, [errno], the calls to [malloc] so far, the live blocks,
    the open descriptors and directory streams. *)
Record rproc (W : Type) := Rproc {
  world : W; errno : Z; allocs : nat; blocks : Z; fds : Z; streams : Z }.
Arguments Rproc {W}. Arguments world {W}. Arguments errno {W}. Arguments allocs {W}.
Arguments blocks {W}. Arguments fds {W}. Arguments streams {W}.

Definition set_errno {W} (z : Z) (p : rproc W) : rproc W :=
  Rproc (world p) z (allocs p) (blocks p) (fds p) (streams p).
Definition set_world {W} (w : W) (p : rproc W) : rproc W :=
  Rproc w (errno p) (allocs p) (blocks p) (fds p) (streams p).
Definition add_blocks {W} (n : Z) (p : rproc W) : rproc W :=
  Rproc (world p) (errno p) (allocs p) (blocks p + n) (fds p) (streams p).
Definition add_fds {W} (n : Z) (p : rproc W) : rproc W :=
  Rproc (world p) (errno p) (allocs p) (blocks p) (fds p + n) (streams p).
Definition add_streams {W} (n : Z) (p : rproc W) : rproc W :=
  Rproc (world p) (errno p) (allocs p) (blocks p) (fds p) (streams p + n).
Definition count_alloc {W} (p : rproc W) : rproc W :=
  Rproc (world p) (errno p) (S (allocs p)) (blocks p) (fds p) (streams p).

(** The file system's entry in [readdir], with the fields of its [stat]. *)
Definition entry_stat : Type := Z * Z.       (* st_ino, st_mode *)

Section Rofs.
Context {W : Type} (sys : syscalls W) (rw_path : bytes).

(** The result of a call that fails with -1 and sets [errno]. *)
Definition call {A} (r : Z + A) : M (rproc W) (option A) :=
  match r with
  | inl z => _ ← modify (set_errno z); mret None
  | inr a => mret (Some a)
  end.

Definition free : M (rproc W) unit := modify (add_blocks (-1)).

(** The array has room for both paths and a NUL. *)
Definition translate_path (path : bytes) : M (rproc W) bytes :=
  let cap := strlen path + strlen rw_path + 1 in
  p ← get;
  _ ← modify count_alloc;
  _ ← assert_defined (malloc_ok sys (allocs p));
  _ ← modify (add_blocks 1);
  rPath ← strcpy cap rw_path;
  _ ← assert_defined (0 <? strlen rPath);            (* rPath[strlen(rPath)-1] *)
  let rPath := if decide (last rPath = Some SLASH) then take (length rPath - 1) rPath
               else rPath in
  strcat cap rPath path.

(** [-errno]. *)
Definition minus_errno : M (rproc W) Z := p ← get; mret (- errno p).

Definition callback_getattr (path : bytes) (st_data : stat) : M (rproc W) (Z * stat) :=
  path ← translate_path path;
  p ← get;
  res ← call (lstat sys (world p) path);
  _ ← free;
  match res with
  | None => z ← minus_errno; mret (z, st_data)
  | Some st => mret (0, st)
  end.

(** [buf] is an array of at least [size] bytes; [readlink] does not terminate what
    it writes. *)
Definition callback_readlink (path buf : bytes) (size : Z) : M (rproc W) (Z * bytes) :=
  path ← translate_path path;
  p ← get;
  res ← call (readlink sys (world p) path);
  _ ← free;
  match res with
  | None => z ← minus_errno; mret (z, buf)
  | Some dest =>
      let got := take (Z.to_nat (to_u64 (size - 1))) dest in
      _ ← assert_defined (strlen got <? strlen buf);   (* buf[res] = 0 *)
      mret (0, got ++ [NUL] ++ drop (S (length got)) buf)
  end.

Section Readdir.
Context {F : Type} (filler : F -> bytes -> entry_stat -> F * Z).

Fixpoint readdir_loop (ents : list dir_entry) (buf : F) : F :=
  match ents with
  | [] => buf
  | de :: ents' =>
      let '(buf', full) := filler buf (d_name de) (d_ino de, to_u32 (Z.shiftl (d_type de) 12)) in
      if full =? 0 then readdir_loop ents' buf' else buf'
  end.

Definition callback_readdir (path : bytes) (buf : F) : M (rproc W) (Z * F) :=
  path ← translate_path path;
  p ← get;
  dp ← call (readdir sys (world p) path);
  _ ← free;
  match dp with
  | None => z ← minus_errno; mret (z, buf)
  | Some ents =>
      _ ← modify (add_streams 1);
      let buf := readdir_loop ents buf in
      _ ← modify (add_streams (-1));
      mret (0, buf)
  end.
End Readdir.

Definition callback_mknod (path : bytes) (mode rdev : Z) : Z := - EPERM.
Definition callback_mkdir (path : bytes) (mode : Z) : Z := - EPERM.
Definition callback_unlink (path : bytes) : Z := - EPERM.
Definition callback_rmdir (path : bytes) : Z := - EPERM.
Definition callback_symlink (from to : bytes) : Z := - EPERM.
Definition callback_rename (from to : bytes) : Z := - EPERM.
Definition callback_link (from to : bytes) : Z := - EPERM.
Definition callback_chmod (path : bytes) (mode : Z) : Z := - EPERM.
Definition callback_chown (path : bytes) (uid gid : Z) : Z := - EPERM.
Definition callback_truncate (path : bytes) (size : Z) : Z := - EPERM.
Definition callback_utime (path : bytes) (buf : Z * Z) : Z := - EPERM.
Definition callback_write (path buf : bytes) (size offset : Z) : Z := - EPERM.
Definition callback_release (path : bytes) : Z := 0.
Definition callback_fsync (path : bytes) (crap : Z) : Z := 0.
Definition callback_setxattr (path name value : bytes) (size flags : Z) : Z := - EPERM.
Definition callback_removexattr (path name : bytes) : Z := - EPERM.

Definition has_flag (flags f : Z) : bool := negb (Z.land flags f =? 0).

Definition writing (flags : Z) : bool :=
  has_flag flags O_WRONLY || has_flag flags O_RDWR || has_flag flags O_CREAT ||
  has_flag flags O_EXCL || has_flag flags O_TRUNC.

(** [open(path, flags)], which leaves a descriptor open when it succeeds. *)
Definition sys_open (path : bytes) (flags : Z) : M (rproc W) (option unit) :=
  p ← get;
  let '(w, r) := open sys (world p) path flags in
  _ ← modify (set_world w);
  res ← call r;
  match res with
  | None => mret None
  | Some _ => _ ← modify (add_fds 1); mret (Some tt)
  end.

Definition callback_open (path : bytes) (flags : Z) : M (rproc W) Z :=
  if writing flags then minus_errno
  else
    path ← translate_path path;
    res ← sys_open path flags;
    _ ← free;
    match res with
    | None => minus_errno
    | Some _ => _ ← modify (add_fds (-1)); mret 0
    end.

(** The return value and what is written to [buf]. *)
Definition callback_read (path : bytes) (size offset : Z) : M (rproc W) (Z * bytes) :=
  path ← translate_path path;
  fd ← sys_open path 0;
  _ ← free;
  match fd with
  | None => z ← minus_errno; mret (z, [])
  | Some _ =>
      p ← get;
      res ← call (pread sys (world p) path size offset);
      r ← match res with
          | None => z ← minus_errno; mret (z, [])
          | Some data => mret (to_i32 (strlen data), data)
          end;
      _ ← modify (add_fds (-1));
      mret r
  end.

Definition callback_statfs (path : bytes) (st_buf : CatalogFS.statvfs)
  : M (rproc W) (Z * CatalogFS.statvfs) :=
  path ← translate_path path;
  p ← get;
  res ← call (statvfs sys (world p) path);
  _ ← free;
  match res with
  | None => z ← minus_errno; mret (z, st_buf)
  | Some st => mret (0, st)
  end.

Definition callback_access (path : bytes) (mode : Z) : M (rproc W) Z :=
  path ← translate_path path;
  p ← get;
  res ← call (access sys (world p) path mode);
  _ ← free;
  match res with
  | None => minus_errno
  | Some _ => mret 0
  end.

Definition callback_getxattr (path name : bytes) (size : Z) : M (rproc W) (Z * bytes) :=
  path ← translate_path path;
  p ← get;
  res ← call (lgetxattr sys (world p) path name size);
  _ ← free;
  match res with
  | None => z ← minus_errno; mret (z, [])
  | Some value => mret (to_i32 (strlen value), value)
  end.

Definition callback_listxattr (path : bytes) (size : Z) : M (rproc W) (Z * bytes) :=
  path ← translate_path path;
  p ← get;
  res ← call (llistxattr sys (world p) path size);
  _ ← free;
  match res with
  | None => z ← minus_errno; mret (z, [])
  | Some list => mret (to_i32 (strlen list), list)
  end.

(** ** The table of operations *)

Context {F : Type} (filler : F -> bytes -> entry_stat -> F * Z) (empty : F).

Inductive rofs_reply :=
| Status (ret : Z)
| Attr (ret : Z) (st : stat)
| Data (ret : Z) (data : bytes)
| Fs (ret : Z) (st : CatalogFS.statvfs)
| Dir (ret : Z) (buf : F).

Inductive rofs_request :=
| RGetattr (path : bytes) (st : stat)
| RReadlink (path buf : bytes) (size : Z)
| RReaddir (path : bytes)
| RMknod (path : bytes) (mode rdev : Z)
| RMkdir (path : bytes) (mode : Z)
| RSymlink (from to : bytes)
| RUnlink (path : bytes)
| RRmdir (path : bytes)
| RRename (from to : bytes)
| RLink (from to : bytes)
| RChmod (path : bytes) (mode : Z)
| RChown (path : bytes) (uid gid : Z)
| RTruncate (path : bytes) (size : Z)
| RUtime (path : bytes) (buf : Z * Z)
| ROpen (path : bytes) (flags : Z)
| RRead (path : bytes) (size offset : Z)
| RWrite (path buf : bytes) (size offset : Z)
| RStatfs (path : bytes) (st : CatalogFS.statvfs)
| RRelease (path : bytes)
| RFsync (path : bytes) (crap : Z)
| RAccess (path : bytes) (mode : Z)
| RSetxattr (path name value : bytes) (size flags : Z)
| RGetxattr (path name : bytes) (size : Z)
| RListxattr (path : bytes) (size : Z)
| RRemovexattr (path name : bytes).

Definition callback_oper (q : rofs_request) : M (rproc W) rofs_reply :=
  match q with
  | RGetattr path st => r ← callback_getattr path st; mret (Attr (fst r) (snd r))
  | RReadlink path buf size => r ← callback_readlink path buf size; mret (Data (fst r) (snd r))
  | RReaddir path => r ← callback_readdir filler path empty; mret (Dir (fst r) (snd r))
  | RMknod path mode rdev => mret (Status (callback_mknod path mode rdev))
  | RMkdir path mode => mret (Status (callback_mkdir path mode))
  | RSymlink from to => mret (Status (callback_symlink from to))
  | RUnlink path => mret (Status (callback_unlink path))
  | RRmdir path => mret (Status (callback_rmdir path))
  | RRename from to => mret (Status (callback_rename from to))
  | RLink from to => mret (Status (callback_link from to))
  | RChmod path mode => mret (Status (callback_chmod path mode))
  | RChown path uid gid => mret (Status (callback_chown path uid gid))
  | RTruncate path size => mret (Status (callback_truncate path size))
  | RUtime path buf => mret (Status (callback_utime path buf))
  | ROpen path flags => r ← callback_open path flags; mret (Status r)
  | RRead path size offset => r ← callback_read path size offset; mret (Data (fst r) (snd r))
  | RWrite path buf size offset => mret (Status (callback_write path buf size offset))
  | RStatfs path st => r ← callback_statfs path st; mret (Fs (fst r) (snd r))
  | RRelease path => mret (Status (callback_release path))
  | RFsync path crap => mret (Status (callback_fsync path crap))
  | RAccess path mode => r ← callback_access path mode; mret (Status r)
  | RSetxattr path name value size flags =>
      mret (Status (callback_setxattr path name value size flags))
  | RGetxattr path name size => r ← callback_getxattr path name size; mret (Data (fst r) (snd r))
  | RListxattr path size => r ← callback_listxattr path size; mret (Data (fst r) (snd r))
  | RRemovexattr path name => mret (Status (callback_removexattr path name))
  end.
End Rofs.

(** [main]: the global [rw_path] with which [fuse_main] is called. *)
Definition main (getenv : bytes -> option bytes) : outcome bytes :=
  match getenv (B "ROFS_RW_PATH") with
  | None => Exit 1
  | Some rw_path => Ret rw_path
  end.

(** * Facts *)

(** The underlying path of a request. *)
Definition target (rw_path path : bytes) : bytes :=
  (if decide (last rw_path = Some SLASH) then take (length rw_path - 1) rw_path else rw_path)
  ++ path.

(** The tree and the resources of the process are as before. *)
Definition kept {W} (p p' : rproc W) : Prop :=
  world p' = world p /\ blocks p' = blocks p /\ fds p' = fds p /\ streams p' = streams p.

Section Facts.
Context {W : Type} (sys : syscalls W) (rw_path : bytes).

(** [p'] is [p] with [b] more blocks and [f] more descriptors. *)
Definition moved (b f : Z) (p p' : rproc W) : Prop :=
  world p' = world p /\ blocks p' = blocks p + b /\ fds p' = fds p + f /\
  streams p' = streams p.

Lemma moved_kept p p' : moved 0 0 p p' -> kept p p'.
Proof. unfold moved, kept. intuition lia. Qed.

Lemma moved_refl p : moved 0 0 p p.
Proof. unfold moved. intuition lia. Qed.

Lemma ensures_translate path p :
  ensures (translate_path sys rw_path path) p (fun _ p' => moved 1 0 p p').
Proof.
  unfold translate_path. apply ensures_bind. unfold get, ensures at 1.
  apply ensures_bind. unfold modify, ensures at 1.
  apply ensures_bind, ensures_assert. intros _. apply ensures_bind. unfold modify, ensures at 1.
  apply ensures_bind, ensures_strcpy, ensures_bind, ensures_assert. intros _.
  apply ensures_strcat. unfold moved. simpl. intuition lia.
Qed.

Lemma ensures_call {A} (r : Z + A) b f p0 p (Q : option A -> rproc W -> Prop) :
  moved b f p0 p -> (forall a p', moved b f p0 p' -> Q a p') -> ensures (call r) p Q.
Proof.
  intros Hp HQ. unfold call. destruct r; [apply ensures_bind; unfold modify, ensures; cbn |];
    apply HQ; done.
Qed.

Lemma ensures_free b f p0 p (Q : unit -> rproc W -> Prop) :
  moved b f p0 p -> (forall p', moved (b - 1) f p0 p' -> Q tt p') -> ensures free p Q.
Proof.
  intros Hp HQ. unfold free, modify, ensures. apply HQ. unfold moved in *. simpl. intuition lia.
Qed.

Lemma ensures_add_fds n b f p0 p (Q : unit -> rproc W -> Prop) :
  moved b f p0 p -> (forall p', moved b (f + n) p0 p' -> Q tt p') ->
  ensures (modify (add_fds n)) p Q.
Proof.
  intros Hp HQ. unfold modify, ensures. apply HQ. unfold moved in *. simpl. intuition lia.
Qed.

Lemma ensures_minus_errno p (Q : Z -> rproc W -> Prop) :
  (forall z, Q z p) -> ensures minus_errno p Q.
Proof. intros HQ. apply HQ. Qed.

Context (Hopen : forall w p f, writing f = false -> fst (open sys w p f) = w).

Lemma ensures_sys_open path flags b f p0 p (Q : option unit -> rproc W -> Prop) :
  writing flags = false -> moved b f p0 p ->
  (forall p', moved b f p0 p' -> Q None p') ->
  (forall p', moved b (f + 1) p0 p' -> Q (Some tt) p') ->
  ensures (sys_open sys path flags) p Q.
Proof.
  intros Hf Hp Hnone Hsome. unfold sys_open. apply ensures_bind. unfold get, ensures at 1.
  specialize (Hopen (world p) path flags Hf).
  destruct (open sys (world p) path flags) as [w r]. simpl in Hopen. subst w.
  apply ensures_bind. unfold modify, ensures at 1. apply ensures_bind.
  apply (ensures_call r b f p0); [done |].
  intros [a|] p' Hp'; [| by apply ensures_ret, Hnone].
  apply ensures_bind, (ensures_add_fds 1 b f p0); [done |].
  intros p2 Hp2. by apply ensures_ret, Hsome.
Qed.

(** One step of a callback that keeps count of what it holds. *)
Ltac kept_step :=
  lazymatch goal with
  | |- ensures (mbind _ _) _ _ => apply ensures_bind
  | |- ensures (translate_path _ _ _) _ _ =>
      eapply ensures_mono; [apply ensures_translate |]; intros ? ? ?; cbv beta in *
  | |- ensures get _ _ => apply ensures_get
  | |- ensures (call _) _ _ => eapply ensures_call; [eassumption |]; intros [?|] ? ?
  | |- ensures free _ _ => eapply ensures_free; [eassumption |]; intros ? ?
  | |- ensures (modify (add_fds _)) _ _ =>
      eapply ensures_add_fds; [eassumption |]; intros ? ?
  | |- ensures minus_errno _ _ => apply ensures_minus_errno; intros ?
  | |- ensures (mret _) _ _ => apply ensures_ret
  | |- kept _ _ => first [apply moved_kept; eassumption | apply moved_kept, moved_refl]
  end.
Ltac kept_run := repeat kept_step.

Lemma callback_open_kept path flags p :
  ensures (callback_open sys rw_path path flags) p (fun _ p' => kept p p').
Proof.
  unfold callback_open. destruct (writing flags) eqn:Ef; kept_run.
  eapply ensures_sys_open; [done | eassumption | |]; intros; kept_run.
Qed.

Lemma callback_read_kept path size offset p :
  ensures (callback_read sys rw_path path size offset) p (fun _ p' => kept p p').
Proof.
  unfold callback_read. kept_run.
  eapply ensures_sys_open; [done | eassumption | |]; intros; kept_run.
Qed.

Context {F : Type} (filler : F -> bytes -> entry_stat -> F * Z) (empty : F).

Lemma callback_oper_kept q p :
  ensures (callback_oper sys rw_path filler empty q) p (fun _ p' => kept p p').
Proof.
  destruct q; cbn [callback_oper]; try (apply ensures_ret, moved_kept, moved_refl).
  - unfold callback_getattr. kept_run.
  - unfold callback_readlink. kept_run. apply ensures_assert. intros _. kept_run.
  - unfold callback_readdir. kept_run.
    all: unfold ensures, modify, mbind, M_bind, mret, M_ret; simpl.
    all: match goal with H : moved _ _ _ _ |- _ => revert H end.
    all: unfold moved, kept; simpl; intuition lia.
  - apply ensures_bind. eapply ensures_mono; [apply callback_open_kept |]. done.
  - apply ensures_bind. eapply ensures_mono; [apply callback_read_kept |]. done.
  - unfold callback_statfs. kept_run.
  - unfold callback_access. kept_run.
  - unfold callback_getxattr. kept_run.
  - unfold callback_listxattr. kept_run.
Qed.
End Facts.

Lemma take_last s : last s = Some SLASH -> s = take (length s - 1) s ++ [SLASH].
Proof.
  intros H. destruct s as [|c s _] using rev_ind; [done |].
  rewrite last_snoc in H. injection H as ->. rewrite length_app. simpl.
  replace (length s + 1 - 1)%nat with (length s) by lia. by rewrite take_app_length.
Qed.

Lemma translate_path_spec {W} (sys : syscalls W) rw_path path p :
  rw_path <> [] -> malloc_ok sys (allocs p) = true ->
  translate_path sys rw_path path p = Ret (target rw_path path, add_blocks 1 (count_alloc p)).
Proof.
  intros Hne Hm. unfold translate_path.
  rewrite (bind_runs_eq _ _ _ p p) by done.
  rewrite (bind_runs_eq _ _ _ tt (count_alloc p)) by done. rewrite Hm.
  rewrite (bind_runs_eq _ _ _ tt (count_alloc p)) by done.
  rewrite (bind_runs_eq _ _ _ tt (add_blocks 1 (count_alloc p))) by done.
  pose proof (strlen_nonneg path).
  rewrite (bind_runs_eq _ _ _ _ _ (strcpy_fits (strlen path + strlen rw_path + 1) rw_path _ ltac:(lia))).
  pose proof (strlen_pos rw_path Hne).
  replace (0 <? strlen rw_path) with true by lia.
  rewrite (bind_runs_eq _ _ _ tt (add_blocks 1 (count_alloc p))) by done.
  unfold strcat, target. set (r := if decide _ then _ else _).
  assert (strlen r <= strlen rw_path) as Hr.
  { unfold r. case_decide; [| lia]. unfold strlen. rewrite length_take. lia. }
  replace (strlen r + strlen path <? strlen path + strlen rw_path + 1) with true by lia. done.
Qed.

(** * Properties *)

(** C40. rofs: no request changes the underlying tree, nor the number of live
    blocks, open descriptors and directory streams, when open without a writing
    flag leaves the tree as it is. *)
Theorem rofs_keeps_tree_and_resources {W F} (sys : syscalls W) rw_path
  (filler : F -> bytes -> entry_stat -> F * Z) empty q p r p' :
  (forall w path flags, writing flags = false -> fst (open sys w path flags) = w) ->
  callback_oper sys rw_path filler empty q p = Ret (r, p') ->
  world p' = world p /\ blocks p' = blocks p /\ fds p' = fds p /\ streams p' = streams p.
Proof.
  intros Hopen Hr. exact (ensures_eq _ _ _ _ _ (callback_oper_kept sys rw_path Hopen filler empty q p) Hr).
Qed.

(** A system over a single file, and a process. *)
Definition one_file : syscalls (option bytes) :=
  Syscalls _ (fun w p => if decide (p = B "/rw/f") then inr zero_stat else inl 2)
    (fun _ _ => inl 22) (fun _ _ => inr [DirEntry 7 8 (B "f")])
    (fun w p flags => if has_flag flags O_TRUNC then (Some [], inr tt)
                      else if decide (p = B "/rw/f") then (w, inr tt) else (w, inl 2))
    (fun w _ size _ => inr (from_option (take (Z.to_nat size)) [] w))
    (fun _ _ => inl 38) (fun _ _ _ => inr tt) (fun _ _ _ _ => inl 61) (fun _ _ _ => inr [])
    (fun _ => true).

Definition one_proc : rproc (option bytes) := Rproc (Some (B "hello")) 0 0 0 0 0.

Lemma rofs_keeps_tree_and_resources_witness :
  let p' := snd (match callback_oper one_file (B "/rw/") (fun b n _ => (b ++ [n], 0)) []
                         (RRead (B "/f") 4 0) one_proc with
                 | Ret a => a | _ => (Status 0, one_proc) end) in
  world p' = world one_proc /\ blocks p' = blocks one_proc /\ fds p' = fds one_proc /\
  streams p' = streams one_proc.
Proof.
  eapply (rofs_keeps_tree_and_resources one_file (B "/rw/") (fun b n _ => (b ++ [n], 0)) []
           (RRead (B "/f") 4 0) one_proc (Data 4 (B "hell"))).
  - intros w path flags Hf. unfold writing in Hf. apply orb_false_iff in Hf as [_ Hf].
    cbn [open one_file]. rewrite Hf. by case_decide.
  - vm_compute. reflexivity.
Defined.

(** rofs: getattr answers what lstat answers for the path below the
    underlying directory, written with or without a final slash; the translated
    path fits the block allocated for it. *)
Theorem rofs_getattr_is_lstat {W} (sys : syscalls W) rw_path path p st :
  rw_path <> [] -> malloc_ok sys (allocs p) = true ->
  exists dir, (rw_path = dir ++ [SLASH] \/ (rw_path = dir /\ last dir <> Some SLASH)) /\
  runs (callback_getattr sys rw_path path st) p (fun r p' =>
    r = match lstat sys (world p) (dir ++ path) with
        | inl z => (- z, st)
        | inr st' => (0, st')
        end).
Proof.
  intros Hne Hm.
  exists (if decide (last rw_path = Some SLASH) then take (length rw_path - 1) rw_path
          else rw_path).
  split; [case_decide as Hl; [left; by apply take_last | by right] |].
  fold (target rw_path path). unfold callback_getattr. apply runs_bind. unfold runs at 1.
  rewrite translate_path_spec by done. run.
  change (world (add_blocks 1 (count_alloc p))) with (world p).
  destruct (lstat sys (world p) (target rw_path path)) as [z|st']; cbn [call]; run;
    unfold free; run; [| done].
  unfold minus_errno. by run.
Qed.

Lemma rofs_getattr_is_lstat_witness :
  exists dir, (B "/rw/" = dir ++ [SLASH] \/ (B "/rw/" = dir /\ last dir <> Some SLASH)) /\
  runs (callback_getattr one_file (B "/rw/") (B "/f") zero_stat) one_proc (fun r p' =>
    r = match lstat one_file (world one_proc) (dir ++ B "/f") with
        | inl z => (- z, zero_stat)
        | inr st' => (0, st')
        end).
Proof. apply rofs_getattr_is_lstat; [discriminate | reflexivity]. Defined.

(** rofs: an open for writing makes no system call and is answered with the
    errno of an earlier call, so that it succeeds when errno is 0. *)
Theorem rofs_refuses_writing_by_stale_errno {W} (sys : syscalls W) rw_path path flags p :
  writing flags = true ->
  callback_open sys rw_path path flags p = Ret (- errno p, p).
Proof. intros Hf. unfold callback_open. by rewrite Hf. Qed.

Lemma rofs_refuses_writing_by_stale_errno_witness :
  callback_open one_file (B "/rw/") (B "/f") O_RDWR one_proc = Ret (0, one_proc).
Proof. apply (rofs_refuses_writing_by_stale_errno one_file). reflexivity. Defined.
