(* ===== verification/FuseOpt.v ===== *)
(** other_fs/fuse-2.7.3/lib/fuse_opt.c: the option parser of the FUSE library, that
    rewrites the argument vector which catalogfs passes to [fuse_main]. *)

From S2P Require Import Prelude.
From S2P Require Import CString.
From S2P Require Import CStdio.
From S2P Require Import Chain.

Definition FUSE_OPT_KEY_OPT : Z := -1.
Definition FUSE_OPT_KEY_NONOPT : Z := -2.
Definition FUSE_OPT_KEY_KEEP : Z := -3.
Definition FUSE_OPT_KEY_DISCARD : Z := -4.

(** [-1U] as an [unsigned long]. *)
Definition NO_OFFSET : Z := 4294967295.

(** [struct fuse_opt]. An array is the list of its elements before the one whose
    template is NULL; the NULL array is []. *)
Record fuse_opt := FuseOpt { templ : bytes; offset : Z; value : Z }.

(** [struct fuse_args]. *)
Record fuse_args := FuseArgs { args_argc : Z; args_argv : ptr; allocated : Z }.

(** [struct fuse_opt_context], without the fields that never change: [opt] and
    [proc] are parameters, [data] is in the state. *)
Record fuse_opt_context := Ctx {
  argctr : Z; argc : Z; argv : ptr; outargs : fuse_args; opts : option bytes; nonopt : Z }.

(** The process: the argument vectors in the heap, whose elements are strings or
    NULL; the next fresh address; the calls to the allocator so far; the number of
    live blocks; the variables of the client, by their offset in [data]; and the
    context. The parser does not modify a string that it has stored in a vector,
    in [opts] or in a variable, so that strings are values. *)
Record state := State {
  heap : gmap nat (list (option bytes)); brk : nat; allocs : nat; blocks : Z;
  data : gmap Z sval; ctx : fuse_opt_context }.

Definition set_heap h s := State h (brk s) (allocs s) (blocks s) (data s) (ctx s).
Definition add_blocks n s := State (heap s) (brk s) (allocs s) (blocks s + n) (data s) (ctx s).
Definition set_data d s := State (heap s) (brk s) (allocs s) (blocks s) d (ctx s).
Definition set_ctx c s := State (heap s) (brk s) (allocs s) (blocks s) (data s) c.
Definition set_outargs a s :=
  let c := ctx s in set_ctx (Ctx (argctr c) (argc c) (argv c) a (opts c) (nonopt c)) s.
Definition set_opts o s :=
  let c := ctx s in set_ctx (Ctx (argctr c) (argc c) (argv c) (outargs c) o (nonopt c)) s.
Definition set_argctr n s :=
  let c := ctx s in set_ctx (Ctx n (argc c) (argv c) (outargs c) (opts c) (nonopt c)) s.
Definition set_nonopt n s :=
  let c := ctx s in set_ctx (Ctx (argctr c) (argc c) (argv c) (outargs c) (opts c) n) s.

(** A failed [assert]. *)
Definition abort {A} : M state A := exit 134.

(** * Strings *)

(** [s[i]], for [i] up to the length of [s]. *)
Definition char_at (s : bytes) (i : Z) : ascii := default NUL (zlookup s i).

(** The index that [strchr] finds. *)
Fixpoint strchr (s : bytes) (c : ascii) : option Z :=
  match s with
  | [] => None
  | x :: s' => if decide (x = c) then Some 0 else Z.succ <$> strchr s' c
  end.

(** [*sepp] of a match. *)
Definition match_template (t arg : bytes) : option Z :=
  let arglen := to_i32 (strlen arg) in
  let sep := match strchr t "=" with Some i => Some i | None => strchr t " " end in
  let exact := if strcmp t arg =? 0 then Some 0 else None in
  match sep with
  | Some i =>
      if bool_decide (char_at t (i + 1) = NUL \/ char_at t (i + 1) = "%"%char) then
        let tlen := if decide (char_at t i = "="%char) then i + 1 else i in
        if (tlen <=? arglen) && (strncmp arg t tlen =? 0) then Some i else exact
      else exact
  | None => exact
  end.

(** The element found, its [*sepp], and the elements after it. *)
Fixpoint find_opt (opt : list fuse_opt) (arg : bytes) : option (fuse_opt * Z * list fuse_opt) :=
  match opt with
  | [] => None
  | o :: opt' =>
      match match_template (templ o) arg with
      | Some sep => Some (o, sep, opt')
      | None => find_opt opt' arg
      end
  end.

Definition fuse_opt_match (opts : list fuse_opt) (opt : bytes) : Z :=
  if find_opt opts opt is Some _ then 1 else 0.

(** The directive of the formats that [sscanf] is modelled for. *)
Definition format_directive (format : bytes) : option directive :=
  if decide (format = B "%d") then Some (DInt Cd)
  else if decide (format = B "%ld") then Some (DInt Cld)
  else if decide (format = B "%lo") then Some (DInt Clo)
  else if decide (format = B "%c") then Some DChar
  else None.

Section Parser.
(** Whether the [n]-th allocation succeeds, and whether it moves the block of a
    [realloc]; the conversions of other formats: [None] is undefined behaviour,
    [Some None] no match. *)
Context (alloc_ok moves : nat -> bool).
Context (scan_other : bytes -> bytes -> option (option sval)).
Context (opt : list fuse_opt) (proc : option (bytes -> Z -> M state Z)).

(** [malloc], [strdup] or the [realloc] of a string: whether it succeeds. *)
Definition try_alloc : M state bool :=
  s ← get;
  _ ← modify (fun s => State (heap s) (brk s) (S (allocs s)) (blocks s) (data s) (ctx s));
  mret (alloc_ok (allocs s)).

(** A new block. *)
Definition malloc : M state bool :=
  ok ← try_alloc; _ ← modify (add_blocks (if ok : bool then 1 else 0)); mret ok.

Definition load (p : ptr) : M state (list (option bytes)) :=
  s ← get;
  match p with
  | None => ub
  | Some a => match heap s !! a with Some arr => mret arr | None => ub end
  end.

Definition store (a : nat) (arr : list (option bytes)) : M state unit :=
  modify (fun s => set_heap (<[a := arr]> (heap s)) s).

(** [p[i]]. *)
Definition load_at (p : ptr) (i : Z) : M state (option bytes) :=
  arr ← load p; match zlookup arr i with Some x => mret x | None => ub end.

(** A string that is dereferenced. *)
Definition load_str (p : ptr) (i : Z) : M state bytes :=
  x ← load_at p i; match x with Some str => mret str | None => ub end.

(** [p[i] = x]. *)
Definition store_at (p : ptr) (i : Z) (x : option bytes) : M state unit :=
  arr ← load p;
  _ ← assert_defined (in_range 0 (Z.of_nat (length arr) - 1) i);
  match p with Some a => store a (<[Z.to_nat i := x]> arr) | None => ub end.

(** An array at a fresh address. *)
Definition place (arr : list (option bytes)) : M state ptr :=
  s ← get;
  _ ← modify (fun s => State (<[brk s := arr]> (heap s)) (S (brk s)) (allocs s) (blocks s)
                             (data s) (ctx s));
  mret (Some (brk s)).

(** [realloc] of an array to [n] elements; the elements past the old ones are
    not read before they are set. *)
Definition realloc (p : ptr) (n : Z) : M state ptr :=
  s ← get;
  ok ← try_alloc;
  if ok : bool then
    let k := Z.to_nat n in
    match p with
    | None => _ ← modify (add_blocks 1); place (replicate k None)
    | Some a =>
        old ← load p;
        let new := take k old ++ replicate (k - length old) None in
        if moves (allocs s) then
          _ ← modify (fun s => set_heap (delete a (heap s)) s); place new
        else _ ← store a new; mret (Some a)
    end
  else mret None.

Definition free_array (a : nat) : M state unit :=
  _ ← load (Some a);
  modify (fun s => add_blocks (-1) (set_heap (delete a (heap s)) s)).

(** [for (i ...; i < args->argc; i++) free(args->argv[i])], for the last [n]. *)
Fixpoint free_strings (n : nat) (p : ptr) (i : Z) : M state unit :=
  match n with
  | O => mret tt
  | S n' =>
      x ← load_at p i;
      _ ← (if x is Some _ then modify (add_blocks (-1)) else mret tt);
      free_strings n' p (i + 1)
  end.

(** The new value of [*args]. *)
Definition fuse_opt_free_args (args : option fuse_args) : M state (option fuse_args) :=
  match args with
  | None => mret None
  | Some args =>
      _ ← match args_argv args with
          | Some a =>
              if allocated args =? 0 then mret tt
              else _ ← free_strings (Z.to_nat (args_argc args)) (Some a) 0; free_array a
          | None => mret tt
          end;
      mret (Some (FuseArgs 0 None 0))
  end.

Definition alloc_failed : M state Z := mret (-1).

(** The functions that take a [struct fuse_args *] return its new value. *)
Definition fuse_opt_add_arg (args : fuse_args) (arg : bytes) : M state (fuse_args * Z) :=
  if bool_decide (args_argv args <> None) && (allocated args =? 0) then abort
  else
    _ ← assert_defined (in_i32 (args_argc args + 2));
    newargv ← realloc (args_argv args) (args_argc args + 2);
    newarg ← (if newargv is Some _ then malloc else mret false);
    if newarg : bool then
      _ ← store_at newargv (args_argc args) (Some arg);
      _ ← store_at newargv (args_argc args + 1) None;
      mret (FuseArgs (args_argc args + 1) newargv 1, 0)
    else r ← alloc_failed; mret (args, r).

Definition fuse_opt_insert_arg_common (args : fuse_args) (pos : Z) (arg : bytes)
  : M state (fuse_args * Z) :=
  if args_argc args <? pos then abort
  else
    '(args, res) ← fuse_opt_add_arg args arg;
    if res =? -1 then mret (args, -1)
    else if negb (pos =? args_argc args - 1) then
      newarg ← load_at (args_argv args) (args_argc args - 1);
      arr ← load (args_argv args);
      let count := args_argc args - pos - 1 in
      (* memmove *)
      _ ← assert_defined (in_range 0 (args_argc args) pos);
      let k := Z.to_nat pos in
      let moved := take (S k) arr ++ take (Z.to_nat count) (drop k arr)
                   ++ drop (S k + Z.to_nat count) arr in
      _ ← match args_argv args with Some a => store a moved | None => ub end;
      _ ← store_at (args_argv args) pos newarg;
      mret (args, 0)
    else mret (args, 0).

Definition fuse_opt_insert_arg (args : fuse_args) (pos : Z) (arg : bytes) :=
  fuse_opt_insert_arg_common args pos arg.

Definition fuse_opt_insert_arg_compat (args : fuse_args) (pos : Z) (arg : bytes) :=
  fuse_opt_insert_arg_common args pos arg.

Definition next_arg : M state Z :=
  s ← get;
  let c := ctx s in
  if argc c <=? argctr c + 1 then mret (-1)
  else _ ← modify (set_argctr (argctr c + 1)); mret 0.

Definition add_arg (arg : bytes) : M state Z :=
  s ← get;
  '(args, res) ← fuse_opt_add_arg (outargs (ctx s)) arg;
  _ ← modify (set_outargs args);
  mret res.

(** The new value of [*opts]. *)
Definition fuse_opt_add_opt (opts : option bytes) (opt : bytes) : M state (option bytes * Z) :=
  match opts with
  | None =>
      ok ← malloc;
      if ok : bool then mret (Some opt, 0) else r ← alloc_failed; mret (opts, r)
  | Some old =>
      let oldlen := to_u32 (strlen old) in
      ok ← try_alloc;
      if ok : bool then mret (Some (take (Z.to_nat oldlen) old ++ ","%char :: opt), 0)
      else r ← alloc_failed; mret (opts, r)
  end.

Definition add_opt (opt : bytes) : M state Z :=
  s ← get;
  '(o, res) ← fuse_opt_add_opt (opts (ctx s)) opt;
  _ ← modify (set_opts o);
  mret res.

Definition call_proc (arg : bytes) (key : Z) (iso : bool) : M state Z :=
  let keep := if iso then add_opt arg else add_arg arg in
  if key =? FUSE_OPT_KEY_DISCARD then mret 0
  else
    match proc with
    | Some f =>
        if negb (key =? FUSE_OPT_KEY_KEEP) then
          res ← f arg key;
          if (res =? -1) || (res =? 0) then mret res else keep
        else keep
    | None => keep
    end.

(** [sscanf(param, format, var)]: the value converted, if it is 1. *)
Definition scan_param (format param : bytes) : option (option sval) :=
  match format_directive format with
  | Some d => match sscanf [d] param with
              | Some [v] => Some (Some v)
              | Some _ => Some None
              | None => None
              end
  | None => scan_other format param
  end.

(** [var] is an offset in [data]. *)
Definition process_opt_param (var : Z) (format param : bytes) : M state Z :=
  if decide (char_at format 0 = "%"%char) then
    if decide (char_at format 1 = "s"%char) then
      copy ← malloc;
      if copy : bool then
        _ ← modify (fun s => set_data (<[var := VStr param]> (data s)) s); mret 0
      else alloc_failed
    else
      match scan_param format param with
      | None => ub
      | Some None => mret (-1)
      | Some (Some v) => _ ← modify (fun s => set_data (<[var := v]> (data s)) s); mret 0
      end
  else abort.

Definition process_opt (opt : fuse_opt) (sep : Z) (arg : bytes) (iso : bool) : M state Z :=
  if offset opt =? NO_OFFSET then
    res ← call_proc arg (value opt) iso;
    mret (if res =? -1 then -1 else 0)
  else if negb (sep =? 0) && bool_decide (char_at (templ opt) (sep + 1) <> NUL) then
    let param := drop (Z.to_nat sep) arg in
    let param := if decide (char_at (templ opt) sep = "="%char) then drop 1 param else param in
    res ← process_opt_param (offset opt) (drop (Z.to_nat (sep + 1)) (templ opt)) param;
    mret (if res =? -1 then -1 else 0)
  else
    _ ← modify (fun s => set_data (<[offset opt := VInt (value opt)]> (data s)) s);
    mret 0.

Definition process_opt_sep_arg (opt : fuse_opt) (sep : Z) (arg : bytes) (iso : bool)
  : M state Z :=
  r ← next_arg;
  if r =? -1 then mret (-1)
  else
    s ← get;
    param ← load_str (argv (ctx s)) (argctr (ctx s));
    ok ← malloc;
    if ok : bool then
      let newarg := take (Z.to_nat sep) arg ++ param in
      res ← process_opt opt sep newarg iso;
      _ ← modify (add_blocks (-1));
      mret res
    else alloc_failed.

(** The body of the loop of [process_gopt]. *)
Definition process_match (opt : fuse_opt) (sep : Z) (arg : bytes) (iso : bool) : M state Z :=
  if negb (sep =? 0) && bool_decide (char_at (templ opt) sep = " "%char)
     && bool_decide (char_at arg sep = NUL)
  then process_opt_sep_arg opt sep arg iso
  else process_opt opt sep arg iso.

(** The matches among the elements [opt]. *)
Fixpoint gopt_loop (opt : list fuse_opt) (arg : bytes) (iso : bool) : M state Z :=
  match opt with
  | [] => mret 0
  | o :: opt' =>
      match match_template (templ o) arg with
      | Some sep =>
          res ← process_match o sep arg iso;
          if res =? -1 then mret (-1) else gopt_loop opt' arg iso
      | None => gopt_loop opt' arg iso
      end
  end.

Definition process_gopt (arg : bytes) (iso : bool) : M state Z :=
  match find_opt opt arg with
  | Some _ => gopt_loop opt arg iso
  | None => call_proc arg FUSE_OPT_KEY_OPT iso
  end.

(** The [do]-[while] over the pieces between commas. *)
Fixpoint process_real_option_group (fuel : nat) (opts : bytes) : M state Z :=
  match fuel with
  | O => hang
  | S fuel' =>
      let sep := strchr opts "," in
      let piece := match sep with Some i => take (Z.to_nat i) opts | None => opts end in
      res ← process_gopt piece true;
      if res =? -1 then mret (-1)
      else match sep with
           | Some i => process_real_option_group fuel' (drop (Z.to_nat (i + 1)) opts)
           | None => mret 0
           end
  end.

Definition process_option_group (opts : bytes) : M state Z :=
  match strchr opts "," with
  | None => process_gopt opts true
  | Some _ =>
      copy ← malloc;
      if copy : bool then
        res ← process_real_option_group (S (length opts)) opts;
        _ ← modify (add_blocks (-1));
        mret res
      else mret (-1)
  end.

Definition process_one (arg : bytes) : M state Z :=
  s ← get;
  if negb (nonopt (ctx s) =? 0) || bool_decide (char_at arg 0 <> "-"%char) then
    call_proc arg FUSE_OPT_KEY_NONOPT false
  else if decide (char_at arg 1 = "o"%char) then
    if decide (char_at arg 2 <> NUL) then process_option_group (drop 2 arg)
    else
      r ← next_arg;
      if r =? -1 then mret (-1)
      else
        s ← get;
        opts ← load_str (argv (ctx s)) (argctr (ctx s));
        process_option_group opts
  else if bool_decide (char_at arg 1 = "-"%char) && bool_decide (char_at arg 2 = NUL) then
    r ← add_arg arg;
    if r =? -1 then mret (-1)
    else
      s ← get;
      _ ← modify (set_nonopt (args_argc (outargs (ctx s))));
      mret 0
  else process_gopt arg false.

(** The loop of [opt_parse]; the context has at most [fuel] arguments left. *)
Fixpoint parse_loop (fuel : nat) : M state Z :=
  match fuel with
  | O => hang
  | S fuel' =>
      s ← get;
      if argctr (ctx s) <? argc (ctx s) then
        arg ← load_str (argv (ctx s)) (argctr (ctx s));
        res ← process_one arg;
        if res =? -1 then mret (-1)
        else
          _ ← modify (fun s => set_argctr (argctr (ctx s) + 1) s);
          parse_loop fuel'
      else mret 0
  end.

(** [fuse_opt_insert_arg(&ctx->outargs, pos, arg)]. *)
Definition insert_out (pos : Z) (arg : bytes) : M state Z :=
  s ← get;
  '(args, res) ← fuse_opt_insert_arg (outargs (ctx s)) pos arg;
  _ ← modify (set_outargs args);
  mret res.

(** The removal of a final "--". *)
Definition drop_marker : M state unit :=
  s ← get;
  let out := outargs (ctx s) in
  if negb (nonopt (ctx s) =? 0) && (nonopt (ctx s) =? args_argc out) then
    x ← load_at (args_argv out) (args_argc out - 1);
    _ ← (if x is Some _ then modify (add_blocks (-1)) else mret tt);
    _ ← modify (set_outargs (FuseArgs (args_argc out - 1) (args_argv out) (allocated out)));
    store_at (args_argv out) (args_argc out - 1) None
  else mret tt.

Definition opt_parse : M state Z :=
  s ← get;
  r ← (if negb (argc (ctx s) =? 0) then arg ← load_str (argv (ctx s)) 0; add_arg arg
       else mret 0);
  if r =? -1 then mret (-1)
  else
    _ ← modify (set_argctr 1);
    res ← parse_loop (S (Z.to_nat (argc (ctx s))));
    if res =? -1 then mret (-1)
    else
      s ← get;
      r ← match opts (ctx s) with
          | Some o =>
              r ← insert_out 1 (B "-o");
              if r =? -1 then mret (-1) else insert_out 2 o
          | None => mret 0
          end;
      if r =? -1 then mret (-1) else _ ← drop_marker; mret 0.

(** The result and the new value of [*args]; the context is the local [ctx]. *)
Definition fuse_opt_parse (args : option fuse_args) : M state (option fuse_args * Z) :=
  match args with
  | None => mret (None, 0)
  | Some args =>
      if bool_decide (args_argv args = None) || (args_argc args =? 0) then mret (Some args, 0)
      else
        _ ← modify (set_ctx (Ctx 0 (args_argc args) (args_argv args) (FuseArgs 0 None 0) None 0));
        res ← opt_parse;
        s ← get;
        let out := outargs (ctx s) in
        let args' := if res =? -1 then args else out in
        _ ← modify (set_outargs (if res =? -1 then out else args));
        _ ← modify (add_blocks (if opts (ctx s) is Some _ then -1 else 0));
        s ← get;
        tmp ← fuse_opt_free_args (Some (outargs (ctx s)));
        _ ← modify (fun s => match tmp with Some a => set_outargs a s | None => s end);
        mret (Some args', res)
  end.
End Parser.
