(* ===== verification/FuseOptSpec.v ===== *)
(** The option parser of FUSE as a table-driven translation: which actions the
    arguments ask for, what the actions do to the lists of strings, and the proof
    that the parser over its heap of argument vectors does the same. *)

From S2P Require Import Prelude.
From S2P Require Import CString.
From S2P Require Import CStdio.
From S2P Require Import Chain.
From S2P Require Import FuseOpt.

(** * The actions that the arguments ask for *)

Inductive action :=
| APass (arg : bytes) (key : Z) (iso : bool)      (* to the processing function *)
| AInt (var v : Z)                                (* set a variable *)
| AStr (var : Z) (param : bytes)                  (* set a variable to a copy *)
| AScan (var : Z) (format param : bytes)          (* convert a parameter *)
| AMarker (arg : bytes)                           (* "--" *)
| AFail.                                          (* no argument after an option *)

(** Actions, and the arguments left after them. *)
Definition script : Type := list action * list bytes.

Definition andthen (x : script) (f : list bytes -> script) : script :=
  let '(a, rest) := x in let '(b, rest') := f rest in (a ++ b, rest').

Definition opt_action (o : fuse_opt) (sep : Z) (arg : bytes) (iso : bool) : action :=
  if offset o =? NO_OFFSET then APass arg (value o) iso
  else if negb (sep =? 0) && bool_decide (char_at (templ o) (sep + 1) <> NUL) then
    let param := drop (Z.to_nat sep) arg in
    let param := if decide (char_at (templ o) sep = "="%char) then drop 1 param else param in
    let format := drop (Z.to_nat (sep + 1)) (templ o) in
    if decide (char_at format 1 = "s"%char) then AStr (offset o) param
    else AScan (offset o) format param
  else AInt (offset o) (value o).

(** A template with a space takes the next argument for its parameter. *)
Definition match_script (o : fuse_opt) (sep : Z) (arg : bytes) (iso : bool)
    (rest : list bytes) : script :=
  if negb (sep =? 0) && bool_decide (char_at (templ o) sep = " "%char)
     && bool_decide (char_at arg sep = NUL)
  then match rest with
       | [] => ([AFail], [])
       | param :: rest' => ([opt_action o sep (take (Z.to_nat sep) arg ++ param) iso], rest')
       end
  else ([opt_action o sep arg iso], rest).

(** Every template that matches acts. *)
Fixpoint matches_script (tbl : list fuse_opt) (arg : bytes) (iso : bool) (rest : list bytes)
  : script :=
  match tbl with
  | [] => ([], rest)
  | o :: tbl' =>
      match match_template (templ o) arg with
      | Some sep => andthen (match_script o sep arg iso rest) (matches_script tbl' arg iso)
      | None => matches_script tbl' arg iso rest
      end
  end.

Definition gopt_script (tbl : list fuse_opt) (arg : bytes) (iso : bool) (rest : list bytes)
  : script :=
  if fuse_opt_match tbl arg =? 0 then ([APass arg FUSE_OPT_KEY_OPT iso], rest)
  else matches_script tbl arg iso rest.

(** The text between commas. *)
Fixpoint pieces (s : bytes) : list bytes :=
  match s with
  | [] => [[]]
  | c :: s' =>
      if decide (c = ","%char) then [] :: pieces s'
      else match pieces s' with p :: ps => (c :: p) :: ps | [] => [[c]] end
  end.

Fixpoint pieces_script (tbl : list fuse_opt) (ps : list bytes) (rest : list bytes) : script :=
  match ps with
  | [] => ([], rest)
  | p :: ps' => andthen (gopt_script tbl p true rest) (pieces_script tbl ps')
  end.

(** [marked]: a "--" has been seen. *)
Definition one_script (tbl : list fuse_opt) (marked : bool) (arg : bytes) (rest : list bytes)
  : script :=
  if marked || bool_decide (char_at arg 0 <> "-"%char) then
    ([APass arg FUSE_OPT_KEY_NONOPT false], rest)
  else if decide (char_at arg 1 = "o"%char) then
    if decide (char_at arg 2 <> NUL) then pieces_script tbl (pieces (drop 2 arg)) rest
    else match rest with
         | [] => ([AFail], [])
         | o :: rest' => pieces_script tbl (pieces o) rest'
         end
  else if bool_decide (char_at arg 1 = "-"%char) && bool_decide (char_at arg 2 = NUL) then
    ([AMarker arg], rest)
  else gopt_script tbl arg false rest.

(** * What the actions do *)

(** The arguments kept, the options kept, the position of "--" or 0, the variables
    of the client, and the number of strings allocated for them. *)
Record pst := Pst {
  p_out : list bytes; p_opts : option bytes; p_nonopt : Z; p_data : gmap Z sval; p_kept : Z }.

(** A processing function that leaves the arguments alone: the new variables and
    the result. *)
Definition handler : Type := gmap Z sval -> bytes -> Z -> gmap Z sval * Z.

Definition call_handler (g : handler) (arg : bytes) (key : Z) : M state Z :=
  s ← get;
  let '(d, r) := g (data s) arg key in
  _ ← modify (set_data d);
  mret r.

Definition join_opt (o : option bytes) (opt : bytes) : bytes :=
  match o with
  | None => opt
  | Some old => take (Z.to_nat (to_u32 (strlen old))) old ++ ","%char :: opt
  end.

Definition keep (p : pst) (arg : bytes) (iso : bool) : pst :=
  if iso then Pst (p_out p) (Some (join_opt (p_opts p) arg)) (p_nonopt p) (p_data p) (p_kept p)
  else Pst (p_out p ++ [arg]) (p_opts p) (p_nonopt p) (p_data p) (p_kept p).

Definition with_data (d : gmap Z sval) (p : pst) : pst :=
  Pst (p_out p) (p_opts p) (p_nonopt p) d (p_kept p).

Section Spec.
Context (scan_other : bytes -> bytes -> option (option sval)).
Context (tbl : list fuse_opt) (g : option handler).

(** Whether the action succeeds; [None] is undefined behaviour. *)
Definition perform (a : action) (p : pst) : option (bool * pst) :=
  match a with
  | APass arg key iso =>
      if key =? FUSE_OPT_KEY_DISCARD then Some (true, p)
      else match g with
           | Some f =>
               if negb (key =? FUSE_OPT_KEY_KEEP) then
                 let '(d, r) := f (p_data p) arg key in
                 Some (if r =? -1 then (false, with_data d p)
                       else if r =? 0 then (true, with_data d p)
                       else (true, keep (with_data d p) arg iso))
               else Some (true, keep p arg iso)
           | None => Some (true, keep p arg iso)
           end
  | AInt var v => Some (true, with_data (<[var := VInt v]> (p_data p)) p)
  | AStr var param =>
      Some (true, Pst (p_out p) (p_opts p) (p_nonopt p) (<[var := VStr param]> (p_data p))
                      (p_kept p + 1))
  | AScan var format param =>
      match scan_param scan_other format param with
      | None => None
      | Some None => Some (false, p)
      | Some (Some v) => Some (true, with_data (<[var := v]> (p_data p)) p)
      end
  | AMarker arg =>
      Some (true, Pst (p_out p ++ [arg]) (p_opts p) (Z.of_nat (S (length (p_out p))))
                      (p_data p) (p_kept p))
  | AFail => Some (false, p)
  end.

Fixpoint performs (l : list action) (p : pst) : option (bool * pst) :=
  match l with
  | [] => Some (true, p)
  | a :: l' =>
      match perform a p with
      | Some (true, p') => performs l' p'
      | r => r
      end
  end.

(** The arguments [rest]; [fuel] is more than their number. *)
Fixpoint loop_spec (fuel : nat) (rest : list bytes) (p : pst) : outcome (bool * pst) :=
  match fuel, rest with
  | O, _ => Hang
  | S _, [] => Ret (true, p)
  | S fuel', arg :: rest =>
      let '(acts, rest') := one_script tbl (negb (p_nonopt p =? 0)) arg rest in
      match performs acts p with
      | Some (true, p') => loop_spec fuel' rest' p'
      | Some (false, p') => Ret (false, p')
      | None => UB
      end
  end.

(** The options kept come first, and a "--" that is last goes. *)
Definition finish (p : pst) : list bytes :=
  let out := match p_opts p, p_out p with
             | Some o, a0 :: out => a0 :: B "-o" :: o :: out
             | _, out => out
             end in
  if negb (p_nonopt p =? 0) && (p_nonopt p =? Z.of_nat (length out))
  then take (length out - 1) out else out.

Definition parse_spec (args : list bytes) (d : gmap Z sval) : outcome (bool * pst) :=
  match args with
  | [] => Ret (true, Pst [] None 0 d 0)
  | a0 :: rest => loop_spec (S (length args)) rest (Pst [a0] None 0 d 0)
  end.
End Spec.

(** * The vectors in the heap *)

Definition fresh (s : state) : Prop := forall a, (brk s <= a)%nat -> heap s !! a = None.

(** [args] is the parser's own vector and holds [l]; it has no block when [l] is
    empty. *)
Definition owns (h : gmap nat (list (option bytes))) (args : fuse_args) (l : list bytes) : Prop :=
  match args_argv args with
  | None => l = [] /\ args_argc args = 0
  | Some q => l <> [] /\ allocated args = 1 /\ args_argc args = Z.of_nat (length l) /\
              exists tl, h !! q = Some ((Some <$> l) ++ None :: tl)
  end.

(** The blocks of a vector that holds [l]. *)
Definition vec_blocks (l : list bytes) : Z :=
  match l with [] => 0 | _ => 1 + Z.of_nat (length l) end.

(** From [s] and [args] to [s'] and [args'], no other vector changes or becomes
    that of [args']. *)
Definition apart (s s' : state) (args args' : fuse_args) : Prop :=
  fresh s' /\ data s' = data s /\ ctx s' = ctx s /\
  forall b x, args_argv args <> Some b -> heap s !! b = Some x ->
              heap s' !! b = Some x /\ args_argv args' <> Some b.

Section Heap.
Context (alloc_ok moves : nat -> bool) (all_ok : forall n, alloc_ok n = true).

Lemma zlookup_nat {A} (l : list A) (i : nat) : zlookup l (Z.of_nat i) = l !! i.
Proof. rewrite zlookup_lookup by lia. by rewrite Nat2Z.id. Qed.

Lemma runs_load s a arr (Q : list (option bytes) -> state -> Prop) :
  heap s !! a = Some arr -> Q arr s -> runs (load (Some a)) s Q.
Proof. intros Ha HQ. unfold load. run. by rewrite Ha. Qed.

Lemma runs_load_at s a arr (i : nat) x (Q : option bytes -> state -> Prop) :
  heap s !! a = Some arr -> arr !! i = Some x -> Q x s ->
  runs (load_at (Some a) (Z.of_nat i)) s Q.
Proof.
  intros Ha Hi HQ. unfold load_at. apply runs_bind. eapply runs_load; [done |].
  rewrite zlookup_nat, Hi. done.
Qed.

Lemma runs_store_at s a arr (i : nat) x (Q : unit -> state -> Prop) :
  heap s !! a = Some arr -> (i < length arr)%nat ->
  Q tt (set_heap (<[a := <[i := x]> arr]> (heap s)) s) ->
  runs (store_at (Some a) (Z.of_nat i) x) s Q.
Proof.
  intros Ha Hi HQ. unfold store_at. apply runs_bind. eapply runs_load; [done |].
  apply runs_bind, runs_assert; [apply in_range_spec; lia |].
  unfold store. run. by rewrite Nat2Z.id.
Qed.

Lemma runs_try_alloc s (Q : bool -> state -> Prop) :
  Q true (State (heap s) (brk s) (S (allocs s)) (blocks s) (data s) (ctx s)) ->
  runs (try_alloc alloc_ok) s Q.
Proof. intros HQ. unfold try_alloc. run. by rewrite all_ok. Qed.

Lemma runs_malloc s (Q : bool -> state -> Prop) :
  Q true (State (heap s) (brk s) (S (allocs s)) (blocks s + 1) (data s) (ctx s)) ->
  runs (malloc alloc_ok) s Q.
Proof. intros HQ. unfold malloc. apply runs_bind, runs_try_alloc. run. done. Qed.

(** The array after [realloc], at [q], with two elements more. *)
Lemma runs_realloc s args l (Q : ptr -> state -> Prop) :
  fresh s -> owns (heap s) args l ->
  (forall q s' tl,
     fresh s' -> data s' = data s -> ctx s' = ctx s ->
     blocks s' = blocks s + (if args_argv args is None then 1 else 0) ->
     heap s' !! q = Some ((Some <$> l) ++ tl) -> length tl = 2%nat ->
     (forall b x, args_argv args <> Some b -> heap s !! b = Some x ->
                  heap s' !! b = Some x /\ q <> b) ->
     Q (Some q) s') ->
  runs (realloc alloc_ok moves (args_argv args) (args_argc args + 2)) s Q.
Proof.
  unfold owns. intros Hf Ho HQ. unfold realloc. apply runs_bind, runs_get.
  apply runs_bind, runs_try_alloc. destruct (args_argv args) as [a|].
  - destruct Ho as (Hl & _ & -> & tl & Ha).
    replace (Z.to_nat (Z.of_nat (length l) + 2)) with (length l + 2)%nat by lia.
    apply runs_bind. eapply runs_load; [done |]. cbv zeta.
    set (new := take _ _ ++ _).
    assert (exists tl', new = (Some <$> l) ++ tl' /\ length tl' = 2%nat) as (tl' & -> & Htl).
    { exists (take 2 (None :: tl) ++ replicate (2 - length (take 2 (None :: tl))) None).
      subst new. split; [| rewrite length_app, length_replicate, length_take; lia].
      rewrite app_assoc. f_equal.
      - rewrite take_app_ge by (rewrite length_fmap; lia). f_equal. f_equal.
        rewrite length_fmap. lia.
      - f_equal. rewrite length_app, length_take, length_fmap. cbn [length]. lia. }
    destruct (moves _).
    + run. simpl. eapply HQ with (tl := tl'); simpl; try done.
      * intros b Hb. simpl in *. rewrite lookup_insert_ne by lia.
        destruct (decide (a = b)) as [<-|Hab]; [apply lookup_delete_eq |].
        rewrite lookup_delete_ne by done. apply Hf. lia.
      * simpl. lia.
      * apply lookup_insert_eq.
      * intros b x Hb Hx. assert (brk s <> b) by (intros <-; rewrite Hf in Hx; [done | lia]).
        rewrite lookup_insert_ne, lookup_delete_ne by congruence. done.
    + unfold store. run. simpl. eapply HQ with (tl := tl'); simpl; try done.
      * intros b Hb. simpl in *. destruct (decide (a = b)) as [<-|Hab].
        { rewrite Hf in Ha; [done | lia]. }
        rewrite lookup_insert_ne by done. by apply Hf.
      * lia.
      * apply lookup_insert_eq.
      * intros b x Hb Hx. rewrite lookup_insert_ne by congruence. split; congruence.
  - destruct Ho as [-> ->]. unfold place. run. simpl.
    eapply HQ with (tl := [None; None]); simpl; try done.
    + intros b Hb. simpl in *. rewrite lookup_insert_ne by lia. apply Hf. lia.
    + apply lookup_insert_eq.
    + intros b x _ Hx. assert (brk s <> b) by (intros <-; rewrite Hf in Hx; [done | lia]).
      rewrite lookup_insert_ne by done. done.
Qed.

Lemma runs_fuse_opt_add_arg s args l arg (Q : fuse_args * Z -> state -> Prop) :
  fresh s -> owns (heap s) args l -> Z.of_nat (length l) < 2 ^ 31 - 2 ->
  (forall args' s', owns (heap s') args' (l ++ [arg]) -> apart s s' args args' ->
     blocks s' = blocks s + vec_blocks (l ++ [arg]) - vec_blocks l -> Q (args', 0) s') ->
  runs (fuse_opt_add_arg alloc_ok moves args arg) s Q.
Proof.
  intros Hf Ho Hlen HQ. unfold fuse_opt_add_arg.
  assert (args_argc args = Z.of_nat (length l)) as Hargc.
  { unfold owns in Ho. destruct (args_argv args); [tauto |]. by destruct Ho as [-> ?]. }
  assert (bool_decide (args_argv args <> None) && (allocated args =? 0) = false) as ->.
  { unfold owns in Ho. destruct (args_argv args); [| done]. destruct Ho as (_ & -> & _). done. }
  apply runs_bind, runs_assert; [apply in_range_spec; lia |].
  apply runs_bind, runs_realloc with l; [done | done |].
  intros q s' tl Hf' Hd Hc Hb Hq Htl Hfr.
  apply runs_bind, runs_malloc. rewrite Hargc.
  destruct tl as [|t1 [|t2 [|]]]; try done.
  apply runs_bind. eapply runs_store_at; [done | rewrite length_app, length_fmap; simpl; lia |].
  apply runs_bind. replace (Z.of_nat (length l) + 1) with (Z.of_nat (S (length l))) by lia.
  eapply runs_store_at; [apply lookup_insert_eq | |].
  { rewrite length_insert, length_app, length_fmap. simpl. lia. }
  apply runs_ret. simpl. rewrite insert_insert_eq.
  assert (<[S (length l):=None]> (<[length l:=Some arg]> ((Some <$> l) ++ [t1; t2]))
          = (Some <$> (l ++ [arg])) ++ [None]) as Harr.
  { rewrite insert_app_r_alt by (rewrite length_fmap; lia). rewrite length_fmap, Nat.sub_diag. simpl.
    rewrite insert_app_r_alt by (rewrite length_fmap; lia). rewrite length_fmap.
    replace (S (length l) - length l)%nat with 1%nat by lia. simpl.
    by rewrite fmap_app, <- app_assoc. }
  apply HQ; simpl.
  - unfold owns. simpl. split; [by destruct l |]. split; [done |].
    split; [rewrite length_app; simpl; lia |]. exists []. rewrite lookup_insert_eq. by rewrite Harr.
  - split_and!; simpl; [| done | done |].
    + intros b Hb'. simpl in *. destruct (decide (q = b)) as [<-|].
      { rewrite Hf' in Hq; [done | lia]. }
      rewrite lookup_insert_ne by done. by apply Hf'.
    + intros b x Hb' Hx. destruct (Hfr b x Hb' Hx) as [Hx' Hqb].
      rewrite lookup_insert_ne by done. split; congruence.
  - rewrite Hb. unfold owns in Ho. destruct (args_argv args).
    + destruct Ho as (Hl & _). destruct l; [done |]. simpl. rewrite length_app. simpl. lia.
    + destruct Ho as [-> _]. simpl. lia.
Qed.
(** Moving the elements after [k] by one and setting the [k]-th, by way of
    [memmove] on the array of [l] and a last element [x]. *)
Lemma memmove_insert {A} (l : list A) x (tl : list A) (k : nat) :
  (k <= length l)%nat ->
  let arr := l ++ x :: tl in
  <[k := x]> (take (S k) arr ++ take (length l - k) (drop k arr)
              ++ drop (S (k + (length l - k))) arr)
  = take k l ++ x :: drop k l ++ tl.
Proof.
  intros Hk arr. assert (exists a b, l = a ++ b /\ length a = k) as (a & b & -> & <-).
  { exists (take k l), (drop k l). by rewrite take_drop, length_take_le. }
  unfold arr. clear arr Hk. rewrite take_app_length, drop_app_length.
  rewrite length_app, <- app_assoc. cbn [app].
  replace (length a + length b - length a)%nat with (length b) by lia.
  rewrite drop_app_length, take_app_length.
  replace (take (S (length a)) (a ++ b ++ x :: tl)) with (a ++ take 1 (b ++ x :: tl)).
  2:{ rewrite (take_app_ge a) by lia. do 2 f_equal. lia. }
  replace (drop (S (length a + length b)) (a ++ b ++ x :: tl)) with tl.
  2:{ rewrite app_assoc, drop_app_ge by (rewrite length_app; lia). rewrite length_app.
      by replace (S (length a + length b) - (length a + length b))%nat with 1%nat by lia. }
  rewrite <- app_assoc, insert_app_r_alt by lia. rewrite Nat.sub_diag.
  f_equal. by destruct b.
Qed.

Lemma runs_insert_arg s args l pos arg (Q : fuse_args * Z -> state -> Prop) :
  fresh s -> owns (heap s) args l -> Z.of_nat (length l) < 2 ^ 31 - 2 ->
  (pos <= length l)%nat ->
  (forall args' s', owns (heap s') args' (take pos l ++ arg :: drop pos l) ->
     apart s s' args args' ->
     blocks s' = blocks s + vec_blocks (l ++ [arg]) - vec_blocks l -> Q (args', 0) s') ->
  runs (fuse_opt_insert_arg alloc_ok moves args (Z.of_nat pos) arg) s Q.
Proof.
  intros Hf Ho Hlen Hpos HQ. unfold fuse_opt_insert_arg, fuse_opt_insert_arg_common.
  assert (args_argc args = Z.of_nat (length l)) as Hargc.
  { unfold owns in Ho. destruct (args_argv args); [tauto |]. by destruct Ho as [-> ?]. }
  replace (args_argc args <? Z.of_nat pos) with false by lia.
  apply runs_bind, runs_fuse_opt_add_arg with l; [done | done | done |].
  intros args' s' Ho' Hap Hb. cbn. pose proof Ho' as Ho2. unfold owns in Ho2.
  destruct (args_argv args') as [q|] eqn:Eq; [| by destruct Ho2 as [[]%app_nil _]].
  destruct Ho2 as (_ & Hal & Hargc' & tl & Hq). rewrite length_app in Hargc'. simpl in Hargc'.
  destruct (Z.eqb_spec (Z.of_nat pos) (args_argc args' - 1)) as [E|E]; cbn [negb].
  { apply runs_ret. apply HQ; [| done | done].
    assert (pos = length l) as -> by lia. by rewrite firstn_all, drop_all. }
  rewrite fmap_app, <- app_assoc in Hq. cbn [fmap list_fmap app] in Hq.
  replace (args_argc args' - 1) with (Z.of_nat (length l)) by lia.
  apply runs_bind. eapply runs_load_at; [done | |].
  { rewrite lookup_app_r by (rewrite length_fmap; lia). by rewrite length_fmap, Nat.sub_diag. }
  apply runs_bind. eapply runs_load; [done |].
  apply runs_bind, runs_assert; [apply in_range_spec; lia |]. cbv zeta.
  apply runs_bind. unfold store. apply runs_modify. apply runs_bind.
  rewrite Nat2Z.id.
  replace (Z.to_nat (args_argc args' - Z.of_nat pos - 1)) with (length (Some <$> l) - pos)%nat
    by (rewrite length_fmap; lia).
  eapply runs_store_at; [apply lookup_insert_eq | |].
  { rewrite !length_app, !length_take, length_app, length_fmap. cbn [length]. lia. }
  apply runs_ret. unfold set_heap. cbn [heap brk allocs blocks data ctx]. rewrite insert_insert_eq, memmove_insert by (rewrite length_fmap; lia).
  apply HQ; simpl.
  - unfold owns. rewrite Eq. split; [by destruct (take pos l) |]. split; [done |].
    split; [rewrite length_app, length_take; simpl; rewrite length_drop; lia |].
    exists tl. rewrite lookup_insert_eq. f_equal.
    rewrite fmap_app, fmap_cons, fmap_take, fmap_drop. by rewrite <- app_assoc.
  - destruct Hap as (Hf' & Hd & Hc & Hfr). split_and!; simpl; [| done | done |].
    + intros b Hb'. simpl in *. destruct (decide (q = b)) as [<-|].
      { rewrite Hf' in Hq; [done | lia]. }
      rewrite lookup_insert_ne by done. by apply Hf'.
    + intros b x Hb' Hx. destruct (Hfr b x Hb' Hx) as [Hx' Hqb].
      rewrite Eq in Hqb |- *. rewrite lookup_insert_ne by congruence. done.
  - done.
Qed.

(** Freeing a vector. *)
Lemma runs_free_strings s q arr (n i : nat) (Q : unit -> state -> Prop) :
  heap s !! q = Some arr -> (forall j, (i <= j < i + n)%nat -> exists x, arr !! j = Some (Some x)) ->
  Q tt (add_blocks (- Z.of_nat n) s) ->
  runs (free_strings n (Some q) (Z.of_nat i)) s Q.
Proof.
  revert s i. induction n as [|n IH]; intros s i Hq Harr HQ; cbn [free_strings].
  - apply runs_ret. destruct s. unfold add_blocks in HQ. simpl in *. by rewrite Z.add_0_r in HQ.
  - destruct (Harr i ltac:(lia)) as [x Hx]. apply runs_bind. eapply runs_load_at; [done | done |].
    run. replace (Z.of_nat i + 1) with (Z.of_nat (S i)) by lia.
    apply IH; [done | intros j Hj; apply Harr; lia |].
    unfold add_blocks in *. simpl in *.
    by replace (blocks s + -1 + - Z.of_nat n) with (blocks s + - Z.of_nat (S n)) by lia.
Qed.

Lemma runs_free_vector s args q l tl (Q : option fuse_args -> state -> Prop) :
  args_argv args = Some q -> heap s !! q = Some ((Some <$> l) ++ tl) ->
  args_argc args = Z.of_nat (length l) -> allocated args <> 0 ->
  Q (Some (FuseArgs 0 None 0))
    (add_blocks (- (1 + Z.of_nat (length l))) (set_heap (delete q (heap s)) s)) ->
  runs (fuse_opt_free_args (Some args)) s Q.
Proof.
  intros Hq Ha Hn Hal HQ. unfold fuse_opt_free_args. rewrite Hq.
  apply Z.eqb_neq in Hal. rewrite Hal. apply runs_bind, runs_bind.
  rewrite Hn, Nat2Z.id. change 0 with (Z.of_nat 0).
  eapply runs_free_strings; [done | |].
  { intros j Hj. destruct (lookup_lt_is_Some_2 l j) as [x Hx]; [lia |]. exists x.
    rewrite lookup_app_l by (rewrite length_fmap; lia). by rewrite list_lookup_fmap, Hx. }
  unfold free_array. apply runs_bind. eapply runs_load; [done |]. apply runs_modify, runs_ret.
  unfold add_blocks, set_heap in *. simpl in *.
  by replace (blocks s + - Z.of_nat (length l) + -1)
    with (blocks s + - (1 + Z.of_nat (length l))) by lia.
Qed.
End Heap.

(** * The simulation *)

Definition bounded (p : pst) : Prop := Z.of_nat (length (p_out p)) < 2 ^ 31 - 4.

Section Simulation.
Context (alloc_ok moves : nat -> bool) (all_ok : forall n, alloc_ok n = true).
Context (scan_other : bytes -> bytes -> option (option sval)).
Context (tbl : list fuse_opt) (g : option handler).
(** The vector that is parsed. *)
Context (p0 : nat) (args0 : list bytes) (tl0 : list (option bytes)).

Abbreviation proc := (call_handler <$> g).
Abbreviation performs' := (performs scan_other g).

(** The state in the middle of a parse, with [rest] after the current argument
    and [b0] blocks of others. *)
Record sim (b0 : Z) (s : state) (p : pst) (rest : list bytes) : Prop := Sim {
  sim_fresh : fresh s;
  sim_in : heap s !! p0 = Some ((Some <$> args0) ++ tl0);
  sim_argv : argv (ctx s) = Some p0;
  sim_argc : argc (ctx s) = Z.of_nat (length args0);
  sim_ctr : 0 <= argctr (ctx s);
  sim_rest : drop (Z.to_nat (argctr (ctx s) + 1)) args0 = rest;
  sim_owns : owns (heap s) (outargs (ctx s)) (p_out p);
  sim_apart : args_argv (outargs (ctx s)) <> Some p0;
  sim_opts : opts (ctx s) = p_opts p;
  sim_nonopt : nonopt (ctx s) = p_nonopt p;
  sim_data : data s = p_data p;
  sim_blocks : blocks s = b0 + vec_blocks (p_out p)
                          + (if p_opts p is Some _ then 1 else 0) + p_kept p }.

(** [m] performs [acts], and leaves the arguments [rest']. *)
Definition implements (m : M state Z) (acts : list action) (rest rest' : list bytes) : Prop :=
  forall b0 s p ok p', sim b0 s p rest -> performs' acts p = Some (ok, p') -> bounded p' ->
  runs m s (fun r s' => if ok : bool then r = 0 /\ sim b0 s' p' rest'
                        else r = -1 /\ exists rest'', sim b0 s' p' rest'').

Lemma perform_grows a p ok p' :
  perform scan_other g a p = Some (ok, p') -> (length (p_out p) <= length (p_out p'))%nat.
Proof.
  unfold perform, keep. intros H.
  repeat (case_match; simplify_eq; simpl in *; rewrite ?length_app; try lia).
Qed.

Lemma performs_grows l p ok p' :
  performs' l p = Some (ok, p') -> (length (p_out p) <= length (p_out p'))%nat.
Proof.
  revert p. induction l as [|a l IH]; intros p; simpl; [by intros [= <- <-] |].
  destruct (perform _ _ a p) as [[[] p1]|] eqn:E; [| by intros [= <- <-]; eapply perform_grows |].
  - intros H%IH. apply perform_grows in E. lia.
  - done.
Qed.

Lemma performs_app l k p :
  performs' (l ++ k) p = match performs' l p with
                         | Some (true, p') => performs' k p'
                         | r => r
                         end.
Proof.
  revert p. induction l as [|a l IH]; intros p; simpl; [done |].
  by destruct (perform _ _ a p) as [[[] p1]|].
Qed.

Lemma implements_seq m m2 l k rest mid rest' :
  implements m l rest mid -> implements m2 k mid rest' ->
  implements (r ← m; if r =? -1 then mret (-1) else m2) (l ++ k) rest rest'.
Proof.
  intros H1 H2 b0 s p ok p' Hs. rewrite performs_app.
  destruct (performs' l p) as [[[] p1]|] eqn:E; [| intros [= <- <-] | done].
  - intros Hk Hb. apply runs_bind. eapply runs_mono.
    + apply (H1 b0 s p true p1 Hs E). unfold bounded in *. apply performs_grows in Hk. lia.
    + intros r s' [-> Hs']. by eapply H2.
  - intros Hb. apply runs_bind. eapply runs_mono; [by apply (H1 b0 s p false p1 Hs E) |].
    intros r s' [-> Hs']. done.
Qed.

Lemma implements_nil rest : implements (mret 0) [] rest rest.
Proof. intros b0 s p ok p' Hs [= <- <-] _. by apply runs_ret. Qed.

(** Changes that the simulation does not see, or sees alone. *)
Lemma sim_alloc b0 s p rest n :
  sim b0 s p rest ->
  sim (b0 + n) (State (heap s) (brk s) (S (allocs s)) (blocks s + n) (data s) (ctx s)) p rest.
Proof. intros []. split; try done. simpl. lia. Qed.

Lemma sim_tick b0 s p rest :
  sim b0 s p rest ->
  sim b0 (State (heap s) (brk s) (S (allocs s)) (blocks s) (data s) (ctx s)) p rest.
Proof. intros []. by split. Qed.

Lemma sim_blocks_off b0 s p rest n : sim (b0 + n) s p rest -> sim b0 (add_blocks (- n) s) p rest.
Proof. intros []. split; try done. simpl. lia. Qed.

Lemma sim_set_data b0 s p rest d :
  sim b0 s p rest -> sim b0 (set_data d s) (with_data d p) rest.
Proof. intros []. by split. Qed.

(** A block that lives while [m] runs. *)
Lemma implements_block m l rest rest' b0 s p ok p' :
  implements m l rest rest' -> sim b0 s p rest -> performs' l p = Some (ok, p') -> bounded p' ->
  runs (copy ← malloc alloc_ok;
        if copy : bool then res ← m; _ ← modify (add_blocks (-1)); mret res else mret (-1)) s
       (fun r s' => if ok : bool then r = 0 /\ sim b0 s' p' rest'
                    else r = -1 /\ exists rest'', sim b0 s' p' rest'').
Proof.
  intros Hm Hs Hl Hb. apply runs_bind, runs_malloc; [done |]. apply runs_bind.
  eapply runs_mono; [apply (Hm (b0 + 1) _ p ok p') ; [by apply sim_alloc | done | done] |].
  intros r s'. run. destruct ok.
  - intros [-> Hs']. split; [done |]. by apply (sim_blocks_off _ _ _ _ 1).
  - intros [-> [r'' Hs']]. split; [done |]. exists r''. by apply (sim_blocks_off _ _ _ _ 1).
Qed.

Lemma runs_add_arg b0 s p rest arg :
  sim b0 s p rest -> Z.of_nat (length (p_out p)) < 2 ^ 31 - 2 ->
  runs (add_arg alloc_ok moves arg) s (fun r s' => r = 0 /\ sim b0 s' (keep p arg false) rest).
Proof.
  intros [] Hb. unfold add_arg. run.
  eapply runs_fuse_opt_add_arg; [done | done | done | done |].
  intros args' s' Ho (Hf & Hd & Hc & Hfr) Hbl. run.
  destruct (Hfr p0 _ sim_apart0 sim_in0) as [Hin Hap].
  split; [done |]. split; simpl; rewrite ?Hc, ?Hd; try done.
  rewrite Hbl, sim_blocks0. lia.
Qed.

Lemma runs_add_opt b0 s p rest arg :
  sim b0 s p rest ->
  runs (add_opt alloc_ok arg) s (fun r s' => r = 0 /\ sim b0 s' (keep p arg true) rest).
Proof.
  intros []. unfold add_opt, fuse_opt_add_opt. run. rewrite sim_opts0. simpl.
  destruct (p_opts p) as [o|] eqn:Eo; apply runs_bind.
  - apply runs_bind, runs_try_alloc; [done |]. run. split; [done |].
    by split; simpl.
  - apply runs_bind, runs_malloc; [done |]. run. split; [done |].
    split; simpl; try done. rewrite sim_blocks0. lia.
Qed.

Lemma runs_keep b0 s p rest arg iso :
  sim b0 s p rest -> bounded (keep p arg iso) ->
  runs (if iso then add_opt alloc_ok arg else add_arg alloc_ok moves arg) s
       (fun r s' => r = 0 /\ sim b0 s' (keep p arg iso) rest).
Proof.
  intros Hs Hb. destruct iso; [by apply runs_add_opt |]. apply runs_add_arg; [done |].
  unfold bounded in Hb. simpl in Hb. rewrite length_app in Hb. simpl in Hb. lia.
Qed.

Lemma call_proc_ok arg key iso rest :
  implements (call_proc alloc_ok moves proc arg key iso) [APass arg key iso] rest rest.
Proof.
  intros b0 s p ok p' Hs. unfold call_proc. cbn [performs perform].
  destruct (key =? FUSE_OPT_KEY_DISCARD); [by intros [= <- <-] |].
  destruct g as [f|]; cbn [fmap option_fmap option_map].
  2:{ intros [= <- <-] Hb. by apply runs_keep. }
  destruct (key =? FUSE_OPT_KEY_KEEP); cbn [negb].
  { intros [= <- <-] Hb. by apply runs_keep. }
  rewrite <- (sim_data _ _ _ _ Hs).
  unfold call_handler. destruct (f (data s) arg key) as [d r] eqn:Ef. intros H Hb.
  apply runs_bind, runs_bind, runs_get. rewrite Ef.
  apply runs_bind, runs_modify, runs_ret. pose proof (sim_set_data _ _ _ _ d Hs) as Hs'.
  destruct (Z.eqb_spec r (-1)) as [->|]; [injection H as <- <-; split; eauto |].
  destruct (Z.eqb_spec r 0) as [->|]; injection H as <- <-; [done |].
  by apply runs_keep.
Qed.
(** ** Single options *)

Lemma runs_next_arg b0 s p rest :
  sim b0 s p rest ->
  runs (next_arg) s (fun r s' =>
    match rest with
    | [] => r = -1 /\ sim b0 s' p []
    | arg :: rest' => r = 0 /\ sim b0 s' p rest' /\
        forall Q, Q arg s' -> runs (load_str (argv (ctx s')) (argctr (ctx s'))) s' Q
    end).
Proof.
  intros Hs. pose proof Hs as []. unfold next_arg. apply runs_bind, runs_get. cbv zeta.
  rewrite sim_argc0. set (i := argctr (ctx s)) in *.
  destruct (Z.leb_spec (Z.of_nat (length args0)) (i + 1)) as [Hle|Hlt].
  - run. rewrite drop_ge in sim_rest0 by lia. by subst rest.
  - run. destruct (lookup_lt_is_Some_2 args0 (Z.to_nat (i + 1))) as [x Hx]; [lia |].
    rewrite (drop_S _ _ _ Hx) in sim_rest0. subst rest. split; [done |]. split.
    + split; simpl; try done; [lia |]. f_equal. lia.
    + intros Q HQ. simpl. rewrite sim_argv0. unfold load_str. apply runs_bind.
      rewrite <- (Z2Nat.id (i + 1)) by lia. eapply runs_load_at; [done | |].
      { rewrite lookup_app_l by (rewrite length_fmap; lia). by rewrite list_lookup_fmap, Hx. }
      rewrite Z2Nat.id by lia. apply HQ.
Qed.

Lemma strchr_nonneg s c i : strchr s c = Some i -> 0 <= i.
Proof.
  revert i. induction s as [|x s IH]; intros i; simpl; [done |].
  case_decide; [by intros [= <-] |]. intros (j & ?%IH & ->)%fmap_Some. lia.
Qed.

Lemma match_template_sep t arg sep :
  match_template t arg = Some sep ->
  0 <= sep /\ (sep <> 0 -> char_at t (sep + 1) = NUL \/ char_at t (sep + 1) = "%"%char).
Proof.
  unfold match_template. intros H.
  assert (forall i, match strchr t "=" with Some i => Some i | None => strchr t " " end = Some i ->
          0 <= i) as Hi 
    by (intros i; destruct (strchr t "=") eqn:E; [intros [= <-] |]; eauto using strchr_nonneg).
  destruct (match strchr t "=" with Some _ => _ | None => _ end) as [i|].
  - specialize (Hi i eq_refl). repeat case_match; simplify_eq; try lia.
    all: case_bool_decide; try done.
  - repeat case_match; simplify_eq; lia.
Qed.

Lemma char_at_drop s n i : 0 <= i -> char_at (drop n s) i = char_at s (Z.of_nat n + i).
Proof.
  intros. unfold char_at. rewrite !zlookup_lookup, lookup_drop by lia. do 2 f_equal. lia.
Qed.

(** A template that has matched. *)
Definition matched (o : fuse_opt) (sep : Z) : Prop :=
  0 <= sep /\ (sep <> 0 -> char_at (templ o) (sep + 1) = NUL \/
                          char_at (templ o) (sep + 1) = "%"%char).

Lemma process_opt_ok o sep arg iso rest :
  matched o sep ->
  implements (process_opt alloc_ok moves scan_other proc o sep arg iso)
             [opt_action o sep arg iso] rest rest.
Proof.
  intros [Hsep Hm] b0 s p ok p' Hs. unfold process_opt, opt_action.
  destruct (offset o =? NO_OFFSET).
  { intros Hp Hb. apply runs_bind. eapply runs_mono; [by eapply call_proc_ok |].
    intros r s'. by destruct ok; intros [-> ?]. }
  destruct (negb (sep =? 0) && _) eqn:E.
  2:{ intros [= <- <-] _. run. split; [done |]. rewrite (sim_data _ _ _ _ Hs).
      by apply sim_set_data. }
  apply andb_true_iff in E as [E1 E2%bool_decide_eq_true_1]. cbv zeta.
  set (param := if decide (char_at (templ o) sep = _) then _ else _). clearbody param.
  set (format := drop _ _). unfold process_opt_param.
  assert (char_at format 0 = "%"%char) as ->.
  { unfold format. rewrite char_at_drop, Z2Nat.id, Z.add_0_r by lia.
    destruct Hm as [?|?]; [lia | done | done]. }
  destruct (decide ("%"%char = "%"%char)) as [_|[]]; [| done]. clearbody format.
  destruct (decide (char_at format 1 = "s"%char)); cbn [performs perform].
  - intros [= <- <-] _. apply runs_bind, runs_bind, runs_malloc; [done |]. run.
    split; [done |]. destruct Hs. split; simpl; try done; [by rewrite sim_data0 |]. lia.
  - destruct (scan_param scan_other format param) as [[v|]|]; [| | done].
    + intros [= <- <-] _. run. split; [done |]. simpl. rewrite (sim_data _ _ _ _ Hs).
      by apply sim_set_data.
    + intros [= <- <-] _. run. eauto.
Qed.

Lemma match_ok o sep arg iso rest :
  matched o sep ->
  implements (process_match alloc_ok moves scan_other proc o sep arg iso)
             (fst (match_script o sep arg iso rest)) rest (snd (match_script o sep arg iso rest)).
Proof.
  intros Hm. unfold process_match, match_script.
  destruct (_ && _); [| by apply process_opt_ok]. unfold process_opt_sep_arg.
  intros b0 s p ok p' Hs Hp Hb. apply runs_bind.
  eapply runs_mono; [by apply runs_next_arg |]. intros r s' H. destruct rest as [|arg' rest].
  - destruct H as [-> Hs']. injection Hp as <- <-. run. split; eauto.
  - destruct H as (-> & Hs' & Hload). cbn. run. apply Hload.
    apply runs_bind, runs_malloc; [done |]. apply runs_bind. cbn [fst snd] in *.
    eapply runs_mono.
    { apply (process_opt_ok o sep _ iso rest Hm (b0 + 1) _ p ok p'); [by apply sim_alloc | done | done]. }
    intros r s''. run. destruct ok.
    + intros [-> Hs'']. split; [done |]. by apply (sim_blocks_off _ _ _ _ 1).
    + intros [-> [r'' Hs'']]. split; [done |]. exists r''. by apply (sim_blocks_off _ _ _ _ 1).
Qed.

(** ** Groups of options *)

Lemma andthen_pair x f :
  andthen x f = (fst x ++ fst (f (snd x)), snd (f (snd x))).
Proof. destruct x as [a r]. unfold andthen. simpl. by destruct (f r). Qed.

Lemma gopt_loop_ok l arg iso rest :
  implements (gopt_loop alloc_ok moves scan_other proc l arg iso)
             (fst (matches_script l arg iso rest)) rest (snd (matches_script l arg iso rest)).
Proof.
  revert rest. induction l as [|o l IH]; intros rest; cbn [gopt_loop matches_script].
  { apply implements_nil. }
  destruct (match_template (templ o) arg) as [sep|] eqn:E; [| apply IH].
  rewrite andthen_pair. cbn [fst snd]. eapply implements_seq; [| apply IH].
  apply match_ok. by apply match_template_sep in E.
Qed.

Lemma process_gopt_ok arg iso rest :
  implements (process_gopt alloc_ok moves scan_other tbl proc arg iso)
             (fst (gopt_script tbl arg iso rest)) rest (snd (gopt_script tbl arg iso rest)).
Proof.
  unfold process_gopt, gopt_script, fuse_opt_match. destruct (find_opt tbl arg).
  - apply gopt_loop_ok.
  - apply call_proc_ok.
Qed.

Lemma pieces_strchr s :
  pieces s = match strchr s "," with
             | Some i => take (Z.to_nat i) s :: pieces (drop (Z.to_nat (i + 1)) s)
             | None => [s]
             end.
Proof.
  induction s as [|c s IH]; [done |]. cbn [pieces strchr].
  destruct (decide (c = ","%char)); [done |]. rewrite IH.
  destruct (strchr s ",") as [i|] eqn:E; [| done]. cbn [fmap option_fmap option_map].
  apply strchr_nonneg in E. replace (Z.to_nat (Z.succ i)) with (S (Z.to_nat i)) by lia.
  replace (Z.to_nat (Z.succ i + 1)) with (S (Z.to_nat (i + 1))) by lia. done.
Qed.

Lemma strchr_lt s c i : strchr s c = Some i -> i < strlen s.
Proof.
  unfold strlen. revert i. induction s as [|x s IH]; intros i; simpl; [done |].
  case_decide; [intros [= <-]; lia |]. intros (j & ?%IH & ->)%fmap_Some. lia.
Qed.

Lemma real_group_ok fuel o rest :
  (length o < fuel)%nat ->
  implements (process_real_option_group alloc_ok moves scan_other tbl proc fuel o)
             (fst (pieces_script tbl (pieces o) rest)) rest
             (snd (pieces_script tbl (pieces o) rest)).
Proof.
  revert o rest. induction fuel as [|fuel IH]; intros o rest Hf; [lia |].
  cbn [process_real_option_group]. rewrite pieces_strchr.
  destruct (strchr o ",") as [i|] eqn:E; cbn [pieces_script]; rewrite andthen_pair; cbn [fst snd].
  - eapply implements_seq; [apply process_gopt_ok |]. apply IH.
    apply strchr_nonneg in E as ?. apply strchr_lt in E. unfold strlen in E.
    rewrite length_drop. lia.
  - eapply implements_seq; [apply process_gopt_ok | apply implements_nil].
Qed.

Lemma option_group_ok o rest :
  implements (process_option_group alloc_ok moves scan_other tbl proc o)
             (fst (pieces_script tbl (pieces o) rest)) rest
             (snd (pieces_script tbl (pieces o) rest)).
Proof.
  unfold process_option_group. destruct (strchr o ",") as [i|] eqn:E.
  - intros b0 s p ok p' Hs Hp Hb. eapply implements_block; [| done | done | done].
    apply real_group_ok. lia.
  - rewrite pieces_strchr, E. cbn [pieces_script]. rewrite andthen_pair. cbn [fst snd].
    rewrite app_nil_r. apply process_gopt_ok.
Qed.
(** ** The loop over the arguments *)

Lemma owns_argc h args l : owns h args l -> args_argc args = Z.of_nat (length l).
Proof. unfold owns. destruct (args_argv args); [tauto | by intros [-> ?]]. Qed.

Lemma one_ok arg rest b0 s p ok p' :
  sim b0 s p rest ->
  let script := one_script tbl (negb (p_nonopt p =? 0)) arg rest in
  performs' (fst script) p = Some (ok, p') -> bounded p' ->
  runs (process_one alloc_ok moves scan_other tbl proc arg) s
       (fun r s' => if ok : bool then r = 0 /\ sim b0 s' p' (snd script)
                    else r = -1 /\ exists rest'', sim b0 s' p' rest'').
Proof.
  intros Hs. cbv zeta. unfold process_one, one_script. intros Hp Hb.
  apply runs_bind, runs_get. rewrite (sim_nonopt _ _ _ _ Hs).
  destruct (negb (p_nonopt p =? 0) || _); [by eapply call_proc_ok |].
  destruct (decide (char_at arg 1 = "o"%char)).
  { destruct (decide (char_at arg 2 <> NUL)); [by eapply option_group_ok |].
    apply runs_bind. eapply runs_mono; [by apply runs_next_arg |].
    intros r s' H. destruct rest as [|o rest].
    - destruct H as [-> Hs']. injection Hp as <- <-. run. split; eauto.
    - destruct H as (-> & Hs' & Hload). change (0 =? -1) with false. cbv iota. run. apply Hload. by eapply option_group_ok. }
  destruct (_ && _); [| by eapply process_gopt_ok].
  injection Hp as <- <-. apply runs_bind. eapply runs_mono; [apply runs_add_arg; [done |] |].
  { unfold bounded in Hb. simpl in Hb. rewrite length_app in Hb. simpl in Hb. lia. }
  intros r s' [-> Hs']. run. split; [done |]. destruct Hs'. split; simpl in *; try done.
  rewrite (owns_argc _ _ _ sim_owns0), length_app. simpl. lia.
Qed.

Lemma loop_grows fuel rest p ok p' :
  loop_spec scan_other tbl g fuel rest p = Ret (ok, p') ->
  (length (p_out p) <= length (p_out p'))%nat.
Proof.
  revert rest p. induction fuel as [|fuel IH]; intros rest p; cbn [loop_spec]; [done |].
  destruct rest as [|arg rest]; [by intros [= <- <-] |].
  destruct (one_script _ _ _ _) as [acts rest'].
  destruct (performs' acts p) as [[[] p1]|] eqn:E; apply performs_grows in E || clear E.
  - intros H%IH. lia.
  - by intros [= <- <-].
  - done.
Qed.

Lemma parse_loop_ok fuel todo b0 s p ok p' :
  sim b0 s p (drop 1 todo) -> drop (Z.to_nat (argctr (ctx s))) args0 = todo ->
  loop_spec scan_other tbl g fuel todo p = Ret (ok, p') -> bounded p' ->
  runs (parse_loop alloc_ok moves scan_other tbl proc fuel) s
       (fun r s' => r = (if ok : bool then 0 else -1) /\ exists rest, sim b0 s' p' rest).
Proof.
  revert todo s p. induction fuel as [|fuel IH]; intros todo s p Hs Htodo; [done |].
  cbn [parse_loop loop_spec]. intros Hp Hb. apply runs_bind, runs_get.
  pose proof Hs as []. rewrite sim_argc0. destruct todo as [|arg rest].
  { injection Hp as <- <-. apply (f_equal length) in Htodo. rewrite length_drop in Htodo.
    simpl in Htodo. replace (_ <? _) with false by lia. run. eauto. }
  assert (args0 !! Z.to_nat (argctr (ctx s)) = Some arg) as Hx.
  { rewrite <- (Nat.add_0_r (Z.to_nat _)), <- lookup_drop, Htodo. done. }
  apply lookup_lt_Some in Hx as Hlt. replace (_ <? _) with true by lia.
  apply runs_bind. unfold load_str. rewrite sim_argv0. apply runs_bind.
  rewrite <- (Z2Nat.id (argctr (ctx s))) by lia. eapply runs_load_at; [done | |].
  { rewrite lookup_app_l by (rewrite length_fmap; lia). by rewrite list_lookup_fmap, Hx. }
  apply runs_ret. apply runs_bind.
  pose proof (one_ok arg rest b0 s p) as Hone. cbv zeta in Hone.
  destruct (one_script tbl (negb (p_nonopt p =? 0)) arg rest) as [acts rest'].
  destruct (performs' acts p) as [[[] p1]|] eqn:E; [| | done].
  - eapply runs_mono; [apply (Hone true p1); [done | done |] |].
    { apply loop_grows in Hp. unfold bounded in *. lia. }
    cbn [snd]. intros r s' [-> Hs']. run. eapply IH; [| | done | done].
    + destruct Hs'. split; simpl; try done; [lia |]. rewrite <- sim_rest1, drop_drop.
      f_equal. lia.
    + simpl. by destruct Hs'.
  - injection Hp as <- <-. eapply runs_mono; [by apply (Hone false p1) |].
    intros r s' [-> Hs']. run. done.
Qed.
(** ** The end of a parse *)

Definition with_out (l : list bytes) (p : pst) : pst :=
  Pst l (p_opts p) (p_nonopt p) (p_data p) (p_kept p).

Lemma vec_blocks_length l k : length l = length k -> vec_blocks l = vec_blocks k.
Proof. destruct l, k; simpl; lia. Qed.

Lemma runs_insert_out b0 s p rest pos arg :
  sim b0 s p rest -> (pos <= length (p_out p))%nat -> Z.of_nat (length (p_out p)) < 2 ^ 31 - 2 ->
  runs (insert_out alloc_ok moves (Z.of_nat pos) arg) s
       (fun r s' => r = 0 /\
          sim b0 s' (with_out (take pos (p_out p) ++ arg :: drop pos (p_out p)) p) rest).
Proof.
  intros [] Hpos Hb. unfold insert_out. run.
  eapply runs_insert_arg; [done | done | done | done | done |].
  intros args' s' Ho (Hf & Hd & Hc & Hfr) Hbl. run.
  destruct (Hfr p0 _ sim_apart0 sim_in0) as [Hin Hap].
  split; [done |]. split; simpl; rewrite ?Hc, ?Hd; try done.
  rewrite Hbl, sim_blocks0.
  rewrite (vec_blocks_length (take _ _ ++ _) (p_out p ++ [arg])); [lia |].
  rewrite !length_app, length_take. cbn [length]. rewrite length_drop. lia.
Qed.

(** The list without its last element, if that is the marker. *)
Definition unmark (n : Z) (l : list bytes) : list bytes :=
  if negb (n =? 0) && (n =? Z.of_nat (length l)) then take (length l - 1) l else l.

Lemma runs_drop_marker b0 s p rest :
  sim b0 s p rest -> p_nonopt p = 0 \/ 2 <= p_nonopt p ->
  runs drop_marker s (fun _ s' => sim b0 s' (with_out (unmark (p_nonopt p) (p_out p)) p) rest).
Proof.
  intros Hs Hn. pose proof Hs as []. unfold drop_marker, unmark. apply runs_bind, runs_get.
  cbv zeta. rewrite sim_nonopt0, (owns_argc _ _ _ sim_owns0).
  destruct (negb _ && _) eqn:E; [| apply runs_ret; by destruct p].
  assert (p_nonopt p = Z.of_nat (length (p_out p)) /\ 2 <= p_nonopt p) as [Hlen Hge] by lia.
  clear E.
  unfold owns in sim_owns0. destruct (args_argv (outargs (ctx s))) as [q|] eqn:Eq.
  2:{ destruct sim_owns0 as [Ho _]. rewrite Ho in Hlen. simpl in Hlen. lia. }
  destruct sim_owns0 as (Hne & Hal & Hargc & tl & Hq).
  destruct (p_out p) as [|x l _] eqn:El using rev_ind; [done |]. rewrite <- El in Hlen.
  rewrite length_app in *. simpl length in *.
  replace (length l + 1 - 1)%nat with (length l) by lia. rewrite take_app_length.
  replace (Z.of_nat (length l + 1) - 1) with (Z.of_nat (length l)) by lia.
  rewrite fmap_app, <- app_assoc in Hq. cbn [fmap list_fmap app] in Hq.
  apply runs_bind. eapply runs_load_at; [done | |].
  { rewrite lookup_app_r by (rewrite length_fmap; lia). by rewrite length_fmap, Nat.sub_diag. }
  run. eapply runs_store_at; [done | rewrite length_app, length_fmap; simpl; lia |].
  rewrite insert_app_r_alt by (rewrite length_fmap; lia). rewrite length_fmap, Nat.sub_diag.
  cbn [insert list_insert]. rewrite El in Hlen. rewrite length_app in Hlen. simpl in Hlen.
  assert (q <> p0) as Hqp by congruence.
  split; simpl; try done.
  - intros b Hb. simpl in *. destruct (decide (q = b)) as [<-|].
    { rewrite sim_fresh0 in Hq; [done | lia]. }
    rewrite lookup_insert_ne by done. by apply sim_fresh0.
  - by rewrite lookup_insert_ne.
  - unfold owns. simpl. split; [by destruct l; [simpl in *; lia |] |]. split; [done |].
    split; [done |]. exists (None :: tl). by rewrite lookup_insert_eq.
  - rewrite sim_blocks0. destruct l; [simpl in *; lia |]. simpl. rewrite length_app. simpl. lia.
Qed.

Lemma finish_unmark p :
  finish p = unmark (p_nonopt p) (match p_opts p, p_out p with
                                  | Some o, a0 :: out => a0 :: B "-o" :: o :: out
                                  | _, out => out
                                  end).
Proof. done. Qed.

Definition marked_ok (p : pst) : Prop :=
  (1 <= length (p_out p))%nat /\ (p_nonopt p = 0 \/ 2 <= p_nonopt p).

Lemma perform_marked a p ok p' :
  perform scan_other g a p = Some (ok, p') -> marked_ok p -> marked_ok p'.
Proof.
  unfold perform, keep, marked_ok. intros H.
  repeat (case_match; simplify_eq; simpl in *; rewrite ?length_app; try lia).
Qed.

Lemma performs_marked l p ok p' : performs' l p = Some (ok, p') -> marked_ok p -> marked_ok p'.
Proof.
  revert p. induction l as [|a l IH]; intros p; simpl; [by intros [= <- <-] |].
  destruct (perform _ _ a p) as [[[] p1]|] eqn:E; [| by intros [= <- <-]; eapply perform_marked |].
  - intros H Hm. eapply IH; [done |]. by eapply perform_marked.
  - done.
Qed.

Lemma loop_marked fuel rest p ok p' :
  loop_spec scan_other tbl g fuel rest p = Ret (ok, p') -> marked_ok p -> marked_ok p'.
Proof.
  revert rest p. induction fuel as [|fuel IH]; intros rest p; cbn [loop_spec]; [done |].
  destruct rest as [|arg rest]; [by intros [= <- <-] |].
  destruct (one_script _ _ _ _) as [acts rest'].
  destruct (performs' acts p) as [[[] p1]|] eqn:E; [| | done].
  - intros H Hm. eapply IH; [done |]. by eapply performs_marked.
  - intros [= <- <-]. by eapply performs_marked.
Qed.

Lemma opt_parse_ok b0 s a0 rest0 d ok p' :
  args0 = a0 :: rest0 ->
  sim b0 s (Pst [] None 0 d 0) rest0 ->
  parse_spec scan_other tbl g args0 d = Ret (ok, p') -> bounded p' ->
  runs (opt_parse alloc_ok moves scan_other tbl proc) s
       (fun r s' => r = (if ok : bool then 0 else -1) /\
          exists rest, sim b0 s' (if ok : bool then with_out (finish p') p' else p') rest).
Proof.
  intros Hargs Hs Hspec Hb. unfold opt_parse. apply runs_bind, runs_get.
  rewrite (sim_argc _ _ _ _ Hs), (sim_argv _ _ _ _ Hs), Nat2Z.id.
  rewrite Hargs in Hspec. cbn [parse_spec] in Hspec. rewrite <- Hargs in Hspec.
  assert (negb (Z.of_nat (length args0) =? 0) = true) as -> by (rewrite Hargs; simpl; lia).
  apply runs_bind, runs_bind. unfold load_str. apply runs_bind. change 0 with (Z.of_nat 0) at 1.
  eapply runs_load_at; [by apply (sim_in _ _ _ _ Hs) | by rewrite Hargs |]. apply runs_ret.
  eapply runs_mono; [by apply (runs_add_arg b0 s _ _ _ Hs) |].
  intros r s1 [-> Hs1]. change (0 =? -1) with false. cbv iota. apply runs_bind, runs_modify.
  apply runs_bind. eapply runs_mono.
  { eapply parse_loop_ok with (b0 := b0) (todo := rest0); [ | | exact Hspec | done].
    - destruct Hs1. split; simpl; try done. by rewrite Hargs.
    - simpl. by rewrite Hargs. }
  intros r s2 [-> [rest Hs2]]. destruct ok; [| run; split; eauto].
  change (0 =? -1) with false. cbv iota. apply runs_bind, runs_get.
  apply loop_marked in Hspec as [Hlen Hmark]; [| split; simpl; lia].
  unfold bounded in Hb. apply runs_bind.
  assert (runs match opts (ctx s2) with
    | Some o => r ← insert_out alloc_ok moves 1 (B "-o");
                if r =? -1 then mret (-1) else insert_out alloc_ok moves 2 o
    | None => mret 0
    end s2 (fun r s' => r = 0 /\ sim b0 s' (with_out (match p_opts p', p_out p' with
        | Some o, a0 :: out => a0 :: B "-o" :: o :: out
        | _, out => out
        end) p') rest)) as Hins.
  { rewrite (sim_opts _ _ _ _ Hs2). destruct (p_opts p') as [o|] eqn:Eo.
    2:{ apply runs_ret. split; [done |]. by destruct p'. }
    destruct (p_out p') as [|x out] eqn:El; [simpl in Hlen; lia |]. apply runs_bind.
    eapply runs_mono; [apply (runs_insert_out b0 _ _ _ 1 _ Hs2); rewrite El; simpl in *; lia |].
    intros r s3 [-> Hs3]. change (0 =? -1) with false. cbv iota. rewrite El in Hs3.
    simpl in Hs3. rewrite drop_0 in Hs3.
    eapply runs_mono; [apply (runs_insert_out b0 _ _ _ 2 _ Hs3); simpl in *; lia |].
    intros r s4 [-> Hs4]. split; [done |]. simpl in Hs4. by rewrite drop_0 in Hs4. }
  eapply runs_mono; [exact Hins |]. clear Hins. intros r s3 [-> Hs3].
  change (0 =? -1) with false. cbv iota. apply runs_bind.
  eapply runs_mono; [by apply (runs_drop_marker b0 _ _ _ Hs3) |].
  intros u s4 Hs4. run. rewrite finish_unmark. split; [done |]. exists rest. exact Hs4.
Qed.
(** ** The scripts and the fuel *)

Definition shrinks (rest : list bytes) (x : script) : Prop :=
  (length (snd x) <= length rest)%nat.

Lemma shrinks_refl rest a : shrinks rest (a, rest).
Proof. unfold shrinks. simpl. lia. Qed.

Lemma andthen_shrinks rest x f :
  shrinks rest x -> (forall r, shrinks r (f r)) -> shrinks rest (andthen x f).
Proof.
  intros Hx Hf. rewrite andthen_pair. unfold shrinks in *. simpl. specialize (Hf (snd x)). lia.
Qed.

Lemma matches_shrinks l arg iso rest : shrinks rest (matches_script l arg iso rest).
Proof.
  revert rest. induction l as [|o l IH]; intros rest; cbn [matches_script]; [apply shrinks_refl |].
  destruct (match_template _ _); [| apply IH]. apply andthen_shrinks; [| exact IH].
  unfold match_script, shrinks. destruct (_ && _); [| done]. destruct rest; simpl; lia.
Qed.

Lemma pieces_shrinks ps rest : shrinks rest (pieces_script tbl ps rest).
Proof.
  revert rest. induction ps as [|p ps IH]; intros rest; cbn [pieces_script]; [apply shrinks_refl |].
  apply andthen_shrinks; [| exact IH]. unfold gopt_script.
  destruct (_ =? 0); [apply shrinks_refl | apply matches_shrinks].
Qed.

Lemma one_shrinks marked arg rest : shrinks rest (one_script tbl marked arg rest).
Proof.
  unfold one_script. destruct (marked || _); [apply shrinks_refl |].
  destruct (decide (char_at arg 1 = "o"%char)).
  { destruct (decide (char_at arg 2 <> NUL)); [apply pieces_shrinks |].
    destruct rest as [|o rest]; [apply shrinks_refl |].
    pose proof (pieces_shrinks (pieces o) rest). unfold shrinks in *. simpl. lia. }
  destruct (_ && _); [apply shrinks_refl |]. unfold gopt_script.
  destruct (_ =? 0); [apply shrinks_refl | apply matches_shrinks].
Qed.

Lemma loop_no_hang fuel rest p :
  (length rest < fuel)%nat -> loop_spec scan_other tbl g fuel rest p <> Hang.
Proof.
  revert rest p. induction fuel as [|fuel IH]; intros rest p Hf; [lia |]. cbn [loop_spec].
  destruct rest as [|arg rest]; [done |]. pose proof (one_shrinks (negb (p_nonopt p =? 0)) arg rest).
  destruct (one_script _ _ _ _) as [acts rest']. unfold shrinks in *. simpl in *.
  destruct (performs' acts p) as [[[] p1]|]; try done. apply IH. lia.
Qed.

Lemma loop_no_exit fuel rest p z : loop_spec scan_other tbl g fuel rest p <> Exit z.
Proof.
  revert rest p. induction fuel as [|fuel IH]; intros rest p; cbn [loop_spec]; [done |].
  destruct rest as [|arg rest]; [done |]. destruct (one_script _ _ _ _) as [acts rest'].
  destruct (performs' acts p) as [[[] p1]|]; try done.
Qed.
End Simulation.

(** What [fuse_opt_parse] does, by the table-driven translation. *)
Definition parsed (s : state) (args : fuse_args) (args0 : list bytes) (ok : bool) (p : pst)
    (res : option fuse_args * Z) (s' : state) : Prop :=
  fresh s' /\ data s' = p_data p /\
  if ok then
    snd res = 0 /\
    (exists out, fst res = Some out /\ owns (heap s') out (finish p)) /\
    blocks s' = blocks s + vec_blocks (finish p) + p_kept p
                - (if allocated args =? 0 then 0 else vec_blocks args0)
  else
    snd res = -1 /\ fst res = Some args /\ blocks s' = blocks s + p_kept p /\
    forall a, args_argv args = Some a -> heap s' !! a = heap s !! a.

Lemma delete_stays_none (h : gmap nat (list (option bytes))) q a :
  h !! a = None -> delete q h !! a = None.
Proof.
  intros. destruct (decide (q = a)) as [->|]; [apply lookup_delete_eq |].
  by rewrite lookup_delete_ne.
Qed.

Lemma parse_runs alloc_ok moves (all_ok : forall n, alloc_ok n = true) scan_other tbl g
    s args p0 args0 tl0 ok p :
  fresh s -> args_argv args = Some p0 -> heap s !! p0 = Some ((Some <$> args0) ++ tl0) ->
  args_argc args = Z.of_nat (length args0) -> args0 <> [] ->
  parse_spec scan_other tbl g args0 (data s) = Ret (ok, p) -> bounded p ->
  runs (fuse_opt_parse alloc_ok moves scan_other tbl (call_handler <$> g) (Some args)) s
       (parsed s args args0 ok p).
Proof.
  intros Hf Hp0 Hin Hargc Hne E Hb. unfold fuse_opt_parse. rewrite Hp0, Hargc.
  destruct args0 as [|a0 rest0] eqn:Ea; [done |].
  rewrite <- Ea in *.
  replace (bool_decide _ || _) with false by (rewrite Ea; simpl; lia).
  run. eapply runs_mono.
  { eapply (opt_parse_ok alloc_ok moves all_ok scan_other tbl g p0 args0 tl0 (blocks s));
      [exact Ea | | rewrite Ea in E |- *; exact E | done].
    split; simpl; try done; [by rewrite Ea | lia]. }
  intros r s1 [-> [rest Hs1]]. apply runs_bind, runs_get. cbv zeta.
  destruct ok; destruct Hs1; cbn -[fuse_opt_free_args] in *; apply runs_bind, runs_modify, runs_bind, runs_modify;
    apply runs_bind, runs_get; cbn [set_outargs set_ctx add_blocks ctx outargs opts]; apply runs_bind.
  - assert (forall h n, (forall a, args_argv (outargs (ctx s1)) = Some a -> h !! a = heap s1 !! a) ->
      (forall a, heap s1 !! a = None -> h !! a = None) -> n = (if allocated args =? 0 then 0 else vec_blocks args0) ->
      parsed s args args0 true p (Some (outargs (ctx s1)), 0)
        (State h (brk s1) (allocs s1)
               (blocks s1 + (if opts (ctx s1) is Some _ then -1 else 0) - n) (data s1) (ctx s1)))
      as Hdone.
    { intros h n Hh Hnone ->. unfold parsed. simpl. split; [intros a ?; auto |].
      split; [done |]. split; [done |]. split.
      - exists (outargs (ctx s1)). split; [done |]. unfold owns in *.
        destruct (args_argv (outargs (ctx s1))); [| done]. by rewrite (Hh n).
      - rewrite sim_opts0, sim_blocks0. destruct (p_opts p); lia. }
    destruct (Z.eqb_spec (allocated args) 0) as [Hal|Hal].
    + unfold fuse_opt_free_args. rewrite Hp0, Hal. run. simpl.
      specialize (Hdone (heap s1) 0 ltac:(done) ltac:(done) ltac:(done)).
      rewrite Z.sub_0_r in Hdone. exact Hdone.
    + eapply runs_free_vector; [exact Hp0 | exact sim_in0 | exact Hargc | exact Hal |]. run.
      refine (Hdone (delete p0 (heap s1)) (1 + Z.of_nat (length args0)) _ _ _).
      * intros a Ha. exact (lookup_delete_ne (heap s1) p0 a ltac:(congruence)).
      * apply delete_stays_none.
      * by rewrite Ea.
  - assert (forall h n, h !! p0 = heap s1 !! p0 ->
      (forall a, heap s1 !! a = None -> h !! a = None) -> n = vec_blocks (p_out p) ->
      parsed s args args0 false p (Some args, -1)
        (State h (brk s1) (allocs s1)
               (blocks s1 + (if opts (ctx s1) is Some _ then -1 else 0) - n) (data s1) (ctx s1)))
      as Hdone.
    { intros h n Hh Hnone ->. unfold parsed. simpl. split_and!; try done.
      - intros a ?. auto.
      - rewrite sim_opts0, sim_blocks0. destruct (p_opts p); lia.
      - intros a Ha. assert (a = p0) as -> by congruence. rewrite Hh. congruence. }
    unfold owns in sim_owns0. destruct (args_argv (outargs (ctx s1))) as [q|] eqn:Eq.
    + destruct sim_owns0 as (Hl & Hal & Hn & tl & Hq).
      eapply runs_free_vector; [exact Eq | exact Hq | exact Hn | lia |]. run.
      refine (Hdone (delete q (heap s1)) (1 + Z.of_nat (length (p_out p))) _ _ _).
      * exact (lookup_delete_ne (heap s1) q p0 ltac:(congruence)).
      * apply delete_stays_none.
      * by destruct (p_out p).
    + destruct sim_owns0 as [Hl _]. unfold fuse_opt_free_args. rewrite Eq. run.
      specialize (Hdone (heap s1) 0 ltac:(done) ltac:(done) ltac:(by rewrite Hl)).
      rewrite Z.sub_0_r in Hdone. exact Hdone.
Qed.

(** C29. When every allocation succeeds, fuse_opt_parse, for any table of
    templates, a processing function that leaves the arguments alone, and a
    vector that is not empty, does what the table-driven translation says: which
    strings end in the new vector and in which order, which variables of the
    client are set, success or failure; when the options are refused the
    arguments are unchanged, and no block is lost on either path. The numbers
    that are scanned are within what sscanf defines, and the new vector is
    within an int. Without memory the code may free a vector twice
    (fuse_opt.c:57). *)
Theorem fuse_opt_parse_refines alloc_ok moves scan_other tbl g s args p0 args0 tl0 :
  (forall n, alloc_ok n = true) -> fresh s ->
  args_argv args = Some p0 -> heap s !! p0 = Some ((Some <$> args0) ++ tl0) ->
  args_argc args = Z.of_nat (length args0) -> args0 <> [] ->
  match parse_spec scan_other tbl g args0 (data s) with
  | Ret (ok, p) =>
      bounded p ->
      runs (fuse_opt_parse alloc_ok moves scan_other tbl (call_handler <$> g) (Some args)) s
           (parsed s args args0 ok p)
  | UB => True
  | Exit _ | Hang => False
  end.
Proof.
  intros all_ok Hf Hp0 Hin Hargc Hne.
  destruct (parse_spec _ _ _ _ _) as [[ok p]|z| |] eqn:E; try done.
  - intros Hb. by eapply parse_runs.
  - destruct args0; [done |]. by apply loop_no_exit in E.
  - destruct args0; [done |]. apply loop_no_hang in E; [done | simpl; lia].
Qed.

(** * A sample *)

(** A process that holds one vector, of the arguments [l]. *)
Definition sample_state (l : list bytes) : state :=
  State {[0%nat := (Some <$> l) ++ [None]]} 1 0 0 ∅ (Ctx 0 0 None (FuseArgs 0 None 0) None 0).

Definition sample_args (l : list bytes) : fuse_args :=
  FuseArgs (Z.of_nat (length l)) (Some 0%nat) 0.

(** What the mount script gives to catalogfs, with two more options. *)
Definition sample_line : list bytes :=
  map B ["catalogfs"; "/mnt"; "-ofsname=a.catalog,umask=22"; "-s"; "-f"; "-o"; "ro"; "--"]%string.

Definition sample_templates : list fuse_opt :=
  [FuseOpt (B "umask=%d") 16 0; FuseOpt (B "-f") 24 1; FuseOpt (B "-s ") NO_OFFSET FUSE_OPT_KEY_DISCARD].

Lemma sample_fresh l : fresh (sample_state l).
Proof. intros a Ha. simpl in Ha. apply lookup_singleton_None. lia. Qed.

Lemma fuse_opt_parse_refines_witness :
  let no_scan := fun _ _ => None in
  exists p, parse_spec no_scan sample_templates None sample_line ∅ = Ret (true, p) /\
  finish p = map B ["catalogfs"; "-o"; "fsname=a.catalog,ro"; "/mnt"; "--"]%string /\
  runs (fuse_opt_parse (fun _ => true) Nat.even no_scan sample_templates None
          (Some (sample_args sample_line))) (sample_state sample_line)
       (parsed (sample_state sample_line) (sample_args sample_line) sample_line true p).
Proof.
  pose proof (fuse_opt_parse_refines (fun _ => true) Nat.even (fun _ _ => None) sample_templates
    None (sample_state sample_line) (sample_args sample_line) 0 sample_line [None]
    (fun _ => eq_refl) (sample_fresh _) eq_refl ltac:(apply lookup_singleton_eq) eq_refl
    ltac:(discriminate)) as H.
  destruct (parse_spec _ _ _ _ _) as [[ok p]| | |] eqn:E; [| done | vm_compute in E; discriminate | done].
  vm_compute in E. injection E as <- <-. eexists. split; [reflexivity |].
  split; [vm_compute; reflexivity |]. apply H. vm_compute. reflexivity.
Defined.
