(* ===== verification/FuseOptProps.v ===== *)
(** Properties of the option parser of FUSE: its output is a fixed point when no
    template matches, and the error path of [fuse_opt_add_arg]. *)

From S2P Require Import Prelude.
From S2P Require Import CString.
From S2P Require Import CStdio.
From S2P Require Import Chain.
From S2P Require Import FuseOpt.
From S2P Require Import FuseOptSpec.

(** * Arguments without templates and processing function *)

Definition is_marker (a : bytes) : bool :=
  bool_decide (char_at a 0 = "-"%char) && bool_decide (char_at a 1 = "-"%char)
  && bool_decide (char_at a 2 = NUL).

Definition is_group (a : bytes) : bool :=
  bool_decide (char_at a 0 = "-"%char) && bool_decide (char_at a 1 = "o"%char).

(** No group of options before the marker. *)
Fixpoint settled (marked : bool) (l : list bytes) : Prop :=
  match l with
  | [] => True
  | a :: l' => (marked = false -> is_group a = false) /\ settled (marked || is_marker a) l'
  end.

(** A "-o" at the end, before any marker. *)
Fixpoint unfinished (marked : bool) (l : list bytes) : bool :=
  match l with
  | [] => false
  | a :: l' =>
      if negb marked && is_group a then
        if decide (char_at a 2 <> NUL) then unfinished marked l'
        else match l' with [] => true | _ :: l'' => unfinished marked l'' end
      else unfinished (marked || is_marker a) l'
  end.

(** The position of the marker, for [l] after [n] arguments. *)
Fixpoint marker_place (n : nat) (nonopt : Z) (l : list bytes) : Z :=
  match l with
  | [] => nonopt
  | a :: l' => marker_place (S n) (if (nonopt =? 0) && is_marker a then Z.of_nat (S n) else nonopt) l'
  end.

Lemma marker_fixed n z l : z <> 0 -> marker_place n z l = z.
Proof.
  revert n. induction l as [|a l IH]; intros n Hz; simpl; [done |].
  replace (z =? 0) with false by lia. by apply IH.
Qed.

Lemma marker_app n z l k : marker_place n z (l ++ k) = marker_place (n + length l) (marker_place n z l) k.
Proof.
  revert n z. induction l as [|a l IH]; intros n z; simpl; [by rewrite Nat.add_0_r |].
  rewrite IH. f_equal. lia.
Qed.

Lemma marker_bound n l : marker_place n 0 l = 0 \/ Z.of_nat n < marker_place n 0 l <= Z.of_nat (n + length l).
Proof.
  revert n. induction l as [|a l IH]; intros n; simpl; [by left |].
  destruct (is_marker a); simpl.
  - rewrite marker_fixed by lia. lia.
  - specialize (IH (S n)). lia.
Qed.

Section Plain.
Context (scan_other : bytes -> bytes -> option (option sval)).
Abbreviation performs0 := (performs scan_other None).
Abbreviation loop0 := (loop_spec scan_other [] None).

Definition with_opts (o : option bytes) (p : pst) : pst :=
  Pst (p_out p) o (p_nonopt p) (p_data p) (p_kept p).

Fixpoint join_all (o : option bytes) (l : list bytes) : option bytes :=
  match l with
  | [] => o
  | x :: l' => join_all (Some (join_opt o x)) l'
  end.

Lemma pieces_script_plain l rest :
  pieces_script [] l rest = (map (fun x => APass x FUSE_OPT_KEY_OPT true) l, rest).
Proof. induction l as [|x l IH]; [done |]. simpl. by rewrite IH. Qed.

Lemma performs_options l p :
  performs0 (map (fun x => APass x FUSE_OPT_KEY_OPT true) l) p
  = Some (true, with_opts (join_all (p_opts p) l) p).
Proof.
  revert p. induction l as [|x l IH]; intros p; simpl; [by destruct p |]. by rewrite IH.
Qed.

(** One argument other than a group. *)
Definition push (marked : bool) (a : bytes) (p : pst) : pst :=
  Pst (p_out p ++ [a]) (p_opts p)
      (if negb marked && is_marker a then Z.of_nat (S (length (p_out p))) else p_nonopt p)
      (p_data p) (p_kept p).

Lemma one_plain marked a rest p :
  (marked = false -> is_group a = false) ->
  snd (one_script [] marked a rest) = rest /\
  performs0 (fst (one_script [] marked a rest)) p = Some (true, push marked a p).
Proof.
  unfold one_script, is_group, push, is_marker. intros H. destruct marked; [by destruct p |].
  specialize (H eq_refl). cbn [orb negb andb].
  destruct (decide (char_at a 0 = "-"%char)) as [H0|H0].
  2:{ rewrite (bool_decide_eq_true_2 (char_at a 0 <> _)) by done.
      rewrite (bool_decide_eq_false_2 (char_at a 0 = _)) by done. by destruct p. }
  rewrite H0 in *. replace (bool_decide ("-"%char = "-"%char)) with true in H by done. apply (bool_decide_eq_false_1 (char_at a 1 = _)) in H.
  rewrite decide_False by done. cbn [andb].
  replace (bool_decide ("-"%char <> "-"%char)) with false by done.
  replace (bool_decide ("-"%char = "-"%char)) with true by done. cbn [andb].
  destruct (bool_decide (char_at a 1 = "-"%char) && _); by destruct p.
Qed.

Lemma one_group a rest p :
  is_group a = true ->
  match one_script [] false a rest with
  | (acts, rest') =>
      (length rest' <= length rest)%nat /\
      (performs0 acts p = Some (false, p) /\ unfinished false (a :: rest) = true \/
       exists o, performs0 acts p = Some (true, with_opts o p) /\
                 unfinished false (a :: rest) = unfinished false rest')
  end.
Proof.
  cbn [unfinished]. intros Hg. rewrite Hg. cbn [andb negb]. revert Hg. unfold is_group, one_script.
  intros [H0%bool_decide_eq_true_1 H1%bool_decide_eq_true_1]%andb_true_iff.
  rewrite H0. cbn [orb]. replace (bool_decide ("-"%char <> "-"%char)) with false by done.
  rewrite (decide_True (P := char_at a 1 = _)) by done. destruct (decide (char_at a 2 <> NUL)).
  - rewrite pieces_script_plain. split; [done |]. right. eexists. split; [apply performs_options | done].
  - destruct rest as [|o rest]; [split; [done | by left] |]. rewrite pieces_script_plain.
    split; [simpl; lia |]. right. eexists. split; [apply performs_options | done].
Qed.

(** The arguments kept by a loop, and their marker. *)
Lemma loop_settles fuel rest p ok p' :
  loop0 fuel rest p = Ret (ok, p') ->
  exists l, p_out p' = p_out p ++ l /\ settled (negb (p_nonopt p =? 0)) l /\
    p_nonopt p' = marker_place (length (p_out p)) (p_nonopt p) l /\ (length l <= length rest)%nat /\
    p_data p' = p_data p /\ p_kept p' = p_kept p.
Proof.
  revert rest p. induction fuel as [|fuel IH]; intros rest p; cbn [loop_spec]; [done |].
  assert (exists l, p_out p = p_out p ++ l /\ settled (negb (p_nonopt p =? 0)) l /\
    p_nonopt p = marker_place (length (p_out p)) (p_nonopt p) l /\ (length l <= length rest)%nat /\
    p_data p = p_data p /\ p_kept p = p_kept p) as Hstop.
  { exists []. rewrite app_nil_r. split_and!; try done. simpl. lia. }
  destruct rest as [|a rest]; [by intros [= <- <-] |].
  set (marked := negb (p_nonopt p =? 0)) in *.
  destruct (negb marked && is_group a) eqn:Eg.
  - apply andb_true_iff in Eg as [Em Eg]. apply negb_true_iff in Em. rewrite Em in *.
    pose proof (one_group a rest p Eg) as H. destruct (one_script [] false a rest) as [acts rest'].
    destruct H as [Hlen [[-> _] | [o [-> _]]]]; [by intros [= <- <-] |].
    intros (l & Hout & Hs & Hpl & Hl & Hd)%IH. exists l. simpl in *. fold marked in Hs.
    rewrite Em in Hs. split_and!; try done; [lia | apply Hd | apply Hd].
  - destruct (one_plain marked a rest p) as [Hr Hp].
    { intros ->. by simpl in Eg. }
    destruct (one_script [] marked a rest) as [acts rest']. simpl in Hr, Hp. subst rest'.
    rewrite Hp. intros (l & Hout & Hs & Hpl & Hl & Hd)%IH. exists (a :: l). simpl in *.
    rewrite <- app_assoc in Hout. rewrite length_app in Hpl. simpl in Hpl.
    rewrite Nat.add_1_r in Hpl.
    assert (negb marked = (p_nonopt p =? 0)) as Hnm by (unfold marked; by rewrite negb_involutive).
    rewrite <- Hnm. split_and!; try done; [| | lia | apply Hd | apply Hd].
    + intros ->. by simpl in Eg.
    + assert (negb ((if negb marked && is_marker a then Z.of_nat (S (length (p_out p)))
        else p_nonopt p) =? 0) = marked || is_marker a) as <-; [| done].
      unfold marked. destruct (p_nonopt p =? 0) eqn:E, (is_marker a); simpl; lia.
Qed.
(** Settled arguments are kept. *)
Lemma loop_settled fuel l p :
  settled (negb (p_nonopt p =? 0)) l -> (length l < fuel)%nat ->
  loop0 fuel l p = Ret (true, Pst (p_out p ++ l) (p_opts p)
    (marker_place (length (p_out p)) (p_nonopt p) l) (p_data p) (p_kept p)).
Proof.
  revert l p. induction fuel as [|fuel IH]; intros l p; [lia |]. cbn [loop_spec].
  destruct l as [|a l]; [intros; rewrite app_nil_r; by destruct p |]. cbn [settled].
  intros [Ha Hl] Hf. destruct (one_plain _ a l p Ha) as [Hr Hp].
  destruct (one_script _ _ a l) as [acts rest']. simpl in Hr, Hp. subst rest'. rewrite Hp.
  rewrite IH; [| | simpl in Hf; lia].
  - cbn. rewrite <- app_assoc, negb_involutive, length_app. cbn. by rewrite Nat.add_1_r.
  - cbn. rewrite negb_involutive.
    replace (negb _) with (negb (p_nonopt p =? 0) || is_marker a); [done |].
    destruct (p_nonopt p =? 0) eqn:E, (is_marker a); simpl; lia.
Qed.

(** The text of the options, taken apart and put together. *)
Fixpoint glue (l : list bytes) : bytes :=
  match l with
  | [] => []
  | [x] => x
  | x :: l' => x ++ ","%char :: glue l'
  end.

Lemma glue_pieces o : glue (pieces o) = o.
Proof.
  induction o as [|c o IH]; [done |]. simpl. destruct (decide (c = ","%char)) as [->|].
  - destruct (pieces o) eqn:E; simpl in *; [by destruct o; simpl in E; repeat case_match |].
    by rewrite <- IH.
  - destruct (pieces o) as [|x [|y l]]; simpl in *; by rewrite <- IH.
Qed.

Lemma join_opt_short old x :
  strlen old < 2 ^ 32 -> join_opt (Some old) x = old ++ ","%char :: x.
Proof.
  intros H. unfold join_opt. rewrite to_u32_id by (pose proof (strlen_nonneg old); lia).
  unfold strlen. by rewrite Nat2Z.id, firstn_all.
Qed.

Lemma join_all_some old x l :
  strlen (old ++ ","%char :: glue (x :: l)) < 2 ^ 32 ->
  join_all (Some old) (x :: l) = Some (old ++ ","%char :: glue (x :: l)).
Proof.
  revert old x. induction l as [|y l IH]; intros old x Hlen; cbn [join_all].
  - rewrite strlen_app in Hlen. pose proof (strlen_nonneg (","%char :: glue [x])).
    by rewrite join_opt_short by lia.
  - rewrite (join_opt_short old x).
    2:{ rewrite strlen_app in Hlen. pose proof (strlen_nonneg (","%char :: glue (x :: y :: l))). lia. }
    fold (join_all (Some (old ++ ","%char :: x)) (y :: l)).
    change (glue (x :: y :: l)) with (x ++ ","%char :: glue (y :: l)) in *.
    replace (old ++ ","%char :: x ++ ","%char :: glue (y :: l))
      with ((old ++ ","%char :: x) ++ ","%char :: glue (y :: l)) in *
      by (by rewrite <- app_assoc).
    by apply IH.
Qed.

Lemma join_pieces o : strlen o < 2 ^ 32 -> join_all None (pieces o) = Some o.
Proof.
  intros Hlen. pose proof (glue_pieces o) as Ho. destruct (pieces o) as [|x [|y l]] eqn:E.
  - rewrite pieces_strchr in E. by destruct (strchr o ",").
  - simpl in *. by subst o.
  - change (join_all None (x :: y :: l)) with (join_all (Some x) (y :: l)).
    change (glue (x :: y :: l)) with (x ++ ","%char :: glue (y :: l)) in Ho.
    rewrite join_all_some; by rewrite Ho.
Qed.
Lemma settled_app marked l k : settled marked (l ++ k) -> settled marked l.
Proof.
  revert marked. induction l as [|a l IH]; intros marked; simpl; [done |].
  intros [Ha Hl]. eauto.
Qed.

(** Parsing again the output of a parse. *)
Lemma parse_again a0 rest d d' p :
  parse_spec scan_other [] None (a0 :: rest) d = Ret (true, p) ->
  Forall (fun a => strlen a < 2 ^ 32) (finish p) ->
  (length (p_out p) <= S (length rest))%nat /\ p_kept p = 0 /\ p_data p = d /\ finish p <> [] /\
  exists p2, parse_spec scan_other [] None (finish p) d' = Ret (true, p2) /\
    finish p2 = finish p /\ (length (p_out p2) <= length (p_out p))%nat /\ p_kept p2 = 0.
Proof.
  cbn [parse_spec]. intros (l & Hout & Hs & Hn & Hl & Hd & Hk)%loop_settles Hshort.
  simpl in Hout, Hs, Hn, Hd, Hk. split; [rewrite Hout; simpl; lia |]. split; [done |].
  split; [done |]. rewrite finish_unmark, Hout, Hn in *. unfold unmark in *.
  pose proof (marker_bound 1 l) as Hb.
  destruct (p_opts p) as [o|] eqn:Eo.
  - replace (negb _ && _) with false in * by (simpl; lia). split; [done |].
    inversion Hshort as [|? ? _ Hshort1]. inversion Hshort1 as [|? ? _ Hshort2].
    inversion Hshort2 as [|? ? Ho _].
    exists (Pst (a0 :: l) (Some o) (marker_place 1 0 l) d' 0). split_and!; [| | simpl; lia | done].
    + cbn -[loop_spec]. cbn [loop_spec]. cbn [p_nonopt].
      change (one_script [] (negb (0 =? 0)) _ (o :: l)) with (pieces_script [] (pieces o) l).
      rewrite pieces_script_plain, performs_options. cbn [p_opts]. rewrite join_pieces by done.
      change (loop0 (S (S (S (length l)))) l (with_opts (Some o) (Pst [a0] None 0 d' 0)) =
              Ret (true, Pst (a0 :: l) (Some o) (marker_place 1 0 l) d' 0)).
      rewrite loop_settled; [done | done | lia].
    + rewrite finish_unmark. unfold unmark. simpl p_opts. simpl p_out. simpl p_nonopt.
      by replace (negb _ && _) with false by (simpl; lia).
  - destruct (negb _ && _) eqn:Em.
    + destruct l as [|x l' _] using rev_ind; [simpl in *; lia |].
      rewrite app_comm_cons, length_app, length_cons in *. simpl length in *.
      replace (S (length l') + 1 - 1)%nat with (length (a0 :: l')) in * by (simpl; lia).
      rewrite take_app_length in *. split; [done |].
      rewrite marker_app in Em. apply settled_app in Hs.
      assert (marker_place 1 0 l' = 0) as Hz.
      { pose proof (marker_bound 1 l') as [?|?]; [done |]. rewrite marker_fixed in Em by lia. lia. }
      exists (Pst (a0 :: l') None 0 d' 0). split_and!; [| done | simpl; lia | done].
      cbn [parse_spec]. rewrite loop_settled by (done || simpl; lia). cbn. by rewrite Hz.
    + split; [done |]. exists (Pst (a0 :: l) None (marker_place 1 0 l) d' 0).
      split_and!; [| | simpl; lia | done].
      * cbn [parse_spec]. rewrite loop_settled by (done || simpl; lia). done.
      * rewrite finish_unmark. unfold unmark. cbn [p_opts p_out p_nonopt]. by rewrite Em.
Qed.
Lemma loop_defined fuel rest p : loop0 fuel rest p <> UB.
Proof.
  revert rest p. induction fuel as [|fuel IH]; intros rest p; cbn [loop_spec]; [done |].
  destruct rest as [|a rest]; [done |]. set (marked := negb (p_nonopt p =? 0)).
  destruct (negb marked && is_group a) eqn:Eg.
  - apply andb_true_iff in Eg as [Em Eg]. apply negb_true_iff in Em. rewrite Em.
    pose proof (one_group a rest p Eg) as H. destruct (one_script [] false a rest) as [acts rest'].
    destruct H as [_ [[-> _] | [o [-> _]]]]; [done |]. apply IH.
  - destruct (one_plain marked a rest p) as [_ Hp]; [intros ->; by simpl in Eg |].
    destruct (one_script [] marked a rest) as [acts rest']. simpl in Hp. rewrite Hp. apply IH.
Qed.
(** The loop fails exactly on a last "-o". *)
Lemma loop_result fuel rest p ok p' :
  loop0 fuel rest p = Ret (ok, p') -> ok = negb (unfinished (negb (p_nonopt p =? 0)) rest).
Proof.
  revert rest p. induction fuel as [|fuel IH]; intros rest p; cbn [loop_spec]; [done |].
  destruct rest as [|a rest]; [by intros [= <- <-] |].
  set (marked := negb (p_nonopt p =? 0)). destruct (negb marked && is_group a) eqn:Eg.
  - apply andb_true_iff in Eg as [Em Eg]. apply negb_true_iff in Em. rewrite Em.
    pose proof (one_group a rest p Eg) as H. destruct (one_script [] false a rest) as [acts rest'].
    destruct H as [_ [[-> ->] | [o [-> ->]]]]; [by intros [= <- <-] |].
    intros ->%IH. cbn [with_opts p_nonopt]. fold marked. by rewrite Em.
  - destruct (one_plain marked a rest p) as [Hr Hp]; [intros ->; by simpl in Eg |].
    destruct (one_script [] marked a rest) as [acts rest']. simpl in Hr, Hp. subst rest'.
    rewrite Hp. intros ->%IH. cbn [unfinished]. rewrite Eg. cbn [push p_nonopt]. do 2 f_equal.
    unfold marked. rewrite negb_involutive.
    destruct (p_nonopt p =? 0) eqn:E, (is_marker a); simpl; lia.
Qed.
End Plain.

(** * Parsing twice *)

(** [x] is a successful result, with the vector [out] that holds [l]. *)
Definition gives (x : option fuse_args * Z) (s : state) (out : fuse_args) (l : list bytes) : Prop :=
  x = (Some out, 0) /\ owns (heap s) out l.

Section Twice.
Context (alloc_ok moves : nat -> bool) (all_ok : forall n, alloc_ok n = true).
Context (scan_other : bytes -> bytes -> option (option sval)).

Lemma runs_plain s args p0 args0 tl0 :
  fresh s -> args_argv args = Some p0 -> heap s !! p0 = Some ((Some <$> args0) ++ tl0) ->
  args_argc args = Z.of_nat (length args0) -> args0 <> [] ->
  exists ok p, parse_spec scan_other [] None args0 (data s) = Ret (ok, p) /\
    (bounded p ->
     runs (fuse_opt_parse alloc_ok moves scan_other [] None (Some args)) s
          (parsed s args args0 ok p)).
Proof.
  intros Hf Hp Hin Hargc Hne. destruct args0 as [|a0 rest] eqn:Ea; [done |]. rewrite <- Ea in *.
  assert (exists ok p, parse_spec scan_other [] None args0 (data s) = Ret (ok, p)) as (ok & p & E).
  { rewrite Ea. cbn [parse_spec].
    destruct (loop_spec _ _ _ _ _ _) as [[ok p]|z| |] eqn:E; [eauto | | |].
    - by apply loop_no_exit in E.
    - by apply loop_defined in E.
    - apply loop_no_hang in E; [done | simpl; lia]. }
  exists ok, p. split; [done |]. intros Hb.
  by eapply (parse_runs alloc_ok moves all_ok scan_other [] None).
Qed.
End Twice.

(** Without templates and processing function, fuse_opt_parse fails exactly
    on a last "-o" without its argument, and otherwise returns a vector that it
    maps to itself when it is given it again, as its header allows. *)
Theorem fuse_opt_parse_idempotent alloc_ok moves scan_other s args p0 args0 tl0 :
  (forall n, alloc_ok n = true) -> fresh s ->
  args_argv args = Some p0 -> heap s !! p0 = Some ((Some <$> args0) ++ tl0) ->
  args_argc args = Z.of_nat (length args0) -> args0 <> [] ->
  Z.of_nat (length args0) < 2 ^ 31 - 4 ->
  let parse := fuse_opt_parse alloc_ok moves scan_other [] None in
  runs (parse (Some args)) s (fun x s1 =>
    if unfinished false (tail args0) then x = (Some args, -1)
    else exists out l, gives x s1 out l /\
      (Forall (fun a => strlen a < 2 ^ 32) l ->
       runs (parse (Some out)) s1 (fun y s2 =>
         exists out2, gives y s2 out2 l /\ blocks s2 = blocks s1))).
Proof.
  intros Hok Hf Hp Hin Hargc Hne Hlen parse.
  destruct (runs_plain alloc_ok moves Hok scan_other s args p0 args0 tl0) as (ok & p & E & H);
    try done.
  destruct args0 as [|a0 rest]; [done |].
  assert (bounded p) as Hb.
  { pose proof E as E'. cbn [parse_spec] in E'.
    apply loop_settles in E' as (l & Hout & _ & _ & Hl & _). unfold bounded in *.
    rewrite Hout, length_app. simpl in *. lia. }
  eapply runs_mono; [by apply H |]. intros [x r] s1 (Hf1 & Hd & Hx). clear H.
  pose proof E as Hres. cbn [parse_spec] in Hres. apply loop_result in Hres. cbn in Hres.
  cbn [tail]. destruct (unfinished false rest); subst ok; cbn [negb] in Hx.
  { destruct Hx as (Hr & Hx & _). simpl in Hr, Hx. congruence. }
  destruct Hx as (Hr & (out & Hx & Ho) & _). simpl in Hr, Hx. subst x r. exists out, (finish p). split; [done |].
  intros Hshort. destruct (parse_again scan_other a0 rest (data s) (data s1) p E Hshort)
    as (Hl & Hk & _ & Hfin & p2 & E2 & Hfin2 & Hl2 & Hk2).
  pose proof Ho as Ho'. unfold owns in Ho'.
  destruct (args_argv out) as [q|] eqn:Eq; [| by destruct Ho'].
  destruct Ho' as (_ & Hal & Hn & tl & Hq).
  destruct (runs_plain alloc_ok moves Hok scan_other s1 out q (finish p) (None :: tl))
    as (ok2 & p2' & E2' & H2); try done.
  rewrite E2 in E2'. injection E2' as <- <-.
  eapply runs_mono; [apply H2; unfold bounded in *; lia |].
  intros [y r2] s2 (_ & _ & Hy). simpl in Hy. destruct Hy as (-> & (out2 & -> & Ho2) & Hbl).
  exists out2. rewrite Hfin2 in *. split; [done |]. rewrite Hbl, Hk2, Hal. simpl. lia.
Qed.

(** * The error path of [fuse_opt_add_arg] *)

(** Freeing a vector whose block is gone. *)
Lemma free_args_missing s args q (n : nat) :
  args_argv args = Some q -> allocated args <> 0 -> args_argc args = Z.of_nat (S n) ->
  heap s !! q = None -> fuse_opt_free_args (Some args) s = UB.
Proof.
  intros Hq Hal Hn Hh. unfold fuse_opt_free_args. rewrite Hq, Hn, Nat2Z.id.
  apply Z.eqb_neq in Hal. rewrite Hal. apply bind_ub_eq, bind_ub_eq. cbn [free_strings].
  apply bind_ub_eq. unfold load_at, load. apply bind_ub_eq.
  rewrite (bind_runs_eq get _ s s s) by done. by rewrite Hh.
Qed.

(** When realloc moves the vector and the copy of the argument cannot be
    allocated, fuse_opt_add_arg returns -1 and leaves args->argv pointing at the
    freed block, so that freeing the arguments is undefined behaviour. *)
Theorem add_arg_strdup_failure_dangles alloc_ok moves s args l q arg :
  fresh s -> owns (heap s) args l -> args_argv args = Some q ->
  Z.of_nat (length l) < 2 ^ 31 - 2 ->
  alloc_ok (allocs s) = true -> moves (allocs s) = true -> alloc_ok (S (allocs s)) = false ->
  runs (fuse_opt_add_arg alloc_ok moves args arg) s (fun x s' =>
    x = (args, -1) /\ heap s' !! q = None /\ fuse_opt_free_args (Some args) s' = UB).
Proof.
  intros Hf Ho Hq Hlen H1 H2 H3. unfold fuse_opt_add_arg, owns in *. rewrite Hq in *.
  destruct Ho as (Hl & Hal & Hn & tl & Hh). rewrite Hal, Hn.
  cbn [bool_decide andb]. replace (bool_decide _ && _) with false by (by rewrite andb_false_r).
  apply runs_bind, runs_assert; [apply in_range_spec; lia |]. apply runs_bind.
  unfold realloc, try_alloc. run. rewrite H1.
  run. eapply runs_load; [done |]. cbv zeta. rewrite H2. unfold place. run.
  unfold malloc, try_alloc. run. cbn [allocs set_heap]. rewrite H3. run. unfold alloc_failed. run.
  assert (q <> brk s) as Hqb by (intros ->; rewrite Hf in Hh; [done | lia]).
  assert (forall arr, (<[brk s := arr]> (delete q (heap s))) !! q = None) as Hnone.
  { intros arr. rewrite lookup_insert_ne by done. apply lookup_delete_eq. }
  split; [done |]. split; [apply Hnone |].
  apply free_args_missing with q (length (tail l)); [done | lia | | apply Hnone].
  destruct l; [done |]. rewrite Hn. simpl. lia.
Qed.

(** * The hypotheses at a sample *)

Lemma fuse_opt_parse_idempotent_witness :
  runs (fuse_opt_parse (fun _ => true) Nat.even (fun _ _ => None) [] None
          (Some (sample_args sample_line))) (sample_state sample_line) (fun x s1 =>
    exists out l, gives x s1 out l).
Proof.
  pose proof (fuse_opt_parse_idempotent (fun _ => true) Nat.even (fun _ _ => None)
    (sample_state sample_line) (sample_args sample_line) 0 sample_line [None]
    (fun _ => eq_refl) (sample_fresh _) eq_refl ltac:(apply lookup_singleton_eq) eq_refl
    ltac:(discriminate) ltac:(vm_compute; reflexivity)) as H.
  cbv zeta in H. apply (runs_mono _ _ _ _ H). intros x s1.
  change (unfinished false (tail sample_line)) with false. intros (out & l & Hg & _). eauto.
Defined.

(** A vector of its own with one argument, when the allocation of the copy fails. *)
Definition own_state : state :=
  State {[0%nat := [Some (B "catalogfs"); None]]} 1 0 2 ∅
        (Ctx 0 0 None (FuseArgs 0 None 0) None 0).

Lemma add_arg_strdup_failure_dangles_witness :
  runs (fuse_opt_add_arg (fun n => Nat.eqb n 0) (fun _ => true)
          (FuseArgs 1 (Some 0%nat) 1) (B "-f")) own_state
       (fun x s' => fuse_opt_free_args (Some (fst x)) s' = UB).
Proof.
  eapply runs_mono.
  - apply (add_arg_strdup_failure_dangles (fun n => Nat.eqb n 0) (fun _ => true) own_state
      (FuseArgs 1 (Some 0%nat) 1) [B "catalogfs"] 0 (B "-f"));
      [intros a Ha; simpl in Ha; apply lookup_singleton_None; lia | | done | done | done | done | done].
    split; [done |]. split; [done |]. split; [done |]. exists []. apply lookup_singleton_eq.
  - intros x s' (-> & _ & H). exact H.
Defined.
