(* ===== verification/FuseNodes.v ===== *)
(** other_fs/fuse-2.7.3/lib/fuse.c: the table of nodes by which the FUSE library
    turns the node numbers of the kernel into the paths of catalogfs's requests. *)

From S2P Require Import Prelude.
From S2P Require Import CString.
From S2P Require Import Chain.

Definition FUSE_ROOT_ID : Z := 1.
Definition FUSE_MAX_PATH : Z := 4096.
Definition FUSE_UNKNOWN_INO : Z := 4294967295.
Definition EBUSY : Z := 16.
Definition ENOMEM : Z := 12.

(** [struct node], without the fields that cache attributes and locks; None is
    NULL. *)
Record node := Node {
  name_next : ptr; id_next : ptr; nodeid : Z; generation : Z; refctr : Z;
  parent : ptr; name : option bytes; nlookup : Z; open_count : Z; is_hidden : Z }.

(** A block of zeros. *)
Definition zero_node : node := Node None None 0 0 0 None None 0 0 0.

Definition set_name_next (p : ptr) (n : node) : node :=
  Node p (id_next n) (nodeid n) (generation n) (refctr n) (parent n) (name n) (nlookup n)
       (open_count n) (is_hidden n).
Definition set_id_next (p : ptr) (n : node) : node :=
  Node (name_next n) p (nodeid n) (generation n) (refctr n) (parent n) (name n) (nlookup n)
       (open_count n) (is_hidden n).
Definition set_refctr (z : Z) (n : node) : node :=
  Node (name_next n) (id_next n) (nodeid n) (generation n) z (parent n) (name n) (nlookup n)
       (open_count n) (is_hidden n).
Definition set_name (p : ptr) (s : option bytes) (n : node) : node :=
  Node (name_next n) (id_next n) (nodeid n) (generation n) (refctr n) p s (nlookup n)
       (open_count n) (is_hidden n).
Definition set_nlookup (z : Z) (n : node) : node :=
  Node (name_next n) (id_next n) (nodeid n) (generation n) (refctr n) (parent n) (name n) z
       (open_count n) (is_hidden n).
Definition set_hidden (z : Z) (n : node) : node :=
  Node (name_next n) (id_next n) (nodeid n) (generation n) (refctr n) (parent n) (name n)
       (nlookup n) (open_count n) z.

Definition set_open_count (z : Z) (n : node) : node :=
  Node (name_next n) (id_next n) (nodeid n) (generation n) (refctr n) (parent n) (name n)
       (nlookup n) z (is_hidden n).

(** [struct fuse], the part that holds the nodes, and their heap; the size of a
    table is the length of its list. The functions below run with [f->lock] held,
    so that they do not interleave. *)
Record fuse := Fuse {
  nodes : gmap nat node; brk : nat; allocs : nat; blocks : Z;
  id_table : list ptr; name_table : list ptr; ctr : Z; f_generation : Z }.

Definition set_nodes h f :=
  Fuse h (brk f) (allocs f) (blocks f) (id_table f) (name_table f) (ctr f) (f_generation f).
Definition add_blocks n f :=
  Fuse (nodes f) (brk f) (allocs f) (blocks f + n) (id_table f) (name_table f) (ctr f)
       (f_generation f).
Definition set_id_table t f :=
  Fuse (nodes f) (brk f) (allocs f) (blocks f) t (name_table f) (ctr f) (f_generation f).
Definition set_name_table t f :=
  Fuse (nodes f) (brk f) (allocs f) (blocks f) (id_table f) t (ctr f) (f_generation f).
Definition set_ctr c g f :=
  Fuse (nodes f) (brk f) (allocs f) (blocks f) (id_table f) (name_table f) c g.

(** A failed [assert], or [abort]. *)
Definition abort {A} : M fuse A := exit 134.

(** Where the library keeps a pointer to a node that it may redirect: a
    [struct node **]. *)
Inductive loc := IdBucket (i : Z) | NameBucket (i : Z) | IdNext (a : nat) | NameNext (a : nat).

Definition load (p : ptr) : M fuse node :=
  f ← get;
  match p with
  | None => ub
  | Some a => match nodes f !! a with Some n => mret n | None => ub end
  end.

(** A change of the fields of a node. *)
Definition update (a : nat) (g : node -> node) : M fuse unit :=
  n ← load (Some a);
  modify (fun f => set_nodes (<[a := g n]> (nodes f)) f).

Definition bucket (t : list ptr) (i : Z) : M fuse ptr :=
  match zlookup t i with Some p => mret p | None => ub end.

Definition read_loc (l : loc) : M fuse ptr :=
  f ← get;
  match l with
  | IdBucket i => bucket (id_table f) i
  | NameBucket i => bucket (name_table f) i
  | IdNext a => n ← load (Some a); mret (id_next n)
  | NameNext a => n ← load (Some a); mret (name_next n)
  end.

Definition write_loc (l : loc) (p : ptr) : M fuse unit :=
  f ← get;
  match l with
  | IdBucket i =>
      _ ← bucket (id_table f) i;
      modify (fun f => set_id_table (<[Z.to_nat i := p]> (id_table f)) f)
  | NameBucket i =>
      _ ← bucket (name_table f) i;
      modify (fun f => set_name_table (<[Z.to_nat i := p]> (name_table f)) f)
  | IdNext a => update a (set_id_next p)
  | NameNext a => update a (set_name_next p)
  end.

(** More steps than a list of distinct nodes has elements. *)
Definition list_fuel (f : fuse) : nat := S (size (nodes f)).

Section Nodes.
(** Whether the [n]-th allocation succeeds; the value of a [char]. *)
Context (alloc_ok : nat -> bool) (char_value : ascii -> Z).

(** [calloc] or [strdup]: whether it succeeds. *)
Definition malloc : M fuse bool :=
  f ← get;
  let ok := alloc_ok (allocs f) in
  _ ← modify (fun f => Fuse (nodes f) (brk f) (S (allocs f)) (blocks f + (if ok then 1 else 0))
                            (id_table f) (name_table f) (ctr f) (f_generation f));
  mret ok.

(** [calloc(1, sizeof(struct node))]. *)
Definition new_node : M fuse ptr :=
  f ← get;
  ok ← malloc;
  if ok : bool then
    _ ← modify (fun f => Fuse (<[brk f := zero_node]> (nodes f)) (S (brk f)) (allocs f) (blocks f)
                              (id_table f) (name_table f) (ctr f) (f_generation f));
    mret (Some (brk f))
  else mret None.

(** [free(node)]. *)
Definition free_block (a : nat) : M fuse unit :=
  _ ← load (Some a);
  modify (fun f => add_blocks (-1) (set_nodes (delete a (nodes f)) f)).

Definition free_name (s : option bytes) : M fuse unit :=
  if s is Some _ then modify (add_blocks (-1)) else mret tt.

(** [nodeid % f->id_table_size]. *)
Definition id_hash (nodeid : Z) : M fuse Z :=
  f ← get;
  let size := Z.of_nat (length (id_table f)) in
  _ ← assert_defined (0 <? size);
  mret (nodeid mod size).

Fixpoint id_search (fuel : nat) (p : ptr) (id : Z) : M fuse ptr :=
  match fuel with
  | O => hang
  | S fuel' =>
      match p with
      | None => mret None
      | Some a =>
          n ← load p;
          if nodeid n =? id then mret p else id_search fuel' (id_next n) id
      end
  end.

Definition get_node_nocheck (nodeid : Z) : M fuse ptr :=
  hash ← id_hash nodeid;
  f ← get;
  p ← read_loc (IdBucket hash);
  id_search (list_fuel f) p nodeid.

Definition get_node (nodeid : Z) : M fuse nat :=
  p ← get_node_nocheck nodeid;
  match p with Some a => mret a | None => abort end.

Definition free_node (a : nat) : M fuse unit :=
  n ← load (Some a);
  _ ← free_name (name n);
  free_block a.

(** The loop over [nodep], from the location [l]: whether [a] is found. *)
Fixpoint unlink (fuel : nat) (next_of : nat -> loc) (l : loc) (a : nat) : M fuse bool :=
  match fuel with
  | O => hang
  | S fuel' =>
      p ← read_loc l;
      match p with
      | None => mret false
      | Some b =>
          if decide (b = a) then
            q ← read_loc (next_of a);
            _ ← write_loc l q;
            mret true
          else unlink fuel' next_of (next_of b) a
      end
  end.

Definition unhash_id (a : nat) : M fuse unit :=
  n ← load (Some a);
  hash ← id_hash (nodeid n);
  f ← get;
  _ ← unlink (list_fuel f) IdNext (IdBucket hash) a;
  mret tt.

Definition hash_id (a : nat) : M fuse unit :=
  n ← load (Some a);
  hash ← id_hash (nodeid n);
  p ← read_loc (IdBucket hash);
  _ ← update a (set_id_next p);
  write_loc (IdBucket hash) (Some a).

(** [hash] after the characters of [s]. *)
Fixpoint hash_chars (hash : Z) (s : bytes) : Z :=
  match s with
  | [] => hash
  | c :: s' => hash_chars (to_u32 (to_u32 (Z.shiftl hash 5) - hash + char_value c)) s'
  end.

(** The hash of [name] in the directory [parent], for a table of [size] buckets. *)
Definition name_hash_of (size parent : Z) (name : bytes) : Z :=
  let hash := match name with [] => 0 | c :: s => hash_chars (to_u32 (char_value c)) s end in
  to_u32 (to_u64 (hash + parent) mod size).

Definition name_hash (parent : Z) (name : bytes) : M fuse Z :=
  f ← get;
  let size := Z.of_nat (length (name_table f)) in
  _ ← assert_defined (0 <? size);
  mret (name_hash_of size parent name).

Definition delete_node (a : nat) : M fuse unit :=
  n ← load (Some a);
  if name n is Some _ then abort
  else
    _ ← unhash_id a;
    free_node a.

Definition unref_node (a : nat) : M fuse unit :=
  n ← load (Some a);
  if refctr n <=? 0 then abort
  else
    _ ← update a (set_refctr (refctr n - 1));
    if refctr n - 1 =? 0 then delete_node a else mret tt.

Definition unhash_name (a : nat) : M fuse unit :=
  n ← load (Some a);
  match name n with
  | None => mret tt
  | Some nm =>
      par ← load (parent n);
      hash ← name_hash (nodeid par) nm;
      f ← get;
      found ← unlink (list_fuel f) NameNext (NameBucket hash) a;
      if found : bool then
        _ ← update a (set_name_next None);
        _ ← match parent n with Some p => unref_node p | None => ub end;
        _ ← free_name (Some nm);
        update a (set_name None None)
      else abort
  end.

(** 0 or -1. *)
Definition hash_name (a : nat) (parentid : Z) (name : bytes) : M fuse Z :=
  hash ← name_hash parentid name;
  parent ← get_node parentid;
  ok ← malloc;
  if ok : bool then
    _ ← update a (fun n => set_name (FuseNodes.parent n) (Some name) n);
    pn ← load (Some parent);
    _ ← assert_defined (in_i32 (refctr pn + 1));
    _ ← update parent (set_refctr (refctr pn + 1));
    _ ← update a (fun n => set_name (Some parent) (Some name) n);
    p ← read_loc (NameBucket hash);
    _ ← update a (set_name_next p);
    _ ← write_loc (NameBucket hash) (Some a);
    mret 0
  else
    _ ← update a (fun n => set_name (FuseNodes.parent n) None n);
    mret (-1).

(** The [do]-[while] of [next_id]. *)
Fixpoint next_id_loop (fuel : nat) : M fuse Z :=
  match fuel with
  | O => hang
  | S fuel' =>
      f ← get;
      let c := Z.land (ctr f + 1) 4294967295 in
      _ ← modify (set_ctr c (if c =? 0 then to_u32 (f_generation f + 1) else f_generation f));
      if (c =? 0) || (c =? FUSE_UNKNOWN_INO) then next_id_loop fuel'
      else
        p ← get_node_nocheck c;
        if p is Some _ then next_id_loop fuel' else mret c
  end.

(** Each step rejects 0, [FUSE_UNKNOWN_INO] or another node. *)
Definition next_id : M fuse Z := f ← get; next_id_loop (S (S (list_fuel f))).

Fixpoint name_search (fuel : nat) (p : ptr) (parentid : Z) (nm : bytes) : M fuse ptr :=
  match fuel with
  | O => hang
  | S fuel' =>
      match p with
      | None => mret None
      | Some a =>
          n ← load p;
          par ← load (parent n);
          if nodeid par =? parentid then
            match name n with
            | None => ub
            | Some s => if strcmp s nm =? 0 then mret p
                        else name_search fuel' (name_next n) parentid nm
            end
          else name_search fuel' (name_next n) parentid nm
      end
  end.

Definition lookup_node (parent : Z) (name : bytes) : M fuse ptr :=
  hash ← name_hash parent name;
  f ← get;
  p ← read_loc (NameBucket hash);
  name_search (list_fuel f) p parent name.

(** [node->nlookup ++], of an [uint64_t]. *)
Definition count_lookup (a : nat) : M fuse ptr :=
  n ← load (Some a);
  _ ← update a (set_nlookup (to_u64 (nlookup n + 1)));
  mret (Some a).

Definition find_node (parent : Z) (name : bytes) : M fuse ptr :=
  node ← lookup_node parent name;
  match node with
  | Some a => count_lookup a
  | None =>
      node ← new_node;
      match node with
      | None => mret None
      | Some a =>
          _ ← update a (set_refctr 1);
          id ← next_id;
          f ← get;
          _ ← update a (fun n => Node (name_next n) (id_next n) id (f_generation f) (refctr n)
                (FuseNodes.parent n) (FuseNodes.name n) (nlookup n) 0 0);
          r ← hash_name a parent name;
          if r =? -1 then _ ← free_block a; mret None
          else _ ← hash_id a; count_lookup a
      end
  end.

(** [s] with the name and a slash before it, in the buffer of [FUSE_MAX_PATH]
    bytes that it ends. *)
Definition add_name (s name : bytes) : option bytes :=
  if FUSE_MAX_PATH - 1 - strlen s - strlen name <=? 0 then None
  else Some (SLASH :: name ++ s).

(** The loop of [get_path_name]: NULL for a node without a name or a path that is
    too long. *)
Fixpoint path_up (fuel : nat) (node : ptr) (s : bytes) : M fuse (option bytes) :=
  match fuel with
  | O => hang
  | S fuel' =>
      match node with
      | None => mret None
      | Some _ =>
          n ← load node;
          if nodeid n =? FUSE_ROOT_ID then mret (Some s)
          else match name n with
               | None => mret None
               | Some nm =>
                   match add_name s nm with
                   | None => mret None
                   | Some s' => path_up fuel' (parent n) s'
                   end
               end
      end
  end.

(** Each turn of the loop writes a slash. *)
Definition path_fuel : nat := S (Z.to_nat FUSE_MAX_PATH).

Definition get_path_name (nodeid : Z) (name : option bytes) : M fuse (option bytes) :=
  match (match name with Some nm => add_name [] nm | None => Some [] end) with
  | None => mret None
  | Some s =>
      node ← get_node nodeid;
      s ← path_up path_fuel (Some node) s;
      match s with
      | None => mret None
      | Some s =>
          ok ← malloc;
          mret (if ok : bool then Some (match s with [] => [SLASH] | _ => s end) else None)
      end
  end.

Definition get_path (nodeid : Z) : M fuse (option bytes) := get_path_name nodeid None.

Definition forget_node (nodeid nlookup : Z) : M fuse unit :=
  if nodeid =? FUSE_ROOT_ID then mret tt
  else
    a ← get_node nodeid;
    n ← load (Some a);
    if FuseNodes.nlookup n <? nlookup then abort
    else
      let left := FuseNodes.nlookup n - nlookup in
      _ ← update a (set_nlookup left);
      if left =? 0 then _ ← unhash_name a; unref_node a else mret tt.

Definition remove_node (dir : Z) (name : bytes) : M fuse unit :=
  node ← lookup_node dir name;
  match node with Some a => unhash_name a | None => mret tt end.

(** 0 or a negated errno. *)
Definition rename_node (olddir : Z) (oldname : bytes) (newdir : Z) (newname : bytes) (hide : Z)
  : M fuse Z :=
  node ← lookup_node olddir oldname;
  newnode ← lookup_node newdir newname;
  match node with
  | None => mret 0
  | Some a =>
      let go :=
        _ ← unhash_name a;
        r ← hash_name a newdir newname;
        if r =? -1 then mret (- ENOMEM)
        else _ ← (if hide =? 0 then mret tt else update a (set_hidden 1)); mret 0 in
      match newnode with
      | Some b => if hide =? 0 then _ ← unhash_name b; go else mret (- EBUSY)
      | None => go
      end
  end.

(** The nodes part of [fuse_new_common]: the tables and the root, [None] when an
    allocation fails. *)
Definition table_size : nat := Z.to_nat 14057.

Definition new_nodes : M fuse bool :=
  _ ← modify (fun f => Fuse (nodes f) (brk f) (allocs f) (blocks f) [] [] 0 0);
  ok1 ← malloc;
  if ok1 : bool then
    _ ← modify (set_name_table (replicate table_size None));
    ok2 ← malloc;
    if ok2 : bool then
      _ ← modify (set_id_table (replicate table_size None));
      root ← new_node;
      match root with
      | None => _ ← modify (add_blocks (-2)); mret false
      | Some a =>
          ok3 ← malloc;
          if ok3 : bool then
            _ ← update a (fun n => Node (name_next n) (id_next n) FUSE_ROOT_ID 0 1 None
                  (Some [SLASH]) 1 (open_count n) (is_hidden n));
            _ ← hash_id a;
            mret true
          else _ ← free_block a; _ ← modify (add_blocks (-2)); mret false
      end
    else _ ← modify (add_blocks (-1)); mret false
  else mret false.
End Nodes.
