(* ===== verification/FuseTable.v ===== *)
(** The two hash tables of the nodes of FUSE as sets of nodes: what the loops over
    the chains of a bucket do to them. *)

From S2P Require Import Prelude.
From S2P Require Import CString.
From S2P Require Import Chain.
From S2P Require Import FuseNodes.

(** * Chains through one of the links *)

Section Linked.
Context (link : node -> ptr).

(** The nodes [ns] are linked from [p] on. *)
Fixpoint linked (h : gmap nat node) (p : ptr) (ns : list nat) : Prop :=
  match ns with
  | [] => p = None
  | a :: ns' => p = Some a /\ exists n, h !! a = Some n /\ linked h (link n) ns'
  end.

(** [h'] has the links that [h] has, at [ns]. *)
Definition links_agree (h h' : gmap nat node) (ns : list nat) : Prop :=
  forall a n, a ∈ ns -> h !! a = Some n -> exists n', h' !! a = Some n' /\ link n' = link n.

Lemma linked_agree h h' p ns : linked h p ns -> links_agree h h' ns -> linked h' p ns.
Proof.
  revert p. induction ns as [|a ns IH]; intros p; simpl; [done |].
  intros (-> & n & Ha & Hl) Hag. split; [done |].
  destruct (Hag a n ltac:(left) Ha) as (n' & Ha' & Hn). exists n'. split; [done |].
  rewrite Hn. apply IH; [done |]. intros b m Hb. apply Hag. by right.
Qed.

Lemma linked_none h ns : linked h None ns -> ns = [].
Proof. by destruct ns as [|a ns]; [| intros [? _]]. Qed.

Lemma linked_some h a ns :
  linked h (Some a) ns -> exists n ns', ns = a :: ns' /\ h !! a = Some n /\ linked h (link n) ns'.
Proof. destruct ns as [|b ns]; [done |]. intros ([= <-] & n & Ha & Hl). eauto. Qed.

Lemma linked_in h p ns a : linked h p ns -> a ∈ ns -> is_Some (h !! a).
Proof.
  revert p. induction ns as [|b ns IH]; intros p; simpl; [by intros _ ?%elem_of_nil |].
  intros (_ & n & Hb & Hl) [->|Ha]%elem_of_cons; eauto.
Qed.

(** A chain of distinct nodes is no longer than the heap. *)
Lemma linked_length h p ns : linked h p ns -> NoDup ns -> (length ns <= size h)%nat.
Proof.
  intros Hl Hnd. rewrite <- size_dom, <- (size_list_to_set (C := gset nat) ns) by done.
  apply subseteq_size. intros a Ha%elem_of_list_to_set. apply elem_of_dom. by eapply linked_in.
Qed.
End Linked.

(** * Tables *)

(** [t] holds, in its bucket [i], the nodes [a] with [key a i]. *)
Definition table_ok (link : node -> ptr) (h : gmap nat node) (t : list ptr)
    (key : nat -> nat -> Prop) : Prop :=
  exists bs, Forall2 (linked link h) t bs /\
    forall i ns, bs !! i = Some ns -> NoDup ns /\ forall a, a ∈ ns <-> key a i.

Lemma table_key link h t (key key' : nat -> nat -> Prop) :
  table_ok link h t key -> (forall a i, (i < length t)%nat -> key a i <-> key' a i) ->
  table_ok link h t key'.
Proof.
  intros (bs & Hl & Hb) Hk. exists bs. split; [done |]. intros i ns Hi.
  destruct (Hb i ns Hi) as [Hnd Hin]. split; [done |]. intros a.
  rewrite Hin. apply Hk. apply Forall2_length in Hl. apply lookup_lt_Some in Hi. lia.
Qed.

Lemma table_bucket link h t key i :
  table_ok link h t key -> (i < length t)%nat ->
  exists p ns, t !! i = Some p /\ linked link h p ns /\ NoDup ns /\ (forall a, a ∈ ns <-> key a i).
Proof.
  intros (bs & Hl & Hb) Hi. destruct (lookup_lt_is_Some_2 t i Hi) as [p Hp].
  destruct (Forall2_lookup_l _ _ _ _ _ Hl Hp) as (ns & Hns & Hlk).
  destruct (Hb i ns Hns). eauto 10.
Qed.

(** A table whose heap changes and of which a bucket is replaced. *)
Lemma table_replace link h h' t (key key' : nat -> nat -> Prop) i p ns :
  table_ok link h t key -> (i < length t)%nat -> linked link h' p ns -> NoDup ns ->
  (forall a, a ∈ ns <-> key' a i) ->
  (forall j a n, j <> i -> key a j -> h !! a = Some n ->
     exists n', h' !! a = Some n' /\ link n' = link n) ->
  (forall j a, j <> i -> key a j <-> key' a j) ->
  table_ok link h' (<[i := p]> t) key'.
Proof.
  intros (bs & Hl & Hb) Hi Hns Hnd Hin Hag Hk. exists (<[i := ns]> bs).
  pose proof (Forall2_length _ _ _ Hl) as Hlen. split.
  - apply Forall2_same_length_lookup_2; [by rewrite !length_insert |].
    intros j q ms Hq Hms. destruct (decide (i = j)) as [<-|Hij].
    + rewrite list_lookup_insert_eq in Hq by lia. rewrite list_lookup_insert_eq in Hms by lia. by simplify_eq.
    + rewrite list_lookup_insert_ne in Hq by done. rewrite list_lookup_insert_ne in Hms by done.
      pose proof (Forall2_lookup_lr _ _ _ _ _ _ Hl Hq Hms) as Hqm.
      eapply linked_agree; [done |]. intros a n Ha. eapply Hag; [done |].
      by apply (Hb j ms Hms).
  - intros j ms Hms. destruct (decide (i = j)) as [<-|Hij].
    + rewrite list_lookup_insert_eq in Hms by lia. by injection Hms as <-.
    + rewrite list_lookup_insert_ne in Hms by done. destruct (Hb j ms Hms) as [? H].
      split; [done |]. intros a. rewrite H. by apply Hk.
Qed.

(** A table whose heap changes outside of the links of its nodes. *)
Lemma table_heap link h h' t (key : nat -> nat -> Prop) :
  table_ok link h t key ->
  (forall a i n, key a i -> h !! a = Some n -> exists n', h' !! a = Some n' /\ link n' = link n) ->
  table_ok link h' t key.
Proof.
  intros (bs & Hl & Hb) Hag. exists bs. split; [| done].
  apply Forall2_same_length_lookup_2; [by eapply Forall2_length |].
  intros i p ns Hp Hns. eapply linked_agree; [by eapply Forall2_lookup_lr |].
  intros a n Ha. eapply Hag. by apply (Hb i ns Hns).
Qed.

(** * The two tables *)

(** A node without its links. *)
Definition erase (n : node) : node := set_name_next None (set_id_next None n).

(** One of the tables: its link, its bucket and link locations. *)
Class Table := {
  link : node -> ptr; relink : ptr -> node -> node; other_link : node -> ptr;
  table : fuse -> list ptr; set_table : list ptr -> fuse -> fuse; other_table : fuse -> list ptr;
  bucket_at : Z -> loc; next_at : nat -> loc;
  link_relink p n : link (relink p n) = p;
  other_relink p n : other_link (relink p n) = other_link n;
  erase_relink p n : erase (relink p n) = erase n;
  table_set_table t f : table (set_table t f) = t;
  table_set_nodes h f : table (set_nodes h f) = table f;
  other_set_table t f : other_table (set_table t f) = other_table f;
  other_set_nodes h f : other_table (set_nodes h f) = other_table f;
  nodes_set_table t f : nodes (set_table t f) = nodes f;
  brk_set_table t f : brk (set_table t f) = brk f;
  runs_read_bucket f i p (Q : ptr -> fuse -> Prop) :
    table f !! i = Some p -> Q p f -> runs (read_loc (bucket_at (Z.of_nat i))) f Q;
  runs_read_next f a n (Q : ptr -> fuse -> Prop) :
    nodes f !! a = Some n -> Q (link n) f -> runs (read_loc (next_at a)) f Q;
  runs_write_bucket f i p (Q : unit -> fuse -> Prop) :
    (i < length (table f))%nat -> Q tt (set_table (<[i := p]> (table f)) f) ->
    runs (write_loc (bucket_at (Z.of_nat i)) p) f Q;
  runs_write_next f a n p (Q : unit -> fuse -> Prop) :
    nodes f !! a = Some n -> Q tt (set_nodes (<[a := relink p n]> (nodes f)) f) ->
    runs (write_loc (next_at a) p) f Q }.

Lemma runs_node_load f a n (Q : node -> fuse -> Prop) :
  nodes f !! a = Some n -> Q n f -> runs (load (Some a)) f Q.
Proof. intros Ha HQ. unfold load. run. by rewrite Ha. Qed.

Lemma runs_update f a n g (Q : unit -> fuse -> Prop) :
  nodes f !! a = Some n -> Q tt (set_nodes (<[a := g n]> (nodes f)) f) -> runs (update a g) f Q.
Proof. intros Ha HQ. unfold update. apply runs_bind. eapply runs_node_load; [done |]. by run. Qed.

Lemma runs_bucket (f : fuse) t (i : nat) p (Q : ptr -> fuse -> Prop) :
  t !! i = Some p -> Q p f -> runs (bucket t (Z.of_nat i)) f Q.
Proof.
  intros Hi HQ. unfold bucket. rewrite zlookup_lookup by lia. by rewrite Nat2Z.id, Hi.
Qed.

#[refine] Instance id_nodes : Table := {|
  link := id_next; relink := set_id_next; other_link := name_next;
  table := id_table; set_table := set_id_table; other_table := name_table;
  bucket_at := IdBucket; next_at := IdNext |}.
Proof.
  all: try done.
  - intros f i p Q Hi HQ. unfold read_loc. run. by eapply runs_bucket.
  - intros f a n Q Ha HQ. unfold read_loc. run. eapply runs_node_load; [done |]. by run.
  - intros f i p Q Hi HQ. destruct (lookup_lt_is_Some_2 _ _ Hi) as [q Hq]. unfold write_loc. run.
    eapply runs_bucket; [done |]. run. by rewrite Nat2Z.id.
  - intros f a n p Q Ha HQ. unfold write_loc. run. by eapply runs_update.
Defined.

#[refine] Instance name_nodes : Table := {|
  link := name_next; relink := set_name_next; other_link := id_next;
  table := name_table; set_table := set_name_table; other_table := id_table;
  bucket_at := NameBucket; next_at := NameNext |}.
Proof.
  all: try done.
  - intros f i p Q Hi HQ. unfold read_loc. run. by eapply runs_bucket.
  - intros f a n Q Ha HQ. unfold read_loc. run. eapply runs_node_load; [done |]. by run.
  - intros f i p Q Hi HQ. destruct (lookup_lt_is_Some_2 _ _ Hi) as [q Hq]. unfold write_loc. run.
    eapply runs_bucket; [done |]. run. by rewrite Nat2Z.id.
  - intros f a n p Q Ha HQ. unfold write_loc. run. by eapply runs_update.
Defined.

(** * Taking a node out of a chain *)

Section Unlink.
Context `{Table}.

(** What the location [l] holds. *)
Definition holds (f : fuse) (l : loc) (p : ptr) : Prop :=
  forall Q, Q p f -> runs (read_loc l) f Q.

Lemma runs_unlink fuel f l p l1 a l2 (Q : bool -> fuse -> Prop) :
  holds f l p -> linked link (nodes f) p (l1 ++ a :: l2) -> a ∉ l1 -> (length l1 < fuel)%nat ->
  (forall n, nodes f !! a = Some n ->
     runs (write_loc (match last l1 with Some b => next_at b | None => l end) (link n)) f
          (fun _ f' => Q true f')) ->
  runs (unlink fuel next_at l a) f Q.
Proof.
  revert l p l1. induction fuel as [|fuel IH]; intros l p l1 Hp Hl Ha Hf HQ; [lia |].
  cbn [unlink]. apply runs_bind, Hp. destruct l1 as [|b l1]; simpl in Hl.
  - destruct Hl as (-> & n & Hn & Hl). rewrite decide_True by done.
    apply runs_bind. eapply runs_read_next; [done |]. apply runs_bind.
    eapply runs_mono; [by apply HQ |]. intros u f' HQ'. by apply runs_ret.
  - destruct Hl as (-> & n & Hn & Hl). apply not_elem_of_cons in Ha as [Hab Ha].
    rewrite decide_False by done. apply IH with (link n) l1; [| done | done | simpl in Hf; lia |].
    + intros R HR. by eapply runs_read_next.
    + intros m Hm. specialize (HQ m Hm). rewrite last_cons in HQ. by destruct (last l1).
Qed.

Lemma linked_skip h p l1 b m a n l2 :
  linked link h p (l1 ++ b :: a :: l2) -> NoDup (l1 ++ b :: a :: l2) ->
  h !! b = Some m -> h !! a = Some n ->
  linked link (<[b := relink (link n) m]> h) p (l1 ++ b :: l2).
Proof.
  intros Hl Hnd Hb Ha. revert p Hl Hnd. induction l1 as [|c l1 IH]; intros p Hl Hnd.
  - cbn [app] in *. apply NoDup_cons in Hnd as [Hbl Hnd].
    apply not_elem_of_cons in Hbl as [Hba Hbl]. destruct Hl as (-> & m' & Hb' & Hl).
    simplify_eq. destruct Hl as (_ & n' & Ha' & Hl). simplify_eq. split; [done |].
    exists (relink (link n) m). rewrite lookup_insert_eq. split; [done |]. rewrite link_relink.
    eapply linked_agree; [done |]. intros d k Hd Hk. exists k.
    rewrite lookup_insert_ne by (by intros ->). done.
  - cbn [app] in *. apply NoDup_cons in Hnd as [Hc Hnd]. destruct Hl as (-> & k & Hk & Hl).
    split; [done |]. exists k. split; [| by apply IH].
    rewrite lookup_insert_ne; [done |]. intros ->. apply Hc. set_solver.
Qed.

(** [f'] is [f] with other links and another table. *)
Definition relinked (f f' : fuse) : Prop :=
  erase <$> nodes f' = erase <$> nodes f /\ other_table f' = other_table f /\
  length (table f') = length (table f) /\ brk f' = brk f /\
  forall a n, nodes f !! a = Some n ->
    exists n', nodes f' !! a = Some n' /\ other_link n' = other_link n.

Lemma relinked_table f t :
  length t = length (table f) -> relinked f (set_table t f).
Proof.
  intros Ht. unfold relinked. rewrite nodes_set_table, other_set_table, table_set_table, brk_set_table.
  split_and!; try done. intros a n Ha. eauto.
Qed.

Lemma relinked_node f a n p :
  nodes f !! a = Some n -> relinked f (set_nodes (<[a := relink p n]> (nodes f)) f).
Proof.
  intros Ha. unfold relinked. rewrite other_set_nodes, table_set_nodes. split_and!; try done.
  - cbn [nodes set_nodes]. rewrite fmap_insert, erase_relink. apply insert_id.
    by rewrite lookup_fmap, Ha.
  - intros b m Hb. cbn [nodes set_nodes]. destruct (decide (a = b)) as [<-|].
    + simplify_eq. rewrite lookup_insert_eq. eexists. split; [done |]. apply other_relink.
    + rewrite lookup_insert_ne by done. eauto.
Qed.

Lemma relinked_trans f g h : relinked f g -> relinked g h -> relinked f h.
Proof.
  intros (H1 & H2 & H3 & H4 & H5) (K1 & K2 & K3 & K4 & K5). unfold relinked.
  split_and!; try congruence. intros a n Ha. destruct (H5 a n Ha) as (n' & Hn' & E).
  destruct (K5 a n' Hn') as (n'' & Hn'' & E'). exists n''. split; [done |]. congruence.
Qed.

(** The loops [unhash_id] and [unhash_name]. *)
Lemma runs_unlink_table f key a i (Q : bool -> fuse -> Prop) :
  table_ok link (nodes f) (table f) key -> (i < length (table f))%nat -> key a i ->
  (forall b j k, key b j -> key b k -> j = k) ->
  (forall f', relinked f f' ->
     table_ok link (nodes f') (table f') (fun b j => key b j /\ b <> a) -> Q true f') ->
  runs (unlink (list_fuel f) next_at (bucket_at (Z.of_nat i)) a) f Q.
Proof.
  intros Ht Hi Ha Huniq HQ.
  destruct (table_bucket _ _ _ _ _ Ht Hi) as (p & ns & Hp & Hl & Hnd & Hin).
  assert (a ∈ ns) as Hans by (by apply Hin). apply list_elem_of_split in Hans as (l1 & l2 & ->).
  pose proof (linked_length _ _ _ _ Hl Hnd) as Hlen. rewrite length_app in Hlen. simpl in Hlen.
  assert ((a ∉ l1) /\ (a ∉ l2)) as [Ha1 Ha2].
  { apply NoDup_app in Hnd as (_ & Hd & Hnd). apply NoDup_cons in Hnd as [? _].
    split; [| done]. intros Hx. apply (Hd a Hx). left. }
  assert (NoDup (l1 ++ l2)) as Hnd'.
  { rewrite <- Permutation_middle in Hnd. by apply NoDup_cons in Hnd as [_ Hnd]. }
  assert (forall b, b ∈ l1 ++ l2 <-> key b i /\ b <> a) as Hin'.
  { intros b. rewrite <- Hin, !elem_of_app, elem_of_cons.
    split; [intros [?|?]; split; try tauto; by intros -> | tauto]. }
  eapply runs_unlink; [| exact Hl | done | unfold list_fuel; lia |].
  { intros R HR. by eapply runs_read_bucket. }
  intros n Hn. destruct (last l1) as [b|] eqn:El.
  - apply last_Some in El as [l0 ->]. rewrite <- app_assoc in *. cbn [app] in *.
    destruct (linked_in _ _ _ _ b Hl ltac:(set_solver)) as [m Hm].
    eapply runs_write_next; [done |]. apply HQ; [by apply relinked_node |].
    cbn [nodes set_nodes]. rewrite table_set_nodes. rewrite <- (list_insert_id _ _ _ Hp).
    eapply table_replace with (ns := l0 ++ b :: l2); [done | done | | done | done | |].
    + by eapply linked_skip.
    + intros j c k Hj Hc Hk. exists k. rewrite lookup_insert_ne; [done |]. intros <-. apply Hj.
      apply (Huniq b); [done |]. apply Hin. set_solver.
    + intros j c Hj. split; [| by intros [? _]]. intros Hc. split; [done |]. intros ->.
      by apply Hj, (Huniq a).
  - apply last_None in El as ->. cbn [app] in *. eapply runs_write_bucket; [done |].
    apply HQ; [apply relinked_table; by rewrite length_insert |].
    rewrite nodes_set_table, table_set_table. destruct Hl as (_ & n' & Hn' & Hl). simplify_eq.
    eapply table_replace with (ns := l2); [done | done | done | done | done | |].
    + intros. eauto.
    + intros j c Hj. split; [| by intros [? _]]. intros Hc. split; [done |]. intros ->.
      by apply Hj, (Huniq a).
Qed.

(** Linking a node at the head of its bucket. *)
Lemma table_push f (key key' : nat -> nat -> Prop) a n i p :
  table_ok link (nodes f) (table f) key -> table f !! i = Some p ->
  nodes f !! a = Some n -> link n = p -> (forall j, ~ key a j) ->
  (forall b j, key' b j <-> key b j \/ b = a /\ j = i) ->
  table_ok link (nodes f) (<[i := Some a]> (table f)) key'.
Proof.
  intros Ht Hp Hn Hlk Ha Hk. pose proof (lookup_lt_Some _ _ _ Hp) as Hi.
  destruct (table_bucket _ _ _ _ _ Ht Hi) as (q & ns & Hq & Hl & Hnd & Hin). simplify_eq.
  eapply table_replace with (ns := a :: ns); [done | done | | | | |].
  - split; [done |]. by exists n.
  - constructor; [| done]. rewrite Hin. apply Ha.
  - intros b. rewrite elem_of_cons, Hin, Hk. tauto.
  - intros. eauto.
  - intros j b Hj. rewrite Hk. naive_solver.
Qed.
End Unlink.
