(* ===== verification/FuseNodesSpec.v ===== *)
(** The nodes of FUSE as a map: what each operation of the table does to the nodes
    without their links, and the invariant that it keeps. *)

From S2P Require Import Prelude.
From S2P Require Import CString.
From S2P Require Import Chain.
From S2P Require Import FuseNodes.
From S2P Require Import FuseTable.

(** * The table and its contents *)

(** The sizes of the tables of ids and names. *)
Class Sizes (isz nsz : nat) : Prop := {
  isz_pos : (0 < isz)%nat; nsz_pos : (0 < nsz)%nat; nsz_small : Z.of_nat nsz <= 2 ^ 32 }.

Section Contents.
Context {char_value : ascii -> Z} {isz nsz : nat} {sizes : Sizes isz nsz}.

Definition id_bucket (id : Z) : nat := Z.to_nat (id mod Z.of_nat isz).
Definition name_bucket (parent : Z) (nm : bytes) : nat :=
  Z.to_nat (name_hash_of char_value (Z.of_nat nsz) parent nm).

(** The nodes of [c] are in the table of ids, but for [x]. *)
Definition id_key (c : gmap nat node) (x : ptr) (a i : nat) : Prop :=
  Some a <> x /\ exists n, c !! a = Some n /\ i = id_bucket (nodeid n).

(** Those with a parent are in the table of names, but for [y]. *)
Definition name_key (c : gmap nat node) (y : ptr) (a i : nat) : Prop :=
  Some a <> y /\ exists n p pn nm, c !! a = Some n /\ parent n = Some p /\ c !! p = Some pn /\
    name n = Some nm /\ i = name_bucket (nodeid pn) nm.

(** [f] holds the nodes [c], without their links; [x] and [y] are not hashed. *)
Record rep (f : fuse) (c : gmap nat node) (x y : ptr) : Prop := Rep {
  rep_core : erase <$> nodes f = c;
  rep_fresh : forall a, (brk f <= a)%nat -> nodes f !! a = None;
  rep_ids : table_ok id_next (nodes f) (id_table f) (id_key c x);
  rep_names : table_ok name_next (nodes f) (name_table f) (name_key c y);
  rep_isz : length (id_table f) = isz;
  rep_nsz : length (name_table f) = nsz }.

Lemma rep_node f c x y a n :
  rep f c x y -> c !! a = Some n -> exists m, nodes f !! a = Some m /\ erase m = n.
Proof.
  intros [<- _ _ _ _ _] Ha. rewrite lookup_fmap in Ha.
  apply fmap_Some in Ha as (m & Hm & ->). eauto.
Qed.

Lemma runs_load_rep f c x y a n (Q : node -> fuse -> Prop) :
  rep f c x y -> c !! a = Some n ->
  (forall m, nodes f !! a = Some m -> erase m = n -> Q m f) -> runs (load (Some a)) f Q.
Proof.
  intros Hr Ha HQ. destruct (rep_node _ _ _ _ _ _ Hr Ha) as (m & Hm & He).
  eapply runs_node_load; eauto.
Qed.

(** ** Keys *)

Lemma id_bucket_lt id : (id_bucket id < isz)%nat.
Proof.
  unfold id_bucket. pose proof (Z.mod_pos_bound id (Z.of_nat isz)). pose proof isz_pos. lia.
Qed.

Lemma name_hash_range parent nm :
  0 <= name_hash_of char_value (Z.of_nat nsz) parent nm < Z.of_nat nsz.
Proof.
  unfold name_hash_of. cbv zeta.
  pose proof (Z.mod_pos_bound (to_u64 (match nm with
    | [] => 0 | c :: s => hash_chars char_value (to_u32 (char_value c)) s end + parent))
    (Z.of_nat nsz)).
  pose proof nsz_pos. pose proof nsz_small. rewrite to_u32_id; lia.
Qed.

Lemma name_bucket_lt parent nm : (name_bucket parent nm < nsz)%nat.
Proof. unfold name_bucket. pose proof (name_hash_range parent nm). lia. Qed.

Lemma id_key_fun c x a i j : id_key c x a i -> id_key c x a j -> i = j.
Proof. intros (_ & n & Hn & ->) (_ & m & Hm & ->). by simplify_eq. Qed.

Lemma name_key_fun c y a i j : name_key c y a i -> name_key c y a j -> i = j.
Proof.
  intros (_ & n & p & pn & nm & ? & ? & ? & ? & ->) (_ & n' & p' & pn' & nm' & ? & ? & ? & ? & ->).
  by simplify_eq.
Qed.

(** The node [a] changes from [n] to [n']: its place in the table of names does not
    change, it is not in it, or it has no parent. *)
Definition hashing (y y' : ptr) (a : nat) (n n' : node) : Prop :=
  y' = y /\ parent n' = parent n /\ name n' = name n \/
  y = Some a /\ y' = None /\ parent n' = None \/
  y' = Some a /\ (y = Some a \/ y = None /\ parent n = None).

(** A change of a node that keeps its number. *)
Lemma id_key_insert c x a n n' b i :
  c !! a = Some n -> nodeid n' = nodeid n -> id_key (<[a := n']> c) x b i <-> id_key c x b i.
Proof.
  intros Ha Hid. unfold id_key. destruct (decide (a = b)) as [<-|Hab].
  - rewrite lookup_insert_eq, Ha. naive_solver congruence.
  - by rewrite lookup_insert_ne.
Qed.

Lemma name_key_insert c y y' a n n' b i :
  c !! a = Some n -> nodeid n' = nodeid n ->
  hashing y y' a n n' ->
  name_key (<[a := n']> c) y' b i <-> name_key c y b i.
Proof.
  intros Ha Hid Hcase. unfold name_key, hashing in *.
  assert (forall p nm, (exists pn, <[a := n']> c !! p = Some pn /\ i = name_bucket (nodeid pn) nm)
    <-> (exists pn, c !! p = Some pn /\ i = name_bucket (nodeid pn) nm)) as Hp.
  { intros p nm. destruct (decide (a = p)) as [<-|]; [| by rewrite lookup_insert_ne].
    rewrite lookup_insert_eq, Ha. split; intros (pn & [= <-] & ->); eexists; by rewrite Hid. }
  destruct (decide (a = b)) as [<-|Hab].
  - rewrite lookup_insert_eq, Ha. split.
    + intros (Hy & m & p & pn & nm & [= <-] & Hpar & Hpn & Hnm & Hi).
      destruct Hcase as [(-> & E1 & E2)|[(_ & _ & E)|(-> & _)]]; [| congruence | done].
      destruct (proj1 (Hp p nm)) as (pn' & ? & ?); [eauto |].
      split; [done |]. exists n, p, pn', nm. split_and!; congruence || done.
    + intros (Hy & m & p & pn & nm & [= <-] & Hpar & Hpn & Hnm & Hi).
      destruct Hcase as [(-> & E1 & E2)|[(-> & _ & _)|(_ & [-> |[_ E]])]]; [| done | done | congruence].
      destruct (proj2 (Hp p nm)) as (pn' & ? & ?); [eauto |].
      split; [done |]. exists n', p, pn', nm. split_and!; congruence || done.
  - rewrite lookup_insert_ne by done.
    assert (Some b <> y' <-> Some b <> y) as Hy.
    { destruct Hcase as [(-> & _)|[(-> & -> & _)|(-> & [-> |[-> _]])]]; [done | | |];
        split; congruence. }
    rewrite Hy. split; intros (? & m & p & pn & nm & Hm & Hpar & Hpn & Hnm & Hi); split; try done.
    + destruct (proj1 (Hp p nm)) as (pn' & ? & ?); [eauto |]. exists m, p, pn', nm. done.
    + destruct (proj2 (Hp p nm)) as (pn' & ? & ?); [eauto |]. exists m, p, pn', nm. done.
Qed.
(** ** Changes of a node *)

(** A change of the fields of a node other than its links. *)
Lemma rep_update f c x y y' a n m g :
  rep f c x y -> c !! a = Some n -> nodes f !! a = Some m -> erase m = n ->
  id_next (g m) = id_next m -> name_next (g m) = name_next m ->
  nodeid (g m) = nodeid m ->
  hashing y y' a m (g m) ->
  rep (set_nodes (<[a := g m]> (nodes f)) f) (<[a := erase (g m)]> c) x y'.
Proof.
  intros Hr Ha Hm He Hid Hnm Hno Hcase. pose proof Hr as [].
  assert (forall b k, nodes f !! b = Some k -> exists k', <[a := g m]> (nodes f) !! b = Some k' /\
    id_next k' = id_next k /\ name_next k' = name_next k) as Hlinks.
  { intros b k Hk. destruct (decide (a = b)) as [<-|].
    - simplify_eq. exists (g m). by rewrite lookup_insert_eq.
    - exists k. by rewrite lookup_insert_ne. }
  split; cbn [nodes set_nodes id_table name_table brk]; try done.
  - by rewrite fmap_insert, rep_core0.
  - intros b Hb. rewrite lookup_insert_ne; [by apply rep_fresh0 |]. intros <-.
    rewrite rep_fresh0 in Hm; done.
  - eapply table_key.
    + eapply table_heap; [exact rep_ids0 |]. intros b i k _ Hk.
      destruct (Hlinks b k Hk) as (k' & ? & ? & ?). eauto.
    + intros b i _. symmetry. eapply id_key_insert; [done |]. by rewrite <- He.
  - eapply table_key.
    + eapply table_heap; [exact rep_names0 |]. intros b i k _ Hk.
      destruct (Hlinks b k Hk) as (k' & ? & ? & ?). eauto.
    + intros b i _. symmetry. eapply name_key_insert; [done | by rewrite <- He |].
      by rewrite <- He.
Qed.

Lemma runs_update_rep f c x y y' a n n' g (Q : unit -> fuse -> Prop) :
  rep f c x y -> c !! a = Some n ->
  (forall m, erase m = n -> erase (g m) = n' /\ id_next (g m) = id_next m /\
     name_next (g m) = name_next m) ->
  nodeid n' = nodeid n ->
  hashing y y' a n n' ->
  (forall f', rep f' (<[a := n']> c) x y' -> brk f' = brk f -> Q tt f') ->
  runs (update a g) f Q.
Proof.
  intros Hr Ha Hg Hid Hcase HQ. destruct (rep_node _ _ _ _ _ _ Hr Ha) as (m & Hm & He).
  destruct (Hg m He) as (Hg1 & Hg2 & Hg3). eapply runs_update; [done |]. apply HQ; [| done].
  rewrite <- Hg1. eapply rep_update; try done; subst n n'; done.
Qed.

(** Any change of a node that is in no table and has no children. *)
Lemma runs_update_new f c a n n' g (Q : unit -> fuse -> Prop) :
  rep f c (Some a) None -> c !! a = Some n -> parent n = None -> parent n' = None ->
  (forall b m, c !! b = Some m -> parent m <> Some a) ->
  (forall m, erase m = n -> erase (g m) = n' /\ id_next (g m) = id_next m /\
     name_next (g m) = name_next m) ->
  (forall f', rep f' (<[a := n']> c) (Some a) None -> brk f' = brk f -> Q tt f') ->
  runs (update a g) f Q.
Proof.
  intros Hr Ha Hp Hp' Hch Hg HQ. destruct (rep_node _ _ _ _ _ _ Hr Ha) as (m & Hm & He).
  destruct (Hg m He) as (Hg1 & Hg2 & Hg3). eapply runs_update; [done |]. apply HQ; [| done].
  pose proof Hr as [].
  assert (forall b k, nodes f !! b = Some k -> exists k', <[a := g m]> (nodes f) !! b = Some k' /\
    id_next k' = id_next k /\ name_next k' = name_next k) as Hlinks.
  { intros b k Hk. destruct (decide (a = b)) as [<-|].
    - simplify_eq. exists (g m). by rewrite lookup_insert_eq.
    - exists k. by rewrite lookup_insert_ne. }
  split; cbn [nodes set_nodes id_table name_table brk]; try done.
  - by rewrite fmap_insert, rep_core0, Hg1.
  - intros b Hb. rewrite lookup_insert_ne; [by apply rep_fresh0 |]. intros <-.
    rewrite rep_fresh0 in Hm; done.
  - eapply table_key.
    + eapply table_heap; [exact rep_ids0 |]. intros b i k _ Hk.
      destruct (Hlinks b k Hk) as (k' & ? & ? & ?). eauto.
    + intros b i _. unfold id_key.
      split; intros [Hb (k & Hk & Hi)]; (split; [done |]); exists k;
        [rewrite lookup_insert_ne by congruence | rewrite lookup_insert_ne in Hk by congruence]; done.
  - eapply table_key.
    + eapply table_heap; [exact rep_names0 |]. intros b i k _ Hk.
      destruct (Hlinks b k Hk) as (k' & ? & ? & ?). eauto.
    + intros b i _. unfold name_key. split.
      * intros (_ & k & p & pn & nm & Hk & Hkp & Hpn & Hnm & Hi). split; [done |].
        exists k, p, pn, nm. assert (a <> p) by (intros <-; by apply (Hch b k Hk)).
        rewrite !lookup_insert_ne by congruence. done.
      * intros (_ & k & p & pn & nm & Hk & Hkp & Hpn & Hnm & Hi). split; [done |].
        assert (a <> b) by (intros <-; rewrite lookup_insert_eq in Hk; congruence).
        rewrite lookup_insert_ne in Hk by done.
        assert (a <> p) by (intros <-; by apply (Hch b k Hk)).
        rewrite lookup_insert_ne in Hpn by done. by exists k, p, pn, nm.
Qed.

(** A table changes its links and nothing else. *)
Lemma rep_relinked_id f f' c x x' y :
  rep f c x y -> relinked (H := id_nodes) f f' ->
  table_ok id_next (nodes f') (id_table f') (id_key c x') -> rep f' c x' y.
Proof.
  intros [] (He & Ht & Hlen & Hb & Hl) Hid. split; [congruence | | done | | simpl in *; congruence
    | simpl in *; congruence].
  - intros a Ha. rewrite Hb in Ha. apply rep_fresh0 in Ha.
    apply (f_equal (fun m => m !! a)) in He. rewrite !lookup_fmap, Ha in He.
    by destruct (nodes f' !! a).
  - simpl in Ht. rewrite Ht. eapply table_heap; [done |]. intros a i n _ Ha. by apply Hl.
Qed.

Lemma rep_relinked_name f f' c x y y' :
  rep f c x y -> relinked (H := name_nodes) f f' ->
  table_ok name_next (nodes f') (name_table f') (name_key c y') -> rep f' c x y'.
Proof.
  intros [] (He & Ht & Hlen & Hb & Hl) Hnm. split; [congruence | | | done | simpl in *; congruence
    | simpl in *; congruence].
  - intros a Ha. rewrite Hb in Ha. apply rep_fresh0 in Ha.
    apply (f_equal (fun m => m !! a)) in He. rewrite !lookup_fmap, Ha in He.
    by destruct (nodes f' !! a).
  - simpl in Ht. rewrite Ht. eapply table_heap; [done |]. intros a i n _ Ha. by apply Hl.
Qed.

Lemma runs_id_hash f c x y id (Q : Z -> fuse -> Prop) :
  rep f c x y -> Q (Z.of_nat (id_bucket id)) f -> runs (id_hash id) f Q.
Proof.
  intros [] HQ. unfold id_hash. pose proof isz_pos. run. apply runs_assert; [lia |]. run. rewrite rep_isz0.
  unfold id_bucket in HQ. by rewrite Z2Nat.id in HQ by (apply Z.mod_pos_bound; lia).
Qed.

Lemma runs_name_hash f c x y id nm (Q : Z -> fuse -> Prop) :
  rep f c x y -> Q (Z.of_nat (name_bucket id nm)) f -> runs (name_hash char_value id nm) f Q.
Proof.
  intros [] HQ. unfold name_hash. pose proof nsz_pos. run. apply runs_assert; [lia |]. run. rewrite rep_nsz0.
  unfold name_bucket in HQ. by rewrite Z2Nat.id in HQ by apply name_hash_range.
Qed.

Lemma runs_unhash_id f c y a n (Q : unit -> fuse -> Prop) :
  rep f c None y -> c !! a = Some n ->
  (forall f', rep f' c (Some a) y -> brk f' = brk f -> Q tt f') -> runs (unhash_id a) f Q.
Proof.
  intros Hr Ha HQ. unfold unhash_id. apply runs_bind. eapply runs_load_rep; [done | done |].
  intros m Hm He. apply runs_bind. eapply runs_id_hash; [done |]. apply runs_bind, runs_get.
  apply runs_bind. eapply (runs_unlink_table (H := id_nodes)).
  - apply (rep_ids _ _ _ _ Hr).
  - simpl. rewrite (rep_isz _ _ _ _ Hr). apply id_bucket_lt.
  - split; [done |]. exists n. split; [done |]. by rewrite <- He.
  - intros. by eapply id_key_fun.
  - intros f' Hrl Ht. run. apply HQ; [| apply Hrl]. eapply rep_relinked_id; [done | done |].
    eapply table_key; [exact Ht |]. intros b i _. unfold id_key. naive_solver.
Qed.

Lemma runs_hash_id f c y a n (Q : unit -> fuse -> Prop) :
  rep f c (Some a) y -> c !! a = Some n ->
  (forall f', rep f' c None y -> brk f' = brk f -> Q tt f') -> runs (hash_id a) f Q.
Proof.
  intros Hr Ha HQ. unfold hash_id. apply runs_bind. eapply runs_load_rep; [done | done |].
  intros m Hm He. apply runs_bind. eapply runs_id_hash; [done |].
  set (i := id_bucket (nodeid m)).
  assert (i < length (id_table f))%nat as Hi by (rewrite (rep_isz _ _ _ _ Hr); apply id_bucket_lt).
  destruct (lookup_lt_is_Some_2 _ _ Hi) as [p Hp]. apply runs_bind.
  eapply (runs_read_bucket (Table := id_nodes)); [exact Hp |]. apply runs_bind.
  eapply runs_update; [exact Hm |].
  pose proof (relinked_node (H := id_nodes) f a m p Hm) as Hrl. simpl in Hrl.
  set (f1 := set_nodes _ f) in *.
  assert (table_ok id_next (nodes f1) (id_table f1) (id_key c (Some a))) as Ht1.
  { eapply table_heap; [apply (rep_ids _ _ _ _ Hr) |]. intros b j k [Hb _] Hk. exists k.
    unfold f1. cbn [nodes set_nodes]. rewrite lookup_insert_ne by congruence. done. }
  eapply (runs_write_bucket (Table := id_nodes)); [done |].
  apply HQ; [| done]. eapply rep_relinked_id; [done | |].
  - eapply relinked_trans; [exact Hrl |]. apply (relinked_table (H := id_nodes)). simpl.
    by rewrite length_insert.
  - simpl. eapply (table_push (H := id_nodes) f1); [exact Ht1 | exact Hp | | | |].
    + unfold f1. cbn [nodes set_nodes]. apply lookup_insert_eq.
    + done.
    + intros j [Hj _]. done.
    + intros b j. unfold id_key. split.
      * intros (_ & k & Hk & ->). destruct (decide (b = a)) as [->|]; [| left; split; [congruence | eauto]].
        right. split; [done |]. unfold i. simplify_eq. done.
      * intros [(? & k & ? & ?)|[-> ->]]; [eauto |]. split; [done |]. exists n. split; [done |].
        unfold i. by rewrite <- He.
Qed.
(** ** Searches *)

Lemma runs_id_search fuel f p ns id (Q : ptr -> fuse -> Prop) :
  linked id_next (nodes f) p ns -> (length ns < fuel)%nat ->
  (forall a m, a ∈ ns -> nodes f !! a = Some m -> nodeid m = id -> Q (Some a) f) ->
  ((forall a m, a ∈ ns -> nodes f !! a = Some m -> nodeid m <> id) -> Q None f) ->
  runs (id_search fuel p id) f Q.
Proof.
  revert p ns. induction fuel as [|fuel IH]; intros p ns Hl Hf Hsome Hnone; [lia |].
  cbn [id_search]. destruct p as [a|].
  - apply linked_some in Hl as (n & ns' & -> & Ha & Hl). apply runs_bind.
    eapply runs_node_load; [done |]. destruct (Z.eqb_spec (nodeid n) id) as [E|E].
    + apply runs_ret. eapply Hsome; [left | done | done].
    + eapply IH; [done | simpl in Hf; lia | |].
      * intros b m Hb. apply Hsome. by right.
      * intros Hno. apply Hnone. intros b m [->|Hb]%elem_of_cons; [| by apply Hno].
        by intros; simplify_eq.
  - apply linked_none in Hl as ->. apply runs_ret, Hnone. by intros a m ?%elem_of_nil.
Qed.

Lemma runs_get_node_nocheck f c x y id (Q : ptr -> fuse -> Prop) :
  rep f c x y ->
  (forall a n, Some a <> x -> c !! a = Some n -> nodeid n = id -> Q (Some a) f) ->
  ((forall a n, Some a <> x -> c !! a = Some n -> nodeid n <> id) -> Q None f) ->
  runs (get_node_nocheck id) f Q.
Proof.
  intros Hr Hsome Hnone. pose proof Hr as []. unfold get_node_nocheck. apply runs_bind.
  eapply runs_id_hash; [done |]. apply runs_bind, runs_get.
  destruct (table_bucket _ _ _ _ (id_bucket id) rep_ids0) as (p & ns & Hp & Hl & Hnd & Hin).
  { rewrite rep_isz0. apply id_bucket_lt. }
  apply runs_bind. eapply (runs_read_bucket (Table := id_nodes)); [exact Hp |].
  pose proof (linked_length _ _ _ _ Hl Hnd) as Hlen.
  eapply runs_id_search; [done | unfold list_fuel; lia | |].
  - intros a m (Hx & n & Hn & _)%Hin Hm Hid. eapply Hsome; [done | done |].
    destruct (rep_node _ _ _ _ _ _ Hr Hn) as (m' & ? & <-). by simplify_eq.
  - intros Hno. apply Hnone. intros a n Hx Hn Hid.
    destruct (rep_node _ _ _ _ _ _ Hr Hn) as (m & Hm & He).
    eapply (Hno a m); [| done | by subst n].
    apply Hin. split; [done |]. exists n. split; [done |]. by rewrite Hid.
Qed.

Lemma runs_get_node f c x y id a n (Q : nat -> fuse -> Prop) :
  rep f c x y -> Some a <> x -> c !! a = Some n -> nodeid n = id ->
  (forall b m, Some b <> x -> c !! b = Some m -> nodeid m = id -> b = a) ->
  Q a f -> runs (get_node id) f Q.
Proof.
  intros Hr Hx Ha Hid Huniq HQ. unfold get_node. apply runs_bind.
  eapply runs_get_node_nocheck; [done | |].
  - intros b m Hb Hm Hbid. rewrite (Huniq b m Hb Hm Hbid). by apply runs_ret.
  - intros Hno. by destruct (Hno a n).
Qed.

(** The node [a] is the entry [nm] of the directory with number [id]. *)
Definition entry (c : gmap nat node) (id : Z) (nm : bytes) (a : nat) : Prop :=
  exists n p pn, c !! a = Some n /\ parent n = Some p /\ c !! p = Some pn /\ nodeid pn = id /\
    name n = Some nm.

Lemma runs_name_search fuel f c x y p ns id nm (Q : ptr -> fuse -> Prop) :
  rep f c x y -> linked name_next (nodes f) p ns -> (length ns < fuel)%nat ->
  (forall a, a ∈ ns -> exists i, name_key c y a i) ->
  (forall a, a ∈ ns -> entry c id nm a -> Q (Some a) f) ->
  ((forall a, a ∈ ns -> ~ entry c id nm a) -> Q None f) ->
  runs (name_search fuel p id nm) f Q.
Proof.
  intros Hr. revert p ns. induction fuel as [|fuel IH]; intros p ns Hl Hf Hkey Hsome Hnone; [lia |].
  cbn [name_search]. destruct p as [a|].
  2:{ apply linked_none in Hl as ->. apply runs_ret, Hnone. by intros a ?%elem_of_nil. }
  apply linked_some in Hl as (m & ns' & -> & Hm & Hl). apply runs_bind.
  eapply runs_node_load; [done |].
  destruct (Hkey a ltac:(left)) as (i & _ & n & q & qn & s & Hn & Hpar & Hqn & Hname & _).
  destruct (rep_node _ _ _ _ _ _ Hr Hn) as (m' & Hm' & He). simplify_eq.
  change (parent (erase m)) with (parent m) in Hpar. rewrite Hpar. apply runs_bind.
  eapply runs_load_rep; [done | done |]. intros qm Hqm Heq.
  change (name (erase m)) with (name m) in Hname. rewrite Hname.
  assert (nodeid qm = nodeid qn) as -> by by rewrite <- Heq.
  assert (~ (nodeid qn = id /\ s = nm) -> runs (name_search fuel (name_next m) id nm) f Q) as Hgo.
  { intros Hne. eapply IH; [done | simpl in Hf; lia | | |].
    - intros b Hb. apply Hkey. by right.
    - intros b Hb. apply Hsome. by right.
    - intros Hno. apply Hnone. intros b [->|Hb]%elem_of_cons; [| by apply Hno].
      intros (n & r & rn & ? & ? & ? & ? & ?). simplify_eq.
      change (parent (erase m)) with (parent m) in *. change (name (erase m)) with (name m) in *.
      apply Hne. simplify_eq. done. }
  destruct (Z.eqb_spec (nodeid qn) id) as [E|E]; [| apply Hgo; tauto].
  destruct (Z.eqb_spec (strcmp s nm) 0) as [E2|E2].
  - apply strcmp_eq in E2 as ->. apply runs_ret, Hsome; [left |].
    exists (erase m), q, qn. done.
  - apply Hgo. intros [_ ->]. by rewrite strcmp_refl in E2.
Qed.

Lemma runs_lookup_node f c x y id nm (Q : ptr -> fuse -> Prop) :
  rep f c x y ->
  (forall a, Some a <> y -> entry c id nm a -> Q (Some a) f) ->
  ((forall a, Some a <> y -> ~ entry c id nm a) -> Q None f) ->
  runs (lookup_node char_value id nm) f Q.
Proof.
  intros Hr Hsome Hnone. pose proof Hr as []. unfold lookup_node. apply runs_bind.
  eapply runs_name_hash; [done |]. apply runs_bind, runs_get.
  destruct (table_bucket _ _ _ _ (name_bucket id nm) rep_names0) as (p & ns & Hp & Hl & Hnd & Hin).
  { rewrite rep_nsz0. apply name_bucket_lt. }
  apply runs_bind. eapply (runs_read_bucket (Table := name_nodes)); [exact Hp |].
  pose proof (linked_length _ _ _ _ Hl Hnd) as Hlen.
  eapply runs_name_search; [done | done | unfold list_fuel; lia | | |].
  - intros a Ha%Hin. eauto.
  - intros a [Hy _]%Hin. by apply Hsome.
  - intros Hno. apply Hnone. intros a Hy Ha. apply (Hno a); [| done]. apply Hin.
    destruct Ha as (n & q & qn & Hn & Hq & Hqn & <- & Hname). split; [done |].
    exists n, q, qn, nm. done.
Qed.
(** ** Counting references and deleting *)

(** One reference less to [a]; without references it is deleted. *)
Definition unref (c : gmap nat node) (a : nat) : gmap nat node :=
  match c !! a with
  | Some n => if refctr n - 1 =? 0 then delete a c else <[a := set_refctr (refctr n - 1) n]> c
  | None => c
  end.

(** No node but [y] has the parent [a]. *)
Definition childless (c : gmap nat node) (y : ptr) (a : nat) : Prop :=
  forall b n, c !! b = Some n -> parent n = Some a -> y = Some b.

Lemma runs_free_block f c y a n (Q : unit -> fuse -> Prop) :
  rep f c (Some a) y -> c !! a = Some n -> parent n = None -> childless c y a ->
  (forall f', rep f' (delete a c) None y -> Q tt f') -> runs (free_block a) f Q.
Proof.
  intros Hr Ha Hpar Hch HQ. unfold free_block. apply runs_bind.
  eapply runs_load_rep; [done | done |]. intros m Hm He. apply runs_modify, HQ.
  pose proof Hr as []. split; cbn [nodes set_nodes add_blocks id_table name_table brk]; try done.
  - by rewrite fmap_delete, rep_core0.
  - intros b Hb. destruct (decide (a = b)) as [<-|]; [apply lookup_delete_eq |].
    rewrite lookup_delete_ne by done. auto.
  - eapply table_key.
    + eapply table_heap; [exact rep_ids0 |]. intros b i k [Hb _] Hk. exists k.
      rewrite lookup_delete_ne by congruence. done.
    + intros b i _. unfold id_key. destruct (decide (a = b)) as [<-|].
      * rewrite lookup_delete_eq. naive_solver.
      * rewrite lookup_delete_ne by done. naive_solver.
  - eapply table_key.
    + eapply table_heap; [exact rep_names0 |].
      intros b i k (_ & n' & p & pn & nm & Hn' & Hp & _) Hk. exists k.
      rewrite lookup_delete_ne; [done |]. intros <-. congruence.
    + intros b i _. unfold name_key. split.
      * intros (Hy & n' & p & pn & nm & Hn' & Hp & Hpn & Hnm & Hi). split; [done |].
        exists n', p, pn, nm.
        rewrite !lookup_delete_ne; [done | |]; intros <-; [| congruence].
        by apply Hy; symmetry; eapply Hch.
      * intros (Hy & n' & p & pn & nm & Hn' & Hp & Hpn & Hnm & Hi). split; [done |].
        apply lookup_delete_Some in Hn' as [_ ?]. apply lookup_delete_Some in Hpn as [_ ?].
        exists n', p, pn, nm. done.
Qed.

Lemma rep_add_blocks f c x y k : rep f c x y -> rep (add_blocks k f) c x y.
Proof. intros []. by split. Qed.

Lemma runs_free_name s f c x y (Q : unit -> fuse -> Prop) :
  rep f c x y -> (forall f', rep f' c x y -> brk f' = brk f -> Q tt f') -> runs (free_name s) f Q.
Proof.
  intros Hr HQ. destruct s; [| by apply HQ]. unfold free_name. run. apply HQ; [| done].
  by apply rep_add_blocks.
Qed.

Lemma runs_unref_node f c y a n (Q : unit -> fuse -> Prop) :
  rep f c None y -> c !! a = Some n -> 0 < refctr n ->
  (refctr n = 1 -> name n = None /\ parent n = None /\ childless c y a) ->
  (forall f', rep f' (unref c a) None y -> Q tt f') -> runs (unref_node a) f Q.
Proof.
  intros Hr Ha Hpos Hlast HQ. unfold unref_node, unref in *. rewrite Ha in HQ. apply runs_bind.
  eapply runs_load_rep; [done | done |]. intros m Hm He.
  assert (refctr m = refctr n) as Hrc by by rewrite <- He. rewrite Hrc.
  replace (refctr n <=? 0) with false by lia. apply runs_bind.
  eapply (runs_update_rep _ _ _ _ y a n (set_refctr (refctr n - 1) n)); [done | done | | done | by left |].
  { intros k Hk. by rewrite <- Hk. }
  intros f1 Hr1 _. destruct (Z.eqb_spec (refctr n - 1) 0) as [E|E]; [| by apply runs_ret, HQ].
  destruct Hlast as (Hnm & Hpar & Hch); [lia |]. unfold delete_node. apply runs_bind.
  eapply runs_load_rep; [done | apply lookup_insert_eq |]. intros m1 Hm1 He1.
  assert (name m1 = None) as -> by (apply (f_equal name) in He1; simpl in He1; congruence).
  apply runs_bind. eapply runs_unhash_id; [done | apply lookup_insert_eq |]. intros f2 Hr2 _.
  unfold free_node. apply runs_bind. eapply runs_load_rep; [done | apply lookup_insert_eq |].
  intros m2 Hm2 He2. apply runs_bind. eapply runs_free_name; [done |]. intros f3 Hr3 _.
  eapply runs_free_block; [done | apply lookup_insert_eq | done | |].
  - intros b k Hb Hk. destruct (decide (a = b)) as [<-|].
    + rewrite lookup_insert_eq in Hb. injection Hb as <-. simpl in Hk. congruence.
    + rewrite lookup_insert_ne in Hb by done. by eapply Hch.
  - intros f' Hf'. apply HQ. by rewrite delete_insert_eq in Hf'.
Qed.

(** ** The name of a node *)

(** The nodes after [a] loses its name. *)
Definition unname (c : gmap nat node) (a : nat) : gmap nat node :=
  match c !! a with
  | Some n => match name n, parent n with
              | Some _, Some p => <[a := set_name None None n]> (unref c p)
              | _, _ => c
              end
  | None => c
  end.

Lemma unref_other c a b : a <> b -> unref c a !! b = c !! b.
Proof.
  intros Hab. unfold unref. destruct (c !! a) as [n|]; [| done].
  destruct (refctr n - 1 =? 0); [by rewrite lookup_delete_ne | by rewrite lookup_insert_ne].
Qed.

Lemma runs_unhash_name f c a n p pn nm (Q : unit -> fuse -> Prop) :
  rep f c None None -> c !! a = Some n -> name n = Some nm -> parent n = Some p ->
  c !! p = Some pn -> p <> a -> 0 < refctr pn ->
  (refctr pn = 1 -> name pn = None /\ parent pn = None /\ childless c (Some a) p) ->
  (forall f', rep f' (unname c a) None None -> Q tt f') -> runs (unhash_name char_value a) f Q.
Proof.
  intros Hr Ha Hnm Hpar Hp Hpa Hpos Hlast HQ. unfold unhash_name, unname in *.
  rewrite Ha, Hnm, Hpar in HQ. apply runs_bind. eapply runs_load_rep; [done | done |].
  intros m Hm He.
  assert (name m = Some nm /\ parent m = Some p) as [-> ->] by (rewrite <- He in *; done).
  apply runs_bind. eapply runs_load_rep; [done | done |]. intros pm Hpm Hpe.
  assert (nodeid pm = nodeid pn) as -> by by rewrite <- Hpe.
  apply runs_bind. eapply runs_name_hash; [done |]. apply runs_bind, runs_get. apply runs_bind.
  eapply (runs_unlink_table (H := name_nodes)).
  - apply (rep_names _ _ _ _ Hr).
  - simpl. rewrite (rep_nsz _ _ _ _ Hr). apply name_bucket_lt.
  - split; [done |]. exists n, p, pn, nm. done.
  - intros. by eapply name_key_fun.
  - intros f1 Hrl Ht. assert (rep f1 c None (Some a)) as Hr1.
    { eapply rep_relinked_name; [done | done |]. eapply table_key; [exact Ht |].
      intros b i _. unfold name_key. naive_solver. }
    clear Hrl Ht. apply runs_bind. destruct (rep_node _ _ _ _ _ _ Hr1 Ha) as (m1 & Hm1 & He1).
    eapply runs_update; [done |].
    pose proof (relinked_node (H := name_nodes) f1 a m1 None Hm1) as Hrl. simpl in Hrl.
    assert (rep (set_nodes (<[a := set_name_next None m1]> (nodes f1)) f1) c None (Some a)) as Hr2.
    { eapply rep_relinked_name; [exact Hr1 | exact Hrl |]. cbn [nodes set_nodes name_table].
      eapply table_heap; [apply (rep_names _ _ _ _ Hr1) |]. intros b i k [Hb _] Hk. exists k.
      rewrite lookup_insert_ne by congruence. done. }
    apply runs_bind. eapply runs_unref_node; [exact Hr2 | done | done | done |]. intros f3 Hr3.
    apply runs_bind. eapply runs_free_name; [done |]. intros f4 Hr4 _.
    assert (unref c p !! a = Some n) as Ha' by by rewrite unref_other.
    eapply (runs_update_rep _ _ _ _ None a n (set_name None None n));
      [done | done | | done | by right; left |].
    { intros k Hk. by rewrite <- Hk. }
    intros f5 Hr5 _. by apply HQ.
Qed.

(** Whether the [n]-th allocation succeeds. *)
Context {alloc_ok : nat -> bool}.

(** An allocation has failed. *)
Definition no_memory : Prop := exists n, alloc_ok n = false.

Lemma runs_node_malloc f c x y (Q : bool -> fuse -> Prop) :
  rep f c x y ->
  (forall f', rep f' c x y -> brk f' = brk f -> Q true f') ->
  (no_memory -> forall f', rep f' c x y -> Q false f') ->
  runs (malloc alloc_ok) f Q.
Proof.
  intros [] HQ HQ0. unfold malloc. run. destruct (alloc_ok (allocs f)) eqn:E.
  - apply HQ; [by split | done].
  - apply HQ0; [by exists (allocs f) | by split].
Qed.

(** [a], that has no name, gets one in the directory [p]. *)
Definition rename_in (c : gmap nat node) (a p : nat) (nm : bytes) : gmap nat node :=
  match c !! p, c !! a with
  | Some pn, Some n =>
      <[a := set_name (Some p) (Some nm) n]> (<[p := set_refctr (refctr pn + 1) pn]> c)
  | _, _ => c
  end.

Lemma runs_hash_name f c x a n p pn nm (Q : Z -> fuse -> Prop) :
  rep f c x None -> c !! a = Some n -> parent n = None -> name n = None ->
  Some p <> x -> c !! p = Some pn -> p <> a ->
  (forall b m, Some b <> x -> c !! b = Some m -> nodeid m = nodeid pn -> b = p) ->
  refctr pn < 2 ^ 31 - 1 -> - 2 ^ 31 <= refctr pn + 1 ->
  (forall f', rep f' (rename_in c a p nm) x None -> brk f' = brk f -> Q 0 f') ->
  (no_memory -> forall f', rep f' c x None -> Q (-1) f') ->
  runs (hash_name alloc_ok char_value a (nodeid pn) nm) f Q.
Proof.
  intros Hr Ha Hpar Hname Hpx Hp Hpa Huniq Hsmall Hlow HQ HQ1. unfold hash_name, rename_in in *.
  rewrite Hp, Ha in HQ. apply runs_bind. eapply runs_name_hash; [done |].
  apply runs_bind. eapply runs_get_node; [done | done | done | done | done |].
  apply runs_bind. eapply runs_node_malloc; [done | |].
  2:{ intros Hno f1 Hr1. apply runs_bind.
      eapply (runs_update_rep _ _ _ _ None a n n); [done | done | | done | by left |].
      { intros k <-. by destruct k; simpl in *; subst. }
      intros f2 Hr2 Hb2. rewrite insert_id in Hr2 by done. by apply runs_ret, HQ1. }
  intros f1 Hr1 Hb1.
  apply runs_bind.
  eapply (runs_update_rep _ _ _ _ (Some a) a n (set_name None (Some nm) n));
    [done | done | | done | right; right; auto |].
  { intros k <-. by destruct k; simpl in *; subst. }
  intros f2 Hr2 Hb2. set (c2 := <[a := _]> c) in *.
  assert (c2 !! p = Some pn) as Hp2 by (unfold c2; by rewrite lookup_insert_ne).
  apply runs_bind. eapply runs_load_rep; [done | done |]. intros pm Hpm Hpe.
  assert (refctr pm = refctr pn) as -> by by rewrite <- Hpe.
  apply runs_bind, runs_assert; [apply in_range_spec; lia |]. apply runs_bind.
  eapply (runs_update_rep _ _ _ _ (Some a) p pn (set_refctr (refctr pn + 1) pn));
    [done | done | | done | by left |].
  { intros k <-. done. }
  intros f3 Hr3 Hb3. set (c3 := <[p := _]> c2) in *.
  assert (c3 !! a = Some (set_name None (Some nm) n)) as Ha3.
  { unfold c3, c2. rewrite lookup_insert_ne by done. apply lookup_insert_eq. }
  apply runs_bind.
  eapply (runs_update_rep _ _ _ _ (Some a) a _ (set_name (Some p) (Some nm) n));
    [done | done | | done | right; right; auto |].
  { intros k Hk. split; [| done].
    change (erase (set_name (Some p) (Some nm) k)) with (set_name (Some p) (Some nm) (erase k)).
    by rewrite Hk. }
  intros f4 Hr4 Hb4. set (c4 := <[a := _]> c3) in *.
  assert (c4 = <[a := set_name (Some p) (Some nm) n]> (<[p := set_refctr (refctr pn + 1) pn]> c))
    as Hc4.
  { unfold c4, c3, c2. rewrite (insert_insert_ne c) by done. by rewrite insert_insert_eq. }
  set (i := name_bucket (nodeid pn) nm).
  assert (i < length (name_table f4))%nat as Hi.
  { rewrite (rep_nsz _ _ _ _ Hr4). apply name_bucket_lt. }
  destruct (lookup_lt_is_Some_2 _ _ Hi) as [q Hq]. apply runs_bind.
  eapply (runs_read_bucket (Table := name_nodes)); [exact Hq |]. apply runs_bind.
  destruct (rep_node _ _ _ _ a _ Hr4 ltac:(apply lookup_insert_eq)) as (m & Hm & He).
  eapply runs_update; [exact Hm |].
  pose proof (relinked_node (H := name_nodes) f4 a m q Hm) as Hrl. simpl in Hrl.
  set (f5 := set_nodes _ f4) in *.
  assert (table_ok name_next (nodes f5) (name_table f5) (name_key c4 (Some a))) as Ht5.
  { eapply table_heap; [apply (rep_names _ _ _ _ Hr4) |]. intros b j k [Hb _] Hk. exists k.
    unfold f5. cbn [nodes set_nodes]. rewrite lookup_insert_ne by congruence. done. }
  apply runs_bind. eapply (runs_write_bucket (Table := name_nodes)); [done |]. apply runs_ret.
  apply HQ; [| simpl; congruence]. rewrite <- Hc4.
  eapply rep_relinked_name; [done | |].
  - eapply relinked_trans; [exact Hrl |]. apply (relinked_table (H := name_nodes)). simpl.
    by rewrite length_insert.
  - simpl. eapply (table_push (H := name_nodes) f5); [exact Ht5 | exact Hq | | | |].
    + unfold f5. cbn [nodes set_nodes]. apply lookup_insert_eq.
    + done.
    + intros j [Hj _]. done.
    + assert (c4 !! p = Some (set_refctr (refctr pn + 1) pn)) as Hp4.
      { rewrite Hc4, lookup_insert_ne by done. apply lookup_insert_eq. }
      intros b j. unfold name_key. split.
      * intros (_ & k & r & rn & s & Hk & Hr' & Hrn & Hs & ->).
        destruct (decide (b = a)) as [->|]; [| left; split; [congruence | eauto 10]].
        right. split; [done |]. unfold c4 in Hk. rewrite lookup_insert_eq in Hk.
        injection Hk as <-. simpl in Hr', Hs. injection Hr' as <-. injection Hs as <-.
        rewrite Hp4 in Hrn. by injection Hrn as <-.
      * intros [(_ & k & r & rn & s & ?)|[-> ->]]; [split; [done |]; by exists k, r, rn, s |].
        split; [done |]. exists (set_name (Some p) (Some nm) n), p, (set_refctr (refctr pn + 1) pn), nm.
        split_and!; try done. unfold c4. apply lookup_insert_eq.
Qed.
(** ** New numbers *)

Lemma exists_fresh (l : list Z) v :
  Z.of_nat (length l) + 1 <= 2 ^ 32 ->
  exists j : nat, (1 <= j <= S (length l))%nat /\ (v + Z.of_nat j) mod 2 ^ 32 ∉ l.
Proof.
  intros Hl. set (s := (fun j : nat => (v + Z.of_nat j) mod 2 ^ 32) <$> seq 1 (S (length l))).
  destruct (decide (Forall (fun x => x ∈ l) s)) as [Hall|Hsome].
  - exfalso. assert (NoDup s) as Hnd.
    { apply NoDup_fmap_2_strong; [| apply NoDup_seq].
      intros i j Hi%elem_of_seq Hj%elem_of_seq E.
      assert ((Z.of_nat i - Z.of_nat j) mod 2 ^ 32 = 0) as Hz.
      { replace (Z.of_nat i - Z.of_nat j) with ((v + Z.of_nat i) - (v + Z.of_nat j)) by lia.
        by rewrite Zminus_mod, E, Z.sub_diag. }
      apply Z.mod_divide in Hz as [k Hk]; [| lia]. assert (k = 0) by nia. lia. }
    assert (length s <= length l)%nat as Hlen.
    { apply submseteq_length, NoDup_submseteq; [done |]. by apply Forall_forall. }
    unfold s in Hlen. rewrite length_fmap, length_seq in Hlen. lia.
  - apply not_Forall_Exists, Exists_exists in Hsome as (x & (j & -> & Hj%elem_of_seq)%list_elem_of_fmap & Hx);
      [| solve_decision].
    exists j. split; [lia | done].
Qed.

Lemma rep_ctr f c x y k g : rep f c x y -> rep (set_ctr k g f) c x y.
Proof. intros []. by split. Qed.

Lemma runs_next_id_loop fuel j f c x y (Q : Z -> fuse -> Prop) :
  rep f c x y -> (1 <= j <= fuel)%nat ->
  (ctr f + Z.of_nat j) mod 2 ^ 32 ∉ 0 :: FUSE_UNKNOWN_INO :: (nodeid ∘ snd <$> map_to_list c) ->
  (forall id f', rep f' c x y -> brk f' = brk f -> 0 < id < 2 ^ 32 ->
     (forall a n, Some a <> x -> c !! a = Some n -> nodeid n <> id) -> Q id f') ->
  runs (next_id_loop fuel) f Q.
Proof.
  revert j f. induction fuel as [|fuel IH]; intros j f Hr Hj Hfree HQ; [lia |].
  cbn [next_id_loop]. apply runs_bind, runs_get. cbv zeta.
  change 4294967295 with (Z.ones 32). rewrite Z.land_ones by lia.
  set (k := (ctr f + 1) mod 2 ^ 32). apply runs_bind, runs_modify.
  set (f1 := set_ctr _ _ _). assert (rep f1 c x y) as Hr1 by by apply rep_ctr.
  assert (j <> 1%nat -> runs (next_id_loop fuel) f1 Q) as Hgo.
  { intros Hj1. apply IH with (j - 1)%nat; [done | lia | | done]. unfold f1, k. cbn [ctr set_ctr].
    rewrite Zplus_mod_idemp_l. by replace (ctr f + 1 + Z.of_nat (j - 1)) with (ctr f + Z.of_nat j) by lia. }
  assert (j = 1%nat -> k ∉ 0 :: FUSE_UNKNOWN_INO :: (nodeid ∘ snd <$> map_to_list c)) as Hk.
  { intros ->. exact Hfree. }
  destruct ((k =? 0) || (k =? FUSE_UNKNOWN_INO)) eqn:E.
  { apply Hgo. intros Hj1. specialize (Hk Hj1). rewrite !elem_of_cons in Hk. lia. }
  apply runs_bind. eapply runs_get_node_nocheck; [done | |].
  - intros a n Hx Ha Hid. apply Hgo. intros Hj1. apply (Hk Hj1). right. right.
    apply list_elem_of_fmap. exists (a, n). split; [done |]. by apply elem_of_map_to_list.
  - intros Hno. apply runs_ret, HQ; [done | done | | done].
    pose proof (Z.mod_pos_bound (ctr f + 1) (2 ^ 32)). fold k in H. lia.
Qed.

Lemma runs_next_id f c x y (Q : Z -> fuse -> Prop) :
  rep f c x y -> Z.of_nat (size c) + 3 <= 2 ^ 32 ->
  (forall id f', rep f' c x y -> brk f' = brk f -> 0 < id < 2 ^ 32 ->
     (forall a n, Some a <> x -> c !! a = Some n -> nodeid n <> id) -> Q id f') ->
  runs next_id f Q.
Proof.
  intros Hr Hs HQ. unfold next_id. apply runs_bind, runs_get.
  destruct (exists_fresh (0 :: FUSE_UNKNOWN_INO :: (nodeid ∘ snd <$> map_to_list c)) (ctr f))
    as (j & Hj & Hfree).
  { simpl. rewrite length_fmap, length_map_to_list. lia. }
  eapply runs_next_id_loop; [done | | done | done].
  simpl in Hj. rewrite length_fmap, length_map_to_list in Hj. unfold list_fuel.
  assert (size (nodes f) = size c) as -> by by rewrite <- (rep_core _ _ _ _ Hr), map_size_fmap.
  lia.
Qed.

Lemma runs_new_node f c (Q : ptr -> fuse -> Prop) :
  rep f c None None ->
  (forall a n p, c !! a = Some n -> parent n = Some p -> is_Some (c !! p)) ->
  (forall a f', c !! a = None -> rep f' (<[a := zero_node]> c) (Some a) None -> Q (Some a) f') ->
  (no_memory -> forall f', rep f' c None None -> Q None f') ->
  runs (new_node alloc_ok) f Q.
Proof.
  intros Hr Hpar HQ HQ0. unfold new_node. apply runs_bind, runs_get. apply runs_bind.
  eapply runs_node_malloc; [done | | intros Hno f1 Hr1; by apply runs_ret, HQ0]. intros f1 Hr1 Hb.
  run. rewrite <- Hb. pose proof Hr1 as [].
  assert (nodes f1 !! brk f1 = None) as Hnew by (apply rep_fresh0; lia).
  assert (c !! brk f1 = None) as Hc by by rewrite <- rep_core0, lookup_fmap, Hnew.
  apply HQ; [done |]. split; cbn [nodes id_table name_table brk]; try done.
  - by rewrite fmap_insert, rep_core0.
  - intros a Ha. rewrite lookup_insert_ne by lia. apply rep_fresh0. lia.
  - eapply table_key.
    + eapply table_heap; [exact rep_ids0 |]. intros a i n _ Ha. exists n.
      rewrite lookup_insert_ne by congruence. done.
    + intros a i _. unfold id_key. split.
      * intros (_ & n & Hn & Hi). split; [congruence |]. exists n.
        by rewrite lookup_insert_ne by congruence.
      * intros (Hx & n & Hn & Hi). split; [done |]. exists n.
        by rewrite lookup_insert_ne in Hn by congruence.
  - eapply table_key.
    + eapply table_heap; [exact rep_names0 |]. intros a i n _ Ha. exists n.
      rewrite lookup_insert_ne by congruence. done.
    + intros a i _. unfold name_key. split.
      * intros (_ & n & p & pn & nm & Hn & Hp & Hpn & Hnm & Hi). split; [done |].
        exists n, p, pn, nm. rewrite !lookup_insert_ne by congruence. done.
      * intros (_ & n & p & pn & nm & Hn & Hp & Hpn & Hnm & Hi). split; [done |].
        assert (brk f1 <> a) by (intros <-; rewrite lookup_insert_eq in Hn; by injection Hn as <-).
        rewrite lookup_insert_ne in Hn by done. destruct (Hpar a n p Hn Hp) as [pn' Hpn'].
        rewrite lookup_insert_ne in Hpn by congruence. exists n, p, pn, nm. done.
Qed.
End Contents.
Arguments rep char_value isz nsz f c x y : clear implicits.
Arguments no_memory alloc_ok : clear implicits.
