(* ===== verification/FuseTree.v ===== *)
(** The invariant of the nodes of FUSE, on their contents without the links: the
    directories that they form and the references that they count. *)

From S2P Require Import Prelude.
From S2P Require Import CString.
From S2P Require Import Chain.
From S2P Require Import FuseNodes.
From S2P Require Import FuseNodesSpec.

(** * The invariant of the contents *)

(** The children of [p]. *)
Definition kids (c : gmap nat node) (p : nat) : Z :=
  Z.of_nat (size (filter (fun x => parent x.2 = Some p) c)).

Definition is_kid (p : nat) (n : node) : Z := if decide (parent n = Some p) then 1 else 0.

Lemma kids_insert c a n p :
  kids (<[a := n]> c) p = kids (delete a c) p + is_kid p n.
Proof.
  unfold kids, is_kid. rewrite <- insert_delete_eq. rewrite map_filter_insert.
  case_decide as H; simpl in H.
  - rewrite decide_True by done. rewrite map_size_insert_None; [lia |].
    apply map_lookup_filter_None_2. left. apply lookup_delete_eq.
  - rewrite decide_False by done. rewrite map_filter_delete, !map_filter_delete, delete_delete_eq. lia.
Qed.

Lemma kids_split c a n p : c !! a = Some n -> kids c p = kids (delete a c) p + is_kid p n.
Proof. intros Ha. rewrite <- (insert_id c a n Ha) at 1. apply kids_insert. Qed.

Lemma kids_change c a n n' p :
  c !! a = Some n -> kids (<[a := n']> c) p = kids c p - is_kid p n + is_kid p n'.
Proof. intros Ha. rewrite kids_insert, (kids_split c a n p Ha). lia. Qed.

Lemma kids_nonneg c p : 0 <= kids c p.
Proof. unfold kids. lia. Qed.

Lemma is_kid_range p n : 0 <= is_kid p n <= 1.
Proof. unfold is_kid. case_decide; lia. Qed.

Lemma is_kid_eq p n n' : parent n' = parent n -> is_kid p n' = is_kid p n.
Proof. unfold is_kid. by intros ->. Qed.

Lemma kids_bound c p : kids c p <= Z.of_nat (size c).
Proof. unfold kids. apply Nat2Z.inj_le, map_subseteq_size, map_filter_subseteq. Qed.

Lemma kids_zero c p a n : kids c p = 0 -> c !! a = Some n -> parent n <> Some p.
Proof.
  intros Hk Ha Hp. rewrite (kids_split c a n p Ha) in Hk. pose proof (kids_nonneg (delete a c) p).
  unfold is_kid in Hk. rewrite decide_True in Hk by done. lia.
Qed.

(** A reference that is not accounted for. *)
Definition credit (a b : nat) : Z := if decide (a = b) then 1 else 0.
Definition no_credit : nat -> Z := fun _ => 0.

(** The nodes form a table of directories: numbers and entries are unique, parents
    exist, a node counts the kernel's lookups as one reference and each child as
    one, and numbers and counts have 64 bits. [cr] are references to come off, [e] is a node being forgotten. *)
Record tree (c : gmap nat node) (cr : nat -> Z) (e : ptr) : Prop := Tree {
  t_ids : forall a b n m, c !! a = Some n -> c !! b = Some m -> nodeid n = nodeid m -> a = b;
  t_names : forall a b n m p, c !! a = Some n -> c !! b = Some m -> parent n = Some p ->
    parent m = Some p -> name n = name m -> a = b;
  t_parent : forall a n p, c !! a = Some n -> parent n = Some p ->
    p <> a /\ is_Some (c !! p) /\ is_Some (name n);
  t_orphan : forall a n, c !! a = Some n -> parent n = None -> name n = None \/ nodeid n = FUSE_ROOT_ID;
  t_forgot : forall a n, c !! a = Some n -> nlookup n = 0 -> Some a <> e ->
    parent n = None /\ name n = None;
  t_refs : forall a n, c !! a = Some n ->
    refctr n = (if nlookup n =? 0 then 0 else 1) + kids c a + cr a;
  t_live : forall a n, c !! a = Some n -> 0 < refctr n /\ 0 <= nlookup n;
  t_root : exists r n, c !! r = Some n /\ nodeid n = FUSE_ROOT_ID /\ parent n = None /\ nlookup n <> 0;
  t_range : forall a n, c !! a = Some n -> 0 < nodeid n < 2 ^ 64 /\ nlookup n < 2 ^ 64 }.

(** A change of a node that keeps its number and its place. *)
Lemma tree_change c cr cr' e e' a n n' :
  tree c cr e -> c !! a = Some n ->
  nodeid n' = nodeid n -> parent n' = parent n -> name n' = name n ->
  0 < refctr n' -> 0 <= nlookup n' ->
  refctr n' - (if nlookup n' =? 0 then 0 else 1) - cr' a
    = refctr n - (if nlookup n =? 0 then 0 else 1) - cr a ->
  (forall b, b <> a -> cr' b = cr b) ->
  (forall b, b <> a -> Some b <> e' -> Some b <> e) ->
  (Some a <> e' -> nlookup n' = 0 -> parent n = None /\ name n = None) ->
  (nodeid n = FUSE_ROOT_ID -> nlookup n' <> 0) -> nlookup n' < 2 ^ 64 ->
  tree (<[a := n']> c) cr' e'.
Proof.
  intros [] Ha Hid Hpar Hname Hpos Hnl Href Hcr He Hforgot Hroot Hmax.
  assert (forall b m, <[a := n']> c !! b = Some m -> exists k, c !! b = Some k /\
    nodeid m = nodeid k /\ parent m = parent k /\ name m = name k) as Hold.
  { intros b m Hm. destruct (decide (a = b)) as [<-|].
    - rewrite lookup_insert_eq in Hm. injection Hm as <-. by exists n.
    - rewrite lookup_insert_ne in Hm by done. by exists m. }
  assert (forall p, kids (<[a := n']> c) p = kids c p) as Hkids.
  { intros p. rewrite (kids_change c a n) by done. rewrite (is_kid_eq p n n' Hpar). lia. }
  split.
  - intros b d m k (m' & Hm & -> & _ & _)%Hold (k' & Hk & -> & _ & _)%Hold. by apply t_ids0.
  - intros b d m k p (m' & Hm & _ & -> & ->)%Hold (k' & Hk & _ & -> & ->)%Hold.
    by apply (t_names0 b d m' k' p).
  - intros b m p (m' & Hm & _ & -> & ->)%Hold Hp. destruct (t_parent0 b m' p Hm Hp) as (? & Hs & ?).
    split_and!; try done. destruct (decide (a = p)) as [<-|].
    + by rewrite lookup_insert_eq.
    + by rewrite lookup_insert_ne.
  - intros b m (m' & Hm & -> & -> & ->)%Hold. by apply (t_orphan0 b m').
  - intros b m Hm Hz Hb. destruct (decide (a = b)) as [<-|Hab].
    + rewrite lookup_insert_eq in Hm. injection Hm as <-. rewrite Hpar, Hname. by apply Hforgot.
    + rewrite lookup_insert_ne in Hm by done. apply (t_forgot0 b m); auto.
  - intros b m Hm. rewrite Hkids. destruct (decide (a = b)) as [<-|Hab].
    + rewrite lookup_insert_eq in Hm. injection Hm as <-. specialize (t_refs0 a n Ha). lia.
    + rewrite lookup_insert_ne in Hm by done. rewrite Hcr by done. by apply t_refs0.
  - intros b m Hm. destruct (decide (a = b)) as [<-|Hab].
    + rewrite lookup_insert_eq in Hm. by injection Hm as <-.
    + rewrite lookup_insert_ne in Hm by done. by eapply t_live0.
  - destruct t_root0 as (r & m & Hr & Hm1 & Hm2 & Hm3). exists r.
    destruct (decide (a = r)) as [<-|].
    + rewrite lookup_insert_eq. exists n'. simplify_eq. rewrite Hid, Hpar. auto.
    + rewrite lookup_insert_ne by done. eauto.
  - intros b m [[<- <-]|[_ Hm]]%lookup_insert_Some; [| by apply (t_range0 b)].
    split; [| done]. rewrite Hid. by apply (t_range0 a).
Qed.

(** A node loses its place. *)
Lemma tree_unplace c cr e a n p :
  tree c cr e -> c !! a = Some n -> parent n = Some p ->
  tree (<[a := set_name None None n]> c) (fun b => cr b + credit p b) e.
Proof.
  intros [] Ha Hp. set (n' := set_name None None n).
  assert (forall q, kids (<[a := n']> c) q + credit p q = kids c q) as Hkids.
  { intros q. rewrite (kids_change c a n) by done. unfold is_kid, credit. rewrite Hp. simpl.
    repeat case_decide; simplify_eq; lia. }
  assert (forall b m, <[a := n']> c !! b = Some m -> parent m <> None ->
    c !! b = Some m /\ b <> a) as Hold.
  { intros b m Hm Hpm. destruct (decide (a = b)) as [<-|].
    - rewrite lookup_insert_eq in Hm. injection Hm as <-. done.
    - rewrite lookup_insert_ne in Hm by done. done. }
  assert (forall b m, <[a := n']> c !! b = Some m -> exists k, c !! b = Some k /\
    nodeid m = nodeid k /\ nlookup m = nlookup k /\ refctr m = refctr k) as Hids.
  { intros b m Hm. destruct (decide (a = b)) as [<-|].
    - rewrite lookup_insert_eq in Hm. injection Hm as <-. by exists n.
    - rewrite lookup_insert_ne in Hm by done. by exists m. }
  split.
  - intros b d m k (m' & Hm & -> & _)%Hids (k' & Hk & -> & _)%Hids. by apply t_ids0.
  - intros b d m k q Hm Hk Hpm Hpk. apply Hold in Hm as [Hm _]; [| congruence].
    apply Hold in Hk as [Hk _]; [| congruence]. by apply (t_names0 b d m k q).
  - intros b m q Hm Hpm. apply Hold in Hm as [Hm _]; [| congruence].
    destruct (t_parent0 b m q Hm Hpm) as (? & Hs & ?). split_and!; try done.
    destruct (decide (a = q)) as [<-|]; [by rewrite lookup_insert_eq | by rewrite lookup_insert_ne].
  - intros b m Hm Hpm. destruct (decide (a = b)) as [<-|].
    + rewrite lookup_insert_eq in Hm. injection Hm as <-. by left.
    + rewrite lookup_insert_ne in Hm by done. by apply (t_orphan0 b m).
  - intros b m Hm Hz Hb. destruct (decide (a = b)) as [<-|].
    + rewrite lookup_insert_eq in Hm. by injection Hm as <-.
    + rewrite lookup_insert_ne in Hm by done. by eapply t_forgot0.
  - intros b m (m' & Hm & _ & -> & ->)%Hids. rewrite (t_refs0 b m' Hm). specialize (Hkids b). lia.
  - intros b m (m' & Hm & _ & -> & ->)%Hids. by eapply t_live0.
  - destruct t_root0 as (r & m & Hr & Hm1 & Hm2 & Hm3). exists r, m.
    rewrite lookup_insert_ne by congruence. done.
  - intros b m (m' & Hm & -> & -> & _)%Hids. by apply (t_range0 b).
Qed.

(** A node without a reference, and not looked up, goes. *)
Lemma tree_delete c cr e a n :
  tree c cr e -> c !! a = Some n -> parent n = None -> nlookup n = 0 -> kids c a = 0 ->
  tree (delete a c) cr e.
Proof.
  intros [] Ha Hp Hnl Hk.
  assert (forall q, kids (delete a c) q = kids c q) as Hkids.
  { intros q. rewrite (kids_split c a n q Ha). unfold is_kid. rewrite Hp. simpl. lia. }
  assert (forall b m, delete a c !! b = Some m -> c !! b = Some m) as Hold.
  { by intros b m [_ ?]%lookup_delete_Some. }
  split.
  - eauto.
  - eauto.
  - intros b m q Hm%Hold Hpm. destruct (t_parent0 b m q Hm Hpm) as (? & Hs & ?).
    split_and!; try done. rewrite lookup_delete_ne; [done |]. intros <-.
    by apply (kids_zero c a b m).
  - eauto.
  - eauto.
  - intros b m Hm%Hold. rewrite Hkids. eauto.
  - eauto.
  - destruct t_root0 as (r & m & Hr & ? & ? & ?). exists r, m.
    rewrite lookup_delete_ne by congruence. done.
  - eauto.
Qed.

Lemma tree_cr c cr cr' e :
  tree c cr e -> (forall a, is_Some (c !! a) -> cr a = cr' a) -> tree c cr' e.
Proof. intros [] Hcr. split; eauto. intros a n Ha. rewrite <- Hcr by eauto. eauto. Qed.

(** A node gets a place. *)
Lemma tree_place c cr e a n p nm :
  tree c (fun b => cr b + credit p b) e -> c !! a = Some n -> parent n = None ->
  nodeid n <> FUSE_ROOT_ID -> nlookup n <> 0 -> p <> a -> is_Some (c !! p) ->
  (forall b m, c !! b = Some m -> parent m = Some p -> name m <> Some nm) ->
  tree (<[a := set_name (Some p) (Some nm) n]> c) cr e.
Proof.
  intros [] Ha Hp Hid Hnl Hpa Hps Hnew. set (n' := set_name (Some p) (Some nm) n).
  assert (forall q, kids (<[a := n']> c) q = kids c q + credit p q) as Hkids.
  { intros q. rewrite (kids_change c a n) by done. unfold is_kid, credit. rewrite Hp. simpl.
    repeat case_decide; simplify_eq; lia. }
  assert (forall b m, <[a := n']> c !! b = Some m -> b = a /\ m = n' \/ b <> a /\ c !! b = Some m)
    as Hold.
  { intros b m Hm. destruct (decide (a = b)) as [<-|].
    - rewrite lookup_insert_eq in Hm. injection Hm as <-. by left.
    - rewrite lookup_insert_ne in Hm by done. by right. }
  split.
  - intros b d m k [[-> ->]|[? Hm]]%Hold [[-> ->]|[? Hk]]%Hold Heq; [done | | |].
    + by apply (t_ids0 a d n k).
    + by apply (t_ids0 b a m n).
    + by apply (t_ids0 b d m k).
  - intros b d m k q [[-> ->]|[? Hm]]%Hold [[-> ->]|[? Hk]]%Hold Hpm Hpk Heq; [done | | |].
    + simpl in *. injection Hpm as <-. by destruct (Hnew d k Hk Hpk).
    + simpl in *. injection Hpk as <-. by destruct (Hnew b m Hm Hpm).
    + by apply (t_names0 b d m k q).
  - assert (forall q, is_Some (c !! q) -> is_Some (<[a := n']> c !! q)) as Hs.
    { intros q Hq. destruct (decide (a = q)) as [<-|];
        [by rewrite lookup_insert_eq | by rewrite lookup_insert_ne]. }
    intros b m q [[-> ->]|[? Hm]]%Hold Hpm.
    + simpl in *. injection Hpm as <-. eauto.
    + destruct (t_parent0 b m q Hm Hpm) as (? & ? & ?). eauto.
  - intros b m [[-> ->]|[? Hm]]%Hold Hpm; [done |]. by apply (t_orphan0 b m).
  - intros b m [[-> ->]|[? Hm]]%Hold Hz Hb; [done |]. by apply (t_forgot0 b m).
  - intros b m [[-> ->]|[? Hm]]%Hold; rewrite Hkids.
    + simpl. rewrite (t_refs0 a n Ha). lia.
    + rewrite (t_refs0 b m Hm). lia.
  - intros b m [[-> ->]|[? Hm]]%Hold; [by apply (t_live0 a n) | by apply (t_live0 b m)].
  - destruct t_root0 as (r & m & Hr & Hm1 & Hm2 & Hm3). exists r, m.
    rewrite lookup_insert_ne by congruence. done.
  - intros b m [[-> ->]|[? Hm]]%Hold; [by apply (t_range0 a n) | by apply (t_range0 b m)].
Qed.

(** A new node, without a place. *)
Lemma tree_add c cr e a n :
  tree c cr e -> c !! a = None -> parent n = None -> name n = None -> refctr n = 1 ->
  0 < nlookup n -> cr a = 0 -> (forall b m, c !! b = Some m -> nodeid m <> nodeid n) ->
  0 < nodeid n < 2 ^ 64 -> nlookup n < 2 ^ 64 ->
  tree (<[a := n]> c) cr e.
Proof.
  intros [] Ha Hp Hn Hr Hnl Hcr Hid Hrange Hmax.
  assert (forall q, kids (<[a := n]> c) q = kids c q) as Hkids.
  { intros q. rewrite kids_insert, delete_id by done. unfold is_kid. rewrite Hp. simpl. lia. }
  assert (kids c a = 0) as Hka.
  { pose proof (kids_nonneg c a). destruct (decide (kids c a = 0)) as [|Hne]; [done |]. exfalso.
    unfold kids in Hne. destruct (map_choose (filter (fun x => parent x.2 = Some a) c)) as (b & m & Hb).
    - intros E. rewrite E, map_size_empty in Hne. lia.
    - apply map_lookup_filter_Some in Hb as [Hb Hbp]. simpl in Hbp.
      destruct (t_parent0 b m a Hb Hbp) as (_ & [k Hk] & _). congruence. }
  assert (forall b m, <[a := n]> c !! b = Some m -> b = a /\ m = n \/ b <> a /\ c !! b = Some m)
    as Hold.
  { intros b m Hm. destruct (decide (a = b)) as [<-|].
    - rewrite lookup_insert_eq in Hm. injection Hm as <-. by left.
    - rewrite lookup_insert_ne in Hm by done. by right. }
  split.
  - intros b d m k [[-> ->]|[? Hm]]%Hold [[-> ->]|[? Hk]]%Hold Heq; [done | | |].
    + by destruct (Hid d k Hk).
    + by destruct (Hid b m Hm).
    + by apply (t_ids0 b d m k).
  - intros b d m k q [[-> ->]|[? Hm]]%Hold [[-> ->]|[? Hk]]%Hold Hpm Hpk Heq; try congruence.
    by apply (t_names0 b d m k q).
  - intros b m q [[-> ->]|[? Hm]]%Hold Hpm; [congruence |].
    destruct (t_parent0 b m q Hm Hpm) as (? & Hs & ?). split_and!; try done.
    destruct (decide (a = q)) as [<-|]; [by rewrite lookup_insert_eq | by rewrite lookup_insert_ne].
  - intros b m [[-> ->]|[? Hm]]%Hold Hpm; [by left |]. by apply (t_orphan0 b m).
  - intros b m [[-> ->]|[? Hm]]%Hold Hz Hb; [lia |]. by apply (t_forgot0 b m).
  - intros b m [[-> ->]|[? Hm]]%Hold; rewrite Hkids.
    + rewrite Hr, Hka, Hcr. replace (nlookup n =? 0) with false by lia. lia.
    + apply (t_refs0 b m Hm).
  - intros b m [[-> ->]|[? Hm]]%Hold; [lia | by apply (t_live0 b m)].
  - destruct t_root0 as (r & m & Hr' & Hm1 & Hm2 & Hm3). exists r, m.
    rewrite lookup_insert_ne by congruence. done.
  - intros b m [[-> ->]|[? Hm]]%Hold; [done | by apply (t_range0 b m)].
Qed.

(** ** Dropping a reference, and a name *)

Lemma tree_unref c cr e e' a n :
  tree c (fun b => cr b + credit a b) e -> (forall b, 0 <= cr b) -> c !! a = Some n ->
  (nlookup n = 0 -> parent n = None /\ name n = None) ->
  (forall b, b <> a -> Some b <> e' -> Some b <> e) ->
  tree (unref c a) cr e'.
Proof.
  intros Ht Hcr Ha Hforgot He. pose proof (t_refs _ _ _ Ht a n Ha) as Href.
  pose proof (t_live _ _ _ Ht a n Ha) as [Hpos Hnl]. pose proof (kids_nonneg c a).
  assert (credit a a = 1) as Hc1 by (unfold credit; by rewrite decide_True).
  assert (forall b, b <> a -> credit a b = 0) as Hc0.
  { intros b Hb. unfold credit. by rewrite decide_False. }
  specialize (Hcr a). unfold unref. rewrite Ha. destruct (Z.eqb_spec (refctr n - 1) 0) as [E|E].
  - destruct (Z.eqb_spec (nlookup n) 0) as [Ez|Ez]; [| lia].
    eapply tree_cr.
    + assert (tree c (fun b => cr b + credit a b) e') as Ht'.
      { destruct Ht. split; try done. intros b m Hm Hz Hb'. destruct (decide (b = a)) as [->|Hb].
        - simplify_eq. by apply Hforgot.
        - apply (t_forgot0 b m); auto. }
      eapply tree_delete; [exact Ht' | done | by apply Hforgot | done | lia].
    + intros b [m Hm]. apply lookup_delete_Some in Hm as [Hb _]. cbv beta.
      rewrite Hc0 by done. lia.
  - eapply tree_change; try done; simpl.
    + lia.
    + lia.
    + intros b Hb. rewrite Hc0 by done. lia.
    + intros Hid Hz. destruct (t_root _ _ _ Ht) as (r & m & Hr & Hm1 & Hm2 & Hm3).
      assert (r = a) as -> by (eapply (t_ids _ _ _ Ht); [done | done | congruence]). congruence.
    + by apply (t_range _ _ _ Ht a n).
Qed.

(** The parent of a named node, when it goes with its last child. *)
Lemma last_reference c cr e a n p pn :
  tree c cr e -> (forall b, 0 <= cr b) -> c !! a = Some n -> parent n = Some p ->
  c !! p = Some pn -> Some p <> e -> refctr pn = 1 ->
  name pn = None /\ parent pn = None /\ childless c (Some a) p.
Proof.
  intros Ht Hcr Ha Hpar Hp He H1. pose proof (t_refs _ _ _ Ht p pn Hp) as Href.
  pose proof (t_live _ _ _ Ht p pn Hp) as [_ Hnl]. specialize (Hcr p).
  rewrite (kids_split c a n p Ha) in Href. unfold is_kid in Href.
  rewrite decide_True in Href by done. pose proof (kids_nonneg (delete a c) p).
  destruct (Z.eqb_spec (nlookup pn) 0) as [Ez|Ez]; [| lia].
  destruct (t_forgot _ _ _ Ht p pn Hp Ez He) as [-> ->]. split_and!; [done | done |].
  intros b m Hb Hbp. destruct (decide (a = b)) as [->|Hab]; [done |]. exfalso.
  eapply (kids_zero (delete a c) p b m); [lia | | done]. by rewrite lookup_delete_ne.
Qed.

Lemma unname_alt c a n p nm :
  c !! a = Some n -> parent n = Some p -> name n = Some nm -> p <> a ->
  unname c a = unref (<[a := set_name None None n]> c) p.
Proof.
  intros Ha Hp Hn Hpa. unfold unname, unref. rewrite Ha, Hn, Hp.
  rewrite lookup_insert_ne by done. destruct (c !! p) as [pn|]; [| done].
  destruct (refctr pn - 1 =? 0).
  - by rewrite delete_insert_ne.
  - by rewrite insert_insert_ne.
Qed.

Lemma tree_unname c cr e a n :
  tree c cr e -> (forall b, 0 <= cr b) -> c !! a = Some n -> nodeid n <> FUSE_ROOT_ID ->
  (forall p, parent n = Some p -> Some p <> e) ->
  tree (unname c a) cr e.
Proof.
  intros Ht Hcr Ha Hid He. destruct (parent n) as [p|] eqn:Hp.
  - destruct (t_parent _ _ _ Ht a n p Ha Hp) as (Hpa & [pn Hpn] & [nm Hnm]).
    rewrite (unname_alt c a n p nm) by done.
    eapply tree_unref; [by eapply tree_unplace | done | by rewrite lookup_insert_ne | | done].
    intros Hz. eapply t_forgot; eauto.
  - unfold unname. rewrite Ha, Hp. by destruct (name n).
Qed.

(** What [unname] keeps of the other nodes that the kernel knows. *)
Lemma unname_other c cr e a n b m :
  tree c cr e -> (forall b, 0 <= cr b) -> c !! a = Some n -> c !! b = Some m -> b <> a ->
  nlookup m <> 0 ->
  exists m', unname c a !! b = Some m' /\ nodeid m' = nodeid m /\ nlookup m' = nlookup m /\
    parent m' = parent m /\ name m' = name m.
Proof.
  intros Ht Hcr Ha Hb Hba Hnl. unfold unname. rewrite Ha.
  destruct (name n) as [nm|] eqn:Hnm; [| eauto 6].
  destruct (parent n) as [p|] eqn:Hp; [| eauto 6].
  rewrite lookup_insert_ne by done. unfold unref. destruct (c !! p) as [pn|] eqn:Hpn; [| eauto 6].
  destruct (decide (p = b)) as [->|Hpb].
  - simplify_eq. pose proof (t_refs _ _ _ Ht b m Hb) as Href. specialize (Hcr b).
    rewrite (kids_split c a n b Ha) in Href. unfold is_kid in Href.
    rewrite decide_True in Href by done. pose proof (kids_nonneg (delete a c) b).
    replace (nlookup m =? 0) with false in Href by lia.
    replace (refctr m - 1 =? 0) with false by lia. rewrite lookup_insert_eq. eauto 6.
  - destruct (refctr pn - 1 =? 0);
      [rewrite lookup_delete_ne by done | rewrite lookup_insert_ne by done]; eauto 6.
Qed.

Lemma unname_self c cr e a n :
  tree c cr e -> c !! a = Some n -> nodeid n <> FUSE_ROOT_ID ->
  exists n', unname c a !! a = Some n' /\ nodeid n' = nodeid n /\ nlookup n' = nlookup n /\
    refctr n' = refctr n /\ parent n' = None /\ name n' = None.
Proof.
  intros Ht Ha Hid. unfold unname. rewrite Ha. destruct (parent n) as [p|] eqn:Hp.
  - destruct (t_parent _ _ _ Ht a n p Ha Hp) as (_ & _ & [nm ->]).
    rewrite lookup_insert_eq. eauto 10.
  - destruct (t_orphan _ _ _ Ht a n Ha Hp) as [Hn|]; [| done]. rewrite Hn. exists n. eauto 10.
Qed.

Lemma unname_ids c a b m :
  unname c a !! b = Some m -> exists k, c !! b = Some k /\ nodeid m = nodeid k.
Proof.
  assert (forall p m, unref c p !! b = Some m -> exists k, c !! b = Some k /\ nodeid m = nodeid k)
    as Hunref.
  { intros p m'. unfold unref. destruct (c !! p) as [pn|] eqn:Hp; [| eauto].
    destruct (refctr pn - 1 =? 0); [intros [_ ?]%lookup_delete_Some; eauto |].
    intros [[<- <-]|[_ ?]]%lookup_insert_Some; eauto. }
  unfold unname. destruct (c !! a) as [n|] eqn:Ha; [| eauto].
  destruct (name n); [| eauto]. destruct (parent n) as [p|]; [| eauto].
  intros [[<- <-]|[_ Hb]]%lookup_insert_Some; eauto.
Qed.

(** The entries after [unname]. *)
Lemma unname_entries c cr e a n b m p :
  tree c cr e -> c !! a = Some n -> unname c a !! b = Some m -> parent m = Some p ->
  exists k, c !! b = Some k /\ parent k = Some p /\ name m = name k /\ b <> a.
Proof.
  intros Ht Ha. unfold unname. rewrite Ha. intros Hb Hp.
  assert (c !! b = Some m -> name n = None \/ parent n = None ->
    exists k, c !! b = Some k /\ parent k = Some p /\ name m = name k /\ b <> a) as Hkeep.
  { intros Hb' Hor. exists m. split_and!; try done. intros ->. assert (m = n) as -> by congruence.
    destruct (t_parent _ _ _ Ht a n p Ha Hp) as (_ & _ & [? ?]). destruct Hor; congruence. }
  destruct (name n) as [nm|] eqn:Hnm; [| by apply Hkeep; auto].
  destruct (parent n) as [q|] eqn:Hq; [| by apply Hkeep; auto].
  destruct (decide (a = b)) as [<-|Hab].
  { rewrite lookup_insert_eq in Hb. by injection Hb as <-. }
  rewrite lookup_insert_ne in Hb by done. unfold unref in Hb.
  destruct (c !! q) as [qn|] eqn:Hqn; [| by exists m].
  destruct (refctr qn - 1 =? 0).
  - apply lookup_delete_Some in Hb as [_ Hb]. by exists m.
  - destruct (decide (q = b)) as [<-|].
    + rewrite lookup_insert_eq in Hb. injection Hb as <-. by exists qn.
    + rewrite lookup_insert_ne in Hb by done. by exists m.
Qed.

Lemma tree_rename_in c cr e a n p pn nm :
  tree c cr e -> c !! a = Some n -> parent n = None -> nodeid n <> FUSE_ROOT_ID ->
  nlookup n <> 0 -> p <> a -> c !! p = Some pn -> nlookup pn <> 0 ->
  (forall b m, c !! b = Some m -> parent m = Some p -> name m <> Some nm) ->
  tree (rename_in c a p nm) cr e.
Proof.
  intros Ht Ha Hpar Hid Hnl Hpa Hp Hpnl Hnew. unfold rename_in. rewrite Hp, Ha.
  pose proof (t_live _ _ _ Ht p pn Hp). pose proof (t_range _ _ _ Ht p pn Hp).
  eapply tree_place; try done.
  - eapply tree_change; [exact Ht | exact Hp | done | done | done | | | | | | | |]; simpl; try lia; try done.
    + unfold credit. rewrite decide_True by done. lia.
    + intros b Hb. unfold credit. rewrite decide_False by done. lia.
  - by rewrite lookup_insert_ne.
  - by rewrite lookup_insert_eq.
  - intros b m Hb. destruct (decide (p = b)) as [<-|].
    + rewrite lookup_insert_eq in Hb. injection Hb as <-. simpl. by apply (Hnew p pn).
    + rewrite lookup_insert_ne in Hb by done. by apply (Hnew b m).
Qed.
