(* ===== verification/FuseNodesProps.v ===== *)
(** The table of nodes of FUSE: every operation that follows the protocol of the
    kernel keeps the table, and the path of a node is the path that was looked up. *)

From S2P Require Import Prelude.
From S2P Require Import CString.
From S2P Require Import Chain.
From S2P Require Import FuseNodes.
From S2P Require Import FuseTable.
From S2P Require Import FuseNodesSpec.
From S2P Require Import FuseTree.

(** * The operations on the contents *)

(** [c'] has the nodes of [c], at their places. *)
Definition extends (c c' : gmap nat node) : Prop :=
  forall b n, c !! b = Some n -> exists n', c' !! b = Some n' /\ nodeid n' = nodeid n /\
    parent n' = parent n /\ name n' = name n.

(** The open files of [c'] are open files of [c]. *)
Definition opens (c c' : gmap nat node) : Prop :=
  forall b n', c' !! b = Some n' ->
    open_count n' = 0 \/ exists n, c !! b = Some n /\ open_count n' = open_count n.

(** [c'] has at most one more node, and one more lookup of each. *)
Definition grows (c c' : gmap nat node) : Prop :=
  (size c' <= S (size c))%nat /\
  forall b n', c' !! b = Some n' -> nlookup n' <= 1 \/ exists n, c !! b = Some n /\ nlookup n' <= nlookup n + 1.

(** A directory that the kernel knows. *)
Definition known (c : gmap nat node) (id : Z) : Prop :=
  exists p pn, c !! p = Some pn /\ nodeid pn = id /\ nlookup pn <> 0.

(** The table can forget [k] lookups of the number [id]. *)
Definition owes (c : gmap nat node) (id k : Z) : Prop :=
  k <= 0 \/ exists a n, c !! a = Some n /\ nodeid n = id /\ k <= nlookup n.

(** From [c] to [c'] the lookups that can be forgotten change by at least [d]. *)
Definition kept (d : Z -> Z) (c c' : gmap nat node) : Prop :=
  forall id k, owes c id k -> owes c' id (k + d id).

Definition unchanged : Z -> Z := fun _ => 0.
Definition bump (id j : Z) : Z -> Z := fun i => if i =? id then j else 0.

Lemma owes_le c id k j : owes c id k -> j <= k -> owes c id j.
Proof. intros [?|(a & n & ? & ? & ?)] ?; [left; lia | right; exists a, n; split_and!; [done | done | lia]]. Qed.

Lemma kept_trans d1 d2 d c1 c2 c3 :
  kept d1 c1 c2 -> kept d2 c2 c3 -> (forall id, d id <= d1 id + d2 id) -> kept d c1 c3.
Proof.
  intros H1 H2 Hd id k Hk. eapply owes_le; [apply H2, H1, Hk |]. specialize (Hd id). lia.
Qed.

Lemma kept_refl c : kept unchanged c c.
Proof. intros id k Hk. by rewrite Z.add_0_r. Qed.

Lemma kept_unchanged c1 c2 c3 : kept unchanged c1 c2 -> kept unchanged c2 c3 -> kept unchanged c1 c3.
Proof. intros H1 H2. eapply kept_trans; [done | done |]. unfold unchanged. lia. Qed.

Lemma kept_less d d' c c' : kept d c c' -> (forall id, d' id <= d id) -> kept d' c c'.
Proof. intros H Hd. eapply kept_trans; [done | apply kept_refl |]. intros id. unfold unchanged. specialize (Hd id). lia. Qed.

(** Every node that is looked up is there. *)
Lemma kept_nodes c c' :
  (forall b n, c !! b = Some n -> 0 < nlookup n ->
     exists b' n', c' !! b' = Some n' /\ nodeid n' = nodeid n /\ nlookup n <= nlookup n') ->
  kept unchanged c c'.
Proof.
  intros H id k [Hk|(b & n & Hb & Hid & Hk)]; unfold unchanged; rewrite Z.add_0_r; [by left |].
  destruct (decide (k <= 0)); [by left |]. right.
  destruct (H b n Hb ltac:(lia)) as (b' & n' & ? & ? & ?). exists b', n'. split_and!; [done | congruence | lia].
Qed.

(** A node with [j] more lookups. *)
Lemma kept_insert c a n n' j :
  (forall b m, c !! b = Some m -> nodeid m = nodeid n -> b = a) ->
  c !! a = Some n -> nodeid n' = nodeid n -> nlookup n + j <= nlookup n' -> 0 <= nlookup n ->
  kept (bump (nodeid n) j) c (<[a := n']> c).
Proof.
  intros Hids Ha Hid Hj Hn id k Hk. unfold bump. destruct (Z.eqb_spec id (nodeid n)) as [->|Hne].
  - right. exists a, n'. rewrite lookup_insert_eq. split_and!; [done | done |].
    destruct Hk as [?|(b & m & Hb & Hm & ?)]; [lia |].
    assert (b = a) as -> by by eapply Hids. simplify_eq. lia.
  - rewrite Z.add_0_r. destruct Hk as [?|(b & m & Hb & Hm & ?)]; [by left |]. right. exists b, m.
    rewrite lookup_insert_ne by congruence. done.
Qed.

(** A new node [a], looked up once, in the directory [p]. *)
Lemma kept_new c a p n pn pn' :
  c !! a = None -> c !! p = Some pn -> nodeid pn' = nodeid pn -> nlookup pn' = nlookup pn ->
  (forall b m, c !! b = Some m -> nodeid m <> nodeid n) -> 1 <= nlookup n ->
  kept (bump (nodeid n) 1) c (<[a := n]> (<[p := pn']> c)).
Proof.
  intros Ha Hp Hpid Hpn Hfresh Hn id k Hk. unfold bump. destruct (Z.eqb_spec id (nodeid n)) as [->|Hne].
  - destruct Hk as [?|(b & m & Hb & Hm & ?)]; [| by destruct (Hfresh b m)].
    right. exists a, n. rewrite lookup_insert_eq. split_and!; [done | done | lia].
  - rewrite Z.add_0_r. destruct Hk as [?|(b & m & Hb & Hm & ?)]; [by left |]. right.
    assert (a <> b) by congruence. destruct (decide (p = b)) as [<-|].
    + exists p, pn'. rewrite lookup_insert_ne, lookup_insert_eq by done. simplify_eq. split_and!; [done | congruence | lia].
    + exists b, m. rewrite !lookup_insert_ne by done. done.
Qed.

(** [c'] comes from [c] by moves into the directory [dir]. *)
Definition moved (dir : Z) (c c' : gmap nat node) : Prop :=
  (size c' <= size c)%nat /\ (known c dir -> known c' dir) /\ kept unchanged c c' /\
  forall b m, c' !! b = Some m -> exists k, c !! b = Some k /\ nodeid m = nodeid k /\
    forall q, parent m = Some q ->
      (parent k = Some q /\ name m = name k) \/ forall qn, c' !! q = Some qn -> nodeid qn = dir.

Lemma moves_refl dir c : moved dir c c.
Proof. split_and!; [done | done | apply kept_refl |]. intros b m Hb. exists m. auto. Qed.

Lemma moved_trans dir c1 c2 c3 : moved dir c1 c2 -> moved dir c2 c3 -> moved dir c1 c3.
Proof.
  intros (Hs1 & Hk1 & He1 & H1) (Hs2 & Hk2 & He2 & H2). split_and!; [lia | auto | by eapply kept_unchanged |].
  intros b m Hb. destruct (H2 b m Hb) as (k & Hk & Hid & Hpar).
  destruct (H1 b k Hk) as (j & Hj & Hjd & Hjpar). exists j. split_and!; [done | congruence |].
  intros q Hq. destruct (Hpar q Hq) as [[Hkq Hkn]|Hdir]; [| by right].
  destruct (Hjpar q Hkq) as [[? ?]|Hdir]; [left; split; congruence | right].
  intros qn Hqn. destruct (H2 q qn Hqn) as (qk & Hqk & -> & _). eauto.
Qed.

Lemma moved_insert dir c a n n' :
  c !! a = Some n -> nodeid n' = nodeid n -> nlookup n' = nlookup n ->
  (forall q, parent n' = Some q -> (parent n = Some q /\ name n' = name n) \/
     exists qn, c !! q = Some qn /\ nodeid qn = dir) ->
  moved dir c (<[a := n']> c).
Proof.
  intros Ha Hid Hnl Hpar.
  assert (forall b m, <[a := n']> c !! b = Some m ->
    exists k, c !! b = Some k /\ nodeid m = nodeid k) as Hids.
  { intros b m Hb. destruct (decide (a = b)) as [<-|].
    - rewrite lookup_insert_eq in Hb. simplify_eq. by exists n.
    - rewrite lookup_insert_ne in Hb by done. by exists m. }
  split_and!.
  - by rewrite map_size_insert_Some by eauto.
  - intros (p & pn & Hp & Hpid & Hpnl). exists p. destruct (decide (a = p)) as [<-|].
    + exists n'. rewrite lookup_insert_eq. simplify_eq. split_and!; congruence.
    + exists pn. by rewrite lookup_insert_ne.
  - apply kept_nodes. intros b m Hb _. destruct (decide (a = b)) as [<-|].
    + exists a, n'. rewrite lookup_insert_eq. simplify_eq. split_and!; [done | congruence | lia].
    + exists b, m. by rewrite lookup_insert_ne.
  - intros b m Hb. destruct (Hids b m Hb) as (k & Hk & Hkid). exists k. split_and!; [done | done |].
    intros q Hq. destruct (decide (a = b)) as [<-|].
    + rewrite lookup_insert_eq in Hb. simplify_eq. destruct (Hpar q Hq) as [?|(qn & Hqn & <-)]; [by left |].
      right. intros qm Hqm. destruct (Hids q qm Hqm) as (? & ? & ->). congruence.
    + rewrite lookup_insert_ne in Hb by done. left. split; congruence.
Qed.

(** Room for one more node and one more lookup. *)
Definition roomy (c : gmap nat node) : Prop :=
  Z.of_nat (size c) + 3 <= 2 ^ 31 /\ forall a n, c !! a = Some n -> nlookup n < 2 ^ 64 - 1.

Section Operations.
Context {alloc_ok : nat -> bool} {char_value : ascii -> Z}.
Context {isz nsz : nat} {sizes : Sizes isz nsz}.
Abbreviation rep := (rep char_value isz nsz).
Abbreviation wf_tree c := (tree c no_credit None).

Lemma no_credit_nonneg b : 0 <= no_credit b.
Proof. done. Qed.

Lemma extends_refl c : extends c c.
Proof. intros b n Hb. by exists n. Qed.

Lemma extends_insert c a n n' :
  c !! a = Some n -> nodeid n' = nodeid n -> parent n' = parent n -> name n' = name n ->
  extends c (<[a := n']> c).
Proof.
  intros Ha ? ? ? b m Hb. destruct (decide (a = b)) as [<-|].
  - simplify_eq. exists n'. by rewrite lookup_insert_eq.
  - exists m. by rewrite lookup_insert_ne.
Qed.

Lemma opens_insert c c' a n' :
  opens c c' -> (open_count n' = 0 \/ exists n, c !! a = Some n /\ open_count n' = open_count n) ->
  opens c (<[a := n']> c').
Proof.
  intros Hc Ha b m Hb. destruct (decide (a = b)) as [<-|].
  - rewrite lookup_insert_eq in Hb. by injection Hb as <-.
  - rewrite lookup_insert_ne in Hb by done. by apply Hc.
Qed.

Lemma opens_refl c : opens c c.
Proof. intros b n Hb. right. by exists n. Qed.

Lemma grows_refl c : grows c c.
Proof. split; [lia |]. intros b n Hb. right. exists n. split; [done | lia]. Qed.

Lemma grows_insert c a n n' : c !! a = Some n -> nlookup n' <= nlookup n + 1 -> grows c (<[a := n']> c).
Proof.
  intros Ha Hn. split.
  - rewrite map_size_insert_Some by (by exists n). lia.
  - intros b m Hb. destruct (decide (a = b)) as [<-|].
    + rewrite lookup_insert_eq in Hb. injection Hb as <-. eauto.
    + rewrite lookup_insert_ne in Hb by done. right. exists m. split; [done | lia].
Qed.

(** A new node [a], in the directory [p]. *)
Lemma grows_new c a p n pn pn' :
  a <> p -> nlookup n <= 1 -> c !! p = Some pn -> nlookup pn' = nlookup pn -> c !! a = None ->
  grows c (<[a := n]> (<[p := pn']> c)).
Proof.
  intros Hap Hn Hp Hpn Ha. split.
  - rewrite map_size_insert_None by (by rewrite lookup_insert_ne).
    rewrite map_size_insert_Some by (by exists pn). lia.
  - intros b m Hb. destruct (decide (a = b)) as [<-|].
    + rewrite lookup_insert_eq in Hb. injection Hb as <-. by left.
    + rewrite lookup_insert_ne in Hb by done. right. destruct (decide (p = b)) as [<-|].
      * rewrite lookup_insert_eq in Hb. injection Hb as <-. exists pn. split; [done | lia].
      * rewrite lookup_insert_ne in Hb by done. exists m. split; [done | lia].
Qed.

(** The root is not an entry. *)
Lemma entry_not_root c a n p :
  wf_tree c -> c !! a = Some n -> parent n = Some p -> nodeid n <> FUSE_ROOT_ID.
Proof.
  intros Ht Ha Hp Hid. destruct (t_root _ _ _ Ht) as (r & m & Hr & Hm & Hmp & _).
  assert (r = a) as -> by (eapply (t_ids _ _ _ Ht); [done | done | congruence]). congruence.
Qed.

Lemma runs_count_lookup f c a n (Q : ptr -> fuse -> Prop) :
  rep f c None None -> wf_tree c -> c !! a = Some n -> nlookup n < 2 ^ 64 - 1 ->
  nlookup n <> 0 ->
  (forall c' f', rep f' c' None None -> wf_tree c' -> extends c c' -> opens c c' -> grows c c' ->
     kept (bump (nodeid n) 1) c c' -> Q (Some a) f') ->
  runs (count_lookup a) f Q.
Proof.
  intros Hr Ht Ha Hlt Hnl HQ. pose proof (t_live _ _ _ Ht a n Ha) as [Hpos Hge].
  unfold count_lookup. apply runs_bind. eapply runs_load_rep; [done | done |]. intros m Hm He.
  assert (nlookup m = nlookup n) as -> by by rewrite <- He.
  rewrite to_u64_id by lia. apply runs_bind.
  eapply (runs_update_rep f c None None None a n (set_nlookup (nlookup n + 1) n)); [done | done | | done | by left |].
  { intros k Hk. by rewrite <- Hk. }
  intros f' Hr' _. apply runs_ret. eapply HQ; [done | | by eapply extends_insert | | |].
  2:{ apply opens_insert; [apply opens_refl | right; by exists n]. }
  2:{ eapply grows_insert; [done |]. simpl. lia. }
  2:{ eapply kept_insert; [| done | done | simpl; lia | done].
      intros b k Hb Hid. by eapply (t_ids _ _ _ Ht). }
  eapply tree_change; try done; simpl; try lia.
  replace (nlookup n =? 0) with false by lia. replace (nlookup n + 1 =? 0) with false by lia. lia.
Qed.

(** ** [find_node] *)

(** A node that is made but not yet hashed, looked up [k] times. *)
Definition made (id gen k : Z) : node := Node None None id gen 1 None None k 0 0.

Lemma runs_make f c id p pn nm (Q : ptr -> fuse -> Prop) :
  rep f c None None -> wf_tree c -> roomy c -> c !! p = Some pn -> nodeid pn = id ->
  nlookup pn <> 0 -> (forall a, ~ entry c id nm a) ->
  (forall a n c' f', rep f' c' None None -> wf_tree c' -> extends c c' -> opens c c' -> grows c c' ->
     entry c' id nm a -> c' !! a = Some n -> kept (bump (nodeid n) 1) c c' -> Q (Some a) f') ->
  (no_memory alloc_ok -> forall f', rep f' c None None -> Q None f') ->
  runs (node ← new_node alloc_ok;
        match node with
        | None => mret None
        | Some a =>
            _ ← update a (set_refctr 1);
            i ← next_id;
            f ← get;
            _ ← update a (fun n => Node (name_next n) (id_next n) i (f_generation f) (refctr n)
                  (FuseNodes.parent n) (FuseNodes.name n) (nlookup n) 0 0);
            r ← hash_name alloc_ok char_value a id nm;
            if r =? -1 then _ ← free_block a; mret None
            else _ ← hash_id a; count_lookup a
        end) f Q.
Proof.
  intros Hr Ht [Hsize Hlook] Hp Hid Hnl Hnew HQ HQ0.
  apply runs_bind. eapply runs_new_node; [done | | |].
  { intros a n q Ha Hq. by destruct (t_parent _ _ _ Ht a n q Ha Hq) as (_ & ? & _). }
  2:{ intros Hm f1 Hr1. apply runs_ret. by apply HQ0. }
  intros a f1 Ha Hr1. apply runs_bind.
  assert (p <> a) as Hpa by congruence.
  eapply (runs_update_rep _ _ _ _ None a zero_node (set_refctr 1 zero_node));
    [done | apply lookup_insert_eq | | done | by left |].
  { intros k Hk. by rewrite <- Hk. }
  rewrite insert_insert_eq. intros f2 Hr2 _. apply runs_bind.
  eapply runs_next_id; [exact Hr2 | |].
  { rewrite map_size_insert_None by done. lia. }
  intros i f3 Hr3 _ Hi Hfresh. run. set (gen := f_generation f3).
  eapply (runs_update_new _ _ a _ (made i gen 0));
    [done | apply lookup_insert_eq | done | done | | |].
  { intros b m Hb Hbp. destruct (decide (a = b)) as [<-|].
    - rewrite lookup_insert_eq in Hb. by injection Hb as <-.
    - rewrite lookup_insert_ne in Hb by done.
      destruct (t_parent _ _ _ Ht b m a Hb Hbp) as (_ & [k Hk] & _). congruence. }
  { intros k Hk. split; [| done].
    change (erase (Node (name_next k) (id_next k) i gen (refctr k) (FuseNodes.parent k)
      (FuseNodes.name k) (nlookup k) 0 0)) with (Node None None i gen (refctr (erase k))
      (FuseNodes.parent (erase k)) (FuseNodes.name (erase k)) (nlookup (erase k)) 0 0).
    by rewrite Hk. }
  rewrite insert_insert_eq. intros f4 Hr4 _.
  set (c2 := <[a := made i gen 0]> c) in *.
  assert (c2 !! a = Some (made i gen 0)) as Ha2 by apply lookup_insert_eq.
  assert (c2 !! p = Some pn) as Hp2 by (unfold c2; by rewrite lookup_insert_ne).
  pose proof (t_refs _ _ _ Ht p pn Hp) as Href. pose proof (kids_bound c p).
  pose proof (t_live _ _ _ Ht p pn Hp) as [Hpos _].
  apply runs_bind. rewrite <- Hid. eapply (runs_hash_name f4 c2 (Some a) a _ p pn nm);
    [done | done | done | done | congruence | done | done | | | | |].
  { intros b m Hb Hm Hbid. unfold c2 in Hm. rewrite lookup_insert_ne in Hm by congruence.
    by apply (t_ids _ _ _ Ht b p m pn). }
  { unfold no_credit in Href. destruct (nlookup pn =? 0); lia. }
  { lia. }
  2:{ intros Hm f5 Hr5. apply runs_bind. eapply runs_free_block; [done | done | done | |].
      - intros b m Hb Hbp. destruct (decide (a = b)) as [<-|].
        + rewrite Ha2 in Hb. by injection Hb as <-.
        + unfold c2 in Hb. rewrite lookup_insert_ne in Hb by done.
          destruct (t_parent _ _ _ Ht b m a Hb Hbp) as (_ & [k Hk] & _). congruence.
      - intros f6 Hr6. apply runs_ret, HQ0; [done |]. unfold c2 in Hr6.
        by rewrite delete_insert_id in Hr6. }
  intros f5 Hr5 _. change (0 =? -1) with false. cbv iota. apply runs_bind.
  unfold rename_in in Hr5. rewrite Hp2, Ha2 in Hr5.
  eapply runs_hash_id; [exact Hr5 | apply lookup_insert_eq |]. intros f6 Hr6 _.
  unfold count_lookup. apply runs_bind. eapply runs_load_rep; [exact Hr6 | apply lookup_insert_eq |].
  intros m Hm He. assert (nlookup m = 0) as -> by by apply (f_equal nlookup) in He.
  apply runs_bind.
  eapply (runs_update_rep _ _ _ _ None a _ (set_name (Some p) (Some nm) (made i gen 1)));
    [exact Hr6 | apply lookup_insert_eq | | done | by left |].
  { intros k Hk. split; [| done].
    change (erase (set_nlookup (to_u64 (0 + 1)) k)) with (set_nlookup 1 (erase k)). by rewrite Hk. }
  intros f7 Hr7 _. apply runs_ret. rewrite insert_insert_eq in Hr7.
  set (c3 := <[a := made i gen 1]> c).
  assert (<[a := set_name (Some p) (Some nm) (made i gen 1)]> (<[p := set_refctr (refctr pn + 1) pn]> c2)
    = rename_in c3 a p nm) as Hc3.
  { unfold rename_in, c3, c2. rewrite (lookup_insert_ne c a p), Hp, lookup_insert_eq by done.
    rewrite !(insert_insert_ne c p a) by done. by rewrite !insert_insert_eq. }
  rewrite Hc3 in Hr7. eapply (HQ a (set_name (Some p) (Some nm) (made i gen 1))); [exact Hr7 | | | | | | |].
  - eapply tree_rename_in with (n := made i gen 1) (pn := pn); try done.
    + eapply tree_add; try done; [| simpl; lia]. intros b k Hb. simpl. eapply (Hfresh b k); [congruence |].
      rewrite lookup_insert_ne; [done |]. congruence.
    + apply lookup_insert_eq.
    + simpl. intros E. destruct (t_root _ _ _ Ht) as (r & k & Hrt & Hk & _).
      assert (a <> r) by congruence.
      apply (Hfresh r k); [congruence | by rewrite lookup_insert_ne | congruence].
    + unfold c3. by rewrite lookup_insert_ne.
    + intros b k Hb Hbp Hbn. unfold c3 in Hb. destruct (decide (a = b)) as [<-|].
      * rewrite lookup_insert_eq in Hb. by injection Hb as <-.
      * rewrite lookup_insert_ne in Hb by done. apply (Hnew b). exists k, p, pn. done.
  - rewrite <- Hc3. intros b k Hb. assert (a <> b) by congruence.
    rewrite lookup_insert_ne by done. destruct (decide (p = b)) as [<-|].
    + rewrite lookup_insert_eq. simplify_eq. eauto.
    + unfold c2. rewrite !lookup_insert_ne by done. eauto.
  - rewrite <- Hc3. apply opens_insert; [| by left].
    apply opens_insert; [| right; by exists pn].
    apply opens_insert; [apply opens_refl | by left].
  - rewrite <- Hc3. unfold c2. rewrite (insert_insert_ne c p a), insert_insert_eq by done.
    by eapply grows_new.
  - rewrite <- Hc3. exists (set_name (Some p) (Some nm) (made i gen 1)), p, (set_refctr (refctr pn + 1) pn).
    split_and!; try done; [apply lookup_insert_eq |]. rewrite lookup_insert_ne by done.
    apply lookup_insert_eq.
  - rewrite <- Hc3. apply lookup_insert_eq.
  - rewrite <- Hc3. unfold c2. rewrite (insert_insert_ne c p a), insert_insert_eq by done.
    eapply (kept_new _ _ _ (set_name (Some p) (Some nm) (made i gen 1))); try done.
    intros b k Hb E. eapply (Hfresh b k); [congruence | | exact E].
    rewrite lookup_insert_ne; [done |]. congruence.
Qed.

Lemma runs_find_node f c id nm (Q : ptr -> fuse -> Prop) :
  rep f c None None -> wf_tree c -> roomy c -> known c id ->
  (forall a n c' f', rep f' c' None None -> wf_tree c' -> extends c c' -> opens c c' -> grows c c' ->
     entry c' id nm a -> c' !! a = Some n -> kept (bump (nodeid n) 1) c c' -> Q (Some a) f') ->
  (no_memory alloc_ok -> forall f', rep f' c None None -> Q None f') ->
  runs (find_node alloc_ok char_value id nm) f Q.
Proof.
  intros Hr Ht Hroom (p & pn & Hp & Hid & Hnl) HQ HQ0. unfold find_node. apply runs_bind.
  eapply runs_lookup_node; [done | |].
  - intros a _ (n & q & qn & Ha & Hq & Hqn & Hqid & Hnm).
    eapply runs_count_lookup; [done | done | done | by eapply Hroom | |].
    + intros Hz. destruct (t_forgot _ _ _ Ht a n Ha Hz ltac:(done)). congruence.
    + intros c' f' Hr' Ht' Hext Hop Hg Hkept. destruct (Hext a n Ha) as (n' & Ha' & Hid' & ? & ?).
      eapply HQ; [done | done | done | done | done | | exact Ha' | by rewrite Hid'].
      destruct (Hext q qn Hqn) as (qn' & ? & ? & ? & ?).
      exists n', q, qn'. split_and!; congruence || done.
  - intros Hno. eapply runs_make; try done. intros a. by apply Hno.
Qed.
(** ** [unhash_name], [forget_node] and [remove_node] *)

Lemma kept_unname c cr e a n :
  tree c cr e -> (forall b, 0 <= cr b) -> c !! a = Some n -> nodeid n <> FUSE_ROOT_ID -> kept unchanged c (unname c a).
Proof.
  intros Ht Hcr Ha Hroot. apply kept_nodes. intros b m Hb Hnl. destruct (decide (b = a)) as [->|Hba].
  - destruct (unname_self _ _ _ _ _ Ht Ha Hroot) as (n1 & ? & ? & ? & _). simplify_eq.
    exists a, n1. split_and!; [done | done | lia].
  - destruct (unname_other _ _ _ _ _ _ _ Ht Hcr Ha Hb Hba ltac:(lia)) as (m1 & ? & ? & ? & _).
    exists b, m1. split_and!; [done | done | lia].
Qed.

(** A node that is not looked up loses a reference. *)
Lemma kept_unref c a n : c !! a = Some n -> nlookup n = 0 -> kept unchanged c (unref c a).
Proof.
  intros Ha Hn. apply kept_nodes. intros b m Hb Hm. exists b, m.
  rewrite unref_other by (intros <-; simplify_eq; lia). done.
Qed.

Lemma runs_unname f c cr e a n (Q : unit -> fuse -> Prop) :
  rep f c None None -> tree c cr e -> (forall b, 0 <= cr b) -> c !! a = Some n ->
  nodeid n <> FUSE_ROOT_ID -> (forall p, parent n = Some p -> Some p <> e) ->
  (forall f', rep f' (unname c a) None None -> Q tt f') ->
  runs (unhash_name char_value a) f Q.
Proof.
  intros Hr Ht Hcr Ha Hid He HQ. destruct (parent n) as [p|] eqn:Hp.
  - destruct (t_parent _ _ _ Ht a n p Ha Hp) as (Hpa & [pn Hpn] & [nm Hnm]).
    eapply runs_unhash_name; try done.
    + by apply (t_live _ _ _ Ht p pn).
    + intros H1. eapply last_reference; eauto.
  - destruct (t_orphan _ _ _ Ht a n Ha Hp) as [Hn|]; [| done]. unfold unhash_name.
    apply runs_bind. eapply runs_load_rep; [done | done |]. intros m Hm He'.
    assert (name m = None) as -> by (rewrite <- Hn; by subst n). apply runs_ret, HQ.
    unfold unname. by rewrite Ha, Hn.
Qed.

Lemma runs_forget_node f c id k (Q : unit -> fuse -> Prop) :
  rep f c None None -> wf_tree c ->
  (id = FUSE_ROOT_ID \/
   exists a n, c !! a = Some n /\ nodeid n = id /\ id <> FUSE_ROOT_ID /\ 0 < k <= nlookup n) ->
  (forall c' f', rep f' c' None None -> wf_tree c' -> kept (bump id (- Z.max 0 k)) c c' -> Q tt f') ->
  runs (forget_node char_value id k) f Q.
Proof.
  intros Hr Ht Hid HQ. unfold forget_node. destruct (Z.eqb_spec id FUSE_ROOT_ID) as [->|Hroot].
  { eapply runs_ret, HQ; [done | done |]. eapply kept_less; [apply kept_refl |].
    intros i. unfold bump, unchanged. destruct (i =? _); lia. }
  destruct Hid as [|(a & n & Ha & Hid & _ & Hk)]; [done |].
  assert (nodeid n <> FUSE_ROOT_ID) as Hroot' by congruence.
  pose proof (t_live _ _ _ Ht a n Ha) as [Hpos _]. pose proof (t_range _ _ _ Ht a n Ha) as [_ Hmax].
  apply runs_bind. eapply runs_get_node; [done | done | done | done | |].
  { intros b m _ Hm Hbid. apply (t_ids _ _ _ Ht b a m n); congruence. }
  apply runs_bind. eapply runs_load_rep; [done | done |]. intros m Hm He.
  assert (nlookup m = nlookup n) as -> by by rewrite <- He.
  replace (nlookup n <? k) with false by lia. apply runs_bind.
  eapply (runs_update_rep f c None None None a n (set_nlookup (nlookup n - k) n));
    [done | done | | done | by left |].
  { intros j Hj. by rewrite <- Hj. }
  intros f1 Hr1 _. set (n1 := set_nlookup _ n) in *. set (c1 := <[a := n1]> c) in *.
  assert (c1 !! a = Some n1) as Ha1 by apply lookup_insert_eq.
  replace (- Z.max 0 k) with (- k) in HQ by lia.
  assert (kept (bump id (- k)) c c1) as Hkept.
  { rewrite <- Hid. eapply kept_insert; [| done | done | simpl; lia | lia].
    intros b j Hb Hbid. by eapply (t_ids _ _ _ Ht). }
  destruct (Z.eqb_spec (nlookup n - k) 0) as [Ez|Ez].
  2:{ apply runs_ret. eapply HQ; [done | | done]. eapply tree_change; try done; simpl; try lia.
      replace (nlookup n - k =? 0) with false by lia. replace (nlookup n =? 0) with false by lia. lia. }
  assert (tree c1 (fun b => no_credit b + credit a b) (Some a)) as Ht1.
  { assert (credit a a = 1) by (unfold credit; by rewrite decide_True).
    eapply tree_change; try done; simpl; try lia.
    - rewrite Ez. replace (nlookup n =? 0) with false by lia. simpl. lia.
    - intros b Hb. unfold credit. rewrite decide_False by done. lia. }
  assert (forall b, 0 <= no_credit b + credit a b) as Hcr.
  { intros b. unfold no_credit, credit. case_decide; lia. }
  assert (forall p, parent n1 = Some p -> Some p <> Some a) as Hself.
  { intros p Hp. destruct (t_parent _ _ _ Ht1 a n1 p Ha1 Hp). congruence. }
  apply runs_bind. eapply runs_unname; [done | done | done | done | done | done |].
  intros f2 Hr2. pose proof (tree_unname _ _ _ _ _ Ht1 Hcr Ha1 Hroot' Hself) as Ht2.
  destruct (unname_self _ _ _ _ _ Ht1 Ha1 Hroot') as (n2 & Ha2 & _ & Hnl2 & Hrc2 & Hp2 & Hn2).
  eapply runs_unref_node; [done | done | by rewrite Hrc2 | |].
  - intros H1. split_and!; [done | done |]. pose proof (t_refs _ _ _ Ht2 a n2 Ha2) as Href.
    rewrite H1, Hnl2 in Href. simpl in Href. rewrite Ez in Href. unfold no_credit, credit in Href.
    rewrite decide_True in Href by done. simpl in Href.
    intros b j Hb Hbp. exfalso. eapply (kids_zero _ a b j); [| done | done]. lia.
  - intros f3 Hr3. eapply HQ; [done | |].
    + eapply (tree_unref _ no_credit); [exact Ht2 | apply no_credit_nonneg | exact Ha2 | done |].
      intros b Hb _. congruence.
    + eapply kept_trans; [exact Hkept | eapply kept_unchanged |].
      * by eapply kept_unname.
      * eapply kept_unref; [exact Ha2 | by rewrite Hnl2].
      * intros i. unfold unchanged. lia.
Qed.

Lemma runs_remove_node f c id nm (Q : unit -> fuse -> Prop) :
  rep f c None None -> wf_tree c ->
  (forall c' f', rep f' c' None None -> wf_tree c' -> kept unchanged c c' -> Q tt f') ->
  runs (remove_node char_value id nm) f Q.
Proof.
  intros Hr Ht HQ. unfold remove_node. apply runs_bind. eapply runs_lookup_node; [done | |].
  - intros a _ (n & p & pn & Ha & Hp & _). pose proof (entry_not_root _ _ _ _ Ht Ha Hp) as Hroot.
    eapply runs_unname; [done | done | apply no_credit_nonneg | done | done | done |].
    intros f' Hr'. eapply HQ; [done | by eapply tree_unname |].
    by eapply kept_unname; [| apply no_credit_nonneg | |].
  - intros _. apply runs_ret. eapply HQ; [done | done | apply kept_refl].
Qed.

(** ** [rename_node] *)

Lemma unname_size c a : (size (unname c a) <= size c)%nat.
Proof.
  assert (forall b, (size (unref c b) <= size c)%nat) as Hunref.
  { intros b. unfold unref. destruct (c !! b) as [m|] eqn:Hb; [| done].
    destruct (refctr m - 1 =? 0).
    - rewrite map_size_delete_Some by eauto. lia.
    - by rewrite map_size_insert_Some by eauto. }
  unfold unname. destruct (c !! a) as [n|] eqn:Ha; [| done].
  destruct (name n); [| done]. destruct (parent n) as [p|]; [| done].
  destruct (unref c p !! a) eqn:E.
  - rewrite map_size_insert_Some by eauto. apply Hunref.
  - rewrite map_size_insert_None by done. unfold unref in *.
    destruct (c !! p) as [pn|] eqn:Hp; [| congruence].
    destruct (refctr pn - 1 =? 0).
    + rewrite map_size_delete_Some by eauto.
      assert (size c <> 0%nat) by (intros Hz; apply map_size_empty_inv in Hz as ->; done). lia.
    + destruct (decide (p = a)) as [->|]; [by rewrite lookup_insert_eq in E |].
      rewrite lookup_insert_ne in E by done. congruence.
Qed.

Lemma moved_unname dir c a n :
  wf_tree c -> c !! a = Some n -> nodeid n <> FUSE_ROOT_ID -> moved dir c (unname c a).
Proof.
  intros Ht Ha Hroot. split_and!; [apply unname_size | | by eapply kept_unname; [| apply no_credit_nonneg | |] |].
  - intros (p & pn & Hp & Hpid & Hpnl). exists p. destruct (decide (p = a)) as [->|Hpa].
    + destruct (unname_self _ _ _ _ _ Ht Ha Hroot) as (n1 & ? & ? & ? & _). simplify_eq.
      exists n1. split_and!; congruence.
    + destruct (unname_other _ _ _ _ _ _ _ Ht no_credit_nonneg Ha Hp Hpa Hpnl)
        as (pn1 & ? & ? & ? & _). exists pn1. split_and!; congruence.
  - intros b m Hb. destruct (unname_ids _ _ _ _ Hb) as (k & Hk & Hid). exists k.
    split_and!; [done | done |]. intros q Hq. left.
    destruct (unname_entries _ _ _ _ _ _ _ _ Ht Ha Hb Hq) as (j & ? & ? & ? & _). split; congruence.
Qed.

Lemma moved_rename_in c a n p pn nm :
  c !! a = Some n -> c !! p = Some pn -> p <> a -> moved (nodeid pn) c (rename_in c a p nm).
Proof.
  intros Ha Hp Hpa. unfold rename_in. rewrite Hp, Ha.
  eapply moved_trans; [apply (moved_insert _ c p pn (set_refctr (refctr pn + 1) pn)); auto |].
  eapply (moved_insert _ _ a n); [by rewrite lookup_insert_ne | done | done |].
  intros q [= <-]. right. eexists. by rewrite lookup_insert_eq.
Qed.

(** The end of [rename_node], when the target is free. *)
Lemma runs_move f c a n p pn nm hide (Q : Z -> fuse -> Prop) :
  rep f c None None -> wf_tree c -> Z.of_nat (size c) + 3 <= 2 ^ 31 ->
  c !! a = Some n -> nodeid n <> FUSE_ROOT_ID -> nlookup n <> 0 ->
  c !! p = Some pn -> nlookup pn <> 0 -> p <> a ->
  (forall b m, c !! b = Some m -> parent m = Some p -> name m = Some nm -> b = a) ->
  (forall r c' f', rep f' c' None None -> wf_tree c' -> moved (nodeid pn) c c' -> Q r f') ->
  runs (_ ← unhash_name char_value a;
        r ← hash_name alloc_ok char_value a (nodeid pn) nm;
        if r =? -1 then mret (- ENOMEM)
        else _ ← (if hide =? 0 then mret tt else update a (set_hidden 1)); mret 0) f Q.
Proof.
  intros Hr Ht Hsize Ha Hroot Hnl Hp Hpnl Hpa Hfree HQ. apply runs_bind.
  eapply runs_unname; [done | done | apply no_credit_nonneg | done | done | done |].
  intros f1 Hr1. pose proof (tree_unname _ _ _ _ _ Ht no_credit_nonneg Ha Hroot ltac:(done)) as Ht1.
  destruct (unname_self _ _ _ _ _ Ht Ha Hroot) as (n1 & Ha1 & Hid1 & Hnl1 & _ & Hpar1 & Hn1).
  destruct (unname_other _ _ _ _ _ _ _ Ht no_credit_nonneg Ha Hp Hpa Hpnl)
    as (pn1 & Hp1 & Hpid1 & Hpnl1 & _ & _).
  pose proof (unname_size c a) as Hs1. pose proof (moved_unname (nodeid pn) _ _ _ Ht Ha Hroot) as Hm1.
  set (c1 := unname c a) in *.
  assert (moved (nodeid pn) c (rename_in c1 a p nm)) as Hm2.
  { eapply moved_trans; [exact Hm1 |]. rewrite <- Hpid1. by eapply moved_rename_in. }
  pose proof (t_refs _ _ _ Ht1 p pn1 Hp1) as Href. pose proof (kids_bound c1 p).
  pose proof (t_live _ _ _ Ht1 p pn1 Hp1) as [Hpos _].
  apply runs_bind. rewrite <- Hpid1. eapply (runs_hash_name f1 c1 None a n1 p pn1 nm);
    [done | done | done | done | done | done | done | | | | |].
  { intros b m _ Hm Hbid. by apply (t_ids _ _ _ Ht1 b p m pn1). }
  { unfold no_credit in Href. destruct (nlookup pn1 =? 0); lia. }
  { lia. }
  2:{ intros _ f2 Hr2. apply runs_ret. by eapply HQ. }
  intros f2 Hr2 _. change (0 =? -1) with false. cbv iota.
  assert (wf_tree (rename_in c1 a p nm)) as Ht2.
  { eapply tree_rename_in; try done; [congruence | congruence | congruence |].
    intros b m Hb Hbp Hbn. destruct (unname_entries _ _ _ _ _ _ _ _ Ht Ha Hb Hbp)
      as (k & Hk & Hkp & Hkn & Hba). apply Hba, (Hfree b k); congruence. }
  apply runs_bind. destruct (hide =? 0); [apply runs_ret, runs_ret; by eapply HQ |].
  unfold rename_in in *. rewrite Hp1, Ha1 in *.
  eapply (runs_update_rep _ _ _ _ None a _ (set_hidden 1 (set_name (Some p) (Some nm) n1)));
    [exact Hr2 | apply lookup_insert_eq | | done | by left |].
  { intros k Hk. split; [| done]. change (erase (set_hidden 1 k)) with (set_hidden 1 (erase k)).
    by rewrite Hk. }
  pose proof (t_live _ _ _ Ht1 a n1 Ha1) as [? ?]. assert (nlookup n1 <> 0) by congruence.
  intros f3 Hr3 _. apply runs_ret. eapply HQ; [done | |].
  - eapply tree_change; [exact Ht2 | apply lookup_insert_eq | done.. |].
    by apply (t_range _ _ _ Ht1 a n1).
  - eapply moved_trans; [exact Hm2 |]. eapply moved_insert; [apply lookup_insert_eq | done | done |]. auto.
Qed.

Lemma runs_rename_node f c olddir oldname newdir newname hide (Q : Z -> fuse -> Prop) :
  rep f c None None -> wf_tree c -> Z.of_nat (size c) + 3 <= 2 ^ 31 -> known c newdir ->
  (forall a n, entry c olddir oldname a -> c !! a = Some n -> nodeid n <> newdir) ->
  (forall r c' f', rep f' c' None None -> wf_tree c' -> moved newdir c c' -> Q r f') ->
  runs (rename_node alloc_ok char_value olddir oldname newdir newname hide) f Q.
Proof.
  intros Hr Ht Hsize (p & pn & Hp & Hpid & Hpnl) Hself HQ. unfold rename_node.
  pose proof (moves_refl newdir c) as Hrefl.
  apply runs_bind. eapply runs_lookup_node; [done | |].
  2:{ intros _. apply runs_bind. eapply runs_lookup_node; [done | |];
        intros; apply runs_ret; by eapply HQ. }
  intros a _ Hent. pose proof Hent as (n & q & qn & Ha & Hq & _).
  pose proof (entry_not_root _ _ _ _ Ht Ha Hq) as Hroot.
  assert (nlookup n <> 0) as Hnl.
  { intros Hz. destruct (t_forgot _ _ _ Ht a n Ha Hz ltac:(done)). congruence. }
  assert (p <> a) as Hpa by (intros ->; apply (Hself a n Hent Ha); congruence).
  apply runs_bind. eapply runs_lookup_node; [done | |].
  - intros b _ (m & r & rn & Hb & Hrp & Hrn & Hrid & Hbn). cbv zeta.
    destruct (hide =? 0) eqn:Eh; [| apply runs_ret; by eapply HQ].
    assert (r = p) as -> by (apply (t_ids _ _ _ Ht r p rn pn); congruence).
    pose proof (entry_not_root _ _ _ _ Ht Hb Hrp) as Hbroot.
    destruct (t_parent _ _ _ Ht b m p Hb Hrp) as (Hpb & _ & _).
    apply runs_bind. eapply runs_unname; [done | done | apply no_credit_nonneg | done | done | done |].
    intros f1 Hr1. pose proof (tree_unname _ _ _ _ _ Ht no_credit_nonneg Hb Hbroot ltac:(done)) as Ht1.
    destruct (unname_other _ _ _ _ _ _ _ Ht no_credit_nonneg Hb Hp Hpb Hpnl)
      as (pn1 & Hp1 & Hpid1 & Hpnl1 & _ & _).
    assert (exists n1, unname c b !! a = Some n1 /\ nodeid n1 = nodeid n /\ nlookup n1 = nlookup n)
      as (n1 & Ha1 & Hid1 & Hnl1).
    { destruct (decide (a = b)) as [->|Hab].
      - simplify_eq. destruct (unname_self _ _ _ _ _ Ht Ha Hroot) as (n1 & ? & ? & ? & _). eauto.
      - destruct (unname_other _ _ _ _ _ _ _ Ht no_credit_nonneg Hb Ha Hab Hnl)
          as (n1 & ? & ? & ? & _). eauto. }
    pose proof (unname_size c b). pose proof (moved_unname newdir _ _ _ Ht Hb Hbroot) as Hmb.
    replace newdir with (nodeid pn1) by congruence.
    eapply (runs_move _ _ _ _ _ _ _ 0);
      [done | done | lia | done | congruence | congruence | done | congruence | done | |].
    + intros d k Hd Hdp Hdn.
      destruct (unname_entries _ _ _ _ _ _ _ _ Ht Hb Hd Hdp) as (j & Hj & Hjp & Hjn & Hdb).
      destruct Hdb. eapply (t_names _ _ _ Ht d b j m p); try done. congruence.
    + intros x c' f' Hr' Ht' Hm. eapply HQ; [done | done |]. eapply moved_trans; [exact Hmb |].
      by replace newdir with (nodeid pn1) by congruence.
  - intros Hno. rewrite <- Hpid in *. eapply runs_move; try done.
    intros b m Hb Hbp Hbn. destruct (Hno b); [done |]. exists m, p, pn. done.
Qed.
End Operations.

(** * The requests of the kernel *)

#[export] Instance table_sizes : Sizes table_size table_size.
Proof. unfold table_size. split; lia. Qed.
#[local] Opaque table_size.

Inductive request :=
| Find (dir : Z) (nm : bytes)
| Forget (id k : Z)
| Remove (dir : Z) (nm : bytes)
| Rename (olddir : Z) (oldname : bytes) (newdir : Z) (newname : bytes) (hide : Z).

Definition contents (f : fuse) : gmap nat node := erase <$> nodes f.

(** What the kernel asks: it names directories that it has looked up and not
    forgotten, forgets what it has looked up, and moves nothing into itself. *)
Definition allowed (c : gmap nat node) (r : request) : Prop :=
  match r with
  | Find dir _ => known c dir /\ roomy c
  | Forget id k => id = FUSE_ROOT_ID \/
      exists a n, c !! a = Some n /\ nodeid n = id /\ id <> FUSE_ROOT_ID /\ 0 < k <= nlookup n
  | Remove _ _ => True
  | Rename olddir oldname newdir _ _ =>
      known c newdir /\ Z.of_nat (size c) + 3 <= 2 ^ 31 /\
      forall a n, entry c olddir oldname a -> c !! a = Some n -> nodeid n <> newdir
  end.

Section Requests.
Context (alloc_ok : nat -> bool) (char_value : ascii -> Z).

Definition serve (r : request) : M fuse unit :=
  match r with
  | Find dir nm => _ ← find_node alloc_ok char_value dir nm; mret tt
  | Forget id k => forget_node char_value id k
  | Remove dir nm => remove_node char_value dir nm
  | Rename olddir oldname newdir newname hide =>
      _ ← rename_node alloc_ok char_value olddir oldname newdir newname hide; mret tt
  end.

(** The states of the table, from its creation on. *)
Inductive reachable : fuse -> Prop :=
| reachable_new f0 f :
    nodes f0 = ∅ -> new_nodes alloc_ok f0 = Ret (true, f) -> reachable f
| reachable_serve f r f' :
    reachable f -> allowed (contents f) r -> serve r f = Ret (tt, f') -> reachable f'.

(** The hash tables hold the nodes, and the nodes form a tree of directories with
    their references counted. *)
Definition table_wf (f : fuse) : Prop :=
  rep char_value table_size table_size f (contents f) None None /\
  tree (contents f) no_credit None.

Lemma table_wf_intro f c :
  rep char_value table_size table_size f c None None -> tree c no_credit None -> table_wf f.
Proof. intros Hr Ht. unfold table_wf, contents. by rewrite (rep_core _ _ _ _ Hr). Qed.

Lemma serve_wf f r :
  table_wf f -> allowed (contents f) r -> runs (serve r) f (fun _ f' => table_wf f').
Proof.
  intros [Hr Ht] Hal. destruct r as [dir nm|id k|dir nm|od on nd nn hide]; simpl in *.
  - destruct Hal as [Hk Hroom]. apply runs_bind. eapply runs_find_node; try done.
    + intros a n c' f' Hr' Ht' _ _ _ _ _ _. apply runs_ret. by eapply table_wf_intro.
    + intros _ f' Hr'. apply runs_ret. by eapply table_wf_intro.
  - eapply runs_forget_node; try done. intros c' f' Hr' Ht' _. by eapply table_wf_intro.
  - eapply runs_remove_node; try done. intros c' f' Hr' Ht' _. by eapply table_wf_intro.
  - destruct Hal as (Hk & Hs & Hself). apply runs_bind. eapply runs_rename_node; try done.
    intros z c' f' Hr' Ht' _. apply runs_ret. by eapply table_wf_intro.
Qed.

(** ** The new table *)

Lemma table_empty link h n (key : nat -> nat -> Prop) :
  (forall a i, ~ key a i) -> table_ok link h (replicate n None) key.
Proof.
  intros Hk. exists (replicate n []). split.
  - apply Forall2_replicate. done.
  - intros i ns [-> _]%lookup_replicate. split; [constructor |]. intros a.
    rewrite elem_of_nil. split; [done | apply Hk].
Qed.

Definition root_node : node := Node None None FUSE_ROOT_ID 0 1 None (Some [SLASH]) 1 0 0.

Lemma tree_root a : tree {[a := root_node]} no_credit None.
Proof.
  assert (forall b n, ({[a := root_node]} : gmap nat node) !! b = Some n -> b = a /\ n = root_node)
    as Hone by (intros b n [-> ->]%lookup_singleton_Some; done).
  assert (forall p, kids {[a := root_node]} p = 0) as Hk.
  { intros p. rewrite <- insert_empty, kids_insert, delete_empty. unfold kids, is_kid. simpl.
    by rewrite map_filter_empty, map_size_empty. }
  split.
  - intros b d n m [-> _]%Hone [-> _]%Hone. done.
  - intros b d n m p [-> _]%Hone [-> _]%Hone. done.
  - intros b n p [_ ->]%Hone. done.
  - intros b n [_ ->]%Hone. by right.
  - intros b n [_ ->]%Hone. done.
  - intros b n [_ ->]%Hone. rewrite Hk. done.
  - intros b n [_ ->]%Hone. done.
  - exists a, root_node. rewrite lookup_singleton_eq. done.
  - intros b n [_ ->]%Hone. done.
Qed.

Lemma ensures_malloc f (Q : bool -> fuse -> Prop) :
  (forall ok f', nodes f' = nodes f -> brk f' = brk f -> id_table f' = id_table f ->
     name_table f' = name_table f -> Q ok f') -> runs (malloc alloc_ok) f Q.
Proof. intros HQ. unfold malloc. run. by apply HQ. Qed.

Lemma runs_new_nodes f0 :
  nodes f0 = ∅ -> runs (new_nodes alloc_ok) f0 (fun ok f => ok = true -> table_wf f).
Proof.
  intros Hn. unfold new_nodes. apply runs_bind, runs_modify. apply runs_bind, ensures_malloc.
  intros ok1 f1 Hn1 Hb1 Hi1 Hm1. simpl in *. destruct ok1; [| done].
  apply runs_bind, runs_modify. apply runs_bind, ensures_malloc.
  intros ok2 f2 Hn2 Hb2 Hi2 Hm2. simpl in *. destruct ok2; [| by run].
  apply runs_bind, runs_modify. unfold new_node.
  apply runs_bind, runs_bind, runs_get. apply runs_bind, ensures_malloc.
  intros ok3 f3 Hn3 Hb3 Hi3 Hm3. simpl in *. destruct ok3; [| by run].
  run. apply ensures_malloc. intros ok4 f4 Hn4 Hb4 Hi4 Hm4. simpl in *.
  destruct ok4.
  2:{ unfold free_block. apply runs_bind, runs_bind. eapply runs_node_load.
      { rewrite Hn4, Hb3. apply lookup_insert_eq. }
      run. done. }
  apply runs_bind. eapply runs_update; [rewrite Hn4, Hb3; apply lookup_insert_eq |].
  set (f5 := set_nodes _ f4).
  assert (nodes f5 = {[brk f2 := root_node]}) as Hnodes.
  { unfold f5. cbn [nodes set_nodes]. rewrite Hn4, Hb3, Hn3, Hn2, Hn1, Hn. by rewrite insert_insert_eq. }
  assert (rep char_value table_size table_size f5 {[brk f2 := root_node]} (Some (brk f2)) None)
    as Hr5.
  { assert (id_table f5 = replicate table_size None) as Hi5.
    { unfold f5. cbn [id_table set_nodes]. by rewrite Hi4, Hi3. }
    assert (name_table f5 = replicate table_size None) as Hm5.
    { unfold f5. cbn [name_table set_nodes]. by rewrite Hm4, Hm3, Hm2. }
    split.
    - rewrite Hnodes. apply map_fmap_singleton.
    - rewrite Hnodes. intros a Ha. unfold f5 in Ha. cbn [brk set_nodes] in Ha.
      apply lookup_singleton_ne. lia.
    - rewrite Hi5. apply table_empty. intros a i (Ha & n & [<- _]%lookup_singleton_Some & _). done.
    - rewrite Hm5. apply table_empty.
      intros a i (_ & n & p & pn & nm & [<- <-]%lookup_singleton_Some & Hp & _). done.
    - by rewrite Hi5, length_replicate.
    - by rewrite Hm5, length_replicate. }
  apply runs_bind. eapply runs_hash_id; [exact Hr5 | apply lookup_singleton_eq |].
  intros f6 Hr6 _. apply runs_ret. intros _. eapply table_wf_intro; [exact Hr6 | apply tree_root].
Qed.

Lemma reachable_wf f : reachable f -> table_wf f.
Proof.
  induction 1 as [f0 f Hn Hf | f r f' _ IH Hal Hf].
  - pose proof (runs_new_nodes f0 Hn) as Hr. unfold runs in Hr. rewrite Hf in Hr. by apply Hr.
  - pose proof (serve_wf f r IH Hal) as Hr. unfold runs in Hr. by rewrite Hf in Hr.
Qed.

(** C15. From its creation on, under any sequence of lookups, forgets, removals
    and renames that the kernel may send, with allocations that may fail, the
    table of nodes of the FUSE library keeps its two hash tables and its
    reference counts exact: every request ends without a failed assertion, a
    freed node or an abort, and in such a table again. *)
Theorem node_table_invariant f :
  reachable f ->
  table_wf f /\
  forall r, allowed (contents f) r -> exists f', serve r f = Ret (tt, f') /\ reachable f'.
Proof.
  intros H. pose proof (reachable_wf f H) as Hwf. split; [done |]. intros r Hal.
  destruct (proj1 (runs_eq _ _ _) (serve_wf f r Hwf Hal)) as ([] & f' & Hf & _).
  exists f'. split; [done |]. by eapply reachable_serve.
Qed.
End Requests.

(** * Paths *)

(** The path of the node [a]: the names from the root to it, each after a slash. *)
Inductive path_to (c : gmap nat node) : nat -> bytes -> Prop :=
| path_root a n : c !! a = Some n -> nodeid n = FUSE_ROOT_ID -> path_to c a []
| path_entry a n p nm s :
    c !! a = Some n -> nodeid n <> FUSE_ROOT_ID -> parent n = Some p -> name n = Some nm ->
    path_to c p s -> path_to c a (s ++ SLASH :: nm).

Lemma path_extends c c' a s : extends c c' -> path_to c a s -> path_to c' a s.
Proof.
  intros He. induction 1 as [a n Ha Hid|a n p nm s Ha Hid Hp Hn _ IH];
    destruct (He a n Ha) as (n' & Ha' & Hid' & Hp' & Hn').
  - eapply path_root; [done | congruence].
  - apply (path_entry c' a n' p nm s); [done | congruence | congruence | congruence | done].
Qed.

Lemma runs_path_up {char_value} fuel f isz nsz c x y a s t (Q : option bytes -> fuse -> Prop) :
  rep char_value isz nsz f c x y -> path_to c a s -> strlen (s ++ t) < FUSE_MAX_PATH ->
  (length s < fuel)%nat -> Q (Some (s ++ t)) f -> runs (path_up fuel (Some a) t) f Q.
Proof.
  intros Hr Hs. revert fuel t. induction Hs as [a n Ha Hid|a n p nm s Ha Hid Hp Hn _ IH];
    intros fuel t Hlen Hf HQ; (destruct fuel as [|fuel]; [lia |]); cbn [path_up];
    apply runs_bind; (eapply runs_load_rep; [done | done |]); intros m Hm He.
  - assert (nodeid m = FUSE_ROOT_ID) as -> by by rewrite <- Hid, <- He. by apply runs_ret.
  - assert (nodeid m = nodeid n) as -> by by rewrite <- He.
    replace (nodeid n =? FUSE_ROOT_ID) with false by lia.
    assert (name m = Some nm /\ parent m = Some p) as [-> ->] by (rewrite <- He in *; done).
    rewrite <- app_assoc in Hlen, HQ. cbn [app] in Hlen, HQ.
    rewrite length_app in Hf. simpl in Hf. unfold add_name.
    rewrite strlen_app, strlen_cons, strlen_app in Hlen. pose proof (strlen_nonneg s).
    replace (_ <=? 0) with false by lia.
    apply IH; [| lia | done]. rewrite strlen_app, strlen_cons, strlen_app. lia.
Qed.

(** What the path of a request is, in terms of the lookups of the kernel: the path
    of a directory, then the name that was looked up there. *)
Definition find_path (alloc_ok : nat -> bool) (char_value : ascii -> Z) (dir : Z) (nm : bytes)
  : M fuse (option bytes) :=
  p ← find_node alloc_ok char_value dir nm;
  match p with
  | None => mret None
  | Some _ => n ← load p; get_path alloc_ok (nodeid n)
  end.

(** The path of the root is a slash. *)
Definition shown (s : bytes) : bytes := match s with [] => [SLASH] | _ => s end.

Lemma shown_app s t : t <> [] -> shown (s ++ t) = s ++ t.
Proof. intros Ht. destruct s; [by destruct t | done]. Qed.

Lemma runs_get_path {alloc_ok char_value} f c a n s (Q : option bytes -> fuse -> Prop) :
  rep char_value table_size table_size f c None None -> tree c no_credit None ->
  c !! a = Some n -> path_to c a s -> strlen s < FUSE_MAX_PATH ->
  (forall f', rep char_value table_size table_size f' c None None -> Q (Some (shown s)) f') ->
  (no_memory alloc_ok -> forall f', rep char_value table_size table_size f' c None None -> Q None f') ->
  runs (get_path alloc_ok (nodeid n)) f Q.
Proof.
  intros Hr Ht Ha Hs Hlen HQ HQ0. unfold get_path, get_path_name.
  apply runs_bind. eapply runs_get_node; [done | done | exact Ha | done | |].
  { intros b m _ Hb Hbid. by apply (t_ids _ _ _ Ht b a m n). }
  apply runs_bind. eapply (runs_path_up _ _ _ _ _ _ _ a s []); [done | done | | |].
  - by rewrite app_nil_r.
  - unfold path_fuel. unfold strlen in Hlen. lia.
  - rewrite app_nil_r. apply runs_bind. eapply runs_node_malloc; [done | |].
    + intros f' Hf' _. by apply runs_ret, HQ.
    + intros Hm f' Hf'. by apply runs_ret, HQ0.
Qed.

(** In any reachable table, when the kernel looks up a name in a directory
    that it knows, the number it gets names the path of the directory followed
    by the name, which is what the callbacks of catalogfs receive; only a failed
    allocation answers NULL instead. *)
Theorem found_node_path alloc_ok char_value f dir nm p pn s :
  reachable alloc_ok char_value f -> contents f !! p = Some pn -> nodeid pn = dir ->
  path_to (contents f) p s -> allowed (contents f) (Find dir nm) ->
  strlen (s ++ SLASH :: nm) < FUSE_MAX_PATH ->
  exists r f', find_path alloc_ok char_value dir nm f = Ret (r, f') /\
    (r = Some (s ++ SLASH :: nm) \/ r = None /\ no_memory alloc_ok).
Proof.
  intros Hre Hp Hid Hs [Hk Hroom] Hlen.
  destruct (reachable_wf _ _ f Hre) as [Hr Ht]. apply runs_eq. unfold find_path.
  apply runs_bind. eapply runs_find_node; [done | done | done | done | |].
  2:{ intros Hm f' _. apply runs_ret. by right. }
  intros a ? c' f' Hr' Ht' Hext _ _ (n & q & qn & Ha & Hq & Hqn & Hqid & Hnm) _ _.
  destruct (Hext p pn Hp) as (pn' & Hp' & Hpid' & _).
  assert (q = p) as -> by (apply (t_ids _ _ _ Ht' q p qn pn'); congruence).
  pose proof (entry_not_root _ _ _ _ Ht' Ha Hq) as Hroot.
  pose proof (path_entry _ a n p nm s Ha Hroot Hq Hnm (path_extends _ _ _ _ Hext Hs)) as Hpath.
  apply runs_bind. eapply runs_load_rep; [done | exact Ha |]. intros m _ He.
  assert (nodeid m = nodeid n) as -> by by rewrite <- He.
  eapply runs_get_path; [done | done | done | done | done | |].
  - intros f2 _. left. by rewrite shown_app.
  - intros Hm f2 _. by right.
Qed.

(** * A table in use *)

Definition empty_fuse : fuse := Fuse ∅ 0 0 0 [] [] 0 0.

(** Characters of one sign. *)
Definition plain_char (c : ascii) : Z := Z.of_nat (nat_of_ascii c).

Definition state_of {A} (r : outcome (A * fuse)) : fuse :=
  match r with Ret (_, f) => f | _ => empty_fuse end.

(** The table after its creation, and after the lookup of a name in the root. *)
Definition booted : fuse := state_of (new_nodes (fun _ => true) empty_fuse).
Definition looked_up : fuse := state_of (serve (fun _ => true) plain_char (Find 1 (B "a")) booted).

Lemma boot_step : new_nodes (fun _ => true) empty_fuse = Ret (true, booted).
Proof. vm_compute. reflexivity. Qed.

Lemma booted_contents : contents booted = {[0%nat := root_node]}.
Proof. vm_compute. reflexivity. Qed.

Definition a_node : node := Node None None 2 0 1 (Some 0%nat) (Some (B "a")) 1 0 0.

Lemma look_step :
  serve (fun _ => true) plain_char (Find 1 (B "a")) booted = Ret (tt, looked_up).
Proof. vm_compute. reflexivity. Qed.

Lemma looked_up_contents :
  contents looked_up = {[0%nat := set_refctr 2 root_node; 1%nat := a_node]}.
Proof. vm_compute. reflexivity. Qed.

Lemma booted_allows nm : allowed (contents booted) (Find 1 nm).
Proof.
  rewrite booted_contents. split; [| split].
  - by exists 0%nat, root_node.
  - rewrite map_size_singleton. lia.
  - intros a n [_ <-]%lookup_singleton_Some. simpl. lia.
Qed.

Lemma booted_reachable : reachable (fun _ => true) plain_char booted.
Proof. eapply reachable_new; [| exact boot_step]. done. Qed.

Lemma looked_up_reachable : reachable (fun _ => true) plain_char looked_up.
Proof.
  eapply reachable_serve; [exact booted_reachable | apply booted_allows | exact look_step].
Qed.

Lemma looked_up_allows nm : allowed (contents looked_up) (Find 2 nm).
Proof.
  rewrite looked_up_contents. split; [| split].
  - by exists 1%nat, a_node.
  - rewrite map_size_insert_None, map_size_singleton by done. lia.
  - intros a n [[_ <-]|[_ [_ <-]%lookup_singleton_Some]]%lookup_insert_Some; simpl; lia.
Qed.

Lemma looked_up_path : path_to (contents looked_up) 1 (B "/a").
Proof.
  rewrite looked_up_contents. change (B "/a") with ([] ++ SLASH :: B "a").
  eapply (path_entry _ 1 a_node 0); [done.. |]. by eapply path_root.
Qed.

Lemma node_table_invariant_witness :
  table_wf plain_char looked_up /\
  exists f', serve (fun _ => true) plain_char (Find 2 (B "b")) looked_up = Ret (tt, f') /\
    reachable (fun _ => true) plain_char f'.
Proof.
  destruct (node_table_invariant _ _ _ looked_up_reachable) as [Hwf Hstep].
  split; [exact Hwf | exact (Hstep _ (looked_up_allows _))].
Defined.

Lemma found_node_path_witness :
  exists r f', find_path (fun _ => true) plain_char 2 (B "b") looked_up = Ret (r, f') /\
    (r = Some (B "/a" ++ SLASH :: B "b") \/ r = None /\ no_memory (fun _ => true)).
Proof.
  apply (found_node_path _ _ _ _ _ 1 a_node _ looked_up_reachable).
  - by rewrite looked_up_contents.
  - done.
  - exact looked_up_path.
  - apply looked_up_allows.
  - vm_compute. reflexivity.
Defined.

Example found_path_ab :
  match find_path (fun _ => true) plain_char 2 (B "b") looked_up with
  | Ret (r, _) => r | _ => None
  end = Some (B "/a/b").
Proof. vm_compute. reflexivity. Qed.
