(* ===== verification/FuseLocks.v ===== *)
(** other_fs/fuse-2.7.3/lib/fuse.c: the file locks that the library keeps for each
    node, as a map from the bytes of the file to what each owner has locked. *)

From S2P Require Import Prelude.
From S2P Require Import CString.

Definition OFFSET_MAX : Z := 9223372036854775807.
Definition F_RDLCK : Z := 0.
Definition F_WRLCK : Z := 1.
Definition F_UNLCK : Z := 2.
Definition F_GETLK : Z := 5.
Definition F_SETLK : Z := 6.
Definition F_SETLKW : Z := 7.
Definition SEEK_SET : Z := 0.
Definition ENOENT : Z := 2.
Definition ENOLCK : Z := 37.
Definition ENOSYS : Z := 38.

(** [struct lock], the link to the next one apart. *)
Record lock := Lock { type : Z; start : Z; end_ : Z; pid : Z; owner : Z }.

Definition set_start (z : Z) (l : lock) : lock := Lock (type l) z (end_ l) (pid l) (owner l).
Definition set_end (z : Z) (l : lock) : lock := Lock (type l) (start l) z (pid l) (owner l).

(** [struct flock]. *)
Record flock := Flock { l_type : Z; l_whence : Z; l_start : Z; l_len : Z; l_pid : Z }.

(** The list [node->locks], the calls of [malloc] so far and the live blocks. *)
Record lock_state := LockState { locks : list lock; allocs : nat; blocks : Z }.

Definition set_locks (ls : list lock) (s : lock_state) : lock_state :=
  LockState ls (allocs s) (blocks s).
Definition add_blocks (n : Z) (s : lock_state) : lock_state :=
  LockState (locks s) (allocs s) (blocks s + n).

(** * The list of locks *)

(** Whether [l] stands in the way of [lk]. *)
Definition conflicts (lk l : lock) : bool :=
  negb (owner l =? owner lk) && (start lk <=? end_ l) && (start l <=? end_ lk)
  && ((type l =? F_WRLCK) || (type lk =? F_WRLCK)).

Fixpoint locks_conflict (ls : list lock) (lk : lock) : option lock :=
  match ls with
  | [] => None
  | l :: ls' => if conflicts lk l then Some l else locks_conflict ls' lk
  end.

(** A signed 64-bit result. *)
Definition i64 (z : Z) : M lock_state Z := _ ← assert_defined (in_i64 z); mret z.

(** [free] of a pointer that is NULL unless [b]. *)
Definition free_if (b : bool) : M lock_state unit := modify (add_blocks (if b then -1 else 0)).

(** The end of [locks_insert], from the [break] on, at the list [ls]: [newl1] and
    [newl2] tell whether the pointers hold a block. *)
Definition insert_here (ls : list lock) (lk : lock) (newl1 newl2 : bool) : M lock_state (list lock) :=
  if type lk =? F_UNLCK then _ ← free_if newl1; _ ← free_if newl2; mret ls
  else _ ← assert_defined newl1; _ ← free_if newl2; mret (lk :: ls).

Definition delete_lock : M lock_state unit := modify (add_blocks (-1)).

(** The loop of [locks_insert] from the list [*lp] on, and what follows it. *)
Fixpoint insert_loop (fuel : nat) (ls : list lock) (lk : lock) (newl1 newl2 : bool)
  : M lock_state (list lock) :=
  match fuel with
  | O => hang
  | S fuel' =>
      match ls with
      | [] => insert_here [] lk newl1 newl2
      | l :: ls' =>
          let skip l := rest ← insert_loop fuel' ls' lk newl1 newl2; mret (l :: rest) in
          if negb (owner l =? owner lk) then skip l
          else if type lk =? type l then
            before ← i64 (start lk - 1);
            if end_ l <? before then skip l
            else
              before ← i64 (start l - 1);
              if end_ lk <? before then insert_here ls lk newl1 newl2
              else if (start l <=? start lk) && (end_ lk <=? end_ l) then
                _ ← free_if newl1; _ ← free_if newl2; mret ls
              else
                let lk := if start l <? start lk then set_start (start l) lk else lk in
                let lk := if end_ lk <? end_ l then set_end (end_ l) lk else lk in
                _ ← delete_lock;
                insert_loop fuel' ls' lk newl1 newl2
          else if end_ l <? start lk then skip l
          else if end_ lk <? start l then insert_here ls lk newl1 newl2
          else if (start lk <=? start l) && (end_ l <=? end_ lk) then
            _ ← delete_lock;
            insert_loop fuel' ls' lk newl1 newl2
          else if end_ l <=? end_ lk then
            e ← i64 (start lk - 1);
            skip (set_end e l)
          else if start lk <=? start l then
            b ← i64 (end_ lk + 1);
            insert_here (set_start b l :: ls') lk newl1 newl2
          else
            _ ← assert_defined newl2;
            b ← i64 (end_ lk + 1);
            e ← i64 (start lk - 1);
            rest ← insert_loop fuel' (set_start b l :: ls') lk newl1 false;
            mret (set_end e l :: rest)
      end
  end.

(** Each turn moves past a lock or deletes one; one of them may be split in two. *)
Definition insert_fuel (ls : list lock) : nat := (length ls + 3)%nat.

Section Locks.
(** Whether the [n]-th allocation succeeds. *)
Context (alloc_ok : nat -> bool).

Definition malloc : M lock_state bool :=
  s ← get;
  let ok := alloc_ok (allocs s) in
  _ ← modify (fun s => LockState (locks s) (S (allocs s)) (blocks s + (if ok then 1 else 0)));
  mret ok.

Definition locks_insert (lk : lock) : M lock_state Z :=
  let go newl1 newl2 :=
    s ← get;
    ls ← insert_loop (insert_fuel (locks s)) (locks s) lk newl1 newl2;
    _ ← modify (set_locks ls);
    mret 0 in
  if negb (type lk =? F_UNLCK) || negb (start lk =? 0) || negb (end_ lk =? OFFSET_MAX) then
    newl1 ← malloc;
    newl2 ← malloc;
    if newl1 && newl2 then go true true
    else _ ← free_if newl1; _ ← free_if newl2; mret (- ENOLCK)
  else go false false.

(** * Requests *)

Definition flock_to_lock (fl : flock) (owner : Z) : M lock_state lock :=
  e ← (if l_len fl =? 0 then mret OFFSET_MAX
       else e ← i64 (l_start fl + l_len fl); i64 (e - 1));
  mret (Lock (l_type fl) (l_start fl) e (l_pid fl) owner).

Definition lock_to_flock (l : lock) (fl : flock) : M lock_state flock :=
  n ← (if end_ l =? OFFSET_MAX then mret 0
       else n ← i64 (end_ l - start l); i64 (n + 1));
  mret (Flock (type l) (l_whence fl) (start l) n (pid l)).

(** The operations of the file system, if it has them, on the path of the node
    (NULL when it has none). *)
Context (op_flush : option (option bytes -> Z)).
Context (op_lock : option (option bytes -> Z -> flock -> Z * flock)).

Definition fuse_fs_flush (path : option bytes) : Z :=
  match op_flush with Some op => op path | None => - ENOSYS end.

Definition fuse_fs_lock (path : option bytes) (cmd : Z) (fl : flock) : Z * flock :=
  match op_lock with Some op => op path cmd fl | None => (- ENOSYS, fl) end.

Definition fuse_flush_common (path : option bytes) (lock_owner : Z) : M lock_state Z :=
  let err := fuse_fs_flush path in
  let '(errlock, fl) := fuse_fs_lock path F_SETLK (Flock F_UNLCK SEEK_SET 0 0 0) in
  if negb (errlock =? - ENOSYS) then
    l ← flock_to_lock fl lock_owner;
    _ ← locks_insert l;
    mret (if err =? - ENOSYS then 0 else err)
  else mret err.

Definition fuse_lock_common (path : option bytes) (fl : flock) (cmd : Z) : Z * flock :=
  match path with
  | Some _ => fuse_fs_lock path cmd fl
  | None => (- ENOENT, fl)
  end.

(** The reply: an error, or a lock. *)
Definition fuse_lib_getlk (path : option bytes) (lock_owner : Z) (fl : flock)
  : M lock_state (Z + flock) :=
  l ← flock_to_lock fl lock_owner;
  s ← get;
  match locks_conflict (locks s) l with
  | Some c => fl ← lock_to_flock c fl; mret (inr fl)
  | None =>
      let '(err, fl) := fuse_lock_common path fl F_GETLK in
      mret (if err =? 0 then inr fl else inl err)
  end.

Definition fuse_lib_setlk (path : option bytes) (lock_owner : Z) (fl : flock) (sleep : bool)
  : M lock_state Z :=
  let '(err, fl) := fuse_lock_common path fl (if sleep then F_SETLKW else F_SETLK) in
  if err =? 0 then
    l ← flock_to_lock fl lock_owner;
    _ ← locks_insert l;
    mret err
  else mret err.
End Locks.
