(* ===== verification/FuseLocksProps.v ===== *)
(** The file locks of FUSE: [locks_insert] is an update of the map from owners and
    bytes to locks, on the canonical lists of locks. *)

From S2P Require Import Prelude.
From S2P Require Import CString.
From S2P Require Import FuseLocks.

(** * The map of a list of locks *)

(** [l] covers byte [x] for the owner [o]. *)
Definition covers (o x : Z) (l : lock) : bool :=
  (owner l =? o) && (start l <=? x) && (x <=? end_ l).

(** What the owner [o] has locked at byte [x]. *)
Fixpoint lock_at (ls : list lock) (o x : Z) : option Z :=
  match ls with
  | [] => None
  | l :: ls' => if covers o x l then Some (type l) else lock_at ls' o x
  end.

(** What setting the lock [lk] means: its type on its bytes, for its owner. *)
Definition lock_update (lk : lock) (m : Z -> Z -> option Z) (o x : Z) : option Z :=
  if covers o x lk then if type lk =? F_UNLCK then None else Some (type lk) else m o x.

(** ** Canonical lists *)

Definition wf_range (l : lock) : Prop := 0 <= start l <= end_ l /\ end_ l <= OFFSET_MAX.

Definition wf_lock (l : lock) : Prop := wf_range l /\ type l <> F_UNLCK.

(** [l] lies before [l'], and does not touch it when they could be one lock. *)
Definition apart (l l' : lock) : Prop :=
  owner l = owner l' -> end_ l < start l' /\ (type l = type l' -> end_ l + 1 < start l').

Definition canonical (ls : list lock) : Prop := Forall wf_lock ls /\ StronglySorted apart ls.

Lemma canonical_cons l ls :
  canonical (l :: ls) <-> wf_lock l /\ Forall (apart l) ls /\ canonical ls.
Proof.
  unfold canonical. rewrite Forall_cons. split.
  - intros [[? ?] [? ?]%StronglySorted_inv]. done.
  - intros (? & ? & ? & ?). split; [done |]. by constructor.
Qed.

Lemma lock_at_apart l ls o x :
  Forall (apart l) ls -> o = owner l -> x <= end_ l -> lock_at ls o x = None.
Proof.
  induction 1 as [|l' ls Hl _ IH]; intros Ho Hx; simpl; [done |].
  unfold covers at 1. destruct (Z.eqb_spec (owner l') o) as [E|]; simpl; [| auto].
  destruct Hl as [Hl _]; [congruence |]. replace (start l' <=? x) with false by lia. auto.
Qed.

(** A lock that ends where [l] ends or before lies apart from what [l] does. *)
Lemma apart_end l l' ls :
  owner l' = owner l -> type l' = type l -> end_ l' <= end_ l ->
  Forall (apart l) ls -> Forall (apart l') ls.
Proof.
  intros Ho Ht He H. eapply Forall_impl; [exact H |]. intros k Hk E. rewrite Ho in E.
  destruct (Hk E). rewrite Ht. lia.
Qed.

(** What follows a lock that ends past [lk] is apart from [lk]. *)
Lemma apart_after lk l ls :
  owner l = owner lk -> end_ lk < end_ l -> Forall (apart l) ls -> Forall (apart lk) ls.
Proof.
  intros Ho He H. eapply Forall_impl; [exact H |]. intros k Hk E. destruct Hk; [congruence | lia].
Qed.

(** * The loop *)

Definition held (b : bool) : Z := if b then 1 else 0.

(** What [insert_loop] and [insert_here] promise for the list [ls] from [lk] on. *)
Definition inserted (lk : lock) (ls : list lock) (newl1 newl2 : bool) (s : lock_state)
  (ls' : list lock) (s' : lock_state) : Prop :=
  canonical ls' /\
  (forall o x, lock_at ls' o x = lock_update lk (lock_at ls) o x) /\
  (forall l0, Forall (apart l0) ls -> apart l0 lk -> Forall (apart l0) ls') /\
  locks s' = locks s /\ allocs s' = allocs s /\
  blocks s' - Z.of_nat (length ls') = blocks s - Z.of_nat (length ls) - held newl1 - held newl2.

Lemma insert_here_ok lk ls newl1 newl2 s :
  wf_range lk -> (newl1 = true \/ type lk = F_UNLCK) -> canonical ls -> Forall (apart lk) ls ->
  runs (insert_here ls lk newl1 newl2) s (inserted lk ls newl1 newl2 s).
Proof.
  intros Hlk Hn Hc Hap. unfold insert_here, free_if. destruct (Z.eqb_spec (type lk) F_UNLCK) as [E|E].
  - run. split_and!; [done | | done | done | done | simpl; unfold held; destruct newl1, newl2; lia].
    intros o x. unfold lock_update, covers. rewrite E. simpl.
    destruct (Z.eqb_spec (owner lk) o) as [Ho|]; [| done]. simpl.
    destruct (start lk <=? x) eqn:E1; [| done]. simpl. destruct (x <=? end_ lk) eqn:E2; [| done].
    eapply lock_at_apart; [done | done | lia].
  - destruct Hn as [->|]; [| done]. apply runs_bind, runs_assert; [done |]. run.
    split_and!; [| | | done | done | simpl length; simpl; unfold held; destruct newl2; lia].
    + by rewrite canonical_cons.
    + intros o x. unfold lock_update. simpl. replace (type lk =? F_UNLCK) with false by lia.
      by destruct (covers o x lk).
    + intros l0 H H'. by constructor.
Qed.

(** The loop moves past [l], of which it keeps [l']. *)
Lemma inserted_skip lk l l' ls newl1 newl2 s ls' s' :
  canonical (l :: ls) -> inserted lk ls newl1 newl2 s ls' s' ->
  owner l' = owner l -> type l' = type l -> start l' = start l -> start l <= end_ l' <= end_ l ->
  apart l' lk ->
  (end_ l' < end_ l -> owner l = owner lk /\ start lk <= end_ l' + 1 /\ end_ l <= end_ lk) ->
  inserted lk (l :: ls) newl1 newl2 s (l' :: ls') s'.
Proof.
  rewrite canonical_cons. intros ([[Hr Hm] Hty] & Hap & Hc) (Hc' & Hat & Hfr & Hs & Ha & Hb)
    Ho Ht Hst He Hlk Hcut.
  split_and!; [| | | done | done | simpl length; lia].
  - apply canonical_cons. split_and!; [| | done].
    + unfold wf_lock, wf_range. rewrite Ht. split; [lia | done].
    + apply Hfr; [| done]. apply (apart_end l l' ls Ho Ht ltac:(lia) Hap).
  - intros o x. simpl. rewrite Hat. unfold lock_update. simpl. unfold covers.
    rewrite Ho, Ht, Hst. destruct (Z.eqb_spec (owner l) o) as [E|]; simpl; [| done].
    destruct (Z.eqb_spec (owner lk) o) as [E'|E']; simpl.
    + destruct (Hlk ltac:(congruence)) as [Hlt _].
      destruct (Z.leb_spec (start l) x); simpl; [| done].
      destruct (Z.leb_spec x (end_ l')), (Z.leb_spec x (end_ l)); try lia;
        destruct (Z.leb_spec (start lk) x); simpl; try lia; try done.
      destruct (Z.leb_spec x (end_ lk)); simpl; [done | lia].
    + assert (end_ l' = end_ l) as -> by (destruct (Z.ltb_spec (end_ l') (end_ l)); [|lia];
        destruct Hcut; [lia | congruence]). done.
  - intros l0 H0 H1. apply Forall_cons in H0 as [H2 H3]. constructor; [| by apply Hfr].
    intros E. rewrite Ho in E. destruct (H2 E). rewrite Ht, Hst. done.
Qed.

(** The loop deletes [l], whose bytes [lk'] takes over. *)
Lemma inserted_delete lk lk' l ls newl1 newl2 s ls' s' :
  canonical (l :: ls) ->
  inserted lk' ls newl1 newl2 (add_blocks (-1) s) ls' s' ->
  owner l = owner lk -> owner lk' = owner lk -> type lk' = type lk ->
  type lk = type l \/ lk' = lk ->
  start lk' = Z.min (start lk) (start l) -> end_ lk' = Z.max (end_ lk) (end_ l) ->
  start l <= end_ lk + 1 -> start lk <= end_ l + 1 ->
  inserted lk (l :: ls) newl1 newl2 s ls' s'.
Proof.
  rewrite canonical_cons. intros ([[Hr Hm] Hty] & Hap & Hc) (Hc' & Hat & Hfr & Hs & Ha & Hb)
    Ho Ho' Ht' Hcase Hst He H1 H2.
  split_and!; [done | | | done | done | simpl length; simpl in Hb; lia].
  - intros o x. rewrite Hat. unfold lock_update. rewrite Ht'. simpl. unfold covers.
    rewrite Ho', Ho. destruct (Z.eqb_spec (owner lk) o) as [E|]; [| done]. rewrite !andb_true_l.
    destruct (Z.leb_spec (start lk) x), (Z.leb_spec x (end_ lk)), (Z.leb_spec (start lk') x),
      (Z.leb_spec x (end_ lk')), (Z.leb_spec (start l) x), (Z.leb_spec x (end_ l));
      cbn [andb]; try done; try lia;
      (destruct Hcase as [Hcase|Hcase]; [| subst lk'; lia]);
      (destruct (Z.eqb_spec (type lk) F_UNLCK); [congruence | by rewrite Hcase]).
  - intros l0 H0 H3. apply Forall_cons in H0 as [H4 H5]. apply Hfr; [done |].
    intros E. destruct H3 as [H3 H3']; [congruence |]. destruct H4 as [H4 H4']; [congruence |].
    rewrite Ht', Hst. split; [lia |]. intros Et. specialize (H3' Et).
    destruct Hcase as [Hcase|Hcase]; [| subst lk'; lia].
    assert (end_ l0 + 1 < start l) by (apply H4'; congruence). lia.
Qed.

(** The loop ends inside [l], of which [lk] leaves [l']. *)
Lemma inserted_cut lk l l' ls newl1 newl2 s ls' s' :
  canonical (l :: ls) -> inserted lk (l' :: ls) newl1 newl2 s ls' s' ->
  owner l = owner lk -> type lk <> type l -> owner l' = owner l -> type l' = type l ->
  start lk <= start l <= end_ lk -> start l' = end_ lk + 1 -> end_ l' = end_ l ->
  inserted lk (l :: ls) newl1 newl2 s ls' s'.
Proof.
  intros Hcan (Hc' & Hat & Hfr & Hs & Ha & Hb) Ho Ht Ho' Ht' Hst Hst' He'.
  split_and!; [done | | | done | done | done].
  - intros o x. rewrite Hat. unfold lock_update. simpl. unfold covers. rewrite Ho', Ho, Ht', Hst', He'.
    destruct (Z.eqb_spec (owner lk) o); [| done]. rewrite !andb_true_l.
    destruct (Z.leb_spec (start lk) x), (Z.leb_spec x (end_ lk)), (Z.leb_spec (end_ lk + 1) x),
      (Z.leb_spec (start l) x); cbn [andb]; try done; lia.
  - intros l0 H0 H1. apply Forall_cons in H0 as [H2 H3]. apply Hfr; [| done].
    constructor; [| done]. intros E. destruct H2 as [H2 H2']; [congruence |].
    destruct H1 as [H1 H1']; [congruence |]. rewrite Ht', Hst'. split; [lia |]. intros E2.
    specialize (H2' E2). lia.
Qed.

(** The loop splits [l] around [lk]. *)
Lemma inserted_split lk l1 l2 l ls newl1 s ls' s' :
  inserted lk (l1 :: l2 :: ls) newl1 false s ls' s' ->
  owner l = owner lk -> type lk <> type l ->
  owner l1 = owner l -> type l1 = type l -> start l1 = start l -> end_ l1 = start lk - 1 ->
  owner l2 = owner l -> type l2 = type l -> start l2 = end_ lk + 1 -> end_ l2 = end_ l ->
  start lk <= end_ lk -> start l <= start lk -> end_ lk <= end_ l ->
  inserted lk (l :: ls) newl1 true s ls' s'.
Proof.
  intros (Hc' & Hat & Hfr & Hs & Ha & Hb) Ho Ht Ho1 Ht1 Hs1 He1 Ho2 Ht2 Hs2 He2 Hr Hin1 Hin2.
  split_and!; [done | | | done | done | simpl in *; lia].
  - intros o x. rewrite Hat. unfold lock_update. simpl. unfold covers.
    rewrite Ho1, Ho2, Ho, Ht1, Ht2, Hs1, He1, Hs2, He2.
    destruct (Z.eqb_spec (owner lk) o); [| done]. rewrite !andb_true_l.
    destruct (Z.leb_spec (start lk) x), (Z.leb_spec x (end_ lk)), (Z.leb_spec (end_ lk + 1) x),
      (Z.leb_spec x (start lk - 1)), (Z.leb_spec (start l) x), (Z.leb_spec x (end_ l));
      cbn [andb]; try done; lia.
  - intros l0 H0 H1. apply Forall_cons in H0 as [H2 H3]. apply Hfr; [| done].
    apply Forall_cons_2; [| apply Forall_cons_2; [| done]]; intros E; (destruct H2 as [H2 H2']; [congruence |]);
      rewrite ?Ht1, ?Ht2; (split; [lia |]); intros E2; specialize (H2' E2); lia.
Qed.

(** [lk] lies inside [l], which has its type already. *)
Lemma inserted_inside lk l ls newl1 newl2 s :
  canonical (l :: ls) -> owner l = owner lk -> type lk = type l ->
  start l <= start lk -> end_ lk <= end_ l ->
  runs (_ ← free_if newl1; _ ← free_if newl2; mret (l :: ls)) s
    (inserted lk (l :: ls) newl1 newl2 s).
Proof.
  intros Hc Ho Ht Hs He. pose proof Hc as ([_ Hty] & _)%canonical_cons. unfold free_if. run.
  split_and!; [done | | done | done | done | simpl; destruct newl1, newl2; simpl; lia].
  intros o x. unfold lock_update. simpl. unfold covers. rewrite Ho, Ht.
  destruct (Z.eqb_spec (owner lk) o); [| done]. replace (type l =? F_UNLCK) with false by lia.
  destruct (Z.leb_spec (start lk) x), (Z.leb_spec x (end_ lk)), (Z.leb_spec (start l) x),
    (Z.leb_spec x (end_ l)); try done; lia.
Qed.

Lemma runs_i64 z (s : lock_state) (Q : Z -> lock_state -> Prop) :
  - 2 ^ 63 <= z < 2 ^ 63 -> Q z s -> runs (i64 z) s Q.
Proof.
  intros Hz HQ. unfold i64. apply runs_bind, runs_assert; [| done].
  unfold in_i64. apply in_range_spec. lia.
Qed.

(** The two changes of [lk] when it merges with [l]. *)
Lemma hull_fields l lk :
  let lk1 := if start l <? start lk then set_start (start l) lk else lk in
  let lk2 := if end_ lk1 <? end_ l then set_end (end_ l) lk1 else lk1 in
  owner lk2 = owner lk /\ type lk2 = type lk /\
  start lk2 = Z.min (start lk) (start l) /\ end_ lk2 = Z.max (end_ lk) (end_ l).
Proof.
  cbv zeta. destruct (Z.ltb_spec (start l) (start lk)); cbn [set_start end_];
    destruct (Z.ltb_spec (end_ lk) (end_ l)); cbn; split_and!; (done || lia).
Qed.

Lemma insert_loop_break fuel l ls lk newl1 newl2 :
  owner l = owner lk -> type lk <> type l -> start lk <= end_ lk < start l -> start l <= end_ l ->
  insert_loop (S fuel) (l :: ls) lk newl1 newl2 = insert_here (l :: ls) lk newl1 newl2.
Proof.
  intros Ho Ht Hlk Hl. cbn [insert_loop]. rewrite Ho, Z.eqb_refl. cbn [negb].
  replace (type lk =? type l) with false by lia. replace (end_ l <? start lk) with false by lia.
  replace (end_ lk <? start l) with true by lia. done.
Qed.

Lemma insert_loop_ok fuel ls lk newl1 newl2 s :
  (length ls + 1 < fuel)%nat -> canonical ls -> wf_range lk ->
  (newl1 = true \/ type lk = F_UNLCK) ->
  (newl2 = true \/ start lk = 0 /\ end_ lk = OFFSET_MAX) ->
  runs (insert_loop fuel ls lk newl1 newl2) s (inserted lk ls newl1 newl2 s).
Proof.
  revert ls lk s. induction fuel as [|fuel IH]; intros [|l ls] lk s Hf Hc Hlk H1 H2;
    [simpl in Hf; lia.. | |]; cbn [insert_loop].
  { by apply insert_here_ok. }
  simpl in Hf. pose proof Hc as (Hl & Hap & Hc')%canonical_cons. destruct Hl as [Hl Hty].
  unfold wf_range, OFFSET_MAX in Hl, Hlk, H2.
  assert (forall l', owner l' = owner l -> type l' = type l -> start l' = start l ->
    start l <= end_ l' <= end_ l -> apart l' lk ->
    (end_ l' < end_ l -> owner l = owner lk /\ start lk <= end_ l' + 1 /\ end_ l <= end_ lk) ->
    runs (rest ← insert_loop fuel ls lk newl1 newl2; mret (l' :: rest)) s
      (inserted lk (l :: ls) newl1 newl2 s)) as Hskip.
  { intros l' Ho Ht Hs He Ha Hcut. apply runs_bind. eapply runs_mono.
    - apply IH; try done. lia.
    - intros ls' s' Hi. apply runs_ret. by eapply inserted_skip. }
  assert (forall lk', owner l = owner lk -> owner lk' = owner lk -> type lk' = type lk ->
    type lk = type l \/ lk' = lk ->
    start lk' = Z.min (start lk) (start l) -> end_ lk' = Z.max (end_ lk) (end_ l) ->
    start l <= end_ lk + 1 -> start lk <= end_ l + 1 ->
    runs (_ ← delete_lock; insert_loop fuel ls lk' newl1 newl2) s
      (inserted lk (l :: ls) newl1 newl2 s)) as Hdel.
  { intros lk' Ho Ho' Ht' Hcase Hs He Hb1 Hb2. unfold delete_lock. run. eapply runs_mono.
    - apply IH; [lia | done | unfold wf_range, OFFSET_MAX; lia | by rewrite Ht' |].
      destruct H2; [by left | right; unfold OFFSET_MAX; lia].
    - intros ls' s' Hi. by eapply inserted_delete. }
  destruct (Z.eqb_spec (owner l) (owner lk)) as [Ho|Ho]; cbn [negb]; [| by apply Hskip; try done; lia].
  destruct (Z.eqb_spec (type lk) (type l)) as [Ht|Ht].
  - apply runs_bind, runs_i64; [lia |]. destruct (Z.ltb_spec (end_ l) (start lk - 1)).
    { apply Hskip; try done; try lia. intros _. lia. }
    apply runs_bind, runs_i64; [lia |]. destruct (Z.ltb_spec (end_ lk) (start l - 1)).
    { apply insert_here_ok; [done | done | done |]. constructor; [intros _; lia |].
      eapply apart_after; [done | lia | done]. }
    destruct (Z.leb_spec (start l) (start lk)), (Z.leb_spec (end_ lk) (end_ l)); cbn [andb];
      [by apply inserted_inside | ..];
      pose proof (hull_fields l lk) as (? & ? & ? & ?); apply Hdel; auto; lia.
  - destruct (Z.ltb_spec (end_ l) (start lk)); [apply Hskip; try done; try lia; intros _; lia |].
    destruct (Z.ltb_spec (end_ lk) (start l)).
    { apply insert_here_ok; [done | done | done |]. constructor; [intros _; lia |].
      eapply apart_after; [done | lia | done]. }
    destruct (Z.leb_spec (start lk) (start l)), (Z.leb_spec (end_ l) (end_ lk)); cbn [andb].
    + apply Hdel; auto; lia.
    + apply runs_bind, runs_i64; [lia |].
      eapply runs_mono; [apply insert_here_ok; [done | done | |] |].
      * apply canonical_cons. split_and!; [| | done].
        -- split; [unfold wf_range, OFFSET_MAX; simpl; lia | done].
        -- eapply (apart_end l); [done | done | simpl; lia | done].
      * constructor; [intros _; simpl; lia |]. eapply apart_after; [done | lia | done].
      * intros ls' s' Hi. eapply inserted_cut; try done; simpl; lia.
    + apply runs_bind, runs_i64; [lia |]. apply Hskip; simpl; try done; try lia. intros _. simpl. lia.
    + destruct H2 as [->|H2]; [| lia]. apply runs_bind, runs_assert; [done |].
      apply runs_bind, runs_i64; [lia |]. apply runs_bind, runs_i64; [lia |].
      destruct fuel as [|fuel]; [lia |].
      rewrite insert_loop_break by (done || simpl; lia). apply runs_bind.
      assert (canonical (set_start (end_ lk + 1) l :: ls)) as Hc2.
      { apply canonical_cons. split_and!; [| eapply (apart_end l); [done | done | simpl; lia | done] | done].
        split; [unfold wf_range, OFFSET_MAX; simpl; lia | done]. }
      eapply runs_mono; [apply insert_here_ok; [done | done | exact Hc2 |] |].
      * apply Forall_cons_2; [intros _; simpl; lia | eapply apart_after; [done | lia | done]].
      * intros ls' s' Hi. apply runs_ret.
        eapply (inserted_split _ (set_end (start lk - 1) l) (set_start (end_ lk + 1) l) l);
          simpl; try done; try lia.
        eapply inserted_skip; [| exact Hi | done..| | |]; simpl; try lia.
        -- apply canonical_cons. split_and!; [| | done].
           ++ split; [unfold wf_range, OFFSET_MAX; simpl; lia | done].
           ++ apply Forall_cons_2; [intros _; simpl; lia |].
              eapply (apart_end l); [done | done | simpl; lia | done].
        -- intros _. simpl. lia.
Qed.

(** * The operations *)

Definition no_memory (alloc_ok : nat -> bool) : Prop := exists n, alloc_ok n = false.

(** The blocks that are not on the list. *)
Definition spare (s : lock_state) : Z := blocks s - Z.of_nat (length (locks s)).

Section Operations.
Context (alloc_ok : nat -> bool).

Lemma runs_malloc_block s (Q : bool -> lock_state -> Prop) :
  (forall ok, ok = alloc_ok (allocs s) ->
     Q ok (LockState (locks s) (S (allocs s)) (blocks s + held ok))) ->
  runs (malloc alloc_ok) s Q.
Proof. intros HQ. unfold malloc. run. by apply HQ. Qed.

Lemma runs_insert_go lk newl1 newl2 s s0 (Q : Z -> lock_state -> Prop) :
  canonical (locks s) -> wf_range lk -> (newl1 = true \/ type lk = F_UNLCK) ->
  (newl2 = true \/ start lk = 0 /\ end_ lk = OFFSET_MAX) ->
  locks s = locks s0 -> blocks s = blocks s0 + held newl1 + held newl2 ->
  (forall s', canonical (locks s') ->
     (forall o x, lock_at (locks s') o x = lock_update lk (lock_at (locks s0)) o x) ->
     spare s' = spare s0 -> Q 0 s') ->
  runs (st ← get;
        ls ← insert_loop (insert_fuel (locks st)) (locks st) lk newl1 newl2;
        _ ← modify (set_locks ls); mret 0) s Q.
Proof.
  intros Hc Hlk H1 H2 Hs Hb HQ. apply runs_bind, runs_get. apply runs_bind. eapply runs_mono.
  - apply insert_loop_ok; [unfold insert_fuel; lia | done..].
  - intros ls' s' (Hc' & Hat & _ & _ & _ & Hbl). run.
    apply HQ; [done | intros o x; cbn [locks set_locks]; by rewrite Hat, Hs |].
    unfold spare. cbn [locks set_locks blocks]. rewrite <- Hs. lia.
Qed.

(** What setting [lk] does to a list of locks: the update of the map, or, for want
    of memory, nothing. *)
Definition lock_set (lk : lock) (s : lock_state) (r : Z) (s' : lock_state) : Prop :=
  spare s' = spare s /\
  (r = 0 /\ canonical (locks s') /\
     (forall o x, lock_at (locks s') o x = lock_update lk (lock_at (locks s)) o x) \/
   r = - ENOLCK /\ locks s' = locks s /\ no_memory alloc_ok).

Lemma runs_locks_insert lk s :
  canonical (locks s) -> wf_range lk -> runs (locks_insert alloc_ok lk) s (lock_set lk s).
Proof.
  intros Hc Hlk. unfold locks_insert, lock_set. cbv zeta.
  destruct (negb _ || negb _ || negb _) eqn:Ekind.
  - apply runs_bind, runs_malloc_block. intros ok1 E1.
    apply runs_bind, runs_malloc_block. intros ok2 E2. cbn in E2.
    destruct ok1, ok2; cbn [andb];
      [eapply (runs_insert_go _ _ _ _ s); [done | done | by left | by left | done | simpl; lia |];
       intros s' Hc' Hat Hsp; by auto | ..];
      unfold free_if; run; (split; [unfold spare, held; cbn; lia |]); right; split_and!; try done; eexists; eauto.
  - apply orb_false_iff in Ekind as [[Et Es]%orb_false_iff Ee].
    apply negb_false_iff, Z.eqb_eq in Et, Es, Ee.
    eapply (runs_insert_go _ _ _ _ s); [done | done | by right | by right | done | simpl; lia |].
    intros s' Hc' Hat Hsp. by auto.
Qed.

(** C28. File locks: on the sorted, disjoint and merged lists that it keeps,
    locks_insert is an update of the map from owners and bytes to lock types:
    the bytes of the new lock get its type, or none when it unlocks, every other
    byte and every other owner keep theirs, and the list is again sorted,
    disjoint and merged. It loses no block and, when it cannot allocate, changes
    nothing. *)
Theorem locks_insert_refines lk s :
  canonical (locks s) -> wf_range lk ->
  runs (locks_insert alloc_ok lk) s (fun r s' => spare s' = spare s /\
    (r = 0 /\ canonical (locks s') /\
       (forall o x, lock_at (locks s') o x = lock_update lk (lock_at (locks s)) o x) \/
     r = - ENOLCK /\ locks s' = locks s /\ no_memory alloc_ok)).
Proof. apply runs_locks_insert. Qed.

(** ** Requests *)

(** The last byte of a [struct flock]. *)
Definition flock_end (fl : flock) : Z :=
  if l_len fl =? 0 then OFFSET_MAX else l_start fl + l_len fl - 1.

Definition wf_flock (fl : flock) : Prop :=
  0 <= l_start fl <= OFFSET_MAX /\ 0 <= l_len fl /\ l_start fl + l_len fl <= OFFSET_MAX.

Definition flock_covers (x : Z) (fl : flock) : Prop := l_start fl <= x <= flock_end fl.

Lemma runs_flock_to_lock fl o s (Q : lock -> lock_state -> Prop) :
  wf_flock fl ->
  Q (Lock (l_type fl) (l_start fl) (flock_end fl) (l_pid fl) o) s ->
  runs (flock_to_lock fl o) s Q.
Proof.
  unfold wf_flock, OFFSET_MAX. intros Hwf HQ. unfold flock_to_lock, flock_end in *.
  apply runs_bind. destruct (l_len fl =? 0); [done |].
  apply runs_bind, runs_i64; [lia |]. apply runs_i64; [lia |]. done.
Qed.

Lemma flock_range fl o :
  wf_flock fl -> wf_range (Lock (l_type fl) (l_start fl) (flock_end fl) (l_pid fl) o).
Proof.
  unfold wf_flock, wf_range, flock_end, OFFSET_MAX. simpl. destruct (Z.eqb_spec (l_len fl) 0); lia.
Qed.

Lemma runs_lock_to_flock l fl s (Q : flock -> lock_state -> Prop) :
  wf_range l ->
  (forall fl', l_type fl' = type l -> l_start fl' = start l -> flock_end fl' = end_ l -> Q fl' s) ->
  runs (lock_to_flock l fl) s Q.
Proof.
  unfold wf_range, OFFSET_MAX. intros Hl HQ. unfold lock_to_flock, OFFSET_MAX. apply runs_bind.
  destruct (Z.eqb_spec (end_ l) 9223372036854775807).
  - apply runs_ret, runs_ret, HQ; try done.
  - apply runs_bind, runs_i64; [lia |]. apply runs_i64; [lia |]. apply runs_ret, HQ; try done.
    unfold flock_end. simpl. replace (_ =? 0) with false by lia. lia.
Qed.

(** The first lock in the way is a lock of another owner, on a byte of the range. *)
Lemma locks_conflict_some ls lk c :
  locks_conflict ls lk = Some c -> c ∈ ls /\ conflicts lk c = true.
Proof.
  induction ls as [|l ls IH]; simpl; [done |]. destruct (conflicts lk l) eqn:E.
  - intros [= <-]. split; [apply list_elem_of_here | done].
  - intros [? ?]%IH. split; [by apply list_elem_of_further | done].
Qed.

Lemma locks_conflict_none ls lk :
  locks_conflict ls lk = None -> forall l, l ∈ ls -> conflicts lk l = false.
Proof.
  induction ls as [|l ls IH]; simpl; intros H k Hk; [by apply not_elem_of_nil in Hk |].
  destruct (conflicts lk l) eqn:E; [done |]. apply elem_of_cons in Hk as [->|]; auto.
Qed.

Lemma lock_at_elem ls o x t :
  lock_at ls o x = Some t -> exists l, l ∈ ls /\ covers o x l = true /\ type l = t.
Proof.
  induction ls as [|l ls IH]; simpl; [done |]. destruct (covers o x l) eqn:E.
  - intros [= <-]. exists l. split_and!; [apply list_elem_of_here | done | done].
  - intros (k & ? & ? & ?)%IH. exists k. split_and!; [by apply list_elem_of_further | done | done].
Qed.

Lemma elem_lock_at ls l o x :
  canonical ls -> l ∈ ls -> covers o x l = true -> lock_at ls o x = Some (type l).
Proof.
  induction ls as [|k ls IH]; [by intros _ ?%not_elem_of_nil |].
  intros (_ & Hap & Hc)%canonical_cons Hin Hcov. simpl. destruct (covers o x k) eqn:E.
  - apply elem_of_cons in Hin as [->|Hin]; [done |]. exfalso. unfold covers in *.
    apply andb_true_iff in E as [[Eo Es]%andb_true_iff Ee].
    rewrite Forall_forall in Hap. destruct (Hap l Hin); lia.
  - apply elem_of_cons in Hin as [->|Hin]; [congruence | auto].
Qed.

(** Whether another owner than [o] has locked a byte of the range in a way that
    does not go with [fl]. *)
Definition blocked (m : Z -> Z -> option Z) (o : Z) (fl : flock) : Prop :=
  exists o' x t, o' <> o /\ flock_covers x fl /\ m o' x = Some t /\ (t = F_WRLCK \/ l_type fl = F_WRLCK).

Context (op_flush : option (option bytes -> Z)).
Context (op_lock : option (option bytes -> Z -> flock -> Z * flock)).

(** A query for a lock is answered with a lock of another owner, on a byte
    that both cover and held in full, exactly when some byte of the range is
    locked by another owner in a way that does not go with the request;
    otherwise with what the file system answers. *)
Theorem getlk_reports_conflicts path o fl s :
  canonical (locks s) -> wf_flock fl ->
  runs (fuse_lib_getlk op_lock path o fl) s (fun r s' => s' = s /\
    (blocked (lock_at (locks s)) o fl /\
       (exists fl' o' x, r = inr fl' /\ o' <> o /\ flock_covers x fl /\ flock_covers x fl' /\
          forall y, flock_covers y fl' -> lock_at (locks s) o' y = Some (l_type fl')) \/
     ~ blocked (lock_at (locks s)) o fl /\
       r = (let '(err, fl') := fuse_lock_common op_lock path fl F_GETLK in
            if err =? 0 then inr fl' else inl err))).
Proof.
  intros Hc Hwf. unfold fuse_lib_getlk. apply runs_bind, runs_flock_to_lock; [done |].
  pose proof (flock_range fl o Hwf) as Hlk. set (lk := Lock _ _ _ _ _) in *.
  apply runs_bind, runs_get. destruct (locks_conflict (locks s) lk) as [c|] eqn:E.
  - apply locks_conflict_some in E as [Hin Hcf].
    pose proof (proj1 Hc) as Hall. rewrite Forall_forall in Hall.
    destruct (Hall c Hin) as [Hr Hty]. unfold conflicts in Hcf. simpl in Hcf.
    apply runs_bind, runs_lock_to_flock; [done |]. intros fl' Et Es Ee. apply runs_ret.
    assert (forall y, covers (owner c) y c = true <-> start c <= y <= end_ c) as Hcov.
    { intros y. unfold covers. lia. }
    set (x := Z.max (start lk) (start c)). unfold wf_range in Hlk, Hr. simpl in Hlk.
    assert (flock_covers x fl) by (unfold flock_covers, x; simpl; lia).
    assert (flock_covers x fl') by (unfold flock_covers, x; rewrite Es, Ee; simpl; lia).
    assert (forall y, flock_covers y fl' -> lock_at (locks s) (owner c) y = Some (l_type fl')) as Hat.
    { intros y Hy. unfold flock_covers in Hy. rewrite Es, Ee in Hy. rewrite Et.
      apply elem_lock_at; [done | done | by apply Hcov]. }
    split; [done |]. left. split; [| exists fl', (owner c), x; split_and!; try done; lia].
    exists (owner c), x, (l_type fl'). split_and!; [lia | done | auto | rewrite Et; lia].
  - pose proof (locks_conflict_none _ _ E) as Hno. destruct (fuse_lock_common _ _ _ _) as [err fl'].
    apply runs_ret. split; [done |]. right. split; [| done].
    intros (o' & x & t & Ho & Hx & Hat & Ht).
    apply lock_at_elem in Hat as (l & Hin & Hcov & <-). specialize (Hno l Hin).
    unfold conflicts in Hno. unfold covers in Hcov. unfold flock_covers in Hx. simpl in Hno. lia.
Qed.

(** The request to unlock the whole file. *)
Definition unlock_all : flock := Flock F_UNLCK SEEK_SET 0 0 0.

(** When a file is closed, and the file system has locks, its owner loses
    all the locks it had on the file, other owners keep theirs, and no memory is
    needed; without locks in the file system nothing changes. *)
Theorem flush_releases_locks path o s err errlock :
  canonical (locks s) -> fuse_fs_flush op_flush path = err ->
  fuse_fs_lock op_lock path F_SETLK unlock_all = (errlock, unlock_all) ->
  runs (fuse_flush_common alloc_ok op_flush op_lock path o) s (fun r s' => spare s' = spare s /\
    if errlock =? - ENOSYS then r = err /\ s' = s
    else r = (if err =? - ENOSYS then 0 else err) /\ canonical (locks s') /\
      forall o' x, 0 <= x <= OFFSET_MAX ->
        lock_at (locks s') o' x = if o' =? o then None else lock_at (locks s) o' x).
Proof.
  intros Hc <- Hlock. unfold fuse_flush_common. fold unlock_all. rewrite Hlock.
  destruct (errlock =? - ENOSYS); cbn [negb]; [apply runs_ret; done |].
  apply runs_bind, runs_flock_to_lock; [unfold wf_flock, OFFSET_MAX; simpl; lia |].
  apply runs_bind. simpl. unfold flock_end. simpl. unfold locks_insert. simpl.
  eapply (runs_insert_go _ _ _ _ s); [done | | by right | by right | done | simpl; lia |].
  { unfold wf_range, OFFSET_MAX. simpl. lia. }
  intros s' Hc' Hat Hsp. apply runs_ret. split_and!; [done | done | done |].
  intros o' x Hx. rewrite Hat. unfold lock_update, covers. simpl.
  rewrite (Z.eqb_sym o o'). destruct (o' =? o); simpl; [| done].
  replace (0 <=? x) with true by lia. replace (x <=? OFFSET_MAX) with true by lia. done.
Qed.
End Operations.

(** * Locks on a file of two processes *)

Definition sample_locks : list lock :=
  [Lock F_WRLCK 0 9 100 1; Lock F_RDLCK 15 19 200 2; Lock F_RDLCK 20 29 100 1].
Definition sample_state : lock_state := LockState sample_locks 0 3.
Definition always (_ : nat) : bool := true.

Lemma sample_canonical : canonical (locks sample_state).
Proof.
  split; simpl; unfold sample_locks;
    repeat (apply Forall_cons_2 || apply Forall_nil_2 || apply SSorted_cons || apply SSorted_nil);
    unfold wf_lock, wf_range, apart, OFFSET_MAX, F_RDLCK, F_WRLCK, F_UNLCK; simpl; lia.
Qed.

(** A read lock of the first process over the end of its write lock. *)
Lemma locks_insert_refines_witness :
  runs (locks_insert always (Lock F_RDLCK 5 24 100 1)) sample_state (fun r s' =>
    spare s' = spare sample_state /\
    (r = 0 /\ canonical (locks s') /\
       (forall o x, lock_at (locks s') o x =
          lock_update (Lock F_RDLCK 5 24 100 1) (lock_at sample_locks) o x) \/
     r = - ENOLCK /\ locks s' = sample_locks /\ no_memory always)).
Proof.
  apply (locks_insert_refines always (Lock F_RDLCK 5 24 100 1) sample_state).
  - exact sample_canonical.
  - unfold wf_range, OFFSET_MAX. simpl. lia.
Defined.

Example sample_insert :
  locks_insert always (Lock F_RDLCK 5 24 100 1) sample_state =
  Ret (0, LockState [Lock F_WRLCK 0 4 100 1; Lock F_RDLCK 15 19 200 2; Lock F_RDLCK 5 29 100 1] 2 3).
Proof. reflexivity. Qed.

Lemma getlk_reports_conflicts_witness :
  let fl := Flock F_WRLCK SEEK_SET 25 0 0 in
  runs (fuse_lib_getlk None (Some (B "/f")) 2 fl) sample_state (fun r s' => s' = sample_state /\
    (blocked (lock_at sample_locks) 2 fl /\
       (exists fl' o' x, r = inr fl' /\ o' <> 2 /\ flock_covers x fl /\ flock_covers x fl' /\
          forall y, flock_covers y fl' -> lock_at sample_locks o' y = Some (l_type fl')) \/
     ~ blocked (lock_at sample_locks) 2 fl /\
       r = (let '(err, fl') := fuse_lock_common None (Some (B "/f")) fl F_GETLK in
            if err =? 0 then inr fl' else inl err))).
Proof.
  intros fl. apply (getlk_reports_conflicts None (Some (B "/f")) 2 fl sample_state).
  - exact sample_canonical.
  - unfold wf_flock, OFFSET_MAX. simpl. lia.
Defined.

Lemma flush_releases_locks_witness :
  let op := Some (fun _ _ fl => (0, fl)) in
  runs (fuse_flush_common always None op (Some (B "/f")) 1) sample_state (fun r s' =>
    spare s' = spare sample_state /\
    if 0 =? - ENOSYS then r = - ENOSYS /\ s' = sample_state
    else r = (if - ENOSYS =? - ENOSYS then 0 else - ENOSYS) /\ canonical (locks s') /\
      forall o' x, 0 <= x <= OFFSET_MAX ->
        lock_at (locks s') o' x = if o' =? 1 then None else lock_at sample_locks o' x).
Proof.
  intros op. apply (flush_releases_locks always None op (Some (B "/f")) 1 sample_state).
  - exact sample_canonical.
  - reflexivity.
  - reflexivity.
Defined.
