(* ===== verification/FuseDir.v ===== *)
(** other_fs/fuse-2.7.3: the contents of a directory on their way from the [readdir]
    of a file system, entry by entry through [fill_dir] (lib/fuse.c), as records in
    a buffer (lib/fuse_lowlevel.c), to the [parse_dirfile] of the kernel module
    (kernel/dir.c), page by page. *)

From S2P Require Import Prelude.
From S2P Require Import CString.

Definition FUSE_UNKNOWN_INO : Z := 4294967295.
Definition EIO : Z := 5.
Definition ENOMEM : Z := 12.
Definition ENOENT : Z := 2.
Definition ENOSYS : Z := 38.
Definition S_IFMT : Z := 61440.

(** * Records *)

(** [n] bytes of an unsigned integer, the lowest first. *)
Fixpoint le_bytes (n : nat) (z : Z) : bytes :=
  match n with
  | O => []
  | S n' => ascii_of_N (Z.to_N (z mod 256)) :: le_bytes n' (z / 256)
  end.

Fixpoint le_value (b : bytes) : Z :=
  match b with
  | [] => 0
  | c :: b' => code c + 256 * le_value b'
  end.

(** [offsetof(struct fuse_dirent, name)], after ino and off of 64 bits, namelen and
    type of 32. *)
Definition FUSE_NAME_OFFSET : Z := 24.

Definition FUSE_DIRENT_ALIGN (x : Z) : Z := Z.land (x + 8 - 1) (Z.lnot (8 - 1)).

Definition fuse_dirent_size (namelen : Z) : Z := FUSE_DIRENT_ALIGN (FUSE_NAME_OFFSET + namelen).

(** The fields of [struct stat] that a directory entry keeps. *)
Record dstat := Dstat { st_ino : Z; st_mode : Z }.

(** The record that [fuse_add_dirent] writes. *)
Definition fuse_add_dirent (name : bytes) (stbuf : dstat) (off : Z) : bytes :=
  let namelen := to_u32 (strlen name) in
  let entlen := to_u32 (FUSE_NAME_OFFSET + namelen) in
  let entsize := to_u32 (fuse_dirent_size namelen) in
  let padlen := to_u32 (entsize - entlen) in
  le_bytes 8 (st_ino stbuf) ++ le_bytes 8 off ++ le_bytes 4 namelen
  ++ le_bytes 4 (Z.shiftr (Z.land (st_mode stbuf) S_IFMT) 12)
  ++ take (Z.to_nat namelen) name ++ replicate (Z.to_nat padlen) "000"%char.

(** * The buffer of an open directory *)

(** [struct fuse_dh]: [contents] is the block of [size] bytes, of which [len] are
    used; [allocs] counts the calls of the allocator. *)
Record fuse_dh := Dh {
  contents : bytes; len : Z; size : Z; needlen : Z; filled : bool; error : Z; allocs : nat }.

Definition set_contents b n d := Dh b (len d) n (needlen d) (filled d) (error d) (allocs d).
Definition set_len n d := Dh (contents d) n (size d) (needlen d) (filled d) (error d) (allocs d).
Definition set_filled b d := Dh (contents d) (len d) (size d) (needlen d) b (error d) (allocs d).
Definition set_error z d := Dh (contents d) (len d) (size d) (needlen d) (filled d) z (allocs d).

(** What [fuse_lib_opendir] makes. *)
Definition empty_dh : fuse_dh := Dh [] 0 0 0 false 0 0.

(** The options use_ino and readdir_ino. *)
Record fuse_config := Config { use_ino : bool; readdir_ino : bool }.

Section Directory.
(** Whether the [n]-th allocation succeeds, and the bytes that it adds. *)
Context (alloc_ok : nat -> bool) (junk : nat -> nat -> ascii).
(** The options, and [lookup_node] in the directory that is read. *)
Context (conf : fuse_config) (node_of : bytes -> option Z).

(** [realloc(dh->contents, newsize)], for more than it has. *)
Definition realloc (newsize : Z) : M fuse_dh (option bytes) :=
  d ← get;
  _ ← modify (fun d => Dh (contents d) (len d) (size d) (needlen d) (filled d) (error d) (S (allocs d)));
  mret (if alloc_ok (allocs d)
        then Some (contents d ++ map (junk (allocs d)) (seq 0 (Z.to_nat newsize - length (contents d))))
        else None).

(** [while (newsize < minsize) newsize *= 2], unsigned. *)
Fixpoint double_until (fuel : nat) (newsize minsize : Z) : M fuse_dh Z :=
  match fuel with
  | O => hang
  | S fuel' =>
      if newsize <? minsize then double_until fuel' (to_u32 (newsize * 2)) minsize
      else mret newsize
  end.

(** A size of 32 bits is 0 after as many doublings. *)
Definition double_fuel : nat := 33.

Definition extend_contents (minsize : Z) : M fuse_dh Z :=
  d ← get;
  if size d <? minsize then
    newsize ← double_until double_fuel (if size d =? 0 then 1024 else size d) minsize;
    newptr ← realloc newsize;
    match newptr with
    | None => _ ← modify (set_error (- ENOMEM)); mret (-1)
    | Some b => _ ← modify (set_contents b newsize); mret 0
    end
  else mret 0.

(** A write into the block. *)
Definition write_at (pos : Z) (b : bytes) : M fuse_dh unit :=
  d ← get;
  _ ← assert_defined ((0 <=? pos) && (pos + Z.of_nat (length b) <=? Z.of_nat (length (contents d))));
  modify (set_contents (take (Z.to_nat pos) (contents d) ++ b
                        ++ drop (Z.to_nat pos + length b) (contents d)) (size d)).

(** With [buf] at an index of the block, or NULL. *)
Definition fuse_add_direntry (buf : option Z) (bufsize : Z) (name : bytes) (stbuf : dstat) (off : Z)
  : M fuse_dh Z :=
  let entsize := fuse_dirent_size (strlen name) in
  _ ← match buf with
      | Some pos =>
          if entsize <=? bufsize then write_at pos (fuse_add_dirent name stbuf off) else mret tt
      | None => mret tt
      end;
  mret entsize.

Definition fill_stat (name : bytes) (statp : option dstat) : dstat :=
  let stbuf := match statp with Some st => st | None => Dstat FUSE_UNKNOWN_INO 0 end in
  if use_ino conf then stbuf
  else
    Dstat (if readdir_ino conf then
             match node_of name with Some nodeid => nodeid | None => FUSE_UNKNOWN_INO end
           else FUSE_UNKNOWN_INO) (st_mode stbuf).

Definition fill_dir (name : bytes) (statp : option dstat) (off : Z) : M fuse_dh Z :=
  let stbuf := fill_stat name statp in
  if negb (off =? 0) then
    d ← get;
    r ← extend_contents (needlen d);
    if r =? -1 then mret 1
    else
      _ ← modify (set_filled false);
      d ← get;
      entsize ← fuse_add_direntry (Some (len d)) (to_u32 (needlen d - len d)) name stbuf off;
      let newlen := to_u64 (len d + entsize) in
      if needlen d <? newlen then mret 1
      else _ ← modify (set_len (to_u32 newlen)); mret 0
  else
    d ← get;
    entsize ← fuse_add_direntry None 0 name stbuf 0;
    let newlen := to_u64 (len d + entsize) in
    r ← extend_contents (to_u32 newlen);
    if r =? -1 then mret 1
    else
      d ← get;
      _ ← fuse_add_direntry (Some (len d)) (to_u32 (size d - len d)) name stbuf newlen;
      _ ← modify (set_len (to_u32 newlen));
      mret 0.

(** The filler for the file systems that have a [getdir]. *)
Definition fill_dir_old (name : bytes) (type ino : Z) : M fuse_dh Z :=
  res ← fill_dir name (Some (Dstat ino (to_u32 (Z.shiftl type 12)))) 0;
  mret (if res =? 0 then 0 else - ENOMEM).

(** The file system has a state of its own, [S]; it is given the directory handle [fh] that
    it chose, and the filler. *)
Context {S : Type}.
Record reading := Reading { dh : fuse_dh; below : S }.

Definition on_dh {A} (m : M fuse_dh A) : M reading A := fun r =>
  match m (dh r) with
  | Ret (x, d) => Ret (x, Reading d (below r))
  | Exit z => Exit z
  | UB => UB
  | Hang => Hang
  end.

Definition filler : Type := bytes -> option dstat -> Z -> M reading Z.
Definition filler_old : Type := bytes -> Z -> Z -> M reading Z.

Context (op_readdir : option (bytes -> filler -> Z -> Z -> M reading Z)).
Context (op_getdir : option (bytes -> filler_old -> M reading Z)).

Definition fuse_fs_readdir (path : bytes) (off fh : Z) : M reading Z :=
  match op_readdir, op_getdir with
  | Some op, _ => op path (fun name statp off => on_dh (fill_dir name statp off)) off fh
  | None, Some op => op path (fun name type ino => on_dh (fill_dir_old name type ino))
  | None, None => mret (- ENOSYS)
  end.

(** For the node at [path], NULL when it has no path. *)
Definition readdir_fill (path : option bytes) (size off fh : Z) : M reading Z :=
  match path with
  | None => mret (- ENOENT)
  | Some path =>
      _ ← on_dh (modify (fun d => Dh (contents d) 0 (FuseDir.size d) (to_u32 size) true 0 (allocs d)));
      err ← fuse_fs_readdir path off fh;
      d ← on_dh get;
      let err := if err =? 0 then error d else err in
      _ ← (if err =? 0 then mret tt else on_dh (modify (set_filled false)));
      mret err
  end.

(** The bytes of the block that a reply sends. *)
Definition read_at (pos n : Z) : M fuse_dh bytes :=
  if n =? 0 then mret []
  else
    d ← get;
    _ ← assert_defined ((0 <=? pos) && (pos + n <=? Z.of_nat (length (contents d))));
    mret (take (Z.to_nat n) (drop (Z.to_nat pos) (contents d))).

(** The reply: an error, or bytes. *)
Definition fuse_lib_readdir (path : option bytes) (size off fh : Z) : M reading (Z + bytes) :=
  _ ← (if off =? 0 then on_dh (modify (set_filled false)) else mret tt);
  d ← on_dh get;
  err ← (if filled d then mret 0 else readdir_fill path size off fh);
  if negb (err =? 0) then mret (inl err)
  else
    d ← on_dh get;
    b ← on_dh (if filled d then
                 if off <? len d then
                   read_at off (if len d <? to_u64 (off + size) then to_u64 (len d - off) else size)
                 else read_at off 0
               else read_at 0 (len d));
    mret (inr b).

(** * The kernel *)

Definition PAGE_SIZE : Z := 4096.
Definition FUSE_NAME_MAX : Z := 1024.

(** [struct fuse_dirent] at the start of [buf]. *)
Record fuse_dirent := Dirent { ino : Z; d_off : Z; namelen : Z; type : Z; d_name : bytes }.

Definition load_dirent (buf : bytes) : fuse_dirent :=
  let namelen := le_value (take 4 (drop 16 buf)) in
  Dirent (le_value (take 8 buf)) (le_value (take 8 (drop 8 buf))) namelen
         (le_value (take 4 (drop 20 buf))) (take (Z.to_nat namelen) (drop 24 buf)).

Definition FUSE_DIRENT_SIZE (d : fuse_dirent) : Z := FUSE_DIRENT_ALIGN (FUSE_NAME_OFFSET + namelen d).

Section Kernel.
(** The [filldir] of the caller: from its destination, a name, position, inode
    number and type, to the destination and whether it is over. *)
Context {D : Type} (filldir : D -> bytes -> Z -> Z -> Z -> D * bool).

(** The error, the position and the destination, from the bytes [buf] on. *)
Fixpoint parse_dirfile {T} (fuel : nat) (buf : bytes) (f_pos : Z) (dst : D) : M T (Z * Z * D) :=
  match fuel with
  | O => hang
  | Datatypes.S fuel' =>
      let nbytes := Z.of_nat (length buf) in
      if FUSE_NAME_OFFSET <=? nbytes then
        let dirent := load_dirent buf in
        let reclen := FUSE_DIRENT_SIZE dirent in
        if (namelen dirent =? 0) || (FUSE_NAME_MAX <? namelen dirent) then mret (- EIO, f_pos, dst)
        else if nbytes <? reclen then mret (0, f_pos, dst)
        else
          let '(dst, over) := filldir dst (d_name dirent) f_pos (ino dirent) (type dirent) in
          if over : bool then mret (0, f_pos, dst)
          else parse_dirfile fuel' (drop (Z.to_nat reclen) buf) (d_off dirent) dst
      else mret (0, f_pos, dst)
  end.

(** The system call, for a good inode and with memory for the page and the request:
    the request of a page from the position of the file, and its reply. A turn of
    the loop consumes a record. *)
Definition fuse_readdir (path : option bytes) (f_pos fh : Z) (dst : D) : M reading (Z * Z * D) :=
  r ← fuse_lib_readdir path PAGE_SIZE f_pos fh;
  match r with
  | inl err => mret (err, f_pos, dst)
  | inr page => parse_dirfile (Datatypes.S (length page)) page f_pos dst
  end.
End Kernel.
End Directory.
Arguments Reading {S}. Arguments dh {S}. Arguments below {S}.
