(* ===== verification/FuseDirProps.v ===== *)
(** What the kernel reads from a directory is what the file system put in. *)

From S2P Require Import Prelude.
From S2P Require Import CString.
From S2P Require Import FuseDir.

(** * Records *)

Lemma length_le_bytes n z : length (le_bytes n z) = n.
Proof. revert z. induction n as [|n IH]; intros z; cbn [le_bytes length]; [done | by rewrite IH]. Qed.

Lemma le_value_bytes n z : 0 <= z < 256 ^ Z.of_nat n -> le_value (le_bytes n z) = z.
Proof.
  revert z. induction n as [|n IH]; intros z Hz; [simpl in *; lia |].
  cbn [le_bytes le_value]. rewrite Nat2Z.inj_succ, Z.pow_succ_r in Hz by lia.
  pose proof (Z.mod_pos_bound z 256 ltac:(lia)). pose proof (Z.div_mod z 256 ltac:(lia)).
  rewrite IH.
  - unfold code. rewrite N_ascii_embedding by lia. lia.
  - split; [apply Z.div_pos; lia | apply Z.div_lt_upper_bound; lia].
Qed.

Lemma dirent_align x : FUSE_DIRENT_ALIGN x = 8 * ((x + 7) / 8).
Proof.
  unfold FUSE_DIRENT_ALIGN. replace (x + 8 - 1) with (x + 7) by lia.
  change (8 - 1) with (Z.ones 3). rewrite <- Z.ldiff_land, Z.ldiff_ones_r by lia.
  rewrite Z.shiftl_mul_pow2, Z.shiftr_div_pow2 by lia. change (2 ^ 3) with 8. lia.
Qed.

(** A name that the kernel accepts. *)
Definition good_name (name : bytes) : Prop := 1 <= strlen name <= FUSE_NAME_MAX.

Definition rec_size (name : bytes) : Z := fuse_dirent_size (strlen name).

Lemma rec_size_bounds name : 24 + strlen name <= rec_size name <= 24 + strlen name + 7.
Proof.
  unfold rec_size, fuse_dirent_size, FUSE_NAME_OFFSET. rewrite dirent_align.
  pose proof (Z.div_mod (24 + strlen name + 7) 8 ltac:(lia)).
  pose proof (Z.mod_pos_bound (24 + strlen name + 7) 8 ltac:(lia)). lia.
Qed.

Lemma u32_id z : 0 <= z < 2 ^ 32 -> to_u32 z = z.
Proof. intros Hz. unfold to_u32, to_unsigned. apply Z.mod_small. lia. Qed.

Definition dirent_type (st : dstat) : Z := Z.shiftr (Z.land (st_mode st) S_IFMT) 12.

Lemma dirent_type_range st : 0 <= dirent_type st < 256 ^ 4.
Proof.
  unfold dirent_type. rewrite Z.shiftr_land. change (Z.shiftr S_IFMT 12) with (Z.ones 4).
  rewrite Z.land_ones by lia. pose proof (Z.mod_pos_bound (Z.shiftr (st_mode st) 12) (2 ^ 4)). lia.
Qed.

(** The parts of a record. *)
Lemma dirent_parts name st off :
  strlen name < 2 ^ 31 ->
  fuse_add_dirent name st off =
    le_bytes 8 (st_ino st) ++ le_bytes 8 off ++ le_bytes 4 (strlen name) ++
    le_bytes 4 (dirent_type st) ++ name ++
    replicate (Z.to_nat (rec_size name - 24 - strlen name)) "000"%char.
Proof.
  intros Hn. pose proof (rec_size_bounds name). assert (0 <= strlen name) by (unfold strlen; lia).
  unfold fuse_add_dirent. cbv zeta. rewrite (u32_id (strlen name)) by lia.
  fold (rec_size name). unfold FUSE_NAME_OFFSET. rewrite !(u32_id (24 + strlen name)) by lia.
  rewrite (u32_id (rec_size name)) by lia. rewrite u32_id by lia.
  rewrite take_ge by (unfold strlen; lia). 
  by replace (rec_size name - (24 + strlen name)) with (rec_size name - 24 - strlen name) by lia.
Qed.

Lemma good_short name : good_name name -> strlen name < 2 ^ 31.
Proof. unfold good_name, FUSE_NAME_MAX. lia. Qed.

Lemma length_dirent name st off :
  strlen name < 2 ^ 31 -> Z.of_nat (length (fuse_add_dirent name st off)) = rec_size name.
Proof.
  intros Hn. rewrite dirent_parts by done. pose proof (rec_size_bounds name).
  rewrite !length_app, !length_le_bytes, length_replicate. unfold strlen in *. lia.
Qed.

Lemma load_add_dirent name st off rest :
  good_name name -> 0 <= st_ino st < 2 ^ 64 -> 0 <= off < 2 ^ 64 ->
  load_dirent (fuse_add_dirent name st off ++ rest) =
    Dirent (st_ino st) off (strlen name) (dirent_type st) name.
Proof.
  intros Hn Hi Ho. rewrite dirent_parts by by apply good_short. rewrite <- !app_assoc.
  pose proof (dirent_type_range st).
  assert (0 <= strlen name < 256 ^ 4) by (unfold good_name, FUSE_NAME_MAX in Hn; lia).
  unfold load_dirent.
  set (pad := replicate _ _ ++ rest).
  assert (forall z k, take 4 (le_bytes 4 z ++ k) = le_bytes 4 z) as H4 by done.
  assert (forall z k, take 8 (le_bytes 8 z ++ k) = le_bytes 8 z) as H8 by done.
  assert (forall i o k, drop 16 (le_bytes 8 i ++ le_bytes 8 o ++ k) = k) as D16 by done.
  assert (forall i o n k, drop 20 (le_bytes 8 i ++ le_bytes 8 o ++ le_bytes 4 n ++ k) = k) as D20
    by done.
  assert (forall i o n t k,
    drop 24 (le_bytes 8 i ++ le_bytes 8 o ++ le_bytes 4 n ++ le_bytes 4 t ++ k) = k) as D24 by done.
  assert (forall i k, drop 8 (le_bytes 8 i ++ k) = k) as D8 by done.
  rewrite D16, D20, D24, D8, !H8, !H4, !le_value_bytes by (simpl; lia).
  f_equal. unfold strlen. rewrite Nat2Z.id. apply take_app_length.
Qed.

(** * Entries, records and listings *)

(** An entry as the file system hands it to the filler. *)
Abbreviation item := (bytes * option dstat)%type.

(** What a reader of the directory gets: name, position, inode number, type. *)
Definition dent : Type := bytes * Z * Z * Z.

Definition total (items : list item) : Z := foldr (fun it n => rec_size (fst it) + n) 0 items.

Section Listing.
Context (conf : fuse_config) (node_of : bytes -> option Z).

Definition stored (it : item) : dstat := fill_stat conf node_of (fst it) (snd it).

(** A name that the kernel accepts and an inode number of 64 bits. *)
Definition good_item (it : item) : Prop :=
  good_name (fst it) /\ 0 <= st_ino (stored it) < 2 ^ 64.

(** The records of [items] from the position [off] on, each with the position of
    the next one. *)
Fixpoint records (off : Z) (items : list item) : bytes :=
  match items with
  | [] => []
  | it :: items' =>
      let off' := off + rec_size (fst it) in
      fuse_add_dirent (fst it) (stored it) off' ++ records off' items'
  end.

Fixpoint listing (off : Z) (items : list item) : list dent :=
  match items with
  | [] => []
  | it :: items' =>
      (fst it, off, st_ino (stored it), dirent_type (stored it))
      :: listing (off + rec_size (fst it)) items'
  end.

Lemma total_nonneg items : 0 <= total items.
Proof.
  induction items as [|it items IH]; simpl; [lia |]. pose proof (rec_size_bounds (fst it)).
  unfold strlen in *. lia.
Qed.

Lemma total_app l l' : total (l ++ l') = total l + total l'.
Proof. induction l; simpl; lia. Qed.

Lemma records_app off l l' : records off (l ++ l') = records off l ++ records (off + total l) l'.
Proof.
  revert off. induction l as [|it l IH]; intros off.
  { change (total []) with 0. by rewrite Z.add_0_r. }
  change (total (it :: l)) with (rec_size (fst it) + total l). rewrite (Z.add_assoc off).
  cbn [app records]. by rewrite IH, <- app_assoc.
Qed.

Lemma listing_app off l l' : listing off (l ++ l') = listing off l ++ listing (off + total l) l'.
Proof.
  revert off. induction l as [|it l IH]; intros off.
  { change (total []) with 0. by rewrite Z.add_0_r. }
  change (total (it :: l)) with (rec_size (fst it) + total l). rewrite (Z.add_assoc off).
  cbn [app listing]. by rewrite IH.
Qed.

Lemma length_records off items :
  Forall good_item items -> Z.of_nat (length (records off items)) = total items.
Proof.
  intros H. revert off. induction H as [|it items [Hn _] _ IH]; intros off; [done |].
  change (total (it :: items)) with (rec_size (fst it) + total items). cbn [records].
  rewrite length_app, Nat2Z.inj_add, IH. by rewrite length_dirent by by apply good_short.
Qed.
End Listing.

(** * The buffer *)

(** 1024 doubled a number of times. *)
Definition wf_size (n : Z) : Prop := n = 0 \/ exists j, 0 <= j <= 21 /\ n = 1024 * 2 ^ j.

Definition dh_wf (d : fuse_dh) : Prop :=
  Z.of_nat (length (contents d)) = size d /\ wf_size (size d) /\ 0 <= len d <= size d.

(** The bytes in use. *)
Definition used (d : fuse_dh) : bytes := take (Z.to_nat (len d)) (contents d).

Lemma length_used d : dh_wf d -> Z.of_nat (length (used d)) = len d.
Proof. intros (H1 & _ & H2). unfold used. rewrite length_take. lia. Qed.

Lemma runs_double k j fuel minsize d (Q : Z -> fuse_dh -> Prop) :
  0 <= j -> j + Z.of_nat k = 21 -> (k < fuel)%nat -> minsize <= 2 ^ 31 ->
  (forall n, minsize <= n -> 1024 * 2 ^ j <= n -> wf_size n -> Q n d) ->
  runs (double_until fuel (1024 * 2 ^ j) minsize) d Q.
Proof.
  intros Hj. revert j Hj fuel. induction k as [|k IH]; intros j Hj fuel Hk Hf Hm HQ;
    (destruct fuel as [|fuel]; [lia |]); cbn [double_until].
  - assert (j = 21) as -> by lia. replace (_ <? minsize) with false by lia.
    apply runs_ret, HQ; [lia | lia | right; exists 21; lia].
  - pose proof (Z.pow_le_mono_r 2 (j + 1) 21 ltac:(lia) ltac:(lia)).
    rewrite Z.pow_add_r in * by lia. destruct (Z.ltb_spec (1024 * 2 ^ j) minsize).
    + rewrite u32_id by lia. replace (1024 * 2 ^ j * 2) with (1024 * 2 ^ (j + 1))
        by (rewrite Z.pow_add_r by lia; lia).
      apply IH; [lia | lia | lia | done |]. intros n H1 H2. apply HQ; [done |].
      rewrite Z.pow_add_r in H2 by lia. lia.
    + apply runs_ret, HQ; [lia | lia | right; exists j; lia].
Qed.

Section Buffer.
Context {alloc_ok : nat -> bool} {junk : nat -> nat -> ascii}.
Context {conf : fuse_config} {node_of : bytes -> option Z}.

(** Not all allocations succeed. *)
Definition out_of_memory : Prop := exists n, alloc_ok n = false.

Lemma runs_extend_contents d minsize (Q : Z -> fuse_dh -> Prop) :
  dh_wf d -> 0 <= minsize <= 2 ^ 31 ->
  (forall d', dh_wf d' -> minsize <= size d' -> len d' = len d -> used d' = used d ->
     filled d' = filled d -> error d' = error d -> needlen d' = needlen d -> Q 0 d') ->
  (out_of_memory -> forall d', dh_wf d' -> len d' = len d -> needlen d' = needlen d -> Q (-1) d') ->
  runs (extend_contents alloc_ok junk minsize) d Q.
Proof.
  intros (Hlen & Hsz & Hl) Hm HQ HQ1. unfold extend_contents. apply runs_bind, runs_get.
  destruct (Z.ltb_spec (size d) minsize) as [Hlt|]; [| by apply runs_ret, HQ].
  assert (exists j, 0 <= j <= 21 /\ size d <= 1024 * 2 ^ j /\
    (if size d =? 0 then 1024 else size d) = 1024 * 2 ^ j) as (j & Hj & Hold & ->).
  { destruct (Z.eqb_spec (size d) 0); [exists 0; lia |].
    destruct Hsz as [|(j & ? & ?)]; [lia | exists j; lia]. }
  apply runs_bind. eapply (runs_double (Z.to_nat (21 - j)) j); [lia | lia | unfold double_fuel; lia | lia |].
  intros n Hn1 Hn2 Hn3. unfold realloc. run.
  destruct (alloc_ok (allocs d)) eqn:Hok; run; [| apply HQ1; [by eexists | done..]].
  assert (Z.of_nat (length (contents d ++ map (junk (allocs d))
    (seq 0 (Z.to_nat n - length (contents d))))) = n) as Hn
    by (rewrite length_app, length_map, length_seq; lia).
  apply HQ; try done.
  - unfold dh_wf. cbn [contents size len set_contents]. split_and!; [done | done | lia | lia].
  - unfold used. cbn [contents len set_contents]. by rewrite take_app_le by lia.
Qed.

Lemma runs_write_at d pos b (Q : unit -> fuse_dh -> Prop) :
  0 <= pos -> pos + Z.of_nat (length b) <= Z.of_nat (length (contents d)) ->
  Q tt (set_contents (take (Z.to_nat pos) (contents d) ++ b
                      ++ drop (Z.to_nat pos + length b) (contents d)) (size d) d) ->
  runs (write_at pos b) d Q.
Proof.
  intros H1 H2 HQ. unfold write_at. apply runs_bind, runs_get. apply runs_bind, runs_assert; [lia |].
  by apply runs_modify.
Qed.

Lemma wf_size_max n : wf_size n -> n <= 2 ^ 31.
Proof.
  intros [->|(j & ? & ->)]; [lia |]. pose proof (Z.pow_le_mono_r 2 j 21 ltac:(lia) ltac:(lia)). lia.
Qed.

Lemma dh_wf_write d b :
  dh_wf d -> len d + Z.of_nat (length b) <= size d ->
  dh_wf (set_contents (take (Z.to_nat (len d)) (contents d) ++ b ++ drop (Z.to_nat (len d) + length b) (contents d))
           (size d) d).
Proof.
  intros (Hc & Hs & Hl) Hb. split_and!; [| done | apply Hl..]. cbn [contents size set_contents].
  rewrite !length_app, length_take, length_drop. lia.
Qed.

Lemma runs_fill_dir d name st (Q : Z -> fuse_dh -> Prop) :
  dh_wf d -> len d + rec_size name <= 2 ^ 31 ->
  (forall d', dh_wf d' ->
     used d' = used d ++ fuse_add_dirent name (fill_stat conf node_of name st) (len d + rec_size name) ->
     len d' = len d + rec_size name -> filled d' = filled d -> error d' = error d ->
     needlen d' = needlen d -> Q 0 d') ->
  (out_of_memory -> forall d', dh_wf d' -> len d' = len d -> needlen d' = needlen d -> Q 1 d') ->
  runs (fill_dir alloc_ok junk conf node_of name st 0) d Q.
Proof.
  intros Hd Hlen HQ HQ1. pose proof Hd as (_ & _ & Hl). pose proof (rec_size_bounds name).
  assert (0 <= strlen name) by (unfold strlen; lia).
  unfold fill_dir. cbn [negb Z.eqb]. set (stbuf := fill_stat _ _ _ _).
  apply runs_bind, runs_get. apply runs_bind. unfold fuse_add_direntry at 1.
  apply runs_bind, runs_ret, runs_ret. fold (rec_size name).
  assert (to_u64 (len d + rec_size name) = len d + rec_size name) as -> by (apply Z.mod_small; lia).
  rewrite !u32_id by lia. apply runs_bind, runs_extend_contents; [done | lia | |].
  2:{ intros Hm d1 Hd1 Hl1 Hn1. change (-1 =? -1) with true. cbv iota. by apply runs_ret, HQ1. }
  intros d1 Hd1 Hm Hlen1 Hu Hf He Hn1. change (0 =? -1) with false. cbv iota.
  pose proof Hd1 as (Hc1 & Hs1 & Hl1). pose proof (wf_size_max _ Hs1).
  apply runs_bind, runs_get. apply runs_bind. unfold fuse_add_direntry. fold (rec_size name).
  rewrite u32_id by lia. replace (rec_size name <=? size d1 - len d1) with true by lia.
  pose proof (length_dirent name stbuf (len d + rec_size name) ltac:(lia)) as Hdl.
  apply runs_bind, runs_write_at; [lia | lia |]. apply runs_ret. apply runs_bind, runs_modify.
  apply runs_ret. set (rec := fuse_add_dirent _ _ _) in *.
  pose proof (dh_wf_write d1 rec Hd1 ltac:(lia)) as (Hc2 & Hs2 & _).
  apply HQ; try done.
  - split_and!; [exact Hc2 | done | cbn; lia | cbn; lia].
  - unfold used. cbn [contents len set_contents set_len]. rewrite app_assoc, take_app_length'.
    + unfold used in Hu at 1. by rewrite Hu.
    + rewrite length_app, length_take. lia.
Qed.

(** An entry with an offset of its own: it is stored if the buffer asked for has room. *)
Lemma runs_fill_dir_off d name st off (Q : Z -> fuse_dh -> Prop) :
  dh_wf d -> off <> 0 -> len d <= needlen d <= 2 ^ 31 -> rec_size name <= 2 ^ 31 ->
  (forall r d', dh_wf d' -> len d <= len d' <= needlen d' -> needlen d' = needlen d -> Q r d') ->
  runs (fill_dir alloc_ok junk conf node_of name st off) d Q.
Proof.
  intros Hd Hoff Hlen Hrec HQ. pose proof Hd as (_ & _ & Hl). pose proof (rec_size_bounds name).
  assert (0 <= strlen name) by (unfold strlen; lia).
  unfold fill_dir. replace (off =? 0) with false by lia. cbn [negb]. set (stbuf := fill_stat _ _ _ _).
  apply runs_bind, runs_get, runs_bind, runs_extend_contents; [done | lia | |].
  2:{ intros _ d1 Hd1 Hl1 Hn1. change (-1 =? -1) with true. cbv iota. apply runs_ret, HQ; [done | lia | done]. }
  intros d1 Hd1 Hm Hlen1 Hu Hf He Hn1. change (0 =? -1) with false. cbv iota.
  apply runs_bind, runs_modify, runs_bind, runs_get. cbn [len needlen set_filled].
  set (d2 := set_filled false d1). assert (dh_wf d2) as Hd2 by exact Hd1.
  rewrite (u32_id (needlen d1 - len d1)) by lia.
  apply runs_bind. unfold fuse_add_direntry. fold (rec_size name). apply runs_bind.
  pose proof (length_dirent name stbuf off ltac:(lia)) as Hdl.
  assert (to_u64 (len d1 + rec_size name) = len d1 + rec_size name) as Hu64 by (apply Z.mod_small; lia).
  destruct (Z.leb_spec (rec_size name) (needlen d1 - len d1)).
  - pose proof (dh_wf_write d2 (fuse_add_dirent name stbuf off) Hd2) as Hwf. unfold d2 in Hwf. cbn [len size contents set_filled] in Hwf.
    destruct Hwf as (Hc3 & Hs3 & Hl3); [lia |]. pose proof Hd1 as (Hc1 & _ & Hl1).
    unfold d2. apply runs_write_at; cbn [len contents set_filled]; [lia | lia |]. apply runs_ret. cbv zeta. rewrite Hu64.
    replace (needlen d1 <? len d1 + rec_size name) with false by lia.
    apply runs_bind, runs_modify, runs_ret. rewrite u32_id by lia. apply HQ; [| cbn; lia | done].
    split_and!; [exact Hc3 | exact Hs3 | cbn; lia | cbn; lia].
  - apply runs_ret, runs_ret. cbv zeta. rewrite Hu64.
    replace (needlen d1 <? len d1 + rec_size name) with true by lia. apply runs_ret, HQ; [done | cbn; lia | done].
Qed.

Context {S : Type}.
Abbreviation reading := (FuseDir.reading (S := S)).
Abbreviation filler := (FuseDir.filler (S := S)).

Lemma runs_on_dh {A} (m : M fuse_dh A) d s (Q : A -> reading -> Prop) :
  runs m d (fun x d => Q x (Reading d s)) -> runs (on_dh m) (Reading d s) Q.
Proof. unfold runs, on_dh. cbn [dh below]. by destruct (m d) as [[x d']| | |]. Qed.

Abbreviation the_filler := (fun name statp off => on_dh (S := S) (fill_dir alloc_ok junk conf node_of name statp off)).

(** A [readdir] that puts the entries [items] into the directory at [path], from any state
    of the file system. *)
Definition lists (op : bytes -> filler -> Z -> Z -> M reading Z) (path : bytes) (items : list item) : Prop :=
  forall d s fh, dh_wf d -> len d = 0 ->
    runs (op path the_filler 0 fh) (Reading d s) (fun r r' =>
      r = 0 /\ dh_wf (dh r') /\ used (dh r') = records conf node_of 0 items /\ filled (dh r') = filled d /\
      error (dh r') = error d).

(** One that hands over the entries one by one, until the filler refuses. *)
Fixpoint fill_all (items : list item) (f : filler) : M reading Z :=
  match items with
  | [] => mret 0
  | it :: items' =>
      full ← f (fst it) (snd it) 0;
      if full =? 0 then fill_all items' f else mret 0
  end.

Hypothesis memory : forall n, alloc_ok n = true.

Lemma has_memory : ~ out_of_memory.
Proof. intros [n Hn]. by rewrite memory in Hn. Qed.

Lemma runs_fill_all items d s :
  Forall (good_item conf node_of) items -> dh_wf d -> len d + total items <= 2 ^ 31 ->
  runs (fill_all items the_filler) (Reading d s) (fun r r' =>
    r = 0 /\ dh_wf (dh r') /\ used (dh r') = used d ++ records conf node_of (len d) items /\
    filled (dh r') = filled d /\ error (dh r') = error d).
Proof.
  intros H. revert d. induction H as [|it items [Hn _] _ IH]; intros d Hd Hlen;
    cbn [fill_all records].
  { apply runs_ret. by rewrite app_nil_r. }
  change (total (it :: items)) with (rec_size (fst it) + total items) in Hlen.
  pose proof (total_nonneg items). apply runs_bind, runs_on_dh, runs_fill_dir; [done | lia | | by intros ?%has_memory].
  intros d1 Hd1 Hu1 Hl1 Hf1 He1 _. change (0 =? 0) with true. cbv iota.
  eapply runs_mono; [apply IH; [done | lia] |]. intros r r2 (Hr & Hd2 & Hu2 & Hf2 & He2). cbn [dh] in *.
  split_and!; [done | done | | congruence | congruence].
  rewrite Hu2, Hu1, Hl1, <- app_assoc. done.
Qed.

Lemma fill_all_lists items path :
  Forall (good_item conf node_of) items -> total items <= 2 ^ 31 ->
  lists (fun _ filler _ _ => fill_all items filler) path items.
Proof.
  intros Hi Ht d s fh Hd Hl. eapply runs_mono; [apply runs_fill_all; [done | done | lia] |].
  intros r d' (Hr & Hd' & Hu & Hf & He). split_and!; try done.
  rewrite Hu, Hl. unfold used. by rewrite Hl.
Qed.

(** The directory has been read into the buffer. *)
Definition full (items : list item) (d : fuse_dh) : Prop :=
  dh_wf d /\ used d = records conf node_of 0 items /\ filled d = true.

Lemma runs_read_at d pos n (Q : bytes -> fuse_dh -> Prop) :
  dh_wf d -> 0 <= pos -> 0 <= n -> pos + n <= len d ->
  Q (take (Z.to_nat n) (drop (Z.to_nat pos) (used d))) d -> runs (read_at pos n) d Q.
Proof.
  intros (Hc & _ & Hl) Hp Hn Hle HQ. unfold read_at. destruct (Z.eqb_spec n 0) as [->|].
  { by apply runs_ret. }
  apply runs_bind, runs_get. apply runs_bind, runs_assert; [lia |]. apply runs_ret.
  unfold used in HQ. rewrite skipn_firstn_comm, take_take, Nat.min_l in HQ by lia. done.
Qed.

Context {op : bytes -> filler -> Z -> Z -> M reading Z}.
Context {op_getdir : option (bytes -> FuseDir.filler_old (S := S) -> M reading Z)}.
Context {path : bytes} {items : list item}.
Hypothesis op_lists : lists op path items.
Hypothesis items_good : Forall (good_item conf node_of) items.
Hypothesis items_fit : total items <= 2 ^ 31.

Lemma runs_readdir_fill r size fh (Q : Z -> reading -> Prop) :
  dh_wf (dh r) -> (forall r', full items (dh r') -> Q 0 r') ->
  runs (readdir_fill alloc_ok junk conf node_of (Some op) op_getdir (Some path) size 0 fh) r Q.
Proof.
  destruct r as [d s]. cbn [dh]. intros (Hc & Hs & Hl) HQ. unfold readdir_fill. apply runs_bind, runs_on_dh, runs_modify. apply runs_bind.
  eapply runs_mono; [apply op_lists; [| done] |].
  { unfold dh_wf. cbn [contents FuseDir.size len]. split_and!; [done | done | lia | lia]. }
  intros r [d' s'] (-> & Hd' & Hu & Hf & He). apply runs_bind, runs_on_dh, runs_get. cbn in He. rewrite He.
  cbn. run. apply HQ. done.
Qed.

Lemma runs_fuse_lib_readdir r off fh (Q : Z + bytes -> reading -> Prop) :
  (off = 0 /\ dh_wf (dh r) \/ full items (dh r)) -> 0 <= off <= total items ->
  (forall r', full items (dh r') ->
     Q (inr (take 4096 (drop (Z.to_nat off) (records conf node_of 0 items)))) r') ->
  runs (fuse_lib_readdir alloc_ok junk conf node_of (Some op) op_getdir (Some path) PAGE_SIZE off fh)
    r Q.
Proof.
  intros Hd Hoff HQ. unfold fuse_lib_readdir. apply runs_bind.
  assert (forall r', full items (dh r') -> runs
    (if negb (0 =? 0) then mret (inl 0)
     else d ← on_dh get;
          b ← on_dh (if filled d then
                 if off <? len d then
                   read_at off (if len d <? to_u64 (off + PAGE_SIZE) then to_u64 (len d - off)
                                else PAGE_SIZE)
                 else read_at off 0
               else read_at 0 (len d));
          mret (inr b)) r' Q) as Hread.
  { intros r' Hfull. pose proof Hfull as (Hd' & Hu & Hf). destruct r' as [d' s']. cbn [dh] in *. cbn. apply runs_bind, runs_on_dh, runs_get.
    rewrite Hf. pose proof (length_used d' Hd') as Hlu. rewrite Hu, length_records in Hlu by done.
    unfold PAGE_SIZE. unfold to_u64, to_unsigned. rewrite !Z.mod_small by lia.
    apply runs_bind, runs_on_dh. specialize (HQ (Reading d' s') Hfull). cbn [dh] in HQ. rewrite <- Hu in HQ.
    assert (length (used d') = Z.to_nat (len d')) as Hlen by (pose proof (length_used d' Hd'); lia).
    destruct (Z.ltb_spec off (len d')).
    - destruct (Z.ltb_spec (len d') (off + 4096)).
      + apply runs_read_at; [done | lia | lia | lia |]. apply runs_ret.
        rewrite take_ge in HQ by (rewrite length_drop; lia).
        by rewrite take_ge by (rewrite length_drop; lia).
      + apply runs_read_at; [done | lia | lia | lia |]. by apply runs_ret.
    - unfold read_at. cbn. run. rewrite drop_ge in HQ by lia. done. }
  destruct r as [d s]. cbn [dh] in *. destruct Hd as [[-> Hd]|Hd].
  - apply runs_on_dh, runs_modify, runs_bind, runs_on_dh, runs_get, runs_bind.
    apply runs_readdir_fill; [done | exact Hread].
  - destruct (Z.eqb_spec off 0) as [->|].
    + apply runs_on_dh, runs_modify, runs_bind, runs_on_dh, runs_get, runs_bind.
      apply runs_readdir_fill; [apply Hd | exact Hread].
    + pose proof Hd as (_ & _ & Hf). apply runs_ret, runs_bind, runs_on_dh, runs_get, runs_bind. rewrite Hf.
      apply runs_ret. by apply Hread.
Qed.
End Buffer.

(** * The kernel *)

(** A destination with room for a number of entries. *)
Definition filldir_room (dst : nat * list dent) (name : bytes) (pos ino type : Z)
  : (nat * list dent) * bool :=
  match fst dst with
  | O => (dst, true)
  | S room => ((room, snd dst ++ [(name, pos, ino, type)]), false)
  end.

Lemma load_dirent_short n buf :
  (24 <= n)%nat -> namelen (load_dirent (take n buf)) = namelen (load_dirent buf).
Proof.
  intros Hn. unfold load_dirent. cbn [namelen]. rewrite !take_drop_commute, take_take.
  by replace (16 + 4)%nat with 20%nat by lia; rewrite Nat.min_l by lia.
Qed.

Lemma Forall_good_inv conf node_of it items :
  Forall (good_item conf node_of) (it :: items) ->
  good_name (fst it) /\ 0 <= st_ino (stored conf node_of it) < 2 ^ 64 /\
  Forall (good_item conf node_of) items.
Proof. by intros [[? ?] ?]%Forall_cons. Qed.

(** ** One record *)

Section Parse.
Context {conf : fuse_config} {node_of : bytes -> option Z} (it : item) (off : Z).
Hypothesis name_good : good_name (fst it).
Hypothesis ino_good : 0 <= st_ino (stored conf node_of it) < 2 ^ 64.
Hypothesis off_good : 0 <= off < 2 ^ 64.

Abbreviation rec := (fuse_add_dirent (fst it) (stored conf node_of it) off).

(** The page ends inside the record. *)
Lemma parse_short {T} fuel n f_pos dst (d : T) :
  Z.of_nat n < rec_size (fst it) ->
  parse_dirfile filldir_room (S fuel) (take n rec) f_pos dst d = Ret ((0, f_pos, dst), d).
Proof.
  intros Hn. pose proof (length_dirent (fst it) (stored conf node_of it) off (good_short _ name_good)) as Hlr.
  cbn [parse_dirfile]. unfold FUSE_NAME_OFFSET. rewrite length_take.
  destruct (Z.leb_spec 24 (Z.of_nat (n `min` length rec))) as [Hlong|]; [| done].
  assert (namelen (load_dirent (take n rec)) = strlen (fst it)) as Hnl.
  { rewrite load_dirent_short by lia. by rewrite <- (app_nil_r rec), load_add_dirent. }
  unfold FUSE_DIRENT_SIZE. rewrite Hnl.
  change (FUSE_DIRENT_ALIGN (FUSE_NAME_OFFSET + strlen (fst it))) with (rec_size (fst it)).
  destruct name_good as [Hn1 Hn2]. unfold FUSE_NAME_MAX in *.
  replace (strlen (fst it) =? 0) with false by lia.
  replace (1024 <? strlen (fst it)) with false by lia.
  by replace (Z.of_nat (n `min` length rec) <? rec_size (fst it)) with true by lia.
Qed.

(** The record is whole: it is passed on, if there is room. *)
Lemma parse_record {T} fuel rest f_pos room got (d : T) :
  parse_dirfile filldir_room (S fuel) (rec ++ rest) f_pos (room, got) d =
  match room with
  | O => Ret ((0, f_pos, (room, got)), d)
  | S room' =>
      parse_dirfile filldir_room fuel rest off (room',
        got ++ [(fst it, f_pos, st_ino (stored conf node_of it), dirent_type (stored conf node_of it))]) d
  end.
Proof.
  pose proof (length_dirent (fst it) (stored conf node_of it) off (good_short _ name_good)) as Hlr.
  pose proof (rec_size_bounds (fst it)). destruct name_good as [Hn1 Hn2]. unfold FUSE_NAME_MAX in *.
  cbn [parse_dirfile]. rewrite load_add_dirent by done.
  unfold FUSE_DIRENT_SIZE, FUSE_NAME_MAX. cbn [namelen d_name ino type d_off].
  change (FUSE_DIRENT_ALIGN (FUSE_NAME_OFFSET + strlen (fst it))) with (rec_size (fst it)).
  rewrite length_app. unfold FUSE_NAME_OFFSET. replace (24 <=? _) with true by lia.
  replace (strlen (fst it) =? 0) with false by lia.
  replace (1024 <? strlen (fst it)) with false by lia. cbn [orb].
  replace (Z.of_nat _ <? rec_size (fst it)) with false by lia.
  unfold filldir_room at 1. cbn [fst snd]. destruct room as [|room]; [done |].
  by rewrite drop_app_length' by lia.
Qed.
End Parse.

Lemma runs_parse_dirfile {T conf node_of} items n off room got fuel (d : T)
  (Q : Z * Z * (nat * list dent) -> T -> Prop) :
  let buf := take n (records conf node_of off items) in
  Forall (good_item conf node_of) items -> 0 <= off -> off + total items <= 2 ^ 31 ->
  (length buf < fuel)%nat ->
  (forall k, (k <= length items)%nat -> (k <= room)%nat ->
     (forall it items', items = it :: items' -> (0 < room)%nat ->
        rec_size (fst it) <= Z.of_nat n -> (0 < k)%nat) ->
     Q (0, off + total (take k items),
        ((room - k)%nat, got ++ listing conf node_of off (take k items))) d) ->
  runs (parse_dirfile filldir_room fuel buf off (room, got)) d Q.
Proof.
  intros buf. unfold buf. clear buf. revert n off room got fuel.
  induction items as [|it items IH]; intros n off room got fuel Hg Hoff Hfit Hf HQ.
  { cbn [records]. rewrite take_nil. destruct fuel as [|fuel]; [simpl in Hf; lia |]. cbn.
    apply runs_ret. specialize (HQ 0%nat ltac:(simpl; lia) ltac:(lia) ltac:(done)). cbn in HQ.
    by rewrite Z.add_0_r, app_nil_r, Nat.sub_0_r in HQ. }
  apply Forall_good_inv in Hg as (Hn & Hino & Hg).
  change (total (it :: items)) with (rec_size (fst it) + total items) in Hfit.
  pose proof (total_nonneg items). pose proof (rec_size_bounds (fst it)) as Hrs.
  pose proof Hn as [Hn1 _]. cbn [records] in *. set (off' := off + rec_size (fst it)) in *.
  pose proof (length_dirent (fst it) (stored conf node_of it) off' (good_short _ Hn)) as Hlr.
  destruct fuel as [|fuel]; [lia |].
  destruct (decide (rec_size (fst it) <= Z.of_nat n)) as [Hle|Hgt].
  2:{ rewrite take_app_le by lia. unfold runs at 1. rewrite parse_short by (done || lia).
      specialize (HQ 0%nat ltac:(simpl; lia) ltac:(lia)). cbn in HQ.
      rewrite Z.add_0_r, app_nil_r, Nat.sub_0_r in HQ. apply HQ. intros it' items' [= <- <-]. lia. }
  rewrite take_app_ge in * by lia. rewrite length_app in Hf.
  unfold runs at 1. rewrite parse_record by (done || lia). destruct room as [|room].
  { specialize (HQ 0%nat ltac:(simpl; lia) ltac:(lia)). cbn in HQ.
    rewrite Z.add_0_r, app_nil_r in HQ. apply HQ. lia. }
  apply IH; [done | lia | lia | lia |].
  intros k Hk1 Hk2 _. specialize (HQ (S k) ltac:(simpl; lia) ltac:(lia) ltac:(intros; lia)).
  cbn [take listing] in HQ.
  change (total (it :: take k items)) with (rec_size (fst it) + total (take k items)) in HQ.
  rewrite (Z.add_assoc off) in HQ. rewrite <- app_assoc. exact HQ.
Qed.

Section Reading.
Context (alloc_ok : nat -> bool) (junk : nat -> nat -> ascii).
Context (conf : fuse_config) (node_of : bytes -> option Z).
Context {S : Type}.
Abbreviation reading := (FuseDir.reading (S := S)).
Context (op : bytes -> filler (S := S) -> Z -> Z -> M reading Z).
Context (op_getdir : option (bytes -> filler_old (S := S) -> M reading Z)).
Context (path : bytes) (fh : Z).

(** A reader that calls the kernel with room for so many entries each time, up to
    an error. *)
Fixpoint getdents (rooms : list nat) (f_pos : Z) : M reading (Z * list dent) :=
  match rooms with
  | [] => mret (0, [])
  | room :: rooms' =>
      r ← fuse_readdir alloc_ok junk conf node_of (Some op) op_getdir filldir_room (Some path)
            f_pos fh (room, []);
      let '(err, f_pos', (_, got)) := r in
      if err =? 0 then
        r ← getdents rooms' f_pos';
        mret (fst r, got ++ snd r)
      else mret (err, got)
  end.

Context (items : list item).
Hypothesis op_lists : lists (alloc_ok := alloc_ok) (junk := junk) (conf := conf)
                            (node_of := node_of) op path items.
Hypothesis items_good : Forall (good_item conf node_of) items.
Hypothesis items_fit : total items <= 2 ^ 31.

Abbreviation full := (full (conf := conf) (node_of := node_of) items).

Lemma runs_fuse_readdir pre suf room r (Q : Z * Z * (nat * list dent) -> reading -> Prop) :
  items = pre ++ suf -> (pre = [] /\ dh_wf (dh r) \/ full (dh r)) -> (0 < room)%nat ->
  (forall k r', (k <= length suf)%nat -> (suf = [] \/ (0 < k)%nat) -> full (dh r') ->
     Q (0, total (pre ++ take k suf),
        ((room - k)%nat, listing conf node_of (total pre) (take k suf))) r') ->
  runs (fuse_readdir alloc_ok junk conf node_of (Some op) op_getdir filldir_room (Some path)
          (total pre) fh (room, [])) r Q.
Proof.
  intros Hitems Hd Hroom HQ. pose proof (total_nonneg pre). pose proof (total_nonneg suf).
  assert (total items = total pre + total suf) as Htot by (rewrite Hitems; apply total_app).
  pose proof items_good as Hg. rewrite Hitems in Hg. apply Forall_app in Hg as [Hg1 Hg2].
  unfold fuse_readdir. apply runs_bind.
  eapply (runs_fuse_lib_readdir (items := items)); [done.. | | lia |].
  { destruct Hd as [[-> Hd]|Hd]; [by left | by right]. }
  intros r' Hfull. rewrite Hitems, records_app, Z.add_0_l.
  assert (length (records conf node_of 0 pre) = Z.to_nat (total pre)) as Hpre
    by (pose proof (length_records conf node_of 0 pre Hg1); lia).
  rewrite drop_app_length' by done.
  apply runs_parse_dirfile; [done | lia | lia | lia |]. intros k Hk1 _ Hk2.
  rewrite <- total_app. cbn [app]. apply HQ; [done | | done].
  destruct suf as [|it suf]; [by left | right]. apply (Hk2 it suf); [done | done |].
  apply Forall_good_inv in Hg2 as [[_ Hn] _]. pose proof (rec_size_bounds (fst it)).
  unfold FUSE_NAME_MAX in Hn. lia.
Qed.

Lemma runs_getdents rooms pre suf r :
  items = pre ++ suf -> (pre = [] /\ dh_wf (dh r) \/ full (dh r)) -> Forall (fun room => (0 < room)%nat) rooms ->
  runs (getdents rooms (total pre)) r (fun r _ => exists k,
    r = (0, listing conf node_of (total pre) (take k suf)) /\ (length suf <= k \/ length rooms <= k)%nat).
Proof.
  intros Hitems Hd Hr. revert pre suf r Hitems Hd.
  induction Hr as [|room rooms Hroom _ IH]; intros pre suf r Hitems Hd; cbn [getdents].
  { apply runs_ret. exists 0%nat. split; [done | by right]. }
  apply runs_bind. eapply runs_fuse_readdir; [done | done | done |]. intros k d' Hk1 Hk2 Hfull.
  cbn [Z.eqb]. apply runs_bind. eapply runs_mono.
  { apply (IH (pre ++ take k suf) (drop k suf)); [| by right].
    by rewrite <- app_assoc, take_drop. }
  intros x r2 (j & -> & Hj). apply runs_ret. exists (k + j)%nat. cbn [fst snd]. split.
  - by rewrite <- take_take_drop, listing_app, total_app.
  - rewrite length_drop in Hj. cbn [length]. destruct Hk2 as [->|]; simpl in *; lia.
Qed.

End Reading.

(** C24. A directory survives its way to the kernel: the entries that a file
    system hands to fill_dir, packed into records, cut into pages and unpacked
    by parse_dirfile, are what a reader gets, each once, in order and with its
    position, however little room it offers each time. *)
Theorem readdir_round_trip {S} alloc_ok junk conf node_of op_getdir path fh items rooms d (s : S) :
  (forall n, alloc_ok n = true) -> Forall (good_item conf node_of) items ->
  total items <= 2 ^ 31 -> dh_wf d ->
  Forall (fun room => (0 < room)%nat) rooms -> (length items <= length rooms)%nat ->
  runs (getdents alloc_ok junk conf node_of (fun _ filler _ _ => fill_all items filler) op_getdir
          path fh rooms 0) (Reading d s) (fun r _ => r = (0, listing conf node_of 0 items)).
Proof.
  intros Hmem Hg Ht Hd Hr Hlen. eapply runs_mono.
  - apply (runs_getdents _ _ _ _ _ _ _ _ items) with (pre := []) (suf := items);
      [by apply fill_all_lists | done | done | done | by left | done].
  - intros r d' (k & -> & Hk). by rewrite take_ge by lia.
Qed.

(** ** A directory of three entries, read two at a time *)

Definition sample_items : list item :=
  [(B ".", None); (B "..", None); (B "a file", Some (Dstat 7 33188))].

Definition default_config : fuse_config := Config false false.

Lemma readdir_round_trip_witness :
  runs (getdents (fun _ => true) (fun _ _ => "x"%char) default_config (fun _ => None)
          (fun _ filler _ _ => fill_all sample_items filler) None (B "/") 0 [2; 2; 2]%nat 0) (Reading empty_dh tt)
    (fun r _ => r = (0, listing default_config (fun _ => None) 0 sample_items)).
Proof.
  apply readdir_round_trip.
  - done.
  - repeat (apply Forall_cons_2 || apply Forall_nil_2); done.
  - vm_compute. discriminate.
  - split_and!; [done | by left | done | done].
  - repeat (apply Forall_cons_2 || apply Forall_nil_2); lia.
  - simpl. lia.
Defined.

Example sample_listing :
  listing default_config (fun _ => None) 0 sample_items =
    [(B ".", 0, FUSE_UNKNOWN_INO, 0); (B "..", 32, FUSE_UNKNOWN_INO, 0);
     (B "a file", 64, FUSE_UNKNOWN_INO, 8)].
Proof. reflexivity. Qed.

(** * Directories of more than 2 GiB *)

(** The sizes that the loop of [extend_contents] tries, when they stay below
    [minsize]. *)
Lemma double_until_hangs fuel n minsize d :
  (n = 0 \/ exists j, 0 <= j <= 21 /\ n = 1024 * 2 ^ j) -> 2 ^ 31 < minsize ->
  double_until fuel n minsize d = Hang.
Proof.
  intros Hn Hm. revert n Hn. induction fuel as [|fuel IH]; intros n Hn; [done |].
  cbn [double_until]. destruct Hn as [->|(j & Hj & ->)].
  - replace (0 <? minsize) with true by lia. apply IH. by left.
  - pose proof (Z.pow_le_mono_r 2 j 21 ltac:(lia) ltac:(lia)).
    replace (1024 * 2 ^ j <? minsize) with true by lia. apply IH.
    destruct (decide (j = 21)) as [->|]; [by left | right]. exists (j + 1). split; [lia |].
    pose proof (Z.pow_le_mono_r 2 (j + 1) 21 ltac:(lia) ltac:(lia)).
    rewrite Z.pow_add_r in * by lia. rewrite u32_id by lia. lia.
Qed.

(** When a directory needs a buffer of more than 2 GiB, the loop of
    extend_contents that doubles an unsigned size never ends: the size becomes 0
    and stays 0. *)
Theorem extend_contents_spins fuel d minsize :
  dh_wf d -> 2 ^ 31 < minsize < 2 ^ 32 ->
  double_until fuel (if size d =? 0 then 1024 else size d) minsize d = Hang.
Proof.
  intros (_ & Hs & _) Hm. apply double_until_hangs; [| lia].
  destruct (Z.eqb_spec (size d) 0); [right; by exists 0 |].
  destruct Hs as [|Hs]; [done | by right].
Qed.

Lemma extend_contents_spins_witness :
  double_until 1000 (if size empty_dh =? 0 then 1024 else size empty_dh) (2 ^ 31 + 1) empty_dh = Hang.
Proof.
  apply extend_contents_spins; [| lia]. split_and!; [done | by left | done | done].
Defined.
