(* ===== verification/FuseCatalog.v ===== *)
(** The catalog below FUSE: what the kernel reads from a directory of a mounted
    catalog, through the buffer of the library, is the directory that was listed. *)

From S2P Require Import Prelude.
From S2P Require Import CString.
From S2P Require Import Entry.
From S2P Require Import CatalogFS.
From S2P Require Import Generate.
From S2P Require Import Format.
From S2P Require Import Pad.
From S2P Require Import Listing.
From S2P Require Import Order.
From S2P Require Import Mount.
From S2P Require Import SampleTree.
From S2P Require Import Sample.
From S2P Require Import FuseDir.
From S2P Require Import FuseDirProps.

(** What is left of [struct stat] in an entry; catalogfs has cleared [st_ino]. *)
Definition entry_stat (st : stat) : dstat := Dstat 0 (Entry.st_mode st).

(** The filler of the library, as catalogfs calls it: a call that does not return
    ends the request. *)
Definition fuse_filler (filler : FuseDir.filler (S := sys)) : CatalogFS.fill_dir (outcome reading) :=
  fun buf name st =>
    match buf with
    | Ret r =>
        match filler name (entry_stat <$> st) 0 r with
        | Ret (full, r) => (Ret r, full)
        | Exit z => (Exit z, 1)
        | UB => (UB, 1)
        | Hang => (Hang, 1)
        end
    | _ => (buf, 1)
    end.

(** [catalog_readdir] as the [readdir] of the library, for a path in an array of
    [path_cap] bytes; it keeps no directory handle. *)
Definition catalog_op (e : env) (path_cap : bytes -> Z) (path : bytes) (filler : FuseDir.filler (S := sys)) (off fh : Z)
  : M reading Z :=
  fun r =>
    match catalog_readdir (fuse_filler filler) e (path_cap path) path (Ret r) (below r) with
    | Ret ((res, Ret r, _), s) => Ret (res, Reading (dh r) s)
    | Ret ((_, Exit z, _), _) | Exit z => Exit z
    | Ret ((_, UB, _), _) | UB => UB
    | Ret ((_, Hang, _), _) | Hang => Hang
    end.

Section Catalog.
Context {alloc_ok : nat -> bool} {junk : nat -> nat -> ascii}.
Context {conf : fuse_config} {node_of : bytes -> option Z}.
Hypothesis memory : forall n, alloc_ok n = true.

Abbreviation filler := (fuse_filler (fun name statp off => on_dh (FuseDir.fill_dir alloc_ok junk conf node_of name statp off))).
Abbreviation good_item := (good_item conf node_of).

(** The filler succeeds on an entry that fits. *)
Lemma filler_step d s name st :
  dh_wf d -> good_item (name, entry_stat <$> st) -> len d + rec_size name <= 2 ^ 31 ->
  exists d', filler (Ret (Reading d s)) name st = (Ret (Reading d' s), 0) /\ dh_wf d' /\ len d' = len d + rec_size name /\
    used d' = used d ++ records conf node_of (len d) [(name, entry_stat <$> st)] /\
    filled d' = filled d /\ error d' = error d.
Proof.
  intros Hd [Hn _] Hlen.
  assert (runs (FuseDir.fill_dir alloc_ok junk conf node_of name (entry_stat <$> st) 0) d
    (fun r d' => r = 0 /\ dh_wf d' /\ len d' = len d + rec_size name /\
      used d' = used d ++ records conf node_of (len d) [(name, entry_stat <$> st)] /\
      filled d' = filled d /\ error d' = error d)) as Hr.
  { apply runs_fill_dir; [done | done | | by intros ?%has_memory].
    intros d' Hd' Hu Hl Hf He _. split_and!; try done. cbn [records]. by rewrite app_nil_r. }
  apply runs_eq in Hr as (r & d' & E & -> & Hr). exists d'. split; [| done].
  unfold fuse_filler, on_dh. cbn [dh]. by rewrite E.
Qed.

Definition named_stats (its : list (bytes * stat)) : list item :=
  map (fun it => (fst it, Some (entry_stat (snd it)))) its.

Lemma feed_filler its d s :
  dh_wf d -> Forall good_item (named_stats its) -> len d + total (named_stats its) <= 2 ^ 31 ->
  exists d', feed filler (Ret (Reading d s)) its = Ret (Reading d' s) /\ dh_wf d' /\
    used d' = used d ++ records conf node_of (len d) (named_stats its) /\
    filled d' = filled d /\ error d' = error d.
Proof.
  revert d. induction its as [|[name st] its IH]; intros d Hd Hg Hlen.
  { exists d. cbn. by rewrite app_nil_r. }
  cbn [named_stats map fst snd] in *. apply Forall_cons in Hg as [Hi Hg].
  fold (named_stats its) in *.
  change (total ((name, Some (entry_stat st)) :: named_stats its))
    with (rec_size name + total (named_stats its)) in Hlen.
  pose proof (total_nonneg (named_stats its)).
  destruct (filler_step d s name (Some st) Hd Hi) as (d1 & E & Hd1 & Hl1 & Hu1 & Hf1 & He1); [lia |].
  destruct (IH d1 Hd1 Hg) as (d2 & E2 & Hd2 & Hu2 & Hf2 & He2); [lia |].
  exists d2. cbn [feed]. rewrite E. cbn [Z.eqb]. split_and!; [done | done | | congruence | congruence].
  rewrite Hu2, Hu1, Hl1. cbn [records fmap option_fmap option_map fst].
  by rewrite app_nil_r, <- app_assoc.
Qed.

Hypothesis numbers : forall name id, node_of name = Some id -> 0 <= id < 2 ^ 64.

Lemma good_item_of name statp :
  good_name name -> (forall st, statp = Some st -> 0 <= st_ino st < 2 ^ 64) -> good_item (name, statp).
Proof.
  intros Hn Hi. split; [done |]. unfold stored, fill_stat. cbn [fst snd].
  destruct (use_ino conf).
  - destruct statp as [st|]; [by apply Hi | done].
  - cbn [st_ino]. destruct (readdir_ino conf); [| done].
    destruct (node_of name) as [id|] eqn:E; [by eapply numbers | done].
Qed.

(** What [readdir] of a catalog hands over: the two dots, then the entries. *)
Definition dir_items (its : list (bytes * stat)) : list item :=
  (B ".", None) :: (B "..", None) :: named_stats its.

Lemma good_dir_items its :
  Forall (fun it => good_name (fst it)) its -> Forall good_item (dir_items its).
Proof.
  intros H. unfold dir_items.
  do 2 (apply Forall_cons_2; [apply good_item_of; done |]).
  apply Forall_map. eapply Forall_impl; [exact H |]. intros it Hn.
  apply good_item_of; [done |]. intros st [= <-]. done.
Qed.

(** A catalog that hands over a directory fills the buffer with it. *)
Lemma catalog_op_lists e path_cap path its :
  Forall (fun it => good_name (fst it)) its -> total (dir_items its) <= 2 ^ 31 ->
  (forall buf s, let start := fst (filler (fst (filler buf (B ".") None)) (B "..") None) in
     runs (catalog_readdir filler e (path_cap path) path buf) s (fun r _ =>
       fst r = (0, feed filler start its))) ->
  lists (alloc_ok := alloc_ok) (junk := junk) (conf := conf) (node_of := node_of)
    (catalog_op e path_cap) path (dir_items its).
Proof.
  intros Hn Ht Hcat d s fh Hd Hl. pose proof (good_dir_items its Hn) as Hg.
  unfold dir_items in Hg. apply Forall_cons in Hg as [Hg1 [Hg2 Hg]%Forall_cons].
  change (total (dir_items its)) with
    (rec_size (B ".") + (rec_size (B "..") + total (named_stats its))) in Ht.
  pose proof (total_nonneg (named_stats its)).
  pose proof (rec_size_bounds (B ".")). pose proof (rec_size_bounds (B "..")).
  assert (0 <= strlen (B ".")) by (unfold strlen; lia).
  assert (0 <= strlen (B "..")) by (unfold strlen; lia).
  destruct (filler_step d s (B ".") None Hd Hg1) as (d1 & E1 & Hd1 & Hl1 & Hu1 & Hf1 & He1); [lia |].
  destruct (filler_step d1 s (B "..") None Hd1 Hg2) as (d2 & E2 & Hd2 & Hl2 & Hu2 & Hf2 & He2); [lia |].
  destruct (feed_filler its d2 s Hd2 Hg) as (d3 & E3 & Hd3 & Hu3 & Hf3 & He3); [lia |].
  specialize (Hcat (Ret (Reading d s)) s). cbv zeta in Hcat. rewrite E1 in Hcat. cbn [fst] in Hcat.
  rewrite E2 in Hcat. cbn [fst] in Hcat. rewrite E3 in Hcat.
  apply runs_eq in Hcat as ([[r buf] p] & s' & E & Hr). cbn in Hr. injection Hr as -> ->.
  unfold runs, catalog_op. cbn [below]. rewrite E. cbn [dh]. split_and!; [done | done | | congruence | congruence].
  rewrite Hu3, Hu2, Hu1, Hl2, Hl1, Hl. unfold used. rewrite Hl, take_0. unfold dir_items.
  cbn [records fst fmap option_fmap option_map app]. rewrite !app_nil_r, <- !app_assoc. done.
Qed.

(** The names and types of a listing. *)
Definition name_type (e : dent) : bytes * Z := let '(name, _, _, type) := e in (name, type).

Definition file_type (st : stat) : Z := Z.shiftr (Z.land (Entry.st_mode st) S_IFMT) 12.

Lemma stored_type name st :
  dirent_type (stored conf node_of (name, Some (entry_stat st))) = file_type st.
Proof. unfold stored, fill_stat. by destruct (use_ino conf). Qed.

Lemma listing_names off items :
  map name_type (listing conf node_of off items) =
  map (fun it => (fst it, dirent_type (stored conf node_of it))) items.
Proof. revert off. induction items as [|it items IH]; intros off; simpl; [done | by rewrite IH]. Qed.
End Catalog.

(** What a reader gets from the entries [its] of a directory, the two dots first. *)
Lemma dir_listing {conf N} its :
  map name_type (listing conf N 0 (dir_items its)) =
  (B ".", 0) :: (B "..", 0) :: map (fun it => (fst it, file_type (snd it))) its.
Proof.
  rewrite listing_names. unfold dir_items, named_stats. cbn [map fst].
  assert (forall name, dirent_type (stored conf N (name, None)) = 0) as Hdot
    by (intros name; unfold stored, fill_stat; by destruct (use_ino conf)).
  rewrite !Hdot, map_map. do 2 f_equal. apply map_ext. intros it. cbn [fst snd]. by rewrite stored_type.
Qed.

(** Generate, mount, ls: a reader of a directory of the mounted catalog gets
    from the kernel, through the buffer of the FUSE library, the two dots and
    then exactly the entries that were in the directory when the catalog was
    generated, in order, with their types. *)
Theorem mounted_ls alloc_ok junk conf node_of op_getdir o root h e d path path_cap fh dh s rooms :
  let its := map (fun ent => (Generate.d_name ent, served_stat (stat_of o (join d (Generate.d_name ent)))))
                 (entries o d) in
  (forall n, alloc_ok n = true) ->
  (forall name id, node_of name = Some id -> 0 <= id < 2 ^ 64) ->
  good_tree o root h -> reached o root d -> slash_path path = rel root (d ++ [SLASH]) ->
  (path = B "/" \/ strlen path + 1 < path_cap path) ->
  mounts e (tree_file (o := o) (root := root) (h := h)) ->
  mount_fits e (tree_file (o := o) (root := root) (h := h)) ->
  Forall (fun ent => good_name (Generate.d_name ent)) (entries o d) -> total (dir_items its) <= 2 ^ 31 ->
  dh_wf dh -> Forall (fun room => (0 < room)%nat) rooms -> (length its + 2 <= length rooms)%nat ->
  runs (getdents alloc_ok junk conf node_of (catalog_op e path_cap) op_getdir path fh rooms 0) (Reading dh s)
    (fun r _ => fst r = 0 /\
       map name_type (snd r) =
         (B ".", 0) :: (B "..", 0) :: map (fun it => (fst it, file_type (snd it))) its).
Proof.
  intros its Hmem Hnum Ht Hd Hp Hcap Hm Hf Hn Htot Hdh Hr Hlen.
  assert (Forall (fun it => good_name (fst it)) its) as Hnames by by apply Forall_map.
  eapply runs_mono.
  - apply (runs_getdents _ _ _ _ _ _ _ _ (dir_items its)) with (pre := []) (suf := dir_items its);
      [| | done | done | by left | done].
    + apply catalog_op_lists; [done.. |]. intros buf s'. by eapply tree_readdir.
    + by apply good_dir_items.
  - intros r d' (k & -> & Hk). split; [done |]. cbn [snd].
    rewrite take_ge; [apply dir_listing |]. unfold dir_items, named_stats in *. cbn [length] in *.
    rewrite length_map in *. lia.
Qed.

(** The root of the sample tree, in one call with room for all. *)
Lemma mounted_ls_witness :
  let its := map (fun ent => (Generate.d_name ent,
                              served_stat (stat_of sample_os (join (B "/t") (Generate.d_name ent)))))
                 (entries sample_os (B "/t")) in
  runs (getdents (fun _ => true) (fun _ _ => "x"%char) default_config (fun _ => None)
          (catalog_op (env_of_file sample_tree_file) (fun _ => 2)) None (B "/") 0 [1; 9; 9; 9; 9]%nat 0)
       (Reading empty_dh sample_sys)
    (fun r _ => fst r = 0 /\
       map name_type (snd r) =
         (B ".", 0) :: (B "..", 0) :: map (fun it => (fst it, file_type (snd it))) its).
Proof.
  intros its. apply (mounted_ls _ _ _ _ _ sample_os (B "/t") 2 _ (B "/t"));
    [done | done | exact sample_tree | constructor | reflexivity | by left | exact sample_mounts
    | exact sample_mount_fits | | | | |].
  - vm_compute entries. repeat (apply Forall_cons_2 || apply Forall_nil_2); done.
  - vm_compute. discriminate.
  - split_and!; [done | by left | done | done].
  - repeat (apply Forall_cons_2 || apply Forall_nil_2); lia.
  - vm_compute. lia.
Defined.

Example sample_root_types :
  map (fun ent => (Generate.d_name ent,
         file_type (served_stat (stat_of sample_os (join (B "/t") (Generate.d_name ent))))))
      (entries sample_os (B "/t")) = [(B "a", 4); (B "b", 8); (B "l", 10)].
Proof. vm_compute. reflexivity. Qed.
