(* ===== verification/FuseLib.v ===== *)
(** other_fs/fuse-2.7.3/lib/fuse.c: the requests of the kernel, from the number of a
    node to its path, to the operation of the file system on the path, to the reply.
    The file system is any record of operations on a state of its own. *)

From S2P Require Import Prelude.
From S2P Require Import CString.
From S2P Require Import Entry.
From S2P Require Import FuseNodes.

Definition EPERM : Z := 1.
Definition ENOENT : Z := 2.
Definition EIO : Z := 5.
Definition ENOSYS : Z := 38.
Definition S_IFMT : Z := 61440.
Definition O_WRONLY : Z := 1.
Definition O_CREAT : Z := 64.
Definition O_EXCL : Z := 128.
Definition PATH_MAX : Z := 4096.
Definition FUSE_SET_ATTR_MODE : Z := 1.
Definition FUSE_SET_ATTR_UID : Z := 2.
Definition FUSE_SET_ATTR_GID : Z := 4.
Definition FUSE_SET_ATTR_SIZE : Z := 8.
Definition FUSE_SET_ATTR_ATIME : Z := 16.
Definition FUSE_SET_ATTR_MTIME : Z := 32.

(** [struct stat]: the number and the fields that file systems fill in. *)
Record attr := Attr { a_ino : Z; a_stat : stat }.

Definition zero_attr : attr := Attr 0 zero_stat.

(** [struct fuse_file_info]. *)
Record file_info := FileInfo { flags : Z; fh : Z; fi_direct_io : bool; fi_keep_cache : bool }.

(** The options of [struct fuse_config]; the timeouts are only compared with 0. *)
Record lib_config := LibConfig {
  use_ino : bool; set_mode : bool; set_uid : bool; set_gid : bool; umask : Z; uid : Z; gid : Z;
  hard_remove : bool; negative_timeout : bool; direct_io : bool; kernel_cache : bool }.

Record timespec := Timespec { tv_sec : Z; tv_nsec : Z }.

(** [struct statvfs]. *)
Record statvfs := Statvfs {
  f_bsize : Z; f_frsize : Z; f_blocks : Z; f_bfree : Z; f_bavail : Z; f_files : Z; f_ffree : Z; f_namemax : Z }.

(** The attributes that a request sets. *)
Record new_attr := NewAttr {
  n_mode : Z; n_uid : Z; n_gid : Z; n_size : Z; n_atime : timespec; n_mtime : timespec }.

(** [struct fuse_operations] of a file system whose state is [S]. *)
Record fuse_operations (S : Type) := FuseOperations {
  op_getattr : option (bytes -> M S (Z * attr));
  op_fgetattr : option (bytes -> file_info -> M S (Z * attr));
  op_access : option (bytes -> Z -> M S Z);
  op_readlink : option (bytes -> Z -> M S (Z * bytes));
  op_mknod : option (bytes -> Z -> Z -> M S Z);
  op_mkdir : option (bytes -> Z -> M S Z);
  op_unlink : option (bytes -> M S Z);
  op_rmdir : option (bytes -> M S Z);
  op_symlink : option (bytes -> bytes -> M S Z);
  op_rename : option (bytes -> bytes -> M S Z);
  op_link : option (bytes -> bytes -> M S Z);
  op_chmod : option (bytes -> Z -> M S Z);
  op_chown : option (bytes -> Z -> Z -> M S Z);
  op_truncate : option (bytes -> Z -> M S Z);
  op_ftruncate : option (bytes -> Z -> file_info -> M S Z);
  op_utimens : option (bytes -> timespec * timespec -> M S Z);
  op_utime : option (bytes -> Z * Z -> M S Z);
  op_create : option (bytes -> Z -> file_info -> M S (Z * file_info));
  op_open : option (bytes -> file_info -> M S (Z * file_info));
  op_release : option (bytes -> file_info -> M S Z);
  op_read : option (bytes -> Z -> Z -> file_info -> M S (Z * bytes));
  op_write : option (bytes -> bytes -> Z -> file_info -> M S Z);
  op_fsync : option (bytes -> Z -> file_info -> M S Z);
  op_statfs : option (bytes -> M S (Z * statvfs));
  op_setxattr : option (bytes -> bytes -> bytes -> Z -> M S Z);
  op_getxattr : option (bytes -> bytes -> Z -> M S (Z * bytes));
  op_listxattr : option (bytes -> Z -> M S (Z * bytes));
  op_removexattr : option (bytes -> bytes -> M S Z);
  op_bmap : option (bytes -> Z -> Z -> M S (Z * Z));
  op_opendir : option (bytes -> file_info -> M S (Z * file_info));
  op_releasedir : option (bytes -> file_info -> M S Z);
  op_fsyncdir : option (bytes -> Z -> file_info -> M S Z) }.

Arguments op_getattr {S}. Arguments op_fgetattr {S}. Arguments op_access {S}.
Arguments op_readlink {S}. Arguments op_mknod {S}. Arguments op_mkdir {S}.
Arguments op_unlink {S}. Arguments op_rmdir {S}. Arguments op_symlink {S}.
Arguments op_rename {S}. Arguments op_link {S}. Arguments op_chmod {S}.
Arguments op_chown {S}. Arguments op_truncate {S}. Arguments op_ftruncate {S}.
Arguments op_utimens {S}. Arguments op_utime {S}. Arguments op_create {S}.
Arguments op_open {S}. Arguments op_release {S}. Arguments op_read {S}.
Arguments op_write {S}. Arguments op_fsync {S}. Arguments op_statfs {S}.
Arguments op_setxattr {S}. Arguments op_getxattr {S}. Arguments op_listxattr {S}.
Arguments op_removexattr {S}. Arguments op_bmap {S}. Arguments op_opendir {S}.
Arguments op_releasedir {S}. Arguments op_fsyncdir {S}.

(** * The operations of a file system, or what stands for them *)

Section Operations.
Context {S : Type} (ops : fuse_operations S).

Definition enosys : M S Z := mret (- ENOSYS).

Definition fuse_fs_getattr (path : bytes) : M S (Z * attr) :=
  match op_getattr ops with
  | Some op => op path
  | None => mret (- ENOSYS, zero_attr)
  end.

Definition fuse_fs_fgetattr (path : bytes) (fi : file_info) : M S (Z * attr) :=
  match op_fgetattr ops, op_getattr ops with
  | Some op, _ => op path fi
  | None, Some op => op path
  | None, None => mret (- ENOSYS, zero_attr)
  end.

Definition fuse_fs_access (path : bytes) (mask : Z) : M S Z :=
  match op_access ops with Some op => op path mask | None => enosys end.

(** The buffer has [len] bytes. *)
Definition fuse_fs_readlink (path : bytes) (len : Z) : M S (Z * bytes) :=
  match op_readlink ops with Some op => op path len | None => mret (- ENOSYS, []) end.

Definition fuse_fs_mknod (path : bytes) (mode rdev : Z) : M S Z :=
  match op_mknod ops with Some op => op path mode rdev | None => enosys end.

Definition fuse_fs_mkdir (path : bytes) (mode : Z) : M S Z :=
  match op_mkdir ops with Some op => op path mode | None => enosys end.

Definition fuse_fs_unlink (path : bytes) : M S Z :=
  match op_unlink ops with Some op => op path | None => enosys end.

Definition fuse_fs_rmdir (path : bytes) : M S Z :=
  match op_rmdir ops with Some op => op path | None => enosys end.

Definition fuse_fs_symlink (linkname path : bytes) : M S Z :=
  match op_symlink ops with Some op => op linkname path | None => enosys end.

Definition fuse_fs_rename (oldpath newpath : bytes) : M S Z :=
  match op_rename ops with Some op => op oldpath newpath | None => enosys end.

Definition fuse_fs_link (oldpath newpath : bytes) : M S Z :=
  match op_link ops with Some op => op oldpath newpath | None => enosys end.

Definition fuse_fs_chmod (path : bytes) (mode : Z) : M S Z :=
  match op_chmod ops with Some op => op path mode | None => enosys end.

Definition fuse_fs_chown (path : bytes) (uid gid : Z) : M S Z :=
  match op_chown ops with Some op => op path uid gid | None => enosys end.

Definition fuse_fs_truncate (path : bytes) (size : Z) : M S Z :=
  match op_truncate ops with Some op => op path size | None => enosys end.

Definition fuse_fs_ftruncate (path : bytes) (size : Z) (fi : file_info) : M S Z :=
  match op_ftruncate ops, op_truncate ops with
  | Some op, _ => op path size fi
  | None, Some op => op path size
  | None, None => enosys
  end.

(** [utime] has whole seconds. *)
Definition fuse_fs_utimens (path : bytes) (tv : timespec * timespec) : M S Z :=
  match op_utimens ops, op_utime ops with
  | Some op, _ => op path tv
  | None, Some op => op path (tv_sec (fst tv), tv_sec (snd tv))
  | None, None => enosys
  end.

Definition fuse_fs_create (path : bytes) (mode : Z) (fi : file_info) : M S (Z * file_info) :=
  match op_create ops with Some op => op path mode fi | None => mret (- ENOSYS, fi) end.

Definition fuse_fs_open (path : bytes) (fi : file_info) : M S (Z * file_info) :=
  match op_open ops with Some op => op path fi | None => mret (0, fi) end.

Definition fuse_fs_release (path : bytes) (fi : file_info) : M S Z :=
  match op_release ops with Some op => op path fi | None => mret 0 end.

Definition fuse_fs_read (path : bytes) (size off : Z) (fi : file_info) : M S (Z * bytes) :=
  match op_read ops with Some op => op path size off fi | None => mret (- ENOSYS, []) end.

Definition fuse_fs_write (path buf : bytes) (off : Z) (fi : file_info) : M S Z :=
  match op_write ops with Some op => op path buf off fi | None => enosys end.

Definition fuse_fs_fsync (path : bytes) (datasync : Z) (fi : file_info) : M S Z :=
  match op_fsync ops with Some op => op path datasync fi | None => enosys end.

(** Into a cleared buffer. *)
Definition fuse_fs_statfs (path : bytes) : M S (Z * statvfs) :=
  match op_statfs ops with
  | Some op => op path
  | None => mret (0, Statvfs 512 0 0 0 0 0 0 255)
  end.

Definition fuse_fs_setxattr (path name value : bytes) (flags : Z) : M S Z :=
  match op_setxattr ops with Some op => op path name value flags | None => enosys end.

Definition fuse_fs_getxattr (path name : bytes) (size : Z) : M S (Z * bytes) :=
  match op_getxattr ops with Some op => op path name size | None => mret (- ENOSYS, []) end.

Definition fuse_fs_listxattr (path : bytes) (size : Z) : M S (Z * bytes) :=
  match op_listxattr ops with Some op => op path size | None => mret (- ENOSYS, []) end.

Definition fuse_fs_removexattr (path name : bytes) : M S Z :=
  match op_removexattr ops with Some op => op path name | None => enosys end.

Definition fuse_fs_bmap (path : bytes) (blocksize idx : Z) : M S (Z * Z) :=
  match op_bmap ops with Some op => op path blocksize idx | None => mret (- ENOSYS, idx) end.

Definition fuse_fs_opendir (path : bytes) (fi : file_info) : M S (Z * file_info) :=
  match op_opendir ops with Some op => op path fi | None => mret (0, fi) end.

Definition fuse_fs_releasedir (path : bytes) (fi : file_info) : M S Z :=
  match op_releasedir ops with Some op => op path fi | None => mret 0 end.

Definition fuse_fs_fsyncdir (path : bytes) (datasync : Z) (fi : file_info) : M S Z :=
  match op_fsyncdir ops with Some op => op path datasync fi | None => enosys end.
End Operations.

(** * Requests *)

(** [struct fuse_entry_param], without its timeouts. *)
Record entry_param := EntryParam { e_ino : Z; e_generation : Z; e_attr : attr }.

Definition no_entry : entry_param := EntryParam 0 0 zero_attr.

Inductive reply :=
| ReplyErr (err : Z)
| ReplyEntry (e : entry_param)
| ReplyAttr (a : attr)
| ReplyReadlink (link : bytes)
| ReplyOpen (fi : file_info)
| ReplyCreate (e : entry_param) (fi : file_info)
| ReplyBuf (buf : bytes)
| ReplyWrite (count : Z)
| ReplyStatfs (st : statvfs)
| ReplyXattr (count : Z)
| ReplyBmap (idx : Z)
| ReplyNone.

(** The library with its file system. *)
Record lib (S : Type) := Lib { table : fuse; hidectr : Z; fs : S }.
Arguments Lib {S}. Arguments table {S}. Arguments hidectr {S}. Arguments fs {S}.

Section Requests.
Context (alloc_ok : nat -> bool) (char_value : ascii -> Z).
Context {S : Type} (ops : fuse_operations S) (conf : lib_config).

(** A computation on the table of nodes, and one of the file system. *)
Definition on_table {A} (m : M fuse A) : M (lib S) A := fun l =>
  match m (table l) with
  | Ret (a, f) => Ret (a, Lib f (hidectr l) (fs l))
  | Exit z => Exit z
  | UB => UB
  | Hang => Hang
  end.

Definition call {A} (m : M S A) : M (lib S) A := fun l =>
  match m (fs l) with
  | Ret (a, s) => Ret (a, Lib (table l) (hidectr l) s)
  | Exit z => Exit z
  | UB => UB
  | Hang => Hang
  end.

(** [free] of a path or of a buffer. *)
Definition free_string : M (lib S) unit := on_table (modify (add_blocks (-1))).

(** The frame of a request: the path of [name] in the node [nodeid], or of the node,
    for [k], and [none] without it. *)
Definition with_path {A} (nodeid : Z) (name : option bytes) (none : A) (k : bytes -> M (lib S) A)
  : M (lib S) A :=
  path ← on_table (get_path_name alloc_ok nodeid name);
  match path with
  | None => mret none
  | Some path => r ← k path; _ ← free_string; mret r
  end.

Definition set_stat (nodeid : Z) (a : attr) : attr :=
  let st := a_stat a in
  Attr (if use_ino conf then a_ino a else nodeid)
       (Stat (if set_mode conf
              then Z.lor (Z.land (st_mode st) S_IFMT) (Z.land 511 (Z.lnot (umask conf)))
              else st_mode st)
             (st_nlink st)
             (if set_uid conf then uid conf else st_uid st)
             (if set_gid conf then gid conf else st_gid st)
             (st_size st) (st_atime st) (st_mtime st) (st_ctime st)).

Definition lookup_path (nodeid : Z) (name path : bytes) (fi : option file_info)
  : M (lib S) (Z * entry_param) :=
  r ← call (match fi with
            | Some fi => fuse_fs_fgetattr ops path fi
            | None => fuse_fs_getattr ops path
            end);
  let '(res, a) := r in
  if res =? 0 then
    node ← on_table (find_node alloc_ok char_value nodeid name);
    match node with
    | None => mret (- ENOMEM, EntryParam 0 0 a)
    | Some _ =>
        n ← on_table (load node);
        mret (0, EntryParam (FuseNodes.nodeid n) (generation n) (set_stat (FuseNodes.nodeid n) a))
    end
  else mret (res, EntryParam 0 0 a).

Definition reply_err (err : Z) : M (lib S) reply := mret (ReplyErr (- err)).

(** [lost]: the reply finds that the process does not wait any more. *)
Definition reply_entry (lost : bool) (r : Z * entry_param) : M (lib S) reply :=
  let '(err, e) := r in
  if err =? 0 then
    _ ← (if lost then on_table (forget_node char_value (e_ino e) 1) else mret tt);
    mret (ReplyEntry e)
  else reply_err err.

Definition fuse_lib_lookup (parent : Z) (name : bytes) (lost : bool) : M (lib S) reply :=
  r ← with_path parent (Some name) (- ENOENT, no_entry) (fun path =>
    r ← lookup_path parent name path None;
    let '(err, e) := r in
    mret (if (err =? - ENOENT) && negative_timeout conf
          then (0, EntryParam 0 (e_generation e) (e_attr e)) else (err, e)));
  reply_entry lost r.

Definition fuse_lib_forget (ino nlookup : Z) : M (lib S) reply :=
  _ ← on_table (forget_node char_value ino nlookup);
  mret ReplyNone.

(** The end of the requests that reply attributes. *)
Definition reply_attr (ino : Z) (r : Z * attr) : M (lib S) reply :=
  let '(err, buf) := r in
  if err =? 0 then mret (ReplyAttr (set_stat ino buf)) else reply_err err.

Definition fuse_lib_getattr (ino : Z) : M (lib S) reply :=
  r ← with_path ino None (- ENOENT, zero_attr) (fun path => call (fuse_fs_getattr ops path));
  reply_attr ino r.

(** Whether [valid] has all the bits of [mask], and whether it has one. *)
Definition has_all (valid mask : Z) : bool := Z.land valid mask =? mask.
Definition has_any (valid mask : Z) : bool := negb (Z.land valid mask =? 0).

(** [if (!err && b) err = m]. *)
Definition and_then (err : Z) (b : bool) (m : M S Z) : M (lib S) Z :=
  if (err =? 0) && b then call m else mret err.

Definition fuse_lib_setattr (ino : Z) (a : new_attr) (valid : Z) (fi : option file_info)
  : M (lib S) reply :=
  r ← with_path ino None (- ENOENT, zero_attr) (fun path =>
    err ← and_then 0 (has_any valid FUSE_SET_ATTR_MODE) (fuse_fs_chmod ops path (n_mode a));
    err ← and_then err (has_any valid (Z.lor FUSE_SET_ATTR_UID FUSE_SET_ATTR_GID))
            (fuse_fs_chown ops path
               (if has_any valid FUSE_SET_ATTR_UID then n_uid a else to_u32 (-1))
               (if has_any valid FUSE_SET_ATTR_GID then n_gid a else to_u32 (-1)));
    err ← and_then err (has_any valid FUSE_SET_ATTR_SIZE)
            (match fi with
             | Some fi => fuse_fs_ftruncate ops path (n_size a) fi
             | None => fuse_fs_truncate ops path (n_size a)
             end);
    err ← and_then err (has_all valid (Z.lor FUSE_SET_ATTR_ATIME FUSE_SET_ATTR_MTIME))
            (fuse_fs_utimens ops path (n_atime a, n_mtime a));
    if err =? 0 then call (fuse_fs_getattr ops path) else mret (err, zero_attr));
  reply_attr ino r.

Definition fuse_lib_access (ino mask : Z) : M (lib S) reply :=
  err ← with_path ino None (- ENOENT) (fun path => call (fuse_fs_access ops path mask));
  reply_err err.

(** The array [linkname] has [PATH_MAX + 1] bytes, of which the last is cleared. *)
Definition fuse_lib_readlink (ino : Z) : M (lib S) reply :=
  r ← with_path ino None (- ENOENT, []) (fun path =>
        call (fuse_fs_readlink ops path (PATH_MAX + 1)));
  let '(err, linkname) := r in
  if err =? 0 then mret (ReplyReadlink (cstr (take (Z.to_nat PATH_MAX) linkname)))
  else reply_err err.

(** [err = m; if (!err) err = lookup_path(...)]. *)
Definition make_and_lookup (parent : Z) (name path : bytes) (m : M S Z)
  : M (lib S) (Z * entry_param) :=
  err ← call m;
  if err =? 0 then lookup_path parent name path None else mret (err, no_entry).

Definition S_ISREG (mode : Z) : bool := Z.land mode S_IFMT =? S_IFREG.

Definition fuse_lib_mknod (parent : Z) (name : bytes) (mode rdev : Z) (lost : bool)
  : M (lib S) reply :=
  r ← with_path parent (Some name) (- ENOENT, no_entry) (fun path =>
    r ← (if S_ISREG mode then
           c ← call (fuse_fs_create ops path mode
                       (FileInfo (Z.lor (Z.lor O_CREAT O_EXCL) O_WRONLY) 0 false false));
           let '(err, fi) := c in
           if err =? 0 then
             r ← lookup_path parent name path (Some fi);
             _ ← call (fuse_fs_release ops path fi);
             mret r
           else mret (err, no_entry)
         else mret (- ENOSYS, no_entry));
    if fst r =? - ENOSYS then make_and_lookup parent name path (fuse_fs_mknod ops path mode rdev)
    else mret r);
  reply_entry lost r.

Definition fuse_lib_mkdir (parent : Z) (name : bytes) (mode : Z) (lost : bool) : M (lib S) reply :=
  r ← with_path parent (Some name) (- ENOENT, no_entry) (fun path =>
        make_and_lookup parent name path (fuse_fs_mkdir ops path mode));
  reply_entry lost r.

Definition fuse_lib_symlink (linkname : bytes) (parent : Z) (name : bytes) (lost : bool)
  : M (lib S) reply :=
  r ← with_path parent (Some name) (- ENOENT, no_entry) (fun path =>
        make_and_lookup parent name path (fuse_fs_symlink ops linkname path));
  reply_entry lost r.

Definition fuse_lib_link (ino newparent : Z) (newname : bytes) (lost : bool) : M (lib S) reply :=
  r ← with_path ino None (- ENOENT, no_entry) (fun oldpath =>
        with_path newparent (Some newname) (- ENOENT, no_entry) (fun newpath =>
          make_and_lookup newparent newname newpath (fuse_fs_link ops oldpath newpath)));
  reply_entry lost r.

(** ** Removal, with files that are still open *)

Definition is_open (dir : Z) (name : bytes) : M (lib S) bool :=
  node ← on_table (lookup_node char_value dir name);
  match node with
  | None => mret false
  | Some _ => n ← on_table (load node); mret (0 <? open_count n)
  end.

Definition hex_digit (z : Z) : ascii :=
  ascii_of_N (Z.to_N (if z <? 10 then 48 + z else 97 + (z - 10))).

(** The last [n] hexadecimal digits. *)
Fixpoint hex (n : nat) (z : Z) : bytes :=
  match n with
  | O => []
  | Datatypes.S n' => hex n' (z / 16) ++ [hex_digit (z mod 16)]
  end.

(** [".fuse_hidden%08x%08x"], of unsigned integers. *)
Definition hidden_format (nodeid ctr : Z) : bytes :=
  B ".fuse_hidden" ++ hex 8 (to_u32 nodeid) ++ hex 8 ctr.

(** The inner loop of [hidden_name]: the first number without an entry. *)
Fixpoint free_name_loop (fuel : nat) (dir nodeid : Z) : M (lib S) bytes :=
  match fuel with
  | O => hang
  | Datatypes.S fuel' =>
      l ← get;
      let ctr := to_u32 (hidectr l + 1) in
      _ ← modify (fun l => Lib (table l) ctr (fs l));
      let newname := hidden_format nodeid ctr in
      newnode ← on_table (lookup_node char_value dir newname);
      if newnode is Some _ then free_name_loop fuel' dir nodeid else mret newname
  end.

(** Each turn rejects the name of another node. *)
Definition hide_fuel (l : lib S) : nat := list_fuel (table l).

(** The path and the name; [failctr] turns are left. *)
Fixpoint hidden_name (failctr : nat) (dir : Z) (oldname : bytes) : M (lib S) (option (bytes * bytes)) :=
  match failctr with
  | O => mret None
  | Datatypes.S failctr' =>
      node ← on_table (lookup_node char_value dir oldname);
      match node with
      | None => mret None
      | Some _ =>
          n ← on_table (load node);
          l ← get;
          newname ← free_name_loop (hide_fuel l) dir (FuseNodes.nodeid n);
          newpath ← on_table (get_path_name alloc_ok dir (Some newname));
          match newpath with
          | None => mret None
          | Some newpath =>
              r ← call (fuse_fs_getattr ops newpath);
              if fst r =? - ENOENT then mret (Some (newpath, newname))
              else
                _ ← free_string;
                if fst r =? 0 then hidden_name failctr' dir oldname else mret None
          end
      end
  end.

Definition hide_node (oldpath : bytes) (dir : Z) (oldname : bytes) : M (lib S) Z :=
  r ← hidden_name 10 dir oldname;
  match r with
  | None => mret (- EBUSY)
  | Some (newpath, newname) =>
      err ← call (fuse_fs_rename ops oldpath newpath);
      err ← (if err =? 0
             then on_table (rename_node alloc_ok char_value dir oldname dir newname 1)
             else mret err);
      _ ← free_string;
      mret err
  end.

Definition fuse_lib_unlink (parent : Z) (name : bytes) : M (lib S) reply :=
  err ← with_path parent (Some name) (- ENOENT) (fun path =>
    isopen ← (if hard_remove conf then mret false else is_open parent name);
    if isopen : bool then hide_node path parent name
    else
      err ← call (fuse_fs_unlink ops path);
      _ ← (if err =? 0 then on_table (remove_node char_value parent name) else mret tt);
      mret err);
  reply_err err.

Definition fuse_lib_rmdir (parent : Z) (name : bytes) : M (lib S) reply :=
  err ← with_path parent (Some name) (- ENOENT) (fun path =>
    err ← call (fuse_fs_rmdir ops path);
    _ ← (if err =? 0 then on_table (remove_node char_value parent name) else mret tt);
    mret err);
  reply_err err.

Definition fuse_lib_rename (olddir : Z) (oldname : bytes) (newdir : Z) (newname : bytes)
  : M (lib S) reply :=
  err ← with_path olddir (Some oldname) (- ENOENT) (fun oldpath =>
    with_path newdir (Some newname) (- ENOENT) (fun newpath =>
      isopen ← (if hard_remove conf then mret false else is_open newdir newname);
      err ← (if isopen : bool then hide_node newpath newdir newname else mret 0);
      if err =? 0 then
        err ← call (fuse_fs_rename ops oldpath newpath);
        if err =? 0
        then on_table (rename_node alloc_ok char_value olddir oldname newdir newname 0)
        else mret err
      else mret err));
  reply_err err.

(** ** Open files *)

Definition opened (nodeid : Z) : M (lib S) unit :=
  a ← on_table (get_node nodeid);
  n ← on_table (load (Some a));
  _ ← assert_defined (in_i32 (open_count n + 1));
  on_table (update a (set_open_count (open_count n + 1))).

Definition fuse_do_release (ino : Z) (path : option bytes) (fi : file_info) : M (lib S) unit :=
  _ ← call (fuse_fs_release ops (match path with Some path => path | None => B "-" end) fi);
  a ← on_table (get_node ino);
  n ← on_table (load (Some a));
  if open_count n <=? 0 then on_table abort
  else
    _ ← on_table (update a (set_open_count (open_count n - 1)));
    let unlink_hidden := negb (is_hidden n =? 0) && (open_count n - 1 =? 0) in
    _ ← (if unlink_hidden then on_table (update a (set_hidden 0)) else mret tt);
    match path with
    | Some path =>
        if unlink_hidden then _ ← call (fuse_fs_unlink ops path); mret tt else mret tt
    | None => mret tt
    end.

(** [direct_io] and [keep_cache], by the options. *)
Definition open_flags (fi : file_info) : file_info :=
  FileInfo (flags fi) (fh fi) (direct_io conf || fi_direct_io fi)
           (kernel_cache conf || fi_keep_cache fi).

Definition fuse_lib_create (parent : Z) (name : bytes) (mode : Z) (fi : file_info) (lost : bool)
  : M (lib S) reply :=
  path ← on_table (get_path_name alloc_ok parent (Some name));
  r ← match path with
      | None => mret (- ENOENT, no_entry, fi)
      | Some path =>
          c ← call (fuse_fs_create ops path mode fi);
          let '(err, fi) := c in
          if err =? 0 then
            r ← lookup_path parent name path (Some fi);
            let '(err, e) := r in
            if negb (err =? 0) then
              _ ← call (fuse_fs_release ops path fi);
              mret (err, e, fi)
            else if negb (S_ISREG (st_mode (a_stat (e_attr e)))) then
              _ ← call (fuse_fs_release ops path fi);
              _ ← on_table (forget_node char_value (e_ino e) 1);
              mret (- EIO, e, fi)
            else mret (0, e, open_flags fi)
          else mret (err, no_entry, fi)
      end;
  let '(err, e, fi) := r in
  rep ← (if err =? 0 then
           _ ← opened (e_ino e);
           _ ← (if lost then
                  _ ← fuse_do_release (e_ino e) path fi;
                  on_table (forget_node char_value (e_ino e) 1)
                else mret tt);
           mret (ReplyCreate e fi)
         else reply_err err);
  _ ← (if path is Some _ then free_string else mret tt);
  mret rep.

Definition fuse_lib_open (ino : Z) (fi : file_info) (lost : bool) : M (lib S) reply :=
  path ← on_table (get_path alloc_ok ino);
  r ← match path with
      | None => mret (- ENOENT, fi)
      | Some path =>
          c ← call (fuse_fs_open ops path fi);
          let '(err, fi) := c in
          mret (err, if err =? 0 then open_flags fi else fi)
      end;
  let '(err, fi) := r in
  rep ← (if err =? 0 then
           _ ← opened ino;
           _ ← (if lost then fuse_do_release ino path fi else mret tt);
           mret (ReplyOpen fi)
         else reply_err err);
  _ ← (if path is Some _ then free_string else mret tt);
  mret rep.

(** Without FUSE_RELEASE_FLUSH, which adds what [fuse_flush_common] does. *)
Definition fuse_lib_release (ino : Z) (fi : file_info) : M (lib S) reply :=
  path ← on_table (get_path alloc_ok ino);
  _ ← fuse_do_release ino path fi;
  _ ← (if path is Some _ then free_string else mret tt);
  reply_err 0.

(** The bytes of the buffer, up to [res]: what the file system says it has read. *)
Definition fuse_lib_read (ino size off : Z) (fi : file_info) : M (lib S) reply :=
  ok ← on_table (malloc alloc_ok);
  if ok : bool then
    r ← with_path ino None (- ENOENT, []) (fun path => call (fuse_fs_read ops path size off fi));
    let '(res, buf) := r in
    rep ← (if 0 <=? res then
             _ ← assert_defined (res <=? size);
             mret (ReplyBuf (take (Z.to_nat res) buf))
           else reply_err res);
    _ ← free_string;
    mret rep
  else reply_err (- ENOMEM).

Definition fuse_lib_write (ino : Z) (buf : bytes) (off : Z) (fi : file_info) : M (lib S) reply :=
  res ← with_path ino None (- ENOENT) (fun path => call (fuse_fs_write ops path buf off fi));
  if 0 <=? res then mret (ReplyWrite res) else reply_err res.

Definition fuse_lib_fsync (ino datasync : Z) (fi : file_info) : M (lib S) reply :=
  err ← with_path ino None (- ENOENT) (fun path => call (fuse_fs_fsync ops path datasync fi));
  reply_err err.

Definition fuse_lib_statfs (ino : Z) : M (lib S) reply :=
  r ← (if ino =? 0 then
         ok ← on_table (malloc alloc_ok);
         if ok : bool then r ← call (fuse_fs_statfs ops [SLASH]); _ ← free_string; mret r
         else mret (- ENOMEM, Statvfs 0 0 0 0 0 0 0 0)
       else with_path ino None (- ENOENT, Statvfs 0 0 0 0 0 0 0 0) (fun path => call (fuse_fs_statfs ops path)));
  let '(err, buf) := r in
  if err =? 0 then mret (ReplyStatfs buf) else reply_err err.

Definition fuse_lib_setxattr (ino : Z) (name value : bytes) (flags : Z) : M (lib S) reply :=
  err ← with_path ino None (- ENOENT) (fun path => call (fuse_fs_setxattr ops path name value flags));
  reply_err err.

Definition common_getxattr (ino : Z) (name : bytes) (size : Z) : M (lib S) (Z * bytes) :=
  with_path ino None (- ENOENT, []) (fun path => call (fuse_fs_getxattr ops path name size)).

Definition common_listxattr (ino size : Z) : M (lib S) (Z * bytes) :=
  with_path ino None (- ENOENT, []) (fun path => call (fuse_fs_listxattr ops path size)).

(** With a buffer of [size] bytes, or to ask for the size: the same in
    [fuse_lib_getxattr] and [fuse_lib_listxattr]. *)
Definition xattr_reply (size : Z) (common : Z -> M (lib S) (Z * bytes)) : M (lib S) reply :=
  if negb (size =? 0) then
    ok ← on_table (malloc alloc_ok);
    if ok : bool then
      r ← common size;
      let '(res, value) := r in
      rep ← (if 0 <? res then
               _ ← assert_defined (res <=? size);
               mret (ReplyBuf (take (Z.to_nat res) value))
             else reply_err res);
      _ ← free_string;
      mret rep
    else reply_err (- ENOMEM)
  else
    r ← common 0;
    if 0 <=? fst r then mret (ReplyXattr (fst r)) else reply_err (fst r).

Definition fuse_lib_getxattr (ino : Z) (name : bytes) (size : Z) : M (lib S) reply :=
  xattr_reply size (common_getxattr ino name).

Definition fuse_lib_listxattr (ino size : Z) : M (lib S) reply :=
  xattr_reply size (common_listxattr ino).

Definition fuse_lib_removexattr (ino : Z) (name : bytes) : M (lib S) reply :=
  err ← with_path ino None (- ENOENT) (fun path => call (fuse_fs_removexattr ops path name));
  reply_err err.

Definition fuse_lib_bmap (ino blocksize idx : Z) : M (lib S) reply :=
  r ← with_path ino None (- ENOENT, idx) (fun path => call (fuse_fs_bmap ops path blocksize idx));
  let '(err, idx) := r in
  if err =? 0 then mret (ReplyBmap idx) else reply_err err.

(** ** The table of requests *)

Inductive request :=
| Lookup (parent : Z) (name : bytes) (lost : bool)
| Forget (ino nlookup : Z)
| Getattr (ino : Z)
| Setattr (ino : Z) (a : new_attr) (valid : Z) (fi : option file_info)
| Access (ino mask : Z)
| Readlink (ino : Z)
| Mknod (parent : Z) (name : bytes) (mode rdev : Z) (lost : bool)
| Mkdir (parent : Z) (name : bytes) (mode : Z) (lost : bool)
| Unlink (parent : Z) (name : bytes)
| Rmdir (parent : Z) (name : bytes)
| Symlink (linkname : bytes) (parent : Z) (name : bytes) (lost : bool)
| Rename (olddir : Z) (oldname : bytes) (newdir : Z) (newname : bytes)
| Link (ino newparent : Z) (newname : bytes) (lost : bool)
| Create (parent : Z) (name : bytes) (mode : Z) (fi : file_info) (lost : bool)
| Open (ino : Z) (fi : file_info) (lost : bool)
| Read (ino size off : Z) (fi : file_info)
| Write (ino : Z) (buf : bytes) (off : Z) (fi : file_info)
| Release (ino : Z) (fi : file_info)
| Fsync (ino datasync : Z) (fi : file_info)
| Statfs (ino : Z)
| Setxattr (ino : Z) (name value : bytes) (flags : Z)
| Getxattr (ino : Z) (name : bytes) (size : Z)
| Listxattr (ino size : Z)
| Removexattr (ino : Z) (name : bytes)
| Bmap (ino blocksize idx : Z).

Definition fuse_path_ops (q : request) : M (lib S) reply :=
  match q with
  | Lookup parent name lost => fuse_lib_lookup parent name lost
  | Forget ino nlookup => fuse_lib_forget ino nlookup
  | Getattr ino => fuse_lib_getattr ino
  | Setattr ino a valid fi => fuse_lib_setattr ino a valid fi
  | Access ino mask => fuse_lib_access ino mask
  | Readlink ino => fuse_lib_readlink ino
  | Mknod parent name mode rdev lost => fuse_lib_mknod parent name mode rdev lost
  | Mkdir parent name mode lost => fuse_lib_mkdir parent name mode lost
  | Unlink parent name => fuse_lib_unlink parent name
  | Rmdir parent name => fuse_lib_rmdir parent name
  | Symlink linkname parent name lost => fuse_lib_symlink linkname parent name lost
  | Rename olddir oldname newdir newname => fuse_lib_rename olddir oldname newdir newname
  | Link ino newparent newname lost => fuse_lib_link ino newparent newname lost
  | Create parent name mode fi lost => fuse_lib_create parent name mode fi lost
  | Open ino fi lost => fuse_lib_open ino fi lost
  | Read ino size off fi => fuse_lib_read ino size off fi
  | Write ino buf off fi => fuse_lib_write ino buf off fi
  | Release ino fi => fuse_lib_release ino fi
  | Fsync ino datasync fi => fuse_lib_fsync ino datasync fi
  | Statfs ino => fuse_lib_statfs ino
  | Setxattr ino name value flags => fuse_lib_setxattr ino name value flags
  | Getxattr ino name size => fuse_lib_getxattr ino name size
  | Listxattr ino size => fuse_lib_listxattr ino size
  | Removexattr ino name => fuse_lib_removexattr ino name
  | Bmap ino blocksize idx => fuse_lib_bmap ino blocksize idx
  end.
End Requests.

Arguments Lib {S}.
Arguments table {S}.
Arguments hidectr {S}.
Arguments fs {S}.
