(* ===== verification/FuseLibSpec.v ===== *)
(** What a file system promises to the FUSE library, the frame of a request, and the
    files that are removed while they are open. *)

From S2P Require Import Prelude.
From S2P Require Import CString.
From S2P Require Import Entry.
From S2P Require Import FuseNodes.
From S2P Require Import FuseTable.
From S2P Require Import FuseNodesSpec.
From S2P Require Import FuseTree.
From S2P Require Import FuseNodesProps.
From S2P Require Import FuseLib.

#[local] Opaque table_size.

(** * File systems that answer *)

(** [m] returns, from any state. *)
Definition answers {S A} (m : M S A) : Prop := forall s, exists a s', m s = Ret (a, s').

(** The promise of a file system to the library: its operations return, and what they
    put into a buffer fits in it. *)
Class FileSystem {S} (ops : fuse_operations S) : Prop := {
  fs_getattr p : answers (fuse_fs_getattr ops p);
  fs_fgetattr p fi : answers (fuse_fs_fgetattr ops p fi);
  fs_access p mask : answers (fuse_fs_access ops p mask);
  fs_readlink p n : answers (fuse_fs_readlink ops p n);
  fs_mknod p mode rdev : answers (fuse_fs_mknod ops p mode rdev);
  fs_mkdir p mode : answers (fuse_fs_mkdir ops p mode);
  fs_unlink p : answers (fuse_fs_unlink ops p);
  fs_rmdir p : answers (fuse_fs_rmdir ops p);
  fs_symlink link p : answers (fuse_fs_symlink ops link p);
  fs_rename p q : answers (fuse_fs_rename ops p q);
  fs_link p q : answers (fuse_fs_link ops p q);
  fs_chmod p mode : answers (fuse_fs_chmod ops p mode);
  fs_chown p u g : answers (fuse_fs_chown ops p u g);
  fs_truncate p n : answers (fuse_fs_truncate ops p n);
  fs_ftruncate p n fi : answers (fuse_fs_ftruncate ops p n fi);
  fs_utimens p tv : answers (fuse_fs_utimens ops p tv);
  fs_create p mode fi : answers (fuse_fs_create ops p mode fi);
  fs_open p fi : answers (fuse_fs_open ops p fi);
  fs_release p fi : answers (fuse_fs_release ops p fi);
  fs_write p buf off fi : answers (fuse_fs_write ops p buf off fi);
  fs_fsync p d fi : answers (fuse_fs_fsync ops p d fi);
  fs_statfs p : answers (fuse_fs_statfs ops p);
  fs_setxattr p nm v flags : answers (fuse_fs_setxattr ops p nm v flags);
  fs_removexattr p nm : answers (fuse_fs_removexattr ops p nm);
  fs_bmap p size idx : answers (fuse_fs_bmap ops p size idx);
  fs_opendir p fi : answers (fuse_fs_opendir ops p fi);
  fs_releasedir p fi : answers (fuse_fs_releasedir ops p fi);
  fs_fsyncdir p d fi : answers (fuse_fs_fsyncdir ops p d fi);
  fs_getxattr p nm n s : 0 <= n -> exists res buf s',
    fuse_fs_getxattr ops p nm n s = Ret (res, buf, s') /\ (n <> 0 -> res <= n);
  fs_listxattr p n s : 0 <= n -> exists res buf s',
    fuse_fs_listxattr ops p n s = Ret (res, buf, s') /\ (n <> 0 -> res <= n);
  fs_read p n off fi s : 0 <= n -> exists res buf s',
    fuse_fs_read ops p n off fi s = Ret (res, buf, s') /\ res <= n }.

Create HintDb answers.

#[export] Hint Resolve fs_getattr fs_fgetattr fs_access fs_readlink fs_mknod fs_mkdir fs_unlink
  fs_rmdir fs_symlink fs_rename fs_link fs_chmod fs_chown fs_truncate fs_ftruncate fs_utimens
  fs_create fs_open fs_release fs_write fs_fsync fs_statfs fs_setxattr fs_removexattr fs_bmap
  fs_opendir fs_releasedir fs_fsyncdir : answers.

(** * The two parts of the state *)

Section Parts.
Context {S : Type}.

Lemma runs_on_table {A} (m : M fuse A) (l : lib S) (Q : A -> lib S -> Prop) :
  runs m (table l) (fun a f => Q a (Lib f (hidectr l) (fs l))) -> runs (on_table m) l Q.
Proof. unfold runs, on_table. by destruct (m (table l)) as [[a f]| | |]. Qed.

Lemma runs_call {A} (m : M S A) (l : lib S) (Q : A -> lib S -> Prop) :
  answers m -> (forall a s, Q a (Lib (table l) (hidectr l) s)) -> runs (call m) l Q.
Proof. intros Hm HQ. unfold runs, call. destruct (Hm (fs l)) as (a & s & ->). apply HQ. Qed.
End Parts.

Section Requests.
Context {alloc_ok : nat -> bool} {char_value : ascii -> Z}.
Context {S : Type} {ops : fuse_operations S} {conf : lib_config} {answering : FileSystem ops}.

Abbreviation rep l c := (rep char_value table_size table_size (table l) c None None).
Abbreviation wf_tree c := (tree c no_credit None).

Definition lib_wf (l : lib S) : Prop := table_wf char_value (table l).

Lemma lib_wf_intro (l : lib S) c : rep l c -> wf_tree c -> lib_wf l.
Proof. intros Hr Ht. by eapply table_wf_intro. Qed.

(** ** Paths *)

Lemma runs_path_up_any fuel f c p s (Q : option bytes -> fuse -> Prop) :
  FuseNodesSpec.rep char_value table_size table_size f c None None -> wf_tree c ->
  (forall a, p = Some a -> is_Some (c !! a)) ->
  strlen s <= FUSE_MAX_PATH - 1 < strlen s + Z.of_nat fuel ->
  (forall r, Q r f) -> runs (path_up fuel p s) f Q.
Proof.
  intros Hr Ht. unfold FUSE_MAX_PATH. revert p s.
  induction fuel as [|fuel IH]; intros p s Hp Hs HQ; [lia |]. cbn [path_up].
  destruct p as [a|]; [| by apply runs_ret]. destruct (Hp a eq_refl) as [n Ha].
  apply runs_bind. eapply runs_load_rep; [done | done |]. intros m _ He.
  destruct (nodeid m =? FUSE_ROOT_ID); [by apply runs_ret |].
  destruct (name m) as [nm|]; [| by apply runs_ret]. unfold add_name, FUSE_MAX_PATH.
  destruct (Z.leb_spec (4096 - 1 - strlen s - strlen nm) 0); [by apply runs_ret |].
  pose proof (strlen_nonneg s). pose proof (strlen_nonneg nm).
  apply IH; [| | done].
  - intros b Hb. assert (parent n = Some b) as Hnb by by rewrite <- He.
    by destruct (t_parent _ _ _ Ht a n b Ha Hnb) as (_ & ? & _).
  - rewrite strlen_cons, strlen_app. lia.
Qed.

(** The number [ino] is that of a node. *)
Definition numbered (c : gmap nat node) (ino : Z) : Prop := exists a n, c !! a = Some n /\ nodeid n = ino.

Lemma known_numbered c id : known c id -> numbered c id.
Proof. intros (p & pn & ? & ? & _). by exists p, pn. Qed.

Lemma runs_number f c ino (Q : nat -> fuse -> Prop) :
  FuseNodesSpec.rep char_value table_size table_size f c None None -> wf_tree c -> numbered c ino ->
  (forall a n, c !! a = Some n -> nodeid n = ino -> Q a f) -> runs (get_node ino) f Q.
Proof.
  intros Hr Ht (a & n & Ha & Hid) HQ. eapply runs_get_node; [done | done | done | done | | by eapply HQ].
  intros b m _ Hb Hbid. apply (t_ids _ _ _ Ht b a m n); congruence.
Qed.

Lemma runs_get_path_name f c ino nm (Q : option bytes -> fuse -> Prop) :
  FuseNodesSpec.rep char_value table_size table_size f c None None -> wf_tree c -> numbered c ino ->
  (forall r f', FuseNodesSpec.rep char_value table_size table_size f' c None None -> Q r f') ->
  runs (get_path_name alloc_ok ino nm) f Q.
Proof.
  intros Hr Ht Hino HQ. unfold get_path_name.
  destruct (match nm with Some nm => add_name [] nm | None => Some [] end) as [s|] eqn:Es;
    [| by apply runs_ret, HQ].
  assert (strlen s <= FUSE_MAX_PATH - 1) as Hs.
  { destruct nm as [nm|]; [| by injection Es as <-]. unfold add_name in Es.
    destruct (Z.leb_spec (FUSE_MAX_PATH - 1 - strlen [] - strlen nm) 0); [done |]. injection Es as <-.
    unfold FUSE_MAX_PATH in *. rewrite strlen_cons, strlen_app. change (strlen []) with 0 in *. lia. }
  pose proof (strlen_nonneg s). apply runs_bind. eapply runs_number; [done | done | done |].
  intros a n Ha _. apply runs_bind. eapply runs_path_up_any; [done | done | | |].
  - intros b [= <-]. by eexists.
  - unfold path_fuel, FUSE_MAX_PATH in *. lia.
  - intros [r|]; [| by apply runs_ret, HQ]. apply runs_bind.
    eapply runs_node_malloc; [done | |]; intros; apply runs_ret; by apply HQ.
Qed.

(** ** The frame of a request *)

Lemma runs_free_string l c (Q : unit -> lib S -> Prop) :
  rep l c -> (forall l', rep l' c -> Q tt l') -> runs free_string l Q.
Proof.
  intros Hr HQ. apply runs_on_table, runs_modify, HQ. cbn [table]. by apply rep_add_blocks.
Qed.

Lemma runs_with_path {A} l c ino nm none (k : bytes -> M (lib S) A) (Q : A -> lib S -> Prop) :
  rep l c -> wf_tree c -> numbered c ino ->
  (forall l', rep l' c -> Q none l') ->
  (forall path l', rep l' c -> runs (k path) l' (fun r l'' => runs free_string l'' (fun _ => Q r))) ->
  runs (with_path alloc_ok ino nm none k) l Q.
Proof.
  intros Hr Ht Hino HQ0 HQ. unfold with_path. apply runs_bind, runs_on_table.
  eapply runs_get_path_name; [done | done | done |]. intros [path|] f' Hr'.
  - apply runs_bind. eapply runs_mono; [apply HQ; exact Hr' |]. intros r l'' Hl''.
    apply runs_bind. eapply runs_mono; [exact Hl'' |]. intros [] l3 H3. by apply runs_ret.
  - by apply runs_ret, HQ0.
Qed.

(** A request that only asks the file system. *)
Lemma runs_ask {A} l c ino none (m : bytes -> M S A) (Q : A -> lib S -> Prop) :
  rep l c -> wf_tree c -> numbered c ino -> (forall path, answers (m path)) ->
  (forall r l', rep l' c -> Q r l') ->
  runs (with_path alloc_ok ino None none (fun path => call (m path))) l Q.
Proof.
  intros Hr Ht Hino Hm HQ. eapply runs_with_path; [done | done | done | auto |].
  intros path l' Hr'. apply runs_call; [done |]. intros a s.
  eapply runs_free_string; [exact Hr' |]. auto.
Qed.

(** ** Removal of open files *)

Definition digit_value (c : ascii) : Z :=
  let n := Z.of_N (N_of_ascii c) in if n <? 97 then n - 48 else n - 87.

Definition hex_value (s : bytes) : Z := foldl (fun v c => 16 * v + digit_value c) 0 s.

Lemma digit_value_hex z : 0 <= z < 16 -> digit_value (hex_digit z) = z.
Proof.
  intros Hz. assert (z ∈ seqZ 0 16) as Hin by (apply elem_of_seqZ; lia).
  clear Hz. revert z Hin. apply Forall_forall. repeat constructor.
Qed.

Lemma hex_value_hex n z : hex_value (hex n z) = z mod 16 ^ Z.of_nat n.
Proof.
  revert z. induction n as [|n IH]; intros z; [by rewrite Z.mod_1_r |].
  cbn [hex]. unfold hex_value in *. rewrite foldl_app, IH. cbn [foldl].
  rewrite digit_value_hex by (apply Z.mod_pos_bound; lia).
  rewrite Nat2Z.inj_succ, Z.pow_succ_r by lia. rewrite Z.rem_mul_r; lia.
Qed.

Lemma length_hex n z : length (hex n z) = n.
Proof. revert z. induction n as [|n IH]; intros z; [done |]. cbn [hex]. rewrite length_app, IH. simpl. lia. Qed.

(** The number in a hidden name. *)
Definition hidden_number (nm : bytes) : Z := hex_value (drop 20 nm).

Lemma hidden_number_format id k : 0 <= k < 2 ^ 32 -> hidden_number (hidden_format id k) = k.
Proof.
  intros Hk. unfold hidden_number, hidden_format. rewrite app_assoc, drop_app_length'.
  - rewrite hex_value_hex. change (16 ^ Z.of_nat 8) with (2 ^ 32). by apply Z.mod_small.
  - by rewrite length_app, length_hex.
Qed.

Definition hidden_numbers (c : gmap nat node) : list Z :=
  (fun an => hidden_number (default [] (name an.2))) <$> map_to_list c.

Lemma runs_free_name_loop fuel j l c dir nid (Q : bytes -> lib S -> Prop) :
  rep l c -> (1 <= j <= fuel)%nat ->
  (hidectr l + Z.of_nat j) mod 2 ^ 32 ∉ hidden_numbers c ->
  (forall nm l', rep l' c -> Q nm l') -> runs (free_name_loop char_value fuel dir nid) l Q.
Proof.
  revert j l. induction fuel as [|fuel IH]; intros j l Hr Hj Hfree HQ; [lia |].
  cbn [free_name_loop]. apply runs_bind, runs_get. cbv zeta. apply runs_bind, runs_modify.
  set (k := to_u32 (hidectr l + 1)). apply runs_bind, runs_on_table.
  eapply runs_lookup_node; [exact Hr | |].
  - intros a _ (n & p & pn & Ha & _ & _ & _ & Hn). apply (IH (j - 1)%nat); [exact Hr | | | done].
    + enough (j <> 1%nat) by lia. intros ->. apply Hfree, list_elem_of_fmap. exists (a, n). cbn [snd].
      rewrite Hn. unfold id; cbn [from_option]. rewrite hidden_number_format; [| apply Z.mod_pos_bound; lia].
      split; [done | by apply elem_of_map_to_list].
    + cbn [hidectr]. unfold k, to_u32, to_unsigned in *. rewrite Zplus_mod_idemp_l.
      destruct j as [|j]; [lia |].
      by replace (hidectr l + 1 + Z.of_nat (Datatypes.S j - 1)) with (hidectr l + Z.of_nat (Datatypes.S j)) by lia.
  - intros _. by apply runs_ret, HQ.
Qed.

Lemma runs_hidden_free_name l c dir nid (Q : bytes -> lib S -> Prop) :
  rep l c -> Z.of_nat (size c) + 3 <= 2 ^ 31 -> (forall nm l', rep l' c -> Q nm l') ->
  runs (free_name_loop char_value (hide_fuel l) dir nid) l Q.
Proof.
  intros Hr Hs HQ. destruct (exists_fresh (hidden_numbers c) (hidectr l)) as (j & Hj & Hfree).
  { unfold hidden_numbers. rewrite length_fmap, length_map_to_list. lia. }
  eapply runs_free_name_loop; [done | | done | done].
  unfold hidden_numbers in Hj. rewrite length_fmap, length_map_to_list in Hj. unfold hide_fuel, list_fuel.
  assert (size (nodes (table l)) = size c) as ->
    by by rewrite <- (rep_core _ _ _ _ Hr), map_size_fmap.
  lia.
Qed.

Lemma runs_hidden_name failctr l c dir oldname (Q : option (bytes * bytes) -> lib S -> Prop) :
  rep l c -> wf_tree c -> Z.of_nat (size c) + 3 <= 2 ^ 31 -> numbered c dir ->
  (forall r l', rep l' c -> Q r l') ->
  runs (hidden_name alloc_ok char_value ops failctr dir oldname) l Q.
Proof.
  intros Hr Ht Hs Hn HQ. revert l Hr. induction failctr as [|failctr IH]; intros l Hr;
    [by apply runs_ret, HQ |].
  cbn [hidden_name]. apply runs_bind, runs_on_table. destruct l as [f hc s].
  eapply runs_lookup_node; [exact Hr | |]; [| intros _; by apply runs_ret, HQ].
  intros a _ (n & p & pn & Ha & _). apply runs_bind, runs_on_table.
  eapply runs_load_rep; [exact Hr | done |]. intros m _ _. apply runs_bind, runs_get. apply runs_bind.
  eapply runs_hidden_free_name; [exact Hr | done |]. intros nm l1 Hr1. apply runs_bind, runs_on_table.
  eapply runs_get_path_name; [exact Hr1 | done | done |]. intros [path|] f2 Hr2;
    [| by apply runs_ret, HQ].
  apply runs_bind, runs_call; [auto with answers |]. intros [err at_] s2.
  destruct (_ =? - ENOENT); [by apply runs_ret, HQ |]. apply runs_bind.
  eapply runs_free_string; [exact Hr2 |]. intros l3 Hr3.
  destruct (_ =? 0); [by apply IH | by apply runs_ret, HQ].
Qed.

(** An entry is not the directory it is in. *)
Lemma entry_not_parent c dir nm a n :
  wf_tree c -> entry c dir nm a -> c !! a = Some n -> nodeid n <> dir.
Proof.
  intros Ht (n' & p & pn & Ha & Hp & Hpn & Hid & _) Ha' E. simplify_eq.
  destruct (t_parent _ _ _ Ht a n' p Ha Hp) as [Hpa _]. apply Hpa.
  by eapply (t_ids _ _ _ Ht).
Qed.

Lemma runs_hide_node l c path dir oldname (Q : Z -> lib S -> Prop) :
  rep l c -> wf_tree c -> Z.of_nat (size c) + 3 <= 2 ^ 31 -> known c dir ->
  (forall err c' l', rep l' c' -> wf_tree c' -> moved dir c c' -> Q err l') ->
  runs (hide_node alloc_ok char_value ops path dir oldname) l Q.
Proof.
  intros Hr Ht Hs Hk HQ. unfold hide_node. apply runs_bind.
  eapply runs_hidden_name; [done | done | done | by apply known_numbered |].
  intros [[newpath newname]|] l1 Hr1; [| apply runs_ret; eapply HQ; [done | done | apply moves_refl]].
  apply runs_bind, runs_call; [auto with answers |]. intros err s. apply runs_bind.
  eapply (runs_mono _ _ (fun _ l' => exists c', rep l' c' /\ wf_tree c' /\ moved dir c c')).
  { destruct (err =? 0); [apply runs_on_table | apply runs_ret; exists c; auto using moves_refl].
    eapply runs_rename_node; [exact Hr1 | done | done | done | |].
    - intros a n He Ha. by eapply entry_not_parent.
    - intros r c' f' ? ? ?. by exists c'. }
  intros r l2 (c' & Hr2 & Ht2 & Hm). apply runs_bind. eapply runs_free_string; [exact Hr2 |].
  intros l3 Hr3. apply runs_ret. by eapply HQ.
Qed.

Lemma runs_is_open l c dir nm (Q : bool -> lib S -> Prop) :
  rep l c -> (forall b, Q b l) ->
  runs (if hard_remove conf then mret false else is_open char_value dir nm) l Q.
Proof.
  intros Hr HQ. destruct (hard_remove conf); [by apply runs_ret |]. unfold is_open. destruct l as [f hc s].
  apply runs_bind, runs_on_table. eapply runs_lookup_node; [exact Hr | |].
  - intros a _ (n & p & pn & Ha & _). apply runs_bind, runs_on_table.
    eapply runs_load_rep; [exact Hr | done |]. intros m _ _. by apply runs_ret.
  - intros _. by apply runs_ret.
Qed.
End Requests.
