(* ===== verification/FuseLibProps.v ===== *)
(** The requests of the kernel to the FUSE library: whatever the file system
    answers, each of them is served, and the table of nodes stays well formed. *)

From S2P Require Import Prelude.
From S2P Require Import CString.
From S2P Require Import Entry.
From S2P Require Import FuseNodes.
From S2P Require Import FuseTable.
From S2P Require Import FuseNodesSpec.
From S2P Require Import FuseTree.
From S2P Require Import FuseNodesProps.
From S2P Require Import FuseLib.
From S2P Require Import FuseLibSpec.

#[local] Opaque table_size.

Section Requests.
Context {alloc_ok : nat -> bool} {char_value : ascii -> Z}.
Context {S : Type} {ops : fuse_operations S} {conf : lib_config} {answering : FileSystem ops}.

Abbreviation rep l c := (rep char_value table_size table_size (table l) c None None).
Abbreviation wf_tree c := (tree c no_credit None).
Abbreviation lib_wf := (lib_wf (char_value := char_value)).

(** The library is whole again, and the lookups that it can be made to forget have
    changed by [d] from the contents [c]. *)
Definition served (d : Z -> Z) (c : gmap nat node) (l : lib S) : Prop :=
  exists c', rep l c' /\ wf_tree c' /\ kept d c c'.

Lemma served_intro (l : lib S) d c c' : rep l c' -> wf_tree c' -> kept d c c' -> served d c l.
Proof. intros ? ? ?. by exists c'. Qed.

Lemma served_same (l : lib S) c : rep l c -> wf_tree c -> served unchanged c l.
Proof. intros ? ?. eapply served_intro; [done | done | apply kept_refl]. Qed.

Lemma served_after (l : lib S) d c c1 : kept unchanged c c1 -> served d c1 l -> served d c l.
Proof.
  intros H (c2 & Hr & Ht & H2). exists c2. split_and!; [done | done |].
  eapply kept_trans; [done | done |]. intros id. unfold unchanged. lia.
Qed.

Lemma served_wf (l : lib S) d c : served d c l -> lib_wf l.
Proof. intros (c' & Hr & Ht & _). by eapply lib_wf_intro. Qed.

(** What a reply gives the kernel to forget, unless it is lost. *)
Definition gain (lost : bool) (x : reply) : Z -> Z :=
  match x with
  | ReplyEntry e | ReplyCreate e _ => if lost || (e_ino e =? 0) then unchanged else bump (e_ino e) 1
  | _ => unchanged
  end.

(** ** Requests that look a name up *)

(** The state after a lookup from the contents [c]: a success grants a node, a
    failure changes nothing. *)
Definition looked (c : gmap nat node) (r : Z * entry_param) (l : lib S) : Prop :=
  exists c', rep l c' /\ wf_tree c' /\ opens c c' /\
    (fst r = 0 -> exists a n, c' !! a = Some n /\ nodeid n = e_ino (snd r) /\
       e_ino (snd r) <> FUSE_ROOT_ID /\ 0 < nlookup n /\ kept (bump (e_ino (snd r)) 1) c c') /\
    (fst r <> 0 -> c' = c).

Lemma looked_table c r l l' : looked c r l -> table l' = table l -> looked c r l'.
Proof. unfold looked. by intros ? ->. Qed.

Lemma looked_error c r l : rep l c -> wf_tree c -> fst r <> 0 -> looked c r l.
Proof. intros Hr Ht Hne. exists c. split_and!; [done | done | apply opens_refl | done | done]. Qed.

Lemma runs_free_looked c r l (Q : unit -> lib S -> Prop) :
  looked c r l -> (forall l', looked c r l' -> Q tt l') -> runs free_string l Q.
Proof.
  intros (c' & Hr & Hrest) HQ. eapply runs_free_string; [done |]. intros l' Hr'. apply HQ.
  by exists c'.
Qed.

Lemma runs_lookup_path l c parent nm path fi (Q : Z * entry_param -> lib S -> Prop) :
  rep l c -> wf_tree c -> roomy c -> known c parent ->
  (forall r l', looked c r l' -> Q r l') ->
  runs (lookup_path alloc_ok char_value ops conf parent nm path fi) l Q.
Proof.
  intros Hr Ht Hroom Hk HQ. unfold lookup_path. apply runs_bind, runs_call.
  { destruct fi; auto with answers. }
  intros [res at_] s. destruct (Z.eqb_spec res 0) as [->|Hne].
  2:{ apply runs_ret, HQ. by eapply looked_error. }
  apply runs_bind, runs_on_table. eapply runs_find_node; [exact Hr | done | done | done | |].
  - intros a n c' f' Hr' Ht' _ Hop _ (n' & p & pn & Ha & Hp & _) Ha' Hkept.
    assert (n' = n) as -> by congruence.
    apply runs_bind, runs_on_table. eapply runs_load_rep; [exact Hr' | done |]. intros m _ He.
    apply runs_ret, HQ. exists c'. split_and!; [done | done | done | | done]. intros _. exists a, n.
    cbn [snd e_ino]. assert (nodeid m = nodeid n) as -> by by rewrite <- He.
    split_and!; [done | done | by eapply entry_not_root | | done].
    pose proof (t_live _ _ _ Ht' a n Ha) as [_ Hge].
    assert (nlookup n <> 0); [| lia]. intros Hz.
    destruct (t_forgot _ _ _ Ht' a n Ha Hz ltac:(done)). congruence.
  - intros _ f' Hr'. apply runs_ret, HQ. apply looked_error; [exact Hr' | done | done].
Qed.

Lemma runs_reply_entry l c r lost (Q : reply -> lib S -> Prop) :
  looked c r l -> (forall x l', served (gain lost x) c l' -> Q x l') -> runs (reply_entry char_value lost r) l Q.
Proof.
  destruct r as [err e]. intros (c' & Hr & Ht & _ & Hg & Hc) HQ. unfold reply_entry. cbn [fst snd] in Hg, Hc.
  destruct (Z.eqb_spec err 0) as [->|].
  2:{ rewrite Hc in Hr, Ht by done. by apply runs_ret, HQ, served_same. }
  destruct (Hg eq_refl) as (a & n & Ha & Hid & Hroot & Hnl & Hkept).
  apply runs_bind. destruct lost.
  - apply runs_on_table. eapply runs_forget_node; [exact Hr | done | |].
    + right. exists a, n. split_and!; [done | done | done | lia | lia].
    + intros c2 f' Hr' Ht' Hk2. apply runs_ret, HQ. eapply served_intro; [exact Hr' | done |].
      eapply kept_trans; [exact Hkept | exact Hk2 |]. intros i. cbn. unfold unchanged, bump. destruct (i =? _); lia.
  - apply runs_ret, runs_ret, HQ. eapply served_intro; [done | done |]. cbn [gain orb].
    destruct (Z.eqb_spec (e_ino e) 0); [| done]. eapply kept_less; [exact Hkept |].
    intros i. unfold unchanged, bump. destruct (i =? _); lia.
Qed.

(** The frame of the requests that end in a lookup. *)
Lemma runs_entry_request l c parent nm (k : bytes -> M (lib S) (Z * entry_param)) lost
  (Q : reply -> lib S -> Prop) :
  rep l c -> wf_tree c -> numbered c parent ->
  (forall path l', rep l' c -> runs (k path) l' (looked c)) ->
  (forall x l', served (gain lost x) c l' -> Q x l') ->
  runs (r ← with_path alloc_ok parent nm (- ENOENT, no_entry) k; reply_entry char_value lost r) l Q.
Proof.
  intros Hr Ht Hn Hk HQ. apply runs_bind. eapply runs_with_path; [done | done | done | |].
  - intros l' Hr'. eapply runs_reply_entry; [by apply looked_error | done].
  - intros path l' Hr'. eapply runs_mono; [by apply Hk |]. intros r l2 Hl2.
    eapply runs_free_looked; [done |]. intros l3 Hl3. by eapply runs_reply_entry.
Qed.

Lemma runs_make_lookup l c parent nm path m :
  rep l c -> wf_tree c -> roomy c -> known c parent -> answers m ->
  runs (make_and_lookup alloc_ok char_value ops conf parent nm path m) l (looked c).
Proof.
  intros Hr Ht Hroom Hk Hm. unfold make_and_lookup. apply runs_bind, runs_call; [done |].
  intros err s. destruct (Z.eqb_spec err 0) as [_|].
  - by eapply runs_lookup_path.
  - apply runs_ret. by apply looked_error.
Qed.

(** What the lookup of a name replies with: an entry, or the entry of number 0 for a name
    that does not exist. *)
Lemma runs_looked_up l c parent nm (Q : Z * entry_param -> lib S -> Prop) :
  rep l c -> wf_tree c -> roomy c -> known c parent ->
  (forall r l', looked c r l' -> Q r l') ->
  (forall e l', negative_timeout conf = true -> e_ino e = 0 -> rep l' c -> Q (0, e) l') ->
  runs (with_path alloc_ok parent (Some nm) (- ENOENT, no_entry) (fun path =>
    r ← lookup_path alloc_ok char_value ops conf parent nm path None;
    let '(err, e) := r in
    mret (if (err =? - ENOENT) && negative_timeout conf
          then (0, EntryParam 0 (e_generation e) (e_attr e)) else (err, e)))) l Q.
Proof.
  intros Hr Ht Hroom Hk HQ Hneg. eapply runs_with_path; [done | done | by apply known_numbered | |].
  - intros l' Hr'. apply HQ. by apply looked_error.
  - intros path l' Hr'. apply runs_bind. eapply runs_lookup_path; [done.. |].
    intros [err e] l2 Hl2. apply runs_ret. destruct (negative_timeout conf) eqn:En.
    + rewrite andb_true_r. destruct (Z.eqb_spec err (- ENOENT)) as [->|].
      * destruct Hl2 as (c2 & Hr2 & _ & _ & _ & Hc2). rewrite Hc2 in Hr2 by done.
        eapply runs_free_string; [exact Hr2 |]. intros l3 Hr3. by apply Hneg.
      * eapply runs_free_looked; [done | by apply HQ].
    + rewrite andb_false_r. eapply runs_free_looked; [done | by apply HQ].
Qed.

Lemma runs_fuse_lib_lookup l c parent nm lost (Q : reply -> lib S -> Prop) :
  rep l c -> wf_tree c -> roomy c -> known c parent ->
  (negative_timeout conf = false \/ lost = false) ->
  (forall x l', served (gain lost x) c l' -> Q x l') ->
  runs (fuse_lib_lookup alloc_ok char_value ops conf parent nm lost) l Q.
Proof.
  intros Hr Ht Hroom Hk Hneg HQ. unfold fuse_lib_lookup. apply runs_bind, (runs_looked_up l c); try done.
  - intros r l' Hl'. by eapply runs_reply_entry.
  - intros e l' En He Hr'. destruct Hneg as [?| ->]; [congruence |]. unfold reply_entry. cbn [Z.eqb]. run.
    apply HQ. cbn [gain orb]. rewrite He. by apply served_same.
Qed.

(** Node 0 is never in the table. *)
Lemma forget_nothing (l : lib S) c : rep l c -> wf_tree c -> on_table (forget_node char_value 0 1) l = Exit 134.
Proof.
  intros Hr Ht. assert (runs (get_node_nocheck 0) (table l) (fun p f' => p = None /\ f' = table l)) as H.
  { eapply runs_get_node_nocheck; [done | | done].
    intros b m _ Hb Hid. pose proof (t_range _ _ _ Ht b m Hb). lia. }
  apply runs_eq in H as (p & f' & E & -> & ->).
  unfold on_table, forget_node. change (0 =? FUSE_ROOT_ID) with false. cbv iota.
  unfold mbind at 1, M_bind at 1. unfold get_node. by rewrite (bind_runs_eq _ _ _ _ _ E).
Qed.

(** A lookup whose reply is lost may abort when such replies are kept. *)
Lemma lost_lookup l c parent nm :
  rep l c -> wf_tree c -> roomy c -> known c parent ->
  (exists x l', fuse_lib_lookup alloc_ok char_value ops conf parent nm true l = Ret (x, l') /\ served (gain true x) c l') \/
  negative_timeout conf = true /\ fuse_lib_lookup alloc_ok char_value ops conf parent nm true l = Exit 134.
Proof.
  intros Hr Ht Hroom Hk. unfold fuse_lib_lookup.
  assert (runs (with_path alloc_ok parent (Some nm) (- ENOENT, no_entry) (fun path =>
    r ← lookup_path alloc_ok char_value ops conf parent nm path None;
    let '(err, e) := r in
    mret (if (err =? - ENOENT) && negative_timeout conf
          then (0, EntryParam 0 (e_generation e) (e_attr e)) else (err, e)))) l (fun r l' =>
      looked c r l' \/ negative_timeout conf = true /\ fst r = 0 /\ e_ino (snd r) = 0 /\ rep l' c)) as H
    by (apply (runs_looked_up l c); auto).
  apply runs_eq in H as ([err e] & l' & E & [Hl|(Hneg & Herr & Hino & Hr')]).
  - left. assert (runs (reply_entry char_value true (err, e)) l' (fun x => served (gain true x) c)) as H2
      by by eapply runs_reply_entry.
    apply runs_eq in H2 as (x & l2 & E2 & H2). exists x, l2. by rewrite (bind_runs_eq _ _ _ _ _ E).
  - right. split; [done |]. rewrite (bind_runs_eq _ _ _ _ _ E). cbn [fst snd] in *. unfold reply_entry.
    rewrite Herr, Hino. cbn [Z.eqb]. unfold mbind, M_bind. by rewrite (forget_nothing l' c).
Qed.

Lemma runs_fuse_lib_mknod l c parent nm mode rdev lost (Q : reply -> lib S -> Prop) :
  rep l c -> wf_tree c -> roomy c -> known c parent ->
  (forall x l', served (gain lost x) c l' -> Q x l') ->
  runs (fuse_lib_mknod alloc_ok char_value ops conf parent nm mode rdev lost) l Q.
Proof.
  intros Hr Ht Hroom Hk HQ. unfold fuse_lib_mknod.
  eapply runs_entry_request; [done | done | by apply known_numbered | | done].
  intros path l' Hr'. apply runs_bind.
  assert (forall r l2, looked c r l2 -> runs (if fst r =? - ENOSYS
    then make_and_lookup alloc_ok char_value ops conf parent nm path (fuse_fs_mknod ops path mode rdev)
    else mret r) l2 (looked c)) as Hrest.
  { intros r l2 Hl2. destruct (Z.eqb_spec (fst r) (- ENOSYS)) as [E|]; [| by apply runs_ret].
    destruct Hl2 as (c2 & Hr2 & Ht2 & _ & _ & Hc2).
    rewrite Hc2 in Hr2 by (rewrite E; done). apply runs_make_lookup; auto with answers. }
  destruct (S_ISREG mode); [| apply runs_ret, Hrest; by apply looked_error].
  apply runs_bind, runs_call; [auto with answers |]. intros [err fi] s.
  destruct (Z.eqb_spec err 0); [| apply runs_ret, Hrest; by apply looked_error].
  apply runs_bind. eapply runs_lookup_path; [done.. |]. intros r l2 Hl2.
  apply runs_bind, runs_call; [auto with answers |]. intros _ s2. apply runs_ret, Hrest.
  by eapply looked_table.
Qed.

Lemma runs_fuse_lib_link l c ino parent nm lost (Q : reply -> lib S -> Prop) :
  rep l c -> wf_tree c -> roomy c -> known c parent -> numbered c ino ->
  (forall x l', served (gain lost x) c l' -> Q x l') ->
  runs (fuse_lib_link alloc_ok char_value ops conf ino parent nm lost) l Q.
Proof.
  intros Hr Ht Hroom Hk Hino HQ. unfold fuse_lib_link.
  eapply runs_entry_request; [done | done | done | | done]. intros oldpath l1 Hr1.
  eapply runs_with_path; [exact Hr1 | done | by apply known_numbered | |].
  - intros l2 Hr2. by apply looked_error.
  - intros newpath l2 Hr2. eapply runs_mono; [apply runs_make_lookup; [exact Hr2 | auto with answers..] |].
    intros r l3 Hl3. eapply runs_free_looked; [done |]. done.
Qed.

(** ** Removal *)

(** The end of the requests that remove an entry. *)
Lemma runs_remove l c parent nm (m : M S Z) (Q : Z -> lib S -> Prop) :
  rep l c -> wf_tree c -> answers m ->
  (forall err l', served unchanged c l' -> Q err l') ->
  runs (err ← call m;
        _ ← (if err =? 0 then on_table (remove_node char_value parent nm) else mret tt);
        mret err) l Q.
Proof.
  intros Hr Ht Hm HQ. apply runs_bind, runs_call; [done |]. intros err s. apply runs_bind.
  destruct (err =? 0).
  - apply runs_on_table. eapply runs_remove_node; [exact Hr | done |]. intros c' f' Hr' Ht' Hk.
    apply runs_ret, HQ. by eapply served_intro.
  - apply runs_ret, runs_ret, HQ. by apply served_same.
Qed.

Lemma runs_free_served d c l (Q : unit -> lib S -> Prop) :
  served d c l -> (forall l', served d c l' -> Q tt l') -> runs free_string l Q.
Proof.
  intros (c' & Hr & Ht & Hk) HQ. eapply runs_free_string; [done |]. intros l' Hr'. apply HQ.
  by eapply served_intro.
Qed.

(** The frame of the requests that answer with an error number. *)
Lemma runs_err_request l c ino nm (k : bytes -> M (lib S) Z) (Q : reply -> lib S -> Prop) :
  rep l c -> wf_tree c -> numbered c ino ->
  (forall path l', rep l' c -> runs (k path) l' (fun _ => served unchanged c)) ->
  (forall x l', served unchanged c l' -> Q x l') ->
  runs (err ← with_path alloc_ok ino nm (- ENOENT) k; reply_err err) l Q.
Proof.
  intros Hr Ht Hn Hk HQ. apply runs_bind. eapply runs_with_path; [done | done | done | |].
  - intros l' Hr'. apply runs_ret, HQ. by apply served_same.
  - intros path l' Hr'. eapply runs_mono; [by apply Hk |]. intros r l2 Hl2.
    eapply runs_free_served; [exact Hl2 |]. intros l3 Hl3. by apply runs_ret, HQ.
Qed.

(** What happens to a name that is removed or replaced, which is open or not. *)
Lemma runs_hide_if (b : bool) l c path dir nm (Q : Z -> lib S -> Prop) :
  rep l c -> wf_tree c -> Z.of_nat (size c) + 3 <= 2 ^ 31 -> known c dir ->
  (forall err c' l', rep l' c' -> wf_tree c' -> moved dir c c' -> Q err l') ->
  runs (if b then hide_node alloc_ok char_value ops path dir nm else mret 0) l Q.
Proof.
  intros Hr Ht Hs Hk HQ. destruct b; [by eapply runs_hide_node |].
  apply runs_ret. eapply HQ; [done | done | apply moves_refl].
Qed.

Lemma runs_fuse_lib_unlink l c parent nm (Q : reply -> lib S -> Prop) :
  rep l c -> wf_tree c -> known c parent -> Z.of_nat (size c) + 3 <= 2 ^ 31 ->
  (forall x l', served unchanged c l' -> Q x l') ->
  runs (fuse_lib_unlink alloc_ok char_value ops conf parent nm) l Q.
Proof.
  intros Hr Ht Hk Hs HQ. unfold fuse_lib_unlink.
  eapply runs_err_request; [done | done | by apply known_numbered | | done]. intros path l' Hr'.
  apply runs_bind. eapply runs_is_open; [exact Hr' |]. intros [].
  - eapply runs_hide_node; [exact Hr' | done | done | done |]. intros err c2 l2 Hr2 Ht2 (_ & _ & Hkept & _).
    by eapply served_intro.
  - eapply runs_remove; [exact Hr' | done | auto with answers | done].
Qed.

(** The entries of other directories are as they were. *)
Lemma moved_entry dir c c' id nm a n :
  wf_tree c' -> moved dir c c' -> entry c' id nm a -> c' !! a = Some n -> nodeid n = dir ->
  exists k, entry c id nm a /\ c !! a = Some k /\ nodeid k = dir.
Proof.
  intros Ht (_ & _ & _ & Hm) (n' & p & pn & Ha & Hp & Hpn & Hid & Hnm) Ha' E. simplify_eq.
  destruct (Hm a n' Ha) as (k & Hk & Hkid & Hpar). exists k. split_and!; [| done | congruence].
  destruct (Hpar p Hp) as [[Hkp Hkn]|Hdir].
  - destruct (Hm p pn Hpn) as (pk & Hpk & Hpkid & _). exists k, p, pk. split_and!; congruence.
  - destruct (t_parent _ _ _ Ht a n' p Ha Hp) as [Hpa _]. destruct Hpa.
    eapply (t_ids _ _ _ Ht); [done | done |]. by apply Hdir.
Qed.

Lemma runs_fuse_lib_rename l c olddir oldname newdir newname (Q : reply -> lib S -> Prop) :
  rep l c -> wf_tree c -> numbered c olddir -> known c newdir ->
  Z.of_nat (size c) + 3 <= 2 ^ 31 ->
  (forall a n, entry c olddir oldname a -> c !! a = Some n -> nodeid n <> newdir) ->
  (forall x l', served unchanged c l' -> Q x l') ->
  runs (fuse_lib_rename alloc_ok char_value ops conf olddir oldname newdir newname) l Q.
Proof.
  intros Hr Ht Hn Hk Hsize Hself HQ. unfold fuse_lib_rename.
  eapply runs_err_request; [done | done | done | | done]. intros oldpath l1 Hr1.
  eapply runs_with_path; [exact Hr1 | done | by apply known_numbered | |].
  { intros l2 Hr2. by apply served_same. }
  intros newpath l2 Hr2. apply runs_bind. eapply runs_is_open; [exact Hr2 |]. intros b.
  apply runs_bind. eapply runs_hide_if; [exact Hr2 | done | done | done |].
  intros err c3 l3 Hr3 Ht3 Hm. pose proof Hm as (Hs3 & Hk3 & Hkept3 & _).
  assert (served unchanged c l3) as Hwf3 by by eapply served_intro.
  destruct (err =? 0); [| apply runs_ret; by eapply runs_free_served].
  apply runs_bind, runs_call; [auto with answers |]. intros err2 s2.
  destruct (err2 =? 0); [| apply runs_ret; by eapply runs_free_served].
  apply runs_on_table.
  eapply runs_rename_node; [exact Hr3 | done | lia | auto | |].
  - intros a n He Ha E. destruct (moved_entry _ _ _ _ _ _ _ Ht3 Hm He Ha E) as (k & ? & ? & ?).
    by eapply Hself.
  - intros r c' f' Hr' Ht' (_ & _ & Hkept & _). eapply runs_free_served; [| done].
    eapply served_intro; [exact Hr' | done | by eapply kept_unchanged].
Qed.

(** ** Open files *)

(** Room for one more open file. *)
Definition openable (c : gmap nat node) : Prop :=
  forall a n, c !! a = Some n -> 0 <= open_count n < 2 ^ 31 - 1.

(** A node whose count of open files, or flag, is changed. *)
Lemma tree_flags c a n n' :
  wf_tree c -> c !! a = Some n -> nodeid n' = nodeid n -> parent n' = parent n ->
  name n' = name n -> refctr n' = refctr n -> nlookup n' = nlookup n -> wf_tree (<[a := n']> c).
Proof.
  intros Ht Ha Hid Hp Hn Hrc Hnl. pose proof (t_live _ _ _ Ht a n Ha) as [? ?].
  eapply tree_change; try done; rewrite ?Hrc, ?Hnl; try done.
  - intros _ Hz. eapply (t_forgot _ _ _ Ht); done.
  - intros Hr Hz. destruct (t_root _ _ _ Ht) as (r & m & Hm & Hmid & _ & Hml).
    assert (a = r) as -> by (apply (t_ids _ _ _ Ht a r n m); congruence). congruence.
  - by apply (t_range _ _ _ Ht a n).
Qed.

Lemma kept_flags c a n n' :
  c !! a = Some n -> nodeid n' = nodeid n -> nlookup n' = nlookup n -> kept unchanged c (<[a := n']> c).
Proof.
  intros Ha Hid Hn. apply kept_nodes. intros b m Hb _. destruct (decide (a = b)) as [<-|].
  - exists a, n'. rewrite lookup_insert_eq. simplify_eq. split_and!; [done | done | lia].
  - exists b, m. by rewrite lookup_insert_ne.
Qed.

Lemma runs_flags f c a n g n' (Q : unit -> fuse -> Prop) :
  FuseNodesSpec.rep char_value table_size table_size f c None None -> wf_tree c -> c !! a = Some n ->
  (forall m, erase m = n -> erase (g m) = n' /\ id_next (g m) = id_next m /\ name_next (g m) = name_next m) ->
  nodeid n' = nodeid n -> parent n' = parent n -> name n' = name n -> refctr n' = refctr n ->
  nlookup n' = nlookup n ->
  (forall f', FuseNodesSpec.rep char_value table_size table_size f' (<[a := n']> c) None None ->
     wf_tree (<[a := n']> c) -> kept unchanged c (<[a := n']> c) -> Q tt f') ->
  runs (update a g) f Q.
Proof.
  intros Hr Ht Ha Hg Hid Hp Hn Hrc Hnl HQ.
  eapply runs_update_rep; [done | done | exact Hg | done | left; split_and!; done |].
  intros f' Hr' _. apply HQ; [done | by eapply tree_flags |]. by eapply kept_flags.
Qed.

(** The node [a] is numbered [ino] and has [k] lookups and [o] open files. *)
Definition in_use (c : gmap nat node) (ino k o : Z) : Prop :=
  exists a n, c !! a = Some n /\ nodeid n = ino /\ nlookup n = k /\ open_count n = o.

Lemma runs_opened l c ino k o (Q : unit -> lib S -> Prop) :
  rep l c -> wf_tree c -> in_use c ino k o -> 0 <= o < 2 ^ 31 - 1 ->
  (forall c' l', rep l' c' -> wf_tree c' -> in_use c' ino k (o + 1) -> kept unchanged c c' -> Q tt l') ->
  runs (opened ino) l Q.
Proof.
  intros Hr Ht (a & n & Ha & Hid & Hk & Ho) Hlt HQ. unfold opened.
  apply runs_bind, runs_on_table. eapply runs_number; [exact Hr | done | by exists a, n |].
  intros b m Hb Hbid. assert (b = a) as -> by (eapply (t_ids _ _ _ Ht); [done | done | congruence]).
  simplify_eq. apply runs_bind, runs_on_table. eapply runs_load_rep; [exact Hr | done |].
  intros m _ He. assert (open_count m = open_count n) as -> by by rewrite <- He.
  apply runs_bind, runs_assert; [unfold in_i32; apply in_range_spec; lia |].
  apply runs_on_table. eapply (runs_flags _ _ a n _ (set_open_count (open_count n + 1) n));
    [exact Hr | done | done | | done.. |].
  { intros j Hj. by rewrite <- Hj. }
  intros f' Hr' Ht' Hkept. eapply HQ; [exact Hr' | done | | done]. eexists a, _. by rewrite lookup_insert_eq.
Qed.

Lemma runs_fuse_do_release l c ino k o path fi (Q : unit -> lib S -> Prop) :
  rep l c -> wf_tree c -> in_use c ino k o -> 0 < o ->
  (forall c' l', rep l' c' -> wf_tree c' -> in_use c' ino k (o - 1) -> kept unchanged c c' -> Q tt l') ->
  runs (fuse_do_release ops ino path fi) l Q.
Proof.
  intros Hr Ht (a & n & Ha & Hid & Hk & Ho) Hlt HQ. unfold fuse_do_release.
  apply runs_bind, runs_call; [auto with answers |]. intros _ s.
  apply runs_bind, runs_on_table. eapply runs_number; [exact Hr | done | by exists a, n |].
  intros b m Hb Hbid. assert (b = a) as -> by (eapply (t_ids _ _ _ Ht); [done | done | congruence]).
  simplify_eq. apply runs_bind, runs_on_table. eapply runs_load_rep; [exact Hr | done |].
  intros m _ He. assert (open_count m = open_count n) as -> by by rewrite <- He.
  replace (open_count n <=? 0) with false by lia.
  apply runs_bind, runs_on_table.
  set (n1 := set_open_count (open_count n - 1) n).
  eapply (runs_flags _ _ a n _ n1); [exact Hr | done | done | | done.. |].
  { intros j Hj. unfold n1. by rewrite <- Hj. }
  intros f1 Hr1 Ht1 Hkept1. cbv zeta. set (uh := negb _ && _). apply runs_bind.
  assert (forall c' l', rep l' c' -> wf_tree c' -> in_use c' (nodeid n) (nlookup n) (open_count n - 1) ->
    kept unchanged c c' -> runs (match path with
          | Some path => if uh then _ ← call (fuse_fs_unlink ops path); mret tt else mret tt
          | None => mret tt
          end) l' Q) as Hend.
  { intros c' l' Hr' Ht' Hu Hk'. destruct path as [path|]; [| apply runs_ret; by eapply HQ].
    destruct uh; [| apply runs_ret; by eapply HQ].
    apply runs_bind, runs_call; [auto with answers |]. intros _ s'. apply runs_ret. by eapply HQ. }
  destruct uh.
  - apply runs_on_table. eapply (runs_flags _ _ a n1 _ (set_hidden 0 n1));
      [exact Hr1 | done | apply lookup_insert_eq | | done.. |].
    { intros j Hj. by rewrite <- Hj. }
    intros f2 Hr2 Ht2 Hkept2. eapply Hend; [exact Hr2 | done | | by eapply kept_unchanged].
    eexists a, _. by rewrite lookup_insert_eq.
  - apply runs_ret. eapply Hend; [exact Hr1 | done | | done]. eexists a, _. by rewrite lookup_insert_eq.
Qed.

Lemma numbered_in_use c ino : openable c -> numbered c ino ->
  exists k o, in_use c ino k o /\ 0 <= o < 2 ^ 31 - 1.
Proof. intros Ho (a & n & Ha & Hid). exists (nlookup n), (open_count n). split; [by exists a, n | eauto]. Qed.

Lemma in_use_numbered c ino k o : in_use c ino k o -> numbered c ino.
Proof. intros (a & n & ? & ? & _). by exists a, n. Qed.

(** The path is freed, if there was one. *)
Lemma runs_free_path (path : option bytes) d c l (Q : unit -> lib S -> Prop) :
  served d c l -> (forall l', served d c l' -> Q tt l') ->
  runs (if path is Some _ then free_string else mret tt) l Q.
Proof. intros Hl HQ. destruct path; [by eapply runs_free_served | by apply runs_ret, HQ]. Qed.

Lemma runs_fuse_lib_open l c ino fi lost (Q : reply -> lib S -> Prop) :
  rep l c -> wf_tree c -> numbered c ino -> openable c -> (forall x l', served unchanged c l' -> Q x l') ->
  runs (fuse_lib_open alloc_ok ops conf ino fi lost) l Q.
Proof.
  intros Hr Ht Hn Ho HQ. unfold fuse_lib_open. apply runs_bind, runs_on_table.
  eapply runs_get_path_name; [exact Hr | done | done |]. intros path f1 Hr1. apply runs_bind.
  eapply (runs_mono _ _ (fun _ l' => rep l' c)).
  { destruct path as [path|]; [| by apply runs_ret].
    apply runs_bind, runs_call; [auto with answers |]. intros [err fi'] s. by apply runs_ret. }
  intros [err fi'] l2 Hr2. apply runs_bind.
  eapply (runs_mono _ _ (fun _ => served unchanged c)).
  2:{ intros x l3 Hl3. apply runs_bind. eapply runs_free_path; [done |]. intros l4 Hl4. by apply runs_ret, HQ. }
  destruct (err =? 0); [| apply runs_ret; by apply served_same].
  destruct (numbered_in_use c ino Ho Hn) as (k & o & Hu & Hlt).
  apply runs_bind. eapply runs_opened; [exact Hr2 | done | done | done |]. intros c3 l3 Hr3 Ht3 Hu3 Hk3.
  apply runs_bind. destruct lost; [| apply runs_ret, runs_ret; by eapply served_intro].
  eapply runs_fuse_do_release; [exact Hr3 | done | done | lia |]. intros c4 l4 Hr4 Ht4 _ Hk4.
  apply runs_ret. eapply served_intro; [done | done | by eapply kept_unchanged].
Qed.

Lemma runs_fuse_lib_release l c ino k o fi (Q : reply -> lib S -> Prop) :
  rep l c -> wf_tree c -> in_use c ino k o -> 0 < o -> (forall x l', served unchanged c l' -> Q x l') ->
  runs (fuse_lib_release alloc_ok ops ino fi) l Q.
Proof.
  intros Hr Ht Hu Hlt HQ. unfold fuse_lib_release. apply runs_bind, runs_on_table.
  eapply runs_get_path_name; [exact Hr | done | by eapply in_use_numbered |]. intros path f1 Hr1.
  apply runs_bind. eapply runs_fuse_do_release; [exact Hr1 | done | done | done |].
  intros c2 l2 Hr2 Ht2 _ Hk2. apply runs_bind. eapply runs_free_path; [by eapply served_intro |].
  intros l3 Hl3. by apply runs_ret, HQ.
Qed.

Lemma in_use_opens c c' a n ino :
  openable c -> opens c c' -> c' !! a = Some n -> nodeid n = ino ->
  in_use c' ino (nlookup n) (open_count n) /\ 0 <= open_count n < 2 ^ 31 - 1.
Proof.
  intros Ho Hop Ha Hid. split; [by exists a, n |].
  destruct (Hop a n Ha) as [->|(m & Hm & ->)]; [lia | by eapply Ho].
Qed.

Lemma runs_forget_one l c ino k o (Q : unit -> lib S -> Prop) :
  rep l c -> wf_tree c -> in_use c ino k o -> ino <> FUSE_ROOT_ID -> 0 < k ->
  (forall l', served (bump ino (-1)) c l' -> Q tt l') ->
  runs (on_table (forget_node char_value ino 1)) l Q.
Proof.
  intros Hr Ht (a & n & Ha & Hid & Hk & _) Hroot Hpos HQ. apply runs_on_table.
  eapply runs_forget_node; [exact Hr | done | |].
  - right. exists a, n. split_and!; [done | done | done | lia | lia].
  - intros c' f' Hr' Ht' Hkept. apply HQ. by eapply served_intro.
Qed.

(** The part of [fuse_lib_create] before the reply. *)
Lemma runs_create_node l c parent nm path mode fi
  (Q : Z * entry_param * file_info -> lib S -> Prop) :
  rep l c -> wf_tree c -> roomy c -> known c parent -> openable c ->
  (forall err e fi l', err <> 0 -> served unchanged c l' -> Q (err, e, fi) l') ->
  (forall e fi c' l' k o, rep l' c' -> wf_tree c' -> in_use c' (e_ino e) k o ->
     e_ino e <> FUSE_ROOT_ID -> 0 < k -> 0 <= o < 2 ^ 31 - 1 -> kept (bump (e_ino e) 1) c c' ->
     Q (0, e, fi) l') ->
  runs (c ← call (fuse_fs_create ops path mode fi);
        let '(err, fi) := c in
        if err =? 0 then
          r ← lookup_path alloc_ok char_value ops conf parent nm path (Some fi);
          let '(err, e) := r in
          if negb (err =? 0) then
            _ ← call (fuse_fs_release ops path fi);
            mret (err, e, fi)
          else if negb (S_ISREG (st_mode (a_stat (e_attr e)))) then
            _ ← call (fuse_fs_release ops path fi);
            _ ← on_table (forget_node char_value (e_ino e) 1);
            mret (- EIO, e, fi)
          else mret (0, e, open_flags conf fi)
        else mret (err, no_entry, fi)) l Q.
Proof.
  intros Hr Ht Hroom Hk Ho HQ0 HQ. apply runs_bind, runs_call; [auto with answers |].
  intros [err fi'] s. destruct (Z.eqb_spec err 0) as [_|].
  2:{ apply runs_ret, HQ0; [done | by apply served_same]. }
  apply runs_bind. eapply runs_lookup_path; [exact Hr | done | done | done |].
  intros [err2 e] l2 (c2 & Hr2 & Ht2 & Hop & Hg & Hc2). cbn [fst snd] in Hg, Hc2.
  destruct (Z.eqb_spec err2 0) as [->|]; cbn [negb].
  2:{ apply runs_bind, runs_call; [auto with answers |]. intros _ s2.
      rewrite Hc2 in Hr2 by done. apply runs_ret, HQ0; [done | by apply served_same]. }
  destruct (Hg eq_refl) as (a & n & Ha & Hid & Hroot & Hnl & Hkept).
  destruct (in_use_opens c c2 a n _ Ho Hop Ha Hid) as [Hu Hlt].
  destruct (S_ISREG _); cbn [negb].
  - apply runs_ret. eapply HQ; [exact Hr2 | done..].
  - apply runs_bind, runs_call; [auto with answers |]. intros _ s2. apply runs_bind.
    eapply runs_forget_one; [exact Hr2 | done | done | done | done |]. intros l3 Hl3.
    destruct Hl3 as (c3 & Hr3 & Ht3 & Hk3). apply runs_ret, HQ0; [done |]. eapply served_intro; [done | done |].
    eapply kept_trans; [exact Hkept | exact Hk3 |]. intros i. unfold unchanged, bump. destruct (i =? _); lia.
Qed.

Lemma runs_fuse_lib_create l c parent nm mode fi lost (Q : reply -> lib S -> Prop) :
  rep l c -> wf_tree c -> roomy c -> known c parent -> openable c ->
  (forall x l', served (gain lost x) c l' -> Q x l') ->
  runs (fuse_lib_create alloc_ok char_value ops conf parent nm mode fi lost) l Q.
Proof.
  intros Hr Ht Hroom Hk Ho HQ. unfold fuse_lib_create. apply runs_bind, runs_on_table.
  eapply runs_get_path_name; [exact Hr | done | by apply known_numbered |]. intros path f1 Hr1.
  set (l1 := Lib f1 _ _). assert (rep l1 c) as Hl1 by exact Hr1.
  assert (forall x l', served (gain lost x) c l' -> runs (_ ← (if path is Some _ then free_string else mret tt); mret x)
    l' Q) as Hend.
  { intros x l' Hl'. apply runs_bind. eapply runs_free_path; [done |]. intros l2 Hl2. by apply runs_ret, HQ. }
  assert (forall err e fi l', err <> 0 -> served unchanged c l' ->
    runs (rep ← (if err =? 0 then
           _ ← opened (e_ino e);
           _ ← (if lost then
                  _ ← fuse_do_release ops (e_ino e) path fi;
                  on_table (forget_node char_value (e_ino e) 1)
                else mret tt);
           mret (ReplyCreate e fi)
         else reply_err err);
      _ ← (if path is Some _ then free_string else mret tt); mret rep) l' Q) as Herr.
  { intros err e fi' l' Hne Hl'. replace (err =? 0) with false by lia. apply runs_bind, runs_ret.
    by apply Hend. }
  apply runs_bind. destruct path as [path|].
  2:{ apply runs_ret. apply Herr; [done | by apply served_same]. }
  eapply runs_create_node; [done | done | done | done | done | exact Herr |].
  intros e fi' c2 l2 k o Hr2 Ht2 Hu Hroot Hk0 Hlt Hk2. cbn [Z.eqb]. apply runs_bind, runs_bind.
  eapply runs_opened; [exact Hr2 | done | done | done |]. intros c3 l3 Hr3 Ht3 Hu3 Hk3. apply runs_bind.
  destruct lost.
  - apply runs_bind. eapply runs_fuse_do_release; [exact Hr3 | done | done | lia |].
    intros c4 l4 Hr4 Ht4 Hu4 Hk4. eapply runs_forget_one; [exact Hr4 | done | done | done | done |].
    intros l5 Hl5. destruct (served_after _ _ _ _ (kept_unchanged _ _ _ Hk3 Hk4) Hl5) as (c5 & Hr5 & Ht5 & Hk5).
    apply runs_ret, Hend. eapply served_intro; [done | done |]. eapply kept_trans; [exact Hk2 | exact Hk5 |].
    intros i. cbn. unfold unchanged, bump. destruct (i =? _); lia.
  - apply runs_ret, runs_ret, Hend. eapply served_intro; [done | done |].
    eapply kept_trans; [exact Hk2 | exact Hk3 |]. intros i. cbn. unfold unchanged, bump.
    destruct (_ =? 0), (i =? _); lia.
Qed.

(** ** Requests that ask the file system *)

Lemma runs_reply_attr ino r l (Q : reply -> lib S -> Prop) :
  (forall x, Q x l) -> runs (reply_attr conf ino r) l Q.
Proof. intros HQ. destruct r as [err buf]. unfold reply_attr. destruct (err =? 0); by apply runs_ret. Qed.

Lemma runs_fuse_lib_getattr l c ino (Q : reply -> lib S -> Prop) :
  rep l c -> wf_tree c -> numbered c ino -> (forall x l', served unchanged c l' -> Q x l') ->
  runs (fuse_lib_getattr alloc_ok ops conf ino) l Q.
Proof.
  intros Hr Ht Hn HQ. apply runs_bind. eapply runs_ask; [done | done | done | auto with answers |].
  intros r l' Hr'. apply runs_reply_attr. intros x. by apply HQ, served_same.
Qed.

Lemma runs_and_then err b m l c (Q : Z -> lib S -> Prop) :
  answers m -> rep l c -> (forall err l', rep l' c -> Q err l') -> runs (and_then err b m) l Q.
Proof.
  intros Hm Hr HQ. unfold and_then. destruct (_ && b); [| by apply runs_ret, HQ].
  apply runs_call; [done |]. intros z s. by apply HQ.
Qed.

Lemma runs_fuse_lib_setattr l c ino a valid fi (Q : reply -> lib S -> Prop) :
  rep l c -> wf_tree c -> numbered c ino -> (forall x l', served unchanged c l' -> Q x l') ->
  runs (fuse_lib_setattr alloc_ok ops conf ino a valid fi) l Q.
Proof.
  intros Hr Ht Hn HQ. unfold fuse_lib_setattr. apply runs_bind.
  assert (forall r l', rep l' c -> runs (reply_attr conf ino r) l' Q) as Hend.
  { intros r l' Hr'. apply runs_reply_attr. intros x. by apply HQ, served_same. }
  eapply runs_with_path; [done | done | done | auto |]. intros path l1 Hr1.
  do 4 (apply runs_bind; eapply runs_and_then;
    [try destruct fi; auto with answers | eassumption | clear dependent l1; intros ? l1 Hr1]).
  destruct (_ =? 0).
  - apply runs_call; [auto with answers |]. intros r s. eapply runs_free_string; [exact Hr1 | auto].
  - apply runs_ret. eapply runs_free_string; [exact Hr1 | auto].
Qed.

Lemma runs_fuse_lib_read l c ino size off fi (Q : reply -> lib S -> Prop) :
  rep l c -> wf_tree c -> numbered c ino -> 0 <= size -> (forall x l', served unchanged c l' -> Q x l') ->
  runs (fuse_lib_read alloc_ok ops ino size off fi) l Q.
Proof.
  intros Hr Ht Hn Hsize HQ. unfold fuse_lib_read. apply runs_bind, runs_on_table.
  eapply runs_node_malloc; [exact Hr | |].
  2:{ intros _ f' Hr'. apply runs_ret, HQ. by apply served_same. }
  intros f' Hr' _. apply runs_bind.
  assert (forall res buf l', res <= size -> rep l' c ->
    runs (rep ← (if 0 <=? res then
             _ ← assert_defined (res <=? size); mret (ReplyBuf (take (Z.to_nat res) buf))
           else reply_err res); _ ← free_string; mret rep) l' Q) as Hend.
  { intros res buf l' Hle Hl'. apply runs_bind. apply (runs_mono _ _ (fun _ l2 => l2 = l')).
    - destruct (0 <=? res); [| by apply runs_ret]. apply runs_bind, runs_assert; [lia |]. by apply runs_ret.
    - intros x l2 ->. apply runs_bind. eapply runs_free_string; [done |]. intros l3 Hl3.
      apply runs_ret, HQ. by apply served_same. }
  eapply runs_with_path; [exact Hr' | done | done | |].
  { intros l' Hl'. apply Hend; [unfold ENOENT; lia | done]. }
  intros path l1 Hl1. destruct (fs_read path size off fi (fs l1) Hsize) as (res & buf & s & E & Hle).
  unfold runs at 1, call. rewrite E. eapply runs_free_string; [exact Hl1 |]. intros l2 Hl2. by apply Hend.
Qed.

Lemma runs_fuse_lib_statfs l c ino (Q : reply -> lib S -> Prop) :
  rep l c -> wf_tree c -> ino = 0 \/ numbered c ino -> (forall x l', served unchanged c l' -> Q x l') ->
  runs (fuse_lib_statfs alloc_ok ops ino) l Q.
Proof.
  intros Hr Ht Hn HQ. unfold fuse_lib_statfs. apply runs_bind.
  assert (forall r l', rep l' c ->
    runs (let '(err, buf) := r in if err =? 0 then mret (ReplyStatfs buf) else reply_err err) l' Q) as Hend.
  { intros [err buf] l' Hl'. destruct (err =? 0); by apply runs_ret, HQ, served_same. }
  destruct (Z.eqb_spec ino 0) as [|Hne].
  - apply runs_bind, runs_on_table. eapply runs_node_malloc; [exact Hr | |].
    + intros f' Hr' _. apply runs_bind, runs_call; [auto with answers |]. intros r s. apply runs_bind.
      eapply runs_free_string; [exact Hr' |]. intros l' Hl'. by apply runs_ret, Hend.
    + intros _ f' Hr'. apply runs_ret. by apply (Hend (- ENOMEM, Statvfs 0 0 0 0 0 0 0 0)).
  - destruct Hn as [|Hn]; [done |]. eapply runs_ask; [done | done | done | auto with answers | exact Hend].
Qed.

Lemma runs_xattr_reply l c ino size (ask : bytes -> Z -> M S (Z * bytes)) (Q : reply -> lib S -> Prop) :
  rep l c -> wf_tree c -> numbered c ino -> 0 <= size ->
  (forall path n s, 0 <= n -> exists res buf s', ask path n s = Ret (res, buf, s') /\ (n <> 0 -> res <= n)) ->
  (forall x l', served unchanged c l' -> Q x l') ->
  runs (xattr_reply alloc_ok size (fun n =>
    with_path alloc_ok ino None (- ENOENT, []) (fun path => call (ask path n)))) l Q.
Proof.
  intros Hr Ht Hn Hsize Hask HQ. unfold xattr_reply.
  assert (forall n l0 (R : Z * bytes -> lib S -> Prop), rep l0 c -> 0 <= n ->
    (forall res buf l', (n <> 0 -> res <= n) -> rep l' c -> R (res, buf) l') ->
    runs (with_path alloc_ok ino None (- ENOENT, []) (fun path => call (ask path n))) l0 R) as Hcommon.
  { intros n l0 R Hl0 Hn0 HR. eapply runs_with_path; [done | done | done | |].
    { intros l' Hl'. apply HR; [unfold ENOENT; lia | done]. }
    intros path l' Hl'. destruct (Hask path n (fs l') Hn0) as (res & buf & s & E & Hle).
    unfold runs at 1, call. rewrite E. eapply runs_free_string; [exact Hl' |]. auto. }
  destruct (Z.eqb_spec size 0) as [|Hne]; cbn [negb].
  - apply runs_bind, Hcommon; [done | done |]. intros res buf l' _ Hl'. cbn [fst].
    destruct (0 <=? res); by apply runs_ret, HQ, served_same.
  - apply runs_bind, runs_on_table. eapply runs_node_malloc; [exact Hr | |].
    2:{ intros _ f' Hr'. apply runs_ret, HQ. by apply served_same. }
    intros f' Hr' _. apply runs_bind, Hcommon; [exact Hr' | done |]. intros res buf l' Hle Hl'.
    apply runs_bind. apply (runs_mono _ _ (fun _ l2 => l2 = l')).
    + destruct (Z.ltb_spec 0 res); [| by apply runs_ret]. apply runs_bind, runs_assert; [lia |]. by apply runs_ret.
    + intros x l2 ->. apply runs_bind. eapply runs_free_string; [done |]. intros l3 Hl3.
      apply runs_ret, HQ. by apply served_same.
Qed.

(** ** All of them *)

(** What the kernel asks: it names directories and nodes that it knows, forgets no
    more than it has looked up, releases what is open, moves nothing into itself,
    and no reply about a missing name is lost when such replies are kept. *)
Definition lib_allowed (c : gmap nat node) (q : FuseLib.request) : Prop :=
  match q with
  | Lookup parent _ lost =>
      known c parent /\ roomy c /\ (negative_timeout conf = false \/ lost = false)
  | FuseLib.Forget id k => allowed c (FuseNodesProps.Forget id k)
  | Mknod parent _ _ _ _ | Mkdir parent _ _ _ | Symlink _ parent _ _ => known c parent /\ roomy c
  | Link ino parent _ _ => numbered c ino /\ known c parent /\ roomy c
  | Unlink parent _ => known c parent /\ Z.of_nat (size c) + 3 <= 2 ^ 31
  | Rmdir parent _ => numbered c parent
  | FuseLib.Rename olddir oldname newdir newname =>
      numbered c olddir /\
      allowed c (FuseNodesProps.Rename olddir oldname newdir newname 0)
  | Create parent _ _ _ _ => known c parent /\ roomy c /\ openable c
  | Open ino _ _ => numbered c ino /\ openable c
  | Release ino _ => exists k o, in_use c ino k o /\ 0 < o
  | Read ino size _ _ => numbered c ino /\ 0 <= size
  | Getxattr ino _ size | Listxattr ino size => numbered c ino /\ 0 <= size
  | Statfs ino => ino = 0 \/ numbered c ino
  | Getattr ino | Setattr ino _ _ _ | Access ino _ | Readlink ino | Write ino _ _ _ | Fsync ino _ _
  | Setxattr ino _ _ _ | Removexattr ino _ | Bmap ino _ _ => numbered c ino
  end.

Abbreviation serve_lib := (fuse_path_ops alloc_ok char_value ops conf).

(** The requests that only ask, with any reply. *)
Lemma runs_ask_reply {A} l c ino none (m : bytes -> M S A) (out : A -> M (lib S) reply)
  (Q : reply -> lib S -> Prop) :
  rep l c -> wf_tree c -> numbered c ino -> (forall path, answers (m path)) ->
  (forall r l', exists x, out r l' = Ret (x, l')) -> (forall x l', served unchanged c l' -> Q x l') ->
  runs (r ← with_path alloc_ok ino None none (fun path => call (m path)); out r) l Q.
Proof.
  intros Hr Ht Hn Hm Hout HQ. apply runs_bind. eapply runs_ask; [done | done | done | done |].
  intros r l' Hr'. destruct (Hout r l') as [x E]. unfold runs. rewrite E.
  by apply HQ, served_same.
Qed.

(** What a request gives the kernel to forget, or takes. *)
Definition gains (q : FuseLib.request) (x : reply) : Z -> Z :=
  match q with
  | Lookup _ _ lost | Mknod _ _ _ _ lost | Mkdir _ _ _ lost | Symlink _ _ _ lost | Link _ _ _ lost
  | Create _ _ _ _ lost => gain lost x
  | FuseLib.Forget id k => bump id (- Z.max 0 k)
  | _ => unchanged
  end.

Lemma serve_lib_served l q :
  lib_wf l -> lib_allowed (contents (table l)) q ->
  runs (serve_lib q) l (fun x => served (gains q x) (contents (table l))).
Proof.
  intros [Hr Ht] Hal. set (c := contents (table l)) in *.
  destruct q; cbn [fuse_path_ops lib_allowed] in *.
  - destruct Hal as (? & ? & ?). by eapply runs_fuse_lib_lookup.
  - apply runs_bind, runs_on_table. eapply runs_forget_node; [exact Hr | done | exact Hal |].
    intros c' f' Hr' Ht' Hk. apply runs_ret. eapply served_intro; [exact Hr' | done |]. done.
  - by eapply runs_fuse_lib_getattr.
  - by eapply runs_fuse_lib_setattr.
  - eapply runs_ask_reply; [done | done | done | auto with answers | by eexists | done].
  - eapply runs_ask_reply; [done | done | done | auto with answers | | done].
    intros [err link] l'. destruct (err =? 0); by eexists.
  - destruct Hal as [? ?]. by eapply runs_fuse_lib_mknod.
  - destruct Hal as [? ?]. eapply runs_entry_request; [done | done | by apply known_numbered | | done].
    intros path l' Hr'. apply runs_make_lookup; auto with answers.
  - destruct Hal as [? ?]. by eapply runs_fuse_lib_unlink.
  - eapply runs_err_request; [done | done | done | | done]. intros path l' Hr'.
    eapply runs_remove; [exact Hr' | done | auto with answers | done].
  - destruct Hal as [? ?]. eapply runs_entry_request; [done | done | by apply known_numbered | | done].
    intros path l' Hr'. apply runs_make_lookup; auto with answers.
  - destruct Hal as (? & ? & ? & ?). by eapply runs_fuse_lib_rename.
  - destruct Hal as (? & ? & ?). by eapply runs_fuse_lib_link.
  - destruct Hal as (? & ? & ?). by eapply runs_fuse_lib_create.
  - destruct Hal as [? ?]. by eapply runs_fuse_lib_open.
  - destruct Hal as [? ?]. by eapply runs_fuse_lib_read.
  - eapply runs_ask_reply; [done | done | done | auto with answers | | done].
    intros res l'. destruct (0 <=? res); by eexists.
  - destruct Hal as (k & o & ? & ?). by eapply runs_fuse_lib_release.
  - eapply runs_ask_reply; [done | done | done | auto with answers | by eexists | done].
  - by eapply runs_fuse_lib_statfs.
  - eapply runs_ask_reply; [done | done | done | auto with answers | by eexists | done].
  - destruct Hal as [? ?]. eapply runs_xattr_reply; [done | done | done | done | | done].
    intros path n s Hn. by apply fs_getxattr.
  - destruct Hal as [? ?]. eapply runs_xattr_reply; [done | done | done | done | | done].
    intros path n s Hn. by apply fs_listxattr.
  - eapply runs_ask_reply; [done | done | done | auto with answers | by eexists | done].
  - eapply runs_ask_reply; [done | done | done | auto with answers | | done].
    intros [err idx'] l'. destruct (err =? 0); by eexists.
Qed.

Lemma serve_lib_wf l q :
  lib_wf l -> lib_allowed (contents (table l)) q -> runs (serve_lib q) l (fun _ => lib_wf).
Proof. intros Hl Hq. eapply runs_mono; [by apply serve_lib_served |]. intros x l' H. exact (served_wf _ _ _ H). Qed.

(** The same with the replies about missing names that are lost. *)
Definition lib_sent (c : gmap nat node) (q : FuseLib.request) : Prop :=
  match q with
  | Lookup parent _ _ => known c parent /\ roomy c
  | _ => lib_allowed c q
  end.

Definition may_abort (q : FuseLib.request) : Prop :=
  match q with Lookup _ _ lost => lost = true /\ negative_timeout conf = true | _ => False end.

Lemma lib_allowed_sent c q : lib_allowed c q -> lib_sent c q.
Proof. destruct q; cbn; tauto. Qed.

Lemma serve_lib_sent l q :
  lib_wf l -> lib_sent (contents (table l)) q ->
  (exists x l', serve_lib q l = Ret (x, l') /\ lib_wf l') \/ may_abort q /\ serve_lib q l = Exit 134.
Proof.
  intros Hl Hq.
  assert (lib_allowed (contents (table l)) q \/ exists parent nm, q = Lookup parent nm true) as [Hal|(parent & nm & ->)].
  { destruct q as [parent nm []| | | | | | | | | | | | | | | | | | | | | | | |]; try by left.
    - right. eauto.
    - left. destruct Hq as [? ?]. split_and!; auto. }
  - left. by apply runs_eq, serve_lib_wf.
  - destruct Hq as [Hk Hroom]. destruct Hl as [Hr Ht].
    destruct (lost_lookup l _ parent nm Hr Ht Hroom Hk) as [(x & l' & E & H)|[Hneg E]]; [left | right].
    + exists x, l'. split; [exact E | by eapply served_wf].
    + by split.
Qed.

(** The states of the library, from the creation of its table on. *)
Inductive lib_reachable : lib S -> Prop :=
| lib_new f0 f h s : nodes f0 = ∅ -> new_nodes alloc_ok f0 = Ret (true, f) -> lib_reachable (Lib f h s)
| lib_serve l q x l' :
    lib_reachable l -> lib_sent (contents (table l)) q -> serve_lib q l = Ret (x, l') ->
    lib_reachable l'.

Lemma lib_reachable_wf l : lib_reachable l -> lib_wf l.
Proof.
  induction 1 as [f0 f h s Hn Hf | l q x l' _ IH Hal Hs].
  - eapply (reachable_wf alloc_ok char_value), reachable_new; done.
  - destruct (serve_lib_sent l q IH Hal) as [(y & l2 & E & Hwf)|[_ E]]; rewrite Hs in E; by simplify_eq.
Qed.
End Requests.

(** ** The path of a name *)

Lemma runs_named_path {alloc_ok char_value} f c a n s nm (Q : option bytes -> fuse -> Prop) :
  FuseNodesSpec.rep char_value table_size table_size f c None None -> tree c no_credit None ->
  c !! a = Some n -> path_to c a s -> strlen (s ++ SLASH :: nm) < FUSE_MAX_PATH ->
  (forall f', FuseNodesSpec.rep char_value table_size table_size f' c None None ->
     Q (Some (s ++ SLASH :: nm)) f') ->
  (no_memory alloc_ok ->
     forall f', FuseNodesSpec.rep char_value table_size table_size f' c None None -> Q None f') ->
  runs (get_path_name alloc_ok (nodeid n) (Some nm)) f Q.
Proof.
  intros Hr Ht Ha Hs Hlen HQ HQ0. unfold get_path_name, add_name.
  pose proof Hlen as Hlen2. rewrite strlen_app, strlen_cons in Hlen2.
  pose proof (strlen_nonneg s). change (strlen []) with 0.
  replace (FUSE_MAX_PATH - 1 - 0 - strlen nm <=? 0) with false by lia. rewrite app_nil_r.
  apply runs_bind. eapply runs_get_node; [done | done | exact Ha | done | |].
  { intros b m _ Hb Hbid. by apply (t_ids _ _ _ Ht b a m n). }
  apply runs_bind. eapply runs_path_up; [done | done | done | unfold path_fuel, strlen in *; lia |].
  apply runs_bind. eapply runs_node_malloc; [done | |].
  - intros f' Hr' _. apply runs_ret. destruct (s ++ SLASH :: nm) eqn:E; [by destruct s |]. by apply HQ.
  - intros Hm f' Hr'. by apply runs_ret, HQ0.
Qed.

(** C16. For any file system whose operations answer, the requests of the kernel
    keep the table of nodes whole: every lookup, creation, removal, renaming,
    opening, reading and release that the kernel may send, on nodes that it has
    looked up and files that it has opened, with room in the table and no
    directory moved into itself, allocations failing and replies being lost or
    not, ends with a reply and in such a state again, without a freed node or an
    abort, except one: a lookup whose reply is lost, when negative replies are
    kept, may abort the library (fuse.c:1321). *)
Theorem library_invariant {S} alloc_ok char_value (ops : fuse_operations S) conf `{!FileSystem ops} l :
  lib_reachable (alloc_ok := alloc_ok) (char_value := char_value) (ops := ops) (conf := conf) l ->
  table_wf char_value (table l) /\
  forall q, lib_sent (conf := conf) (contents (table l)) q ->
    (exists x l', fuse_path_ops alloc_ok char_value ops conf q l = Ret (x, l') /\
       lib_reachable (alloc_ok := alloc_ok) (char_value := char_value) (ops := ops) (conf := conf) l') \/
    (may_abort (conf := conf) q /\ fuse_path_ops alloc_ok char_value ops conf q l = Exit 134).
Proof.
  intros H. pose proof (lib_reachable_wf l H) as Hwf. split; [done |]. intros q Hq.
  destruct (serve_lib_sent (alloc_ok := alloc_ok) l q Hwf Hq) as [(x & l' & E & _)|?]; [left | by right].
  exists x, l'. split; [done |]. by eapply lib_serve.
Qed.

(** No node is found: the library aborts. *)
Lemma get_node_aborts {char_value} f c ino :
  FuseNodesSpec.rep char_value table_size table_size f c None None -> ~ numbered c ino ->
  get_node ino f = Exit 134.
Proof.
  intros Hr Hno. unfold get_node.
  assert (runs (get_node_nocheck ino) f (fun p f' => p = None /\ f' = f)) as H.
  { eapply runs_get_node_nocheck; [done | |].
    - intros b m _ Hb Hid. destruct Hno. by exists b, m.
    - intros _. done. }
  apply runs_eq in H as (p & f' & E & -> & ->). by rewrite (bind_runs_eq _ _ _ _ _ E).
Qed.

(** With a timeout for names that do not exist, a lookup of such a name
    whose reply is lost aborts the library: it forgets the node 0, which is not
    in the table. *)
Theorem lost_negative_entry_aborts {S} alloc_ok char_value (ops : fuse_operations S) conf l p pn s nm :
  table_wf char_value (table l) -> contents (table l) !! p = Some pn ->
  path_to (contents (table l)) p s -> strlen (s ++ SLASH :: nm) < FUSE_MAX_PATH ->
  (forall n, alloc_ok n = true) -> ~ numbered (contents (table l)) 0 ->
  negative_timeout conf = true ->
  (forall st, exists a st', fuse_fs_getattr ops (s ++ SLASH :: nm) st = Ret (- ENOENT, a, st')) ->
  fuse_lib_lookup alloc_ok char_value ops conf (nodeid pn) nm true l = Exit 134.
Proof.
  intros [Hr Ht] Hp Hs Hlen Hmem Hno Hneg Hop. set (c := contents (table l)) in *.
  assert (runs (with_path alloc_ok (nodeid pn) (Some nm) (- ENOENT, no_entry) (fun path =>
    r ← lookup_path alloc_ok char_value ops conf (nodeid pn) nm path None;
    let '(err, e) := r in
    mret (if (err =? - ENOENT) && negative_timeout conf
          then (0, EntryParam 0 (e_generation e) (e_attr e)) else (err, e)))) l
    (fun r l' => fst r = 0 /\ e_ino (snd r) = 0 /\
       FuseNodesSpec.rep char_value table_size table_size (table l') c None None)) as H.
  { unfold with_path. apply runs_bind, runs_on_table.
    eapply runs_named_path; [exact Hr | done | exact Hp | done | done | |].
    2:{ intros [n Hn]. congruence. }
    intros f' Hr'. apply runs_bind, runs_bind. unfold lookup_path.
    destruct (Hop (fs l)) as (a & st' & E).
    apply runs_bind. unfold runs at 1, call. cbn [fs]. rewrite E.
    change (- ENOENT =? 0) with false. cbv iota. apply runs_ret, runs_ret. rewrite Hneg.
    cbn. apply runs_bind. eapply runs_free_string; [exact Hr' |]. intros l' Hl'. apply runs_ret. done. }
  apply runs_eq in H as ([err e] & l' & E & Herr & Hino & Hr'). cbn [fst snd] in *.
  unfold fuse_lib_lookup. rewrite (bind_runs_eq _ _ _ _ _ E). unfold reply_entry. rewrite Herr, Hino.
  assert (forget_node char_value 0 1 (table l') = Exit 134) as Hf.
  { unfold forget_node. change (0 =? FUSE_ROOT_ID) with false. cbv iota.
    unfold mbind at 1, M_bind at 1. by rewrite (get_node_aborts _ c 0 Hr' Hno). }
  change (0 =? 0) with true. cbv iota. unfold mbind, M_bind, on_table. by rewrite Hf.
Qed.

(** * A file system of directories, and one without files *)

Definition answering_ops (answer : Z) : fuse_operations unit :=
  {| op_getattr := Some (fun _ => mret (answer, Attr 0 (Stat 16877 2 0 0 0 0 0 0)));
     op_fgetattr := None; op_access := None; op_readlink := None; op_mknod := None;
     op_mkdir := None; op_unlink := None; op_rmdir := None; op_symlink := None;
     op_rename := None; op_link := None; op_chmod := None; op_chown := None;
     op_truncate := None; op_ftruncate := None; op_utimens := None; op_utime := None;
     op_create := None; op_open := None; op_release := None; op_read := None;
     op_write := None; op_fsync := None; op_statfs := None; op_setxattr := None; op_getxattr := None; op_listxattr := None;
     op_removexattr := None; op_bmap := None; op_opendir := None; op_releasedir := None; op_fsyncdir := None |}.

Lemma unimplemented {A} (a : A) : answers (S := unit) (mret a).
Proof. intros s. by exists a, s. Qed.

#[export] Instance answering_file_system answer : FileSystem (answering_ops answer).
Proof.
  split; intros; try apply unimplemented.
  all: exists (- ENOSYS), [], s; split; [done |]; unfold ENOSYS; lia.
Qed.

Definition plain_config (negative : bool) : lib_config :=
  LibConfig false false false false 0 0 0 false negative false false.

Definition booted_lib : lib unit := Lib booted 0 tt.

Lemma library_invariant_witness :
  table_wf plain_char (table booted_lib) /\
  (exists x l',
    fuse_path_ops (fun _ => true) plain_char (answering_ops 0) (plain_config true)
      (Lookup 1 (B "a") true) booted_lib = Ret (x, l') /\
    lib_reachable (alloc_ok := fun _ => true) (char_value := plain_char) (ops := answering_ops 0)
      (conf := plain_config true) l').
Proof.
  destruct (library_invariant (fun _ => true) plain_char (answering_ops 0) (plain_config true)
    booted_lib) as [Hwf Hserve].
  - eapply lib_new; [| exact boot_step]. done.
  - split; [exact Hwf |]. destruct (Hserve (Lookup 1 (B "a") true)) as [H|[_ H]]; [| exact H | by vm_compute in H].
    destruct (booted_allows (B "a")) as [Hk Hroom]. by split.
Defined.

(** A lookup that finds a directory, whose reply is lost, leaves the table as it was. *)
Example lost_lookup_forgotten :
  match fuse_lib_lookup (fun _ => true) plain_char (answering_ops 0) (plain_config false)
          1 (B "a") true booted_lib with
  | Ret (x, l') => contents (table l')
  | _ => ∅
  end = contents booted.
Proof. vm_compute. reflexivity. Qed.

Lemma lost_negative_entry_aborts_witness :
  fuse_lib_lookup (fun _ => true) plain_char (answering_ops (- ENOENT)) (plain_config true)
    1 (B "a") true booted_lib = Exit 134.
Proof.
  apply (lost_negative_entry_aborts (fun _ => true) plain_char (answering_ops (- ENOENT))
    (plain_config true) booted_lib 0 root_node []).
  - exact (reachable_wf _ _ _ booted_reachable).
  - change (contents (table booted_lib)) with (contents booted). by rewrite booted_contents.
  - change (contents (table booted_lib)) with (contents booted). rewrite booted_contents.
    eapply path_root; done.
  - vm_compute. reflexivity.
  - reflexivity.
  - change (contents (table booted_lib)) with (contents booted). rewrite booted_contents.
    intros (a & n & [_ <-]%lookup_singleton_Some & E). discriminate E.
  - reflexivity.
  - intros st. by eexists _, _.
Defined.
