(* ===== verification/FuseMount.v ===== *)
(** The catalog below FUSE: what the kernel gets when it looks up a name in a
    directory of a mounted catalog is the file that was catalogued there. *)

From S2P Require Import Prelude.
From S2P Require Import CString.
From S2P Require Import Entry.
From S2P Require Import CatalogFS.
From S2P Require Import Generate.
From S2P Require Import Format.
From S2P Require Import Pad.
From S2P Require Import Listing.
From S2P Require Import Order.
From S2P Require Import Mount.
From S2P Require Import Sample.
From S2P Require Import SampleTree.
From S2P Require Import FuseNodes.
From S2P Require Import FuseNodesSpec.
From S2P Require Import FuseTree.
From S2P Require Import FuseNodesProps.
From S2P Require Import FuseLib.
From S2P Require Import FuseLibSpec.
From S2P Require Import FuseLibProps.

#[local] Opaque table_size.

(** [catalog_getattr] as the [getattr] of the library; it clears the whole
    [struct stat] first. *)
Definition catalog_stat (e : env) (path : bytes) : M sys (Z * attr) :=
  r ← catalog_getattr e path; mret (fst r, Attr 0 (snd r)).

(** What a lookup of the path [path] replies. *)
Definition catalogued (conf : lib_config) o root h (path : bytes) (x : reply) : Prop :=
  (exists q st ino gen, q ∈ tree_listing o root h /\ rel root q = path /\ lstat o q = Some st /\
     x = ReplyEntry (EntryParam ino gen (set_stat conf ino (Attr 0 (served_stat st))))) \/
  ((forall q, q ∈ tree_listing o root h -> rel root q <> path) /\ x = ReplyErr ENOENT).

(** The contents of the table grow by at most a node and a lookup. *)
Definition lib_grows {S} (char_value : ascii -> Z) (c : gmap nat node) (l : lib S) : Prop :=
  exists c', FuseNodesSpec.rep char_value table_size table_size (table l) c' None None /\
    tree c' no_credit None /\ extends c c' /\ grows c c'.

Lemma runs_catalog_lookup alloc_ok char_value (ops : fuse_operations sys) conf o root h e f c hc sy p pn s nm :
  good_tree o root h ->
  mounts e (tree_file (o := o) (root := root) (h := h)) ->
  mount_fits e (tree_file (o := o) (root := root) (h := h)) ->
  op_getattr ops = Some (catalog_stat e) -> negative_timeout conf = false ->
  (forall n, alloc_ok n = true) ->
  FuseNodesSpec.rep char_value table_size table_size f c None None -> tree c no_credit None ->
  c !! p = Some pn -> path_to c p s -> known c (nodeid pn) -> roomy c -> strlen (s ++ SLASH :: nm) < FUSE_MAX_PATH ->
  runs (fuse_lib_lookup alloc_ok char_value ops conf (nodeid pn) nm false) (Lib f hc sy) (fun x l =>
    catalogued conf o root h (s ++ SLASH :: nm) x /\ lib_grows char_value c l).
Proof.
  intros Htree Hm Hf Hop Hneg Hmem Hr Ht Hp Hs Hk Hroom Hlen.
  unfold fuse_lib_lookup, with_path. apply runs_bind, runs_bind, runs_on_table.
  eapply runs_named_path; [exact Hr | done | exact Hp | done | done | |].
  2:{ intros [n Hn]. congruence. }
  intros f1 Hr1. apply runs_bind, runs_bind. unfold lookup_path, fuse_fs_getattr. rewrite Hop.
  pose proof (tree_getattr o root h e (s ++ SLASH :: nm) sy Htree Hm Hf) as Hst.
  apply runs_eq in Hst as (r & sy' & E & Hst).
  assert (catalog_stat e (s ++ SLASH :: nm) sy = Ret (fst r, Attr 0 (snd r), sy')) as Ecs
    by (unfold catalog_stat; by rewrite (bind_runs_eq _ _ _ _ _ E)).
  apply runs_bind. unfold runs at 1, call. cbn [fs]. rewrite Ecs.
  destruct Hst as [(q & st & Hq & Hrel & Hl & ->)|[Hno ->]]; cbn [fst snd].
  - change (0 =? 0) with true. cbv iota. apply runs_bind, runs_on_table.
    eapply runs_find_node; [exact Hr1 | done | done | done | |].
    2:{ intros [n Hn]. congruence. }
    intros a n c' f2 Hr2 Ht2 Hext _ Hg _ Ha _.
    apply runs_bind, runs_on_table. eapply runs_load_rep; [exact Hr2 | done |]. intros m _ _.
    apply runs_ret, runs_ret. change (0 =? - FuseLib.ENOENT) with false. cbn [andb].
    apply runs_bind. eapply runs_free_string; [exact Hr2 |]. intros l' Hr3.
    apply runs_ret. unfold reply_entry. cbn. split; [left; eauto 10 | by exists c'].
  - change (- Lookup.ENOENT =? 0) with false. cbv iota. apply runs_ret, runs_ret. rewrite Hneg, andb_false_r.
    apply runs_bind. eapply runs_free_string; [exact Hr1 |]. intros l' Hr2.
    apply runs_ret. unfold reply_entry. split; [by right |]. exists c.
    auto using extends_refl, grows_refl.
Qed.

(** Generate, mount, look up: in any reachable table of the FUSE library,
    what the kernel gets for a name in a directory that it knows is an entry
    with the attributes of the file of that name when the catalog was generated,
    under a number of its own, and ENOENT exactly when there was no such file.
    *)
Theorem mounted_lookup alloc_ok char_value (ops : fuse_operations sys) conf o root h e f hc sy p pn s nm :
  good_tree o root h ->
  mounts e (tree_file (o := o) (root := root) (h := h)) ->
  mount_fits e (tree_file (o := o) (root := root) (h := h)) ->
  op_getattr ops = Some (catalog_stat e) -> negative_timeout conf = false ->
  (forall n, alloc_ok n = true) -> reachable alloc_ok char_value f ->
  contents f !! p = Some pn -> path_to (contents f) p s ->
  allowed (contents f) (Find (nodeid pn) nm) -> strlen (s ++ SLASH :: nm) < FUSE_MAX_PATH ->
  runs (fuse_lib_lookup alloc_ok char_value ops conf (nodeid pn) nm false) (Lib f hc sy) (fun x _ =>
    (exists q st ino gen, q ∈ tree_listing o root h /\ rel root q = s ++ SLASH :: nm /\
       lstat o q = Some st /\
       x = ReplyEntry (EntryParam ino gen (set_stat conf ino (Attr 0 (served_stat st))))) \/
    ((forall q, q ∈ tree_listing o root h -> rel root q <> s ++ SLASH :: nm) /\
       x = ReplyErr ENOENT)).
Proof.
  intros Htree Hm Hf Hop Hneg Hmem Hre Hp Hs [Hk Hroom] Hlen.
  destruct (reachable_wf _ _ f Hre) as [Hr Ht].
  eapply runs_mono; [by eapply runs_catalog_lookup |]. by intros x l [Hx _].
Qed.

(** The operations that matter here. *)
Definition mounted_ops (e : env) : fuse_operations sys :=
  {| op_getattr := Some (catalog_stat e); op_fgetattr := None;
     op_access := Some (fun path mask => mret (catalog_access path mask)); op_readlink := None;
     op_mknod := Some (fun path mode rdev => mret (catalog_mknod path mode rdev));
     op_mkdir := Some (fun path mode => mret (catalog_mkdir path mode));
     op_unlink := Some (fun path => mret (catalog_unlink path));
     op_rmdir := Some (fun path => mret (catalog_rmdir path));
     op_symlink := Some (fun link path => mret (catalog_symlink link path));
     op_rename := Some (fun from to => mret (catalog_rename from to));
     op_link := Some (fun from to => mret (catalog_link from to));
     op_chmod := Some (fun path mode => mret (catalog_chmod path mode));
     op_chown := Some (fun path u g => mret (catalog_chown path u g));
     op_truncate := Some (fun path n => mret (catalog_truncate path n));
     op_ftruncate := None; op_utimens := None; op_utime := None; op_create := None;
     op_open := Some (fun path fi => mret (catalog_open path, fi));
     op_release := Some (fun path fi => mret (catalog_release path));
     op_read := Some (fun path n off fi => mret (catalog_read path n off, []));
     op_write := Some (fun path buf off fi => mret (catalog_write path buf (strlen buf) off));
     op_fsync := Some (fun path d fi => mret (catalog_fsync path d)); op_statfs := None;
     op_setxattr := Some (fun path nm value flags => mret (catalog_setxattr path nm value (strlen value) flags));
     op_getxattr := Some (fun path nm n => mret (catalog_getxattr path nm n, []));
     op_listxattr := Some (fun path n => mret (catalog_listxattr path n, []));
     op_removexattr := Some (fun path nm => mret (catalog_removexattr path nm)); op_bmap := None; 
     op_opendir := Some (fun path fi => mret (catalog_opendir path, fi));
     op_releasedir := Some (fun path fi => mret (catalog_releasedir path));
     op_fsyncdir := Some (fun path d fi => mret (catalog_fsyncdir path d)) |}.

(** The file [b] of the sample tree. *)
Lemma mounted_lookup_witness :
  runs (fuse_lib_lookup (fun _ => true) plain_char (mounted_ops (env_of_file sample_tree_file))
          (plain_config false) (nodeid root_node) (B "b") false) (Lib booted 0 sample_sys) (fun x _ =>
    (exists q st ino gen, q ∈ tree_listing sample_os (B "/t") 2 /\
       rel (B "/t") q = [] ++ SLASH :: B "b" /\ lstat sample_os q = Some st /\
       x = ReplyEntry (EntryParam ino gen (set_stat (plain_config false) ino (Attr 0 (served_stat st))))) \/
    ((forall q, q ∈ tree_listing sample_os (B "/t") 2 -> rel (B "/t") q <> [] ++ SLASH :: B "b") /\
       x = ReplyErr ENOENT)).
Proof.
  apply (mounted_lookup (fun _ => true) plain_char (mounted_ops (env_of_file sample_tree_file))
    (plain_config false) sample_os (B "/t") 2 (env_of_file sample_tree_file) booted 0 sample_sys 0 root_node []);
    [exact sample_tree | exact sample_mounts | exact sample_mount_fits | reflexivity | reflexivity
    | reflexivity | exact booted_reachable | | | apply booted_allows | vm_compute; reflexivity].
  - by rewrite booted_contents.
  - rewrite booted_contents. eapply path_root; done.
Defined.

Example sample_lookup :
  match fuse_lib_lookup (fun _ => true) plain_char (mounted_ops (env_of_file sample_tree_file))
          (plain_config false) 1 (B "b") false (Lib booted 0 sample_sys) with
  | Ret (ReplyEntry e, _) => Some (e_ino e, st_size (a_stat (e_attr e)))
  | _ => None
  end = Some (2, st_size sample_file).
Proof. vm_compute. reflexivity. Qed.
