(* ===== verification/FuseHandle.v ===== *)
(** other_fs/fuse-2.7.3/lib/fuse.c: the requests on directory handles, which live in the
    heap of the library between [opendir] and [releasedir]; and a process that opens,
    reads and closes a directory (kernel/dir.c). *)

From S2P Require Import Prelude.
From S2P Require Import CString.
From S2P Require Import FuseNodes.
From S2P Require Import FuseLib.
From S2P Require FuseDir.

(** [struct fuse_dh]: the handle of the file system, the node, and the buffer. *)
Record dhandle := DHandle { dh_fh : Z; dh_nodeid : Z; dh_buf : FuseDir.fuse_dh }.

Definition set_dh_fh v (h : dhandle) := DHandle v (dh_nodeid h) (dh_buf h).
Definition set_dh_buf b (h : dhandle) := DHandle (dh_fh h) (dh_nodeid h) b.

(** The library with its open directories, by their addresses. *)
Record dlib (S : Type) := DLib { dl_lib : lib S; handles : gmap Z dhandle }.
Arguments DLib {S}. Arguments dl_lib {S}. Arguments handles {S}.

Section Handles.
Context (alloc_ok : nat -> bool) (char_value : ascii -> Z).
Context {S : Type} (ops : fuse_operations S) (conf : lib_config) (readdir_ino : bool).
(** Where a new handle is, and the allocations of the buffer of each. *)
Context (address : gmap Z dhandle -> Z) (buffer_ok : Z -> nat -> bool) (junk : nat -> nat -> ascii).
(** The operations of the file system that call a filler. *)
Context (op_readdir : option (bytes -> FuseDir.filler (S := S) -> Z -> Z -> M (FuseDir.reading (S := S)) Z)).
Context (op_getdir : option (bytes -> FuseDir.filler_old (S := S) -> M (FuseDir.reading (S := S)) Z)).

Definition on_lib {A} (m : M (lib S) A) : M (dlib S) A := fun l =>
  match m (dl_lib l) with
  | Ret (x, b) => Ret (x, DLib b (handles l))
  | Exit z => Exit z
  | UB => UB
  | Hang => Hang
  end.

Definition set_handles m (l : dlib S) : dlib S := DLib (dl_lib l) m.

Definition handle_at (a : Z) : M (dlib S) dhandle :=
  l ← get; match handles l !! a with Some h => mret h | None => ub end.

(** ** [malloc] and [free] of a handle *)

Definition new_handle (nodeid : Z) : M (dlib S) (option Z) :=
  ok ← on_lib (on_table (malloc alloc_ok));
  if ok : bool then
    l ← get;
    let a := address (handles l) in
    _ ← modify (set_handles (<[a := DHandle 0 nodeid FuseDir.empty_dh]> (handles l)));
    mret (Some a)
  else mret None.

Definition free_handle (a : Z) : M (dlib S) unit :=
  _ ← handle_at a;
  _ ← modify (fun l => set_handles (delete a (handles l)) l);
  on_lib (on_table (modify (add_blocks (-1)))).

Definition free_path (path : option bytes) : M (dlib S) unit :=
  if path is Some _ then on_lib free_string else mret tt.

(** ** The requests *)

(** The handle of the file system is in the handle of the library. *)
Definition get_dirhandle (fi : file_info) : M (dlib S) file_info :=
  h ← handle_at (fh fi); mret (FileInfo 0 (dh_fh h) false false).

Definition fuse_lib_opendir (ino : Z) (llfi : file_info) (lost : bool) : M (dlib S) reply :=
  dh ← new_handle ino;
  match dh with
  | None => on_lib (reply_err (- ENOMEM))
  | Some a =>
      path ← on_lib (on_table (get_path alloc_ok ino));
      r ← match path with
          | None => mret (- ENOENT, FileInfo (flags llfi) 0 false false)
          | Some path =>
              r ← on_lib (call (fuse_fs_opendir ops path (FileInfo (flags llfi) 0 false false)));
              l ← get;
              _ ← modify (set_handles (alter (set_dh_fh (fh (snd r))) a (handles l)));
              mret r
          end;
      let '(err, fi) := r in
      rep ← (if err =? 0 then
               _ ← (if lost then
                      _ ← match path with
                          | Some path => on_lib (call (fuse_fs_releasedir ops path fi))
                          | None => ub
                          end;
                      free_handle a
                    else mret tt);
               mret (ReplyOpen (FileInfo (flags llfi) a (fi_direct_io llfi) (fi_keep_cache llfi)))
             else
               rep ← on_lib (reply_err err);
               _ ← free_handle a;
               mret rep);
      _ ← free_path path;
      mret rep
  end.

(** [lookup_node] in the directory, which changes nothing. *)
Definition node_of (l : lib S) (nodeid : Z) (name : bytes) : option Z :=
  match lookup_node char_value nodeid name (table l) with
  | Ret (Some a, f) => FuseNodes.nodeid <$> nodes f !! a
  | _ => None
  end.

(** A computation on the buffer of a handle. *)
Definition on_dir {A} (a : Z) (h : dhandle) (m : M (FuseDir.reading (S := S)) A) : M (dlib S) A := fun l =>
  let b := dl_lib l in
  match m (FuseDir.Reading (dh_buf h) (fs b)) with
  | Ret (x, r) =>
      Ret (x, DLib (Lib (table b) (hidectr b) (FuseDir.below r)) (<[a := set_dh_buf (FuseDir.dh r) h]> (handles l)))
  | Exit z => Exit z
  | UB => UB
  | Hang => Hang
  end.

(** The path is made when the buffer is to be filled. *)
Definition fuse_lib_readdir (ino size off : Z) (llfi : file_info) : M (dlib S) reply :=
  let a := fh llfi in
  h ← handle_at a;
  path ← (if (off =? 0) || negb (FuseDir.filled (dh_buf h)) then on_lib (on_table (get_path alloc_ok ino)) else mret None);
  l ← get;
  r ← on_dir a h (FuseDir.fuse_lib_readdir (buffer_ok a) junk (FuseDir.Config (use_ino conf) readdir_ino)
                    (node_of (dl_lib l) (dh_nodeid h)) op_readdir op_getdir path size off (dh_fh h));
  _ ← free_path path;
  match r with
  | inl err => on_lib (reply_err err)
  | inr buf => mret (ReplyBuf buf)
  end.

Definition fuse_lib_releasedir (ino : Z) (llfi : file_info) : M (dlib S) reply :=
  fi ← get_dirhandle llfi;
  path ← on_lib (on_table (get_path alloc_ok ino));
  _ ← on_lib (call (fuse_fs_releasedir ops (default (B "-") path) fi));
  _ ← free_path path;
  _ ← free_handle (fh llfi);
  on_lib (reply_err 0).

Definition fuse_lib_fsyncdir (ino datasync : Z) (llfi : file_info) : M (dlib S) reply :=
  fi ← get_dirhandle llfi;
  err ← on_lib (with_path alloc_ok ino None (- ENOENT) (fun path => call (fuse_fs_fsyncdir ops path datasync fi)));
  on_lib (reply_err err).

Inductive dir_request :=
| Opendir (ino : Z) (fi : file_info) (lost : bool)
| Readdir (ino size off : Z) (fi : file_info)
| Releasedir (ino : Z) (fi : file_info)
| Fsyncdir (ino datasync : Z) (fi : file_info)
| Other (q : FuseLib.request).

(** All the requests of [fuse_path_ops] that are modelled. *)
Definition serve_dir (q : dir_request) : M (dlib S) reply :=
  match q with
  | Opendir ino fi lost => fuse_lib_opendir ino fi lost
  | Readdir ino size off fi => fuse_lib_readdir ino size off fi
  | Releasedir ino fi => fuse_lib_releasedir ino fi
  | Fsyncdir ino datasync fi => fuse_lib_fsyncdir ino datasync fi
  | Other q => on_lib (fuse_path_ops alloc_ok char_value ops conf q)
  end.

(** ** A process *)

Section Process.
Context {D : Type} (filldir : D -> bytes -> Z -> Z -> Z -> D * bool).

(** [fuse_readdir] of the kernel, with the library below it. *)
Definition kernel_readdir (ino : Z) (fi : file_info) (f_pos : Z) (dst : D) : M (dlib S) (Z * Z * D) :=
  x ← fuse_lib_readdir ino FuseDir.PAGE_SIZE f_pos fi;
  match x with
  | ReplyErr err => mret (- err, f_pos, dst)
  | ReplyBuf page => FuseDir.parse_dirfile filldir (Datatypes.S (length page)) page f_pos dst
  | _ => ub
  end.
End Process.
End Handles.
