(* ===== verification/FuseHandleProps.v ===== *)
(** The requests on directory handles: whatever the file system puts into a directory,
    each of them is served, the heap of handles is the set of the directories that are
    open, and no request leaves the block of its handle. *)

From S2P Require Import Prelude.
From S2P Require Import CString.
From S2P Require Import FuseDir.
From S2P Require Import FuseDirProps.
From S2P Require Import FuseNodes.
From S2P Require Import FuseTable.
From S2P Require Import FuseNodesSpec.
From S2P Require Import FuseTree.
From S2P Require Import FuseNodesProps.
From S2P Require Import FuseLib.
From S2P Require Import FuseLibSpec.
From S2P Require Import FuseLibProps.
From S2P Require Import FuseHandle.

#[local] Opaque table_size.

(** * File systems that fill directories *)

Section Contract.
Context {S : Type}.
Abbreviation reading := (FuseDir.reading (S := S)).
Abbreviation filler := (FuseDir.filler (S := S)).
Abbreviation filler_old := (FuseDir.filler_old (S := S)).

(** [op] returns, and touches the buffer through its filler only: from a buffer of which
    [I 0] holds, when each call of the filler for a name, with an offset that [mode] allows,
    takes [I] on by the size of a record and the sum stays within 2 GiB. *)
Definition fills (mode : Z -> Prop) (op : filler -> M reading Z) : Prop :=
  forall (f : filler) (I : Z -> fuse_dh -> Prop) r,
    I 0 (dh r) ->
    (forall name st off k r', I k (dh r') -> mode off -> k + rec_size name <= 2 ^ 31 ->
       runs (f name st off) r' (fun _ r'' => I (k + rec_size name) (dh r''))) ->
    runs (op f) r (fun _ r' => exists k, I k (dh r')).

Definition fills_old (op : filler_old -> M reading Z) : Prop :=
  forall (f : filler_old) (I : Z -> fuse_dh -> Prop) r,
    I 0 (dh r) ->
    (forall name type ino k r', I k (dh r') -> k + rec_size name <= 2 ^ 31 ->
       runs (f name type ino) r' (fun _ r'' => I (k + rec_size name) (dh r''))) ->
    runs (op f) r (fun _ r' => exists k, I k (dh r')).

(** One of the two modes of [readdir]: no offsets at all, or an offset for each entry. *)
Definition one_mode (op : filler -> M reading Z) : Prop :=
  fills (fun off => off = 0) op \/ fills (fun off => off <> 0) op.

(** The promise of a file system about its directories. *)
Class DirSystem (op_readdir : option (bytes -> filler -> Z -> Z -> M reading Z))
    (op_getdir : option (bytes -> filler_old -> M reading Z)) : Prop := {
  ds_readdir op path off fh : op_readdir = Some op -> one_mode (fun f => op path f off fh);
  ds_getdir op path : op_getdir = Some op -> fills_old (op path) }.

(** A fixed list of entries. *)
Lemma fill_all_fills items : total items <= 2 ^ 31 -> fills (fun off => off = 0) (fill_all items).
Proof.
  intros Ht f I r Hr Hf. assert (forall k, 0 <= k -> k + total items <= 2 ^ 31 -> I k (dh r) ->
    runs (fill_all items f) r (fun _ r' => exists k, I k (dh r'))) as Hk.
  { clear Ht Hr. revert r. induction items as [|it items IH]; intros r k H0 Ht HI; cbn [fill_all].
    { apply runs_ret. by exists k. }
    change (total (it :: items)) with (rec_size (fst it) + total items) in Ht.
    pose proof (total_nonneg items). pose proof (rec_size_bounds (fst it)).
    assert (0 <= strlen (fst it)) by (unfold strlen; lia).
    apply runs_bind. eapply runs_mono; [apply (Hf _ _ _ k); [done | done | lia] |]. intros full r' HI'.
    destruct (full =? 0); [apply (IH r' (k + rec_size (fst it))); [lia | lia | done] | apply runs_ret; exists (k + rec_size (fst it)); exact HI']. }
  by apply (Hk 0).
Qed.
End Contract.

(** * The buffer of a handle *)

Section Buffer.
Context {alloc_ok : nat -> bool} {junk : nat -> nat -> ascii}.
Context {conf : FuseDir.fuse_config} {node_of : bytes -> option Z} {S : Type}.
Context {op_readdir : option (bytes -> FuseDir.filler (S := S) -> Z -> Z -> M (FuseDir.reading (S := S)) Z)}.
Context {op_getdir : option (bytes -> FuseDir.filler_old (S := S) -> M (FuseDir.reading (S := S)) Z)}.
Context {filling : DirSystem op_readdir op_getdir}.

(** Without offsets, the buffer holds at most what was put in. *)
Definition within (k : Z) (d : fuse_dh) : Prop := dh_wf d /\ 0 <= len d <= k.

(** With offsets, it stays within the size that was asked for. *)
Definition asked (k : Z) (d : fuse_dh) : Prop := dh_wf d /\ len d <= needlen d <= 2 ^ 31 /\ 0 <= k.

Lemma fill_dir_within name st k d :
  within k d -> k + rec_size name <= 2 ^ 31 ->
  runs (FuseDir.fill_dir alloc_ok junk conf node_of name st 0) d (fun _ => within (k + rec_size name)).
Proof.
  intros [Hd Hk] Ht. pose proof (rec_size_bounds name). assert (0 <= strlen name) by (unfold strlen; lia).
  apply runs_fill_dir; [done | lia | |].
  - intros d' Hd' _ Hl _ _ _. split; [done | lia].
  - intros _ d' Hd' Hl _. split; [done | lia].
Qed.

Lemma fill_dir_asked name st off k d :
  asked k d -> off <> 0 -> k + rec_size name <= 2 ^ 31 ->
  runs (FuseDir.fill_dir alloc_ok junk conf node_of name st off) d (fun _ => asked (k + rec_size name)).
Proof.
  intros (Hd & Hn & Hk) Hoff Ht. pose proof (rec_size_bounds name). assert (0 <= strlen name) by (unfold strlen; lia).
  apply runs_fill_dir_off; [done | done | lia | lia |].
  intros r d' Hd' Hl Hn'. split_and!; [done | lia..].
Qed.

Lemma runs_fuse_fs_readdir path off fh r :
  dh_wf (dh r) -> len (dh r) = 0 -> 0 <= needlen (dh r) <= 2 ^ 31 ->
  runs (FuseDir.fuse_fs_readdir alloc_ok junk conf node_of op_readdir op_getdir path off fh) r
    (fun _ r' => dh_wf (dh r')).
Proof.
  intros Hd Hl Hn. unfold FuseDir.fuse_fs_readdir.
  destruct op_readdir as [op|]; [| destruct op_getdir as [op|]].
  - destruct (ds_readdir (op_getdir := op_getdir) op path off fh eq_refl) as [Hop|Hop].
    + apply (runs_mono _ _ (fun _ r' => exists k, within k (dh r'))); [| by intros _ r' (k & ? & _)].
      apply Hop; [split; [done | lia] |].
      intros name st off' k [d s] HI -> Ht. apply runs_on_dh. by apply fill_dir_within.
    + apply (runs_mono _ _ (fun _ r' => exists k, asked k (dh r'))); [| by intros _ r' (k & ? & _)].
      apply Hop; [split_and!; [done | lia..] |].
      intros name st off' k [d s] HI Hoff Ht. apply runs_on_dh. by apply fill_dir_asked.
  - apply (runs_mono _ _ (fun _ r' => exists k, within k (dh r'))); [| by intros _ r' (k & ? & _)].
    apply (ds_getdir (op_readdir := None) op path eq_refl); [split; [done | lia] |].
    intros name type ino k [d s] HI Ht. apply runs_on_dh. unfold fill_dir_old. apply runs_bind.
    eapply runs_mono; [by apply fill_dir_within |]. intros res d' Hd'. by apply runs_ret.
  - by apply runs_ret.
Qed.

Lemma runs_readdir_fill_any path size off fh r :
  dh_wf (dh r) -> 0 <= size <= 2 ^ 31 ->
  runs (readdir_fill alloc_ok junk conf node_of op_readdir op_getdir path size off fh) r
    (fun _ r' => dh_wf (dh r')).
Proof.
  destruct r as [d s]. cbn [dh]. intros (Hc & Hs & Hl) Hn. unfold readdir_fill.
  destruct path as [path|]; [| by apply runs_ret].
  apply runs_bind, runs_on_dh, runs_modify, runs_bind.
  eapply runs_mono; [apply runs_fuse_fs_readdir; cbn [dh len needlen]; [| done |] |].
  - split_and!; cbn [FuseDir.contents FuseDir.size len]; [done | done | lia | lia].
  - rewrite u32_id; lia.
  - intros err [d' s'] Hd'. apply runs_bind, runs_on_dh, runs_get. cbv zeta. apply runs_bind.
    destruct (_ =? 0); [by apply runs_ret, runs_ret |]. by apply runs_on_dh, runs_modify, runs_ret.
Qed.

(** No byte outside of the block is read or written. *)
Lemma runs_fuse_lib_readdir_any path size off fh r :
  dh_wf (dh r) -> 0 <= size <= 2 ^ 31 -> 0 <= off < 2 ^ 63 ->
  runs (FuseDir.fuse_lib_readdir alloc_ok junk conf node_of op_readdir op_getdir path size off fh) r
    (fun _ r' => dh_wf (dh r')).
Proof.
  intros Hd Hn Hoff. unfold FuseDir.fuse_lib_readdir. apply runs_bind.
  apply (runs_mono _ _ (fun _ r' => dh_wf (dh r'))).
  { destruct r as [d s]. destruct (off =? 0); [by apply runs_on_dh, runs_modify | by apply runs_ret]. }
  intros _ [d1 s1] Hd1. apply runs_bind, runs_on_dh, runs_get, runs_bind. cbn [dh] in Hd1.
  eapply (runs_mono _ _ (fun _ r' => dh_wf (dh r'))).
  { destruct (filled d1); [by apply runs_ret | by apply runs_readdir_fill_any]. }
  intros err [d2 s2] Hd2. cbn [dh] in Hd2. destruct (negb (err =? 0)); [by apply runs_ret |].
  apply runs_bind, runs_on_dh, runs_get, runs_bind, runs_on_dh. pose proof Hd2 as (_ & Hs2 & Hl2).
  pose proof (wf_size_max _ Hs2).
  assert (forall pos n, 0 <= pos -> 0 <= n -> (n = 0 \/ pos + n <= len d2) ->
    runs (read_at pos n) d2 (fun x d => runs (S := FuseDir.reading (S := S)) (mret (inr x : Z + bytes)) (Reading d s2)
      (fun _ r' => dh_wf (dh r')))) as Hread.
  { intros pos n Hp H0 [->|Hle]; [by apply runs_ret, runs_ret |]. by apply runs_read_at. }
  unfold to_u64, to_unsigned. rewrite (Z.mod_small (off + size)) by lia.
  destruct (filled d2); [| apply Hread; lia].
  destruct (Z.ltb_spec off (len d2)); [| apply Hread; lia].
  destruct (Z.ltb_spec (len d2) (off + size)); [rewrite Z.mod_small by lia |]; apply Hread; lia.
Qed.
End Buffer.

(** * The requests *)

(** The allocator gives a new handle a place where there is none. *)
Class Fresh (address : gmap Z dhandle -> Z) : Prop := fresh_address m : m !! address m = None.

Section Handles.
Context {alloc_ok : nat -> bool} {char_value : ascii -> Z}.
Context {S : Type} {ops : fuse_operations S} {conf : lib_config} {readdir_ino : bool}.
Context {address : gmap Z dhandle -> Z} {buffer_ok : Z -> nat -> bool} {junk : nat -> nat -> ascii}.
Context {op_readdir : option (bytes -> FuseDir.filler (S := S) -> Z -> Z -> M (FuseDir.reading (S := S)) Z)}.
Context {op_getdir : option (bytes -> FuseDir.filler_old (S := S) -> M (FuseDir.reading (S := S)) Z)}.
Context {answering : FileSystem ops} {filling : DirSystem op_readdir op_getdir} {fresh : Fresh address}.

Abbreviation rep l c := (rep char_value table_size table_size (table l) c None None).
Abbreviation wf_tree c := (tree c no_credit None).
Abbreviation lib_wf := (lib_wf (char_value := char_value)).

Lemma runs_dl_lib {A} (m : M (lib S) A) (l : dlib S) (Q : A -> dlib S -> Prop) :
  runs m (dl_lib l) (fun x b => Q x (DLib b (handles l))) -> runs (on_lib m) l Q.
Proof. unfold runs, on_lib. by destruct (m (dl_lib l)) as [[x b]| | |]. Qed.

(** The blocks of the handles are sound. *)
Definition sound (m : gmap Z dhandle) : Prop := map_Forall (fun _ h => dh_wf (dh_buf h)) m.

Definition dl_wf (l : dlib S) : Prop := lib_wf (dl_lib l) /\ sound (handles l).

(** With the contents [c] of the table and the open directories [s]. *)
Definition holds (c : gmap nat node) (s : gset Z) (l : dlib S) : Prop :=
  rep (dl_lib l) c /\ wf_tree c /\ sound (handles l) /\ dom (handles l) = s.

Lemma holds_wf c s l : holds c s l -> dl_wf l /\ dom (handles l) = s.
Proof. intros (Hr & Ht & Hs & Hd). split; [split; [by eapply lib_wf_intro | done] | done]. Qed.

(** A computation on the library that leaves the contents. *)
Lemma runs_lib_part {A} c s l (m : M (lib S) A) (Q : A -> dlib S -> Prop) :
  holds c s l -> runs m (dl_lib l) (fun x b => rep b c -> Q x (DLib b (handles l))) ->
  runs m (dl_lib l) (fun _ b => rep b c) -> runs (on_lib m) l Q.
Proof.
  intros Hl H1 H2. apply runs_dl_lib. eapply runs_mono; [exact (runs_conj _ _ _ _ H1 H2) |].
  intros x b [H H']. auto.
Qed.

Lemma runs_call_holds {A} c s l (m : M S A) (Q : A -> dlib S -> Prop) :
  holds c s l -> answers m -> (forall x l', holds c s l' -> handles l' = handles l -> Q x l') ->
  runs (on_lib (call m)) l Q.
Proof. intros (? & ? & ? & ?) Hm HQ. apply runs_dl_lib, runs_call; [done |]. intros x b. by apply HQ. Qed.

Lemma runs_path_holds c s l ino (Q : option bytes -> dlib S -> Prop) :
  holds c s l -> numbered c ino -> (forall p l', holds c s l' -> handles l' = handles l -> Q p l') ->
  runs (on_lib (on_table (get_path alloc_ok ino))) l Q.
Proof.
  intros (Hr & Ht & ? & ?) Hn HQ. apply runs_dl_lib, runs_on_table.
  eapply runs_get_path_name; [exact Hr | done | done |]. intros p f' Hf'. by apply HQ.
Qed.

Lemma runs_free_path_holds c s l path (Q : unit -> dlib S -> Prop) :
  holds c s l -> (forall l', holds c s l' -> handles l' = handles l -> Q tt l') ->
  runs (free_path (S := S) path) l Q.
Proof.
  intros (Hr & Ht & ? & ?) HQ. destruct path; [| by apply runs_ret, HQ].
  apply runs_dl_lib. eapply runs_free_string; [done |]. intros b Hb. by apply HQ.
Qed.

Lemma runs_handle_at l a (Q : dhandle -> dlib S -> Prop) :
  a ∈ dom (handles l) -> (forall h, handles l !! a = Some h -> Q h l) -> runs (handle_at a) l Q.
Proof.
  intros [h Ha]%elem_of_dom HQ. unfold handle_at. apply runs_bind, runs_get. rewrite Ha.
  by apply runs_ret, HQ.
Qed.

Lemma runs_free_handle c s l a (Q : unit -> dlib S -> Prop) :
  holds c s l -> a ∈ s -> (forall l', holds c (s ∖ {[a]}) l' -> Q tt l') ->
  runs (free_handle a) l Q.
Proof.
  intros (Hr & Ht & Hs & <-) Ha HQ. unfold free_handle. apply runs_bind, runs_handle_at; [done |].
  intros h Hh. apply runs_bind, runs_modify, runs_dl_lib, runs_on_table, runs_modify, HQ.
  cbn [dl_lib handles set_handles]. split_and!; [by apply rep_add_blocks | done | | set_solver].
  by apply map_Forall_delete.
Qed.

Lemma runs_new_handle c s l ino (Q : option Z -> dlib S -> Prop) :
  holds c s l ->
  (forall l', let a := address (handles l) in a ∉ s -> holds c (s ∪ {[a]}) l' ->
     handles l' = <[a := DHandle 0 ino empty_dh]> (handles l) -> Q (Some a) l') ->
  (no_memory alloc_ok -> forall l', holds c s l' -> handles l' = handles l -> Q None l') ->
  runs (new_handle alloc_ok address ino) l Q.
Proof.
  intros (Hr & Ht & Hs & <-) HQ HQ0. unfold new_handle. apply runs_bind, runs_dl_lib, runs_on_table.
  eapply runs_node_malloc; [exact Hr | |].
  - intros f' Hf' _. apply runs_bind, runs_get. cbv zeta. apply runs_bind, runs_modify, runs_ret.
    cbn [handles set_handles dl_lib]. pose proof (fresh (handles l)) as Hnew. apply HQ; [| | done].
    + by apply not_elem_of_dom.
    + split_and!; [exact Hf' | done | | cbn [handles]; set_solver].
      apply map_Forall_insert_2; [| done]. split_and!; [done | by left | done | done].
  - intros Hm f' Hf'. apply runs_ret. by apply HQ0.
Qed.

(** The directories that are open after the request [q] with the reply [x]. *)
Definition open_after (q : dir_request) (x : reply) (s : gset Z) : gset Z :=
  match q, x with
  | Opendir _ _ false, ReplyOpen fi => s ∪ {[fh fi]}
  | Releasedir _ fi, _ => s ∖ {[fh fi]}
  | _, _ => s
  end.

(** What the kernel asks of a directory: it knows the node, and uses only handles that it
    has got and not released. *)
Definition dir_allowed (l : dlib S) (q : dir_request) : Prop :=
  let c := contents (table (dl_lib l)) in
  match q with
  | Opendir ino _ _ => numbered c ino
  | Readdir ino size off fi =>
      numbered c ino /\ fh fi ∈ dom (handles l) /\ 0 <= size <= 2 ^ 31 /\ 0 <= off < 2 ^ 63
  | Releasedir ino fi | Fsyncdir ino _ fi => numbered c ino /\ fh fi ∈ dom (handles l)
  | Other q => lib_allowed (conf := conf) c q
  end.

Abbreviation serve_dir := (serve_dir alloc_ok char_value ops conf readdir_ino address buffer_ok junk op_readdir op_getdir).

Lemma runs_fuse_lib_opendir c s l ino fi lost :
  holds c s l -> numbered c ino ->
  runs (fuse_lib_opendir alloc_ok ops address ino fi lost) l
    (fun x l' => holds c (open_after (Opendir ino fi lost) x s) l' /\
       (forall o, x = ReplyOpen o -> fh o ∉ s)).
Proof.
  intros Hl Hn. unfold fuse_lib_opendir. apply runs_bind. eapply runs_new_handle; [done | |].
  2:{ intros _ l1 Hl1 _. apply runs_dl_lib, runs_ret. split; [by destruct lost | done]. }
  intros l1 a Ha Hl1 _. cbv zeta in *. apply runs_bind. eapply runs_path_holds; [done | done |].
  intros path l2 Hl2 _. apply runs_bind.
  eapply (runs_mono _ _ (fun r l' => holds c (s ∪ {[a]}) l' /\ (path = None -> fst r <> 0))).
  { destruct path as [path|]; [| by apply runs_ret]. apply runs_bind.
    eapply runs_call_holds; [done | auto with answers |]. intros [err fi'] l3 (Hr3 & Ht3 & Hs3 & Hd3) Heq.
    apply runs_bind, runs_get, runs_bind, runs_modify, runs_ret. split; [| done].
    split_and!; cbn [handles set_handles dl_lib]; [exact Hr3 | done | | by rewrite dom_alter_L].
    intros b h [(_ & h' & Hb & ->)|[_ Hb]]%lookup_alter_Some; by apply (Hs3 _ _ Hb). }
  intros [err fi'] l3 [Hl3 Herr]. cbn [fst] in Herr. apply runs_bind.
  eapply (runs_mono _ _ (fun x l' => holds c (open_after (Opendir ino fi lost) x s) l' /\
    (forall o, x = ReplyOpen o -> fh o = a))).
  { destruct (Z.eqb_spec err 0) as [->|].
    - apply runs_bind. destruct lost.
      + destruct path as [path|]; [| by destruct Herr]. apply runs_bind.
        eapply runs_call_holds; [done | auto with answers |]. intros _ l4 Hl4 _.
        eapply runs_free_handle; [done | set_solver |]. intros l5 Hl5. apply runs_ret.
        split; [| by intros o [= <-]]. by replace s with ((s ∪ {[a]}) ∖ {[a]}) by set_solver.
      + apply runs_ret, runs_ret. split; [done | by intros o [= <-]].
    - apply runs_bind, runs_dl_lib, runs_ret, runs_bind. eapply runs_free_handle; [done | set_solver |].
      intros l5 Hl5. apply runs_ret. split; [| done].
      replace ((s ∪ {[a]}) ∖ {[a]}) with s in Hl5 by set_solver. by destruct lost. }
  intros x l4 [Hl4 Hx]. apply runs_bind. eapply runs_free_path_holds; [done |]. intros l5 Hl5 _.
  apply runs_ret. split; [done |]. intros o Ho. by rewrite (Hx o Ho).
Qed.

Lemma runs_on_dir {A} a h (m : M (FuseDir.reading (S := S)) A) (l : dlib S) (Q : A -> dlib S -> Prop) :
  runs m (Reading (dh_buf h) (fs (dl_lib l))) (fun x r =>
    Q x (DLib (Lib (table (dl_lib l)) (hidectr (dl_lib l)) (below r)) (<[a := set_dh_buf (dh r) h]> (handles l)))) ->
  runs (on_dir a h m) l Q.
Proof. unfold runs, on_dir. by destruct (m _) as [[x r]| | |]. Qed.

Lemma runs_fuse_lib_readdir_holds c s l ino size off fi :
  holds c s l -> numbered c ino -> fh fi ∈ s -> 0 <= size <= 2 ^ 31 -> 0 <= off < 2 ^ 63 ->
  runs (fuse_lib_readdir alloc_ok char_value conf readdir_ino buffer_ok junk op_readdir op_getdir ino size off fi) l
    (fun _ l' => holds c s l').
Proof.
  intros Hl Hn Hfi Hsize Hoff. unfold fuse_lib_readdir. cbv zeta.
  pose proof Hl as (_ & _ & Hs & Hd). rewrite <- Hd in Hfi. apply runs_bind, runs_handle_at; [done |].
  intros h Hh. apply runs_bind. eapply (runs_mono _ _ (fun _ l' => holds c s l' /\ handles l' = handles l)).
  { destruct (_ || _); [| by apply runs_ret]. by eapply runs_path_holds. }
  intros path l1 [(Hr1 & Ht1 & Hs1 & Hd1) Heq]. apply runs_bind, runs_get, runs_bind, runs_on_dir.
  eapply runs_mono; [apply runs_fuse_lib_readdir_any; [exact (Hs _ _ Hh) | done | done] |].
  intros r [d b] Hwf. cbn [dh below] in *. apply runs_bind.
  eapply (runs_free_path_holds c s).
  { split_and!; cbn [dl_lib handles]; [done | done | | rewrite dom_insert_L, Hd1; rewrite Hd in Hfi; set_solver].
    by apply map_Forall_insert_2. }
  intros l2 Hl2 _. destruct r as [err|buf]; [apply runs_dl_lib |]; by apply runs_ret.
Qed.

Lemma runs_fuse_lib_releasedir c s l ino fi :
  holds c s l -> numbered c ino -> fh fi ∈ s ->
  runs (fuse_lib_releasedir alloc_ok ops ino fi) l (fun _ => holds c (s ∖ {[fh fi]})).
Proof.
  intros Hl Hn Hfi. unfold fuse_lib_releasedir, get_dirhandle. pose proof Hl as (_ & _ & _ & Hd).
  apply runs_bind, runs_bind, runs_handle_at; [by rewrite Hd |]. intros h _. apply runs_ret, runs_bind.
  eapply runs_path_holds; [done | done |]. intros path l1 Hl1 _. apply runs_bind.
  eapply runs_call_holds; [done | auto with answers |]. intros _ l2 Hl2 _. apply runs_bind.
  eapply runs_free_path_holds; [done |]. intros l3 Hl3 _. apply runs_bind.
  eapply runs_free_handle; [done | done |]. intros l4 Hl4. by apply runs_dl_lib, runs_ret.
Qed.

Lemma runs_fuse_lib_fsyncdir c s l ino datasync fi :
  holds c s l -> numbered c ino -> fh fi ∈ s ->
  runs (fuse_lib_fsyncdir alloc_ok ops ino datasync fi) l (fun _ => holds c s).
Proof.
  intros Hl Hn Hfi. unfold fuse_lib_fsyncdir, get_dirhandle. pose proof Hl as (Hr & Ht & Hs & Hd).
  apply runs_bind, runs_bind, runs_handle_at; [by rewrite Hd |]. intros h _. apply runs_ret, runs_bind.
  apply runs_dl_lib. eapply runs_ask; [done | done | done | auto with answers |].
  intros err b Hb. by apply runs_dl_lib, runs_ret.
Qed.

Lemma serve_dir_wf l q :
  dl_wf l -> dir_allowed l q ->
  runs (serve_dir q) l (fun x l' => dl_wf l' /\ dom (handles l') = open_after q x (dom (handles l)) /\
    (forall ino fi lost o, q = Opendir ino fi lost -> x = ReplyOpen o -> fh o ∉ dom (handles l))).
Proof.
  intros [[Hr Ht] Hs] Hal. assert (holds (contents (table (dl_lib l))) (dom (handles l)) l) as Hl by done.
  destruct q as [ino fi lost|ino size off fi|ino fi|ino d fi|q]; cbn [dir_allowed FuseHandle.serve_dir open_after] in *.
  - eapply runs_mono; [by apply runs_fuse_lib_opendir |]. intros x l' [Hl' Hx].
    apply holds_wf in Hl' as [Hwf Hd]. split_and!; [done | done |]. intros _ _ _ o _ Ho. by apply Hx.
  - destruct Hal as (? & ? & ? & ?). eapply runs_mono; [by apply runs_fuse_lib_readdir_holds |].
    intros x l' [Hwf Hd]%holds_wf. by split_and!.
  - destruct Hal. eapply runs_mono; [by apply runs_fuse_lib_releasedir |].
    intros x l' [Hwf Hd]%holds_wf. by split_and!.
  - destruct Hal. eapply runs_mono; [by apply runs_fuse_lib_fsyncdir |].
    intros x l' [Hwf Hd]%holds_wf. by split_and!.
  - apply runs_dl_lib. eapply runs_mono; [by apply (serve_lib_wf (ops := ops)) |].
    intros x b Hb. by split_and!.
Qed.

(** The states of the library, from its creation on. *)
Inductive dl_reachable : dlib S -> Prop :=
| dl_new f0 f k s : nodes f0 = ∅ -> new_nodes alloc_ok f0 = Ret (true, f) -> dl_reachable (DLib (Lib f k s) ∅)
| dl_serve l q x l' : dl_reachable l -> dir_allowed l q -> serve_dir q l = Ret (x, l') -> dl_reachable l'.

Lemma dl_reachable_wf l : dl_reachable l -> dl_wf l.
Proof.
  induction 1 as [f0 f h s Hn Hf | l q x l' _ IH Hal Hs].
  - split; [| by apply map_Forall_empty].
    eapply (reachable_wf alloc_ok char_value), reachable_new; done.
  - pose proof (serve_dir_wf l q IH Hal) as Hr. unfold runs in Hr. rewrite Hs in Hr. apply Hr.
Qed.
End Handles.

(** C17. For any file system whose operations answer and which fills directories
    in one of the two modes of readdir, the requests on directory handles, mixed
    with all the others in any order, are served: none uses a handle that was
    freed or frees one twice, none reads or writes outside of the block of its
    handle, and the handles in the heap are exactly those that were handed to
    the kernel and not released, also when allocations fail or the reply of an
    opendir is lost. *)
Theorem directory_handles {S} alloc_ok char_value (ops : fuse_operations S) conf readdir_ino address buffer_ok junk
    op_readdir op_getdir `{!FileSystem ops} `{!DirSystem op_readdir op_getdir} `{!Fresh address} l :
  let serve := serve_dir alloc_ok char_value ops conf readdir_ino address buffer_ok junk op_readdir op_getdir in
  let reached := dl_reachable (alloc_ok := alloc_ok) (char_value := char_value) (ops := ops) (conf := conf)
    (readdir_ino := readdir_ino) (address := address) (buffer_ok := buffer_ok) (junk := junk)
    (op_readdir := op_readdir) (op_getdir := op_getdir) in
  reached l ->
  dl_wf (char_value := char_value) l /\
  forall q, dir_allowed (conf := conf) l q -> exists x l',
    serve q l = Ret (x, l') /\ reached l' /\
    dom (handles l') = open_after q x (dom (handles l)) /\
    (forall ino fi lost o, q = Opendir ino fi lost -> x = ReplyOpen o -> fh o ∉ dom (handles l)).
Proof.
  intros serve reached H. pose proof (dl_reachable_wf l H) as Hwf. split; [done |]. intros q Hal.
  pose proof (serve_dir_wf (alloc_ok := alloc_ok) (ops := ops) (readdir_ino := readdir_ino) (address := address)
    (buffer_ok := buffer_ok) (junk := junk) (op_readdir := op_readdir) (op_getdir := op_getdir) l q Hwf Hal) as Hr.
  apply runs_eq in Hr as (x & l' & E & _ & Hd & Hx).
  exists x, l'. split_and!; [done | by eapply dl_serve | done | done].
Qed.

(** ** Three entries below each directory *)

Definition sample_readdir (path : bytes) (f : FuseDir.filler (S := unit)) (off fh : Z)
  : M (FuseDir.reading (S := unit)) Z := fill_all sample_items f.

#[export] Instance sample_dir_system : DirSystem (Some sample_readdir) None.
Proof.
  split; [| done]. intros op path off fh [= <-]. left. apply fill_all_fills. vm_compute. discriminate.
Qed.

(** The next place after all that are in use. *)
Definition next_address (m : gmap Z dhandle) : Z := 1 + foldr Z.max 0 (map_to_list m).*1.

#[export] Instance next_fresh : Fresh next_address.
Proof.
  intros m. destruct (m !! next_address m) as [h|] eqn:E; [| done]. exfalso.
  assert (next_address m ∈ (map_to_list m).*1) as Hin.
  { apply list_elem_of_fmap. exists (next_address m, h). split; [done |]. by apply elem_of_map_to_list. }
  unfold next_address in Hin at 1. revert Hin. generalize ((map_to_list m).*1) as ks. intros ks Hin.
  assert (forall k, k ∈ ks -> k <= foldr Z.max 0 ks) as Hmax.
  { clear. induction ks as [|k ks IH]; intros j Hj; [by apply not_elem_of_nil in Hj |].
    apply elem_of_cons in Hj as [->|Hj]; simpl; [lia |]. specialize (IH j Hj). lia. }
  specialize (Hmax _ Hin). lia.
Qed.

Definition booted_dlib : dlib unit := DLib booted_lib ∅.

Lemma directory_handles_witness :
  dl_wf (char_value := plain_char) booted_dlib /\
  exists x l',
    serve_dir (fun _ => true) plain_char (answering_ops 0) (plain_config false) true next_address
      (fun _ _ => true) (fun _ _ => "x"%char) (Some sample_readdir) None
      (Opendir 1 (FileInfo 0 0 false false) false) booted_dlib = Ret (x, l') /\
    dom (handles l') = open_after (Opendir 1 (FileInfo 0 0 false false) false) x ∅.
Proof.
  destruct (directory_handles (fun _ => true) plain_char (answering_ops 0) (plain_config false) true next_address
    (fun _ _ => true) (fun _ _ => "x"%char) (Some sample_readdir) None booted_dlib) as [Hwf Hserve].
  - eapply dl_new; [| exact boot_step]. done.
  - split; [exact Hwf |]. destruct (Hserve (Opendir 1 (FileInfo 0 0 false false) false)) as (x & l' & E & _ & Hd & _).
    { exists 0%nat, root_node. split; [| reflexivity].
      change (contents (table (dl_lib booted_dlib))) with (contents booted). by rewrite booted_contents. }
    exists x, l'. split; [exact E |]. rewrite Hd. reflexivity.
Defined.
