(* ===== verification/FuseDirMount.v ===== *)
(** A process that lists a directory: [opendir], [readdir] until the end and [closedir],
    through the kernel and the library to the file system below; and, with a catalog
    mounted there, what it gets. *)

From S2P Require Import Prelude.
From S2P Require Import CString.
From S2P Require Import Entry.
From S2P Require Import CatalogFS.
From S2P Require Import Generate.
From S2P Require Import Format.
From S2P Require Import Pad.
From S2P Require Import Listing.
From S2P Require Import Order.
From S2P Require Import Mount.
From S2P Require Import SampleTree.
From S2P Require Import Sample.
From S2P Require Import FuseDir.
From S2P Require Import FuseDirProps.
From S2P Require Import FuseCatalog.
From S2P Require Import FuseNodes.
From S2P Require Import FuseNodesSpec.
From S2P Require Import FuseTree.
From S2P Require Import FuseNodesProps.
From S2P Require Import FuseLib.
From S2P Require Import FuseLibSpec.
From S2P Require Import FuseLibProps.
From S2P Require Import FuseMount.
From S2P Require Import FuseHandle.
From S2P Require Import FuseHandleProps.
From Stdlib Require Import FunctionalExtensionality.

#[local] Opaque table_size.

(** [lookup_node] in the directory, from the contents of the table. *)
Lemma node_of_entry {S} {char_value} (l : lib S) c id nm :
  rep char_value table_size table_size (table l) c None None ->
  (exists a n, entry c id nm a /\ c !! a = Some n /\ node_of char_value l id nm = Some (FuseNodes.nodeid n)) \/
  ((forall a, ~ entry c id nm a) /\ node_of char_value l id nm = None).
Proof.
  intros Hr. unfold node_of. assert (runs (lookup_node char_value id nm) (table l) (fun r f => f = table l /\
    match r with Some a => entry c id nm a | None => forall a, ~ entry c id nm a end)) as H.
  { eapply runs_lookup_node; [done | by auto |]. intros Hno. split; [done |]. intros a. by apply Hno. }
  apply runs_eq in H as (r & f & -> & -> & H). destruct r as [a|]; [left | by right].
  pose proof H as (n & _ & _ & Ha & _). exists a, n. split_and!; [done | done |].
  by destruct (rep_node _ _ _ _ _ _ Hr Ha) as (m & -> & <-).
Qed.

Lemma node_of_contents {S} {char_value} (l l' : lib S) c id :
  rep char_value table_size table_size (table l) c None None ->
  rep char_value table_size table_size (table l') c None None -> tree c no_credit None ->
  node_of char_value l id = node_of char_value l' id.
Proof.
  intros Hr Hr' Ht. apply functional_extensionality. intros nm.
  destruct (node_of_entry l c id nm Hr) as [(a & n & He & Ha & ->)|[Hno ->]],
    (node_of_entry l' c id nm Hr') as [(a' & n' & He' & Ha' & ->)|[Hno' ->]]; try done;
    [| by destruct (Hno' a) | by destruct (Hno a')].
  destruct He as (k & p & pn & Hk & Hp & Hpn & Hid & Hnm), He' as (k' & p' & pn' & Hk' & Hp' & Hpn' & Hid' & Hnm').
  assert (p' = p) as -> by (apply (t_ids _ _ _ Ht p' p pn' pn); congruence).
  assert (a' = a) as -> by (apply (t_names _ _ _ Ht a' a k' k p); congruence). congruence.
Qed.

Lemma node_of_range {S} {char_value} (l : lib S) c id nm k :
  rep char_value table_size table_size (table l) c None None -> tree c no_credit None ->
  node_of char_value l id nm = Some k -> 0 <= k < 2 ^ 64.
Proof.
  intros Hr Ht. destruct (node_of_entry l c id nm Hr) as [(a & n & _ & Ha & ->)|[_ ->]]; [| done].
  intros [= <-]. pose proof (t_range _ _ _ Ht a n Ha). lia.
Qed.

Lemma runs_call_ret {S A} (m : M S A) (x : A) (l : lib S) (Q : A -> lib S -> Prop) :
  m (fs l) = Ret (x, fs l) -> Q x (Lib (table l) (hidectr l) (fs l)) -> runs (call m) l Q.
Proof. intros E HQ. unfold runs, call. by rewrite E. Qed.

(** A full buffer is read without the path. *)
Lemma full_needs_no_path {S} alloc_ok junk conf N (op_readdir : option (bytes -> FuseDir.filler (S := S) -> Z -> Z -> M _ Z))
  op_getdir p p' size off fh r :
  filled (dh r) = true -> off <> 0 ->
  FuseDir.fuse_lib_readdir alloc_ok junk conf N op_readdir op_getdir p size off fh r =
  FuseDir.fuse_lib_readdir alloc_ok junk conf N op_readdir op_getdir p' size off fh r.
Proof.
  intros Hf Hoff. unfold FuseDir.fuse_lib_readdir. replace (off =? 0) with false by lia.
  unfold mbind, M_bind, mret, M_ret, on_dh, get. by rewrite Hf.
Qed.

Section Listing.
Context {alloc_ok : nat -> bool} {char_value : ascii -> Z}.
Context {S : Type} {ops : fuse_operations S} {conf : lib_config} {readdir_ino : bool}.
Context {address : gmap Z dhandle -> Z} {buffer_ok : Z -> nat -> bool} {junk : nat -> nat -> ascii}.
Context {op : bytes -> FuseDir.filler (S := S) -> Z -> Z -> M (FuseDir.reading (S := S)) Z}.
Context {op_getdir : option (bytes -> FuseDir.filler_old (S := S) -> M (FuseDir.reading (S := S)) Z)}.
Context {fresh : Fresh address}.

Abbreviation rep l c := (rep char_value table_size table_size (table l) c None None).
Abbreviation dconf := (FuseDir.Config (use_ino conf) readdir_ino).
Abbreviation kernel_readdir := (kernel_readdir alloc_ok char_value conf readdir_ino buffer_ok junk (Some op) op_getdir).

(** A reader with room for so many entries at each call, up to an error. *)
Fixpoint read_entries (rooms : list nat) (ino : Z) (fi : file_info) (f_pos : Z) : M (dlib S) (Z * list dent) :=
  match rooms with
  | [] => mret (0, [])
  | room :: rooms' =>
      r ← kernel_readdir filldir_room ino fi f_pos (room, []);
      let '(err, f_pos', (_, got)) := r in
      if err =? 0 then
        r ← read_entries rooms' ino fi f_pos';
        mret (fst r, got ++ snd r)
      else mret (err, got)
  end.

(** [opendir], [readdir] and [closedir]. *)
Definition list_directory (rooms : list nat) (ino : Z) : M (dlib S) (Z * list dent) :=
  x ← fuse_lib_opendir alloc_ok ops address ino (FileInfo 0 0 false false) false;
  match x with
  | ReplyErr err => mret (- err, [])
  | ReplyOpen fi =>
      r ← read_entries rooms ino fi 0;
      _ ← fuse_lib_releasedir alloc_ok ops ino fi;
      mret r
  | _ => ub
  end.

(** The file system keeps no handles of its own, and has the entries [items] in the directory
    with the contents [c] of the table and the handles [m]. *)
Context {c : gmap nat node} {p : nat} {pn : node} {s : bytes} {m : gmap Z dhandle} {items : list item} {N : bytes -> option Z}.
Hypothesis well : tree c no_credit None.
Hypothesis memory : forall n, alloc_ok n = true.
Hypothesis opens : forall path fi st, fuse_fs_opendir ops path fi st = Ret ((0, fi), st).
Hypothesis closes : forall path fi st, fuse_fs_releasedir ops path fi st = Ret (0, st).
Hypothesis known_dir : c !! p = Some pn.
Hypothesis dir_path : path_to c p s.
Hypothesis short_path : strlen s < FUSE_MAX_PATH.
Hypothesis numbers : forall l : lib S, rep l c -> node_of char_value l (nodeid pn) = N.
Hypothesis op_lists : forall a, lists (alloc_ok := buffer_ok a) (junk := junk) (conf := dconf) (node_of := N)
  op (shown s) items.
Hypothesis items_good : Forall (good_item dconf N) items.
Hypothesis items_fit : total items <= 2 ^ 31.

Abbreviation full := (full (conf := dconf) (node_of := N) items).
Abbreviation a := (address m).

(** The directory is open, and [d] is its buffer. *)
Definition opened (d : fuse_dh) (l : dlib S) : Prop :=
  rep (dl_lib l) c /\ handles l = <[a := DHandle 0 (nodeid pn) d]> m.

Lemma numbered_dir : numbered c (nodeid pn).
Proof. by exists p, pn. Qed.

Lemma has_path l (Q : option bytes -> dlib S -> Prop) :
  rep (dl_lib l) c ->
  (forall l', rep (dl_lib l') c -> handles l' = handles l -> Q (Some (shown s)) l') ->
  runs (on_lib (on_table (get_path alloc_ok (nodeid pn)))) l Q.
Proof.
  intros Hr HQ. apply runs_dl_lib, runs_on_table.
  eapply runs_get_path; [exact Hr | done | done | done | done | |].
  - intros f' Hf'. by apply HQ.
  - intros [n Hn]. by rewrite memory in Hn.
Qed.

Lemma frees_path l path (Q : unit -> dlib S -> Prop) :
  rep (dl_lib l) c -> (forall l', rep (dl_lib l') c -> handles l' = handles l -> Q tt l') ->
  runs (free_path (S := S) path) l Q.
Proof.
  intros Hr HQ. destruct path; [| by apply runs_ret, HQ].
  apply runs_dl_lib. eapply runs_free_string; [done |]. intros b Hb. by apply HQ.
Qed.

Lemma runs_kernel_readdir pre suf room fi d l (Q : Z * Z * (nat * list dent) -> dlib S -> Prop) :
  items = pre ++ suf -> fh fi = a -> opened d l -> (pre = [] /\ dh_wf d \/ full d) -> (0 < room)%nat ->
  (forall k d' l', (k <= length suf)%nat -> (suf = [] \/ (0 < k)%nat) -> opened d' l' -> full d' ->
     Q (0, total (pre ++ take k suf),
        ((room - k)%nat, listing dconf N (total pre) (take k suf))) l') ->
  runs (kernel_readdir filldir_room (nodeid pn) fi (total pre) (room, [])) l Q.
Proof.
  intros Hitems Hfi [Hr Hm] Hd Hroom HQ. pose proof (total_nonneg pre). pose proof (total_nonneg suf).
  assert (total items = total pre + total suf) as Htot by (rewrite Hitems; apply total_app).
  pose proof items_good as Hg. rewrite Hitems in Hg. apply Forall_app in Hg as [Hg1 Hg2].
  unfold FuseHandle.kernel_readdir, FuseHandle.fuse_lib_readdir. cbv zeta. rewrite Hfi.
  apply runs_bind, runs_bind. unfold handle_at at 1. apply runs_bind, runs_get. rewrite Hm, lookup_insert_eq.
  apply runs_ret, runs_bind. cbn [dh_buf dh_fh dh_nodeid].
  eapply (runs_mono _ _ (fun path l' => rep (dl_lib l') c /\ handles l' = handles l /\
    (path = Some (shown s) \/ total pre <> 0 /\ filled d = true))).
  { destruct ((total pre =? 0) || negb (filled d)) eqn:E; [by apply has_path; [| auto] |].
    apply runs_ret. split_and!; [done | done |]. right. destruct (filled d); [| by rewrite orb_true_r in E]. lia. }
  intros path l1 (Hr1 & Hm1 & Hp). apply runs_bind, runs_get, runs_bind, runs_on_dir.
  cbn [dh_buf]. rewrite (numbers _ Hr1).
  eapply (runs_eq_run _ (FuseDir.fuse_lib_readdir (buffer_ok a) junk dconf N (Some op) op_getdir (Some (shown s))
    PAGE_SIZE (total pre) 0)).
  { destruct Hp as [->|[H1 H2]]; [done | by apply full_needs_no_path]. }
  eapply (runs_fuse_lib_readdir (items := items)); [apply op_lists | done | done | | lia |].
  { destruct Hd as [[-> Hd]|Hd]; [by left | by right]. }
  intros r' Hfull. apply runs_bind. apply frees_path; [done |]. intros l2 Hr2 Hm2. cbn [handles] in Hm2.
  apply runs_ret. rewrite Hitems, records_app, Z.add_0_l.
  assert (length (records dconf N 0 pre) = Z.to_nat (total pre)) as Hpre
    by (pose proof (length_records dconf N 0 pre Hg1); lia).
  rewrite drop_app_length' by done.
  apply runs_parse_dirfile; [done | lia | lia | lia |]. intros k Hk1 _ Hk2.
  rewrite <- total_app. cbn [app]. apply (HQ k (dh r')); [done | | | done].
  - destruct suf as [|it suf]; [by left | right]. apply (Hk2 it suf); [done | done |].
    apply Forall_good_inv in Hg2 as [[_ Hn] _]. pose proof (rec_size_bounds (fst it)).
    unfold FUSE_NAME_MAX in Hn. lia.
  - split; [done |]. rewrite Hm2, Hm1, Hm. apply insert_insert_eq.
Qed.

Lemma runs_read_entries rooms pre suf fi d l :
  items = pre ++ suf -> fh fi = a -> opened d l -> (pre = [] /\ dh_wf d \/ full d) ->
  Forall (fun room => (0 < room)%nat) rooms ->
  runs (read_entries rooms (nodeid pn) fi (total pre)) l (fun r l' => (exists d', opened d' l') /\ exists k,
    r = (0, listing dconf N (total pre) (take k suf)) /\ (length suf <= k \/ length rooms <= k)%nat).
Proof.
  intros Hitems Hfi Hl Hd Hr. revert pre suf d l Hitems Hl Hd.
  induction Hr as [|room rooms Hroom _ IH]; intros pre suf d l Hitems Hl Hd; cbn [read_entries].
  { apply runs_ret. split; [by exists d |]. exists 0%nat. split; [done | by right]. }
  apply runs_bind. eapply runs_kernel_readdir; [done | done | done | done | done |].
  intros k d' l' Hk1 Hk2 Hl' Hfull. cbn [Z.eqb]. apply runs_bind. eapply runs_mono.
  { apply (IH (pre ++ take k suf) (drop k suf) d'); [| done | by right]. by rewrite <- app_assoc, take_drop. }
  intros x l2 [Hl2 (j & -> & Hj)]. apply runs_ret. split; [done |]. exists (k + j)%nat. cbn [fst snd]. split.
  - by rewrite <- take_take_drop, listing_app, total_app.
  - rewrite length_drop in Hj. cbn [length]. destruct Hk2 as [->|]; simpl in *; lia.
Qed.

(** The directory is opened. *)
Lemma runs_open_directory l (Q : reply -> dlib S -> Prop) :
  rep (dl_lib l) c -> handles l = m ->
  (forall fi l', fh fi = a -> opened empty_dh l' -> Q (ReplyOpen fi) l') ->
  runs (fuse_lib_opendir alloc_ok ops address (nodeid pn) (FileInfo 0 0 false false) false) l Q.
Proof.
  intros Hr Hm HQ. unfold FuseHandle.fuse_lib_opendir.
  apply runs_bind. unfold new_handle. apply runs_bind, runs_dl_lib, runs_on_table.
  eapply runs_node_malloc; [exact Hr | | intros [n Hn]; by rewrite memory in Hn]. intros f1 Hr1 _.
  apply runs_bind, runs_get. cbv zeta. apply runs_bind, runs_modify, runs_ret. cbn [handles set_handles dl_lib].
  rewrite Hm. apply runs_bind. eapply has_path; [exact Hr1 |]. intros l2 Hr2 Hm2. cbn [handles set_handles] in Hm2.
  apply runs_bind, runs_bind.
  apply runs_dl_lib, (runs_call_ret _ _ _ _ (opens _ _ _)), runs_bind, runs_get, runs_bind, runs_modify, runs_ret.
  cbn [fst snd handles set_handles dl_lib fh]. rewrite Hm2, alter_insert_eq.
  apply runs_bind. change (0 =? 0) with true. cbv iota. apply runs_bind, runs_ret, runs_ret, runs_bind.
  apply frees_path; [done |]. intros l3 Hr3 Hm3. cbn [handles set_handles] in Hm3. apply runs_ret.
  by apply HQ.
Qed.

(** The first call of [readdir] fills the buffer: what it does undefined is undefined for
    the process. *)
Lemma list_directory_undefined rooms l :
  rep (dl_lib l) c -> handles l = m -> rooms <> [] ->
  (forall f r, op (shown s) f 0 0 r = UB) -> list_directory rooms (nodeid pn) l = UB.
Proof.
  intros Hr Hm Hrooms Hop. unfold list_directory.
  assert (runs (fuse_lib_opendir alloc_ok ops address (nodeid pn) (FileInfo 0 0 false false) false) l
    (fun x l' => exists fi, x = ReplyOpen fi /\ fh fi = a /\ opened empty_dh l')) as Ho
    by (apply runs_open_directory; [done | done |]; intros fi l' H1 H2; by exists fi).
  apply runs_eq in Ho as (x & l1 & E & fi & -> & Hfi & Hr1 & Hm1).
  rewrite (bind_runs_eq _ _ _ _ _ E). destruct rooms as [|room rooms]; [done |].
  apply bind_ub_eq. cbn [read_entries]. apply bind_ub_eq.
  unfold FuseHandle.kernel_readdir. apply bind_ub_eq. unfold FuseHandle.fuse_lib_readdir. cbv zeta. rewrite Hfi.
  rewrite (bind_runs_eq _ _ _ (DHandle 0 (nodeid pn) empty_dh) l1).
  2:{ unfold handle_at, mbind, M_bind, get. by rewrite Hm1, lookup_insert_eq. }
  change ((0 =? 0) || negb (FuseDir.filled (dh_buf (DHandle 0 (nodeid pn) empty_dh)))) with true. cbv iota.
  assert (runs (on_lib (on_table (get_path alloc_ok (nodeid pn)))) l1 (fun path _ => path = Some (shown s))) as Hpath
    by by apply has_path.
  apply runs_eq in Hpath as (path & l2 & E2 & ->).
  rewrite (bind_runs_eq _ _ _ _ _ E2), (bind_runs_eq _ _ _ l2 l2) by done.
  apply bind_ub_eq. cbn [dh_nodeid dh_buf dh_fh]. unfold on_dir. cbn [dh_buf].
  unfold FuseDir.fuse_lib_readdir. unfold mbind, M_bind, on_dh, modify, get, mret, M_ret. cbn.
  match goal with |- context [(on_dh (modify ?g) ≫= ?k) ?r] => assert ((on_dh (modify g) ≫= k) r = UB) as Hub end.
  { erewrite bind_runs_eq by reflexivity. apply bind_ub_eq, Hop. }
  by rewrite Hub.
Qed.

(** The process gets all the entries, and leaves nothing behind. *)
Lemma runs_list_directory rooms l :
  rep (dl_lib l) c -> handles l = m -> Forall (fun room => (0 < room)%nat) rooms -> (length items <= length rooms)%nat ->
  runs (list_directory rooms (nodeid pn)) l (fun r l' =>
    r = (0, listing dconf N 0 items) /\ rep (dl_lib l') c /\ handles l' = m).
Proof.
  intros Hr Hm Hrooms Hlen. pose proof (fresh m) as Hnew. unfold list_directory.
  apply runs_bind, runs_open_directory; [done | done |]. intros fi l3 Hfi Hopen.
  apply runs_bind. eapply runs_mono.
  { apply (runs_read_entries rooms [] items _ empty_dh); [done | done | done | | done].
    left. split; [done |]. split_and!; [done | by left | done | done]. }
  intros r l4 [(d & Hr4 & Hm4) (k & -> & Hk)]. apply runs_bind.
  unfold FuseHandle.fuse_lib_releasedir, get_dirhandle, free_handle, handle_at. rewrite Hfi.
  apply runs_bind, runs_bind, runs_bind, runs_get. rewrite Hm4, lookup_insert_eq. apply runs_ret, runs_ret, runs_bind.
  apply has_path; [done |]. intros l5 Hr5 Hm5. apply runs_bind.
  apply runs_dl_lib, (runs_call_ret _ _ _ _ (closes _ _ _)), runs_bind, frees_path; [done |]. intros l6 Hr6 Hm6. cbn [handles] in Hm6.
  apply runs_bind, runs_bind, runs_bind, runs_get. rewrite Hm6, Hm5, Hm4, lookup_insert_eq.
  apply runs_ret, runs_bind, runs_modify, runs_dl_lib, runs_on_table, runs_modify, runs_dl_lib, runs_ret, runs_ret.
  cbn [handles set_handles dl_lib table]. split_and!.
  - by rewrite take_ge by lia.
  - by apply rep_add_blocks.
  - by rewrite Hm6, Hm5, Hm4, delete_insert_id by done.
Qed.
End Listing.

(** * A mounted catalog *)

(** C4. Generate, mount, ls: a process opens, reads and closes a directory of
    the mounted catalog, any one, through the FUSE library, whose table is well
    formed and has memory, above catalogfs; the names fit in directory records,
    and these in 2 GiB. If the block in which the library hands over the path
    has a byte to spare for the slash that catalogfs appends, or the directory
    is the root, the process gets the two dots and then exactly the entries that
    were in the directory when the catalog was generated, in order, with their
    types, however little it reads at a time, and the nodes of the library and
    the heap of its open directories are then as they were; if the block has
    exactly the size of the path, as that of strdup, the listing is undefined.
    *)
Theorem catalog_listed alloc_ok char_value (ops : fuse_operations sys) conf readdir_ino address buffer_ok junk op_getdir
    `{!Fresh address} o root h e g d path_cap f hc sy m p pn s rooms :
  let its := map (fun ent => (Generate.d_name ent, served_stat (stat_of o (join d (Generate.d_name ent)))))
                 (entries o d) in
  let ls := list_directory (alloc_ok := alloc_ok) (char_value := char_value) (ops := ops) (conf := conf)
              (readdir_ino := readdir_ino) (address := address) (buffer_ok := buffer_ok) (junk := junk)
              (op := catalog_op e path_cap) (op_getdir := op_getdir) rooms (nodeid pn) in
  (forall n, alloc_ok n = true) -> (forall a n, buffer_ok a n = true) ->
  op_opendir ops = Some (fun path fi => mret (catalog_opendir path, fi)) ->
  op_releasedir ops = Some (fun path fi => mret (catalog_releasedir path)) ->
  table_wf char_value f -> contents f !! p = Some pn -> path_to (contents f) p s -> strlen s < FUSE_MAX_PATH ->
  good_tree o root h -> catalog_out g = [] -> reached o root d -> slash_path (shown s) = rel root (d ++ [SLASH]) ->
  Forall (fun ent => good_name (Generate.d_name ent)) (entries o d) -> total (dir_items its) <= 2 ^ 31 ->
  Forall (fun room => (0 < room)%nat) rooms -> (length its + 2 <= length rooms)%nat ->
  runs (catalog_listing (level_fuel h o [root]) o root) g (fun _ g' =>
    let file := pad_each_line (catalog_out g') in
    mounts e file -> mount_fits e file ->
    if decide (shown s = B "/" \/ strlen (shown s) + 1 < path_cap (shown s)) then
      runs ls (DLib (Lib f hc sy) m) (fun r l => fst r = 0 /\
        map name_type (snd r) = (B ".", 0) :: (B "..", 0) :: map (fun it => (fst it, file_type (snd it))) its /\
        table_wf char_value (table (dl_lib l)) /\ contents (table (dl_lib l)) = contents f /\ handles l = m)
    else ls (DLib (Lib f hc sy) m) = UB).
Proof.
  intros its ls Hmem Hbuf Hopen Hclose [Hr Ht] Hp Hs Hlen Htree Hg Hd Hpath Hn Htot Hrooms Hcount.
  assert (forall path fi st, fuse_fs_opendir ops path fi st = Ret ((0, fi), st)) as Hod by (intros; unfold fuse_fs_opendir; by rewrite Hopen).
  assert (forall path fi st, fuse_fs_releasedir ops path fi st = Ret (0, st)) as Hrd by (intros; unfold fuse_fs_releasedir; by rewrite Hclose).
  eapply runs_mono; [by apply (generate_listing Htree) |]. intros x g' (_ & -> & _). cbv zeta. intros Hm Hf.
  case_decide as Hcap.
  2:{ apply (list_directory_undefined (c := contents f) (p := p) (s := s) (m := m)); try done.
      - by destruct rooms; [simpl in Hcount; lia |].
      - intros fl r. unfold catalog_op. rewrite catalog_readdir_overruns; [done | tauto |].
        apply Z.nlt_ge. tauto. }
  set (l0 := Lib f hc sy) in *. set (N := node_of char_value l0 (nodeid pn)).
  assert (forall nm id, N nm = Some id -> 0 <= id < 2 ^ 64) as Hnum
    by (intros nm id; by apply (node_of_range l0 (contents f))).
  assert (Forall (fun it => good_name (fst it)) its) as Hnames by by apply Forall_map.
  eapply runs_mono.
  - eapply (runs_list_directory (c := contents f) (p := p) (s := s) (items := dir_items its) (N := N));
      [done | done | done | done | done | done | done | | | | done | done | done | done | ].
    + intros l Hl. by apply (node_of_contents l l0 (contents f)).
    + intros a. apply catalog_op_lists; [intros n; apply Hbuf | done | done | done |]. intros buf s'. by eapply tree_readdir.
    + by apply good_dir_items.
    + unfold dir_items, named_stats. cbn [length]. rewrite length_map. lia.
  - intros r l (-> & Hl & Hh). cbn [fst snd].
    split; [done |]. split; [apply dir_listing |]. split; [by eapply table_wf_intro |]. split; [by destruct Hl | done].
Qed.

(** The directory a of the sample tree, looked up before and read an entry at a time:
    with a byte to spare in the block of its path. *)
Lemma catalog_listed_witness :
  let its := map (fun ent => (Generate.d_name ent,
                              served_stat (stat_of sample_os (join (B "/t/a") (Generate.d_name ent)))))
                 (entries sample_os (B "/t/a")) in
  let e := env_of_file sample_tree_file in
  let ls path_cap := list_directory (alloc_ok := fun _ => true) (char_value := plain_char)
          (ops := mounted_ops e) (conf := plain_config false)
          (readdir_ino := true) (address := next_address) (buffer_ok := fun _ _ => true) (junk := fun _ _ => "x"%char)
          (op := catalog_op e path_cap) (op_getdir := None) [1; 1; 1]%nat (nodeid a_node) in
  let path_cap := fun s => strlen s + 2 in
  runs (catalog_listing (level_fuel 2 sample_os [B "/t"]) sample_os (B "/t")) sample_gstate (fun _ g' =>
    let file := pad_each_line (catalog_out g') in
    mounts e file -> mount_fits e file ->
    if decide (B "/a" = B "/" \/ strlen (B "/a") + 1 < path_cap (B "/a")) then
      runs (ls path_cap) (DLib (Lib looked_up 0 sample_sys) ∅) (fun r l => fst r = 0 /\
         map name_type (snd r) = (B ".", 0) :: (B "..", 0) :: map (fun it => (fst it, file_type (snd it))) its /\
         table_wf plain_char (table (dl_lib l)) /\ contents (table (dl_lib l)) = contents looked_up /\ handles l = ∅)
    else ls path_cap (DLib (Lib looked_up 0 sample_sys) ∅) = UB).
Proof.
  intros its e ls path_cap.
  apply (catalog_listed _ _ _ _ _ _ _ _ _ sample_os (B "/t") 2 _ _ (B "/t/a") _ looked_up 0 sample_sys ∅ 1 a_node (B "/a"));
    [done | done | done | done | exact (reachable_wf _ _ _ looked_up_reachable) | | exact looked_up_path | done
    | exact sample_tree | reflexivity | | reflexivity | | | |].
  - by rewrite looked_up_contents.
  - apply (reached_sub _ _ (B "/t")); [constructor |]. apply (bool_decide_unpack _). vm_compute. exact I.
  - vm_compute entries. repeat (apply Forall_cons_2 || apply Forall_nil_2); done.
  - vm_compute. discriminate.
  - repeat (apply Forall_cons_2 || apply Forall_nil_2); lia.
  - vm_compute. lia.
Defined.
