(* ===== verification/FuseWire.v ===== *)
(** The messages between the kernel and the FUSE library, on the side of the kernel
    module (other_fs/fuse-2.7.3/kernel: fuse_kernel.h, dir.c, file.c, inode.c): the
    structures of the protocol, and how each request is filled in. *)

From S2P Require Import Prelude.
From S2P Require Import CString.
From S2P Require Import FuseDir.

(** * Structures in memory *)

Definition u32 (z : Z) : bytes := le_bytes 4 z.
Definition u64 (z : Z) : bytes := le_bytes 8 z.

(** The field of [n] bytes at the offset [pos], unsigned. *)
Definition field (n pos : nat) (buf : bytes) : Z := le_value (take n (drop pos buf)).

(** A string with its NUL. *)
Definition zstring (s : bytes) : bytes := s ++ [NUL].

(** ** Operation codes *)

Definition FUSE_LOOKUP : Z := 1.
Definition FUSE_FORGET : Z := 2.
Definition FUSE_GETATTR : Z := 3.
Definition FUSE_SETATTR : Z := 4.
Definition FUSE_READLINK : Z := 5.
Definition FUSE_SYMLINK : Z := 6.
Definition FUSE_MKNOD : Z := 8.
Definition FUSE_MKDIR : Z := 9.
Definition FUSE_UNLINK : Z := 10.
Definition FUSE_RMDIR : Z := 11.
Definition FUSE_RENAME : Z := 12.
Definition FUSE_LINK : Z := 13.
Definition FUSE_OPEN : Z := 14.
Definition FUSE_READ : Z := 15.
Definition FUSE_WRITE : Z := 16.
Definition FUSE_STATFS : Z := 17.
Definition FUSE_RELEASE : Z := 18.
Definition FUSE_FSYNC : Z := 20.
Definition FUSE_SETXATTR : Z := 21.
Definition FUSE_GETXATTR : Z := 22.
Definition FUSE_LISTXATTR : Z := 23.
Definition FUSE_REMOVEXATTR : Z := 24.
Definition FUSE_FLUSH : Z := 25.
Definition FUSE_INIT : Z := 26.
Definition FUSE_OPENDIR : Z := 27.
Definition FUSE_READDIR : Z := 28.
Definition FUSE_RELEASEDIR : Z := 29.
Definition FUSE_FSYNCDIR : Z := 30.
Definition FUSE_GETLK : Z := 31.
Definition FUSE_SETLK : Z := 32.
Definition FUSE_SETLKW : Z := 33.
Definition FUSE_ACCESS : Z := 34.
Definition FUSE_CREATE : Z := 35.
Definition FUSE_INTERRUPT : Z := 36.
Definition FUSE_BMAP : Z := 37.
Definition FUSE_DESTROY : Z := 38.

(** ** The structures after the header of a request, byte by byte *)

Definition fuse_forget_in (nlookup : Z) : bytes := u64 nlookup.
Definition fuse_mknod_in (mode rdev : Z) : bytes := u32 mode ++ u32 rdev.
Definition fuse_mkdir_in (mode : Z) : bytes := u32 mode ++ u32 0.
Definition fuse_rename_in (newdir : Z) : bytes := u64 newdir.
Definition fuse_link_in (oldnodeid : Z) : bytes := u64 oldnodeid.
Definition fuse_open_in (flags mode : Z) : bytes := u32 flags ++ u32 mode.
Definition fuse_release_in (fh flags release_flags lock_owner : Z) : bytes :=
  u64 fh ++ u32 flags ++ u32 release_flags ++ u64 lock_owner.
Definition fuse_flush_in (fh lock_owner : Z) : bytes := u64 fh ++ u32 0 ++ u32 0 ++ u64 lock_owner.
Definition fuse_read_in (fh offset size : Z) : bytes := u64 fh ++ u64 offset ++ u32 size ++ u32 0.
Definition fuse_write_in (fh offset size write_flags : Z) : bytes :=
  u64 fh ++ u64 offset ++ u32 size ++ u32 write_flags.
Definition fuse_fsync_in (fh fsync_flags : Z) : bytes := u64 fh ++ u32 fsync_flags ++ u32 0.
Definition fuse_setxattr_in (size flags : Z) : bytes := u32 size ++ u32 flags.
Definition fuse_getxattr_in (size : Z) : bytes := u32 size ++ u32 0.
Definition fuse_file_lock (start end_ type pid : Z) : bytes :=
  u64 start ++ u64 end_ ++ u32 type ++ u32 pid.
Definition fuse_lk_in (fh owner start end_ type pid : Z) : bytes :=
  u64 fh ++ u64 owner ++ fuse_file_lock start end_ type pid.
Definition fuse_access_in (mask : Z) : bytes := u32 mask ++ u32 0.
Definition fuse_init_in (major minor max_readahead flags : Z) : bytes :=
  u32 major ++ u32 minor ++ u32 max_readahead ++ u32 flags.
Definition fuse_interrupt_in (unique : Z) : bytes := u64 unique.
Definition fuse_bmap_in (block blocksize : Z) : bytes := u64 block ++ u32 blocksize ++ u32 0.

(** What a [setattr] sends: the mask, the file handle and the attributes. *)
Record setattr_in := SetattrIn {
  sa_valid : Z; sa_fh : Z; sa_size : Z; sa_atime : Z; sa_mtime : Z; sa_mode : Z; sa_uid : Z;
  sa_gid : Z }.

(** The nanoseconds are left 0. *)
Definition fuse_setattr_in (a : setattr_in) : bytes :=
  u32 (sa_valid a) ++ u32 0 ++ u64 (sa_fh a) ++ u64 (sa_size a) ++ u64 0 ++ u64 (sa_atime a)
  ++ u64 (sa_mtime a) ++ u64 0 ++ u32 0 ++ u32 0 ++ u32 0 ++ u32 (sa_mode a) ++ u32 0
  ++ u32 (sa_uid a) ++ u32 (sa_gid a) ++ u32 0.

(** What the kernel reads of a reply: [struct fuse_attr] at an offset, and the
    structures of a node, of attributes and of an open file. *)
Record fuse_attr := Attr {
  a_ino : Z; a_size : Z; a_blocks : Z; a_atime : Z; a_mtime : Z; a_ctime : Z; a_atimensec : Z;
  a_mtimensec : Z; a_ctimensec : Z; a_mode : Z; a_nlink : Z; a_uid : Z; a_gid : Z; a_rdev : Z }.

Definition load_attr (pos : nat) (b : bytes) : fuse_attr :=
  Attr (field 8 pos b) (field 8 (pos + 8) b) (field 8 (pos + 16) b) (field 8 (pos + 24) b)
       (field 8 (pos + 32) b) (field 8 (pos + 40) b) (field 4 (pos + 48) b) (field 4 (pos + 52) b)
       (field 4 (pos + 56) b) (field 4 (pos + 60) b) (field 4 (pos + 64) b) (field 4 (pos + 68) b)
       (field 4 (pos + 72) b) (field 4 (pos + 76) b).

Record fuse_entry_out := EntryOut {
  eo_nodeid : Z; eo_generation : Z; eo_entry_valid : Z * Z; eo_attr_valid : Z * Z; eo_attr : fuse_attr }.

Definition load_entry_out (b : bytes) : fuse_entry_out :=
  EntryOut (field 8 0 b) (field 8 8 b) (field 8 16 b, field 4 32 b) (field 8 24 b, field 4 36 b)
    (load_attr 40 b).

Record fuse_attr_out := AttrOut { ao_valid : Z * Z; ao_attr : fuse_attr }.

Definition load_attr_out (b : bytes) : fuse_attr_out :=
  AttrOut (field 8 0 b, field 4 8 b) (load_attr 16 b).

Record fuse_open_out := OpenOut { oo_fh : Z; oo_flags : Z }.

Definition load_open_out (b : bytes) : fuse_open_out := OpenOut (field 8 0 b) (field 4 8 b).

(** The sizes of the structures after the header of a reply. *)
Definition sizeof_entry_out : Z := 120.
Definition sizeof_attr_out : Z := 96.
Definition sizeof_open_out : Z := 16.
Definition sizeof_write_out : Z := 8.
Definition sizeof_statfs_out : Z := 80.
Definition FUSE_COMPAT_STATFS_SIZE : Z := 48.
Definition sizeof_getxattr_out : Z := 8.
Definition sizeof_lk_out : Z := 24.
Definition sizeof_init_out : Z := 24.
Definition sizeof_bmap_out : Z := 8.

(** * The requests of the kernel *)

(** [struct fuse_in], without the rest of its header, and [struct fuse_out]. *)
Record fuse_in := In { opcode : Z; nodeid : Z; args : list bytes }.
Record fuse_out := Out { out_args : list Z; argvar : bool }.

Definition fuse_lookup_init (dir : Z) (name : bytes) : fuse_in * fuse_out :=
  (In FUSE_LOOKUP dir [zstring name], Out [sizeof_entry_out] false).

Definition fuse_send_forget (nodeid nlookup : Z) : fuse_in * fuse_out :=
  (In FUSE_FORGET nodeid [fuse_forget_in nlookup], Out [] false).

(** [flags] are those of the open, without O_NOCTTY. *)
Definition fuse_create_open (dir : Z) (name : bytes) (flags mode : Z) : fuse_in * fuse_out :=
  (In FUSE_CREATE dir [fuse_open_in flags mode; zstring name],
   Out [sizeof_entry_out; sizeof_open_out] false).

(** [create_new_entry] gives the node and the reply of the next four and of [fuse_link]. *)
Definition create_new_entry (opcode dir : Z) (args : list bytes) : fuse_in * fuse_out :=
  (In opcode dir args, Out [sizeof_entry_out] false).

(** [rdev] is encoded already. *)
Definition fuse_mknod (dir : Z) (name : bytes) (mode rdev : Z) : fuse_in * fuse_out :=
  create_new_entry FUSE_MKNOD dir [fuse_mknod_in mode rdev; zstring name].

Definition fuse_mkdir (dir : Z) (name : bytes) (mode : Z) : fuse_in * fuse_out :=
  create_new_entry FUSE_MKDIR dir [fuse_mkdir_in mode; zstring name].

Definition fuse_symlink (dir : Z) (name link : bytes) : fuse_in * fuse_out :=
  create_new_entry FUSE_SYMLINK dir [zstring name; zstring link].

Definition fuse_unlink (dir : Z) (name : bytes) : fuse_in * fuse_out :=
  (In FUSE_UNLINK dir [zstring name], Out [] false).

Definition fuse_rmdir (dir : Z) (name : bytes) : fuse_in * fuse_out :=
  (In FUSE_RMDIR dir [zstring name], Out [] false).

Definition fuse_rename (olddir : Z) (oldname : bytes) (newdir : Z) (newname : bytes)
  : fuse_in * fuse_out :=
  (In FUSE_RENAME olddir [fuse_rename_in newdir; zstring oldname; zstring newname], Out [] false).

Definition fuse_link (ino newdir : Z) (newname : bytes) : fuse_in * fuse_out :=
  create_new_entry FUSE_LINK newdir [fuse_link_in ino; zstring newname].

Definition fuse_do_getattr (ino : Z) : fuse_in * fuse_out :=
  (In FUSE_GETATTR ino [], Out [sizeof_attr_out] false).

Definition fuse_access (ino mask : Z) : fuse_in * fuse_out :=
  (In FUSE_ACCESS ino [fuse_access_in mask], Out [] false).

Definition PAGE_SIZE : Z := 4096.

Definition read_link (ino : Z) : fuse_in * fuse_out :=
  (In FUSE_READLINK ino [], Out [PAGE_SIZE - 1] true).

(** [struct iattr] and its mask (linux/fs.h); [ia_file] is the handle of the file. *)
Record iattr := Iattr {
  ia_valid : Z; ia_mode : Z; ia_uid : Z; ia_gid : Z; ia_size : Z; ia_atime : Z; ia_mtime : Z;
  ia_file : Z }.

Definition ATTR_MODE : Z := 1.
Definition ATTR_UID : Z := 2.
Definition ATTR_GID : Z := 4.
Definition ATTR_SIZE : Z := 8.
Definition ATTR_ATIME : Z := 16.
Definition ATTR_MTIME : Z := 32.
Definition ATTR_FILE : Z := 8192.

Definition FATTR_MODE : Z := 1.
Definition FATTR_UID : Z := 2.
Definition FATTR_GID : Z := 4.
Definition FATTR_SIZE : Z := 8.
Definition FATTR_ATIME : Z := 16.
Definition FATTR_MTIME : Z := 32.
Definition FATTR_FH : Z := 64.

Definition iattr_to_fattr (a : iattr) : setattr_in :=
  let has m := Z.land (ia_valid a) m =? m in
  let times := Z.lor ATTR_ATIME ATTR_MTIME in
  let bits (b : bool) (z : Z) := if b then z else 0 in
  SetattrIn
    (Z.lor (bits (has ATTR_MODE) FATTR_MODE) (Z.lor (bits (has ATTR_UID) FATTR_UID)
       (Z.lor (bits (has ATTR_GID) FATTR_GID) (Z.lor (bits (has ATTR_SIZE) FATTR_SIZE)
          (Z.lor (bits (has times) (Z.lor FATTR_ATIME FATTR_MTIME)) (bits (has ATTR_FILE) FATTR_FH))))))
    (bits (has ATTR_FILE) (ia_file a)) (bits (has ATTR_SIZE) (ia_size a))
    (bits (has times) (ia_atime a)) (bits (has times) (ia_mtime a))
    (bits (has ATTR_MODE) (ia_mode a)) (bits (has ATTR_UID) (ia_uid a))
    (bits (has ATTR_GID) (ia_gid a)).

Definition fuse_setattr (ino : Z) (isdir : bool) (a : iattr) : fuse_in * fuse_out :=
  let inarg := iattr_to_fattr a in
  let valid := if isdir then Z.land (sa_valid inarg) (Z.lnot FATTR_FH) else sa_valid inarg in
  (In FUSE_SETATTR ino
      [fuse_setattr_in (SetattrIn valid (sa_fh inarg) (sa_size inarg) (sa_atime inarg)
         (sa_mtime inarg) (sa_mode inarg) (sa_uid inarg) (sa_gid inarg))],
   Out [sizeof_attr_out] false).

Definition fuse_setxattr (ino : Z) (name value : bytes) (flags : Z) : fuse_in * fuse_out :=
  (In FUSE_SETXATTR ino [fuse_setxattr_in (strlen value) flags; zstring name; value], Out [] false).

(** The reply of the next two: the bytes, or their number when [size] is 0. *)
Definition xattr_out (size : Z) : fuse_out :=
  if size =? 0 then Out [sizeof_getxattr_out] false else Out [size] true.

Definition fuse_getxattr (ino : Z) (name : bytes) (size : Z) : fuse_in * fuse_out :=
  (In FUSE_GETXATTR ino [fuse_getxattr_in size; zstring name], xattr_out size).

Definition fuse_listxattr (ino size : Z) : fuse_in * fuse_out :=
  (In FUSE_LISTXATTR ino [fuse_getxattr_in size], xattr_out size).

Definition fuse_removexattr (ino : Z) (name : bytes) : fuse_in * fuse_out :=
  (In FUSE_REMOVEXATTR ino [zstring name], Out [] false).

(** [flags] are those of the file, without those of its creation. *)
Definition fuse_send_open (ino : Z) (isdir : bool) (flags : Z) : fuse_in * fuse_out :=
  (In (if isdir then FUSE_OPENDIR else FUSE_OPEN) ino [fuse_open_in flags 0],
   Out [sizeof_open_out] false).

Definition fuse_release_fill (ino fh flags : Z) (isdir : bool) : fuse_in * fuse_out :=
  (In (if isdir then FUSE_RELEASEDIR else FUSE_RELEASE) ino [fuse_release_in fh flags 0 0],
   Out [] false).

Definition fuse_flush (ino fh lock_owner : Z) : fuse_in * fuse_out :=
  (In FUSE_FLUSH ino [fuse_flush_in fh lock_owner], Out [] false).

Definition fuse_fsync_common (ino fh : Z) (datasync isdir : bool) : fuse_in * fuse_out :=
  (In (if isdir then FUSE_FSYNCDIR else FUSE_FSYNC) ino [fuse_fsync_in fh (if datasync then 1 else 0)],
   Out [] false).

Definition fuse_read_fill (ino fh pos count : Z) (isdir : bool) : fuse_in * fuse_out :=
  (In (if isdir then FUSE_READDIR else FUSE_READ) ino [fuse_read_in fh pos count], Out [count] true).

(** [data] are the bytes of the pages of the request. *)
Definition fuse_send_write (ino fh pos : Z) (data : bytes) : fuse_in * fuse_out :=
  (In FUSE_WRITE ino [fuse_write_in fh pos (strlen data) 0; data], Out [sizeof_write_out] false).

Definition fuse_lk_fill (ino fh owner start end_ type opcode pid : Z) : fuse_in :=
  In opcode ino [fuse_lk_in fh owner start end_ type pid].

Definition fuse_getlk (ino fh owner start end_ type : Z) : fuse_in * fuse_out :=
  (fuse_lk_fill ino fh owner start end_ type FUSE_GETLK 0, Out [sizeof_lk_out] false).

Definition F_UNLCK : Z := 2.

Definition fuse_setlk (ino fh owner start end_ type tgid : Z) (sleep : bool) : fuse_in * fuse_out :=
  (fuse_lk_fill ino fh owner start end_ type (if sleep then FUSE_SETLKW else FUSE_SETLK)
     (if type =? F_UNLCK then 0 else tgid), Out [] false).

Definition fuse_bmap (ino block blocksize : Z) : fuse_in * fuse_out :=
  (In FUSE_BMAP ino [fuse_bmap_in block blocksize], Out [sizeof_bmap_out] false).

Definition fuse_statfs (ino minor : Z) : fuse_in * fuse_out :=
  (In FUSE_STATFS ino [], Out [if minor <? 4 then FUSE_COMPAT_STATFS_SIZE else sizeof_statfs_out] false).

Definition FUSE_SUPER_MAGIC : Z := 1702057286.

(** [struct kstatfs]. *)
Record kstatfs := Kstatfs {
  ks_type : Z; ks_bsize : Z; ks_frsize : Z; ks_blocks : Z; ks_bfree : Z; ks_bavail : Z; ks_files : Z;
  ks_ffree : Z; ks_namelen : Z }.

(** From the bytes of [struct fuse_kstatfs]. *)
Definition convert_fuse_statfs (attr : bytes) : kstatfs :=
  Kstatfs FUSE_SUPER_MAGIC (field 4 40 attr) (field 4 48 attr) (field 8 0 attr) (field 8 8 attr) (field 8 16 attr)
    (field 8 24 attr) (field 8 32 attr) (field 4 44 attr).

Definition FUSE_KERNEL_VERSION : Z := 7.
Definition FUSE_KERNEL_MINOR_VERSION : Z := 8.
Definition FUSE_ASYNC_READ : Z := 1.
Definition FUSE_POSIX_LOCKS : Z := 2.

Definition fuse_send_init (max_readahead : Z) : fuse_in * fuse_out :=
  (In FUSE_INIT 0 [fuse_init_in FUSE_KERNEL_VERSION FUSE_KERNEL_MINOR_VERSION max_readahead
                     (Z.lor FUSE_ASYNC_READ FUSE_POSIX_LOCKS)],
   Out [sizeof_init_out] true).
