(* ===== verification/FuseDevice.v ===== *)
(** The device of the FUSE kernel module (other_fs/fuse-2.7.3/kernel/dev.c): how
    requests are numbered, queued and read, how a reply that is written finds its
    request, how signals interrupt or abort a request, and how a connection ends.
    An operation on the device is one step: what other processes may do while its
    data is copied, with the lock given up, is not modelled. *)

From S2P Require Import Prelude.
From S2P Require Import CString.
From S2P Require Import FuseDir.
From S2P Require Import FuseWire.

Definition ENOENT : Z := 2.
Definition EINTR : Z := 4.
Definition EIO : Z := 5.
Definition E2BIG : Z := 7.
Definition EAGAIN : Z := 11.
Definition ENODEV : Z := 19.
Definition EINVAL : Z := 22.
Definition ENOSYS : Z := 38.
Definition ECONNABORTED : Z := 103.
Definition ENOTCONN : Z := 107.
Definition ECONNREFUSED : Z := 111.

(** * Requests and connections *)

(** Where the caller of a request waits in [request_wait_answer]: for the answer or
    any signal, for the answer or a fatal signal, or for the answer alone. *)
Inductive waiting := AnySignal | FatalSignal | NoSignal.

(** A request: [unique] and [uid], [gid], [pid] are in the header of [in_]. The error
    of an aborted one is -EINTR. *)
Record fuse_req := Req {
  unique : Z; uid : Z; gid : Z; pid : Z; in_ : fuse_in; out : fuse_out; isreply : bool;
  force : bool; intr_unique : Z; interrupted : bool; aborted : bool; waits : waiting }.

(** A request of which only the fields before [force] matter yet. *)
Definition new_req (uid gid pid : Z) (io : fuse_in * fuse_out) (isreply force : bool) (w : waiting)
  : fuse_req :=
  Req 0 uid gid pid io.1 io.2 isreply force 0 false false w.

Definition set_unique (u : Z) (r : fuse_req) : fuse_req :=
  Req u (uid r) (gid r) (pid r) (in_ r) (out r) (isreply r) (force r) (intr_unique r) (interrupted r)
      (aborted r) (waits r).
Definition set_intr_unique (u : Z) (r : fuse_req) : fuse_req :=
  Req (unique r) (uid r) (gid r) (pid r) (in_ r) (out r) (isreply r) (force r) u (interrupted r)
      (aborted r) (waits r).
Definition set_interrupted (r : fuse_req) : fuse_req :=
  Req (unique r) (uid r) (gid r) (pid r) (in_ r) (out r) (isreply r) (force r) (intr_unique r) true
      (aborted r) (if force r then NoSignal else FatalSignal).
Definition set_aborted (r : fuse_req) : fuse_req :=
  Req (unique r) (uid r) (gid r) (pid r) (in_ r) (out r) (isreply r) (force r) (intr_unique r)
      (interrupted r) true NoSignal.

(** [struct fuse_conn]: the last number, the requests that wait to be read and those
    that wait for their reply, the numbers of the requests whose interrupts wait to be
    read, and the requests that have ended, with the error and the arguments that
    their callers find. *)
Record fuse_conn := Conn {
  reqctr : Z; pending : list fuse_req; processing : list fuse_req; interrupts : list Z;
  connected : bool; conn_error : bool; no_interrupt : bool;
  ended : list (fuse_req * Z * list bytes) }.

Definition set_reqctr n fc :=
  Conn n (pending fc) (processing fc) (interrupts fc) (connected fc) (conn_error fc) (no_interrupt fc) (ended fc).
Definition set_pending l fc :=
  Conn (reqctr fc) l (processing fc) (interrupts fc) (connected fc) (conn_error fc) (no_interrupt fc) (ended fc).
Definition set_processing l fc :=
  Conn (reqctr fc) (pending fc) l (interrupts fc) (connected fc) (conn_error fc) (no_interrupt fc) (ended fc).
Definition set_interrupts l fc :=
  Conn (reqctr fc) (pending fc) (processing fc) l (connected fc) (conn_error fc) (no_interrupt fc) (ended fc).
Definition set_disconnected fc :=
  Conn (reqctr fc) (pending fc) (processing fc) (interrupts fc) false (conn_error fc) (no_interrupt fc) (ended fc).
Definition set_conn_error fc :=
  Conn (reqctr fc) (pending fc) (processing fc) (interrupts fc) (connected fc) true (no_interrupt fc) (ended fc).
Definition set_no_interrupt fc :=
  Conn (reqctr fc) (pending fc) (processing fc) (interrupts fc) (connected fc) (conn_error fc) true (ended fc).
Definition set_ended l fc :=
  Conn (reqctr fc) (pending fc) (processing fc) (interrupts fc) (connected fc) (conn_error fc) (no_interrupt fc) l.

Definition new_conn : fuse_conn := Conn 0 [] [] [] true false false [].

(** * Sending *)

Definition fuse_get_unique (fc : fuse_conn) : Z :=
  let ctr := to_u64 (reqctr fc + 1) in if ctr =? 0 then 1 else ctr.

Definition sizeof_in_header : Z := 40.
Definition sizeof_out_header : Z := 16.
Definition sizeof_interrupt_in : Z := 8.

Definition len_args (sizes : list Z) : Z := foldr Z.add 0 sizes.

(** [in.h.len]. *)
Definition reqsize (req : fuse_req) : Z :=
  sizeof_in_header + len_args (strlen <$> args (in_ req)).

Definition queue_request (req : fuse_req) (fc : fuse_conn) : fuse_conn :=
  let ctr := fuse_get_unique fc in
  set_pending (pending fc ++ [set_unique ctr req]) (set_reqctr ctr fc).

(** The request leaves the list of interrupts; its own list is left by the callers. *)
Definition request_end (req : fuse_req) (error : Z) (args : list bytes) (fc : fuse_conn) : fuse_conn :=
  set_ended (ended fc ++ [(req, error, args)]) (set_interrupts (filter (.≠ unique req) (interrupts fc)) fc).

(** Up to the wait of the caller. *)
Definition request_send (uid gid pid : Z) (io : fuse_in * fuse_out) (force : bool) (fc : fuse_conn)
  : fuse_conn :=
  let w := if no_interrupt fc then (if force then NoSignal else FatalSignal) else AnySignal in
  let req := new_req uid gid pid io true force w in
  if negb (connected fc) then set_ended (ended fc ++ [(req, - ENOTCONN, [])]) fc
  else if conn_error fc then set_ended (ended fc ++ [(req, - ECONNREFUSED, [])]) fc
  else queue_request req fc.

(** Without a wait: [request_send_noreply] and [request_send_background]. *)
Definition request_send_nowait (uid gid pid : Z) (io : fuse_in * fuse_out) (isreply : bool) (fc : fuse_conn)
  : fuse_conn :=
  let req := new_req uid gid pid io isreply false NoSignal in
  if connected fc then queue_request req fc else request_end req (- ENOTCONN) [] fc.

(** ** Signals *)

(** [list_add_tail] of an entry that is in the list already destroys the list. *)
Definition queue_interrupt (u : Z) : M fuse_conn unit :=
  fc ← get;
  if decide (u ∈ interrupts fc) then ub else modify (set_interrupts (interrupts fc ++ [u])).

(** The request with a number in a list, and a change of it. *)
Definition find_unique (u : Z) (rs : list fuse_req) : option fuse_req :=
  snd <$> list_find (fun r => unique r = u) rs.
Definition alter_unique (u : Z) (g : fuse_req -> fuse_req) (rs : list fuse_req) : list fuse_req :=
  (fun r => if unique r =? u then g r else r) <$> rs.
Definition without_unique (u : Z) (rs : list fuse_req) : list fuse_req :=
  filter (fun r => unique r <> u) rs.

(** The first wait of [request_wait_answer] ends with a signal. *)
Definition interrupt_request (u : Z) : M fuse_conn unit :=
  fc ← get;
  _ ← modify (fun fc => set_pending (alter_unique u set_interrupted (pending fc))
                 (set_processing (alter_unique u set_interrupted (processing fc)) fc));
  match find_unique u (processing fc) with Some _ => queue_interrupt u | None => mret tt end.

(** The second wait ends with a fatal signal. *)
Definition abort_request (u : Z) : M fuse_conn unit :=
  modify (fun fc =>
    match find_unique u (pending fc) with
    | Some req => request_end (set_aborted req) (- EINTR) [] (set_pending (without_unique u (pending fc)) fc)
    | None => set_processing (alter_unique u set_aborted (processing fc)) fc
    end).

(** A signal for the caller of the request [u]. *)
Definition request_wait_answer (u : Z) (fatal : bool) : M fuse_conn unit :=
  fc ← get;
  match find_unique u (pending fc ++ processing fc) with
  | None => mret tt
  | Some req =>
      match waits req with
      | AnySignal =>
          _ ← interrupt_request u; if fatal && negb (force req) then abort_request u else mret tt
      | FatalSignal => if fatal then abort_request u else mret tt
      | NoSignal => mret tt
      end
  end.

(** * Reading *)

Definition fuse_in_header (len opcode unique nodeid uid gid pid : Z) : bytes :=
  u32 len ++ u32 opcode ++ u64 unique ++ u64 nodeid ++ u32 uid ++ u32 gid ++ u32 pid ++ u32 0.

(** The bytes that are copied to the reader of the device. *)
Definition message (req : fuse_req) : bytes :=
  fuse_in_header (reqsize req) (opcode (in_ req)) (unique req) (nodeid (in_ req)) (uid req) (gid req)
    (pid req) ++ concat (args (in_ req)).

(** The interrupt of the request [u], the first in the list. *)
Definition fuse_read_interrupt (u nbytes : Z) : M fuse_conn (Z + bytes) :=
  fc ← get;
  let intr := fuse_get_unique fc in
  let size := sizeof_in_header + sizeof_interrupt_in in
  _ ← modify (fun fc => set_interrupts (tail (interrupts fc))
                 (set_processing (alter_unique u (set_intr_unique intr) (processing fc)) (set_reqctr intr fc)));
  mret (if nbytes <? size then inl (- EINVAL)
        else inr (fuse_in_header size FUSE_INTERRUPT intr 0 0 0 0 ++ fuse_interrupt_in u)).

(** The loop over the queue [ps]: requests that are too long are ended. *)
Fixpoint dev_read (nbytes : Z) (ps : list fuse_req) : M fuse_conn (Z + bytes) :=
  match ps with
  | [] => _ ← modify (set_pending []); mret (inl (- EAGAIN))
  | req :: ps =>
      if nbytes <? reqsize req then
        _ ← modify (request_end req (if opcode (in_ req) =? FUSE_SETXATTR then - E2BIG else - EIO) []);
        dev_read nbytes ps
      else
        _ ← modify (set_pending ps);
        _ ← (if isreply req then
               _ ← modify (fun fc => set_processing (processing fc ++ [req]) fc);
               if interrupted req then queue_interrupt (unique req) else mret tt
             else modify (request_end req 0 []));
        mret (inr (message req))
  end.

(** A read of [nbytes], without waiting. *)
Definition fuse_dev_readv (nbytes : Z) : M fuse_conn (Z + bytes) :=
  fc ← get;
  if negb (connected fc) then mret (inl (- ENODEV))
  else
    match interrupts fc with
    | u :: _ => fuse_read_interrupt u nbytes
    | [] => dev_read nbytes (pending fc)
    end.

(** * Writing *)

(** The first request with the number, its own or that of its interrupt. *)
Definition request_find (u : Z) (rs : list fuse_req) : option fuse_req :=
  snd <$> list_find (fun r => unique r = u \/ intr_unique r = u) rs.

(** The arguments of the given sizes. *)
Fixpoint fuse_copy_args (sizes : list Z) (b : bytes) : list bytes :=
  match sizes with
  | [] => []
  | n :: sizes => take (Z.to_nat n) b :: fuse_copy_args sizes (drop (Z.to_nat n) b)
  end.

(** The last size less [diff]. *)
Fixpoint shorten_last (diff : Z) (sizes : list Z) : list Z :=
  match sizes with
  | [] => []
  | [n] => [n - diff]
  | n :: sizes => n :: shorten_last diff sizes
  end.

(** The arguments of a reply of [nbytes], [None] for EINVAL. *)
Definition copy_out_args (o : fuse_out) (error nbytes : Z) (b : bytes) : option (list bytes) :=
  if negb (error =? 0) then (if nbytes =? sizeof_out_header then Some [] else None)
  else
    let reqsize := sizeof_out_header + len_args (out_args o) in
    if (reqsize <? nbytes) || ((nbytes <? reqsize) && negb (argvar o)) then None
    else if nbytes <? reqsize then
      let diffsize := reqsize - nbytes in
      match last (out_args o) with
      | Some size =>
          if size <? diffsize then None
          else Some (fuse_copy_args (shorten_last diffsize (out_args o)) b)
      | None => None
      end
    else Some (fuse_copy_args (out_args o) b).

(** A request of the list [processing] ends. *)
Definition finish (req : fuse_req) (error : Z) (args : list bytes) : M fuse_conn unit :=
  modify (fun fc => request_end req error args (set_processing (without_unique (unique req) (processing fc)) fc)).

(** A write of [b] to the device: the result of the call. *)
Definition fuse_dev_writev (b : bytes) : M fuse_conn Z :=
  let nbytes := strlen b in
  if nbytes <? sizeof_out_header then mret (- EINVAL)
  else
    let oh_len := field 4 0 b in
    let oh_error := to_i32 (field 4 4 b) in
    let oh_unique := field 8 8 b in
    if (oh_unique =? 0) || (oh_error <=? -1000) || (0 <? oh_error) || negb (oh_len =? nbytes)
    then mret (- EINVAL)
    else
      fc ← get;
      if negb (connected fc) then mret (- ENOENT)
      else
        match request_find oh_unique (processing fc) with
        | None => mret (- ENOENT)
        | Some req =>
            if aborted req then _ ← finish req (- EINTR) []; mret (- ENOENT)
            else if intr_unique req =? oh_unique then
              if negb (nbytes =? sizeof_out_header) then mret (- EINVAL)
              else
                _ ← (if oh_error =? - ENOSYS then modify set_no_interrupt
                     else if oh_error =? - EAGAIN then queue_interrupt (unique req)
                     else mret tt);
                mret nbytes
            else
              match copy_out_args (out req) oh_error nbytes (drop 16 b) with
              | Some args => _ ← finish req oh_error args; mret nbytes
              | None => _ ← finish req (- EIO) []; mret (- EINVAL)
              end
        end.

(** * The end of a connection *)

(** All the requests of a list end. *)
Definition end_requests (rs : list fuse_req) (fc : fuse_conn) : fuse_conn :=
  foldl (fun fc req => request_end req (- ECONNABORTED) [] fc) fc rs.

Definition fuse_dev_release (fc : fuse_conn) : fuse_conn :=
  let fc := set_pending [] (end_requests (pending fc) (set_disconnected fc)) in
  set_processing [] (end_requests (processing fc) fc).

(** No request is being copied here, so that there is none on the list [io]. *)
Definition fuse_abort_conn (fc : fuse_conn) : fuse_conn :=
  if connected fc then fuse_dev_release fc else fc.
