(* ===== verification/FuseLowlevel.v ===== *)
(** The messages between the kernel and the FUSE library, on the side of the library
    (other_fs/fuse-2.7.3/lib/fuse_lowlevel.c): from the bytes of a message to the
    operation that it asks for, and from an answer to the bytes of the reply; the
    requests that are being served, and those that are to be interrupted. *)

From S2P Require Import Prelude.
From S2P Require Import CString.
From S2P Require Import FuseDir.
From S2P Require Import FuseWire.
From S2P Require Import FuseDevice.

Definition ERANGE : Z := 34.
Definition EACCES : Z := 13.
Definition EPROTO : Z := 71.
Definition ENOMEM : Z := 12.
Definition OFFSET_MAX : Z := 9223372036854775807.
Definition SEEK_SET : Z := 0.
Definition FUSE_MIN_READ_BUFFER : Z := 8192.
Definition FUSE_RELEASE_FLUSH : Z := 1.
Definition FOPEN_DIRECT_IO : Z := 1.
Definition FOPEN_KEEP_CACHE : Z := 2.

(** * Data *)

(** [struct fuse_file_info]. *)
Record file_info := FileInfo {
  fi_flags : Z; fi_fh : Z; fi_writepage : bool; fi_direct_io : bool; fi_keep_cache : bool;
  fi_flush : bool; fi_lock_owner : Z }.

Definition zero_fi : file_info := FileInfo 0 0 false false false false 0.
Definition fi_of_flags (flags : Z) : file_info := FileInfo flags 0 false false false false 0.
Definition fi_of_fh (fh : Z) : file_info := FileInfo 0 fh false false false false 0.

(** [struct stat]. *)
Record kstat := Kstat {
  st_ino : Z; st_mode : Z; st_nlink : Z; st_uid : Z; st_gid : Z; st_rdev : Z; st_size : Z;
  st_blocks : Z; st_atime : Z; st_mtime : Z; st_ctime : Z; st_atimensec : Z; st_mtimensec : Z;
  st_ctimensec : Z }.

(** [struct statvfs]. *)
Record statvfs := Statvfs {
  f_bsize : Z; f_frsize : Z; f_blocks : Z; f_bfree : Z; f_bavail : Z; f_files : Z; f_ffree : Z;
  f_namemax : Z }.

Record flock := Flock { l_type : Z; l_whence : Z; l_start : Z; l_len : Z; l_pid : Z }.

(** The operations of [struct fuse_lowlevel_ops]. *)
Inductive lowlevel_op :=
| op_lookup | op_forget | op_getattr | op_setattr | op_readlink | op_mknod | op_mkdir | op_unlink
| op_rmdir | op_symlink | op_rename | op_link | op_open | op_read | op_write | op_flush | op_release
| op_fsync | op_opendir | op_readdir | op_releasedir | op_fsyncdir | op_statfs | op_setxattr
| op_getxattr | op_listxattr | op_removexattr | op_access | op_create | op_getlk | op_setlk | op_bmap.

(** A call of one of them, with its arguments apart from the request. *)
Inductive ll_call :=
| Lookup (parent : Z) (name : bytes)
| Forget (ino nlookup : Z)
| Getattr (ino : Z)
| Setattr (ino : Z) (attr : kstat) (to_set : Z) (fi : option file_info)
| Readlink (ino : Z)
| Mknod (parent : Z) (name : bytes) (mode rdev : Z)
| Mkdir (parent : Z) (name : bytes) (mode : Z)
| Unlink (parent : Z) (name : bytes)
| Rmdir (parent : Z) (name : bytes)
| Symlink (link : bytes) (parent : Z) (name : bytes)
| Rename (parent : Z) (name : bytes) (newparent : Z) (newname : bytes)
| Link (ino newparent : Z) (newname : bytes)
| Open (ino : Z) (fi : file_info)
| Read (ino size off : Z) (fi : file_info)
| Write (ino : Z) (buf : bytes) (off : Z) (fi : file_info)
| Flush (ino : Z) (fi : file_info)
| Release (ino : Z) (fi : file_info)
| Fsync (ino : Z) (datasync : bool) (fi : file_info)
| Opendir (ino : Z) (fi : file_info)
| Readdir (ino size off : Z) (fi : file_info)
| Releasedir (ino : Z) (fi : file_info)
| Fsyncdir (ino : Z) (datasync : bool) (fi : file_info)
| Statfs (ino : Z)
| Setxattr (ino : Z) (name value : bytes) (flags : Z)
| Getxattr (ino : Z) (name : bytes) (size : Z)
| Listxattr (ino size : Z)
| Removexattr (ino : Z) (name : bytes)
| Access (ino mask : Z)
| Create (parent : Z) (name : bytes) (mode : Z) (fi : file_info)
| Getlk (ino : Z) (fi : file_info) (lock : flock)
| Setlk (ino : Z) (fi : file_info) (lock : flock) (sleep : bool)
| Bmap (ino blocksize idx : Z).

(** * The state *)

(** [struct fuse_req]: [interrupts] is the number [u.i.unique] of an interrupt. *)
Record fuse_req := Req {
  unique : Z; ctr : Z; ctx_uid : Z; ctx_gid : Z; ctx_pid : Z; interrupted : bool; interrupts_unique : Z }.

(** [struct fuse_conn_info]. *)
Record fuse_conn_info := ConnInfo {
  proto_major : Z; proto_minor : Z; async_read : bool; max_write : Z; max_readahead : Z }.

(** [struct fuse_ll] with the heap of requests: [requests] and [interrupts] are its
    lists in order; [sent] are the messages written to the channel. *)
Record fuse_ll := LL {
  allow_root : bool; owner : Z; got_init : bool; got_destroy : bool; conn : fuse_conn_info;
  heap : gmap nat fuse_req; brk : nat; allocs : nat; requests : list nat; interrupts : list nat;
  sent : list bytes }.

Definition set_got_init c f :=
  LL (allow_root f) (owner f) true (got_destroy f) c (heap f) (brk f) (allocs f) (requests f) (interrupts f) (sent f).
Definition set_got_destroy f :=
  LL (allow_root f) (owner f) (got_init f) true (conn f) (heap f) (brk f) (allocs f) (requests f) (interrupts f) (sent f).
Definition set_conn c f :=
  LL (allow_root f) (owner f) (got_init f) (got_destroy f) c (heap f) (brk f) (allocs f) (requests f) (interrupts f) (sent f).
Definition set_heap h f :=
  LL (allow_root f) (owner f) (got_init f) (got_destroy f) (conn f) h (brk f) (allocs f) (requests f) (interrupts f) (sent f).
Definition set_requests l f :=
  LL (allow_root f) (owner f) (got_init f) (got_destroy f) (conn f) (heap f) (brk f) (allocs f) l (interrupts f) (sent f).
Definition set_interrupts l f :=
  LL (allow_root f) (owner f) (got_init f) (got_destroy f) (conn f) (heap f) (brk f) (allocs f) (requests f) l (sent f).
Definition add_sent b f :=
  LL (allow_root f) (owner f) (got_init f) (got_destroy f) (conn f) (heap f) (brk f) (allocs f) (requests f) (interrupts f) (sent f ++ [b]).

Definition set_interrupted (r : fuse_req) : fuse_req :=
  Req (unique r) (ctr r) (ctx_uid r) (ctx_gid r) (ctx_pid r) true (interrupts_unique r).
Definition set_interrupts_unique (u : Z) (r : fuse_req) : fuse_req :=
  Req (unique r) (ctr r) (ctx_uid r) (ctx_gid r) (ctx_pid r) (interrupted r) u.
Definition set_ctr (n : Z) (r : fuse_req) : fuse_req :=
  Req (unique r) n (ctx_uid r) (ctx_gid r) (ctx_pid r) (interrupted r) (interrupts_unique r).

(** The structure at a pointer; a freed or unknown one is undefined. *)
Definition load (req : nat) : M fuse_ll fuse_req :=
  f ← get; match heap f !! req with Some r => mret r | None => ub end.
Definition update (req : nat) (g : fuse_req -> fuse_req) : M fuse_ll unit :=
  r ← load req; modify (fun f => set_heap (<[req := g r]> (heap f)) f).
Definition free (req : nat) : M fuse_ll unit :=
  _ ← load req; modify (fun f => set_heap (delete req (heap f)) f).

(** ** The lists *)

(** [list_del_req] from the list that holds it, if one does; [list_add_req] in front
    of the head of a list. *)
Definition list_del_req (req : nat) : M fuse_ll unit :=
  modify (fun f => set_requests (filter (.≠ req) (requests f)) (set_interrupts (filter (.≠ req) (interrupts f)) f)).
Definition list_add_req (req : nat) : M fuse_ll unit := modify (fun f => set_requests (requests f ++ [req]) f).
Definition list_add_interrupt (req : nat) : M fuse_ll unit :=
  modify (fun f => set_interrupts (interrupts f ++ [req]) f).

Definition destroy_req (req : nat) : M fuse_ll unit := free req.

Definition free_req (req : nat) : M fuse_ll unit :=
  _ ← update req (set_interrupts_unique 0);
  _ ← list_del_req req;
  r ← load req;
  _ ← update req (set_ctr (ctr r - 1));
  if ctr r - 1 =? 0 then destroy_req req else mret tt.

Section Library.
(** Whether the [n]-th allocation succeeds, the result of the [n]-th write to the
    channel, the size of its buffer, the operations of the client, and its [init]. *)
Context (alloc_ok : nat -> bool) (chan_send : nat -> Z) (chan_bufsize : Z).
Context (op : lowlevel_op -> bool) (op_init : fuse_conn_info -> fuse_conn_info).

(** * Replies *)

Definition fuse_out_header (len error unique : Z) : bytes := u32 len ++ u32 error ++ u64 unique.

(** The bytes [arg] after the header. *)
Definition send_reply (req : nat) (error : Z) (arg : bytes) : M fuse_ll Z :=
  let error := if (error <=? -1000) || (0 <? error) then - ERANGE else error in
  r ← load req;
  f ← get;
  _ ← modify (add_sent (fuse_out_header (sizeof_out_header + strlen arg) error (unique r) ++ arg));
  _ ← free_req req;
  mret (chan_send (length (sent f))).

Definition send_reply_ok (req : nat) (arg : bytes) : M fuse_ll Z := send_reply req 0 arg.

Definition fuse_reply_err (req : nat) (err : Z) : M fuse_ll Z := send_reply req (- err) [].

(** With a copy of the array of the buffers. *)
Definition fuse_reply_iov (req : nat) (iov : list bytes) : M fuse_ll Z :=
  f ← get;
  _ ← modify (fun f =>
        LL (allow_root f) (owner f) (got_init f) (got_destroy f) (conn f) (heap f) (brk f) (S (allocs f))
           (requests f) (interrupts f) (sent f));
  if alloc_ok (allocs f) then send_reply req 0 (concat iov) else fuse_reply_err req (- ENOMEM).

Definition fuse_reply_none (req : nat) : M fuse_ll unit := _ ← load req; free_req req.

(** The bytes of [struct fuse_attr]. *)
Definition convert_stat (st : kstat) : bytes :=
  u64 (st_ino st) ++ u64 (st_size st) ++ u64 (st_blocks st) ++ u64 (st_atime st)
  ++ u64 (st_mtime st) ++ u64 (st_ctime st) ++ u32 (st_atimensec st) ++ u32 (st_mtimensec st)
  ++ u32 (st_ctimensec st) ++ u32 (st_mode st) ++ u32 (st_nlink st) ++ u32 (st_uid st)
  ++ u32 (st_gid st) ++ u32 (st_rdev st).

(** A timeout is what [calc_timeout_sec] and [calc_timeout_nsec] make of it. *)
Definition timeout : Type := Z * Z.

Record entry_param := EntryParam {
  e_ino : Z; e_generation : Z; e_attr : kstat; e_attr_timeout : timeout; e_entry_timeout : timeout }.

Definition fill_entry (e : entry_param) : bytes :=
  u64 (e_ino e) ++ u64 (e_generation e) ++ u64 (e_entry_timeout e).1 ++ u64 (e_attr_timeout e).1
  ++ u32 (e_entry_timeout e).2 ++ u32 (e_attr_timeout e).2 ++ convert_stat (e_attr e).

Definition fill_open (fi : file_info) : bytes :=
  u64 (fi_fh fi)
  ++ u32 (Z.lor (if fi_direct_io fi then FOPEN_DIRECT_IO else 0) (if fi_keep_cache fi then FOPEN_KEEP_CACHE else 0))
  ++ u32 0.

Definition fuse_reply_entry (req : nat) (e : entry_param) : M fuse_ll Z :=
  f ← get;
  if (e_ino e =? 0) && (proto_minor (conn f) <? 4) then fuse_reply_err req ENOENT
  else send_reply_ok req (fill_entry e).

Definition fuse_reply_create (req : nat) (e : entry_param) (fi : file_info) : M fuse_ll Z :=
  send_reply_ok req (fill_entry e ++ fill_open fi).

Definition fuse_reply_attr (req : nat) (attr : kstat) (attr_timeout : timeout) : M fuse_ll Z :=
  send_reply_ok req (u64 attr_timeout.1 ++ u32 attr_timeout.2 ++ u32 0 ++ convert_stat attr).

Definition fuse_reply_readlink (req : nat) (linkname : bytes) : M fuse_ll Z :=
  send_reply_ok req linkname.

Definition fuse_reply_open (req : nat) (fi : file_info) : M fuse_ll Z :=
  send_reply_ok req (fill_open fi).

Definition fuse_reply_write (req : nat) (count : Z) : M fuse_ll Z :=
  send_reply_ok req (u32 count ++ u32 0).

Definition fuse_reply_buf (req : nat) (buf : bytes) : M fuse_ll Z := send_reply_ok req buf.

Definition convert_statfs (st : statvfs) : bytes :=
  u64 (f_blocks st) ++ u64 (f_bfree st) ++ u64 (f_bavail st) ++ u64 (f_files st) ++ u64 (f_ffree st)
  ++ u32 (f_bsize st) ++ u32 (f_namemax st) ++ u32 (f_frsize st) ++ u32 0 ++ le_bytes 24 0.

Definition fuse_reply_statfs (req : nat) (st : statvfs) : M fuse_ll Z :=
  f ← get;
  let size := if proto_minor (conn f) <? 4 then FUSE_COMPAT_STATFS_SIZE else sizeof_statfs_out in
  send_reply_ok req (take (Z.to_nat size) (convert_statfs st)).

Definition fuse_reply_xattr (req : nat) (count : Z) : M fuse_ll Z :=
  send_reply_ok req (u32 count ++ u32 0).

Definition fuse_reply_lock (req : nat) (lock : flock) : M fuse_ll Z :=
  let locked := negb (l_type lock =? F_UNLCK) in
  let sum := l_start lock + l_len lock in
  _ ← assert_defined (negb locked || (l_len lock =? 0) || (in_i64 sum && in_i64 (sum - 1)));
  let end_ := if l_len lock =? 0 then OFFSET_MAX else sum - 1 in
  send_reply_ok req
    (if locked then fuse_file_lock (l_start lock) end_ (l_type lock) (l_pid lock)
     else fuse_file_lock 0 0 (l_type lock) (l_pid lock)).

Definition fuse_reply_bmap (req : nat) (idx : Z) : M fuse_ll Z := send_reply_ok req (u64 idx).

(** * Requests *)

(** [n] bytes from the offset [pos] on are in the buffer. *)
Definition holds (pos n : Z) (buf : bytes) : M fuse_ll unit :=
  assert_defined ((0 <=? n) && (pos + n <=? strlen buf)).

(** The string at an offset, and the offset after its NUL. *)
Definition string_at (pos : nat) (buf : bytes) : M fuse_ll (bytes * nat) :=
  if decide (NUL ∈ drop pos buf) then
    let s := cstr (drop pos buf) in mret (s, (pos + length s + 1)%nat)
  else ub.

(** The data at an offset. *)
Definition data_at (pos : nat) (n : Z) (buf : bytes) : M fuse_ll bytes :=
  _ ← holds (Z.of_nat pos) n buf; mret (take (Z.to_nat n) (drop pos buf)).

(** The functions [do_...]: the call of the operation, if the client has it. *)
Definition do_op (req : nat) (o : lowlevel_op) (call : M fuse_ll ll_call) : M fuse_ll (option ll_call) :=
  if op o then c ← call; mret (Some c) else _ ← fuse_reply_err req ENOSYS; mret None.

Definition do_name_op (req : nat) (o : lowlevel_op) (inarg : bytes) (call : bytes -> ll_call)
  : M fuse_ll (option ll_call) :=
  do_op req o (name ← string_at 0 inarg; mret (call name.1)).

(** [inarg]: the buffer after the header of the message. *)
Definition do_lookup (req : nat) (nodeid : Z) (inarg : bytes) : M fuse_ll (option ll_call) :=
  do_name_op req op_lookup inarg (Lookup nodeid).

Definition do_forget (req : nat) (nodeid : Z) (inarg : bytes) : M fuse_ll (option ll_call) :=
  if op op_forget then _ ← holds 0 8 inarg; mret (Some (Forget nodeid (field 8 0 inarg)))
  else _ ← fuse_reply_none req; mret None.

Definition do_getattr (req : nat) (nodeid : Z) (inarg : bytes) : M fuse_ll (option ll_call) :=
  do_op req op_getattr (mret (Getattr nodeid)).

(** The fields of [struct fuse_setattr_in]; the others of [struct stat] are 0. *)
Definition convert_attr (arg : bytes) : kstat :=
  Kstat 0 (field 4 68 arg) 0 (field 4 76 arg) (field 4 80 arg) 0 (to_i64 (field 8 16 arg)) 0
        (to_i64 (field 8 32 arg)) (to_i64 (field 8 40 arg)) 0 (field 4 56 arg) (field 4 60 arg) 0.

Definition do_setattr (req : nat) (nodeid : Z) (inarg : bytes) : M fuse_ll (option ll_call) :=
  do_op req op_setattr (
    _ ← holds 0 84 inarg;
    let valid := field 4 0 inarg in
    let has_fh := negb (Z.land valid FATTR_FH =? 0) in
    mret (Setattr nodeid (convert_attr inarg)
            (to_i32 (if has_fh then Z.land valid (Z.lnot FATTR_FH) else valid))
            (if has_fh then Some (fi_of_fh (field 8 8 inarg)) else None))).

Definition do_access (req : nat) (nodeid : Z) (inarg : bytes) : M fuse_ll (option ll_call) :=
  do_op req op_access (_ ← holds 0 4 inarg; mret (Access nodeid (to_i32 (field 4 0 inarg)))).

Definition do_readlink (req : nat) (nodeid : Z) (inarg : bytes) : M fuse_ll (option ll_call) :=
  do_op req op_readlink (mret (Readlink nodeid)).

Definition do_mknod (req : nat) (nodeid : Z) (inarg : bytes) : M fuse_ll (option ll_call) :=
  do_op req op_mknod (
    name ← string_at 8 inarg;
    mret (Mknod nodeid name.1 (field 4 0 inarg) (field 4 4 inarg))).

Definition do_mkdir (req : nat) (nodeid : Z) (inarg : bytes) : M fuse_ll (option ll_call) :=
  do_op req op_mkdir (
    name ← string_at 8 inarg; mret (Mkdir nodeid name.1 (field 4 0 inarg))).

Definition do_unlink (req : nat) (nodeid : Z) (inarg : bytes) : M fuse_ll (option ll_call) :=
  do_name_op req op_unlink inarg (Unlink nodeid).

Definition do_rmdir (req : nat) (nodeid : Z) (inarg : bytes) : M fuse_ll (option ll_call) :=
  do_name_op req op_rmdir inarg (Rmdir nodeid).

Definition do_symlink (req : nat) (nodeid : Z) (inarg : bytes) : M fuse_ll (option ll_call) :=
  name ← string_at 0 inarg;
  do_op req op_symlink (
    linkname ← string_at name.2 inarg; mret (Symlink linkname.1 nodeid name.1)).

Definition do_rename (req : nat) (nodeid : Z) (inarg : bytes) : M fuse_ll (option ll_call) :=
  oldname ← string_at 8 inarg;
  do_op req op_rename (
    newname ← string_at oldname.2 inarg;
    mret (Rename nodeid oldname.1 (field 8 0 inarg) newname.1)).

Definition do_link (req : nat) (nodeid : Z) (inarg : bytes) : M fuse_ll (option ll_call) :=
  do_op req op_link (
    name ← string_at 8 inarg; mret (Link (field 8 0 inarg) nodeid name.1)).

Definition do_create (req : nat) (nodeid : Z) (inarg : bytes) : M fuse_ll (option ll_call) :=
  do_op req op_create (
    name ← string_at 8 inarg;
    mret (Create nodeid name.1 (field 4 4 inarg) (fi_of_flags (to_i32 (field 4 0 inarg))))).

Definition do_open (req : nat) (nodeid : Z) (inarg : bytes) : M fuse_ll (option ll_call) :=
  _ ← holds 0 4 inarg;
  let fi := fi_of_flags (to_i32 (field 4 0 inarg)) in
  if op op_open then mret (Some (Open nodeid fi)) else _ ← fuse_reply_open req fi; mret None.

Definition do_read (req : nat) (nodeid : Z) (inarg : bytes) : M fuse_ll (option ll_call) :=
  do_op req op_read (
    _ ← holds 0 20 inarg;
    mret (Read nodeid (field 4 16 inarg) (to_i64 (field 8 8 inarg)) (fi_of_fh (field 8 0 inarg)))).

Definition do_write (req : nat) (nodeid : Z) (inarg : bytes) : M fuse_ll (option ll_call) :=
  _ ← holds 0 24 inarg;
  do_op req op_write (
    buf ← data_at 24 (field 4 16 inarg) inarg;
    mret (Write nodeid buf (to_i64 (field 8 8 inarg))
            (FileInfo 0 (field 8 0 inarg) (Z.odd (field 4 20 inarg)) false false false 0))).

Definition do_flush (req : nat) (nodeid : Z) (inarg : bytes) : M fuse_ll (option ll_call) :=
  f ← get;
  let recent := 7 <=? proto_minor (conn f) in
  _ ← holds 0 (if recent then 24 else 8) inarg;
  do_op req op_flush
    (mret (Flush nodeid (FileInfo 0 (field 8 0 inarg) false false false true
                           (if recent then field 8 16 inarg else 0)))).

Definition do_release (req : nat) (nodeid : Z) (inarg : bytes) : M fuse_ll (option ll_call) :=
  f ← get;
  let recent := 8 <=? proto_minor (conn f) in
  _ ← holds 0 (if recent then 24 else 12) inarg;
  let fi := FileInfo (to_i32 (field 4 8 inarg)) (field 8 0 inarg) false false false
              (recent && negb (Z.land (field 4 12 inarg) FUSE_RELEASE_FLUSH =? 0))
              (if recent then field 8 16 inarg else 0) in
  if op op_release then mret (Some (Release nodeid fi)) else _ ← fuse_reply_err req 0; mret None.

Definition do_fsync (req : nat) (nodeid : Z) (inarg : bytes) : M fuse_ll (option ll_call) :=
  _ ← holds 0 12 inarg;
  do_op req op_fsync (mret (Fsync nodeid (Z.odd (field 4 8 inarg)) (fi_of_fh (field 8 0 inarg)))).

Definition do_opendir (req : nat) (nodeid : Z) (inarg : bytes) : M fuse_ll (option ll_call) :=
  _ ← holds 0 4 inarg;
  let fi := fi_of_flags (to_i32 (field 4 0 inarg)) in
  if op op_opendir then mret (Some (Opendir nodeid fi)) else _ ← fuse_reply_open req fi; mret None.

Definition do_readdir (req : nat) (nodeid : Z) (inarg : bytes) : M fuse_ll (option ll_call) :=
  _ ← holds 0 20 inarg;
  do_op req op_readdir
    (mret (Readdir nodeid (field 4 16 inarg) (to_i64 (field 8 8 inarg)) (fi_of_fh (field 8 0 inarg)))).

Definition do_releasedir (req : nat) (nodeid : Z) (inarg : bytes) : M fuse_ll (option ll_call) :=
  _ ← holds 0 12 inarg;
  let fi := FileInfo (to_i32 (field 4 8 inarg)) (field 8 0 inarg) false false false false 0 in
  if op op_releasedir then mret (Some (Releasedir nodeid fi))
  else _ ← fuse_reply_err req 0; mret None.

Definition do_fsyncdir (req : nat) (nodeid : Z) (inarg : bytes) : M fuse_ll (option ll_call) :=
  _ ← holds 0 12 inarg;
  do_op req op_fsyncdir
    (mret (Fsyncdir nodeid (Z.odd (field 4 8 inarg)) (fi_of_fh (field 8 0 inarg)))).

Definition do_statfs (req : nat) (nodeid : Z) (inarg : bytes) : M fuse_ll (option ll_call) :=
  if op op_statfs then mret (Some (Statfs nodeid))
  else _ ← fuse_reply_statfs req (Statvfs 512 0 0 0 0 0 0 255); mret None.

Definition do_setxattr (req : nat) (nodeid : Z) (inarg : bytes) : M fuse_ll (option ll_call) :=
  name ← string_at 8 inarg;
  do_op req op_setxattr (
    value ← data_at name.2 (field 4 0 inarg) inarg;
    mret (Setxattr nodeid name.1 value (to_i32 (field 4 4 inarg)))).

Definition do_getxattr (req : nat) (nodeid : Z) (inarg : bytes) : M fuse_ll (option ll_call) :=
  do_op req op_getxattr (
    name ← string_at 8 inarg; mret (Getxattr nodeid name.1 (field 4 0 inarg))).

Definition do_listxattr (req : nat) (nodeid : Z) (inarg : bytes) : M fuse_ll (option ll_call) :=
  do_op req op_listxattr (_ ← holds 0 4 inarg; mret (Listxattr nodeid (field 4 0 inarg))).

Definition do_removexattr (req : nat) (nodeid : Z) (inarg : bytes) : M fuse_ll (option ll_call) :=
  do_name_op req op_removexattr inarg (Removexattr nodeid).

(** From an offset; the differences are unsigned. *)
Definition convert_fuse_file_lock (pos : nat) (arg : bytes) : flock :=
  let start := field 8 pos arg in
  let end_ := field 8 (pos + 8) arg in
  Flock (to_signed 16 (field 4 (pos + 16) arg)) SEEK_SET (to_i64 start)
    (if end_ =? OFFSET_MAX then 0 else to_i64 (end_ - start + 1)) (to_i32 (field 4 (pos + 20) arg)).

(** The handle and the owner of a lock request. *)
Definition lock_fi (arg : bytes) : file_info :=
  FileInfo 0 (field 8 0 arg) false false false false (field 8 8 arg).

Definition do_getlk (req : nat) (nodeid : Z) (inarg : bytes) : M fuse_ll (option ll_call) :=
  _ ← holds 0 40 inarg;
  do_op req op_getlk (mret (Getlk nodeid (lock_fi inarg) (convert_fuse_file_lock 16 inarg))).

Definition do_setlk_common (req : nat) (nodeid : Z) (inarg : bytes) (sleep : bool)
  : M fuse_ll (option ll_call) :=
  _ ← holds 0 40 inarg;
  do_op req op_setlk (mret (Setlk nodeid (lock_fi inarg) (convert_fuse_file_lock 16 inarg) sleep)).

Definition do_setlk (req : nat) (nodeid : Z) (inarg : bytes) : M fuse_ll (option ll_call) :=
  do_setlk_common req nodeid inarg false.

Definition do_setlkw (req : nat) (nodeid : Z) (inarg : bytes) : M fuse_ll (option ll_call) :=
  do_setlk_common req nodeid inarg true.

Definition do_bmap (req : nat) (nodeid : Z) (inarg : bytes) : M fuse_ll (option ll_call) :=
  do_op req op_bmap (
    _ ← holds 0 12 inarg; mret (Bmap nodeid (field 4 8 inarg) (field 8 0 inarg))).

(** ** Interrupts *)

(** The first request of a list for which [p] holds. *)
Fixpoint find_req (p : fuse_req -> bool) (rs : list nat) : M fuse_ll (option nat) :=
  match rs with
  | [] => mret None
  | curr :: rs => r ← load curr; if p r then mret (Some curr) else find_req p rs
  end.

(** With [f->lock] given up and taken again in between, for the function of the
    request, which only wakes the thread that serves it. *)
Definition find_interrupted (req : nat) : M fuse_ll bool :=
  f ← get;
  r ← load req;
  found ← find_req (fun curr => unique curr =? interrupts_unique r) (requests f);
  match found with
  | Some curr =>
      c ← load curr;
      _ ← update curr (set_ctr (ctr c + 1));
      _ ← update curr set_interrupted;
      _ ← update curr (set_ctr (ctr c));
      _ ← (if ctr c =? 0 then destroy_req curr else mret tt);
      mret true
  | None =>
      found ← find_req (fun curr => interrupts_unique curr =? interrupts_unique r) (interrupts f);
      mret (match found with Some _ => true | None => false end)
  end.

Definition do_interrupt (req : nat) (nodeid : Z) (inarg : bytes) : M fuse_ll (option ll_call) :=
  _ ← holds 0 8 inarg;
  _ ← update req (set_interrupts_unique (field 8 0 inarg));
  found ← find_interrupted req;
  _ ← (if found : bool then destroy_req req else list_add_interrupt req);
  mret None.

(** An interrupt that came before its request is used up; another one that waits is
    returned. *)
Definition check_interrupt (req : nat) : M fuse_ll (option nat) :=
  f ← get;
  r ← load req;
  found ← find_req (fun curr => interrupts_unique curr =? unique r) (interrupts f);
  match found with
  | Some curr =>
      _ ← update req set_interrupted;
      _ ← list_del_req curr;
      _ ← free curr;
      mret None
  | None =>
      match interrupts f with
      | curr :: _ => _ ← list_del_req curr; mret (Some curr)
      | [] => mret None
      end
  end.

(** ** The first and the last request *)

Definition fuse_init_out (major minor max_readahead flags max_write : Z) : bytes :=
  u32 major ++ u32 minor ++ u32 max_readahead ++ u32 flags ++ u32 0 ++ u32 max_write.

Definition do_init (req : nat) (nodeid : Z) (inarg : bytes) : M fuse_ll (option ll_call) :=
  _ ← holds 0 16 inarg;
  let major := field 4 0 inarg in
  let minor := field 4 4 inarg in
  f ← get;
  let c := conn f in
  let c := ConnInfo major minor (async_read c) (max_write c) (max_readahead c) in
  _ ← modify (set_conn c);
  if major <? 7 then _ ← fuse_reply_err req EPROTO; mret None
  else
    let c :=
      if (7 <? major) || ((major =? 7) && (6 <=? minor)) then
        ConnInfo major minor (async_read c && negb (Z.land (field 4 12 inarg) FUSE_ASYNC_READ =? 0))
          (max_write c) (Z.min (field 4 8 inarg) (max_readahead c))
      else ConnInfo major minor false (max_write c) 0 in
    let bufsize := Z.max chan_bufsize FUSE_MIN_READ_BUFFER - 4096 in
    let c := ConnInfo major minor (async_read c) (Z.min bufsize (max_write c)) (max_readahead c) in
    let c := op_init c in
    _ ← modify (set_got_init c);
    let flags := Z.lor (if async_read c then FUSE_ASYNC_READ else 0)
                   (if op op_getlk && op op_setlk then FUSE_POSIX_LOCKS else 0) in
    _ ← send_reply_ok req
          (take (if minor <? 5 then 8 else 24)
             (fuse_init_out FUSE_KERNEL_VERSION FUSE_KERNEL_MINOR_VERSION (max_readahead c) flags
                (max_write c)));
    mret None.

(** The [destroy] of the client ends its own state. *)
Definition do_destroy (req : nat) (nodeid : Z) (inarg : bytes) : M fuse_ll (option ll_call) :=
  _ ← modify set_got_destroy; _ ← send_reply_ok req []; mret None.

(** ** The table, and the entry *)

Definition fuse_ll_ops (opcode : Z) : option (nat -> Z -> bytes -> M fuse_ll (option ll_call)) :=
  let at_ c := opcode =? c in
  if at_ FUSE_LOOKUP then Some do_lookup
  else if at_ FUSE_FORGET then Some do_forget
  else if at_ FUSE_GETATTR then Some do_getattr
  else if at_ FUSE_SETATTR then Some do_setattr
  else if at_ FUSE_READLINK then Some do_readlink
  else if at_ FUSE_SYMLINK then Some do_symlink
  else if at_ FUSE_MKNOD then Some do_mknod
  else if at_ FUSE_MKDIR then Some do_mkdir
  else if at_ FUSE_UNLINK then Some do_unlink
  else if at_ FUSE_RMDIR then Some do_rmdir
  else if at_ FUSE_RENAME then Some do_rename
  else if at_ FUSE_LINK then Some do_link
  else if at_ FUSE_OPEN then Some do_open
  else if at_ FUSE_READ then Some do_read
  else if at_ FUSE_WRITE then Some do_write
  else if at_ FUSE_STATFS then Some do_statfs
  else if at_ FUSE_RELEASE then Some do_release
  else if at_ FUSE_FSYNC then Some do_fsync
  else if at_ FUSE_SETXATTR then Some do_setxattr
  else if at_ FUSE_GETXATTR then Some do_getxattr
  else if at_ FUSE_LISTXATTR then Some do_listxattr
  else if at_ FUSE_REMOVEXATTR then Some do_removexattr
  else if at_ FUSE_FLUSH then Some do_flush
  else if at_ FUSE_INIT then Some do_init
  else if at_ FUSE_OPENDIR then Some do_opendir
  else if at_ FUSE_READDIR then Some do_readdir
  else if at_ FUSE_RELEASEDIR then Some do_releasedir
  else if at_ FUSE_FSYNCDIR then Some do_fsyncdir
  else if at_ FUSE_GETLK then Some do_getlk
  else if at_ FUSE_SETLK then Some do_setlk
  else if at_ FUSE_SETLKW then Some do_setlkw
  else if at_ FUSE_ACCESS then Some do_access
  else if at_ FUSE_CREATE then Some do_create
  else if at_ FUSE_INTERRUPT then Some do_interrupt
  else if at_ FUSE_BMAP then Some do_bmap
  else if at_ FUSE_DESTROY then Some do_destroy
  else None.

(** [calloc] of a request. *)
Definition calloc : M fuse_ll (option nat) :=
  f ← get;
  let a := brk f in
  let ok := alloc_ok (allocs f) in
  _ ← modify (fun f =>
        LL (allow_root f) (owner f) (got_init f) (got_destroy f) (conn f)
           (if ok then <[a := Req 0 0 0 0 0 false 0]> (heap f) else heap f)
           (if ok then S a else a) (S (allocs f)) (requests f) (interrupts f) (sent f));
  mret (if ok then Some a else None).

(** What every user may do with the option allow_root, having got it from another. *)
Definition always_allowed (opcode : Z) : bool :=
  (opcode =? FUSE_INIT) || (opcode =? FUSE_READ) || (opcode =? FUSE_WRITE) || (opcode =? FUSE_FSYNC)
  || (opcode =? FUSE_RELEASE) || (opcode =? FUSE_READDIR) || (opcode =? FUSE_FSYNCDIR)
  || (opcode =? FUSE_RELEASEDIR).

(** The request and the operation that is called with it, if one is; [buf] is the
    whole buffer, of which the message may be a part. *)
Definition fuse_ll_process (buf : bytes) : M fuse_ll (option (nat * ll_call)) :=
  _ ← holds 0 sizeof_in_header buf;
  let opcode := field 4 4 buf in
  let nodeid := field 8 16 buf in
  let uid := field 4 24 buf in
  let inarg := drop 40 buf in
  req ← calloc;
  match req with
  | None => mret None
  | Some req =>
      _ ← update req (fun _ => Req (field 8 8 buf) 1 uid (field 4 28 buf) (to_i32 (field 4 32 buf)) false 0);
      f ← get;
      if negb (got_init f) && negb (opcode =? FUSE_INIT) then _ ← fuse_reply_err req EIO; mret None
      else if allow_root f && negb (uid =? owner f) && negb (uid =? 0) && negb (always_allowed opcode)
      then _ ← fuse_reply_err req EACCES; mret None
      else
        match fuse_ll_ops opcode with
        | None => _ ← fuse_reply_err req ENOSYS; mret None
        | Some func =>
            _ ← (if opcode =? FUSE_INTERRUPT then mret tt
                 else
                   intr ← check_interrupt req;
                   _ ← list_add_req req;
                   match intr with
                   | Some intr => _ ← fuse_reply_err intr EAGAIN; mret tt
                   | None => mret tt
                   end);
            call ← func req nodeid inarg;
            mret (match call with Some call => Some (req, call) | None => None end)
        end
  end.
End Library.
