(* ===== verification/FuseWireProps.v ===== *)
(** The messages of FUSE arrive as they were meant: what the kernel asks is what the
    operation of the file system is called with, and what it replies is what the
    caller in the kernel gets. *)

From S2P Require Import Prelude.
From S2P Require Import CString.
From S2P Require Import FuseDir.
From S2P Require Import FuseDirProps.
From S2P Require Import FuseWire.
From S2P Require Import FuseDevice.
From S2P Require Import FuseLowlevel.

(** * Fields of a buffer *)

(** What fits in [n] bytes. *)
Definition fits (n : nat) (z : Z) : Prop := 0 <= z < 256 ^ Z.of_nat n.

(** What is not negative as an [int], and as an [off_t]. *)
Definition small (z : Z) : Prop := 0 <= z < 2 ^ 31.
Definition offset (z : Z) : Prop := 0 <= z < 2 ^ 63.

Lemma to_i32_small z : small z -> to_i32 z = z.
Proof. unfold small. intros ?. apply to_i32_id. lia. Qed.

Lemma to_i64_offset z : offset z -> to_i64 z = z.
Proof. unfold offset. intros ?. apply to_i64_id. lia. Qed.

Lemma fits_small z : small z -> fits 4 z.
Proof. unfold small, fits. simpl. lia. Qed.

Lemma offset_if (b : bool) z : offset z -> offset (if b then z else 0).
Proof. destruct b; [done |]. unfold offset. lia. Qed.

Lemma fits_if n (b : bool) z : fits n z -> fits n (if b then z else 0).
Proof. destruct b; [done |]. unfold fits. lia. Qed.

Lemma fits_offset z : offset z -> fits 8 z.
Proof. unfold offset, fits. simpl. lia. Qed.

(** Closes the side conditions on sizes. *)
Ltac size :=
  repeat apply fits_if; try apply fits_offset, offset_if;
  repeat match goal with H : small ?z |- fits 4 ?z => exact (fits_small _ H)
                       | H : offset ?z |- fits 8 ?z => exact (fits_offset _ H) end;
  first [done | unfold fits; simpl; lia].

Lemma field_here n z rest : fits n z -> field n 0 (le_bytes n z ++ rest) = z.
Proof.
  intros Hz. unfold field. rewrite drop_0, take_app_length'; [by apply le_value_bytes |].
  by rewrite length_le_bytes.
Qed.

Lemma field_mod n z rest : field n 0 (le_bytes n z ++ rest) = z mod 256 ^ Z.of_nat n.
Proof.
  unfold field. rewrite drop_0, take_app_length' by (by rewrite length_le_bytes).
  revert z. induction n as [|n IH]; intros z; [by rewrite Z.mod_1_r |].
  cbn [le_bytes le_value]. rewrite IH, Nat2Z.inj_succ, Z.pow_succ_r by lia.
  assert (code (ascii_of_N (Z.to_N (z mod 256))) = z mod 256) as ->.
  { unfold code. pose proof (Z.mod_pos_bound z 256).
    rewrite N_ascii_embedding by lia. lia. }
  rewrite (Z.rem_mul_r z 256) by lia. lia.
Qed.

Lemma field_skip n p k z rest : (k <= p)%nat -> field n p (le_bytes k z ++ rest) = field n (p - k) rest.
Proof.
  intros Hk. unfold field. rewrite drop_app_ge; rewrite length_le_bytes; [done | lia].
Qed.

Lemma drop_skip p k z rest : (k <= p)%nat -> drop p (le_bytes k z ++ rest) = drop (p - k) rest.
Proof. intros Hk. by rewrite drop_app_ge; rewrite length_le_bytes. Qed.

(** Computes the fields of a concrete sequence of them. *)
Ltac wire :=
  unfold u32, u64 in *; rewrite <- ?app_assoc;
  repeat (match goal with
          | |- context [field ?n 0 (le_bytes ?n ?z ++ ?r)] => rewrite (field_here n z r) by size
          | |- context [field ?n ?p (le_bytes ?k ?z ++ ?r)] =>
              rewrite (field_skip n p k z r) by (vm_compute; lia); cbn [Nat.sub]
          | |- context [drop 0 ?r] => rewrite (drop_0 r)
          | |- context [drop ?p (le_bytes ?k ?z ++ ?r)] =>
              rewrite (drop_skip p k z r) by (vm_compute; lia); cbn [Nat.sub]
          end).

Lemma strlen_le_bytes n z : strlen (le_bytes n z) = Z.of_nat n.
Proof. unfold strlen. by rewrite length_le_bytes. Qed.

Lemma strlen_zstring s : strlen (zstring s) = strlen s + 1.
Proof. unfold zstring. by rewrite strlen_app. Qed.

Lemma strlen_concat ls : strlen (concat ls) = len_args (strlen <$> ls).
Proof. induction ls as [|b ls IH]; [done |]. cbn. by rewrite strlen_app, IH. Qed.

(** ** Reading strings and data *)

Lemma runs_holds pos n buf f (Q : unit -> fuse_ll -> Prop) :
  0 <= n -> pos + n <= strlen buf -> Q tt f -> runs (holds pos n buf) f Q.
Proof. intros Hn Hle HQ. apply runs_assert; [lia | done]. Qed.

Lemma runs_string_at pos buf s rest f (Q : bytes * nat -> fuse_ll -> Prop) :
  drop pos buf = zstring s ++ rest -> nul_free s ->
  (drop (pos + length s + 1) buf = rest -> Q (s, (pos + length s + 1)%nat) f) ->
  runs (string_at pos buf) f Q.
Proof.
  intros Hd Hs HQ. unfold string_at. rewrite decide_True.
  2:{ rewrite Hd. unfold zstring. rewrite !elem_of_app. left. right. by left. }
  apply runs_ret. rewrite Hd. unfold zstring. rewrite <- app_assoc.
  change ([NUL] ++ rest) with (NUL :: rest). rewrite cstr_app by done. apply HQ.
  rewrite <- Nat.add_assoc, <- drop_drop, Hd. unfold zstring.
  apply drop_app_length'. rewrite length_app. simpl. lia.
Qed.

Lemma runs_data_at pos buf d rest f (Q : bytes -> fuse_ll -> Prop) :
  drop pos buf = d ++ rest -> (pos <= length buf)%nat -> Q d f ->
  runs (data_at pos (strlen d) buf) f Q.
Proof.
  intros Hd Hpos HQ. apply runs_bind. apply runs_holds; [apply strlen_nonneg | |].
  - unfold strlen. assert (length (drop pos buf) = length (d ++ rest)) as Hl by by rewrite Hd.
    rewrite length_drop, length_app in Hl. lia.
  - apply runs_ret. unfold strlen. by rewrite Nat2Z.id, Hd, take_app_length.
Qed.

(** * The calls of the kernel *)

Inductive kernel_call :=
| KLookup (dir : Z) (name : bytes)
| KForget (ino nlookup : Z)
| KGetattr (ino : Z)
| KSetattr (ino : Z) (isdir : bool) (a : iattr)
| KReadlink (ino : Z)
| KMknod (dir : Z) (name : bytes) (mode rdev : Z)
| KMkdir (dir : Z) (name : bytes) (mode : Z)
| KUnlink (dir : Z) (name : bytes)
| KRmdir (dir : Z) (name : bytes)
| KSymlink (dir : Z) (name link : bytes)
| KRename (olddir : Z) (oldname : bytes) (newdir : Z) (newname : bytes)
| KLink (ino newdir : Z) (newname : bytes)
| KCreate (dir : Z) (name : bytes) (flags mode : Z)
| KOpen (ino : Z) (isdir : bool) (flags : Z)
| KRead (ino fh pos count : Z) (isdir : bool)
| KWrite (ino fh pos : Z) (data : bytes)
| KFlush (ino fh lock_owner : Z)
| KRelease (ino fh flags : Z) (isdir : bool)
| KFsync (ino fh : Z) (datasync isdir : bool)
| KStatfs (ino minor : Z)
| KSetxattr (ino : Z) (name value : bytes) (flags : Z)
| KGetxattr (ino : Z) (name : bytes) (size : Z)
| KListxattr (ino size : Z)
| KRemovexattr (ino : Z) (name : bytes)
| KAccess (ino mask : Z)
| KGetlk (ino fh owner start end_ type : Z)
| KSetlk (ino fh owner start end_ type tgid : Z) (sleep : bool)
| KBmap (ino block blocksize : Z).

Definition kernel_request (k : kernel_call) : fuse_in * fuse_out :=
  match k with
  | KLookup dir name => fuse_lookup_init dir name
  | KForget ino nlookup => fuse_send_forget ino nlookup
  | KGetattr ino => fuse_do_getattr ino
  | KSetattr ino isdir a => fuse_setattr ino isdir a
  | KReadlink ino => read_link ino
  | KMknod dir name mode rdev => fuse_mknod dir name mode rdev
  | KMkdir dir name mode => fuse_mkdir dir name mode
  | KUnlink dir name => fuse_unlink dir name
  | KRmdir dir name => fuse_rmdir dir name
  | KSymlink dir name link => fuse_symlink dir name link
  | KRename olddir oldname newdir newname => fuse_rename olddir oldname newdir newname
  | KLink ino newdir newname => fuse_link ino newdir newname
  | KCreate dir name flags mode => fuse_create_open dir name flags mode
  | KOpen ino isdir flags => fuse_send_open ino isdir flags
  | KRead ino fh pos count isdir => fuse_read_fill ino fh pos count isdir
  | KWrite ino fh pos data => fuse_send_write ino fh pos data
  | KFlush ino fh lock_owner => fuse_flush ino fh lock_owner
  | KRelease ino fh flags isdir => fuse_release_fill ino fh flags isdir
  | KFsync ino fh datasync isdir => fuse_fsync_common ino fh datasync isdir
  | KStatfs ino minor => fuse_statfs ino minor
  | KSetxattr ino name value flags => fuse_setxattr ino name value flags
  | KGetxattr ino name size => fuse_getxattr ino name size
  | KListxattr ino size => fuse_listxattr ino size
  | KRemovexattr ino name => fuse_removexattr ino name
  | KAccess ino mask => fuse_access ino mask
  | KGetlk ino fh owner start end_ type => fuse_getlk ino fh owner start end_ type
  | KSetlk ino fh owner start end_ type tgid sleep => fuse_setlk ino fh owner start end_ type tgid sleep
  | KBmap ino block blocksize => fuse_bmap ino block blocksize
  end.

(** The attributes and the mask that a [setattr] means: the times only together, the
    handle only of a file. *)
Definition meant_attr (a : iattr) : kstat :=
  let has m := Z.land (ia_valid a) m =? m in
  let times := has (Z.lor ATTR_ATIME ATTR_MTIME) in
  Kstat 0 (if has ATTR_MODE then ia_mode a else 0) 0 (if has ATTR_UID then ia_uid a else 0)
    (if has ATTR_GID then ia_gid a else 0) 0 (if has ATTR_SIZE then ia_size a else 0) 0
    (if times then ia_atime a else 0) (if times then ia_mtime a else 0) 0 0 0 0.

Definition meant_set (a : iattr) : Z :=
  let has m := Z.land (ia_valid a) m =? m in
  (if has ATTR_MODE then 1 else 0) + (if has ATTR_UID then 2 else 0) + (if has ATTR_GID then 4 else 0)
  + (if has ATTR_SIZE then 8 else 0) + (if has (Z.lor ATTR_ATIME ATTR_MTIME) then 48 else 0).

(** A lock of the bytes from [start] to [end_]. *)
Definition meant_lock (start end_ type pid : Z) : flock :=
  Flock type SEEK_SET start (if end_ =? OFFSET_MAX then 0 else end_ - start + 1) pid.

(** The operation that a call means, in a version of the protocol with lock owners. *)
Definition meant (k : kernel_call) : ll_call :=
  match k with
  | KLookup dir name => Lookup dir name
  | KForget ino nlookup => Forget ino nlookup
  | KGetattr ino => Getattr ino
  | KSetattr ino isdir a =>
      Setattr ino (meant_attr a) (meant_set a)
        (if negb isdir && (Z.land (ia_valid a) ATTR_FILE =? ATTR_FILE) then Some (fi_of_fh (ia_file a))
         else None)
  | KReadlink ino => Readlink ino
  | KMknod dir name mode rdev => Mknod dir name mode rdev
  | KMkdir dir name mode => Mkdir dir name mode
  | KUnlink dir name => Unlink dir name
  | KRmdir dir name => Rmdir dir name
  | KSymlink dir name link => Symlink link dir name
  | KRename olddir oldname newdir newname => Rename olddir oldname newdir newname
  | KLink ino newdir newname => Link ino newdir newname
  | KCreate dir name flags mode => Create dir name mode (fi_of_flags flags)
  | KOpen ino isdir flags =>
      if isdir then Opendir ino (fi_of_flags flags) else Open ino (fi_of_flags flags)
  | KRead ino fh pos count isdir =>
      if isdir then Readdir ino count pos (fi_of_fh fh) else Read ino count pos (fi_of_fh fh)
  | KWrite ino fh pos data => Write ino data pos (fi_of_fh fh)
  | KFlush ino fh lock_owner => Flush ino (FileInfo 0 fh false false false true lock_owner)
  | KRelease ino fh flags isdir =>
      let fi := FileInfo flags fh false false false false 0 in
      if isdir then Releasedir ino fi else Release ino fi
  | KFsync ino fh datasync isdir =>
      if isdir then Fsyncdir ino datasync (fi_of_fh fh) else Fsync ino datasync (fi_of_fh fh)
  | KStatfs ino minor => Statfs ino
  | KSetxattr ino name value flags => Setxattr ino name value flags
  | KGetxattr ino name size => Getxattr ino name size
  | KListxattr ino size => Listxattr ino size
  | KRemovexattr ino name => Removexattr ino name
  | KAccess ino mask => Access ino mask
  | KGetlk ino fh owner start end_ type =>
      Getlk ino (FileInfo 0 fh false false false false owner) (meant_lock start end_ type 0)
  | KSetlk ino fh owner start end_ type tgid sleep =>
      Setlk ino (FileInfo 0 fh false false false false owner)
        (meant_lock start end_ type (if type =? F_UNLCK then 0 else tgid)) sleep
  | KBmap ino block blocksize => Bmap ino blocksize block
  end.

(** The types of the arguments: nodes, handles and owners of 64 bits, modes and sizes
    of 32, flags and masks that are not negative as an [int], offsets that are not
    negative as an [off_t]; names without a NUL. *)
Definition attr_ok (a : iattr) : Prop :=
  fits 4 (ia_mode a) /\ fits 4 (ia_uid a) /\ fits 4 (ia_gid a) /\ offset (ia_size a) /\
  offset (ia_atime a) /\ offset (ia_mtime a) /\ fits 8 (ia_file a).

Definition lock_ok (fh owner start end_ type pid : Z) : Prop :=
  fits 8 fh /\ fits 8 owner /\ 0 <= start <= end_ /\ end_ <= OFFSET_MAX /\ 0 <= type <= 2 /\ small pid.

Definition call_ok (k : kernel_call) : Prop :=
  match k with
  | KLookup dir name | KUnlink dir name | KRmdir dir name | KRemovexattr dir name =>
      fits 8 dir /\ nul_free name
  | KForget ino nlookup => fits 8 ino /\ fits 8 nlookup
  | KGetattr ino | KReadlink ino | KStatfs ino _ => fits 8 ino
  | KSetattr ino _ a => fits 8 ino /\ attr_ok a
  | KMknod dir name mode rdev => fits 8 dir /\ nul_free name /\ fits 4 mode /\ fits 4 rdev
  | KMkdir dir name mode => fits 8 dir /\ nul_free name /\ fits 4 mode
  | KSymlink dir name link => fits 8 dir /\ nul_free name /\ nul_free link
  | KRename olddir oldname newdir newname =>
      fits 8 olddir /\ nul_free oldname /\ fits 8 newdir /\ nul_free newname
  | KLink ino newdir newname => fits 8 ino /\ fits 8 newdir /\ nul_free newname
  | KCreate dir name flags mode => fits 8 dir /\ nul_free name /\ small flags /\ fits 4 mode
  | KOpen ino _ flags => fits 8 ino /\ small flags
  | KRead ino fh pos count _ => fits 8 ino /\ fits 8 fh /\ offset pos /\ fits 4 count
  | KWrite ino fh pos data => fits 8 ino /\ fits 8 fh /\ offset pos /\ fits 4 (strlen data)
  | KFlush ino fh lock_owner => fits 8 ino /\ fits 8 fh /\ fits 8 lock_owner
  | KRelease ino fh flags _ => fits 8 ino /\ fits 8 fh /\ small flags
  | KFsync ino fh _ _ => fits 8 ino /\ fits 8 fh
  | KSetxattr ino name value flags =>
      fits 8 ino /\ nul_free name /\ fits 4 (strlen value) /\ small flags
  | KGetxattr ino name size => fits 8 ino /\ nul_free name /\ fits 4 size
  | KListxattr ino size => fits 8 ino /\ fits 4 size
  | KAccess ino mask => fits 8 ino /\ small mask
  | KGetlk ino fh owner start end_ type => fits 8 ino /\ lock_ok fh owner start end_ type 0
  | KSetlk ino fh owner start end_ type tgid _ => fits 8 ino /\ lock_ok fh owner start end_ type tgid
  | KBmap ino block blocksize => fits 8 ino /\ fits 8 block /\ fits 4 blocksize
  end.

(** * From the message to the operation *)

Section Requests.
Context (alloc_ok : nat -> bool) (chan_send : nat -> Z) (chan_bufsize : Z).
Context (op : lowlevel_op -> bool) (op_init : fuse_conn_info -> fuse_conn_info).
Context (all_ops : forall o, op o = true).

Abbreviation fuse_ll_ops := (fuse_ll_ops chan_send chan_bufsize op op_init).

Lemma runs_do_op req o m f (Q : option ll_call -> fuse_ll -> Prop) :
  runs m f (fun c => Q (Some c)) -> runs (do_op chan_send op req o m) f Q.
Proof.
  intros Hm. unfold do_op. rewrite all_ops. apply runs_bind. eapply runs_mono; [done |].
  intros c f' HQ. by apply runs_ret.
Qed.

Lemma runs_do_name_op req o s rest call f (Q : option ll_call -> fuse_ll -> Prop) :
  nul_free s -> Q (Some (call s)) f ->
  runs (do_name_op chan_send op req o (zstring s ++ rest) call) f Q.
Proof.
  intros Hs HQ. apply runs_do_op, runs_bind. eapply runs_string_at; [by rewrite drop_0 | done |].
  intros _. by apply runs_ret.
Qed.

(** The masks of a [setattr]. *)
Lemma meant_set_ok isdir a :
  let arg := sa_valid (iattr_to_fattr a) in
  let valid := if isdir : bool then Z.land arg (Z.lnot FATTR_FH) else arg in
  let has_fh := negb (Z.land valid FATTR_FH =? 0) in
  fits 4 valid /\
  to_i32 (if has_fh then Z.land valid (Z.lnot FATTR_FH) else valid) = meant_set a /\
  has_fh = negb isdir && (Z.land (ia_valid a) ATTR_FILE =? ATTR_FILE).
Proof.
  unfold meant_set, iattr_to_fattr. cbn [sa_valid].
  destruct (_ =? ATTR_MODE), (_ =? ATTR_UID), (_ =? ATTR_GID), (_ =? ATTR_SIZE),
    (_ =? Z.lor ATTR_ATIME ATTR_MTIME), (_ =? ATTR_FILE), isdir;
    vm_compute; repeat split; congruence.
Qed.
Ltac lengths :=
  unfold u32, u64;
  rewrite ?strlen_app, ?strlen_le_bytes, ?strlen_zstring;
  repeat match goal with |- context [strlen ?b] =>
    lazymatch goal with H : 0 <= strlen b |- _ => fail | _ => pose proof (strlen_nonneg b) end end;
  lia.

Create HintDb wire.

#[local] Hint Unfold kernel_request meant fuse_lookup_init fuse_send_forget fuse_create_open create_new_entry
  fuse_mknod fuse_mkdir fuse_symlink fuse_unlink fuse_rmdir fuse_rename fuse_link fuse_do_getattr
  fuse_access read_link fuse_setxattr fuse_getxattr fuse_listxattr fuse_removexattr
  fuse_send_open fuse_release_fill fuse_flush fuse_fsync_common fuse_read_fill fuse_send_write
  fuse_lk_fill fuse_getlk fuse_setlk fuse_bmap fuse_statfs
  fuse_forget_in fuse_mknod_in fuse_mkdir_in fuse_rename_in fuse_link_in fuse_open_in fuse_release_in
  fuse_flush_in fuse_read_in fuse_write_in fuse_fsync_in fuse_setxattr_in fuse_getxattr_in
  fuse_file_lock fuse_lk_in fuse_access_in fuse_bmap_in
  do_lookup do_forget do_getattr do_access do_readlink do_mknod do_mkdir do_unlink
  do_rmdir do_symlink do_rename do_link do_create do_open do_read do_write do_flush do_release
  do_fsync do_opendir do_readdir do_releasedir do_fsyncdir do_statfs do_setxattr do_getxattr
  do_listxattr do_removexattr do_getlk do_setlk_common do_setlk do_setlkw do_bmap lock_fi
  convert_fuse_file_lock meant_lock : wire.

(** A step of the decoder of a message of known layout. *)
Ltac decode_step :=
  lazymatch goal with
  | |- runs (mret _) _ _ => apply runs_ret
  | |- runs (_ ← _; _) _ _ => apply runs_bind
  | |- runs get _ _ => apply runs_get
  | |- runs (do_op _ _ _ _ _) _ _ => apply runs_do_op
  | |- runs (holds _ _ _) _ _ => apply runs_holds; [lia | lengths |]
  | |- runs (string_at _ _) _ _ => eapply runs_string_at; [wire; reflexivity | done |]
  end.

Ltac decodes := autounfold with wire; cbn [fst snd opcode nodeid args concat]; rewrite ?app_nil_r;
  eexists; split; [reflexivity |]; intros req; autounfold with wire; rewrite ?all_ops; repeat decode_step.

(** The arguments of the operation are the fields of the message. *)
Ltac meant := split; [| done]; wire; rewrite ?to_i32_small, ?to_i64_offset by (done || size); try reflexivity.

(** What [decode] says of a call. *)
Definition decodes_to (k : kernel_call) : Prop :=
  forall stale f, 8 <= proto_minor (conn f) ->
  let i := (kernel_request k).1 in
  exists func, fuse_ll_ops (opcode i) = Some func /\
    forall req, runs (func req (nodeid i) (concat (args i) ++ stale)) f
      (fun c f' => c = Some (meant k) /\ f' = f).

Lemma decode_setattr ino isdir a : call_ok (KSetattr ino isdir a) -> decodes_to (KSetattr ino isdir a).
Proof.
  intros (Hino & Hm & Hu & Hg & Hs & Ha & Ht & Hf) stale f _.
  destruct (meant_set_ok isdir a) as (Hv & Hset & Hfh). revert Hv Hset Hfh. cbv zeta.
  eexists; split; [reflexivity |]. intros req. apply runs_do_op.
  cbn [kernel_request meant]. unfold fuse_setattr. cbn [fst nodeid args concat].
  rewrite app_nil_r. unfold fuse_setattr_in.
  cbn [sa_valid sa_fh sa_size sa_atime sa_mtime sa_mode sa_uid sa_gid]. set (v := if isdir then _ else _) in *.
  clearbody v. repeat decode_step. split; [| done]. unfold convert_attr, meant_attr, iattr_to_fattr.
  cbn [sa_valid sa_fh sa_size sa_atime sa_mtime sa_mode sa_uid sa_gid]. wire.
  rewrite Hset, Hfh, !to_i64_offset by auto using offset_if. 
  destruct isdir; [done |]. cbn [negb andb]. by destruct (_ =? ATTR_FILE).
Qed.

Lemma decode_symlink dir name link : call_ok (KSymlink dir name link) -> decodes_to (KSymlink dir name link).
Proof.
  intros (Hdir & Hname & Hlink) stale f _. decodes. intros Hd. repeat decode_step.
  eapply runs_string_at; [exact Hd | done |]. intros _. decode_step. meant.
Qed.

Lemma decode_rename olddir oldname newdir newname :
  call_ok (KRename olddir oldname newdir newname) -> decodes_to (KRename olddir oldname newdir newname).
Proof.
  intros (Hold & Hname & Hnew & Hnewname) stale f _. decodes. intros Hd. repeat decode_step.
  eapply runs_string_at; [exact Hd | done |]. intros _. decode_step. meant.
Qed.

Lemma decode_write ino fh pos data : call_ok (KWrite ino fh pos data) -> decodes_to (KWrite ino fh pos data).
Proof.
  intros (Hino & Hfh & Hpos & Hlen) stale f _. decodes. wire.
  eapply runs_data_at; [wire; reflexivity | |].
  - rewrite !length_app, !length_le_bytes. lia.
  - decode_step. meant.
Qed.

Lemma decode_setxattr ino name value flags :
  call_ok (KSetxattr ino name value flags) -> decodes_to (KSetxattr ino name value flags).
Proof.
  intros (Hino & Hname & Hlen & Hflags) stale f _. decodes. intros Hd. repeat decode_step. cbn [snd].
  wire. rewrite <- !app_assoc in Hd. eapply runs_data_at; [exact Hd | |].
  - rewrite !length_app, !length_le_bytes. unfold zstring. rewrite length_app. simpl. lia.
  - decode_step. meant.
Qed.

Lemma decode_flush ino fh lock_owner :
  call_ok (KFlush ino fh lock_owner) -> decodes_to (KFlush ino fh lock_owner).
Proof.
  intros (Hino & Hfh & Hown) stale f Hminor. decodes. replace (7 <=? proto_minor (conn f)) with true by lia.
  repeat decode_step. meant.
Qed.

Lemma decode_release ino fh flags isdir :
  call_ok (KRelease ino fh flags isdir) -> decodes_to (KRelease ino fh flags isdir).
Proof.
  intros (Hino & Hfh & Hflags) stale f Hminor. destruct isdir; decodes; [meant |].
  replace (8 <=? proto_minor (conn f)) with true by lia. repeat decode_step. meant.
Qed.

Lemma decode_lock stale fh owner start end_ type pid :
  lock_ok fh owner start end_ type pid ->
  convert_fuse_file_lock 16 (fuse_lk_in fh owner start end_ type pid ++ stale)
    = meant_lock start end_ type pid /\
  lock_fi (fuse_lk_in fh owner start end_ type pid ++ stale)
    = FileInfo 0 fh false false false false owner.
Proof.
  intros (Hfh & Hown & Hstart & Hend & Htype & Hpid). unfold OFFSET_MAX in Hend.
  assert (offset start) by (unfold offset; lia). assert (offset end_) by (unfold offset; lia).
  assert (small type) by (unfold small; lia).
  unfold convert_fuse_file_lock, meant_lock, lock_fi, fuse_lk_in, fuse_file_lock. cbn [Nat.add]. wire.
  split; [| done]. rewrite to_signed_id, to_i32_small, to_i64_offset by (done || lia). f_equal.
  destruct (Z.eqb_spec end_ OFFSET_MAX); [done |]. apply to_i64_offset. unfold offset, OFFSET_MAX in *. lia.
Qed.

Lemma runs_lock_request o (call : file_info -> flock -> ll_call) req b stale fh owner start end_ type pid f
  (Q : option ll_call -> fuse_ll -> Prop) :
  lock_ok fh owner start end_ type pid -> b = fuse_lk_in fh owner start end_ type pid ++ stale ->
  Q (Some (call (FileInfo 0 fh false false false false owner) (meant_lock start end_ type pid))) f ->
  runs (_ ← holds 0 40 b; do_op chan_send op req o (mret (call (lock_fi b) (convert_fuse_file_lock 16 b)))) f Q.
Proof.
  intros Hl -> HQ.
  destruct (decode_lock stale _ _ _ _ _ _ Hl) as [-> ->]. unfold fuse_lk_in, fuse_file_lock.
  by repeat decode_step.
Qed.

Lemma lock_ok_pid fh owner start end_ type pid (b : bool) :
  lock_ok fh owner start end_ type pid -> lock_ok fh owner start end_ type (if b then 0 else pid).
Proof. unfold lock_ok, small. destruct b; intros; destruct_and!; split_and!; done || lia. Qed.

Lemma decode k : call_ok k -> decodes_to k.
Proof.
  intros Hk.
  destruct k; eauto using decode_setattr, decode_symlink, decode_rename, decode_write, decode_setxattr,
    decode_flush, decode_release; intros stale f Hminor; cbn [call_ok] in Hk; destruct_and? Hk;
    repeat match goal with b : bool |- _ => destruct b end.
  all: try (decodes; (apply runs_do_name_op || idtac); (meant || done); fail).
  all: eexists; split; [reflexivity |]; intros req;
    unfold kernel_request, fuse_getlk, fuse_setlk, fuse_lk_fill; cbn [fst nodeid args concat];
    rewrite app_nil_r; unfold do_getlk, do_setlkw, do_setlk, do_setlk_common.
  - eapply (runs_lock_request op_getlk (Getlk ino)); [exact H0 | reflexivity | done].
  - eapply (runs_lock_request op_setlk (fun fi l => Setlk ino fi l true)); [by apply lock_ok_pid | reflexivity | done].
  - eapply (runs_lock_request op_setlk (fun fi l => Setlk ino fi l false)); [by apply lock_ok_pid | reflexivity | done].
Qed.

(** ** The whole message *)

(** What the connection allows: the first message has been answered, the user may
    make the request, and there is memory for it. *)
Definition admits (f : fuse_ll) (uid opcode : Z) : Prop :=
  got_init f = true /\ alloc_ok (allocs f) = true /\
  (allow_root f = false \/ uid = owner f \/ uid = 0 \/ always_allowed opcode = true).

(** The state with the request in service. *)
Definition in_service (r : FuseDevice.fuse_req) (f : fuse_ll) : fuse_ll :=
  LL (allow_root f) (owner f) (got_init f) (got_destroy f) (conn f)
     (<[brk f := Req (FuseDevice.unique r) 1 (FuseDevice.uid r) (FuseDevice.gid r) (FuseDevice.pid r) false 0]> (heap f))
     (S (brk f)) (S (allocs f)) (requests f ++ [brk f]) (interrupts f) (sent f).

Definition header_ok (r : FuseDevice.fuse_req) : Prop :=
  fits 8 (FuseDevice.unique r) /\ fits 4 (FuseDevice.uid r) /\ fits 4 (FuseDevice.gid r) /\
  small (FuseDevice.pid r) /\ fits 8 (nodeid (in_ r)).

Lemma length_message r : strlen (message r) = reqsize r.
Proof.
  unfold message, fuse_in_header, reqsize. rewrite !strlen_app, strlen_concat. unfold u32, u64.
  rewrite !strlen_le_bytes. unfold sizeof_in_header. lia.
Qed.

(** An opcode in a header, and what follows the header. *)
Lemma message_fields r stale :
  header_ok r -> fits 4 (opcode (in_ r)) ->
  let b := message r ++ stale in
  field 4 4 b = opcode (in_ r) /\ field 8 8 b = FuseDevice.unique r /\ field 8 16 b = nodeid (in_ r) /\
  field 4 24 b = FuseDevice.uid r /\ field 4 28 b = FuseDevice.gid r /\ to_i32 (field 4 32 b) = FuseDevice.pid r /\
  drop 40 b = concat (args (in_ r)) ++ stale.
Proof.
  intros (Hu & Huid & Hgid & Hpid & Hnode) Hop b. subst b. unfold message, fuse_in_header. wire.
  by rewrite to_i32_small.
Qed.

Lemma opcode_ok k : fits 4 (opcode (kernel_request k).1) /\ opcode (kernel_request k).1 <> FUSE_INTERRUPT.
Proof. destruct k; repeat match goal with b : bool |- _ => destruct b end; vm_compute; repeat split; congruence. Qed.

Lemma runs_load_req req r f (Q : fuse_req -> fuse_ll -> Prop) :
  heap f !! req = Some r -> Q r f -> runs (load req) f Q.
Proof. intros Hr HQ. apply runs_bind, runs_get. rewrite Hr. by apply runs_ret. Qed.

Lemma runs_update_req req r g f (Q : unit -> fuse_ll -> Prop) :
  heap f !! req = Some r -> Q tt (set_heap (<[req := g r]> (heap f)) f) -> runs (update req g) f Q.
Proof. intros Hr HQ. apply runs_bind. eapply runs_load_req; [done |]. by apply runs_modify. Qed.

(** A message that is allowed is put in service and given to its decoder. *)
Lemma process_dispatch r func stale f (Q : option (nat * ll_call) -> fuse_ll -> Prop) :
  header_ok r -> fits 4 (opcode (in_ r)) -> opcode (in_ r) <> FUSE_INTERRUPT -> interrupts f = [] ->
  got_init f = true \/ opcode (in_ r) = FUSE_INIT -> alloc_ok (allocs f) = true ->
  (allow_root f = false \/ FuseDevice.uid r = owner f \/ FuseDevice.uid r = 0 \/
   always_allowed (opcode (in_ r)) = true) ->
  fuse_ll_ops (opcode (in_ r)) = Some func ->
  runs (func (brk f) (nodeid (in_ r)) (concat (args (in_ r)) ++ stale)) (in_service r f)
    (fun c f' => Q (match c with Some c => Some (brk f, c) | None => None end) f') ->
  runs (fuse_ll_process alloc_ok chan_send chan_bufsize op op_init (message r ++ stale)) f Q.
Proof.
  intros Hh Hop Hni Hintr Hinit Halloc Hallow Hfunc Hrun.
  destruct (message_fields r stale Hh Hop) as (E1 & E2 & E3 & E4 & E5 & E6 & E7).
  unfold fuse_ll_process. apply runs_bind, runs_holds; [done | |].
  { rewrite strlen_app, length_message. pose proof (strlen_nonneg stale). unfold reqsize.
    rewrite <- strlen_concat. pose proof (strlen_nonneg (concat (args (in_ r)))). lia. }
  cbv zeta. rewrite E1, E2, E3, E4, E5, E6, E7. apply runs_bind.
  unfold calloc. apply runs_bind, runs_get. cbv zeta. rewrite Halloc. apply runs_bind, runs_modify, runs_ret.
  apply runs_bind. eapply runs_update_req; [apply lookup_insert_eq |]. cbn [heap]. rewrite insert_insert_eq.
  apply runs_bind, runs_get. cbn [got_init allow_root owner set_heap].
  replace (negb (got_init f) && negb (opcode (in_ r) =? FUSE_INIT)) with false
    by (destruct Hinit as [->| ->]; [done | by rewrite andb_false_r]).
  replace (allow_root f && negb (FuseDevice.uid r =? owner f) && negb (FuseDevice.uid r =? 0)
           && negb (always_allowed (opcode (in_ r)))) with false.
  2:{ destruct Hallow as [->|[->|[->| ->]]]; rewrite ?Z.eqb_refl, ?andb_false_r; done. }
  set (f1 := set_heap _ _). rewrite Hfunc.
  replace (opcode (in_ r) =? FUSE_INTERRUPT) with false by lia.
  apply runs_bind, runs_bind. unfold check_interrupt. apply runs_bind, runs_get.
  apply runs_bind. eapply runs_load_req; [apply lookup_insert_eq |].
  change (interrupts f1) with (interrupts f). rewrite Hintr. apply runs_bind. apply runs_ret.
  apply runs_ret. apply runs_bind, runs_modify. apply runs_ret. apply runs_bind.
  change (set_requests _ f1) with (in_service r f). eapply runs_mono; [apply Hrun |].
  intros c f' HQ. by apply runs_ret.
Qed.

Lemma process_message r k stale f :
  call_ok k -> in_ r = (kernel_request k).1 -> header_ok r ->
  admits f (FuseDevice.uid r) (opcode (in_ r)) -> interrupts f = [] -> 8 <= proto_minor (conn f) ->
  runs (fuse_ll_process alloc_ok chan_send chan_bufsize op op_init (message r ++ stale)) f
    (fun c f' => c = Some (brk f, meant k) /\ f' = in_service r f).
Proof.
  intros Hk Hin Hh (Hinit & Halloc & Hallow) Hintr Hminor.
  destruct (opcode_ok k) as [Hop Hni]. rewrite <- Hin in Hop, Hni.
  assert (8 <= proto_minor (conn (in_service r f))) as Hminor' by done.
  destruct (decode k Hk stale (in_service r f) Hminor') as (func & Hfunc & Hrun). rewrite <- Hin in Hfunc, Hrun.
  eapply process_dispatch; [done | done | done | done | by left | done | done | done |].
  eapply runs_mono; [apply Hrun |]. by intros c f' [-> ->].
Qed.
End Requests.

(** * From the answer to the caller *)

Section Replies.
Context (chan_send : nat -> Z).

(** The request [req] of the library is the only holder of itself. *)
Definition serves (f : fuse_ll) (req : nat) (r : fuse_req) : Prop := heap f !! req = Some r /\ ctr r = 1.

(** The state after the reply [b]. *)
Definition answered (req : nat) (b : bytes) (f : fuse_ll) : fuse_ll :=
  LL (allow_root f) (owner f) (got_init f) (got_destroy f) (conn f) (delete req (heap f)) (brk f) (allocs f)
     (filter (.≠ req) (requests f)) (filter (.≠ req) (interrupts f)) (sent f ++ [b]).

Lemma runs_free_req req r f (Q : unit -> fuse_ll -> Prop) :
  serves f req r ->
  Q tt (set_heap (delete req (heap f))
          (set_requests (filter (.≠ req) (requests f)) (set_interrupts (filter (.≠ req) (interrupts f)) f))) ->
  runs (free_req req) f Q.
Proof.
  intros [Hr Hctr] HQ. unfold free_req. apply runs_bind. eapply runs_update_req; [done |].
  apply runs_bind, runs_modify. apply runs_bind. eapply runs_load_req; [apply lookup_insert_eq |].
  apply runs_bind. eapply runs_update_req; [apply lookup_insert_eq |].
  change (ctr (set_interrupts_unique 0 r)) with (ctr r). rewrite Hctr. cbn [Z.sub Z.eqb Z.opp Z.add Z.pos_sub].
  apply runs_bind. eapply runs_load_req; [apply lookup_insert_eq |]. apply runs_modify.
  cbn [heap set_heap set_requests set_interrupts]. rewrite ?insert_insert_eq.
  by rewrite delete_insert_eq.
Qed.

(** The bytes of a reply. *)
Definition reply_bytes (error unique : Z) (arg : bytes) : bytes :=
  fuse_out_header (sizeof_out_header + strlen arg) error unique ++ arg.

Lemma runs_send_reply req r error arg f (Q : Z -> fuse_ll -> Prop) :
  serves f req r -> -1000 < error <= 0 ->
  Q (chan_send (length (sent f))) (answered req (reply_bytes error (unique r) arg) f) ->
  runs (send_reply chan_send req error arg) f Q.
Proof.
  intros Hs He HQ. unfold send_reply. replace ((error <=? -1000) || (0 <? error)) with false by lia.
  pose proof Hs as [Hr _]. apply runs_bind. eapply runs_load_req; [done |].
  apply runs_bind, runs_get. apply runs_bind, runs_modify. apply runs_bind.
  eapply runs_free_req; [exact Hs |]. by apply runs_ret.
Qed.

Lemma strlen_reply error unique arg : strlen (reply_bytes error unique arg) = 16 + strlen arg.
Proof.
  unfold reply_bytes, fuse_out_header. wire. rewrite !strlen_app, !strlen_le_bytes. lia.
Qed.

(** The state of the connection when the request has ended. *)
Definition ended_with (kr : FuseDevice.fuse_req) (error : Z) (args : list bytes) (fc : fuse_conn) : fuse_conn :=
  request_end kr error args (set_processing (without_unique (FuseDevice.unique kr) (processing fc)) fc).

(** The request waits for its reply, and is the one that is found. *)
Definition awaits (fc : fuse_conn) (kr : FuseDevice.fuse_req) : Prop :=
  connected fc = true /\ request_find (FuseDevice.unique kr) (processing fc) = Some kr /\
  aborted kr = false /\ intr_unique kr <> FuseDevice.unique kr.

(** What the kernel makes of the reply to the request [kr]. *)
Lemma writev_reply fc kr error arg :
  awaits fc kr ->
  fits 8 (FuseDevice.unique kr) -> FuseDevice.unique kr <> 0 -> -1000 < error <= 0 ->
  16 + strlen arg < 2 ^ 32 ->
  fuse_dev_writev (reply_bytes error (FuseDevice.unique kr) arg) fc = Ret
    match copy_out_args (out kr) error (16 + strlen arg) arg with
    | Some args => (16 + strlen arg, ended_with kr error args fc)
    | None => (- EINVAL, ended_with kr (- EIO) [] fc)
    end.
Proof.
  intros (Hconn & Hfind & Hab & Hintr) Hu Hu0 He Hlen. unfold fuse_dev_writev. rewrite strlen_reply.
  pose proof (strlen_nonneg arg). replace (16 + strlen arg <? sizeof_out_header) with false
    by (unfold sizeof_out_header; lia). cbv zeta.
  assert (field 4 0 (reply_bytes error (FuseDevice.unique kr) arg) = 16 + strlen arg) as ->.
  { unfold reply_bytes, fuse_out_header, sizeof_out_header. by wire. }
  assert (to_i32 (field 4 4 (reply_bytes error (FuseDevice.unique kr) arg)) = error) as ->.
  { unfold reply_bytes, fuse_out_header. wire. rewrite field_mod. unfold to_i32, to_signed.
    simpl (256 ^ _). rewrite Zplus_mod_idemp_l. rewrite Z.mod_small; lia. }
  assert (field 8 8 (reply_bytes error (FuseDevice.unique kr) arg) = FuseDevice.unique kr) as ->.
  { unfold reply_bytes, fuse_out_header. by wire. }
  assert (drop 16 (reply_bytes error (FuseDevice.unique kr) arg) = arg) as ->.
  { unfold reply_bytes, fuse_out_header. by wire. }
  replace ((FuseDevice.unique kr =? 0) || (error <=? -1000) || (0 <? error)
           || negb (16 + strlen arg =? 16 + strlen arg)) with false by lia.
  unfold mbind, M_bind. cbn [get]. rewrite Hconn, Hfind, Hab. cbn [negb].
  replace (intr_unique kr =? FuseDevice.unique kr) with false by lia. by destruct (copy_out_args _ _ _ _).
Qed.

(** ** The kinds of replies *)

Inductive ll_reply :=
| RErr (err : Z)
| REntry (e : entry_param)
| RCreate (e : entry_param) (fi : file_info)
| RAttr (attr : kstat) (attr_timeout : timeout)
| RReadlink (linkname : bytes)
| ROpen (fi : file_info)
| RWrite (count : Z)
| RBuf (buf : bytes)
| RXattr (count : Z)
| RBmap (idx : Z)
| RStatfs (st : statvfs).

Definition fuse_reply (req : nat) (a : ll_reply) : M fuse_ll Z :=
  match a with
  | RErr err => fuse_reply_err chan_send req err
  | REntry e => fuse_reply_entry chan_send req e
  | RCreate e fi => fuse_reply_create chan_send req e fi
  | RAttr attr t => fuse_reply_attr chan_send req attr t
  | RReadlink linkname => fuse_reply_readlink chan_send req linkname
  | ROpen fi => fuse_reply_open chan_send req fi
  | RWrite count => fuse_reply_write chan_send req count
  | RBuf buf => fuse_reply_buf chan_send req buf
  | RXattr count => fuse_reply_xattr chan_send req count
  | RBmap idx => fuse_reply_bmap chan_send req idx
  | RStatfs st => fuse_reply_statfs chan_send req st
  end.

Definition stat_ok (st : kstat) : Prop :=
  (fits 8 (st_ino st) /\ fits 8 (st_size st) /\ fits 8 (st_blocks st)) /\
  (fits 8 (st_atime st) /\ fits 8 (st_mtime st) /\ fits 8 (st_ctime st)) /\
  (fits 4 (st_atimensec st) /\ fits 4 (st_mtimensec st) /\ fits 4 (st_ctimensec st)) /\
  (fits 4 (st_mode st) /\ fits 4 (st_nlink st) /\ fits 4 (st_uid st) /\ fits 4 (st_gid st)) /\
  fits 4 (st_rdev st).

Definition statfs_ok (st : statvfs) : Prop :=
  (fits 8 (f_blocks st) /\ fits 8 (f_bfree st) /\ fits 8 (f_bavail st)) /\
  (fits 8 (f_files st) /\ fits 8 (f_ffree st)) /\
  (fits 4 (f_bsize st) /\ fits 4 (f_namemax st) /\ fits 4 (f_frsize st)).

Definition timeout_ok (t : timeout) : Prop := fits 8 t.1 /\ fits 4 t.2.

Definition entry_ok (e : entry_param) : Prop :=
  fits 8 (e_ino e) /\ fits 8 (e_generation e) /\ stat_ok (e_attr e) /\ timeout_ok (e_attr_timeout e) /\
  timeout_ok (e_entry_timeout e).

(** The replies that a request of the kernel can take. *)
Definition suits (o : fuse_out) (minor : Z) (a : ll_reply) : Prop :=
  match a with
  | RErr err => 0 < err < 1000 \/ (err = 0 /\ o = Out [] false)
  | REntry e => o = Out [sizeof_entry_out] false /\ entry_ok e /\ (e_ino e <> 0 \/ 4 <= minor)
  | RCreate e fi => o = Out [sizeof_entry_out; sizeof_open_out] false /\ entry_ok e /\ fits 8 (fi_fh fi)
  | RAttr attr t => o = Out [sizeof_attr_out] false /\ stat_ok attr /\ timeout_ok t
  | RReadlink b | RBuf b => exists n, o = Out [n] true /\ strlen b <= n < 2 ^ 32 - 16
  | ROpen fi => o = Out [sizeof_open_out] false /\ fits 8 (fi_fh fi)
  | RWrite n | RXattr n => o = Out [sizeof_write_out] false /\ fits 4 n
  | RBmap n => o = Out [sizeof_bmap_out] false /\ fits 8 n
  | RStatfs st => o = Out [sizeof_statfs_out] false /\ statfs_ok st /\ 4 <= minor
  end.

Definition attr_of (st : kstat) : fuse_attr :=
  Attr (st_ino st) (st_size st) (st_blocks st) (st_atime st) (st_mtime st) (st_ctime st)
    (st_atimensec st) (st_mtimensec st) (st_ctimensec st) (st_mode st) (st_nlink st) (st_uid st)
    (st_gid st) (st_rdev st).

Definition entry_of (e : entry_param) : fuse_entry_out :=
  EntryOut (e_ino e) (e_generation e) (e_entry_timeout e) (e_attr_timeout e) (attr_of (e_attr e)).

Definition open_of (fi : file_info) : fuse_open_out :=
  OpenOut (fi_fh fi) ((if fi_direct_io fi then 1 else 0) + (if fi_keep_cache fi then 2 else 0)).

Definition statfs_of (st : statvfs) : kstatfs :=
  Kstatfs FUSE_SUPER_MAGIC (f_bsize st) (f_frsize st) (f_blocks st) (f_bfree st) (f_bavail st) (f_files st)
    (f_ffree st) (f_namemax st).

(** What the caller finds in its arguments. *)
Definition received (a : ll_reply) (args : list bytes) : Prop :=
  match a, args with
  | RErr _, [] => True
  | REntry e, [x] => load_entry_out x = entry_of e
  | RCreate e fi, [x; y] => load_entry_out x = entry_of e /\ load_open_out y = open_of fi
  | RAttr attr t, [x] => load_attr_out x = AttrOut t (attr_of attr)
  | RReadlink b, [x] | RBuf b, [x] => x = b
  | ROpen fi, [x] => load_open_out x = open_of fi
  | RWrite n, [x] | RXattr n, [x] => field 4 0 x = n
  | RBmap n, [x] => field 8 0 x = n
  | RStatfs st, [x] => convert_fuse_statfs x = statfs_of st
  | _, _ => False
  end.

Definition error_of (a : ll_reply) : Z := match a with RErr err => - err | _ => 0 end.

Definition payload (a : ll_reply) : bytes :=
  match a with
  | RErr _ => []
  | REntry e => fill_entry e
  | RCreate e fi => fill_entry e ++ fill_open fi
  | RAttr attr t => u64 t.1 ++ u32 t.2 ++ u32 0 ++ convert_stat attr
  | RReadlink b | RBuf b => b
  | ROpen fi => fill_open fi
  | RWrite n | RXattr n => u32 n ++ u32 0
  | RBmap n => u64 n
  | RStatfs st => convert_statfs st
  end.

Lemma load_convert_stat pos b st rest :
  drop pos b = convert_stat st ++ rest -> stat_ok st -> load_attr pos b = attr_of st.
Proof.
  intros Hd Hst. unfold stat_ok in Hst. destruct_and! Hst.
  assert (forall n k, field n (pos + k) b = field n k (convert_stat st ++ rest)) as Hf.
  { intros n k. unfold field. by rewrite <- drop_drop, Hd. }
  unfold load_attr, attr_of. rewrite <- (Nat.add_0_r pos) at 1. rewrite !Hf. unfold convert_stat. by wire.
Qed.

Lemma load_fill_entry e rest : entry_ok e -> load_entry_out (fill_entry e ++ rest) = entry_of e.
Proof.
  intros (Hi & Hg & Hs & [Ha1 Ha2] & [He1 He2]). unfold load_entry_out.
  rewrite (load_convert_stat _ _ (e_attr e) rest) by (done || (unfold fill_entry; by wire)).
  unfold fill_entry. wire. unfold entry_of. by destruct (e_entry_timeout e), (e_attr_timeout e).
Qed.

Lemma load_fill_open fi rest : fits 8 (fi_fh fi) -> load_open_out (fill_open fi ++ rest) = open_of fi.
Proof.
  intros Hf. unfold load_open_out, fill_open, open_of.
  destruct (fi_direct_io fi), (fi_keep_cache fi); by wire.
Qed.

Lemma strlen_convert_stat st : strlen (convert_stat st) = 80.
Proof. unfold convert_stat. wire. rewrite !strlen_app, !strlen_le_bytes. lia. Qed.

Lemma strlen_fill_entry e : strlen (fill_entry e) = 120.
Proof. unfold fill_entry. rewrite !strlen_app, strlen_convert_stat. unfold u32, u64. rewrite !strlen_le_bytes. lia. Qed.

Lemma strlen_fill_open fi : strlen (fill_open fi) = 16.
Proof. unfold fill_open, u32, u64. rewrite !strlen_app, !strlen_le_bytes. lia. Qed.

Lemma strlen_convert_statfs st : strlen (convert_statfs st) = 80.
Proof. unfold convert_statfs, u32, u64. rewrite !strlen_app, !strlen_le_bytes. lia. Qed.

Lemma load_convert_statfs st : statfs_ok st -> convert_fuse_statfs (convert_statfs st) = statfs_of st.
Proof.
  intros Hst. unfold statfs_ok in Hst. destruct_and! Hst. unfold convert_fuse_statfs, convert_statfs, statfs_of.
  rewrite <- (app_nil_r (le_bytes 24 0)). by wire.
Qed.

(** A reply of the size that is expected, or a shorter one. *)
Lemma copy_one n (v : bool) b :
  strlen b = n \/ (v = true /\ strlen b <= n) ->
  copy_out_args (Out [n] v) 0 (16 + strlen b) b = Some [b].
Proof.
  intros Hb. pose proof (strlen_nonneg b). unfold copy_out_args, sizeof_out_header. cbn -[Z.add Z.sub Z.ltb].
  assert ((16 + (n + 0) <? 16 + strlen b) || ((16 + strlen b <? 16 + (n + 0)) && negb v) = false) as ->.
  { destruct Hb as [<-|[-> ?]]; [lia |]. rewrite andb_false_r. lia. }
  assert (take (Z.to_nat (strlen b)) b = b) as Hall by (unfold strlen; rewrite Nat2Z.id; by apply take_ge).
  destruct (Z.ltb_spec (16 + strlen b) (16 + (n + 0))).
  - replace (n <? 16 + (n + 0) - (16 + strlen b)) with false by lia.
    replace (n - (16 + (n + 0) - (16 + strlen b))) with (strlen b) by lia. by rewrite Hall.
  - replace n with (strlen b) by lia. by rewrite Hall.
Qed.

Lemma copy_two b c :
  copy_out_args (Out [strlen b; strlen c] false) 0 (16 + strlen (b ++ c)) (b ++ c) = Some [b; c].
Proof.
  unfold copy_out_args, sizeof_out_header. cbn -[Z.add Z.sub Z.ltb]. rewrite strlen_app.
  replace ((16 + (strlen b + (strlen c + 0)) <? 16 + (strlen b + strlen c))
    || ((16 + (strlen b + strlen c) <? 16 + (strlen b + (strlen c + 0))) && true)) with false by lia.
  replace (16 + (strlen b + strlen c) <? 16 + (strlen b + (strlen c + 0))) with false by lia.
  unfold strlen. rewrite !Nat2Z.id, take_app_length, drop_app_length. by rewrite (take_ge c).
Qed.

(** The payload has the sizes that the request expects, and holds what was sent. *)
Lemma payload_received o minor a :
  suits o minor a ->
  -1000 < error_of a <= 0 /\ 16 + strlen (payload a) < 2 ^ 32 /\
  exists args, copy_out_args o (error_of a) (16 + strlen (payload a)) (payload a) = Some args /\ received a args.
Proof.
  assert (forall x y, strlen (u32 x ++ u32 y) = 8) as H8
    by (intros x y; unfold u32; by rewrite strlen_app, !strlen_le_bytes).
  destruct a; cbn [suits error_of payload]; intros Hs; destruct_and? Hs;
    try (destruct Hs as (n & -> & Hn)); subst.
  - split; [lia |]. split; [done |]. exists []. split; [| done]. destruct Hs as [?|[-> ->]]; [| done].
    unfold copy_out_args. by replace (negb (- err =? 0)) with true by lia.
  - rewrite strlen_fill_entry. split; [lia |]. split; [done |]. exists [fill_entry e].
    rewrite <- (strlen_fill_entry e). split; [apply copy_one; left; apply strlen_fill_entry |].
    cbn [received]. rewrite <- (app_nil_r (fill_entry e)). by apply load_fill_entry.
  - split; [lia |]. rewrite strlen_app, strlen_fill_entry, strlen_fill_open. split; [done |].
    exists [fill_entry e; fill_open fi]. split.
    + rewrite <- (strlen_fill_entry e), <- (strlen_fill_open fi), <- strlen_app.
      change sizeof_entry_out with 120. change sizeof_open_out with 16.
      rewrite <- (strlen_fill_entry e), <- (strlen_fill_open fi). apply copy_two.
    + cbn [received]. rewrite <- (app_nil_r (fill_entry e)), <- (app_nil_r (fill_open fi)).
      split; [by apply load_fill_entry | by apply load_fill_open].
  - assert (strlen (u64 attr_timeout.1 ++ u32 attr_timeout.2 ++ u32 0 ++ convert_stat attr) = 96) as Hl.
    { rewrite !strlen_app, strlen_convert_stat. unfold u32, u64. rewrite !strlen_le_bytes. lia. }
    split; [lia |]. split; [by rewrite Hl |]. eexists [_]. split; [apply copy_one; by left |].
    match goal with H : timeout_ok _ |- _ => destruct H end.
    cbn [received]. unfold load_attr_out.
    rewrite <- (app_nil_r (convert_stat attr)), (load_convert_stat _ _ attr []) by (done || by wire).
    wire. by destruct attr_timeout.
  - split; [lia |]. split; [lia |]. exists [linkname]. split; [apply copy_one; right; split; [done | lia] | done].
  - split; [lia |]. rewrite strlen_fill_open. split; [done |]. exists [fill_open fi].
    split; [apply (copy_one _ _ (fill_open fi)); left; apply strlen_fill_open |].
    cbn [received]. rewrite <- (app_nil_r (fill_open fi)). by apply load_fill_open.
  - split; [lia |]. split; [by rewrite H8 |]. eexists [_]. split; [apply copy_one; left; apply H8 |].
    cbn [received]. rewrite <- (app_nil_r (u32 0)). by wire.
  - split; [lia |]. split; [lia |]. exists [buf]. split; [apply copy_one; right; split; [done | lia] | done].
  - split; [lia |]. split; [by rewrite H8 |]. eexists [_]. split; [apply copy_one; left; apply H8 |].
    cbn [received]. rewrite <- (app_nil_r (u32 0)). by wire.
  - split; [lia |]. unfold u64. rewrite strlen_le_bytes. split; [done |]. eexists [_].
    rewrite <- (strlen_le_bytes 8 idx). split; [apply copy_one; left; apply strlen_le_bytes |].
    cbn [received]. rewrite <- (app_nil_r (le_bytes 8 idx)). by wire.
  - split; [lia |]. rewrite strlen_convert_statfs. split; [done |]. exists [convert_statfs st].
    rewrite <- (strlen_convert_statfs st). split; [apply copy_one; left; apply strlen_convert_statfs |].
    by apply load_convert_statfs.
Qed.
Lemma runs_fuse_reply req r a f o (Q : Z -> fuse_ll -> Prop) :
  serves f req r -> suits o (proto_minor (conn f)) a ->
  Q (chan_send (length (sent f))) (answered req (reply_bytes (error_of a) (unique r) (payload a)) f) ->
  runs (fuse_reply req a) f Q.
Proof.
  intros Hs Ha HQ. destruct (payload_received _ _ _ Ha) as [He _].
  destruct a; lazymatch goal with
    | |- context [REntry _] => idtac
    | |- context [RStatfs _] => idtac
    | _ => eapply runs_send_reply; done
    end; apply runs_bind, runs_get; destruct Ha as (_ & Hst & Hnode).
  - replace ((e_ino e =? 0) && (proto_minor (conn f) <? 4)) with false by lia. by eapply runs_send_reply.
  - cbv zeta. replace (proto_minor (conn f) <? 4) with false by lia. rewrite take_ge; [by eapply runs_send_reply |].
    pose proof (strlen_convert_statfs st) as H. unfold strlen in H. unfold sizeof_statfs_out. lia.
Qed.
End Replies.

(** * The two directions *)

(** C6. A request survives its way to the file system: for each of the 28 calls
    of the kernel that name an operation, the message that is read from the
    device, in a buffer with other bytes behind it, makes the library call that
    operation with the arguments of the call, and puts the request in service.
    *)
Theorem request_round_trip alloc_ok chan_send chan_bufsize op op_init fc kr ps k nbytes stale f :
  (forall o, op o = true) -> call_ok k -> in_ kr = (kernel_request k).1 -> header_ok kr ->
  connected fc = true -> FuseDevice.interrupts fc = [] -> pending fc = kr :: ps -> reqsize kr <= nbytes ->
  got_init f = true -> alloc_ok (allocs f) = true -> interrupts f = [] -> 8 <= proto_minor (conn f) ->
  (allow_root f = false \/ FuseDevice.uid kr = owner f \/ FuseDevice.uid kr = 0 \/
   always_allowed (opcode (in_ kr)) = true) ->
  exists m fc', fuse_dev_readv nbytes fc = Ret (inr m, fc') /\ strlen m <= nbytes /\
    fuse_ll_process alloc_ok chan_send chan_bufsize op op_init (m ++ stale) f
      = Ret (Some (brk f, meant k), in_service kr f).
Proof.
  intros Hop Hk Hin Hh Hconn Hnoint Hps Hsize Hinit Halloc Hintr Hminor Hallow.
  assert (runs (fuse_dev_readv nbytes) fc (fun m _ => m = inr (message kr))) as (m & fc' & E & ->)%runs_eq.
  { unfold fuse_dev_readv. apply runs_bind, runs_get. rewrite Hconn, Hnoint, Hps. cbn [negb dev_read].
    replace (nbytes <? reqsize kr) with false by lia. apply runs_bind, runs_modify, runs_bind.
    destruct (isreply kr); [apply runs_bind | apply runs_modify; by apply runs_ret]. apply runs_modify.
    destruct (FuseDevice.interrupted kr); [| apply runs_ret; by apply runs_ret].
    apply runs_bind, runs_get. cbn [FuseDevice.interrupts set_processing set_pending]. rewrite Hnoint.
    rewrite decide_False by apply not_elem_of_nil. apply runs_modify. by apply runs_ret. }
  exists (message kr), fc'. split; [exact E |]. split; [by rewrite length_message |].
  pose proof (process_message alloc_ok chan_send chan_bufsize op op_init Hop kr k stale f Hk Hin Hh
    (conj Hinit (conj Halloc Hallow)) Hintr Hminor) as H.
  apply runs_eq in H as (c & f' & E' & -> & ->). done.
Qed.

(** C7. An answer survives its way to the caller: what the library replies to a
    request, an error, an entry, attributes, an open file, bytes or a count, is
    what the caller that waits in the kernel finds, and the request is freed on
    one side and ended on the other. *)
Theorem reply_round_trip chan_send fc kr req r a f :
  awaits fc kr -> fits 8 (FuseDevice.unique kr) -> FuseDevice.unique kr <> 0 ->
  serves f req r -> unique r = FuseDevice.unique kr -> suits (out kr) (proto_minor (conn f)) a ->
  exists b args, fuse_reply chan_send req a f = Ret (chan_send (length (sent f)), answered req b f) /\
    fuse_dev_writev b fc = Ret (strlen b, ended_with kr (error_of a) args fc) /\ received a args.
Proof.
  intros Hkr Hu Hu0 Hs Hur Ha.
  destruct (payload_received _ _ _ Ha) as (He & Hlen & args & Hargs & Hrec).
  assert (runs (fuse_reply chan_send req a) f (fun z f' => z = chan_send (length (sent f)) /\
    f' = answered req (reply_bytes (error_of a) (unique r) (payload a)) f)) as H by by eapply runs_fuse_reply.
  apply runs_eq in H as (z & f' & E & -> & ->). eexists _, args. split; [exact E |]. split; [| done].
  rewrite Hur, (writev_reply _ _ _ _ Hkr Hu Hu0 He Hlen), Hargs. by rewrite strlen_reply.
Qed.

(** * Instances *)

(** The library after its first message, in version 7.8, and a kernel whose user 1000
    renames a file. *)
Definition ready : fuse_ll :=
  LL false 0 true false (ConnInfo 7 8 true 131072 131072) ∅ 0 0 [] [] [].

Definition rename_call : kernel_call := KRename 1 (B "old") 5 (B "new name").

Definition rename_conn : fuse_conn :=
  request_send 1000 100 4321 (kernel_request rename_call) false (set_reqctr 6 new_conn).

Definition rename_req : FuseDevice.fuse_req :=
  set_unique 7 (new_req 1000 100 4321 (kernel_request rename_call) true false AnySignal).

Lemma request_round_trip_witness :
  exists m fc', fuse_dev_readv 8192 rename_conn = Ret (inr m, fc') /\ strlen m <= 8192 /\
    fuse_ll_process (fun _ => true) (fun _ => 0) 135168 (fun _ => true) id (m ++ B "stale") ready
      = Ret (Some (0%nat, Rename 1 (B "old") 5 (B "new name")), in_service rename_req ready).
Proof.
  apply (request_round_trip (fun _ => true) (fun _ => 0) 135168 (fun _ => true) id rename_conn rename_req []
    rename_call 8192 (B "stale") ready); try reflexivity; try (left; reflexivity).
  - split; [done |]. split; [apply (bool_decide_unpack (NUL ∉ _)); reflexivity |].
    split; [done |]. apply (bool_decide_unpack (NUL ∉ _)). reflexivity.
  - done.
  - vm_compute. discriminate.
Defined.

(** The answer to a lookup that found node 2, a file of 5 bytes. *)
Definition found_file : entry_param :=
  EntryParam 2 0 (Kstat 2 33188 1 0 0 0 5 0 0 0 0 0 0 0) (1, 0) (1, 500000000).

Definition lookup_req : FuseDevice.fuse_req :=
  set_unique 7 (new_req 1000 100 4321 (fuse_lookup_init 1 (B "a")) true false AnySignal).

Definition lookup_conn : fuse_conn := set_processing [lookup_req] (set_reqctr 7 new_conn).

Lemma reply_round_trip_witness :
  exists b args,
    fuse_reply (fun _ => 0) 0 (REntry found_file) (in_service lookup_req ready)
      = Ret (0, answered 0 b (in_service lookup_req ready)) /\
    fuse_dev_writev b lookup_conn = Ret (strlen b, ended_with lookup_req 0 args lookup_conn) /\
    received (REntry found_file) args.
Proof.
  apply (reply_round_trip (fun _ => 0) lookup_conn lookup_req 0
    (Req 7 1 1000 100 4321 false 0) (REntry found_file) (in_service lookup_req ready)).
  - split_and!; vm_compute; done.
  - done.
  - discriminate.
  - split; reflexivity.
  - reflexivity.
  - split; [reflexivity |]. split; [| left; discriminate]. vm_compute. repeat split; discriminate || reflexivity.
Defined.
