(* ===== verification/FuseDevProps.v ===== *)
(** The device of the kernel module keeps account of its requests, whatever is
    written to it, and whichever signals reach their callers. *)

From S2P Require Import Prelude.
From S2P Require Import CString.
From S2P Require Import FuseDir.
From S2P Require Import FuseWire.
From S2P Require Import FuseDevice.

(** * Runs *)

(** The room for the reply. *)
Definition room_ok (io : fuse_in * fuse_out) : Prop := Forall (Z.le 0) (out_args io.2).

(** What happens at the device, with the numbers of the requests that it queues:
    requests are sent, signals reach callers, the library reads with a buffer of any
    size and writes any bytes, the first reply is bad, and the connection ends. *)
Inductive dev_step (fc : fuse_conn) : list Z -> fuse_conn -> Prop :=
| dev_send uid gid pid io force :
    room_ok io ->
    dev_step fc (if connected fc && negb (conn_error fc) then [fuse_get_unique fc] else [])
      (request_send uid gid pid io force fc)
| dev_send_nowait uid gid pid io isreply :
    room_ok io ->
    dev_step fc (if connected fc then [fuse_get_unique fc] else [])
      (request_send_nowait uid gid pid io isreply fc)
| dev_signal u fatal fc' : request_wait_answer u fatal fc = Ret (tt, fc') -> dev_step fc [] fc'
| dev_readv nbytes m fc' : fuse_dev_readv nbytes fc = Ret (m, fc') -> dev_step fc [] fc'
| dev_writev b z fc' : fuse_dev_writev b fc = Ret (z, fc') -> dev_step fc [] fc'
| dev_conn_error : dev_step fc [] (set_conn_error fc)
| dev_release : dev_step fc [] (fuse_dev_release fc)
| dev_abort : dev_step fc [] (fuse_abort_conn fc).

(** Runs in which fewer than 2^64 numbers are given. *)
Inductive dev_reachable : list Z -> fuse_conn -> Prop :=
| dev_new : dev_reachable [] new_conn
| dev_run q fc l fc' :
    dev_reachable q fc -> reqctr fc + 1 < 2 ^ 64 -> dev_step fc l fc' -> dev_reachable (q ++ l) fc'.

(** * Lists of requests *)

Definition nonzero (l : list Z) : list Z := filter (.≠ 0) l.

(** The numbers of the requests that were queued and have ended, and those of the
    interrupts that were read. *)
Definition ended_numbers (fc : fuse_conn) : list Z := nonzero ((fun x => unique x.1.1) <$> ended fc).
Definition intr_numbers (rs : list fuse_req) : list Z := nonzero (intr_unique <$> rs).

Lemma nonzero_app l k : nonzero (l ++ k) = nonzero l ++ nonzero k.
Proof. apply filter_app. Qed.

Lemma nonzero_one u : u <> 0 -> nonzero [u] = [u].
Proof. intros Hu. unfold nonzero. by rewrite filter_cons_True. Qed.

#[export] Instance nonzero_perm : Proper ((≡ₚ) ==> (≡ₚ)) nonzero.
Proof. intros l k H. unfold nonzero. by rewrite H. Qed.

Lemma list_find_Some_in {A} (P : A -> Prop) `{forall x, Decision (P x)} (l : list A) x :
  snd <$> list_find P l = Some x -> x ∈ l /\ P x.
Proof.
  intros Hx. apply fmap_Some in Hx as ([i y] & Hf & ->). apply list_find_Some in Hf as (Hy & HP & _).
  split; [by eapply list_elem_of_lookup_2 | done].
Qed.

Lemma list_find_None_in {A} (P : A -> Prop) `{forall x, Decision (P x)} (l : list A) x :
  snd <$> list_find P l = None -> x ∈ l -> ~ P x.
Proof.
  intros Hn Hx HP. destruct (list_find_elem_of P l x Hx HP) as [y Hy]. by rewrite Hy in Hn.
Qed.

(** The changes keep the number. *)
Class KeepsUnique (g : fuse_req -> fuse_req) : Prop := keeps_unique r : unique (g r) = unique r.
#[export] Instance set_interrupted_keeps : KeepsUnique set_interrupted.
Proof. by intros r. Qed.
#[export] Instance set_aborted_keeps : KeepsUnique set_aborted.
Proof. by intros r. Qed.
#[export] Instance set_intr_unique_keeps u : KeepsUnique (set_intr_unique u).
Proof. by intros r. Qed.

Lemma alter_uniques u g rs `{!KeepsUnique g} : unique <$> alter_unique u g rs = unique <$> rs.
Proof.
  unfold alter_unique. rewrite <- list_fmap_compose. apply list_fmap_ext. intros _ r _. cbn.
  destruct (unique r =? u); [apply keeps_unique | done].
Qed.

Lemma alter_elem u g rs r' :
  r' ∈ alter_unique u g rs <-> exists r, r ∈ rs /\ r' = if unique r =? u then g r else r.
Proof. unfold alter_unique. rewrite list_elem_of_fmap. naive_solver. Qed.

Lemma alter_Forall u g rs (P : fuse_req -> Prop) :
  Forall P rs -> (forall r, r ∈ rs -> unique r = u -> P r -> P (g r)) -> Forall P (alter_unique u g rs).
Proof.
  rewrite !Forall_forall. intros H Hg r' (r & Hr & ->)%alter_elem.
  destruct (Z.eqb_spec (unique r) u); auto.
Qed.

Lemma without_notin_unique u rs : u ∉ unique <$> rs -> without_unique u rs = rs.
Proof.
  unfold without_unique. induction rs as [|r rs IH]; [done |]. rewrite fmap_cons, not_elem_of_cons. intros [? ?].
  rewrite filter_cons_True by auto. by rewrite IH.
Qed.

(** Taking out the request [r] of a list without repetitions. *)
Lemma without_perm_unique r rs :
  NoDup (unique <$> rs) -> r ∈ rs -> rs ≡ₚ r :: without_unique (unique r) rs.
Proof.
  induction rs as [|r0 rs IH]; [by rewrite elem_of_nil |]. rewrite fmap_cons, NoDup_cons, elem_of_cons.
  intros [Hn Hnd] [<-|Hr].
  - assert (without_unique (unique r) (r :: rs) = without_unique (unique r) rs) as ->
      by (unfold without_unique; by rewrite filter_cons_False by auto).
    by rewrite without_notin_unique.
  - assert (unique r0 <> unique r) as Hne.
    { intros E. apply Hn. rewrite E. by apply list_elem_of_fmap_2. }
    assert (without_unique (unique r) (r0 :: rs) = r0 :: without_unique (unique r) rs) as ->
      by (unfold without_unique; by rewrite filter_cons_True by auto).
    rewrite (IH Hnd Hr) at 1. apply Permutation_swap.
Qed.

Lemma unique_inj rs r r' :
  NoDup (unique <$> rs) -> r ∈ rs -> r' ∈ rs -> unique r = unique r' -> r = r'.
Proof.
  intros Hnd Hr Hr' E. rewrite (without_perm_unique r rs Hnd Hr), elem_of_cons in Hr'.
  destruct Hr' as [->|[Hne _]%list_elem_of_filter]; [done |]. by destruct Hne.
Qed.

(** * The arguments fit in the room that was given *)

Lemma fuse_copy_args_fit sizes b :
  Forall (Z.le 0) sizes -> Forall2 (fun a n => strlen a <= n) (fuse_copy_args sizes b) sizes.
Proof.
  revert b. induction sizes as [|n sizes IH]; intros b Hs; cbn; [constructor |].
  inversion_clear Hs. constructor; [| by apply IH]. unfold strlen. rewrite length_take. lia.
Qed.

Lemma shorten_last_fit diff sizes b :
  Forall (Z.le 0) sizes -> 0 <= diff -> (forall n, last sizes = Some n -> diff <= n) ->
  Forall2 (fun a n => strlen a <= n) (fuse_copy_args (shorten_last diff sizes) b) sizes.
Proof.
  intros Hs Hd. revert b. induction Hs as [|n sizes Hn Hs IH]; intros b Hl; [constructor |].
  destruct sizes as [|m sizes].
  - specialize (Hl n eq_refl). repeat constructor. unfold strlen. rewrite length_take. lia.
  - cbn [shorten_last fuse_copy_args]. constructor; [unfold strlen; rewrite length_take; lia |].
    apply IH. intros k Hk. by apply Hl.
Qed.

Lemma copy_out_args_fit o nbytes b args :
  copy_out_args o 0 nbytes b = Some args -> Forall (Z.le 0) (out_args o) ->
  Forall2 (fun a n => strlen a <= n) args (out_args o).
Proof.
  intros Hc Hs. unfold copy_out_args in Hc. cbn [negb Z.eqb] in Hc.
  destruct (_ || _); [done |]. destruct (Z.ltb_spec nbytes (sizeof_out_header + len_args (out_args o))).
  - destruct (last (out_args o)) as [n|] eqn:El; [| done].
    destruct (Z.ltb_spec n (sizeof_out_header + len_args (out_args o) - nbytes)); [done |].
    injection Hc as <-. apply shorten_last_fit; [done | lia |]. intros m [= <-]%(eq_trans (eq_sym El)). done.
  - injection Hc as <-. by apply fuse_copy_args_fit.
Qed.


(** * The account *)

Definition req_ok (r : fuse_req) : Prop :=
  (waits r = AnySignal -> interrupted r = false) /\ Forall (Z.le 0) (out_args (out r)).

Definition pending_ok (r : fuse_req) : Prop := intr_unique r = 0 /\ aborted r = false /\ req_ok r.
Definition processing_ok (r : fuse_req) : Prop :=
  isreply r = true /\ req_ok r /\ (intr_unique r <> 0 -> interrupted r = true).

(** An interrupt waits for a request that was read and is interrupted. *)
Definition queued_ok (rs : list fuse_req) (u : Z) : Prop :=
  exists r, r ∈ rs /\ unique r = u /\ interrupted r = true.

Record accounts (q : list Z) (fc : fuse_conn) : Prop := Accounts {
  ac_requests : q ≡ₚ (unique <$> pending fc) ++ (unique <$> processing fc) ++ ended_numbers fc;
  ac_distinct : NoDup (q ++ intr_numbers (processing fc));
  ac_range : Forall (fun u => 0 < u <= reqctr fc) (q ++ intr_numbers (processing fc));
  ac_ctr : 0 <= reqctr fc;
  ac_interrupts : NoDup (interrupts fc);
  ac_queued : Forall (queued_ok (processing fc)) (interrupts fc);
  ac_pending : Forall pending_ok (pending fc);
  ac_processing : Forall processing_ok (processing fc) }.

Lemma get_unique_next fc : 0 <= reqctr fc -> reqctr fc + 1 < 2 ^ 64 -> fuse_get_unique fc = reqctr fc + 1.
Proof.
  intros H0 Hlt. unfold fuse_get_unique. rewrite to_u64_id by lia. by replace (reqctr fc + 1 =? 0) with false by lia.
Qed.

Section Accounts.
Context (q : list Z) (fc : fuse_conn) (Hac : accounts q fc).

Lemma distinct_requests : NoDup ((unique <$> pending fc) ++ (unique <$> processing fc)).
Proof.
  destruct Hac as [Hq Hnd _ _ _ _ _ _]. apply NoDup_app in Hnd as [Hnd _]. rewrite Hq, app_assoc in Hnd.
  by apply NoDup_app in Hnd as [Hnd _].
Qed.

Lemma distinct_processing : NoDup (unique <$> processing fc).
Proof. pose proof distinct_requests as H. by apply NoDup_app in H as (_ & _ & ?). Qed.

Lemma distinct_pending : NoDup (unique <$> pending fc).
Proof. pose proof distinct_requests as H. by apply NoDup_app in H as (? & _ & _). Qed.

Lemma pending_not_processing r r' : r ∈ pending fc -> r' ∈ processing fc -> unique r <> unique r'.
Proof.
  intros Hr Hr' E. pose proof distinct_requests as H. apply NoDup_app in H as (_ & H & _).
  apply (H (unique r)); [by apply list_elem_of_fmap_2 |]. rewrite E. by apply list_elem_of_fmap_2.
Qed.

Lemma in_account r : r ∈ pending fc ++ processing fc -> unique r ∈ q.
Proof.
  intros Hr. rewrite (ac_requests _ _ Hac), app_assoc, <- fmap_app. apply elem_of_app. left.
  by apply list_elem_of_fmap_2.
Qed.

Lemma account_nonzero r : r ∈ pending fc ++ processing fc -> unique r <> 0.
Proof.
  intros Hr%in_account. pose proof (ac_range _ _ Hac) as Hrg. apply Forall_app in Hrg as [Hrg _].
  rewrite Forall_forall in Hrg. apply Hrg in Hr. lia.
Qed.

(** A request that was not interrupted has no interrupt in the list. *)
Lemma not_queued r :
  (r ∈ processing fc /\ interrupted r = false) \/ r ∈ pending fc -> unique r ∉ interrupts fc.
Proof.
  intros Hr Hu. pose proof (ac_queued _ _ Hac) as Hq. rewrite Forall_forall in Hq.
  destruct (Hq _ Hu) as (r' & Hr' & E & Hi). destruct Hr as [[Hr Hf]|Hr].
  - assert (r' = r) as -> by (by eapply unique_inj; [apply distinct_processing | ..]). congruence.
  - by apply (pending_not_processing r r').
Qed.

(** ** A new request *)

Lemma accounts_queue r :
  reqctr fc + 1 < 2 ^ 64 -> pending_ok r -> accounts (q ++ [fuse_get_unique fc]) (queue_request r fc).
Proof.
  intros Hlt Hr. pose proof Hac as [Hq Hnd Hrg Hc Hint Hqd Hp Hpr].
  pose proof (get_unique_next fc Hc Hlt) as Hu. unfold queue_request. rewrite Hu.
  assert (forall u, u ∈ q ++ intr_numbers (processing fc) -> u <> reqctr fc + 1) as Hnew.
  { intros u. rewrite Forall_forall in Hrg. intros ?%Hrg. lia. }
  split; cbn [pending processing reqctr interrupts ended set_pending set_reqctr]; try done.
  - rewrite fmap_app, Hq. cbn. rewrite <- !app_assoc. f_equiv. unfold ended_numbers. cbn.
    by rewrite (app_assoc (unique <$> processing fc)), (Permutation_app_comm _ [reqctr fc + 1]).
  - rewrite <- app_assoc, (Permutation_app_comm [_]), app_assoc. apply NoDup_app. split; [done |].
    split; [| apply NoDup_singleton]. intros u Hin ->%list_elem_of_singleton. by apply (Hnew _ Hin).
  - rewrite <- app_assoc, (Permutation_app_comm [_]), app_assoc. apply Forall_app. split.
    + eapply Forall_impl; [exact Hrg |]. cbn. lia.
    + apply Forall_singleton. lia.
  - lia.
  - apply Forall_app. auto.
Qed.

(** ** A request that ends *)

(** [r] leaves its list, and ends, perhaps aborted, as [r']. *)
Lemma accounts_end r r' error args ps rs :
  unique r' = unique r ->
  pending fc ++ processing fc ≡ₚ r :: ps ++ rs -> (forall x, x ∈ ps -> x ∈ pending fc) ->
  processing fc = rs \/ processing fc ≡ₚ r :: rs ->
  accounts q (request_end r' error args (set_processing rs (set_pending ps fc))).
Proof.
  intros Hu' Hperm Hps Hrs. unfold request_end. rewrite Hu'. pose proof Hac as [Hq Hnd Hrg Hc Hint Hqd Hp Hpr].
  assert (r ∈ pending fc ++ processing fc) as Hin by (rewrite Hperm; by left).
  assert (unique r <> 0) as Hz by by apply account_nonzero.
  assert (exists ids, intr_numbers (processing fc) ≡ₚ ids ++ intr_numbers rs) as [ids Hids].
  { unfold intr_numbers. destruct Hrs as [->|Hrs]; [by exists [] |].
    exists (nonzero [intr_unique r]). rewrite <- nonzero_app. by rewrite Hrs. }
  assert (q ++ intr_numbers (processing fc) ≡ₚ (q ++ intr_numbers rs) ++ ids) as Hall
    by (rewrite Hids, <- app_assoc; f_equiv; apply Permutation_app_comm).
  rewrite Hall in Hnd, Hrg. apply NoDup_app in Hnd as (Hnd & _). apply Forall_app in Hrg as [Hrg _].
  assert (forall x, x ∈ rs -> x ∈ processing fc) as Hsub.
  { intros x Hx. destruct Hrs as [->|Hrs]; [done |]. rewrite Hrs. by right. }
  split; cbn [pending processing reqctr interrupts ended set_pending set_processing set_ended set_interrupts];
    try done.
  - rewrite Hq, app_assoc, <- fmap_app, Hperm, fmap_cons, fmap_app. unfold ended_numbers.
    cbn [ended set_ended]. rewrite fmap_app, nonzero_app. cbn [fmap list_fmap fst]. rewrite Hu'.
    rewrite nonzero_one by done. solve_Permutation.
  - by apply NoDup_filter.
  - apply Forall_forall. intros u [Hne Hu]%list_elem_of_filter. rewrite Forall_forall in Hqd.
    destruct (Hqd u Hu) as (x & Hx & <- & Hi). exists x. split; [| done].
    destruct Hrs as [<-|Hrs]; [done |]. rewrite Hrs, elem_of_cons in Hx. by destruct Hx as [->|].
  - rewrite Forall_forall in *. auto.
  - rewrite Forall_forall in *. auto.
Qed.

(** ** Requests that change *)

Lemma intr_numbers_alter u g :
  (forall r, intr_unique (g r) = intr_unique r) ->
  intr_numbers (alter_unique u g (processing fc)) = intr_numbers (processing fc).
Proof.
  intros Hg. unfold intr_numbers, alter_unique. f_equal. rewrite <- list_fmap_compose.
  apply list_fmap_ext. intros _ r _. cbn. by destruct (unique r =? u).
Qed.

Lemma accounts_alter u g `{!KeepsUnique g} :
  (forall r, intr_unique (g r) = intr_unique r) -> (forall r, isreply (g r) = isreply r) ->
  (forall r, interrupted r = true -> interrupted (g r) = true) -> (forall r, req_ok r -> req_ok (g r)) ->
  accounts q (set_processing (alter_unique u g (processing fc)) fc).
Proof.
  intros Hi Hr Hint Hok. destruct Hac as [Hq Hnd Hrg Hc Hints Hqd Hp Hpr].
  split; cbn [pending processing reqctr interrupts ended set_processing]; rewrite ?alter_uniques, ?intr_numbers_alter by done;
    try done.
  - eapply Forall_impl; [exact Hqd |]. intros v (r & Hin & Hv & Hrint).
    exists (if unique r =? u then g r else r). split; [apply alter_elem; by exists r |].
    destruct (unique r =? u); [split; [by rewrite (keeps_unique r) | auto] | done].
  - apply alter_Forall; [done |]. intros r _ _ (? & ? & ?). split_and!; [by rewrite Hr | auto |]. rewrite Hi. auto.
Qed.

Lemma accounts_alter_pending u g `{!KeepsUnique g} :
  (forall r, pending_ok r -> pending_ok (g r)) ->
  accounts q (set_pending (alter_unique u g (pending fc)) fc).
Proof.
  intros Hok. destruct Hac as [Hq Hnd Hrg Hc Hints Hqd Hp Hpr].
  split; cbn [pending processing reqctr interrupts ended set_pending]; rewrite ?alter_uniques by done; try done.
  apply alter_Forall; auto.
Qed.

Lemma accounts_queue_interrupt u :
  u ∉ interrupts fc -> queued_ok (processing fc) u -> accounts q (set_interrupts (interrupts fc ++ [u]) fc).
Proof.
  intros Hu Hok. destruct Hac as [Hq Hnd Hrg Hc Hints Hqd Hp Hpr]. split; try done; cbn [interrupts set_interrupts].
  - apply NoDup_app. split; [done |]. split; [| apply NoDup_singleton]. by intros x Hx ->%list_elem_of_singleton.
  - apply Forall_app. split; [exact Hqd | by apply Forall_singleton].
Qed.

(** The first request of the queue is read. *)
Lemma accounts_move r ps :
  pending fc = r :: ps -> isreply r = true ->
  accounts q (set_processing (processing fc ++ [r]) (set_pending ps fc)).
Proof.
  intros Hps Hr. destruct Hac as [Hq Hnd Hrg Hc Hints Hqd Hp Hpr]. rewrite Hps in *.
  inversion_clear Hp as [|? ? (Hi & Ha & Hok) Hp'].
  assert (intr_numbers (processing fc ++ [r]) = intr_numbers (processing fc)) as Hids.
  { unfold intr_numbers. rewrite fmap_app, nonzero_app. cbn. rewrite Hi. apply app_nil_r. }
  split; cbn [pending processing reqctr interrupts ended set_pending set_processing]; rewrite ?Hids; try done.
  - rewrite Hq, fmap_app. unfold ended_numbers. cbn. solve_Permutation.
  - eapply Forall_impl; [exact Hqd |]. intros u (y & Hy & ?). exists y. split; [| done]. apply elem_of_app. by left.
  - apply Forall_app. split; [done |]. apply Forall_singleton. split_and!; [done | done |]. by rewrite Hi.
Qed.

(** The first interrupt is read, and gets a number. *)
Lemma accounts_read_interrupt u us :
  reqctr fc + 1 < 2 ^ 64 -> interrupts fc = u :: us ->
  accounts q (set_interrupts us (set_processing
    (alter_unique u (set_intr_unique (fuse_get_unique fc)) (processing fc)) (set_reqctr (fuse_get_unique fc) fc))).
Proof.
  intros Hlt Hus. pose proof distinct_processing as Hdp. destruct Hac as [Hq Hnd Hrg Hc Hints Hqd Hp Hpr].
  rewrite (get_unique_next fc Hc Hlt). set (n := reqctr fc + 1). rewrite Hus in *.
  inversion_clear Hqd as [|? ? (r & Hr & <- & Hri) Hqd']. inversion_clear Hints.
  set (rs' := alter_unique (unique r) (set_intr_unique n) (processing fc)).
  assert (rs' ≡ₚ set_intr_unique n r :: without_unique (unique r) (processing fc)) as Hrs'.
  { unfold rs', alter_unique. rewrite (without_perm_unique r _ Hdp Hr) at 1. rewrite fmap_cons, Z.eqb_refl. f_equiv.
    match goal with |- ?l ≡ₚ ?k => assert (l = k) as ->; [| done] end.
    rewrite <- (list_fmap_id (without_unique _ _)) at 2. apply list_fmap_ext.
    intros i y [Hy _]%list_elem_of_lookup_2%list_elem_of_filter. by replace (unique y =? unique r) with false by lia. }
  assert (intr_numbers rs' ≡ₚ n :: intr_numbers (without_unique (unique r) (processing fc))) as Hn.
  { unfold intr_numbers. rewrite Hrs', fmap_cons. unfold nonzero. cbn [intr_unique set_intr_unique].
    by rewrite filter_cons_True by lia. }
  assert (exists ids, intr_numbers (processing fc) ≡ₚ ids ++ intr_numbers (without_unique (unique r) (processing fc)))
    as [ids Hids].
  { exists (nonzero [intr_unique r]). unfold intr_numbers. rewrite <- nonzero_app.
    by rewrite (without_perm_unique r _ Hdp Hr) at 1. }
  assert (forall l, q ++ ids ++ l ≡ₚ ids ++ q ++ l) as Hswap by (intros; solve_Permutation).
  rewrite Hids, Hswap in Hnd, Hrg. apply NoDup_app in Hnd as (_ & _ & Hnd). apply Forall_app in Hrg as [_ Hrg].
  split; cbn [pending processing reqctr interrupts ended set_interrupts set_processing set_reqctr]; fold rs'; try done.
  - unfold rs'. by rewrite (alter_uniques _ (set_intr_unique n)).
  - rewrite Hn, <- Permutation_middle. constructor; [| done]. intros Hin. rewrite Forall_forall in Hrg.
    apply Hrg in Hin. lia.
  - rewrite Hn, <- Permutation_middle. constructor; [lia |]. eapply Forall_impl; [exact Hrg |]. cbn. lia.
  - lia.
  - eapply Forall_impl; [exact Hqd' |]. intros v (y & Hy & Hv & Hi).
    exists (if unique y =? unique r then set_intr_unique n y else y). split; [apply alter_elem; by exists y |].
    by destruct (unique y =? unique r).
  - apply alter_Forall; [done |]. intros y Hy E (? & ? & ?). split_and!; [done.. |]. intros _.
    assert (y = r) as -> by (by eapply unique_inj). done.
Qed.
End Accounts.

(** * The operations *)

(** ** Signals *)

Lemma find_unique_Some u rs r : find_unique u rs = Some r -> r ∈ rs /\ unique r = u.
Proof. apply (list_find_Some_in (fun r => unique r = u)). Qed.

Lemma find_unique_None u rs r : find_unique u rs = None -> r ∈ rs -> unique r <> u.
Proof. apply (list_find_None_in (fun r => unique r = u)). Qed.

Lemma runs_queue_interrupt u fc (Q : unit -> fuse_conn -> Prop) :
  u ∉ interrupts fc -> Q tt (set_interrupts (interrupts fc ++ [u]) fc) -> runs (queue_interrupt u) fc Q.
Proof. intros Hu HQ. apply runs_bind, runs_get. rewrite decide_False by done. by apply runs_modify. Qed.

Lemma interrupted_ok r : req_ok r -> req_ok (set_interrupted r).
Proof. intros [_ ?]. split; [| done]. cbn. by destruct (force r). Qed.

Lemma runs_interrupt_request q fc r u :
  accounts q fc -> r ∈ pending fc ++ processing fc -> unique r = u -> interrupted r = false ->
  runs (interrupt_request u) fc (fun _ fc' => accounts q fc').
Proof.
  intros Hac Hr <- Hi. apply runs_bind, runs_get. apply runs_bind, runs_modify.
  set (fc1 := set_pending _ _).
  assert (accounts q fc1) as Hac1.
  { assert (accounts q (set_processing (alter_unique (unique r) set_interrupted (processing fc)) fc)) as Hac0
      by (apply accounts_alter; try done; apply interrupted_ok).
    apply (accounts_alter_pending q _ Hac0 (unique r) set_interrupted).
    intros x (? & ? & ?). split; [done |]. split; [done |]. by apply interrupted_ok. }
  destruct (find_unique _ _) as [r'|] eqn:Hf; [| by apply runs_ret].
  apply find_unique_Some in Hf as [Hr' Hu]. apply runs_queue_interrupt.
  - change (interrupts fc1) with (interrupts fc). apply (not_queued q fc Hac). apply elem_of_app in Hr as [?|?]; auto.
  - apply (accounts_queue_interrupt q fc1 Hac1).
    + change (interrupts fc1) with (interrupts fc). apply (not_queued q fc Hac). apply elem_of_app in Hr as [?|?]; auto.
    + exists (set_interrupted r'). split_and!; [| by cbn | done]. apply alter_elem. exists r'. split; [done |].
      by rewrite Hu, Z.eqb_refl.
Qed.

Lemma runs_abort_request q fc u :
  accounts q fc -> runs (abort_request u) fc (fun _ fc' => accounts q fc').
Proof.
  intros Hac. apply runs_modify. destruct (find_unique u (pending fc)) as [r|] eqn:Hf.
  - apply find_unique_Some in Hf as [Hr <-].
    pose proof (without_perm_unique r _ (distinct_pending q fc Hac) Hr) as Hp.
    apply (accounts_end q fc Hac r (set_aborted r) _ _ (without_unique (unique r) (pending fc)) (processing fc)).
    + done.
    + by rewrite Hp at 1.
    + by intros x [_ ?]%list_elem_of_filter.
    + by left.
  - apply accounts_alter; try done. by intros r [_ ?].
Qed.

Lemma runs_wait_answer q fc u fatal :
  accounts q fc -> runs (request_wait_answer u fatal) fc (fun _ fc' => accounts q fc').
Proof.
  intros Hac. apply runs_bind, runs_get. destruct (find_unique _ _) as [r|] eqn:Hf; [| by apply runs_ret].
  apply find_unique_Some in Hf as [Hr Hu].
  destruct (waits r) eqn:Hw.
  - assert (interrupted r = false) as Hi.
    { destruct Hac as [_ _ _ _ _ _ Hp Hpr]. rewrite Forall_forall in Hp, Hpr.
      apply elem_of_app in Hr as [(_ & _ & [H _])%Hp|(_ & [H _] & _)%Hpr]; auto. }
    apply runs_bind. eapply runs_mono; [by eapply runs_interrupt_request |]. intros z fc' Hac'. cbn in Hac'.
    destruct (_ && _); [by apply runs_abort_request | by apply runs_ret].
  - destruct fatal; [by apply runs_abort_request | by apply runs_ret].
  - by apply runs_ret.
Qed.

(** ** Reading *)

Lemma runs_dev_read q nbytes ps fc :
  accounts q (set_pending ps fc) -> interrupts fc = [] ->
  runs (dev_read nbytes ps) fc (fun _ fc' => accounts q fc').
Proof.
  revert fc. induction ps as [|r ps IH]; intros fc Hac Hint; cbn [dev_read].
  - apply runs_bind, runs_modify. by apply runs_ret.
  - destruct (nbytes <? reqsize r).
    + apply runs_bind, runs_modify. apply IH; [| cbn; by rewrite Hint].
      apply (accounts_end q _ Hac r r _ _ ps (processing fc)); [done | done | | by left]. intros x Hx. by right.
    + apply runs_bind, runs_modify. apply runs_bind. destruct (isreply r) eqn:Hr.
      * apply runs_bind, runs_modify. pose proof (accounts_move q _ Hac r ps eq_refl Hr) as Hac'.
        change (accounts q (set_processing (processing fc ++ [r]) (set_pending ps fc))) in Hac'.
        destruct (interrupted r) eqn:Hi; [| by apply runs_ret, runs_ret].
        apply runs_queue_interrupt; [cbn; rewrite Hint; apply not_elem_of_nil |]. apply runs_ret.
        apply (accounts_queue_interrupt q _ Hac'); [cbn; rewrite Hint; apply not_elem_of_nil |].
        exists r. split; [apply elem_of_app; right; by left | done].
      * apply runs_modify, runs_ret.
        apply (accounts_end q _ Hac r r _ _ ps (processing fc)); [done | done | | by left]. intros x Hx. by right.
Qed.

Lemma runs_readv q fc nbytes :
  accounts q fc -> reqctr fc + 1 < 2 ^ 64 -> runs (fuse_dev_readv nbytes) fc (fun _ fc' => accounts q fc').
Proof.
  intros Hac Hlt. apply runs_bind, runs_get. destruct (negb _); [by apply runs_ret |].
  destruct (interrupts fc) as [|u us] eqn:Hints.
  - apply runs_dev_read; [| done]. by destruct fc.
  - apply runs_bind, runs_get. apply runs_bind, runs_modify, runs_ret. rewrite Hints.
    by apply accounts_read_interrupt.
Qed.

(** ** Writing *)

Lemma request_find_in u rs r : request_find u rs = Some r -> r ∈ rs /\ (unique r = u \/ intr_unique r = u).
Proof. apply (list_find_Some_in (fun r => unique r = u \/ intr_unique r = u)). Qed.

(** The request [r] has ended, and its reply is no longer than its room. *)
Definition ends_request (b : bytes) (fc fc' : fuse_conn) : Prop :=
  exists r err args,
    r ∈ processing fc /\ (unique r = field 8 8 b \/ aborted r = true /\ intr_unique r = field 8 8 b) /\
    -1000 < err <= 0 /\
    fc' = request_end r err args (set_processing (without_unique (unique r) (processing fc)) fc) /\
    (err = 0 -> Forall2 (fun a n => strlen a <= n) args (out_args (out r))).

(** The reply to an interrupt: interrupts are given up, or this one is to be sent again. *)
Definition answers_interrupt (b : bytes) (fc fc' : fuse_conn) : Prop :=
  exists r, r ∈ processing fc /\ intr_unique r = field 8 8 b /\
    (fc' = set_no_interrupt fc \/ fc' = set_interrupts (interrupts fc ++ [unique r]) fc).

(** The reply EAGAIN to an interrupt that is waiting to be sent again already. *)
Definition again_twice (b : bytes) (fc : fuse_conn) : Prop :=
  to_i32 (field 4 4 b) = - EAGAIN /\
  exists r, r ∈ processing fc /\ intr_unique r = field 8 8 b /\ unique r ∈ interrupts fc.

Lemma accounts_finish q fc r err args :
  accounts q fc -> r ∈ processing fc ->
  accounts q (request_end r err args (set_processing (without_unique (unique r) (processing fc)) fc)).
Proof.
  intros Hac Hr. pose proof (without_perm_unique r _ (distinct_processing q fc Hac) Hr) as Hp.
  apply (accounts_end q fc Hac r r _ _ (pending fc) (without_unique (unique r) (processing fc))); [done | | done |].
  - rewrite Hp at 1. by rewrite <- Permutation_middle.
  - by right.
Qed.

(** The write changes nothing. *)
Ltac nothing := right; eexists _, _; split; [reflexivity |]; auto.

Lemma writev_cases q fc b :
  accounts q fc ->
  (again_twice b fc /\ fuse_dev_writev b fc = UB) \/
  exists z fc', fuse_dev_writev b fc = Ret (z, fc') /\ accounts q fc' /\
    (fc' = fc \/ answers_interrupt b fc fc' \/ ends_request b fc fc').
Proof.
  intros Hac. unfold fuse_dev_writev. cbv zeta. destruct (strlen b <? sizeof_out_header); [nothing |].
  set (err := to_i32 (field 4 4 b)). match goal with |- context [?x || (err <=? -1000) || ?y || ?z] => destruct (x || (err <=? -1000) || y || z) eqn:E end;
    [nothing |].
  unfold mbind, M_bind. cbn [get]. destruct (negb (connected fc)); [nothing |].
  destruct (request_find _ _) as [r|] eqn:Hf; [| nothing].
  apply request_find_in in Hf as [Hr Hu]. destruct (aborted r) eqn:Hab.
  { right. eexists _, _. split; [reflexivity |]. split; [by apply accounts_finish |]. right. right.
    exists r, (- EINTR), []. split_and!; try done. destruct Hu; auto. }
  destruct (Z.eqb_spec (intr_unique r) (field 8 8 b)) as [Hi|Hi].
  - destruct (strlen b =? sizeof_out_header); cbn [negb]; [| nothing]. destruct (err =? - ENOSYS).
    { right. eexists _, _. split; [reflexivity |]. split; [by destruct Hac |]. right. left. exists r. auto. }
    destruct (Z.eqb_spec err (- EAGAIN)) as [He|]; [| nothing].
    unfold queue_interrupt, mbind, M_bind. cbn [get]. destruct (decide _) as [Hin|Hnin].
    + left. split; [| done]. split; [done |]. by exists r.
    + right. eexists _, _. split; [reflexivity |]. split; [| right; left; exists r; auto].
      apply (accounts_queue_interrupt q fc Hac); [done |]. exists r. split; [done |]. split; [done |].
      pose proof (ac_processing _ _ Hac) as Hp. rewrite Forall_forall in Hp. destruct (Hp r Hr) as (_ & _ & H).
      apply H. lia.
  - destruct Hu as [Hu|]; [| done]. right.
    destruct (copy_out_args _ _ _ _) as [args|] eqn:Hc; eexists _, _;
      (split; [reflexivity |]); (split; [by apply accounts_finish |]); right; right.
    + exists r, err, args. split_and!; [done | by left | lia | lia | done |]. intros Hz. rewrite Hz in Hc.
      eapply copy_out_args_fit; [exact Hc |]. pose proof (ac_processing _ _ Hac) as Hp. rewrite Forall_forall in Hp.
      by destruct (Hp r Hr) as (_ & [_ ?] & _).
    + exists r, (- EIO), []. split_and!; try done. by left.
Qed.

(** ** The end of the connection *)

Lemma end_pending q ps fc :
  accounts q (set_pending ps fc) -> accounts q (set_pending [] (end_requests ps fc)).
Proof.
  revert fc. induction ps as [|r ps IH]; intros fc Hac; [done |]. apply IH.
  apply (accounts_end q _ Hac r r _ _ ps (processing fc)); [done | done | by right | by left].
Qed.

Lemma end_processing q rs fc :
  accounts q (set_processing rs fc) -> accounts q (set_processing [] (end_requests rs fc)).
Proof.
  revert fc. induction rs as [|r rs IH]; intros fc Hac; [done |]. apply IH.
  apply (accounts_end q _ Hac r r _ _ (pending fc) rs); [done | | done | by right].
  cbn. by rewrite <- Permutation_middle.
Qed.

Lemma end_requests_fields rs fc :
  ended (end_requests rs fc) = ended fc ++ ((fun r => (r, - ECONNABORTED, [])) <$> rs) /\
  pending (end_requests rs fc) = pending fc /\ processing (end_requests rs fc) = processing fc /\
  connected (end_requests rs fc) = connected fc.
Proof.
  revert fc. induction rs as [|r rs IH]; intros fc; [by rewrite app_nil_r |].
  destruct (IH (request_end r (- ECONNABORTED) [] fc)) as (He & ? & ? & ?). split_and!; try done.
  cbn [end_requests foldl]. fold (end_requests rs (request_end r (- ECONNABORTED) [] fc)). rewrite He. cbn. by rewrite <- app_assoc.
Qed.

Lemma accounts_release q fc : accounts q fc -> accounts q (fuse_dev_release fc).
Proof.
  intros Hac. apply end_processing.
  assert (accounts q (set_pending [] (end_requests (pending fc) (set_disconnected fc)))) as H
    by (apply end_pending; by destruct Hac).
  by destruct H.
Qed.

(** ** Runs *)

Lemma accounts_ended_only q fc r e :
  accounts q fc -> unique r = 0 -> accounts q (set_ended (ended fc ++ [(r, e, [])]) fc).
Proof.
  intros [Hq Hnd Hrg Hc Hints Hqd Hp Hpr] Hr. split; try done. cbn [pending processing set_ended].
  unfold ended_numbers. cbn [ended set_ended]. rewrite fmap_app, nonzero_app. cbn. rewrite Hr. cbn.
  by rewrite app_nil_r.
Qed.

Lemma interrupts_nonzero q fc : accounts q fc -> nonzero (interrupts fc) = interrupts fc.
Proof.
  intros Hac. pose proof (ac_queued _ _ Hac) as H. unfold nonzero.
  induction H as [|u us (r & Hr & <- & _) _ IH]; [done |]. rewrite filter_cons_True, IH; [done |].
  apply (account_nonzero q fc Hac), elem_of_app. by right.
Qed.

Lemma new_req_ok uid gid pid io isreply force w : room_ok io -> pending_ok (new_req uid gid pid io isreply force w).
Proof. intros Hio. split; [done |]. split; [done |]. by split. Qed.

Lemma accounts_step q fc l fc' :
  accounts q fc -> reqctr fc + 1 < 2 ^ 64 -> dev_step fc l fc' -> accounts (q ++ l) fc'.
Proof.
  intros Hac Hlt Hstep.
  destruct Hstep as [uid gid pid io force Hio|uid gid pid io isreply Hio|u fatal fc' E|nbytes m fc' E|b z fc' E| | |];
    rewrite ?app_nil_r.
  - unfold request_send. destruct (connected fc); cbn [andb negb].
    2:{ rewrite app_nil_r. by apply accounts_ended_only. }
    destruct (conn_error fc); cbn [andb negb]; [rewrite app_nil_r; by apply accounts_ended_only |].
    apply accounts_queue; [done | done | by apply new_req_ok].
  - unfold request_send_nowait. destruct (connected fc).
    + apply accounts_queue; [done | done | by apply new_req_ok].
    + rewrite app_nil_r. unfold request_end. cbn [unique new_req]. fold (nonzero (interrupts fc)).
      rewrite (interrupts_nonzero q fc Hac). destruct fc. by apply (accounts_ended_only q _ _ _ Hac).
  - pose proof (runs_wait_answer q fc u fatal Hac) as H. unfold runs in H. by rewrite E in H.
  - pose proof (runs_readv q fc nbytes Hac Hlt) as H. unfold runs in H. by rewrite E in H.
  - destruct (writev_cases q fc b Hac) as [[_ E']|(z' & fc'' & E' & ? & _)]; rewrite E' in E; by simplify_eq.
  - by destruct Hac.
  - by apply accounts_release.
  - unfold fuse_abort_conn. destruct (connected fc); [by apply accounts_release | done].
Qed.

Lemma accounts_reachable q fc : dev_reachable q fc -> accounts q fc.
Proof.
  induction 1 as [|q fc l fc' _ IH Hlt Hstep]; [| by eapply accounts_step].
  split; first [done | constructor].
Qed.

(** C9. At the device of the kernel, after any sequence of queued requests,
    reads, writes and signals that are defined, every request that was queued is
    in exactly one place, waiting to be read, waiting for its reply or ended;
    the numbers of requests and of interrupts are all different, and an
    interrupt is only waiting for a request that was read and not answered. From
    there, as long as a 64-bit number is left, every read and every signal is
    defined and leads to such a state again, and so does every write, which does
    nothing, answers an interrupt, or ends the one request that it names, except
    one: a second EAGAIN for an interrupt that waits to be sent again puts it
    twice into a list, which is undefined. *)
Theorem device_accounts q fc :
  dev_reachable q fc ->
  (q ≡ₚ (unique <$> pending fc) ++ (unique <$> processing fc) ++ ended_numbers fc /\
   NoDup (q ++ intr_numbers (processing fc)) /\ Forall (fun u => 0 < u <= reqctr fc) q /\
   NoDup (interrupts fc) /\ Forall (queued_ok (processing fc)) (interrupts fc)) /\
  (reqctr fc + 1 < 2 ^ 64 ->
   (forall nbytes, exists m fc', fuse_dev_readv nbytes fc = Ret (m, fc') /\ dev_reachable q fc') /\
   (forall u fatal, exists fc', request_wait_answer u fatal fc = Ret (tt, fc') /\ dev_reachable q fc') /\
   forall b, (again_twice b fc /\ fuse_dev_writev b fc = UB) \/
     exists z fc', fuse_dev_writev b fc = Ret (z, fc') /\ dev_reachable q fc' /\
       (fc' = fc \/ answers_interrupt b fc fc' \/ ends_request b fc fc')).
Proof.
  intros Hfc. pose proof (accounts_reachable q fc Hfc) as Hac. split.
  { destruct Hac as [Hq Hnd Hrg Hc Hints Hqd Hp Hpr]. apply Forall_app in Hrg as [Hrg _]. by split_and!. }
  intros Hlt. assert (forall fc', dev_step fc [] fc' -> dev_reachable q fc') as Hstep.
  { intros fc' H. rewrite <- (app_nil_r q). by eapply dev_run. }
  split_and!.
  - intros nbytes. pose proof (runs_readv q fc nbytes Hac Hlt) as (m & fc' & E & _)%runs_eq.
    exists m, fc'. split; [done |]. by eapply Hstep, dev_readv.
  - intros u fatal. pose proof (runs_wait_answer q fc u fatal Hac) as ([] & fc' & E & _)%runs_eq.
    exists fc'. split; [done |]. by eapply Hstep, dev_signal.
  - intros b. destruct (writev_cases q fc b Hac) as [?|(z & fc' & E & _ & H)]; [by left | right].
    exists z, fc'. split; [done |]. split; [by eapply Hstep, dev_writev | done].
Qed.

(** When a connection is aborted no caller waits on: every request that was
    queued has ended, those that were waiting with ECONNABORTED, later requests
    end at once with ENOTCONN, and reads and writes of the device fail and
    change nothing. *)
Theorem connection_ends q fc :
  dev_reachable q fc -> connected fc = true ->
  let fc' := fuse_abort_conn fc in
  pending fc' = [] /\ processing fc' = [] /\ interrupts fc' = [] /\ q ≡ₚ ended_numbers fc' /\
  ended fc' = ended fc ++ ((fun r => (r, - ECONNABORTED, [])) <$> pending fc ++ processing fc) /\
  (forall uid gid pid io force, exists r, request_send uid gid pid io force fc'
    = set_ended (ended fc' ++ [(r, - ENOTCONN, [])]) fc') /\
  (forall nbytes, fuse_dev_readv nbytes fc' = Ret (inl (- ENODEV), fc')) /\
  forall b, exists z, z < 0 /\ fuse_dev_writev b fc' = Ret (z, fc').
Proof.
  intros Hac%accounts_reachable Hconn. cbv zeta. unfold fuse_abort_conn. rewrite Hconn.
  set (fc' := fuse_dev_release fc). pose proof (accounts_release q fc Hac) as Hac'. fold fc' in Hac'.
  destruct (end_requests_fields (pending fc) (set_disconnected fc)) as (He1 & _ & Hpr1 & Hc1).
  destruct (end_requests_fields (processing fc) (set_pending [] (end_requests (pending fc) (set_disconnected fc))))
    as (He2 & Hp2 & Hpr2 & Hc2).
  assert (fc' = set_processing [] (end_requests (processing fc)
            (set_pending [] (end_requests (pending fc) (set_disconnected fc))))) as Hfc.
  { unfold fc', fuse_dev_release. f_equal. f_equal. cbn. by rewrite Hpr1. }
  assert (connected fc' = false) as Hd by (rewrite Hfc; cbn; by rewrite Hc2; cbn; rewrite Hc1).
  assert (pending fc' = []) as Hp by (rewrite Hfc; cbn; by rewrite Hp2).
  assert (processing fc' = []) as Hpr by (by rewrite Hfc).
  split; [done |]. split; [done |]. split; [| split; [| split; [| split_and!]]].
  - destruct (interrupts fc') as [|u us] eqn:E; [done |]. pose proof (ac_queued _ _ Hac') as H.
    rewrite E in H. inversion_clear H as [|? ? (r & Hr & _)]. rewrite Hpr in Hr. by apply elem_of_nil in Hr.
  - pose proof (ac_requests _ _ Hac') as H. by rewrite Hp, Hpr in H.
  - rewrite Hfc. cbn. rewrite He2. cbn. by rewrite He1, fmap_app, <- app_assoc.
  - intros uid gid pid io force. unfold request_send. rewrite Hd. cbn. by eexists.
  - intros nbytes. unfold fuse_dev_readv, mbind, M_bind. cbn [get]. by rewrite Hd.
  - intros b. unfold fuse_dev_writev. destruct (strlen b <? _); [by exists (- EINVAL) |]. cbv zeta.
    match goal with |- context [if ?c then mret _ else _] => destruct c end; [by exists (- EINVAL) |].
    unfold mbind, M_bind. cbn [get]. rewrite Hd. by exists (- ENOENT).
Qed.

(** * Instances *)

(** A lookup is sent and read; a signal reaches its caller; the interrupt is read, as
    request 2; the library asks for it again, twice. *)
Definition lookup_io : fuse_in * fuse_out := fuse_lookup_init 1 (B "a").
Definition conn1 : fuse_conn := request_send 1000 100 4321 lookup_io false new_conn.
Definition conn2 : fuse_conn := after (fuse_dev_readv 8192) conn1.
Definition conn3 : fuse_conn := after (request_wait_answer 1 false) conn2.
Definition conn4 : fuse_conn := after (fuse_dev_readv 8192) conn3.
Definition again_reply : bytes := u32 16 ++ u32 (- EAGAIN) ++ u64 2.
Definition conn5 : fuse_conn := after (fuse_dev_writev again_reply) conn4.

Lemma conn5_reachable : dev_reachable [1] conn2 /\ dev_reachable [1] conn5.
Proof.
  assert (dev_reachable ([] ++ [1]) conn1) as H1.
  { apply (dev_run [] new_conn [1] conn1 dev_new); [reflexivity |].
    apply (dev_send new_conn 1000 100 4321 lookup_io false). repeat constructor. discriminate. }
  assert (dev_reachable (([] ++ [1]) ++ []) conn2) as H2.
  { apply (dev_run _ conn1 [] conn2 H1); [reflexivity |].
    eapply (dev_readv conn1 8192). vm_compute. reflexivity. }
  split; [exact H2 |].
  apply (dev_run [1] conn4 [] conn5); [| reflexivity |].
  2:{ eapply (dev_writev conn4 again_reply). vm_compute. reflexivity. }
  apply (dev_run [1] conn3 [] conn4); [| reflexivity |].
  2:{ eapply (dev_readv conn3 8192). vm_compute. reflexivity. }
  apply (dev_run [1] conn2 [] conn3); [exact H2 | reflexivity |].
  apply (dev_signal conn2 1 false). vm_compute. reflexivity.
Qed.

(** A library that answers the same interrupt twice with EAGAIN makes the
    kernel put a list entry into a list that holds it already. *)
Theorem second_again_corrupts :
  dev_reachable [1] conn5 /\ fuse_dev_writev again_reply conn5 = UB.
Proof. split; [apply conn5_reachable | by vm_compute]. Qed.

Lemma device_accounts_witness :
  dev_reachable [1] conn5 /\ interrupts conn5 = [1] /\
  [1] ≡ₚ (unique <$> pending conn5) ++ (unique <$> processing conn5) ++ ended_numbers conn5 /\
  (exists fc', request_wait_answer 1 true conn5 = Ret (tt, fc') /\ dev_reachable [1] fc') /\
  fuse_dev_writev again_reply conn5 = UB.
Proof.
  split; [apply conn5_reachable |]. split; [reflexivity |].
  destruct (device_accounts [1] conn5) as [(H1 & _) H2]; [apply conn5_reachable |].
  destruct H2 as (_ & H3 & H4); [reflexivity |]. split; [exact H1 |]. split; [apply H3 |].
  destruct (H4 again_reply) as [[_ H]|(z & fc' & H & _)]; [exact H |]. by vm_compute in H.
Defined.

Lemma connection_ends_witness :
  dev_reachable [1] conn2 /\ processing (fuse_abort_conn conn2) = [] /\
  exists r, ended (fuse_abort_conn conn2) = [(r, - ECONNABORTED, [])].
Proof.
  split; [apply conn5_reachable |]. split; [| by eexists].
  apply (connection_ends [1] conn2); [apply conn5_reachable | reflexivity].
Defined.
