(* ===== verification/FuseSessionProps.v ===== *)
(** The requests that the FUSE library holds: each one that it reads is answered
    once, none is used after it is freed and none is lost; who may ask for what; and
    the limits that the first message sets. *)

From S2P Require Import Prelude.
From S2P Require Import CString.
From S2P Require Import FuseDir.
From S2P Require Import FuseWire.
From S2P Require Import FuseDevice.
From S2P Require Import FuseLowlevel.
From S2P Require Import FuseWireProps.

(** * The account of the requests *)

(** The numbers of the messages that were read, with their operations; [held] are
    requests that are in neither list for the moment. *)
Definition log : Type := list (Z * Z).

(** The numbers of the requests that are held. *)
Definition uniques (h : gmap nat fuse_req) (l : list nat) : list Z := omap (fun a => unique <$> h !! a) l.

Definition waiting (held : list nat) (f : fuse_ll) : list Z :=
  uniques (heap f) (held ++ requests f ++ interrupts f).

#[export] Instance uniques_perm h : Proper ((≡ₚ) ==> (≡ₚ)) (uniques h).
Proof. intros l l' H. unfold uniques. by rewrite H. Qed.

Lemma uniques_ext h h' l :
  (forall a, a ∈ l -> unique <$> h !! a = unique <$> h' !! a) -> uniques h l = uniques h' l.
Proof.
  induction l as [|a l IH]; intros Hl; [done |]. unfold uniques in *. cbn. rewrite Hl by (by left).
  rewrite IH by (intros; apply Hl; by right). done.
Qed.

Lemma uniques_cons h a l r : h !! a = Some r -> uniques h (a :: l) = unique r :: uniques h l.
Proof. intros Ha. unfold uniques. cbn. by rewrite Ha. Qed.

(** What needs no answer. *)
Definition silent (rec : log) (u : Z) : Prop := (FUSE_FORGET, u) ∈ rec \/ (FUSE_INTERRUPT, u) ∈ rec.

Lemma silent_app rec rec' u : silent rec u -> silent (rec ++ rec') u.
Proof. intros [?|?]; [left | right]; apply elem_of_app; by left. Qed.

Section Account.
(** Requests that need no answer. *)
Context (quiet : list nat).

Record inv (rec : log) (held : list nat) (f : fuse_ll) : Prop := Inv {
  inv_nodup : NoDup (held ++ requests f ++ interrupts f);
  inv_heap : forall a, a ∈ held ++ requests f ++ interrupts f <-> is_Some (heap f !! a);
  inv_req : forall a r, heap f !! a = Some r -> ctr r = 1 /\ (a < brk f)%nat /\ fits 8 (unique r);
  inv_intr : forall a r, a ∈ interrupts f -> heap f !! a = Some r -> (FUSE_INTERRUPT, unique r) ∈ rec;
  inv_quiet : forall a, a ∈ quiet -> (a < brk f)%nat /\ forall r, heap f !! a = Some r -> silent rec (unique r);
  inv_account : exists drop, rec.*2 ≡ₚ (field 8 8 <$> sent f) ++ waiting held f ++ drop /\
    Forall (silent rec) drop }.

(** The lists only matter up to order. *)
Lemma waiting_perm held held' f f' :
  held ++ requests f ++ interrupts f ≡ₚ held' ++ requests f' ++ interrupts f' ->
  heap f' = heap f -> waiting held f ≡ₚ waiting held' f'.
Proof. unfold waiting. intros Hp ->. by rewrite Hp. Qed.

Lemma inv_lists rec held held' f f' :
  inv rec held f ->
  held ++ requests f ++ interrupts f ≡ₚ held' ++ requests f' ++ interrupts f' ->
  heap f' = heap f -> brk f' = brk f -> sent f' = sent f ->
  (forall a r, a ∈ interrupts f' -> a ∉ interrupts f -> heap f !! a = Some r -> (FUSE_INTERRUPT, unique r) ∈ rec) ->
  inv rec held' f'.
Proof.
  intros [Hnd Hh Hr Hi Hq (drop & Hacc & Hd)] Hp Hheap Hbrk Hsent Hnew. split.
  - by rewrite <- Hp.
  - intros a. by rewrite <- Hp, Hheap.
  - intros a r. rewrite Hheap, Hbrk. apply Hr.
  - intros a r Ha. rewrite Hheap. destruct (decide (a ∈ interrupts f)); eauto.
  - intros a. rewrite Hheap, Hbrk. apply Hq.
  - exists drop. split; [| done]. rewrite Hacc, Hsent. f_equiv. f_equiv. by apply waiting_perm.
Qed.

(** A change of a request that keeps its number and its count. *)
Lemma inv_update rec held f a r r' :
  inv rec held f -> heap f !! a = Some r -> unique r' = unique r -> ctr r' = ctr r ->
  inv rec held (set_heap (<[a := r']> (heap f)) f).
Proof.
  intros [Hnd Hh Hr Hi Hq (drop & Hacc & Hd)] Ha Hu Hc.
  assert (forall b, unique <$> (<[a := r']> (heap f)) !! b = unique <$> heap f !! b) as Hun.
  { intros b. destruct (decide (a = b)) as [<-|]; [by rewrite lookup_insert_eq, Ha; cbn; rewrite Hu |].
    by rewrite lookup_insert_ne. }
  split; cbn [heap requests interrupts set_heap brk sent].
  - done.
  - intros b. rewrite Hh. destruct (decide (a = b)) as [<-|].
    + rewrite lookup_insert_eq, Ha. by split; eexists.
    + by rewrite lookup_insert_ne.
  - intros b s Hs. destruct (decide (a = b)) as [<-|].
    + rewrite lookup_insert_eq in Hs. injection Hs as <-. destruct (Hr a r Ha) as (? & ? & ?).
      rewrite Hu, Hc. done.
    + rewrite lookup_insert_ne in Hs by done. by apply Hr.
  - intros b s Hb Hs. destruct (decide (a = b)) as [<-|].
    + rewrite lookup_insert_eq in Hs. injection Hs as <-. rewrite Hu. by apply (Hi a r).
    + rewrite lookup_insert_ne in Hs by done. by apply (Hi b s).
  - intros b Hb. destruct (Hq b Hb) as [? Hs]. split; [done |]. intros s. destruct (decide (a = b)) as [<-|].
    + rewrite lookup_insert_eq. intros [= <-]. rewrite Hu. by apply Hs.
    + rewrite lookup_insert_ne by done. apply Hs.
  - exists drop. split; [| done]. rewrite Hacc. cbn [sent set_heap]. f_equiv. f_equiv.
    unfold waiting. cbn [heap requests interrupts set_heap]. by rewrite (uniques_ext (heap f) (<[a := r']> (heap f))).
Qed.

(** ** A request that is freed *)

Definition without (a : nat) (l : list nat) : list nat := filter (.≠ a) l.

Lemma without_notin a l : a ∉ l -> without a l = l.
Proof.
  unfold without. induction l as [|b l IH]; [done |]. rewrite not_elem_of_cons. intros [? ?].
  rewrite filter_cons_True by done. by rewrite IH.
Qed.

Lemma without_perm a l : NoDup l -> a ∈ l -> l ≡ₚ a :: without a l.
Proof.
  induction l as [|b l IH]; [by rewrite elem_of_nil |].
  rewrite NoDup_cons, elem_of_cons. intros [Hb Hnd] [->|Ha].
  - assert (without b (b :: l) = without b l) as -> by (unfold without; by rewrite filter_cons_False by auto).
    by rewrite (without_notin b l).
  - assert (without a (b :: l) = b :: without a l) as ->
      by (unfold without; by rewrite filter_cons_True by (intros ->; done)).
    rewrite (IH Hnd Ha) at 1. apply Permutation_swap.
Qed.

Lemma without_app a l k : without a (l ++ k) = without a l ++ without a k.
Proof. apply filter_app. Qed.

(** The state without the request [a], with the messages [sent']. *)
Lemma inv_remove rec held f a r f' :
  inv rec held f -> heap f !! a = Some r ->
  heap f' = delete a (heap f) -> brk f' = brk f -> requests f' = without a (requests f) ->
  interrupts f' = without a (interrupts f) ->
  ((sent f' = sent f /\ silent rec (unique r)) \/
   exists b, sent f' = sent f ++ [b] /\ field 8 8 b = unique r) ->
  inv rec (without a held) f'.
Proof.
  intros [Hnd Hh Hr Hi Hq (drop & Hacc & Hd)] Ha Hheap Hbrk Hreq Hint Hsent.
  set (l := held ++ requests f ++ interrupts f) in *.
  assert (without a held ++ requests f' ++ interrupts f' = without a l) as Hl.
  { unfold l. by rewrite !without_app, Hreq, Hint. }
  assert (a ∈ l) as Hin by (apply Hh; by eexists).
  assert (NoDup (without a l)) as Hnd' by by apply NoDup_filter.
  assert (waiting held f ≡ₚ unique r :: waiting (without a held) f') as Hw.
  { unfold waiting. fold l. rewrite Hl, Hheap.
    transitivity (uniques (heap f) (a :: without a l)); [by rewrite <- (without_perm a l Hnd Hin) |].
    rewrite (uniques_cons _ _ _ _ Ha). f_equiv. rewrite (uniques_ext (heap f) (delete a (heap f))); [done |].
    intros b [Hne _]%list_elem_of_filter. by rewrite lookup_delete_ne. }
  split.
  - by rewrite Hl.
  - intros b. rewrite Hl, Hheap. unfold without. rewrite list_elem_of_filter, Hh.
    destruct (decide (a = b)) as [<-|].
    + rewrite lookup_delete_eq. split; [by intros [? _] | by intros []].
    + rewrite lookup_delete_ne by done. naive_solver.
  - intros b s. rewrite Hheap, Hbrk. intros [_ Hs]%lookup_delete_Some. by apply Hr.
  - intros b s. rewrite Hheap, Hint. intros [_ Hb]%list_elem_of_filter [_ Hs]%lookup_delete_Some. by apply (Hi b).
  - intros b Hb. rewrite Hheap, Hbrk. destruct (Hq b Hb) as [? Hs]. split; [done |].
    intros s [_ ?]%lookup_delete_Some. by apply Hs.
  - destruct Hsent as [[-> Hsil]|(b & -> & Hb)].
    + exists (unique r :: drop). split; [| by constructor]. rewrite Hacc, Hw.
      f_equiv. cbn. apply Permutation_middle.
    + exists drop. split; [| done]. rewrite Hacc, Hw, fmap_app. cbn. rewrite Hb, <- app_assoc. cbn. done.
Qed.

Lemma inv_held_notin rec a held f :
  inv rec (a :: held) f -> (a ∉ held) /\ (a ∉ requests f) /\ (a ∉ interrupts f).
Proof. intros [Hnd _ _ _ _ _]. cbn in Hnd. rewrite NoDup_cons, !elem_of_app in Hnd. tauto. Qed.

Lemma without_head a held : a ∉ held -> without a (a :: held) = held.
Proof. intros Ha. unfold without. rewrite filter_cons_False by auto. by apply without_notin. Qed.

(** A held request that needs no answer. *)
Lemma inv_free rec held f a r :
  inv rec (a :: held) f -> heap f !! a = Some r -> silent rec (unique r) ->
  inv rec held (set_heap (delete a (heap f)) f).
Proof.
  intros Hinv Ha Hs. destruct (inv_held_notin _ _ _ _ Hinv) as (Hh & Hr & Hi).
  rewrite <- (without_head a held Hh). eapply inv_remove; try done.
  - cbn. by rewrite without_notin.
  - cbn. by rewrite without_notin.
  - by left.
Qed.

(** ** A new request *)

Lemma field_fits n pos b : fits n (field n pos b).
Proof.
  unfold field, fits. assert (forall l, 0 <= le_value l < 256 ^ strlen l) as H.
  { induction l as [|c l IH]; [done |]. rewrite strlen_cons, Z.pow_add_r by (done || apply strlen_nonneg).
    cbn [le_value]. pose proof (code_range c). lia. }
  specialize (H (take n (drop pos b))). split; [lia |].
  eapply Z.lt_le_trans; [apply H |]. apply Z.pow_le_mono_r; [done |]. unfold strlen.
  rewrite length_take. lia.
Qed.

Lemma inv_new rec held f r op f' :
  inv rec held f -> ctr r = 1 -> fits 8 (unique r) ->
  heap f' = <[brk f := r]> (heap f) -> brk f' = S (brk f) -> requests f' = requests f ->
  interrupts f' = interrupts f -> sent f' = sent f ->
  inv (rec ++ [(op, unique r)]) (brk f :: held) f'.
Proof.
  intros [Hnd Hh Hr Hi Hq (drop & Hacc & Hd)] Hc Hf Hheap Hbrk Hreq Hint Hsent.
  assert (heap f !! brk f = None) as Hfresh.
  { destruct (heap f !! brk f) as [s|] eqn:E; [| done]. destruct (Hr _ _ E) as (_ & ? & _). lia. }
  assert (brk f ∉ held ++ requests f ++ interrupts f) as Hnew by (rewrite Hh, Hfresh; by intros []).
  split; cbn [app]; rewrite ?Hreq, ?Hint.
  - by constructor.
  - intros a. rewrite elem_of_cons, Hh, Hheap. destruct (decide (a = brk f)) as [->|].
    + rewrite lookup_insert_eq. split; [by eexists | by left].
    + rewrite lookup_insert_ne by done. tauto.
  - intros a s. rewrite Hheap, Hbrk. destruct (decide (a = brk f)) as [->|].
    + rewrite lookup_insert_eq. intros [= <-]. auto with lia.
    + rewrite lookup_insert_ne by done. intros (? & ? & ?)%Hr. auto with lia.
  - intros a s Ha. rewrite Hheap. destruct (decide (a = brk f)) as [->|].
    + destruct Hnew. rewrite !elem_of_app. auto.
    + rewrite lookup_insert_ne by done. intros Hs. apply elem_of_app. left. by apply (Hi a).
  - intros a Ha. rewrite Hheap, Hbrk. destruct (Hq a Ha) as [? Hs]. split; [lia |]. intros s.
    rewrite lookup_insert_ne by lia. intros ?%Hs. by apply silent_app.
  - exists drop. split.
    + rewrite fmap_app, Hacc, Hsent. cbn [fmap list_fmap snd]. unfold waiting. cbn [app].
      rewrite Hreq, Hint, Hheap, (uniques_cons _ _ _ r) by apply lookup_insert_eq.
      rewrite (uniques_ext (<[brk f := r]> (heap f)) (heap f)).
      2:{ intros a Ha. rewrite lookup_insert_ne; [done |]. by intros <-. }
      rewrite <- !app_assoc. f_equiv. rewrite (app_assoc _ drop), <- Permutation_cons_append. done.
    + eapply Forall_impl; [exact Hd |]. intros u ?. by apply silent_app.
Qed.

(** * The operations on requests *)

Create HintDb decoders.

Section Session.
Context (alloc_ok : nat -> bool) (chan_send : nat -> Z) (chan_bufsize : Z).
Context (op : lowlevel_op -> bool) (op_init : fuse_conn_info -> fuse_conn_info).

Lemma returns_load req f (Q : fuse_req -> fuse_ll -> Prop) :
  (forall r, heap f !! req = Some r -> Q r f) -> returns (load req) f Q.
Proof.
  intros HQ. apply returns_bind, returns_get. destruct (heap f !! req) eqn:E; [| done].
  by apply returns_ret, HQ.
Qed.

Lemma returns_update req g f (Q : unit -> fuse_ll -> Prop) :
  (forall r, heap f !! req = Some r -> Q tt (set_heap (<[req := g r]> (heap f)) f)) ->
  returns (update req g) f Q.
Proof. intros HQ. apply returns_bind, returns_load. intros r Hr. by apply returns_modify, HQ. Qed.

Lemma returns_free req f (Q : unit -> fuse_ll -> Prop) :
  (forall r, heap f !! req = Some r -> Q tt (set_heap (delete req (heap f)) f)) -> returns (free req) f Q.
Proof. intros HQ. apply returns_bind, returns_load. intros r Hr. by eapply returns_modify, HQ. Qed.

(** After a reply, or after [free_req] of what needs none, a request is gone. *)
Definition gone (rec : log) (req : nat) (held : list nat) (f f' : fuse_ll) : Prop :=
  inv rec (without req held) f' /\ requests f' = without req (requests f) /\ heap f' = delete req (heap f).

Lemma returns_send_reply rec held req error arg f :
  inv rec held f -> returns (send_reply chan_send req error arg) f (fun _ => gone rec req held f).
Proof.
  intros Hinv. unfold send_reply. set (error' := if _ : bool then _ else _). clearbody error'.
  apply returns_bind, returns_load. intros r Hr. destruct (inv_req _ _ _ Hinv _ _ Hr) as (Hc & _ & Hu).
  apply returns_bind, returns_get. apply returns_bind, returns_modify. apply returns_bind.
  eapply returns_runs, runs_free_req; [by split |]. apply returns_ret. split; [| by split].
  eapply inv_remove; try done. right. eexists. split; [reflexivity |].
  unfold fuse_out_header. by wire.
Qed.

Lemma returns_reply_none rec held req f r :
  inv rec held f -> heap f !! req = Some r -> silent rec (unique r) ->
  returns (fuse_reply_none req) f (fun _ => gone rec req held f).
Proof.
  intros Hinv Hr Hs. destruct (inv_req _ _ _ Hinv _ _ Hr) as (Hc & _ & Hu).
  apply returns_bind, returns_load. intros r' Hr'. simplify_eq.
  eapply returns_runs, runs_free_req; [by split |]. split; [| by split].
  eapply inv_remove; try done. by left.
Qed.

(** ** The decoders *)

Definition is_forget (c : ll_call) : bool := match c with Forget _ _ => true | _ => false end.

(** A decoder leaves the request to the operation that it calls, or has ended it. *)
Definition served (rec : log) (req : nat) (u : Z) (f : fuse_ll) (c : option ll_call) (f' : fuse_ll) : Prop :=
  match c with
  | Some call => f' = f /\ (is_forget call = true -> silent rec u)
  | None => gone rec req [] f f'
  end.

Lemma returns_string_at pos buf f (Q : bytes * nat -> fuse_ll -> Prop) :
  (forall s, Q s f) -> returns (string_at pos buf) f Q.
Proof. intros HQ. unfold string_at. destruct (decide _); [by apply returns_ret | done]. Qed.

Lemma returns_data_at pos n buf f (Q : bytes -> fuse_ll -> Prop) :
  (forall d, Q d f) -> returns (data_at pos n buf) f Q.
Proof. intros HQ. apply returns_bind, returns_assert. by apply returns_ret. Qed.

Lemma returns_do_op rec req u o m f :
  inv rec [] f -> returns m f (fun c f' => f' = f /\ is_forget c = false) ->
  returns (do_op chan_send op req o m) f (served rec req u f).
Proof.
  intros Hinv Hm. unfold do_op. destruct (op o).
  - apply returns_bind. eapply returns_mono; [exact Hm |]. intros c f' [-> Hc]. apply returns_ret.
    split; [done |]. by rewrite Hc.
  - apply returns_bind. eapply returns_mono; [by apply returns_send_reply |].
    intros z f' ?. by apply returns_ret.
Qed.

Ltac session_step :=
  lazymatch goal with
  | |- returns (mret _) _ _ => apply returns_ret
  | |- returns (_ ← _; _) _ _ => apply returns_bind
  | |- returns get _ _ => apply returns_get
  | |- returns (holds _ _ _) _ _ => apply returns_assert
  | |- returns (do_op _ _ _ _ _) _ _ => apply returns_do_op; [done |]
  | |- returns (do_name_op _ _ _ _ _ _) _ _ => apply returns_do_op; [done |]
  | |- returns (string_at _ _) _ _ => apply returns_string_at; intros ?
  | |- returns (data_at _ _ _) _ _ => apply returns_data_at; intros ?
  | |- returns (if op ?o then _ else _) _ _ => destruct (op o)
  | |- returns (fuse_reply_err _ _ _) _ _ => eapply returns_mono; [by apply returns_send_reply | intros ? ? ?]
  | |- returns (fuse_reply_open _ _ _) _ _ => eapply returns_mono; [by apply returns_send_reply | intros ? ? ?]
  | |- returns (send_reply_ok _ _ _) _ _ => eapply returns_mono; [by apply returns_send_reply | intros ? ? ?]
  | |- returns (fuse_reply_statfs _ _ _) _ _ => unfold fuse_reply_statfs
  end.

Ltac session := repeat (cbv zeta; session_step); try done.

Lemma returns_do_forget rec req nodeid inarg f r :
  inv rec [] f -> heap f !! req = Some r -> (FUSE_FORGET, unique r) ∈ rec ->
  returns (do_forget op req nodeid inarg) f (served rec req (unique r) f).
Proof.
  intros Hinv Hr Hrec. unfold do_forget. session.
  - split; [done |]. intros _. by left.
  - eapply returns_mono; [eapply returns_reply_none; [done.. | by left] |]. intros z f' ?. by apply returns_ret.
Qed.

Lemma returns_find_req p rs f (Q : option nat -> fuse_ll -> Prop) :
  (forall c, (forall a, c = Some a -> a ∈ rs) -> Q c f) -> returns (find_req p rs) f Q.
Proof.
  revert Q. induction rs as [|a rs IH]; intros Q HQ; cbn [find_req].
  - by apply returns_ret, HQ.
  - apply returns_bind, returns_load. intros r Hr. destruct (p r).
    + apply returns_ret, HQ. intros ? [= <-]. by left.
    + apply IH. intros c Hc. apply HQ. intros b Hb. right. by apply Hc.
Qed.

(** *** Interrupts *)

Lemma returns_find_interrupted rec held req f r :
  inv rec held f -> heap f !! req = Some r ->
  returns (find_interrupted req) f (fun _ f' =>
    inv rec held f' /\ requests f' = requests f /\ brk f' = brk f /\
    exists r', heap f' !! req = Some r' /\ unique r' = unique r).
Proof.
  intros Hinv Hr. unfold find_interrupted. apply returns_bind, returns_get.
  apply returns_bind, returns_load. intros r0 Hr0. simplify_eq. apply returns_bind, returns_find_req.
  intros [curr|] _.
  - apply returns_bind, returns_load. intros c Hc. destruct (inv_req _ _ _ Hinv _ _ Hc) as (Hctr & _).
    apply returns_bind, returns_update. intros r1 H1. simplify_eq.
    do 2 (apply returns_bind, returns_update; cbn [heap set_heap]; rewrite lookup_insert_eq;
          intros ? [= <-]; rewrite insert_insert_eq).
    replace (ctr c =? 0) with false by lia. apply returns_bind, returns_ret, returns_ret.
    split; [by eapply (inv_update rec held f curr c) |]. split; [done |]. split; [done |].
    destruct (decide (curr = req)) as [->|]; cbn [heap set_heap].
    + simplify_eq. rewrite lookup_insert_eq. by eexists.
    + rewrite lookup_insert_ne by done. eauto.
  - apply returns_bind, returns_find_req. intros c _. apply returns_ret. do 3 (split; [done |]). eauto.
Qed.

Lemma returns_do_interrupt rec req nodeid inarg f r :
  inv rec [req] f -> heap f !! req = Some r -> (FUSE_INTERRUPT, unique r) ∈ rec ->
  returns (do_interrupt req nodeid inarg) f (fun c f' =>
    c = None /\ inv rec [] f' /\ requests f' = requests f).
Proof.
  intros Hinv Hr Hrec. unfold do_interrupt. session. apply returns_update. intros r0 Hr0. simplify_eq.
  apply returns_bind. eapply returns_mono.
  { eapply returns_find_interrupted; [by eapply inv_update | apply lookup_insert_eq]. }
  intros found f' (Hinv' & Hreq & _ & r' & Hr' & Hu). change (unique (set_interrupts_unique _ _)) with (unique r) in Hu.
  apply returns_bind. destruct found.
  - apply returns_free. intros r'' Hr''. simplify_eq. apply returns_ret. split; [done |]. split; [| done].
    eapply inv_free; [done.. |]. right. by rewrite Hu.
  - apply returns_modify, returns_ret. split; [done |]. split; [| done].
    eapply inv_lists; [exact Hinv' | | done.. |].
    + cbn. rewrite app_assoc. apply Permutation_cons_append.
    + intros a s [Ha|Ha%list_elem_of_singleton]%elem_of_app Hn Hs; [done |]. subst. simplify_eq. by rewrite Hu.
Qed.

(** A waiting interrupt is taken out of its list. *)
Lemma inv_take_interrupt rec held f a :
  inv rec held f -> a ∈ interrupts f ->
  inv rec (a :: held) (set_requests (without a (requests f)) (set_interrupts (without a (interrupts f)) f))
  /\ without a (requests f) = requests f.
Proof.
  intros Hinv Ha. pose proof (inv_nodup _ _ _ Hinv) as Hnd. apply NoDup_app in Hnd as (_ & _ & Hnd).
  apply NoDup_app in Hnd as (_ & Hdis & Hnd).
  assert (without a (requests f) = requests f) as Hreq by (apply without_notin; by intros ?%Hdis).
  split; [| done]. eapply inv_lists; [exact Hinv | | done.. |]; cbn [requests interrupts set_requests set_interrupts].
  - rewrite Hreq. rewrite (without_perm a (interrupts f) Hnd Ha) at 1. rewrite <- !Permutation_middle. done.
  - intros b r [_ Hb]%list_elem_of_filter. done.
Qed.

Lemma returns_check_interrupt rec held req f r :
  inv rec held f -> heap f !! req = Some r -> req ∉ interrupts f ->
  returns (check_interrupt req) f (fun c f' =>
    inv rec (option_list c ++ held) f' /\ requests f' = requests f /\
    unique <$> heap f' !! req = Some (unique r)).
Proof.
  intros Hinv Hr Hni. unfold check_interrupt. apply returns_bind, returns_get.
  apply returns_bind, returns_load. intros r0 Hr0. simplify_eq. apply returns_bind, returns_find_req.
  intros [curr|] Hin.
  - specialize (Hin _ eq_refl). apply returns_bind, returns_update. intros r1 Hr1. simplify_eq.
    assert (inv rec held (set_heap (<[req:=set_interrupted r]> (heap f)) f)) as Hinv1 by by eapply inv_update.
    destruct (inv_take_interrupt _ _ _ curr Hinv1 Hin) as [Hinv2 Hreq].
    apply returns_bind, returns_modify, returns_bind, returns_free. intros s Hs. apply returns_ret.
    assert (curr <> req) by (by intros ->). split; [| split; [exact Hreq |]].
    + eapply inv_free; [exact Hinv2 | exact Hs |]. right. apply (inv_intr _ _ _ Hinv1 curr s Hin Hs).
    + cbn [heap set_heap set_requests set_interrupts]. by rewrite lookup_delete_ne, lookup_insert_eq.
  - destruct (interrupts f) as [|curr rest] eqn:Hints; [apply returns_ret; by rewrite Hr |].
    assert (curr ∈ interrupts f) as Hcurr by (rewrite Hints; by left).
    apply returns_bind, returns_modify, returns_ret.
    destruct (inv_take_interrupt _ _ _ curr Hinv Hcurr) as [? ?]. split; [done |]. split; [done |]. cbn. by rewrite Hr.
Qed.

(** *** The first and the last request *)

(** What is in neither the lists, the heap nor the channel does not matter. *)
Lemma inv_conn rec held f f' :
  inv rec held f -> heap f' = heap f -> requests f' = requests f -> interrupts f' = interrupts f ->
  brk f' = brk f -> sent f' = sent f -> inv rec held f'.
Proof.
  intros Hinv Hh Hr Hi Hb Hs. eapply inv_lists; [exact Hinv | by rewrite Hr, Hi | done.. |].
  intros a r. rewrite Hi. done.
Qed.

Lemma returns_do_init rec req u nodeid inarg f :
  inv rec [] f ->
  returns (do_init chan_send chan_bufsize op op_init req nodeid inarg) f (served rec req u f).
Proof.
  intros Hinv. unfold do_init. session. apply returns_modify.
  assert (forall c, inv rec [] (set_conn c f)) as Hc by (intros; by eapply inv_conn).
  destruct (_ <? 7).
  - apply returns_bind. eapply returns_mono; [by apply returns_send_reply |].
    intros z f' (? & ? & ?). by apply returns_ret.
  - apply returns_bind, returns_modify, returns_bind. eapply returns_mono.
    { apply (returns_send_reply rec []). by eapply inv_conn. }
    intros z f' (? & ? & ?). by apply returns_ret.
Qed.

Lemma returns_do_destroy rec req u nodeid inarg f :
  inv rec [] f -> returns (do_destroy chan_send req nodeid inarg) f (served rec req u f).
Proof.
  intros Hinv. unfold do_destroy. apply returns_bind, returns_modify, returns_bind.
  eapply returns_mono; [apply (returns_send_reply rec []); by eapply inv_conn |].
  intros z f' (? & ? & ?). by apply returns_ret.
Qed.

(** *** The table *)

#[local] Hint Unfold do_lookup do_getattr do_setattr do_access do_readlink do_mknod do_mkdir do_unlink do_rmdir
  do_symlink do_rename do_link do_create do_open do_read do_write do_flush do_release
  do_fsync do_opendir do_readdir do_releasedir do_fsyncdir do_statfs do_setxattr do_getxattr
  do_listxattr do_removexattr do_getlk do_setlk do_setlkw do_setlk_common do_bmap : decoders.

Lemma returns_func rec opcode func req nodeid inarg f r :
  fuse_ll_ops chan_send chan_bufsize op op_init opcode = Some func -> opcode <> FUSE_INTERRUPT ->
  inv rec [] f -> heap f !! req = Some r -> (opcode, unique r) ∈ rec ->
  returns (func req nodeid inarg) f (served rec req (unique r) f).
Proof.
  intros Hops Hni Hinv Hr Hrec. unfold fuse_ll_ops in Hops.
  repeat match type of Hops with
         | (if ?c =? ?k then _ else _) = _ =>
             destruct (Z.eqb_spec c k) as [Ek|_]; [injection Hops as <-; first
               [ by eapply returns_do_forget; [.. | rewrite <- Ek] | by apply returns_do_init
               | by apply returns_do_destroy | done | clear Hr Hrec Ek; autounfold with decoders; session ] |]
         end.
  done.
Qed.

(** ** A message *)

Definition entry_log (buf : bytes) : Z * Z := (field 4 4 buf, field 8 8 buf).

(** What a message adds to the requests in service. *)
Definition enters (rec : log) (f : fuse_ll) (c : option (nat * ll_call)) (f' : fuse_ll) : Prop :=
  inv rec [] f' /\
  match c with
  | Some (req, call) =>
      requests f' = requests f ++ [req] /\
      exists r, heap f' !! req = Some r /\ (is_forget call = true -> silent rec (unique r))
  | None => requests f' = requests f
  end.

Lemma returns_process rec f buf :
  inv rec [] f ->
  returns (fuse_ll_process alloc_ok chan_send chan_bufsize op op_init buf) f
    (enters (rec ++ (if alloc_ok (allocs f) then [entry_log buf] else [])) f).
Proof.
  intros Hinv. unfold fuse_ll_process. session. unfold calloc. session. apply returns_modify.
  destruct (alloc_ok (allocs f)).
  2:{ session. rewrite app_nil_r. split; [by eapply inv_conn | done]. }
  session. apply returns_update. cbn [heap]. intros r0 _. rewrite insert_insert_eq.
  set (r := Req _ 1 _ _ _ _ _). set (rec' := rec ++ _). set (f1 := set_heap _ _).
  assert (inv rec' [brk f] f1) as Hinv1.
  { apply (inv_new rec [] f r (field 4 4 buf)); try done. apply field_fits. }
  assert (heap f1 !! brk f = Some r) as Hr by apply lookup_insert_eq.
  assert ((field 4 4 buf, unique r) ∈ rec') as Hrec by (apply elem_of_app; right; by left).
  destruct (inv_held_notin _ _ _ _ Hinv1) as (_ & Hnr & Hnint).
  assert (forall err, returns (_ ← fuse_reply_err chan_send (brk f) err; mret None) f1 (enters rec' f)) as Hreject.
  { intros err. apply returns_bind. eapply returns_mono; [by apply (returns_send_reply rec' [brk f]) |].
    intros z f' (HI & HR & _). apply returns_ret.
    rewrite (without_head (brk f) []) in HI by apply not_elem_of_nil.
    split; [done |]. rewrite HR. by apply without_notin. }
  session. destruct (negb _ && _); [apply Hreject |]. destruct (_ && negb _); [apply Hreject |].
  destruct (fuse_ll_ops _ _ _ _ _) as [func|] eqn:Hfunc; [| apply Hreject].
  apply returns_bind. destruct (Z.eqb_spec (field 4 4 buf) FUSE_INTERRUPT) as [Hi|Hni].
  - rewrite Hi in *. injection Hfunc as <-. apply returns_ret, returns_bind.
    eapply returns_mono; [by eapply returns_do_interrupt |]. intros c f' (-> & ? & ?). by apply returns_ret.
  - apply returns_bind. eapply returns_mono; [exact (returns_check_interrupt rec' [brk f] _ f1 r Hinv1 Hr Hnint) |]. intros intr f2 (Hinv2 & Hreq2 & Hu2).
    apply returns_bind, returns_modify. set (f3 := set_requests _ f2).
    assert (inv rec' (option_list intr) f3) as Hinv3.
    { eapply inv_lists; [exact Hinv2 | | done.. |].
      - cbn. rewrite <- (app_assoc (requests f2)), <- !app_assoc. f_equiv. cbn. apply Permutation_middle.
      - done. }
    eapply (returns_mono _ _ (fun _ f4 => inv rec' [] f4 /\ requests f4 = requests f1 ++ [brk f] /\
      unique <$> heap f4 !! brk f = Some (unique r))).
    { destruct intr as [intr|]; [| apply returns_ret; split; [exact Hinv3 |]; subst f3; cbn; by rewrite Hreq2].
      apply returns_bind. eapply returns_mono; [by apply returns_send_reply |].
      intros z f4 (HI & HR & HH). apply returns_ret. destruct (inv_held_notin _ _ _ _ Hinv3) as (Hh3 & Hr3 & _).
      change (option_list (Some intr)) with [intr] in HI. rewrite (without_head intr []) in HI by done.
      split; [done |]. rewrite HR, without_notin, HH by done. subst f3. cbn in *. rewrite Hreq2. split; [done |].
      rewrite lookup_delete_ne; [done |]. intros ->. apply Hr3, elem_of_app. right. by left. }
    intros _ f4 (Hinv4 & Hreq4 & Hu4). apply fmap_Some in Hu4 as (r4 & Hr4 & Hu4).
    apply returns_bind. rewrite Hu4 in Hrec. eapply returns_mono; [by eapply returns_func |].
    intros [call|] f5 H5; apply returns_ret.
    + destruct H5 as [-> Hf]. split; [done |]. rewrite Hreq4. split; [done |]. by exists r4.
    + destruct H5 as (? & HR & _). split; [done |]. rewrite HR, Hreq4. unfold without.
      rewrite filter_app. fold (without (brk f) (requests f1)). rewrite without_notin by done.
      rewrite filter_cons_False by auto. apply app_nil_r.
Qed.

End Session.
End Account.

(** ** A run of the library *)

Section Runs.
Context (alloc_ok : nat -> bool) (chan_send : nat -> Z) (chan_bufsize : Z).
Context (op : lowlevel_op -> bool) (op_init : fuse_conn_info -> fuse_conn_info).

(** The messages that have entered, the calls of operations that have not answered
    yet, with their requests, and the state. An operation answers with any error and
    any bytes; only a FORGET takes no answer. *)
Definition session : Type := log * list (nat * ll_call) * fuse_ll.

Inductive step : session -> session -> Prop :=
| step_message rec calls f buf c f' :
    fuse_ll_process alloc_ok chan_send chan_bufsize op op_init buf f = Ret (c, f') ->
    step (rec, calls, f)
         (rec ++ (if alloc_ok (allocs f) then [entry_log buf] else []), calls ++ option_list c, f')
| step_reply rec calls f req call error arg z f' :
    (req, call) ∈ calls -> send_reply chan_send req error arg f = Ret (z, f') ->
    step (rec, calls, f) (rec, filter (fun c => c.1 <> req) calls, f')
| step_none rec calls f req ino nlookup f' :
    (req, Forget ino nlookup) ∈ calls -> fuse_reply_none req f = Ret (tt, f') ->
    step (rec, calls, f) (rec, filter (fun c => c.1 <> req) calls, f').

Definition starts (s : session) : Prop :=
  s.1 = ([], []) /\ heap s.2 = ∅ /\ requests s.2 = [] /\ interrupts s.2 = [] /\ sent s.2 = [].

Inductive ll_run : session -> Prop :=
| run_start s : starts s -> ll_run s
| run_step s s' : ll_run s -> step s s' -> ll_run s'.

Definition forgets (calls : list (nat * ll_call)) : list nat := (filter (fun c => is_forget c.2 = true) calls).*1.

Definition session_inv (s : session) : Prop :=
  let '(rec, calls, f) := s in inv (forgets calls) rec [] f /\ requests f = calls.*1.

Lemma inv_fewer q q' rec held f : inv q rec held f -> (forall a, a ∈ q' -> a ∈ q) -> inv q' rec held f.
Proof. intros [? ? ? ? Hq ?] Hsub. split; try done. intros a Ha. by apply Hq, Hsub. Qed.

Lemma filter_calls req (calls : list (nat * ll_call)) :
  without req calls.*1 = (filter (fun c => c.1 <> req) calls).*1.
Proof.
  unfold without. induction calls as [|[a c] calls IH]; [done |]. rewrite fmap_cons. cbn [fst].
  destruct (decide (a = req)).
  - rewrite !filter_cons_False by (cbn; tauto). done.
  - rewrite !filter_cons_True by done. cbn. by rewrite IH.
Qed.

Lemma session_gone rec calls f req f' :
  session_inv (rec, calls, f) -> gone (forgets calls) rec req [] f f' ->
  session_inv (rec, filter (fun c => c.1 <> req) calls, f').
Proof.
  intros (_ & Hreq) (Hinv & HR & _). split; [| by rewrite HR, Hreq, filter_calls].
  eapply inv_fewer; [exact Hinv |]. unfold forgets. intros a ([b c] & -> & Ha)%list_elem_of_fmap.
  apply list_elem_of_filter in Ha as [Hf [_ Ha]%list_elem_of_filter]. apply list_elem_of_fmap.
  exists (b, c). split; [done |]. by apply list_elem_of_filter.
Qed.

Lemma session_step s s' : session_inv s -> step s s' -> session_inv s'.
Proof.
  intros Hs Hstep. destruct Hstep as [rec calls f buf c f' E|rec calls f req call error arg z f' _ E|
                                      rec calls f req ino nlookup f' Hin E].
  - destruct Hs as (Hinv & Hreq).
    destruct (returns_process _ alloc_ok chan_send chan_bufsize op op_init rec f buf Hinv _ _ E) as [Hinv' Hc].
    destruct c as [[req call]|].
    + change (option_list (Some (req, call))) with [(req, call)].
      destruct Hc as (HR & r & Hr & Hf). split; [| by rewrite HR, Hreq, fmap_app].
      destruct Hinv' as [? ? Hb ? Hq ?]. split; try done. unfold forgets. rewrite filter_app, fmap_app.
      intros a [Ha|Ha]%elem_of_app; [by apply Hq |].
      destruct (is_forget call) eqn:Ec.
      2:{ rewrite filter_cons_False in Ha by (cbn; congruence). by apply elem_of_nil in Ha. }
      rewrite filter_cons_True in Ha by done. apply list_elem_of_singleton in Ha as ->. cbn [fst].
      split; [by apply (Hb _ _ Hr) |]. intros r' Hr'. simplify_eq. by apply Hf.
    + change (option_list None) with (@nil (nat * ll_call)). rewrite app_nil_r. by split; [| rewrite Hc].
  - apply (session_gone _ _ f); [done |]. destruct Hs as [Hinv _].
    exact (returns_send_reply _ chan_send rec [] req error arg f Hinv _ _ E).
  - apply (session_gone _ _ f); [done |]. destruct Hs as [Hinv Hreq].
    assert (req ∈ requests f) as Hr.
    { rewrite Hreq. apply list_elem_of_fmap. by eexists (_, _). }
    assert (is_Some (heap f !! req)) as [r Hreqr] by (apply (inv_heap _ _ _ _ Hinv); cbn; apply elem_of_app; by left).
    refine (returns_reply_none _ rec [] req f r Hinv Hreqr _ _ _ E).
    apply (inv_quiet _ _ _ _ Hinv req); [| done]. apply list_elem_of_fmap. exists (req, Forget ino nlookup).
    split; [done |]. by apply list_elem_of_filter.
Qed.

Lemma session_start s : starts s -> session_inv s.
Proof.
  destruct s as [[rec calls] f]. intros ([= -> ->] & Hh & Hr & Hi & Hs). cbn in *. split; [| done].
  split; rewrite ?Hr, ?Hi; cbn.
  - constructor.
  - intros a. rewrite Hh, lookup_empty, elem_of_nil. split; [done | by intros []].
  - intros a r. by rewrite Hh, lookup_empty.
  - intros a r Ha. by apply elem_of_nil in Ha.
  - intros a Ha. by apply elem_of_nil in Ha.
  - exists []. split; [| done]. unfold waiting. by rewrite Hs, Hr, Hi.
Qed.

Lemma session_runs s : ll_run s -> session_inv s.
Proof. induction 1; [by apply session_start | by eapply session_step]. Qed.

(** C8. In every run of the FUSE library, with messages of any contents and
    operations that answer in any order with anything, every message that has
    entered is accounted for exactly once: it has been answered once, with its
    number, or it is being served by an operation, or it is an interrupt that
    waits for its request, or it is a FORGET or an INTERRUPT, which take no
    answer. The requests in memory are those of the two lists, each once. *)
Theorem session_accounts rec calls f :
  ll_run (rec, calls, f) ->
  requests f = calls.*1 /\ NoDup (requests f ++ interrupts f) /\
  (forall a, a ∈ requests f ++ interrupts f <-> is_Some (heap f !! a)) /\
  exists quiet,
    rec.*2 ≡ₚ (field 8 8 <$> sent f) ++ uniques (heap f) (calls.*1) ++ uniques (heap f) (interrupts f) ++ quiet /\
    Forall (silent rec) quiet /\ Forall (silent rec) (uniques (heap f) (interrupts f)).
Proof.
  intros [Hinv Hreq]%session_runs. split; [done |]. split; [apply (inv_nodup _ _ _ _ Hinv) |].
  split; [apply (inv_heap _ _ _ _ Hinv) |].
  destruct (inv_account _ _ _ _ Hinv) as (quiet & Hacc & Hq). exists quiet. split; [| split; [done |]].
  - rewrite Hacc. unfold waiting, uniques. cbn [app]. by rewrite omap_app, Hreq, <- !app_assoc.
  - apply Forall_forall. intros u Hu. unfold uniques in Hu. apply list_elem_of_omap in Hu as (a & Ha & Hu).
    apply fmap_Some in Hu as (r & Hr & ->). right. by apply (inv_intr _ _ _ _ Hinv a).
Qed.

(** ** What is not allowed *)

(** The error for a message of a user: before the first message, for other users
    with the option allow_root, and for an unknown operation. *)
Definition refusal (f : fuse_ll) (opcode uid : Z) : option Z :=
  if negb (got_init f) && negb (opcode =? FUSE_INIT) then Some EIO
  else if allow_root f && negb ((uid =? owner f) || (uid =? 0)) && negb (always_allowed opcode) then Some EACCES
  else match fuse_ll_ops chan_send chan_bufsize op op_init opcode with Some _ => None | None => Some ENOSYS end.

(** The state when the message [buf] has been refused. *)
Definition refused (err : Z) (buf : bytes) (f : fuse_ll) : fuse_ll :=
  LL (allow_root f) (owner f) (got_init f) (got_destroy f) (conn f) (heap f) (S (brk f)) (S (allocs f))
     (requests f) (interrupts f) (sent f ++ [reply_bytes (- err) (field 8 8 buf) []]).

(** C31. In every run a message that is not allowed, before the first message,
    of another user under allow_root, or of an unknown operation, is answered
    with EIO, EACCES or ENOSYS under its own number, calls no operation, and
    leaves the library as it was. *)
Theorem refusals rec calls f buf err :
  ll_run (rec, calls, f) -> alloc_ok (allocs f) = true -> 40 <= strlen buf ->
  refusal f (field 4 4 buf) (field 4 24 buf) = Some err ->
  fuse_ll_process alloc_ok chan_send chan_bufsize op op_init buf f = Ret (None, refused err buf f).
Proof.
  intros [Hinv _]%session_runs Halloc Hlen Hrefusal.
  assert (-1000 < - err <= 0) as Herr.
  { unfold refusal in Hrefusal. repeat case_match; by simplify_eq. }
  assert (heap f !! brk f = None) as Hfresh.
  { destruct (heap f !! brk f) eqn:E; [| done]. apply (inv_req _ _ _ _ Hinv) in E. lia. }
  assert (brk f ∉ requests f ++ interrupts f) as Hnew.
  { intros Ha%(inv_heap _ _ _ _ Hinv). rewrite Hfresh in Ha. by destruct Ha. }
  rewrite not_elem_of_app in Hnew. destruct Hnew as [Hnr Hni].
  assert (runs (fuse_ll_process alloc_ok chan_send chan_bufsize op op_init buf) f
            (fun c f' => c = None /\ f' = refused err buf f)) as (c & f' & -> & -> & ->)%runs_eq; [| done].
  unfold fuse_ll_process. apply runs_bind, runs_holds; [done | unfold sizeof_in_header; lia |].
  cbv zeta. apply runs_bind. unfold calloc. apply runs_bind, runs_get. cbv zeta. rewrite Halloc.
  apply runs_bind, runs_modify, runs_ret.
  apply runs_bind. eapply runs_update_req; [apply lookup_insert_eq |]. cbn [heap]. rewrite insert_insert_eq.
  apply runs_bind, runs_get. cbn [got_init allow_root owner set_heap]. set (f1 := set_heap _ _).
  assert (runs (_ ← fuse_reply_err chan_send (brk f) err; mret None) f1
            (fun c f' => c = @None (nat * ll_call) /\ f' = refused err buf f)) as Hrun.
  { apply runs_bind. eapply runs_send_reply; [split; [apply lookup_insert_eq | done] | done |].
    apply runs_ret. split; [done |]. unfold answered, refused, f1. cbn.
    rewrite delete_insert_id by done. fold (without (brk f) (requests f)) (without (brk f) (interrupts f)).
    by rewrite !without_notin. }
  unfold refusal in Hrefusal. destruct (negb _ && negb (_ =? FUSE_INIT)); [by injection Hrefusal as -> |].
  replace (allow_root f && negb (field 4 24 buf =? owner f) && negb (field 4 24 buf =? 0)
           && negb (always_allowed (field 4 4 buf)))
    with (allow_root f && negb ((field 4 24 buf =? owner f) || (field 4 24 buf =? 0))
           && negb (always_allowed (field 4 4 buf))) by (by rewrite negb_orb, andb_assoc).
  destruct (_ && negb (always_allowed _)); [by injection Hrefusal as -> |].
  destruct (fuse_ll_ops _ _ _ _ _); [done |]. by injection Hrefusal as ->.
Qed.
End Runs.

(** * Instances *)

Definition process_all : bytes -> M fuse_ll (option (nat * ll_call)) :=
  fuse_ll_process (fun _ => true) (fun _ => 0) 135168 (fun _ => true) id.

(** User 1000 renames a file; request 99, which is not here yet, is to be interrupted;
    the rename fails; a lookup comes, and the interrupt is answered with EAGAIN. *)
Definition interrupt_message : bytes := fuse_in_header 48 FUSE_INTERRUPT 8 0 0 0 0 ++ fuse_interrupt_in 99.
Definition lookup_message : bytes :=
  message (set_unique 9 (new_req 1000 100 4321 (fuse_lookup_init 1 (B "a")) true false AnySignal)).

Definition state1 : fuse_ll := after (process_all (message rename_req)) ready.
Definition state2 : fuse_ll := after (process_all interrupt_message) state1.
Definition state3 : fuse_ll := after (send_reply (fun _ => 0) 0 (- 2) []) state2.
Definition state4 : fuse_ll := after (process_all lookup_message) state3.

Definition rename_served : nat * ll_call := (0%nat, Rename 1 (B "old") 5 (B "new name")).
Definition lookup_served : nat * ll_call := (2%nat, Lookup 1 (B "a")).

Example answers : (field 8 8 <$> sent state4) = [7; 8] /\ requests state4 = [2%nat] /\ interrupts state4 = [].
Proof. vm_compute. done. Qed.

Lemma session_accounts_witness :
  let rec := [(FUSE_RENAME, 7); (FUSE_INTERRUPT, 8); (FUSE_LOOKUP, 9)] in
  ll_run (fun _ => true) (fun _ => 0) 135168 (fun _ => true) id (rec, [lookup_served], state4) /\
  exists quiet, rec.*2 ≡ₚ (field 8 8 <$> sent state4) ++ uniques (heap state4) [2%nat]
    ++ uniques (heap state4) (interrupts state4) ++ quiet.
Proof.
  assert (ll_run (fun _ => true) (fun _ => 0) 135168 (fun _ => true) id
    ([(FUSE_RENAME, 7); (FUSE_INTERRUPT, 8); (FUSE_LOOKUP, 9)], [lookup_served], state4)) as Hrun.
  { apply (run_step _ _ _ _ _ ([(FUSE_RENAME, 7); (FUSE_INTERRUPT, 8)], [], state3)).
    2:{ apply (step_message (fun _ => true) (fun _ => 0) 135168 (fun _ => true) id [(FUSE_RENAME, 7); (FUSE_INTERRUPT, 8)] [] state3 lookup_message
                 (Some lookup_served) state4). by vm_compute. }
    apply (run_step _ _ _ _ _ ([(FUSE_RENAME, 7); (FUSE_INTERRUPT, 8)], [rename_served], state2)).
    2:{ apply (step_reply _ _ _ _ _ [(FUSE_RENAME, 7); (FUSE_INTERRUPT, 8)] [rename_served] state2 0%nat
                 (Rename 1 (B "old") 5 (B "new name")) (- 2) [] 0 state3); [by left | by vm_compute]. }
    apply (run_step _ _ _ _ _ ([(FUSE_RENAME, 7)], [rename_served], state1)).
    2:{ apply (step_message (fun _ => true) (fun _ => 0) 135168 (fun _ => true) id [(FUSE_RENAME, 7)] [rename_served] state1 interrupt_message None state2).
        by vm_compute. }
    apply (run_step _ _ _ _ _ ([], [], ready)); [by apply run_start |].
    apply (step_message (fun _ => true) (fun _ => 0) 135168 (fun _ => true) id [] [] ready (message rename_req) (Some rename_served) state1). by vm_compute. }
  split; [exact Hrun |].
  destruct (session_accounts _ _ _ _ _ _ _ _ Hrun) as (_ & _ & _ & quiet & Hacc & _). by exists quiet.
Defined.

(** A connection of user 500 with the option allow_root. *)
Definition private : fuse_ll := LL true 500 true false (ConnInfo 7 8 true 131072 131072) ∅ 0 0 [] [] [].

Lemma refusals_witness :
  ll_run (fun _ => true) (fun _ => 0) 135168 (fun _ => true) id ([], [], private) /\
  refusal 
    (fun _ => 0) 135168 (fun _ => true) id private FUSE_RENAME 1000 = Some EACCES /\
  process_all (message rename_req) private = Ret (None, refused EACCES (message rename_req) private).
Proof.
  assert (ll_run (fun _ => true) (fun _ => 0) 135168 (fun _ => true) id ([], [], private)) as Hrun
    by (by apply run_start).
  split; [exact Hrun |]. split; [reflexivity |].
  apply (refusals (fun _ => true) (fun _ => 0) 135168 (fun _ => true) id [] [] private (message rename_req) EACCES Hrun).
  - reflexivity.
  - vm_compute. discriminate.
  - vm_compute. reflexivity.
Defined.
