(* ===== verification/FuseKernel.v ===== *)
(** Parts of the FUSE kernel module above its device (other_fs/fuse-2.7.3/kernel:
    inode.c, file.c): what it makes of the reply to the first message, reading and
    writing without the page cache, and what it makes of a lock. *)

From S2P Require Import Prelude.
From S2P Require Import CString.
From S2P Require Import FuseDir.
From S2P Require Import FuseWire.
From S2P Require Import FuseDevice.

(** * The first reply *)

(** The fields of [struct fuse_conn] that limit what the kernel asks for. *)
Record limits := Limits {
  l_minor : Z; l_max_read : Z; l_max_write : Z; l_ra_pages : Z; l_async_read : bool; l_no_lock : bool;
  l_conn_init : bool; l_conn_error : bool; l_blocked : bool }.

(** Of a new connection with a mount option max_read. *)
Definition new_limits (max_read : Z) : limits := Limits 0 max_read 0 32 false false false false true.

(** [misc.init_out], of which the reply may fill only the beginning. *)
Definition init_out (b : bytes) : bytes := b ++ replicate (Z.to_nat sizeof_init_out - length b) NUL.

Definition process_init_reply (error : Z) (arg : bytes) (l : limits) : limits :=
  let major := field 4 0 arg in
  let minor := field 4 4 arg in
  let max_readahead := field 4 8 arg in
  let flags := field 4 12 arg in
  let max_write := field 4 20 arg in
  if negb (error =? 0) || negb (major =? FUSE_KERNEL_VERSION) then
    Limits (l_minor l) (l_max_read l) (l_max_write l) (l_ra_pages l) (l_async_read l) (l_no_lock l)
      (l_conn_init l) true false
  else
    let recent := 6 <=? minor in
    let ra_pages := if recent then max_readahead / PAGE_SIZE else l_max_read l / PAGE_SIZE in
    Limits minor (l_max_read l) (if minor <? 5 then 4096 else max_write) (Z.min (l_ra_pages l) ra_pages)
      (if recent && negb (Z.land flags FUSE_ASYNC_READ =? 0) then true else l_async_read l)
      (if negb recent || (Z.land flags FUSE_POSIX_LOCKS =? 0) then true else l_no_lock l)
      true (l_conn_error l) false.

(** * Direct input and output *)

Definition FUSE_MAX_PAGES_PER_REQ : Z := 32.

(** The pages that are asked for: [nbytes] from the address [user_addr] on. *)
Definition user_pages (user_addr nbytes : Z) : Z :=
  let offset := Z.land user_addr (PAGE_SIZE - 1) in
  let nbytes := Z.min (to_u32 nbytes) (FUSE_MAX_PAGES_PER_REQ * PAGE_SIZE) in
  let npages := Z.shiftr (nbytes + offset + PAGE_SIZE - 1) 12 in
  Z.min (Z.max npages 1) FUSE_MAX_PAGES_PER_REQ.

(** What a loop has done: its result, the offset in the file, and the requests that it
    sent: for a write with the bytes, for a read with their number. *)
Record dio := Dio { d_res : Z; d_pos : Z; d_reqs : list (fuse_in * fuse_out) }.

Section DirectIO.
(** [get_user_pages] maps pages, the [k]-th time: how many, or an error; the answer to
    the [k]-th request: an error and a number of bytes; [fuse_get_req], the [k]-th
    time: 0, or an error. *)
Context (get_user_pages : nat -> Z -> Z) (answer : nat -> fuse_in -> Z * Z) (get_req : nat -> Z).
(** The file, the user's buffer, its address, and the limit of a request. *)
Context (ino fh : Z) (buf : bytes) (addr nmax : Z) (write : bool).

(** The request for [nbytes], [done] bytes from the start of the buffer. *)
Definition dio_request (done pos nbytes : Z) : fuse_in * fuse_out :=
  if write then fuse_send_write ino fh pos (take (Z.to_nat nbytes) (drop (Z.to_nat done) buf))
  else fuse_read_fill ino fh pos nbytes false.

(** The loop, for [count] bytes more, [done] bytes from the start: the [k]-th time. When
    there is no further request the error is given to [fuse_put_request] as if it were
    the address of one. *)
Fixpoint dio_loop (fuel k : nat) (done count : Z) (d : dio) : outcome dio :=
  match fuel with
  | O => Hang
  | S fuel =>
      if count =? 0 then Ret d
      else
        let npages := user_pages (addr + done) (Z.min count nmax) in
        let mapped := get_user_pages k npages in
        if mapped <? 0 then Ret (Dio mapped (d_pos d) (d_reqs d))
        else
          let offset := Z.land (addr + done) (PAGE_SIZE - 1) in
          let nbytes := Z.min count (to_u32 (mapped * PAGE_SIZE - offset)) in
          let req := dio_request done (d_pos d) nbytes in
          let reqs := d_reqs d ++ [req] in
          let '(error, nres) := answer k req.1 in
          if negb (error =? 0) then Ret (Dio (if d_res d =? 0 then error else d_res d) (d_pos d) reqs)
          else if nbytes <? nres then Ret (Dio (- EIO) (d_pos d) reqs)
          else
            let d := Dio (d_res d + nres) (d_pos d + nres) reqs in
            if negb (nres =? nbytes) || (count - nres =? 0) then Ret d
            else if get_req (S k) =? 0 then dio_loop fuel (S k) (done + nres) (count - nres) d
            else UB
  end.

(** The result, the new offset and the new size of the file, and the requests. *)
Definition fuse_direct_io (count pos i_size : Z) : outcome (Z * Z * Z * list (fuse_in * fuse_out)) :=
  if negb (get_req O =? 0) then Ret (get_req O, pos, i_size, [])
  else
    match dio_loop (S (Z.to_nat count)) 0 0 count (Dio 0 pos []) with
    | Ret d =>
        Ret (if 0 <? d_res d then
               (d_res d, d_pos d, (if write && (i_size <? d_pos d) then d_pos d else i_size), d_reqs d)
             else (d_res d, pos, i_size, d_reqs d))
    | Exit z => Exit z
    | UB => UB
    | Hang => Hang
    end.
End DirectIO.

(** * Locks *)

Definition F_RDLCK : Z := 0.
Definition F_WRLCK : Z := 1.
Definition OFFSET_MAX : Z := 9223372036854775807.

(** [struct file_lock], as far as it is filled in. *)
Record file_lock := FileLock { fl_type : Z; fl_start : Z; fl_end : Z; fl_pid : Z }.

(** The lock at an offset of a reply: an error, or [fl] with its fields. *)
Definition convert_fuse_file_lock (pos : nat) (b : bytes) (fl : file_lock) : Z + file_lock :=
  let start := field 8 pos b in
  let end_ := field 8 (pos + 8) b in
  let type := field 4 (pos + 16) b in
  let pid := to_i32 (field 4 (pos + 20) b) in
  if type =? F_UNLCK then inr (FileLock F_UNLCK (fl_start fl) (fl_end fl) (fl_pid fl))
  else if (type =? F_RDLCK) || (type =? F_WRLCK) then
    if (OFFSET_MAX <? start) || (OFFSET_MAX <? end_) || (end_ <? start) then inl (- EIO)
    else inr (FileLock type start end_ pid)
  else inl (- EIO).
