(* ===== verification/FuseKernelProps.v ===== *)
(** The kernel module above its device: the agreement on limits that the first
    message reaches, what direct writing sends, and the locks that come back. *)

From S2P Require Import Prelude.
From S2P Require Import CString.
From S2P Require Import FuseDir.
From S2P Require Import FuseDirProps.
From S2P Require Import FuseWire.
From S2P Require Import FuseDevice.
From S2P Require Import FuseLowlevel.
From S2P Require Import FuseWireProps.
From S2P Require Import FuseKernel.

(** * Direct writing *)

(** The requests that write pieces one after the other from an offset on. *)
Fixpoint write_reqs (ino fh pos : Z) (pieces : list bytes) : list (fuse_in * fuse_out) :=
  match pieces with
  | [] => []
  | b :: pieces => fuse_send_write ino fh pos b :: write_reqs ino fh (pos + strlen b) pieces
  end.

Lemma write_reqs_app ino fh pos ps qs :
  write_reqs ino fh pos (ps ++ qs) = write_reqs ino fh pos ps ++ write_reqs ino fh (pos + strlen (concat ps)) qs.
Proof.
  revert pos. induction ps as [|b ps IH]; intros pos; cbn; [by rewrite Z.add_0_r |].
  rewrite IH, strlen_app. by rewrite Z.add_assoc.
Qed.

(** The most that a request carries: the pages of a request. *)
Definition MAX_PIECE : Z := FUSE_MAX_PAGES_PER_REQ * PAGE_SIZE.

Lemma page_offset a : 0 <= Z.land a (PAGE_SIZE - 1) < PAGE_SIZE.
Proof.
  change (PAGE_SIZE - 1) with (Z.ones 12). rewrite Z.land_ones by lia. apply Z.mod_pos_bound. reflexivity.
Qed.

Lemma user_pages_bound a n : 1 <= user_pages a n <= FUSE_MAX_PAGES_PER_REQ.
Proof. unfold user_pages, FUSE_MAX_PAGES_PER_REQ. cbv zeta. lia. Qed.

Section DirectWrite.
Context (get_user_pages : nat -> Z -> Z) (answer : nat -> fuse_in -> Z * Z).
Context (ino fh : Z) (buf : bytes) (addr nmax : Z).

(** [get_user_pages] maps at least one page and at most those it is asked for, or
    fails; an answer has an error that is not positive and a count that is not negative. *)
Hypothesis (pages_ok : forall k n, 1 <= n -> get_user_pages k n < 0 \/ 1 <= get_user_pages k n <= n).
Hypothesis (answers_ok : forall k req, (answer k req).1 <= 0 <= (answer k req).2).

Abbreviation loop := (dio_loop get_user_pages answer (fun _ => 0) ino fh buf addr nmax true).

(** What the loop has sent: pieces of the buffer, all but the last accepted in full. *)
Record progress (pos : Z) (d : dio) (pieces : list bytes) : Prop := Progress {
  pr_reqs : d_reqs d = write_reqs ino fh pos pieces;
  pr_prefix : concat pieces = take (length (concat pieces)) buf;
  pr_sizes : Forall (fun b => 0 < strlen b <= MAX_PIECE) pieces;
  pr_res : d_res d <= strlen (concat pieces);
  pr_pos : 0 < d_res d -> d_pos d = pos + d_res d }.

Lemma piece_prefix done n :
  0 <= done -> 0 <= n -> done + n <= strlen buf ->
  take (Z.to_nat done) buf ++ take (Z.to_nat n) (drop (Z.to_nat done) buf) = take (Z.to_nat (done + n)) buf.
Proof.
  intros H0 Hn Hle. rewrite Z2Nat.inj_add by lia. by rewrite take_take_drop.
Qed.

(** Nothing fails, and every piece is accepted in full. *)
Definition all_accepted : Prop :=
  (forall k n, 1 <= n -> 1 <= get_user_pages k n) /\
  forall k pos b, answer k (fuse_send_write ino fh pos b).1 = (0, strlen b).

Lemma loop_sends fuel k done count pos pieces :
  0 <= done -> 0 <= count -> done + count <= strlen buf -> count < Z.of_nat fuel ->
  concat pieces = take (Z.to_nat done) buf -> Forall (fun b => 0 < strlen b <= MAX_PIECE) pieces ->
  exists d pieces',
    loop fuel k done count (Dio done (pos + done) (write_reqs ino fh pos pieces)) = Ret d /\ progress pos d pieces' /\
    strlen (concat pieces') <= done + count /\ (all_accepted -> d_res d = done + count).
Proof.
  revert k done count pieces. induction fuel as [|fuel IH]; intros k done count pieces Hd Hc Hle Hf Hcat Hsz; [lia |].
  assert (strlen (concat pieces) = done) as Hlen.
  { rewrite Hcat. unfold strlen in *. rewrite length_take. lia. }
  assert (forall e, e <= 0 -> progress pos (Dio e (pos + done) (write_reqs ino fh pos pieces)) pieces) as Hstop.
  { intros e He. split; cbn; [done | | done | lia | lia]. rewrite Hcat at 1. f_equal. unfold strlen in Hlen. lia. }
  cbn [dio_loop]. destruct (Z.eqb_spec count 0) as [->|Hc0].
  { eexists _, pieces. split; [reflexivity |]. split; [| cbn; lia]. split; cbn; [done | | done | lia | lia].
    rewrite Hcat at 1. f_equal. unfold strlen in Hlen. lia. }
  set (np := user_pages _ _). destruct (user_pages_bound (addr + done) (Z.min count nmax)) as [Hnp1 Hnp2]. fold np in Hnp1, Hnp2.
  destruct (Z.ltb_spec (get_user_pages k np) 0) as [Hneg|Hpos].
  { eexists _, pieces. split; [reflexivity |]. split; [apply Hstop; lia | split; [lia |]]. intros [Hmap _]. specialize (Hmap k np Hnp1). lia. }
  destruct (pages_ok k np Hnp1) as [?|Hm]; [lia |].
  destruct (page_offset (addr + done)) as [Ho1 Ho2]. set (off := Z.land _ _) in *.
  assert (to_u32 (get_user_pages k np * PAGE_SIZE - off) = get_user_pages k np * PAGE_SIZE - off) as ->.
  { apply to_u32_id. unfold PAGE_SIZE, FUSE_MAX_PAGES_PER_REQ in *. lia. }
  set (n := Z.min count _). assert (1 <= n <= MAX_PIECE /\ n <= count) as [Hn Hnc].
  { unfold n, MAX_PIECE, PAGE_SIZE, FUSE_MAX_PAGES_PER_REQ in *. lia. }
  set (piece := take (Z.to_nat n) (drop (Z.to_nat done) buf)).
  assert (strlen piece = n) as Hpiece.
  { unfold piece, strlen in *. rewrite length_take, length_drop. lia. }
  assert (write_reqs ino fh pos pieces ++
    [dio_request ino fh buf true done (pos + done) n] = write_reqs ino fh pos (pieces ++ [piece])) as Hreqs.
  { rewrite write_reqs_app, Hlen. done. }
  assert (concat (pieces ++ [piece]) = take (Z.to_nat (done + n)) buf) as Hcat'.
  { rewrite concat_app, Hcat. cbn. rewrite app_nil_r. apply piece_prefix; lia. }
  assert (strlen (concat (pieces ++ [piece])) = done + n) as Hlen'.
  { rewrite Hcat'. unfold strlen in *. rewrite length_take. lia. }
  assert (Forall (fun b => 0 < strlen b <= MAX_PIECE) (pieces ++ [piece])) as Hsz'.
  { apply Forall_app. split; [done |]. apply Forall_singleton. lia. }
  assert (forall r p, r <= done + n -> (0 < r -> p = pos + r) ->
    progress pos (Dio r p (write_reqs ino fh pos (pieces ++ [piece]))) (pieces ++ [piece])) as Hsent.
  { intros r p Hr Hp. split; cbn; [done | | done | lia | done]. rewrite Hcat' at 1. f_equal. unfold strlen in Hlen'. lia. }
  cbv zeta. cbn [d_pos d_res d_reqs]. set (req := dio_request _ _ _ _ _ _ _) in *. rewrite Hreqs.
  pose proof (answers_ok k req.1) as Hans.
  assert (all_accepted -> answer k req.1 = (0, n)) as Hall by (intros [_ Ha]; rewrite <- Hpiece; apply Ha).
  destruct (answer k req.1) as [error nres]. cbn [fst snd] in Hans.
  destruct (Z.eqb_spec error 0) as [->|He]; cbn [negb].
  2:{ eexists _, (pieces ++ [piece]). split; [reflexivity |]. split; [apply Hsent; destruct (Z.eqb_spec done 0); lia |].
    split; [lia |]. intros [= ? ?]%Hall. lia. }
  destruct (Z.ltb_spec n nres).
  { eexists _, (pieces ++ [piece]). split; [reflexivity |]. split; [apply Hsent; unfold EIO; lia |].
    split; [lia |]. intros [= ?]%Hall. lia. }
  destruct (Z.eqb_spec nres n) as [->|]; cbn [negb orb].
  2:{ eexists _, (pieces ++ [piece]). split; [reflexivity |]. split; [apply Hsent; lia |].
    split; [lia |]. intros [= ?]%Hall. lia. }
  destruct (Z.eqb_spec (count - n) 0).
  { eexists _, (pieces ++ [piece]). split; [reflexivity |]. split; [apply Hsent; lia | cbn; lia]. }
  replace (pos + done + n) with (pos + (done + n)) by lia. destruct (IH (S k) (done + n) (count - n) (pieces ++ [piece])) as (d & ps & E & Hpr & Hl & Hfull);
    [lia | lia | lia | lia | done | done |].
  exists d, ps. split; [exact E |]. split; [done |]. split; [lia |]. intros ?%Hfull. lia.
Qed.

(** Writing without the page cache: whatever the memory maps and whatever
    is answered, the requests that are sent are consecutive pieces of the
    buffer, each of at least one byte and at most 128 KiB, at the offsets where
    they belong; the result is at most what was sent, the offset and the size of
    the file grow by it, and when every piece is accepted the whole buffer was
    sent. *)
Theorem direct_write_sends count pos i_size :
  0 <= count <= strlen buf ->
  exists res pos' i_size' pieces,
    fuse_direct_io get_user_pages answer (fun _ => 0) ino fh buf addr nmax true count pos i_size
      = Ret (res, pos', i_size', write_reqs ino fh pos pieces) /\
    concat pieces = take (length (concat pieces)) buf /\
    Forall (fun b => 0 < strlen b <= MAX_PIECE) pieces /\
    res <= strlen (concat pieces) <= count /\ pos' = pos + Z.max 0 res /\
    i_size' = (if 0 <? res then Z.max i_size pos' else i_size) /\
    (all_accepted -> res = count /\ concat pieces = take (Z.to_nat count) buf).
Proof.
  intros Hc. unfold fuse_direct_io. cbn [Z.eqb negb].
  destruct (loop_sends (S (Z.to_nat count)) 0 0 count pos []) as (d & ps & E & Hpr & Hl & Hfull);
    [lia | lia | lia | lia | by rewrite take_0 | done |].
  rewrite Z.add_0_r in E. cbn [write_reqs] in E. rewrite E. destruct Hpr as [Hr Hp Hs Hres Hpos].
  assert (all_accepted -> d_res d = count /\ concat ps = take (Z.to_nat count) buf) as Hall.
  { intros H%Hfull. split; [lia |]. rewrite Hp. f_equal. unfold strlen in *. lia. }
  destruct (Z.ltb_spec 0 (d_res d)).
  - eexists _, _, _, ps. split; [by rewrite Hr |]. rewrite Hpos by done. cbn [andb].
    replace (0 <? d_res d) with true by lia. split_and!; try done; try lia.
    destruct (Z.ltb_spec i_size (pos + d_res d)); lia.
  - eexists _, _, _, ps. split; [by rewrite Hr |]. replace (0 <? d_res d) with false by lia.
    split_and!; try done; lia.
Qed.
End DirectWrite.

(** A library that accepts everything, and pages that can all be mapped. *)
Definition accept_all (_ : nat) (req : fuse_in) : Z * Z := (0, strlen (default [] (last (args req)))).
Definition map_all (_ : nat) (n : Z) : Z := n.

(** Ten bytes from an address that is three bytes before the end of a page. *)
Definition ten_bytes : bytes := B "0123456789".

Lemma direct_write_sends_witness :
  exists res pos' i_size' pieces,
    fuse_direct_io map_all accept_all (fun _ => 0) 5 6 ten_bytes 8189 131072 true 10 100 50
      = Ret (res, pos', i_size', write_reqs 5 6 100 pieces) /\
    res = 10 /\ concat pieces = ten_bytes.
Proof.
  destruct (direct_write_sends map_all accept_all 5 6 ten_bytes 8189 131072) with (count := 10) (pos := 100) (i_size := 50)
    as (res & pos' & i_size' & pieces & E & _ & _ & _ & _ & _ & Hall).
  - intros k n Hn. right. unfold map_all. lia.
  - intros k req. split; [done | apply strlen_nonneg].
  - vm_compute. split; discriminate.
  - exists res, pos', i_size', pieces. split; [exact E |]. apply Hall. split; [done |]. done.
Defined.

(** A direct write of 4096 bytes on a connection that has agreed on
    requests of at most 1000 bytes is sent as one request of 4096 bytes. *)
Theorem direct_write_exceeds_max_write :
  let buf := replicate 4096 "x"%char in
  fuse_direct_io map_all accept_all (fun _ => 0) 5 6 buf 8192 1000 true 4096 0 0
    = Ret (4096, 4096, 4096, [fuse_send_write 5 6 0 buf]).
Proof. vm_compute. reflexivity. Qed.

(** When fuse_get_req fails between two pieces of a direct write, the error
    is released as if it were a request. *)
Theorem direct_write_bad_put :
  let buf := replicate 20 "x"%char in
  fuse_direct_io map_all accept_all (fun k => match k with O => 0 | S _ => - 12 end) 5 6 buf 4090 1 true 20 0 0 = UB.
Proof. vm_compute. reflexivity. Qed.

(** An error of [get_user_pages] takes the place of the bytes already written, and the
    offset of the file stays. *)
Example partial_write_reported_as_error :
  fuse_direct_io (fun k n => match k with O => n | S _ => - 14 end) accept_all (fun _ => 0) 5 6
    (replicate 20 "x"%char) 4090 1 true 20 0 0
  = Ret (- 14, 0, 0, [fuse_send_write 5 6 0 (replicate 6 "x"%char)]).
Proof. vm_compute. reflexivity. Qed.

(** * The first message *)

Section Handshake.
Context (alloc_ok : nat -> bool) (chan_send : nat -> Z) (chan_bufsize : Z).
Context (op : lowlevel_op -> bool) (op_init : fuse_conn_info -> fuse_conn_info).

(** What the two sides agree on before the file system has its say. *)
Definition negotiated (c : fuse_conn_info) (ra : Z) : fuse_conn_info :=
  ConnInfo 7 8 (async_read c) (Z.min (Z.max chan_bufsize FUSE_MIN_READ_BUFFER - 4096) (max_write c))
    (Z.min ra (max_readahead c)).

Definition init_flags (c : fuse_conn_info) : Z :=
  Z.lor (if async_read c then FUSE_ASYNC_READ else 0)
    (if op op_getlk && op op_setlk then FUSE_POSIX_LOCKS else 0).

Definition init_reply (c : fuse_conn_info) : bytes :=
  fuse_init_out FUSE_KERNEL_VERSION FUSE_KERNEL_MINOR_VERSION (max_readahead c) (init_flags c) (max_write c).

Lemma strlen_init_reply c : strlen (init_reply c) = 24.
Proof. unfold init_reply, fuse_init_out, u32. rewrite !strlen_app, !strlen_le_bytes. lia. Qed.

Lemma runs_do_init req r nodeid ra stale f (Q : option ll_call -> fuse_ll -> Prop) :
  serves f req r -> fits 4 ra ->
  let c := op_init (negotiated (FuseLowlevel.conn f) ra) in
  Q None (answered req (reply_bytes 0 (unique r) (init_reply c)) (set_got_init c f)) ->
  runs (do_init chan_send chan_bufsize op op_init req nodeid
    (concat [fuse_init_in FUSE_KERNEL_VERSION FUSE_KERNEL_MINOR_VERSION ra (Z.lor FUSE_ASYNC_READ FUSE_POSIX_LOCKS)] ++ stale)) f Q.
Proof.
  intros Hs Hra c HQ. cbn [concat]. rewrite app_nil_r. unfold do_init, fuse_init_in. wire. cbv zeta.
  apply runs_bind, runs_holds; [done | |].
  { unfold u32. rewrite !strlen_app, !strlen_le_bytes. pose proof (strlen_nonneg stale). lia. }
  apply runs_bind, runs_get, runs_bind, runs_modify. cbn [FuseLowlevel.conn async_read max_write max_readahead].
  change (negb (Z.land (Z.lor FUSE_ASYNC_READ FUSE_POSIX_LOCKS) FUSE_ASYNC_READ =? 0)) with true.
  rewrite (andb_true_r (async_read _)). apply runs_bind, runs_modify, runs_bind.
  match goal with |- runs _ _ ?R =>
    change (runs (send_reply_ok chan_send req (take 24 (init_reply c))) (set_got_init c f) R) end.
  assert (take 24 (init_reply c) = init_reply c) as ->.
  { apply take_ge. pose proof (strlen_init_reply c) as H. unfold strlen in H. lia. }
  eapply runs_send_reply; [exact Hs | done |]. by apply runs_ret.
Qed.

Lemma process_init_reply_fields c l :
  fits 4 (max_write c) -> fits 4 (max_readahead c) ->
  process_init_reply 0 (init_out (init_reply c)) l =
    Limits 8 (l_max_read l) (max_write c) (Z.min (l_ra_pages l) (max_readahead c / PAGE_SIZE))
      (async_read c || l_async_read l) (negb (op op_getlk && op op_setlk) || l_no_lock l) true (l_conn_error l) false.
Proof.
  intros Hw Hr. assert (init_out (init_reply c) = init_reply c) as ->.
  { unfold init_out. pose proof (strlen_init_reply c) as H. unfold strlen in H.
    replace (Z.to_nat sizeof_init_out - length (init_reply c))%nat with O by (unfold sizeof_init_out; lia).
    apply app_nil_r. }
  assert (fits 4 (init_flags c)) as Hf by (unfold init_flags; destruct (async_read c), (op op_getlk && op op_setlk); done).
  unfold process_init_reply, init_reply, fuse_init_out. rewrite <- (app_nil_r (u32 (max_write c))). wire. cbv zeta. cbn [negb orb Z.eqb].
  unfold init_flags. destruct (async_read c), (op op_getlk && op op_setlk); reflexivity.
Qed.

(** The library has processed the first message, and the kernel takes the reply. *)
Lemma init_processed kr ra stale f :
  let c := op_init (negotiated (FuseLowlevel.conn f) ra) in
  in_ kr = (fuse_send_init ra).1 -> fits 4 ra -> header_ok kr ->
  FuseLowlevel.interrupts f = [] -> alloc_ok (allocs f) = true ->
  runs (fuse_ll_process alloc_ok chan_send chan_bufsize op op_init (message kr ++ stale)) f
    (fun x f' => x = None /\ f' = answered (brk f) (reply_bytes 0 (FuseDevice.unique kr) (init_reply c))
                                  (set_got_init c (in_service kr f))).
Proof.
  intros c Hin Hra Hh Hintr Halloc.
  set (r := FuseLowlevel.Req (FuseDevice.unique kr) 1 (FuseDevice.uid kr) (FuseDevice.gid kr) (FuseDevice.pid kr) false 0).
  eapply (process_dispatch alloc_ok chan_send chan_bufsize op op_init kr); rewrite ?Hin; try done; [by right | by auto |].
  cbn [fst args nodeid fuse_send_init]. eapply (runs_do_init (brk f) r); [by split; [apply lookup_insert_eq |] | done |].
  by split.
Qed.

Lemma init_answered fc kr c :
  out kr = Out [sizeof_init_out] true -> awaits fc kr -> fits 8 (FuseDevice.unique kr) -> FuseDevice.unique kr <> 0 ->
  fuse_dev_writev (reply_bytes 0 (FuseDevice.unique kr) (init_reply c)) fc
    = Ret (strlen (reply_bytes 0 (FuseDevice.unique kr) (init_reply c)), ended_with kr 0 [init_reply c] fc).
Proof.
  intros Hout Haw Hu Hu0.
  rewrite (writev_reply fc kr 0 (init_reply c) Haw Hu Hu0) by (rewrite ?strlen_init_reply; done).
  rewrite Hout, (copy_one sizeof_init_out true (init_reply c)); [by rewrite strlen_reply |].
  left. by rewrite strlen_init_reply.
Qed.

(** C30. The first exchange, end to end: the kernel sends INIT, the library
    decodes it and asks the file system, and what the kernel makes of the reply
    are the limits that the file system chose: the maximum of a write, the
    smaller of the two read-aheads, asynchronous reads, and no locks exactly
    when the file system lacks one of the two operations on locks. *)
Theorem handshake fc kr l stale f :
  let c := op_init (negotiated (FuseLowlevel.conn f) (l_ra_pages l * PAGE_SIZE)) in
  (in_ kr, out kr) = fuse_send_init (l_ra_pages l * PAGE_SIZE) -> fits 4 (l_ra_pages l * PAGE_SIZE) ->
  header_ok kr -> awaits fc kr -> FuseDevice.unique kr <> 0 ->
  FuseLowlevel.interrupts f = [] -> alloc_ok (allocs f) = true ->
  fits 4 (max_write c) -> fits 4 (max_readahead c) ->
  exists f' b arg,
    fuse_ll_process alloc_ok chan_send chan_bufsize op op_init (message kr ++ stale) f = Ret (None, f') /\
    got_init f' = true /\ FuseLowlevel.conn f' = c /\ sent f' = sent f ++ [b] /\
    fuse_dev_writev b fc = Ret (strlen b, ended_with kr 0 [arg] fc) /\
    process_init_reply 0 (init_out arg) l =
      Limits 8 (l_max_read l) (max_write c) (Z.min (l_ra_pages l) (max_readahead c / PAGE_SIZE))
        (async_read c || l_async_read l) (negb (op op_getlk && op op_setlk) || l_no_lock l) true (l_conn_error l) false.
Proof.
  intros c Hkr Hra Hh Haw Hu0 Hintr Halloc Hw Hr. injection Hkr as Hin Hout.
  pose proof (init_processed kr _ stale f Hin Hra Hh Hintr Halloc) as (x & f' & E & -> & ->)%runs_eq.
  eexists _, (reply_bytes 0 (FuseDevice.unique kr) (init_reply c)), (init_reply c). split; [exact E |].
  do 3 (split; [done |]). destruct Hh as (Hu & _).
  split; [by apply init_answered | by apply process_init_reply_fields].
Qed.
End Handshake.

(** A new library with a buffer of 0x21000 bytes, and a new connection. *)
Definition new_library : fuse_ll :=
  LL false 0 false false (ConnInfo 0 0 true 4294967295 4294967295) ∅ 0 0 [] [] [].
Definition init_req : FuseDevice.fuse_req := set_unique 1 (new_req 0 0 0 (fuse_send_init 131072) true false NoSignal).
Definition init_conn : fuse_conn := set_processing [init_req] (set_reqctr 1 new_conn).

Lemma handshake_witness :
  exists f' b arg,
    fuse_ll_process (fun _ => true) (fun _ => 0) 135168 (fun _ => true) id (message init_req ++ B "stale") new_library
      = Ret (None, f') /\
    fuse_dev_writev b init_conn = Ret (strlen b, ended_with init_req 0 [arg] init_conn) /\
    process_init_reply 0 (init_out arg) (new_limits 4294967295) = Limits 8 4294967295 131072 32 true false true false false.
Proof.
  destruct (handshake (fun _ => true) (fun _ => 0) 135168 (fun _ => true) id init_conn init_req (new_limits 4294967295)
    (B "stale") new_library) as (f' & b & arg & E & _ & _ & _ & Ew & El).
  - reflexivity.
  - vm_compute. split; [discriminate | reflexivity].
  - vm_compute. repeat split; discriminate || reflexivity.
  - split_and!; vm_compute; done.
  - discriminate.
  - reflexivity.
  - reflexivity.
  - vm_compute. split; [discriminate | reflexivity].
  - vm_compute. split; [discriminate | reflexivity].
  - exists f', b, arg. split; [exact E |]. split; [exact Ew |]. rewrite El. reflexivity.
Defined.

(** * Locks *)

(** The end of a lock that the library describes by a length. *)
Definition lock_end (lk : flock) : Z := if l_len lk =? 0 then OFFSET_MAX else l_start lk + l_len lk - 1.

Definition flock_ok (lk : flock) : Prop :=
  0 <= l_type lk <= 2 /\ small (l_pid lk) /\ 0 <= l_start lk /\ 0 <= l_len lk /\ l_start lk + l_len lk <= OFFSET_MAX.

(** A lock survives its way to the caller of F_GETLK: for a well-formed
    struct flock that the library replies with, the caller gets its type, its
    process and the bytes from its start to its end, or up to the largest offset
    when its length is 0. *)
Theorem lock_round_trip chan_send fc kr req r lk fl f :
  awaits fc kr -> fits 8 (FuseDevice.unique kr) -> FuseDevice.unique kr <> 0 ->
  serves f req r -> unique r = FuseDevice.unique kr -> out kr = Out [sizeof_lk_out] false -> flock_ok lk ->
  exists b arg, fuse_reply_lock chan_send req lk f = Ret (chan_send (length (sent f)), answered req b f) /\
    fuse_dev_writev b fc = Ret (strlen b, ended_with kr 0 [arg] fc) /\
    convert_fuse_file_lock 0 arg fl =
      inr (if l_type lk =? F_UNLCK then FileLock F_UNLCK (fl_start fl) (fl_end fl) (fl_pid fl)
           else FileLock (l_type lk) (l_start lk) (lock_end lk) (l_pid lk)).
Proof.
  intros Haw Hu Hu0 Hs Hur Hout (Ht & Hp & H0 & Hl & Hmax).
  assert (0 <= lock_end lk <= OFFSET_MAX /\ l_start lk <= lock_end lk) as [He Hse]
    by (unfold lock_end, OFFSET_MAX in *; destruct (Z.eqb_spec (l_len lk) 0); lia).
  set (arg := if l_type lk =? F_UNLCK then fuse_file_lock 0 0 (l_type lk) (l_pid lk)
              else fuse_file_lock (l_start lk) (lock_end lk) (l_type lk) (l_pid lk)).
  assert (strlen arg = 24) as Harg.
  { unfold arg, fuse_file_lock, u32, u64. destruct (_ =? _); rewrite !strlen_app, !strlen_le_bytes; lia. }
  assert (runs (fuse_reply_lock chan_send req lk) f (fun z f' => z = chan_send (length (sent f)) /\
    f' = answered req (reply_bytes 0 (unique r) arg) f)) as (z & f' & E & -> & ->)%runs_eq.
  { unfold fuse_reply_lock. cbv zeta. apply runs_bind, runs_assert.
    { unfold OFFSET_MAX in *. apply orb_true_iff. destruct (Z.eqb_spec (l_len lk) 0) as [|Hn]; [left; apply orb_true_r |].
      right. apply andb_true_iff. split; apply in_range_spec; lia. }
    eapply runs_send_reply; [exact Hs | done |]. split; [done |]. unfold arg, lock_end. by destruct (l_type lk =? F_UNLCK). }
  eexists _, arg. split; [exact E |]. split.
  - rewrite Hur, (writev_reply fc kr 0 arg Haw Hu Hu0) by (rewrite ?Harg; done).
    rewrite Hout, (copy_one sizeof_lk_out false arg) by (left; by rewrite Harg). by rewrite strlen_reply.
  - assert (fits 4 (l_type lk)) as Hft by (unfold fits; simpl; lia).
    assert (fits 8 (l_start lk) /\ fits 8 (lock_end lk)) as [Hfs Hfe]
      by (unfold fits, OFFSET_MAX in *; simpl; lia).
    unfold arg, convert_fuse_file_lock, fuse_file_lock. cbn [Nat.add].
    destruct (Z.eqb_spec (l_type lk) F_UNLCK) as [->|Hne].
    + rewrite <- (app_nil_r (u32 (l_pid lk))). by wire.
    + rewrite <- (app_nil_r (u32 (l_pid lk))). wire. cbv zeta. rewrite to_i32_small by done.
      unfold F_UNLCK, F_RDLCK, F_WRLCK in *. replace (l_type lk =? 2) with false by lia.
      replace ((l_type lk =? 0) || (l_type lk =? 1)) with true by lia.
      by replace ((OFFSET_MAX <? l_start lk) || (OFFSET_MAX <? lock_end lk) || (lock_end lk <? l_start lk)) with false by lia.
Qed.

(** The query of a lock that is answered with a lock of process 77 on bytes 10 to 19. *)
Definition getlk_req : FuseDevice.fuse_req :=
  set_unique 7 (new_req 1000 100 4321 (fuse_getlk 2 6 99 0 100 F_WRLCK) true false AnySignal).
Definition getlk_conn : fuse_conn := set_processing [getlk_req] (set_reqctr 7 new_conn).

Lemma lock_round_trip_witness :
  exists b arg,
    fuse_reply_lock (fun _ => 0) 0 (Flock F_WRLCK SEEK_SET 10 10 77) (in_service getlk_req ready)
      = Ret (0, answered 0 b (in_service getlk_req ready)) /\
    fuse_dev_writev b getlk_conn = Ret (strlen b, ended_with getlk_req 0 [arg] getlk_conn) /\
    convert_fuse_file_lock 0 arg (FileLock F_WRLCK 0 100 0) = inr (FileLock F_WRLCK 10 19 77).
Proof.
  apply (lock_round_trip (fun _ => 0) getlk_conn getlk_req 0 (FuseLowlevel.Req 7 1 1000 100 4321 false 0)
    (Flock F_WRLCK SEEK_SET 10 10 77) (FileLock F_WRLCK 0 100 0) (in_service getlk_req ready)).
  - split_and!; vm_compute; done.
  - done.
  - discriminate.
  - split; reflexivity.
  - reflexivity.
  - reflexivity.
  - vm_compute. repeat split; discriminate.
Defined.
