(* ===== verification/FuseLoop.v ===== *)
(** A mounted file system as a whole: the kernel module with its device, the session of
    the FUSE library that reads requests and writes replies (lib/fuse_session.c,
    fuse_kern_chan.c, fuse_loop.c, fuse_signals.c), and a file system that answers
    them. The processes that use the file system are a script of events. *)

From S2P Require Import Prelude.
From S2P Require Import CString.
From S2P Require Import FuseDir.
From S2P Require Import FuseWire.
From S2P Require Import FuseDevice.
From S2P Require Import FuseLowlevel.
From S2P Require Import FuseWireProps.
From S2P Require Import FuseKernel.

Definition MIN_BUFSIZE : Z := 135168.

(** [bufsize] of the channel that [fuse_kern_chan_new] makes. *)
Definition kern_bufsize : Z :=
  let bufsize := PAGE_SIZE + 4096 in if bufsize <? MIN_BUFSIZE then MIN_BUFSIZE else bufsize.

(** What others do: a process makes a call and waits for the answer, or sends a request
    without waiting; it gets a signal; the connection is aborted; the server gets a
    signal that [exit_handler] handles. *)
Inductive event :=
| Call (uid gid pid : Z) (io : fuse_in * fuse_out) (force : bool)
| Post (uid gid pid : Z) (io : fuse_in * fuse_out) (isreply : bool)
| CallerSignal (u : Z) (fatal : bool)
| AbortConnection
| ExitSignal.

(** [kern] are the limits of the connection, [exited] the field of the session, [buf]
    the buffer of [fuse_session_loop]; [script] is what happens from one read to the
    next. *)
Record world (FS : Type) := World {
  dev : fuse_conn; kern : limits; lib : fuse_ll; fs : FS; exited : bool; buf : bytes;
  script : list (list event) }.
Arguments World {FS}.
Arguments dev {FS}. Arguments kern {FS}. Arguments lib {FS}. Arguments fs {FS}.
Arguments exited {FS}. Arguments buf {FS}. Arguments script {FS}.

Section Loop.
Context {FS : Type}.

Definition set_dev d (w : world FS) := World d (kern w) (lib w) (fs w) (exited w) (buf w) (script w).
Definition set_kern l (w : world FS) := World (dev w) l (lib w) (fs w) (exited w) (buf w) (script w).
Definition set_lib f (w : world FS) := World (dev w) (kern w) f (fs w) (exited w) (buf w) (script w).
Definition set_fs (s : FS) (w : world FS) := World (dev w) (kern w) (lib w) s (exited w) (buf w) (script w).
Definition set_exited b (w : world FS) := World (dev w) (kern w) (lib w) (fs w) b (buf w) (script w).
Definition set_buf b (w : world FS) := World (dev w) (kern w) (lib w) (fs w) (exited w) b (script w).
Definition set_script sc (w : world FS) := World (dev w) (kern w) (lib w) (fs w) (exited w) (buf w) sc.

(** The memory of the library, its buffer size, the operations of the file system, its
    [init], and its answers. *)
Context (alloc_ok : nat -> bool) (op : lowlevel_op -> bool) (op_init : fuse_conn_info -> fuse_conn_info).
Context (answer : ll_call -> M FS ll_reply).

(** * The kernel *)

(** [req->end]: of the requests that are modelled only the first has one. *)
Definition req_end (l : limits) (x : FuseDevice.fuse_req * Z * list bytes) : limits :=
  let '(req, error, args) := x in
  if opcode (in_ req) =? FUSE_INIT then process_init_reply error (init_out (default [] (head args))) l else l.

(** An operation of the device, with [req->end] of the requests that it ends. *)
Definition on_dev {A} (m : M fuse_conn A) : M (world FS) A := fun w =>
  match m (dev w) with
  | Ret (a, d) =>
      Ret (a, set_kern (foldl req_end (kern w) (drop (length (ended (dev w))) (ended d))) (set_dev d w))
  | Exit z => Exit z
  | UB => UB
  | Hang => Hang
  end.

(** [fc->blocked = 0]. *)
Definition unblocked (l : limits) : limits :=
  Limits (l_minor l) (l_max_read l) (l_max_write l) (l_ra_pages l) (l_async_read l) (l_no_lock l)
    (l_conn_init l) (l_conn_error l) false.

(** Of the last unmount. *)
Definition fuse_put_super : M (world FS) unit :=
  _ ← on_dev (modify set_disconnected); modify (fun w => set_kern (unblocked (kern w)) w).

(** * The session *)

Definition fuse_session_exit : M (world FS) unit := modify (set_exited true).
Definition fuse_session_reset : M (world FS) unit := modify (set_exited false).
Definition exit_handler : M (world FS) unit := fuse_session_exit.

(** An event; whether it interrupts a read of the device. *)
Definition happens (e : event) : M (world FS) bool :=
  match e with
  | Call uid gid pid io force => _ ← on_dev (modify (request_send uid gid pid io force)); mret false
  | Post uid gid pid io isreply => _ ← on_dev (modify (request_send_nowait uid gid pid io isreply)); mret false
  | CallerSignal u fatal => _ ← on_dev (request_wait_answer u fatal); mret false
  | AbortConnection => _ ← on_dev (modify fuse_abort_conn); mret false
  | ExitSignal => _ ← exit_handler; mret true
  end.

Fixpoint happen (es : list event) : M (world FS) bool :=
  match es with
  | [] => mret false
  | e :: es => intr ← happens e; intrs ← happen es; mret (intr || intrs)
  end.

(** What happened since the last read. Until the first reply [fuse_get_req] makes all
    callers wait. *)
Definition meanwhile : M (world FS) unit :=
  w ← get;
  if l_blocked (kern w) then mret tt
  else
    match script w with
    | [] => mret tt
    | es :: sc => _ ← modify (set_script sc); _ ← happen es; mret tt
    end.

(** Whether a read returns at once. *)
Definition request_ready (fc : fuse_conn) : bool :=
  negb (connected fc)
  || match pending fc, FuseDevice.interrupts fc with [], [] => false | _, _ => true end.

(** A read of the device waits while there is nothing to read: whether a signal ends
    the wait. When nobody has anything left to do, or can do it, the file system is
    unmounted. *)
Fixpoint request_wait (sc : list (list event)) : M (world FS) bool :=
  w ← get;
  if request_ready (dev w) then _ ← modify (set_script sc); mret false
  else if l_blocked (kern w) then _ ← fuse_put_super; mret false
  else
    match sc with
    | [] => _ ← modify (set_script []); _ ← fuse_put_super; mret false
    | es :: sc =>
        intr ← happen es;
        w ← get;
        if intr && negb (request_ready (dev w)) then _ ← modify (set_script sc); mret true
        else request_wait sc
    end.

(** The system call. *)
Definition read (size : Z) : M (world FS) (Z + bytes) :=
  w ← get;
  intr ← request_wait (script w);
  if intr : bool then mret (inl (- EINTR)) else on_dev (fuse_dev_readv size).

(** The number of bytes in the buffer, 0 at the end of the session, or an error. *)
Fixpoint fuse_kern_chan_receive (fuel : nat) (size : Z) : M (world FS) Z :=
  match fuel with
  | O => hang
  | S fuel =>
      res ← read size;
      _ ← match res with
          | inr m => modify (fun w => set_buf (m ++ drop (length m) (buf w)) w)
          | inl _ => mret tt
          end;
      w ← get;
      if exited w then mret 0
      else
        match res with
        | inl err =>
            if err =? - ENOENT then fuse_kern_chan_receive fuel size
            else if err =? - ENODEV then _ ← fuse_session_exit; mret 0
            else mret err
        | inr m => mret (if strlen m <? sizeof_in_header then - EIO else strlen m)
        end
  end.

Definition fuse_kern_chan_send (b : bytes) : M (world FS) Z :=
  res ← on_dev (fuse_dev_writev b); mret (if res <? 0 then res else 0).

(** ** Processing *)

Fixpoint send_all (bs : list bytes) : M (world FS) unit :=
  match bs with
  | [] => mret tt
  | b :: bs => _ ← fuse_kern_chan_send b; send_all bs
  end.

(** A computation of the library, and the messages that it sends: what the writes return
    is ignored by the library, and by this file system. *)
Definition on_lib {A} (m : M fuse_ll A) : M (world FS) A := fun w =>
  match m (lib w) with
  | Ret (a, f) =>
      (_ ← send_all (drop (length (sent (lib w))) (sent f)); mret a) (set_lib f w)
  | Exit z => Exit z
  | UB => UB
  | Hang => Hang
  end.

(** A computation of the file system. *)
Definition on_fs {A} (m : M FS A) : M (world FS) A := fun w =>
  match m (fs w) with
  | Ret (a, s) => Ret (a, set_fs s w)
  | Exit z => Exit z
  | UB => UB
  | Hang => Hang
  end.

(** The file system answers a call before it returns. *)
Definition serve (req : nat) (call : ll_call) : M (world FS) unit :=
  a ← on_fs (answer call);
  match call with
  | Forget _ _ => on_lib (fuse_reply_none req)
  | _ => _ ← on_lib (fuse_reply (fun _ => 0) req a); mret tt
  end.

Definition fuse_session_process : M (world FS) unit :=
  w ← get;
  call ← on_lib (fuse_ll_process alloc_ok (fun _ => 0) kern_bufsize op op_init (buf w));
  match call with Some (req, call) => serve req call | None => mret tt end.

(** ** The loop *)

(** The last [res]. *)
Fixpoint session_loop (fuel : nat) (res : Z) : M (world FS) Z :=
  match fuel with
  | O => hang
  | S fuel =>
      _ ← meanwhile;
      w ← get;
      if exited w then mret res
      else
        res ← fuse_kern_chan_receive (S fuel) kern_bufsize;
        if res =? - EINTR then session_loop fuel res
        else if res <=? 0 then mret res
        else _ ← fuse_session_process; session_loop fuel res
  end.

(** [malloc] may fail, and leaves anything in the buffer. *)
Definition fuse_session_loop (fuel : nat) (malloc : option bytes) : M (world FS) Z :=
  match malloc with
  | None => mret (- 1)
  | Some b =>
      _ ← modify (set_buf b);
      res ← session_loop fuel 0;
      _ ← fuse_session_reset;
      mret (if res <? 0 then - 1 else 0)
  end.

(** * Mounting *)

(** [fuse_lowlevel_new_common] without options. *)
Definition fuse_lowlevel_new (uid : Z) : fuse_ll :=
  LL false uid false false (ConnInfo 0 0 true 4294967295 4294967295) ∅ 0 0 [] [] [].

(** [fuse_fill_super] sends the first request. *)
Definition fuse_fill_super (max_read : Z) : fuse_conn :=
  let l := new_limits max_read in
  request_send_nowait 0 0 0 (fuse_send_init (l_ra_pages l * PAGE_SIZE)) true new_conn.

Definition mounted (max_read uid : Z) (s : FS) (sc : list (list event)) : world FS :=
  World (fuse_fill_super max_read) (new_limits max_read) (fuse_lowlevel_new uid) s false [] sc.
End Loop.
