(* ===== verification/FuseLoopProps.v ===== *)
(** A mounted file system serves its processes: the whole way of every call, from the
    process through the kernel, the device and the session to the file system, and of
    its answer back, until the file system is unmounted. *)

From S2P Require Import Prelude.
From S2P Require Import CString.
From S2P Require Import FuseDir.
From S2P Require Import FuseWire.
From S2P Require Import FuseDevice.
From S2P Require Import FuseLowlevel.
From S2P Require Import FuseWireProps.
From S2P Require Import FuseKernel.
From S2P Require Import FuseKernelProps.
From S2P Require Import FuseLoop.

(** * Callers and what they get *)

(** A process that makes a call: its user, group and number. *)
Definition caller : Type := Z * Z * Z * kernel_call.

Definition call_of (c : caller) : kernel_call := c.2.

(** The functions of the kernel that send without waiting are those of FORGET and RELEASE;
    [fuse_flush] sends even when a signal is pending. *)
Definition event_of (c : caller) : event :=
  let '(uid, gid, pid, k) := c in
  match k with
  | KForget _ _ => Post uid gid pid (kernel_request k) false
  | KRelease _ _ _ _ => Post uid gid pid (kernel_request k) true
  | KFlush _ _ _ => Call uid gid pid (kernel_request k) true
  | _ => Call uid gid pid (kernel_request k) false
  end.

Definition is_forget (k : kernel_call) : bool := match k with KForget _ _ => true | _ => false end.

(** The arguments have their types, and the message fits in the buffer of the session. *)
Definition caller_ok (c : caller) : Prop :=
  let '(uid, gid, pid, k) := c in
  fits 4 uid /\ fits 4 gid /\ small pid /\ call_ok k /\
  sizeof_in_header + len_args (strlen <$> args (kernel_request k).1) <= kern_bufsize.

(** The request [r] is the one of the caller. *)
Definition sent_by (r : FuseDevice.fuse_req) (c : caller) : Prop :=
  let '(uid, gid, pid, k) := c in
  in_ r = (kernel_request k).1 /\ out r = (kernel_request k).2 /\
  FuseDevice.uid r = uid /\ FuseDevice.gid r = gid /\ FuseDevice.pid r = pid.

(** What the caller finds when the file system answers [a]: a FORGET takes no answer. *)
Definition got (x : FuseDevice.fuse_req * Z * list bytes) (c : caller) (a : ll_reply) : Prop :=
  let '(r, error, args) := x in
  sent_by r c /\
  if is_forget (call_of c) then error = 0 /\ args = [] else error = error_of a /\ received a args.

(** The specification of a session: the file system, called with the calls one after
    the other, gives the answers [l], each of which its call can take. *)
Inductive answered_by {FS} (answer : ll_call -> M FS ll_reply)
  : FS -> list caller -> list ll_reply -> FS -> Prop :=
| answered_nil s : answered_by answer s [] [] s
| answered_cons s c cs a l s1 s2 :
    answer (meant (call_of c)) s = Ret (a, s1) -> suits (kernel_request (call_of c)).2 8 a ->
    answered_by answer s1 cs l s2 -> answered_by answer s (c :: cs) (a :: l) s2.

Section Loop.
Context {FS : Type} (alloc_ok : nat -> bool) (op : lowlevel_op -> bool) (op_init : fuse_conn_info -> fuse_conn_info).
Context (answer : ll_call -> M FS ll_reply).

(** Memory does not run out, the file system has all the operations, it keeps the
    version of the protocol and chooses limits of 32 bits. *)
Context (memory : forall n, alloc_ok n = true) (all_ops : forall o, op o = true).
Context (keeps_version : forall c, proto_minor (op_init c) = proto_minor c).
Context (limits_fit : forall c, fits 4 (max_write c) -> fits 4 (max_readahead c) ->
  fits 4 (max_write (op_init c)) /\ fits 4 (max_readahead (op_init c))).

Abbreviation process := (fuse_session_process alloc_ok op op_init answer).
Abbreviation loop := (session_loop alloc_ok op op_init answer).

(** ** Steps of the world *)

Lemma runs_on_dev {A} (m : M fuse_conn A) (w : world FS) (Q : A -> world FS -> Prop) :
  runs m (dev w) (fun a d =>
    Q a (set_kern (foldl req_end (kern w) (drop (length (ended (dev w))) (ended d))) (set_dev d w))) ->
  runs (on_dev m) w Q.
Proof. unfold runs, on_dev. by destruct (m (dev w)) as [[a d]| | |]. Qed.

Lemma runs_on_lib {A} (m : M fuse_ll A) (w : world FS) (Q : A -> world FS -> Prop) :
  runs m (lib w) (fun a f =>
    runs (send_all (drop (length (sent (lib w))) (sent f))) (set_lib f w) (fun _ w' => Q a w')) ->
  runs (on_lib m) w Q.
Proof.
  intros H. unfold runs, on_lib in *. destruct (m (lib w)) as [[a f]| | |]; [| done..].
  apply runs_bind. eapply runs_mono; [exact H |]. intros u w' HQ. by apply runs_ret.
Qed.

(** The library is between two messages. *)
Definition lib_idle (f : fuse_ll) : Prop :=
  got_init f = true /\ allow_root f = false /\ heap f = ∅ /\ requests f = [] /\
  FuseLowlevel.interrupts f = [] /\ proto_minor (FuseLowlevel.conn f) = 8.

(** A request of the caller that waits to be read. *)
Definition queued (c : caller) (r : FuseDevice.fuse_req) : Prop :=
  caller_ok c /\ sent_by r c /\ isreply r = negb (is_forget (call_of c)) /\
  FuseDevice.interrupted r = false /\ aborted r = false /\ intr_unique r = 0 /\
  fits 8 (FuseDevice.unique r) /\ FuseDevice.unique r <> 0.

(** The device with the requests [rs], and [done] that have ended. *)
Definition dev_holds (rs : list FuseDevice.fuse_req) (done : list (FuseDevice.fuse_req * Z * list bytes))
  (fc : fuse_conn) : Prop :=
  connected fc = true /\ conn_error fc = false /\ no_interrupt fc = false /\ FuseDevice.interrupts fc = [] /\
  processing fc = [] /\ pending fc = rs /\ ended fc = done.

(** The session serves the calls [ps] next, in a file system in the state [s]. *)
Record serving (l : limits) (done : list (FuseDevice.fuse_req * Z * list bytes)) (s : FS) (ps : list caller)
  (w : world FS) : Prop := {
  s_dev : exists rs, Forall2 queued ps rs /\ dev_holds rs done (dev w);
  s_kern : kern w = l;
  s_lib : lib_idle (lib w);
  s_fs : fs w = s;
  s_exited : exited w = false }.

Lemma unique_ok fc : fits 8 (fuse_get_unique fc) /\ fuse_get_unique fc <> 0.
Proof.
  unfold fuse_get_unique, fits, to_u64, to_unsigned. cbv zeta.
  pose proof (Z.mod_pos_bound (reqctr fc + 1) (2 ^ 64) ltac:(lia)). change (256 ^ Z.of_nat 8) with (2 ^ 64).
  destruct (Z.eqb_spec ((reqctr fc + 1) mod 2 ^ 64) 0); split; lia.
Qed.

Lemma queue_ends r fc : ended (queue_request r fc) = ended fc.
Proof. done. Qed.

(** A process makes a call. *)
Lemma runs_event l done s ps c w (Q : bool -> world FS -> Prop) :
  serving l done s ps w -> caller_ok c ->
  (forall w', serving l done s (ps ++ [c]) w' -> script w' = script w -> buf w' = buf w -> Q false w') ->
  runs (happens (event_of c)) w Q.
Proof.
  intros [(rs & Hrs & Hd) Hk Hl Hs He] Hc HQ. destruct Hd as (H1 & H2 & H3 & H4 & H5 & H6 & H7).
  destruct (unique_ok (dev w)) as [Hu Hu0].
  assert (forall force isreply w0, isreply = negb (is_forget (call_of c)) -> forall io : fuse_in * fuse_out,
    io = kernel_request (call_of c) ->
    Q false (set_kern (kern w) (set_dev (queue_request (new_req c.1.1.1 c.1.1.2 c.1.2 io isreply force w0) (dev w)) w)))
    as Hq.
  { intros force isreply w0 Hir io ->. apply HQ; [| done | done]. split; [| done | done | done | done].
    eexists (rs ++ [_]). split; [apply Forall2_app; [done |]; constructor; [| constructor] |].
    2:{ unfold dev_holds. cbn. rewrite H6. done. }
    destruct c as [[[uid gid] pid] k]. by split_and!. }
  assert (forall io force, io = kernel_request (call_of c) -> is_forget (call_of c) = false ->
    runs (happens (Call c.1.1.1 c.1.1.2 c.1.2 io force)) w Q) as Hcall.
  { intros io force Hio Hf. cbn [happens]. apply runs_bind, runs_on_dev, runs_modify. unfold request_send.
    rewrite H1, H2, H3. cbn [negb]. cbv zeta. rewrite queue_ends, drop_all. cbn [foldl]. apply runs_ret. apply Hq; [by rewrite Hf | done]. }
  assert (forall io isreply, io = kernel_request (call_of c) -> isreply = negb (is_forget (call_of c)) ->
    runs (happens (Post c.1.1.1 c.1.1.2 c.1.2 io isreply)) w Q) as Hpost.
  { intros io isreply Hio Hf. cbn [happens]. apply runs_bind, runs_on_dev, runs_modify. unfold request_send_nowait.
    rewrite H1. cbv zeta. rewrite queue_ends, drop_all. cbn [foldl]. apply runs_ret. by apply Hq. }
  destruct c as [[[uid gid] pid] k]. destruct k; (by apply Hcall) || (by apply Hpost).
Qed.

Lemma runs_calls l done s cs : forall ps w (Q : bool -> world FS -> Prop),
  serving l done s ps w -> Forall caller_ok cs ->
  (forall w', serving l done s (ps ++ cs) w' -> script w' = script w -> buf w' = buf w -> Q false w') ->
  runs (happen (event_of <$> cs)) w Q.
Proof.
  induction cs as [|c cs IH]; intros ps w Q Hw Hcs HQ.
  - apply runs_ret, HQ; [by rewrite app_nil_r | done | done].
  - inversion Hcs; subst. cbn [fmap list_fmap happen]. apply runs_bind. eapply runs_event; [done | done |].
    intros w1 Hw1 Hs1 Hb1. apply runs_bind. eapply IH; [exact Hw1 | done |].
    intros w2 Hw2 Hs2 Hb2. apply runs_ret. apply HQ; [by rewrite <- app_assoc in Hw2 | congruence | congruence].
Qed.

(** ** Serving one call *)

Lemma nodeid_ok k : call_ok k -> fits 8 (nodeid (kernel_request k).1).
Proof.
  destruct k; cbn [call_ok]; intros H; destruct_and? H;
    repeat match goal with b : bool |- _ => destruct b end; done.
Qed.

Lemma not_init k : (opcode (kernel_request k).1 =? FUSE_INIT) = false.
Proof. destruct k; repeat match goal with b : bool |- _ => destruct b end; reflexivity. Qed.

Lemma queued_header c r : queued c r -> header_ok r /\ reqsize r <= kern_bufsize /\ (opcode (in_ r) =? FUSE_INIT) = false.
Proof.
  destruct c as [[[uid gid] pid] k].
  intros ((Hui & Hgi & Hpi & Hk & Hlen) & (Hin & Hout & Hur & Hgr & Hpr) & _ & _ & _ & _ & Hu & Hu0).
  unfold header_ok, reqsize. rewrite Hin, Hur, Hgr, Hpr. split; [| split; [done | apply not_init]].
  repeat (split; [done |]). by apply nodeid_ok.
Qed.

(** The device after the request [r] has been read. *)
Definition read_state (r : FuseDevice.fuse_req) (rs : list FuseDevice.fuse_req) (fc : fuse_conn) : fuse_conn :=
  if isreply r then set_processing [r] (set_pending rs fc)
  else request_end r 0 [] (set_pending rs fc).

Lemma runs_read_request c r rs done fc (Q : Z + bytes -> fuse_conn -> Prop) :
  queued c r -> dev_holds (r :: rs) done fc -> Q (inr (message r)) (read_state r rs fc) ->
  runs (fuse_dev_readv kern_bufsize) fc Q.
Proof.
  intros Hq (H1 & H2 & H3 & H4 & H5 & H6 & H7) HQ. destruct (queued_header _ _ Hq) as (_ & Hsize & _).
  destruct Hq as (_ & _ & Hir & Hint & _).
  unfold fuse_dev_readv. apply runs_bind, runs_get. rewrite H1, H4, H6. cbn [negb dev_read].
  replace (kern_bufsize <? reqsize r) with false by lia. apply runs_bind, runs_modify, runs_bind.
  unfold read_state in HQ. destruct (isreply r).
  - apply runs_bind, runs_modify. rewrite Hint. apply runs_ret, runs_ret.
    cbn [processing set_pending]. rewrite H5. exact HQ.
  - apply runs_modify, runs_ret, HQ.
Qed.

(** The events of a script of calls. *)
Definition events (scs : list (list caller)) : list (list event) := (fun cs : list caller => event_of <$> cs) <$> scs.

(** A read has something to read, or the file system is unmounted. *)
Definition waited (l : limits) (done : list (FuseDevice.fuse_req * Z * list bytes)) (s : FS) (cs : list caller)
  (w : world FS) : Prop :=
  (exists c ps scs, cs = c :: ps ++ concat scs /\ serving l done s (c :: ps) w /\ script w = events scs) \/
  (cs = [] /\ exists w0, serving l done s [] w0 /\
     w = set_kern (unblocked (kern w0)) (set_dev (set_disconnected (dev w0)) w0)).

Lemma runs_wait l done s scs : l_blocked l = false -> forall ps w,
  serving l done s ps w -> Forall caller_ok (concat scs) ->
  runs (request_wait (events scs)) w (fun i w' => i = false /\ waited l done s (ps ++ concat scs) w' ).
Proof.
  intros Hbl.
  assert (forall ps w scs, serving l done s ps w ->
    (ps <> [] -> waited l done s (ps ++ concat scs) (set_script (events scs) w)) /\
    request_ready (dev w) = match ps with [] => false | _ => true end) as Hready.
  { intros ps w scs' [(rs & Hrs & Hd) Hk Hl Hs He]. split.
    - intros Hps. destruct ps as [|c ps]; [done |]. left. exists c, ps, scs'. split_and!; [done | | done].
      split; try done. by exists rs.
    - unfold request_ready. destruct Hd as (-> & _ & _ & -> & _ & -> & _). by inversion Hrs. }
  induction scs as [|cs scs IH]; intros ps w Hw Hok; destruct (Hready ps w [] Hw) as [_ Hr];
    pose proof (s_kern _ _ _ _ _ Hw) as Hk.
  - cbn [events fmap list_fmap request_wait]. apply runs_bind, runs_get. rewrite Hr.
    destruct ps as [|c ps]; [rewrite Hk, Hbl |]; apply runs_bind, runs_modify.
    + apply runs_bind, runs_bind, runs_on_dev, runs_modify. cbn [dev set_script ended set_disconnected]. rewrite drop_all.
      apply runs_modify, runs_ret. split; [done |]. right. split; [done |].
      exists (set_script [] w). split; [| done]. by destruct Hw; split.
    + apply runs_ret. split; [done |]. by apply (Hready _ w []).
  - cbn [events fmap list_fmap request_wait]. apply runs_bind, runs_get. rewrite Hr.
    cbn [concat] in Hok. apply Forall_app in Hok as [Hcs Hok].
    destruct ps as [|c ps]; [rewrite Hk, Hbl |]; apply runs_bind.
    + eapply runs_calls; [exact Hw | exact Hcs |]. intros w1 Hw1 _ _. cbn [andb app].
      apply runs_bind, runs_get. cbn [andb]. cbn [concat]. apply (IH cs w1 Hw1 Hok).
    + apply runs_modify, runs_ret. split; [done |]. by apply (Hready _ w (cs :: scs)).
Qed.

(** The request is taken from the device into the buffer, or the session ends. *)
Lemma runs_receive l done s ps scs fuel w (Q : Z -> world FS -> Prop) :
  l_blocked l = false -> serving l done s ps w -> script w = events scs -> Forall caller_ok (concat scs) ->
  (forall c ps' scs' w1 r rs stale, ps ++ concat scs = c :: ps' ++ concat scs' -> serving l done s (c :: ps') w1 ->
     script w1 = events scs' -> queued c r -> Forall2 queued ps' rs -> dev_holds (r :: rs) done (dev w1) ->
     Q (reqsize r) (set_buf (message r ++ stale) (set_dev (read_state r rs (dev w1)) w1))) ->
  (ps ++ concat scs = [] -> forall w1, serving l done s [] w1 ->
     Q 0 (set_exited true (set_kern (unblocked (kern w1)) (set_dev (set_disconnected (dev w1)) w1)))) ->
  runs (fuse_kern_chan_receive (S fuel) kern_bufsize) w Q.
Proof.
  intros Hbl Hw Hsc Hok HQ HQ0. cbn [fuse_kern_chan_receive].
  apply runs_bind, runs_bind, runs_get, runs_bind. rewrite Hsc. eapply runs_mono; [by eapply runs_wait |].
  intros i w1 [-> [(c & ps' & scs' & Hcs & Hw1 & Hsc1)|(Hcs & w0 & Hw0 & ->)]].
  - pose proof Hw1 as [(rs0 & Hrs & Hd) Hk _ _ He]. inversion Hrs as [|? r ? rs Hq Hrs']; subst.
    apply runs_on_dev. eapply runs_read_request; [exact Hq | exact Hd |].
    destruct (queued_header _ _ Hq) as (_ & _ & Hop).
    assert (set_kern (foldl req_end (kern w1) (drop (length (ended (dev w1))) (ended (read_state r rs (dev w1)))))
      (set_dev (read_state r rs (dev w1)) w1) = set_dev (read_state r rs (dev w1)) w1) as ->.
    { unfold read_state. destruct (isreply r); cbn [ended request_end set_processing set_pending set_ended set_interrupts];
        rewrite ?drop_all, ?drop_app_length; cbn [foldl req_end]; rewrite ?Hop; by destruct w1. }
    apply runs_bind, runs_modify, runs_bind, runs_get. cbn [exited set_buf set_dev]. rewrite He.
    rewrite length_message. replace (reqsize r <? sizeof_in_header) with false.
    2:{ unfold reqsize. rewrite <- strlen_concat. pose proof (strlen_nonneg (concat (args (in_ r)))). lia. }
    apply runs_ret. by eapply HQ.
  - apply runs_on_dev. unfold fuse_dev_readv. apply runs_bind, runs_get. cbn [connected dev set_dev set_disconnected negb].
    apply runs_ret. cbn [dev set_dev ended set_disconnected kern]. rewrite drop_all. cbn [foldl].
    apply runs_bind, runs_ret, runs_bind, runs_get. cbn [exited set_kern set_dev]. rewrite (s_exited _ _ _ _ _ Hw0).
    cbn. apply runs_bind, runs_modify, runs_ret. by apply (HQ0 Hcs w0).
Qed.

(** The library has the request of a call. *)
Definition ll_req (r : FuseDevice.fuse_req) : fuse_req :=
  Req (FuseDevice.unique r) 1 (FuseDevice.uid r) (FuseDevice.gid r) (FuseDevice.pid r) false 0.

Lemma serves_new r f : serves (in_service r f) (brk f) (ll_req r).
Proof. split; [apply lookup_insert_eq | done]. Qed.

(** After the request the library is as it was. *)
Lemma idle_again r f g :
  lib_idle f -> heap g = delete (brk f) (heap (in_service r f)) ->
  requests g = filter (.≠ brk f) (requests (in_service r f)) ->
  FuseLowlevel.interrupts g = filter (.≠ brk f) (FuseLowlevel.interrupts (in_service r f)) ->
  FuseLowlevel.conn g = FuseLowlevel.conn f -> got_init g = got_init f -> allow_root g = allow_root f -> lib_idle g.
Proof.
  intros (H1 & H2 & H3 & H4 & H5 & H6) Eh Er Ei Ec Eg Ea. unfold lib_idle.
  rewrite Eh, Er, Ei, Ec, Eg, Ea. cbn [heap requests FuseLowlevel.interrupts in_service].
  rewrite H3, H4, H5, delete_insert_id by apply lookup_empty. cbn [app]. split_and!; try done.
  cbn. by rewrite decide_False by naive_solver.
Qed.

(** The end of the request at the device. *)
Lemma dev_after_reply r rs done fc error args :
  isreply r = true -> dev_holds (r :: rs) done fc ->
  dev_holds rs (done ++ [(r, error, args)]) (ended_with r error args (read_state r rs fc)).
Proof.
  intros Hir (H1 & H2 & H3 & H4 & H5 & H6 & H7). unfold dev_holds, ended_with, read_state. rewrite Hir. cbn.
  rewrite H4, H7. repeat (split; [done |]). split; [| done]. unfold without_unique.
  cbn. by rewrite decide_False by naive_solver.
Qed.

Lemma awaits_reply c r rs done fc :
  queued c r -> isreply r = true -> dev_holds (r :: rs) done fc -> awaits (read_state r rs fc) r.
Proof.
  intros (_ & _ & _ & _ & Hab & Hiu & _ & Hu0) Hir (H1 & _). unfold awaits, read_state. rewrite Hir.
  split; [done |]. split; [| split; [done | congruence]]. unfold request_find. cbn.
  by rewrite decide_True by (by left).
Qed.

(** The reply of the library reaches the device. *)
Lemma runs_reply_sent done s c r rs a w g (Q : unit -> world FS -> Prop) :
  queued c r -> isreply r = true -> dev_holds (r :: rs) done (dev w) -> suits (out r) 8 a ->
  (forall args, received a args ->
    Q tt (set_dev (ended_with r (error_of a) args (read_state r rs (dev w))) (set_lib g (set_fs s w)))) ->
  runs (send_all [reply_bytes (error_of a) (FuseDevice.unique r) (payload a)])
    (set_lib g (set_fs s (set_dev (read_state r rs (dev w)) w))) Q.
Proof.
  intros Hq Hir Hd Ha HQ. destruct (payload_received _ _ _ Ha) as (He & Hlen & args & Hargs & Hrec).
  destruct (queued_header _ _ Hq) as ((Hu & _) & _ & Hop). assert (FuseDevice.unique r <> 0) as Hu0 by apply Hq.
  pose proof (writev_reply _ _ _ (payload a) (awaits_reply _ _ _ _ _ Hq Hir Hd) Hu Hu0 He Hlen) as Hw.
  rewrite Hargs in Hw. apply runs_bind, runs_bind, runs_on_dev. unfold runs. cbn [dev set_lib set_fs set_dev].
  rewrite Hw. apply runs_ret. apply runs_ret.
  assert (ended (read_state r rs (dev w)) = ended (dev w)) as E by (unfold read_state; by rewrite Hir).
  cbn [ended ended_with request_end set_ended set_interrupts set_processing]. rewrite E, drop_app_length.
  cbn [foldl req_end]. rewrite Hop. by apply HQ.
Qed.

Lemma serve_call k {A} (x y : A) :
  match meant k with Forget _ _ => x | _ => y end = if is_forget k then x else y.
Proof. destruct k; repeat match goal with b : bool |- _ => destruct b end; reflexivity. Qed.

(** The library decodes the request; nothing is sent. *)
Lemma runs_decode c r stale w (Q : option (nat * ll_call) -> world FS -> Prop) :
  queued c r -> lib_idle (lib w) -> buf w = message r ++ stale ->
  Q (Some (brk (lib w), meant (call_of c))) (set_lib (in_service r (lib w)) w) ->
  runs (on_lib (fuse_ll_process alloc_ok (fun _ => 0) kern_bufsize op op_init (buf w))) w Q.
Proof.
  intros Hq (H1 & H2 & H3 & H4 & H5 & H6) Hb HQ. destruct (queued_header _ _ Hq) as (Hh & _ & _).
  destruct Hq as (Hc & Hsent & _). destruct c as [[[uid gid] pid] k]. destruct Hc as (_ & _ & _ & Hk & _).
  destruct Hsent as (Hin & _). rewrite Hb. apply runs_on_lib.
  eapply runs_mono; [apply (process_message _ _ _ _ _ all_ops r k stale (lib w)); try done; [| lia] |].
  - split; [done |]. split; [apply memory | by left].
  - intros x f' [-> ->]. cbn [sent in_service]. rewrite drop_all. by apply runs_ret.
Qed.

(** The call is answered. *)
Lemma runs_serve l done s s1 a c r ps rs w (Q : unit -> world FS -> Prop) :
  queued c r -> Forall2 queued ps rs -> dev_holds (r :: rs) done (dev w) -> kern w = l -> lib_idle (lib w) ->
  fs w = s -> exited w = false ->
  answer (meant (call_of c)) s = Ret (a, s1) -> suits (kernel_request (call_of c)).2 8 a ->
  (forall x w', got x c a -> serving l (done ++ [x]) s1 ps w' -> script w' = script w -> Q tt w') ->
  runs (serve answer (brk (lib w)) (meant (call_of c)))
    (set_lib (in_service r (lib w)) (set_dev (read_state r rs (dev w)) w)) Q.
Proof.
  intros Hq Hrs Hd Hk Hl Hs He Ha Hsuit HQ. apply runs_bind. unfold runs at 1, on_fs. cbn [fs set_lib set_dev].
  rewrite Hs, Ha, serve_call. pose proof Hq as (Hc & Hsent & Hir & _). pose proof (serves_new r (lib w)) as Hserves.
  destruct (is_forget (call_of c)) eqn:Ef.
  - apply runs_on_lib, runs_bind. destruct Hserves as [Hr Hctr]. eapply runs_load_req; [exact Hr |].
    eapply runs_free_req; [by split |]. cbn [sent in_service set_heap set_requests set_interrupts lib set_lib set_fs].
    rewrite drop_all. apply runs_ret. eapply (HQ (r, 0, [])); [| | done].
    + split; [done |]. by rewrite Ef.
    + unfold read_state. rewrite Hir. split; try done.
      * exists rs. split; [done |]. destruct Hd as (H1 & H2 & H3 & H4 & H5 & H6 & H7). unfold dev_holds. cbn.
        rewrite H4, H7. by repeat split.
      * by eapply (idle_again r (lib w)).
  - assert (suits (out r) 8 a) as Hsuit'.
    { destruct c as [[[uid gid] pid] k]. destruct Hsent as (_ & -> & _). exact Hsuit. }
    apply runs_bind, runs_on_lib.
    eapply runs_fuse_reply; [exact Hserves | |].
    { change (FuseLowlevel.conn (FuseLoop.lib _)) with (FuseLowlevel.conn (lib w)).
      destruct Hl as (_ & _ & _ & _ & _ & ->). exact Hsuit'. }
    cbn [sent answered in_service lib set_lib set_fs set_dev]. rewrite drop_app_length.
    eapply (runs_reply_sent done s1 c r rs a w); [done | done | done | done |].
    intros args Hrec. apply runs_ret. eapply (HQ (r, error_of a, args)); [| | done].
    + split; [done |]. by rewrite Ef.
    + split; try done.
      * exists rs. split; [done |]. by apply dev_after_reply.
      * by eapply (idle_again r (lib w)).
Qed.

(** A round of the loop serves one call. *)
Lemma runs_process l done s s1 a c r ps rs stale w (Q : unit -> world FS -> Prop) :
  queued c r -> Forall2 queued ps rs -> dev_holds (r :: rs) done (dev w) -> kern w = l -> lib_idle (lib w) ->
  fs w = s -> exited w = false ->
  answer (meant (call_of c)) s = Ret (a, s1) -> suits (kernel_request (call_of c)).2 8 a ->
  (forall x w', got x c a -> serving l (done ++ [x]) s1 ps w' -> script w' = script w -> Q tt w') ->
  runs process (set_buf (message r ++ stale) (set_dev (read_state r rs (dev w)) w)) Q.
Proof.
  intros Hq Hrs Hd Hk Hl Hs He Ha Hsuit HQ. apply runs_bind, runs_get, runs_bind.
  eapply (runs_decode c r stale); [done | done | done |].
  eapply (runs_serve l done s s1 a c r ps rs (set_buf (message r ++ stale) w)); done.
Qed.

(** ** The loop *)

(** The callers [cs] got the answers [l], and nothing is left to do. *)
Definition served (done : list (FuseDevice.fuse_req * Z * list bytes)) (cs : list caller) (l : list ll_reply) (s : FS)
  (w : world FS) : Prop :=
  (exists xs, ended (dev w) = done ++ xs /\ Forall3 got xs cs l) /\
  fs w = s /\ pending (dev w) = [] /\ processing (dev w) = [] /\ lib_idle (lib w).

Lemma served_cons done s c cs a l x w :
  got x c a -> served (done ++ [x]) cs l s w -> served done (c :: cs) (a :: l) s w.
Proof.
  intros Hx ((xs & He & Hxs) & Hs & Hrest). split; [| done].
  exists (x :: xs). split; [by rewrite He, <- app_assoc |]. by constructor.
Qed.

Lemma serving_ok l done s ps w : serving l done s ps w -> Forall caller_ok ps.
Proof.
  intros [(rs & Hrs & _) _ _ _ _]. eapply Forall2_Forall_l; [exact Hrs |]. apply Forall_true. by intros r c [].
Qed.

Lemma runs_meanwhile l done s ps scs w (Q : unit -> world FS -> Prop) :
  l_blocked l = false -> serving l done s ps w -> script w = events scs -> Forall caller_ok (concat scs) ->
  (forall ps' scs' w', serving l done s ps' w' -> script w' = events scs' -> Forall caller_ok (concat scs') ->
     ps' ++ concat scs' = ps ++ concat scs -> Q tt w') ->
  runs meanwhile w Q.
Proof.
  intros Hl Hw Hsc Hok HQ. apply runs_bind, runs_get. rewrite (s_kern _ _ _ _ _ Hw), Hl, Hsc.
  destruct scs as [|cs scs]; cbn [events fmap list_fmap].
  - apply runs_ret. by apply (HQ ps [] w).
  - cbn [concat] in Hok. apply Forall_app in Hok as [Hcs Hok]. apply runs_bind, runs_modify, runs_bind.
    eapply (runs_calls l done s cs ps); [by destruct Hw; split | done |]. intros w1 Hw1 Hs1 _. apply runs_ret.
    apply (HQ (ps ++ cs) scs w1); [done | done | done |]. cbn [concat]. by rewrite app_assoc.
Qed.

Lemma loop_serves lim fuel : forall done s s2 l ps scs w res,
  l_blocked lim = false -> serving lim done s ps w -> script w = events scs -> Forall caller_ok (concat scs) ->
  answered_by answer s (ps ++ concat scs) l s2 -> (length (ps ++ concat scs) < fuel)%nat ->
  runs (loop fuel res) w (fun z w' => z = 0 /\ served done (ps ++ concat scs) l s2 w').
Proof.
  induction fuel as [|fuel IH]; intros done s s2 l ps scs w res Hl Hw Hsc Hok Hans Hfuel; [lia |].
  cbn [session_loop]. apply runs_bind. eapply runs_meanwhile; [done | done | done | done |].
  intros ps1 scs1 w1 Hw1 Hsc1 Hok1 E. rewrite <- E in *. clear w Hw Hsc Hok E.
  apply runs_bind, runs_get. rewrite (s_exited _ _ _ _ _ Hw1). apply runs_bind. eapply runs_receive; [done | done | done | done | |].
  - intros c ps2 scs2 w2 r rs stale Hcs Hw2 Hsc2 Hq Hrs Hd. pose proof Hw2 as [_ Hk Hlib Hs He].
    assert (sizeof_in_header <= reqsize r) as Hsize.
    { unfold reqsize. rewrite <- strlen_concat. pose proof (strlen_nonneg (concat (args (in_ r)))). lia. }
    unfold sizeof_in_header in Hsize. replace (reqsize r =? - EINTR) with false by (unfold EINTR; lia).
    replace (reqsize r <=? 0) with false by lia.
    assert (Forall caller_ok (ps1 ++ concat scs1)) as Hall by (apply Forall_app; by eauto using serving_ok).
    rewrite Hcs in *. inversion Hans as [|? ? ? a l' s1 ? Ha Hsuit Hans']; subst l.
    apply runs_bind. eapply (runs_process _ _ _ s1 a); try done.
    intros x w3 Hx Hw3 Hsc3. cbn [length] in Hfuel. eapply runs_mono.
    + apply (IH _ s1 s2 l' ps2 scs2 w3 _ Hl Hw3); [congruence | | exact Hans' | lia].
      by apply Forall_cons in Hall as [_ [_ ?]%Forall_app].
    + intros z w4 [-> Hserved]. split; [done |]. by eapply served_cons.
  - intros Hcs w2 Hw2. cbn. apply runs_ret. split; [done |]. rewrite Hcs in *. inversion Hans; subst.
    destruct Hw2 as [(rs & Hrs & Hd) Hk Hlib Hs He].
    inversion Hrs; subst. destruct Hd as (H1 & H2 & H3 & H4 & H5 & H6 & H7). unfold served.
    split; [| done]. exists []. cbn. rewrite H7, app_nil_r. split; [done | constructor].
Qed.

(** ** The first message *)

Definition first_req : FuseDevice.fuse_req :=
  set_unique 1 (new_req 0 0 0 (fuse_send_init 131072) true false NoSignal).

(** The limits that the file system chooses. *)
Definition chosen : fuse_conn_info :=
  op_init (negotiated kern_bufsize (ConnInfo 0 0 true 4294967295 4294967295) 131072).

Definition chosen_limits (max_read : Z) : limits :=
  process_init_reply 0 (init_out (init_reply op chosen)) (new_limits max_read).

Lemma limits_ready max_read : l_blocked (chosen_limits max_read) = false.
Proof.
  unfold chosen_limits. destruct (limits_fit (negotiated kern_bufsize (ConnInfo 0 0 true 4294967295 4294967295) 131072))
    as [Hw Hr]; [done | done |]. by rewrite process_init_reply_fields.
Qed.

Lemma runs_first_process max_read uid s sc stale (Q : unit -> world FS -> Prop) :
  let fc := set_processing [first_req] (set_reqctr 1 new_conn) in
  let x := (first_req, 0, [init_reply op chosen]) in
  (forall w, serving (chosen_limits max_read) [x] s [] w -> script w = sc -> Q tt w) ->
  runs process (World fc (new_limits max_read) (fuse_lowlevel_new uid) s false (message first_req ++ stale) sc) Q.
Proof.
  intros fc x HQ. set (w0 := World _ _ _ _ _ _ _). apply runs_bind, runs_get, runs_bind, runs_on_lib.
  assert (header_ok first_req) as Hh by (vm_compute; repeat split; discriminate || reflexivity).
  eapply runs_mono; [apply (init_processed alloc_ok (fun _ => 0) kern_bufsize op op_init first_req 131072 stale (lib w0)
    eq_refl ltac:(done) Hh eq_refl (memory _)) |].
  intros c f [-> ->].
  change (op_init (negotiated kern_bufsize (FuseLowlevel.conn (lib w0)) 131072)) with chosen. cbn [sent lib w0 answered set_got_init in_service fuse_lowlevel_new].
  rewrite drop_app_length. apply runs_bind, runs_bind, runs_on_dev. unfold runs at 1.
  change (dev (set_lib _ w0)) with fc.
  rewrite (init_answered op fc first_req chosen); [| done | by split_and! | apply Hh | done].
  apply runs_ret, runs_ret, runs_ret. apply HQ; [| done].
  split; [| reflexivity | | reflexivity | reflexivity].
  - exists []. split; [constructor |]. by split_and!.
  - unfold lib_idle. cbn. split_and!; try done. exact (keeps_version _).
Qed.

(** Mounting and the whole session. *)
Lemma whole_session max_read uid s s2 l scs fuel b :
  Forall caller_ok (concat scs) -> answered_by answer s (concat scs) l s2 -> (length (concat scs) + 1 < fuel)%nat ->
  runs (fuse_session_loop alloc_ok op op_init answer fuel (Some b)) (mounted max_read uid s (events scs))
    (fun z w => z = 0 /\ served [(first_req, 0, [init_reply op chosen])] (concat scs) l s2 w /\ exited w = false).
Proof.
  intros Hok Hans Hfuel. destruct fuel as [|fuel]; [lia |].
  unfold fuse_session_loop. apply runs_bind, runs_modify, runs_bind. cbn [session_loop].
  apply runs_bind, runs_bind, runs_get, runs_ret, runs_bind, runs_get. cbn [exited set_buf mounted].
  apply runs_bind. cbn [fuse_kern_chan_receive]. apply runs_bind, runs_bind, runs_get, runs_bind.
  cbn [script set_buf mounted].
  assert (forall w : world FS, request_ready (dev w) = true ->
    runs (request_wait (script w)) w (fun i w' => i = false /\ w' = w)) as Hwait.
  { intros w Hr. destruct (script w) as [|es sc] eqn:Esc; cbn [request_wait]; apply runs_bind, runs_get; rewrite Hr;
      apply runs_bind, runs_modify, runs_ret; (split; [done |]); rewrite <- Esc; by destruct w. }
  eapply runs_mono; [by apply (Hwait (set_buf b (mounted max_read uid s (events scs)))) |].
  intros i w [-> ->]. apply runs_on_dev.
  assert (fuse_dev_readv kern_bufsize (fuse_fill_super max_read)
    = Ret (inr (message first_req), set_processing [first_req] (set_reqctr 1 new_conn))) as E by (vm_compute; reflexivity).
  unfold runs at 1. cbn [dev set_buf mounted]. rewrite E.
  apply runs_bind, runs_modify, runs_bind, runs_get. cbn [exited set_buf mounted set_kern set_dev].
  replace (strlen (message first_req) <? sizeof_in_header) with false by (vm_compute; reflexivity).
  apply runs_ret. replace (strlen (message first_req) =? - EINTR) with false by (vm_compute; reflexivity).
  replace (strlen (message first_req) <=? 0) with false by (vm_compute; reflexivity).
  apply runs_bind. apply runs_first_process. intros w Hw Hsc.
  eapply runs_mono; [apply (loop_serves _ fuel _ s s2 l [] scs w _ (limits_ready max_read) Hw Hsc Hok Hans); cbn; lia |].
  intros z w' [-> Hserved]. apply runs_bind, runs_modify, runs_ret. cbn [Z.ltb Z.compare].
  split; [done |]. split; [exact Hserved | done].
Qed.
End Loop.

(** C5. A mounted file system serves its processes: from the first message on,
    whenever the calls come, the session of the library reads them in order, and
    by the time the file system is unmounted every caller has got what the file
    system answered to the sequence of calls, under its own request; the session
    returns 0 and leaves no request behind. *)
Theorem session_serves {FS} alloc_ok op op_init (answer : ll_call -> M FS ll_reply) max_read uid s s2 l scs fuel b :
  (forall n, alloc_ok n = true) -> (forall o, op o = true) ->
  (forall c, proto_minor (op_init c) = proto_minor c) ->
  (forall c, fits 4 (max_write c) -> fits 4 (max_readahead c) ->
     fits 4 (max_write (op_init c)) /\ fits 4 (max_readahead (op_init c))) ->
  Forall caller_ok (concat scs) -> answered_by answer s (concat scs) l s2 ->
  (length (concat scs) + 1 < fuel)%nat ->
  exists w first xs,
    fuse_session_loop alloc_ok op op_init answer fuel (Some b) (mounted max_read uid s (events scs)) = Ret (0, w) /\
    ended (dev w) = first :: xs /\ Forall3 got xs (concat scs) l /\ fs w = s2 /\
    pending (dev w) = [] /\ processing (dev w) = [] /\ requests (lib w) = [] /\ heap (lib w) = ∅.
Proof.
  intros Hmem Hops Hver Hlim Hok Hans Hfuel.
  pose proof (whole_session alloc_ok op op_init answer Hmem Hops Hver Hlim max_read uid s s2 l scs fuel b Hok Hans Hfuel)
    as (z & w & E & -> & (((xs & He & Hxs) & Hs & Hp & Hpr & Hl) & _))%runs_eq.
  exists w, (first_req, 0, [init_reply op (chosen op_init)]), xs. split; [exact E |].
  destruct Hl as (_ & _ & Hh & Hr & _). by split_and!.
Qed.

(** A file system of one file, whose state is its contents: it is written, and read
    from the start. *)
Definition one_file (call : ll_call) : M bytes ll_reply :=
  match call with
  | Write _ buf off _ =>
      _ ← modify (fun s => take (Z.to_nat off) s ++ buf); mret (RWrite (strlen buf))
  | Read _ size off _ => s ← get; mret (RBuf (take (Z.to_nat size) (drop (Z.to_nat off) s)))
  | _ => mret (RErr ENOSYS)
  end.

(** Three processes: two write, while the inode is forgotten, and the third reads. *)
Definition one_file_script : list (list caller) :=
  [[(1000, 100, 4321, KWrite 2 7 0 (B "hello"))]; [];
   [(1000, 100, 4322, KWrite 2 7 4 (B "p!")); (0, 0, 1, KForget 3 1)]; [(1001, 100, 4323, KRead 2 7 0 10 false)]].

Lemma session_serves_witness :
  exists w first xs,
    fuse_session_loop (fun _ => true) (fun _ => true) id one_file 6 (Some []) (mounted 4294967295 0 [] (events one_file_script))
      = Ret (0, w) /\
    ended (dev w) = first :: xs /\
    Forall3 got xs (concat one_file_script) [RWrite 5; RWrite 2; RErr 38; RBuf (B "hellp!")] /\
    fs w = B "hellp!" /\
    pending (dev w) = [] /\ processing (dev w) = [] /\ requests (lib w) = [] /\ heap (lib w) = ∅.
Proof.
  apply (session_serves (fun _ => true) (fun _ => true) id one_file).
  - done.
  - done.
  - done.
  - done.
  - repeat (constructor; [vm_compute; repeat split; discriminate || reflexivity |]). constructor.
  - eapply answered_cons; [reflexivity | split; [reflexivity | done] |].
    eapply answered_cons; [reflexivity | split; [reflexivity | done] |].
    eapply answered_cons; [reflexivity | by left |].
    eapply answered_cons; [reflexivity | by exists 10 | constructor].
  - vm_compute. lia.
Defined.
