(* ===== verification/FuseStack.v ===== *)
(** The whole way of a request of a process to the catalog and back: the kernel, the
    device and the session ([FuseLoop]), the path-based library ([FuseLib]) as the file
    system of the session, and catalogfs below it ([FuseMount]). *)

From S2P Require Import Prelude.
From S2P Require Import CString.
From S2P Require Import Entry.
From S2P Require Import CatalogFS.
From S2P Require Import Generate.
From S2P Require Import Format.
From S2P Require Import Listing.
From S2P Require Import Mount.
From S2P Require Import Sample.
From S2P Require Import SampleTree.
From S2P Require Import FuseNodes.
From S2P Require Import FuseNodesSpec.
From S2P Require Import FuseTree.
From S2P Require Import FuseNodesProps.
From S2P Require Import FuseLib.
From S2P Require Import FuseLibProps.
From S2P Require Import FuseMount.
From S2P Require FuseDir.
From S2P Require FuseWire.
From S2P Require FuseDevice.
From S2P Require FuseLowlevel.
From S2P Require FuseWireProps.
From S2P Require FuseKernel.
From S2P Require FuseLoop.
From S2P Require FuseLoopProps.

#[local] Opaque table_size.

(** * The library as the file system of a session *)

(** The timeouts of [struct fuse_config]. *)
Record timeouts := Timeouts { entry_timeout : FuseLowlevel.timeout; attr_timeout : FuseLowlevel.timeout;
                              negative_entry_timeout : FuseLowlevel.timeout }.

(** [struct stat], each field at its width. *)
Definition kstat_of (a : attr) : FuseLowlevel.kstat :=
  let st := a_stat a in
  FuseLowlevel.Kstat (to_u64 (a_ino a)) (to_u32 (st_mode st)) (to_u32 (st_nlink st)) (to_u32 (st_uid st))
    (to_u32 (st_gid st)) 0 (to_u64 (st_size st)) 0 (to_u64 (st_atime st)) (to_u64 (st_mtime st))
    (to_u64 (st_ctime st)) 0 0 0.

Definition attr_of_kstat (st : FuseLowlevel.kstat) : new_attr :=
  NewAttr (FuseLowlevel.st_mode st) (FuseLowlevel.st_uid st) (FuseLowlevel.st_gid st) (FuseLowlevel.st_size st)
    (Timespec (FuseLowlevel.st_atime st) (FuseLowlevel.st_atimensec st))
    (Timespec (FuseLowlevel.st_mtime st) (FuseLowlevel.st_mtimensec st)).

Definition fi_in (fi : FuseLowlevel.file_info) : file_info :=
  FileInfo (FuseLowlevel.fi_flags fi) (FuseLowlevel.fi_fh fi) (FuseLowlevel.fi_direct_io fi)
    (FuseLowlevel.fi_keep_cache fi).

Definition fi_out (fi : file_info) : FuseLowlevel.file_info :=
  FuseLowlevel.FileInfo (flags fi) (to_u64 (fh fi)) false (fi_direct_io fi) (fi_keep_cache fi) false 0.

(** The operations of [fuse_path_ops] that are modelled in [FuseLib]; no reply is lost
    here. *)
Definition request_of (c : FuseLowlevel.ll_call) : option FuseLib.request :=
  match c with
  | FuseLowlevel.Lookup parent name => Some (Lookup parent name false)
  | FuseLowlevel.Forget ino n => Some (FuseLib.Forget ino n)
  | FuseLowlevel.Getattr ino => Some (Getattr ino)
  | FuseLowlevel.Setattr ino a valid fi => Some (Setattr ino (attr_of_kstat a) valid (fi_in <$> fi))
  | FuseLowlevel.Access ino mask => Some (Access ino mask)
  | FuseLowlevel.Readlink ino => Some (Readlink ino)
  | FuseLowlevel.Mknod parent name mode rdev => Some (Mknod parent name mode rdev false)
  | FuseLowlevel.Mkdir parent name mode => Some (Mkdir parent name mode false)
  | FuseLowlevel.Unlink parent name => Some (Unlink parent name)
  | FuseLowlevel.Rmdir parent name => Some (Rmdir parent name)
  | FuseLowlevel.Symlink link parent name => Some (Symlink link parent name false)
  | FuseLowlevel.Rename parent name newparent newname => Some (FuseLib.Rename parent name newparent newname)
  | FuseLowlevel.Link ino newparent newname => Some (Link ino newparent newname false)
  | FuseLowlevel.Create parent name mode fi => Some (Create parent name mode (fi_in fi) false)
  | FuseLowlevel.Open ino fi => Some (Open ino (fi_in fi) false)
  | FuseLowlevel.Read ino size off fi => Some (Read ino size off (fi_in fi))
  | FuseLowlevel.Write ino buf off fi => Some (Write ino buf off (fi_in fi))
  | FuseLowlevel.Release ino fi => Some (Release ino (fi_in fi))
  | FuseLowlevel.Fsync ino datasync fi => Some (Fsync ino (if datasync then 1 else 0) (fi_in fi))
  | FuseLowlevel.Statfs ino => Some (Statfs ino)
  | FuseLowlevel.Setxattr ino name value flags => Some (Setxattr ino name value flags)
  | FuseLowlevel.Getxattr ino name size => Some (Getxattr ino name size)
  | FuseLowlevel.Listxattr ino size => Some (Listxattr ino size)
  | FuseLowlevel.Removexattr ino name => Some (Removexattr ino name)
  | FuseLowlevel.Bmap ino blocksize idx => Some (Bmap ino blocksize idx)
  | _ => None
  end.

Section Stack.
Context (alloc_ok : nat -> bool) (char_value : ascii -> Z).
Context {S : Type} (ops : fuse_operations S) (conf : lib_config) (t : timeouts).

Definition entry_out (e : entry_param) : FuseLowlevel.entry_param :=
  let found := negb (e_ino e =? 0) in
  FuseLowlevel.EntryParam (to_u64 (e_ino e)) (to_u64 (e_generation e)) (kstat_of (e_attr e))
    (if found then attr_timeout t else (0, 0)) (if found then entry_timeout t else negative_entry_timeout t).

(** [struct statvfs], each field at the width of the reply. *)
Definition statvfs_out (st : statvfs) : FuseLowlevel.statvfs :=
  FuseLowlevel.Statvfs (to_u32 (f_bsize st)) (to_u32 (f_frsize st)) (to_u64 (f_blocks st)) (to_u64 (f_bfree st))
    (to_u64 (f_bavail st)) (to_u64 (f_files st)) (to_u64 (f_ffree st)) (to_u32 (f_namemax st)).

Definition reply_of (x : reply) : FuseWireProps.ll_reply :=
  match x with
  | ReplyErr err => FuseWireProps.RErr err
  | ReplyEntry e => FuseWireProps.REntry (entry_out e)
  | ReplyAttr a => FuseWireProps.RAttr (kstat_of a) (attr_timeout t)
  | ReplyReadlink link => FuseWireProps.RReadlink link
  | ReplyOpen fi => FuseWireProps.ROpen (fi_out fi)
  | ReplyCreate e fi => FuseWireProps.RCreate (entry_out e) (fi_out fi)
  | ReplyBuf buf => FuseWireProps.RBuf buf
  | ReplyWrite count => FuseWireProps.RWrite count
  | ReplyStatfs st => FuseWireProps.RStatfs (statvfs_out st)
  | ReplyXattr count => FuseWireProps.RXattr (to_u32 count)
  | ReplyBmap idx => FuseWireProps.RBmap (to_u64 idx)
  | ReplyNone => FuseWireProps.RErr 0
  end.

(** An operation of the library; those that are not modelled are undefined. *)
Definition library_answer (c : FuseLowlevel.ll_call) : M (lib S) FuseWireProps.ll_reply :=
  match request_of c with
  | Some q => x ← fuse_path_ops alloc_ok char_value ops conf q; mret (reply_of x)
  | None => ub
  end.
End Stack.

(** * Processes that look names up *)

(** A process that looks up [lk_name] in the directory with the number [lk_dir], whose
    path is [lk_path]. *)
Record looker := Looker {
  lk_uid : Z; lk_gid : Z; lk_pid : Z; lk_dir : Z; lk_path : bytes; lk_name : bytes }.

Definition target (lk : looker) : bytes := lk_path lk ++ SLASH :: lk_name lk.

Definition caller_of (lk : looker) : FuseLoopProps.caller :=
  (lk_uid lk, lk_gid lk, lk_pid lk, FuseWireProps.KLookup (lk_dir lk) (lk_name lk)).

(** The number is that of a directory of the table with this path. *)
Definition names_dir (c : gmap nat node) (lk : looker) : Prop :=
  exists p pn, c !! p = Some pn /\ nodeid pn = lk_dir lk /\ path_to c p (lk_path lk).

Definition looker_ok (c : gmap nat node) (lk : looker) : Prop :=
  names_dir c lk /\ strlen (target lk) < FUSE_MAX_PATH /\ FuseLoopProps.caller_ok (caller_of lk).

(** Room for [n] lookups. *)
Definition room (c : gmap nat node) (n : nat) : Prop :=
  Z.of_nat (size c) + Z.of_nat n + 2 <= 2 ^ 31 /\
  forall a m, c !! a = Some m -> nlookup m + Z.of_nat n <= 2 ^ 64 - 1.

Lemma room_roomy c n : room c (Datatypes.S n) -> roomy c.
Proof. intros [Hs Hn]. split; [lia |]. intros a m Ha. specialize (Hn a m Ha). lia. Qed.

Lemma room_grows c c' n : room c (Datatypes.S n) -> grows c c' -> room c' n.
Proof.
  intros [Hs Hn] [Hsize Hgrow]. split; [lia |]. intros a m Ha.
  destruct (Hgrow a m Ha) as [?|(k & Hk & ?)]; [lia |]. specialize (Hn a k Hk). lia.
Qed.

(** A node with a path is one that the kernel knows. *)
Lemma path_known c p pn s :
  tree c no_credit None -> c !! p = Some pn -> path_to c p s -> known c (nodeid pn).
Proof.
  intros Ht Hp Hs. exists p, pn. split_and!; [done | done |]. intros Hz.
  destruct (t_forgot _ _ _ Ht p pn Hp Hz ltac:(done)) as [Hpar Hname].
  inversion Hs as [a n Ha Hid|a n q nm s' Ha Hid Hq Hn]; simplify_eq.
  destruct (t_root _ _ _ Ht) as (r & m & Hr & Hm & _ & Hl).
  assert (r = p) as -> by (eapply (t_ids _ _ _ Ht); [done | done | congruence]). congruence.
Qed.

Lemma looker_extends c c' lk : extends c c' -> looker_ok c lk -> looker_ok c' lk.
Proof.
  intros He [(p & pn & Hp & Hid & Hs) Hrest]. split; [| done].
  destruct (He p pn Hp) as (pn' & Hp' & Hid' & _). exists p, pn'.
  split_and!; [done | congruence | by eapply path_extends].
Qed.

Definition timeout_ok (t : timeouts) : Prop :=
  FuseWireProps.timeout_ok (entry_timeout t) /\ FuseWireProps.timeout_ok (attr_timeout t) /\
  FuseWireProps.timeout_ok (negative_entry_timeout t).

Lemma fits_u32 z : FuseWireProps.fits 4 (to_u32 z).
Proof. unfold FuseWireProps.fits, to_u32, to_unsigned. apply Z.mod_pos_bound. lia. Qed.

Lemma fits_u64 z : FuseWireProps.fits 8 (to_u64 z).
Proof. unfold FuseWireProps.fits, to_u64, to_unsigned. apply Z.mod_pos_bound. lia. Qed.

Lemma entry_out_ok t e : timeout_ok t -> FuseWireProps.entry_ok (entry_out t e).
Proof.
  intros (He & Ha & Hn). unfold FuseWireProps.entry_ok, FuseWireProps.stat_ok, entry_out, kstat_of. cbn.
  assert (FuseWireProps.fits 8 0) by done. assert (FuseWireProps.fits 4 0) by done.
  destruct (e_ino e =? 0); cbn [negb]; split_and!; auto using fits_u32, fits_u64; done || apply He || apply Ha || apply Hn.
Qed.

(** What a looker finds in the kernel. *)
Definition told (t : timeouts) (conf : lib_config) o root h (path : bytes)
  (x : FuseDevice.fuse_req * Z * list bytes) : Prop :=
  (exists q st ino gen arg, q ∈ tree_listing o root h /\ rel root q = path /\ lstat o q = Some st /\
     x.1.2 = 0 /\ x.2 = [arg] /\
     FuseWire.load_entry_out arg
       = FuseWireProps.entry_of (entry_out t (EntryParam ino gen (set_stat conf ino (Attr 0 (served_stat st)))))) \/
  ((forall q, q ∈ tree_listing o root h -> rel root q <> path) /\ x.1.2 = - ENOENT /\ x.2 = []).

Section Catalog.
Context (alloc_ok : nat -> bool) (char_value : ascii -> Z) (ops : fuse_operations sys) (conf : lib_config) (t : timeouts).
Context (o : os) (root : bytes) (h : nat) (e : env).
Context (Htree : good_tree o root h).
Context (Hm : mounts e (tree_file (o := o) (root := root) (h := h))).
Context (Hf : mount_fits e (tree_file (o := o) (root := root) (h := h))).
Context (Hop : op_getattr ops = Some (catalog_stat e)) (Hneg : negative_timeout conf = false).
Context (Hmem : forall n, alloc_ok n = true) (Ht : timeout_ok t).

Abbreviation answer := (library_answer alloc_ok char_value ops conf t).

(** The library answers the lookups one after the other. *)
Lemma stack_answers lks : forall l c,
  FuseNodesSpec.rep char_value table_size table_size (table l) c None None -> tree c no_credit None ->
  Forall (looker_ok c) lks -> room c (length lks) ->
  exists xs l', FuseLoopProps.answered_by answer l (caller_of <$> lks) (reply_of t <$> xs) l' /\
    Forall2 (fun x lk => catalogued conf o root h (target lk) x) xs lks.
Proof.
  induction lks as [|lk lks IH]; intros l c Hr Htr Hlks Hroom.
  { exists [], l. split; [apply FuseLoopProps.answered_nil | constructor]. }
  apply Forall_cons in Hlks as [Hlk Hlks]. cbn [length] in Hroom.
  pose proof Hlk as ((p & pn & Hp & Hid & Hs) & Hlen & Hok).
  destruct l as [f hc sy].
  pose proof (runs_catalog_lookup alloc_ok char_value ops conf o root h e f c hc sy p pn (lk_path lk) (lk_name lk)
    Htree Hm Hf Hop Hneg Hmem Hr Htr Hp Hs (path_known _ _ _ _ Htr Hp Hs) (room_roomy _ _ Hroom) Hlen)
    as (x & l1 & E & Hx & c1 & Hr1 & Htr1 & Hext & Hg)%runs_eq.
  destruct (IH l1 c1) as (xs & l2 & Hans & Hxs); [done | done | | by eapply room_grows |].
  { eapply Forall_impl; [exact Hlks |]. intros lk' Hlk'. by eapply looker_extends. }
  exists (x :: xs), l2. split; [| by constructor].
  eapply FuseLoopProps.answered_cons; [| | exact Hans].
  - unfold library_answer. cbn [FuseLoopProps.call_of caller_of snd FuseWireProps.meant request_of fuse_path_ops].
    rewrite <- Hid. by rewrite (bind_runs_eq _ _ _ _ _ E).
  - destruct Hx as [(q & st & ino & gen & _ & _ & _ & ->)|[_ ->]].
    + split; [done |]. split; [by apply entry_out_ok | by right].
    + by left.
Qed.

Lemma got_told x lk r :
  FuseLoopProps.got x (caller_of lk) (reply_of t r) -> catalogued conf o root h (target lk) r ->
  FuseLoopProps.sent_by x.1.1 (caller_of lk) /\ told t conf o root h (target lk) x.
Proof.
  destruct x as [[kr err] args]. intros [Hsent Hgot] Hr. split; [done |].
  cbn [FuseLoopProps.is_forget FuseLoopProps.call_of caller_of snd] in Hgot. destruct Hgot as [-> Hrec].
  destruct Hr as [(q & st & ino & gen & Hq & Hrel & Hl & ->)|[Hno ->]].
  - destruct args as [|arg [|? ?]]; try done. left. by exists q, st, ino, gen, arg.
  - destruct args; [| done]. by right.
Qed.
End Catalog.

Lemma looked_callers c lks : Forall (looker_ok c) lks -> Forall FuseLoopProps.caller_ok (caller_of <$> lks).
Proof. intros H. apply Forall_fmap. eapply Forall_impl; [exact H |]. by intros lk (_ & _ & ?). Qed.

(** C1. The whole system: processes that look up names in directories of a
    generated and mounted catalog get, through the kernel module, the device,
    the session, the path-based library and the binary search in the catalog
    file, entries with the attributes that the files had when the catalog was
    generated, and ENOENT for names that were not there. *)
Theorem catalog_through_kernel {alloc_ok char_value} {ops : fuse_operations sys} conf t o root h e f hc sy
    ll_alloc op op_init max_read uid scs fuel b :
  good_tree o root h ->
  mounts e (tree_file (o := o) (root := root) (h := h)) ->
  mount_fits e (tree_file (o := o) (root := root) (h := h)) ->
  op_getattr ops = Some (catalog_stat e) -> negative_timeout conf = false ->
  (forall n, alloc_ok n = true) -> timeout_ok t -> reachable alloc_ok char_value f ->
  (forall n, ll_alloc n = true) -> (forall o, op o = true) ->
  (forall c, FuseLowlevel.proto_minor (op_init c) = FuseLowlevel.proto_minor c) ->
  (forall c, FuseWireProps.fits 4 (FuseLowlevel.max_write c) -> FuseWireProps.fits 4 (FuseLowlevel.max_readahead c) ->
     FuseWireProps.fits 4 (FuseLowlevel.max_write (op_init c)) /\
     FuseWireProps.fits 4 (FuseLowlevel.max_readahead (op_init c))) ->
  Forall (looker_ok (contents f)) (concat scs) -> room (contents f) (length (concat scs)) ->
  (length (concat scs) + 1 < fuel)%nat ->
  exists w first xs,
    FuseLoop.fuse_session_loop ll_alloc op op_init (library_answer alloc_ok char_value ops conf t) fuel (Some b)
      (FuseLoop.mounted max_read uid (Lib f hc sy)
         (FuseLoopProps.events ((fun lks : list looker => caller_of <$> lks) <$> scs))) = Ret (0, w) /\
    FuseDevice.ended (FuseLoop.dev w) = first :: xs /\
    Forall2 (fun x lk => FuseLoopProps.sent_by x.1.1 (caller_of lk) /\ told t conf o root h (target lk) x)
      xs (concat scs).
Proof.
  intros Htree Hm Hf Hop Hneg Hmem Ht Hre Hllmem Hops Hver Hlim Hlks Hroom Hfuel.
  destruct (reachable_wf _ _ f Hre) as [Hr Htr].
  destruct (stack_answers alloc_ok char_value ops conf t o root h e Htree Hm Hf Hop Hneg Hmem Ht
    (concat scs) (Lib f hc sy) (contents f) Hr Htr Hlks Hroom) as (rs & l' & Hans & Hrs).
  set (scs' := (fun lks : list looker => caller_of <$> lks) <$> scs).
  assert (concat scs' = caller_of <$> concat scs) as Hc by (symmetry; exact (concat_map caller_of scs)).
  pose proof (FuseLoopProps.whole_session ll_alloc op op_init (library_answer alloc_ok char_value ops conf t)
    Hllmem Hops Hver Hlim max_read uid (Lib f hc sy) l' (reply_of t <$> rs) scs' fuel b) as Hrun.
  rewrite Hc, length_fmap in Hrun.
  destruct (proj1 (runs_eq _ _ _) (Hrun (looked_callers _ _ Hlks) Hans Hfuel))
    as (z & w & E & -> & ((xs & He & Hxs) & _) & _).
  eexists w, _, xs. split; [exact E |]. split; [exact He |].
  clear -Hxs Hrs. remember (concat scs) as lks eqn:Elks. clear Elks.
  revert xs Hxs. induction Hrs as [|r lk rs lks Hr _ IH]; intros xs Hxs; inversion Hxs; subst; constructor.
  - by eapply got_told.
  - by apply IH.
Qed.

(** Two processes look up the file [b] and a missing one in the root of the sample tree;
    between them nothing happens for a while. *)
Definition sample_lookers : list (list looker) :=
  [[Looker 1000 100 4321 1 [] (B "b")]; []; [Looker 0 0 1 1 [] (B "nope")]].

Definition sample_timeouts : timeouts := Timeouts (1, 0) (1, 0) (0, 0).

Lemma sample_looker_ok uid gid pid nm :
  strlen (SLASH :: nm) < FUSE_MAX_PATH ->
  FuseLoopProps.caller_ok (uid, gid, pid, FuseWireProps.KLookup 1 nm) ->
  looker_ok (contents booted) (Looker uid gid pid 1 [] nm).
Proof.
  intros Hlen Hok. split; [| done]. exists 0%nat, root_node. rewrite booted_contents.
  split; [done |]. split; [done |]. eapply path_root; done.
Qed.

Lemma catalog_through_kernel_witness :
  exists w first xs,
    FuseLoop.fuse_session_loop (fun _ => true) (fun _ => true) id
      (library_answer (fun _ => true) plain_char (mounted_ops (env_of_file sample_tree_file)) (plain_config false)
         sample_timeouts) 4 (Some [])
      (FuseLoop.mounted 4294967295 0 (Lib booted 0 sample_sys)
         (FuseLoopProps.events ((fun lks : list looker => caller_of <$> lks) <$> sample_lookers))) = Ret (0, w) /\
    FuseDevice.ended (FuseLoop.dev w) = first :: xs /\
    Forall2 (fun x lk => FuseLoopProps.sent_by x.1.1 (caller_of lk) /\
        told sample_timeouts (plain_config false) sample_os (B "/t") 2 (target lk) x)
      xs (concat sample_lookers).
Proof.
  apply (catalog_through_kernel (alloc_ok := fun _ => true) (char_value := plain_char)
    (ops := mounted_ops (env_of_file sample_tree_file)) (plain_config false) sample_timeouts sample_os (B "/t") 2
    (env_of_file sample_tree_file) booted 0 sample_sys);
    [exact sample_tree | exact sample_mounts | exact sample_mount_fits | reflexivity | reflexivity | reflexivity
    | repeat split; discriminate || reflexivity | exact booted_reachable | reflexivity | reflexivity | reflexivity
    | intros c H1 H2; exact (conj H1 H2) | | | vm_compute; lia].
  - repeat (apply Forall_cons; split); [| | by apply Forall_nil]; (apply sample_looker_ok; [reflexivity |]);
      (split; [by split |]); (split; [by split |]); (split; [by split |]); (split; [| vm_compute; discriminate]);
      (split; [by split |]); apply (bool_decide_unpack (NUL ∉ _)); reflexivity.
  - rewrite booted_contents. split; [rewrite map_size_singleton; simpl; lia |].
    intros a n [_ <-]%lookup_singleton_Some. simpl. lia.
Defined.
