(* ===== verification/FuseSubdir.v ===== *)
(** other_fs/fuse-2.7.3/lib/modules/subdir.c: a module that shows a directory of another
    file system, by putting the name of the directory in front of every path, and that
    makes absolute symbolic links relative. *)

From S2P Require Import Prelude.
From S2P Require Import CString.
From S2P Require Import Entry.
From S2P Require Import FuseNodes.
From S2P Require Import FuseLib.
From S2P Require FuseLocks.
From S2P Require FuseLowlevel.

Definition ENOMEM : Z := 12.

(** * File systems *)

(** A filler adds a name to the buffer [buf] of the caller, which the file systems hand on;
    [fuse_fill_dir_t], and [fuse_dirfil_t] for those that have a [getdir]. *)
Definition fill_dir (D : Type) : Type := D -> bytes -> option attr -> Z -> D * Z.
Definition dirfil (D : Type) : Type := D -> bytes -> Z -> Z -> D * Z.

(** The counter of a module, and that of the shared object that it came from. *)
Record fuse_module := Module { ctr : Z; so : option Z }.

(** The table of operations of a file system with the state [S] and the [user_data] [U]: those
    of the record of FuseLib, and the others. [init] may change the parameters of the connection;
    [destroy] tells which modules it has put back, and whether their objects are closed. *)
Record fs_table (S D U : Type) := FsTable {
  t_oper : fuse_operations S;
  t_readdir : option (bytes -> D -> fill_dir D -> Z -> file_info -> M S (Z * D));
  t_getdir : option (bytes -> D -> dirfil D -> M S (Z * D));
  t_flush : option (bytes -> file_info -> M S Z);
  t_lock : option (bytes -> file_info -> Z -> FuseLocks.flock -> M S (Z * FuseLocks.flock));
  t_init : option (FuseLowlevel.fuse_conn_info -> M S (U * FuseLowlevel.fuse_conn_info));
  t_destroy : option (U -> M S (list (fuse_module * bool))) }.
Arguments FsTable {S D U}. Arguments t_oper {S D U}. Arguments t_readdir {S D U}. Arguments t_getdir {S D U}.
Arguments t_flush {S D U}. Arguments t_lock {S D U}. Arguments t_init {S D U}. Arguments t_destroy {S D U}.

(** [struct fuse_fs]. *)
Record fuse_fs (S D U : Type) := FuseFs { op : fs_table S D U; fs_m : option fuse_module; user_data : U }.
Arguments FuseFs {S D U}. Arguments op {S D U}. Arguments fs_m {S D U}. Arguments user_data {S D U}.

(** [struct subdir] without [next]. *)
Record subdir := Subdir { base : bytes; rellinks : bool }.

Definition baselen (d : subdir) : Z := strlen (base d).

(** The module with the state of the next file system; how many allocations there were,
    and how many blocks are not freed. *)
Record stacked (S : Type) := Stacked { next : S; allocs : nat; live : Z }.
Arguments Stacked {S}. Arguments next {S}. Arguments allocs {S}. Arguments live {S}.

(** The calls of the other operations of a file system. *)
Section Calls.
Context {S D U : Type} (fs : fuse_fs S D U).

Definition fill_dir_old (filler : fill_dir D) : dirfil D := fun buf name type ino =>
  let '(buf, res) := filler buf name (Some (Attr ino (Stat (to_u32 (Z.shiftl type 12)) 0 0 0 0 0 0 0))) 0 in
  (buf, if res =? 0 then 0 else - ENOMEM).

Definition fuse_fs_readdir (path : bytes) (buf : D) (filler : fill_dir D) (off : Z) (fi : file_info) : M S (Z * D) :=
  match t_readdir (op fs), t_getdir (op fs) with
  | Some readdir, _ => readdir path buf filler off fi
  | None, Some getdir => getdir path buf (fill_dir_old filler)
  | None, None => mret (- ENOSYS, buf)
  end.

Definition fuse_fs_flush (path : bytes) (fi : file_info) : M S Z :=
  match t_flush (op fs) with Some flush => flush path fi | None => mret (- ENOSYS) end.

Definition fuse_fs_lock (path : bytes) (fi : file_info) (cmd : Z) (lock : FuseLocks.flock) : M S (Z * FuseLocks.flock) :=
  match t_lock (op fs) with Some f => f path fi cmd lock | None => mret (- ENOSYS, lock) end.

(** The file system with its new [user_data]. *)
Definition fuse_fs_init (conn : FuseLowlevel.fuse_conn_info) : M S (fuse_fs S D U * FuseLowlevel.fuse_conn_info) :=
  match t_init (op fs) with
  | Some init => r ← init conn; mret (FuseFs (op fs) (fs_m fs) (fst r), snd r)
  | None => mret (fs, conn)
  end.
End Calls.

(** The module after [fuse_put_module], and whether its object is closed. *)
Definition fuse_put_module {S} (m : fuse_module) : M S (fuse_module * bool) :=
  if ctr m <=? 0 then exit 134
  else
    let n := ctr m - 1 in
    match so m with
    | Some k =>
        if n =? 0 then if k <=? 0 then exit 134 else mret (Module n (Some (k - 1)), k - 1 =? 0)
        else mret (Module n (so m), false)
    | None => mret (Module n None, false)
    end.

(** * Symbolic links *)

(** [for (; *p == '/'; p++)], and the same for a name. *)
Fixpoint skip_slashes (p : bytes) : bytes :=
  match p with
  | c :: p' => if decide (c = SLASH) then skip_slashes p' else p
  | [] => []
  end.
Fixpoint skip_name (p : bytes) : bytes :=
  match p with
  | c :: p' => if decide (c = SLASH) then p else skip_name p'
  | [] => []
  end.

(** [for (ctr = 0; *p; ctr++)]: each round consumes a byte. *)
Fixpoint count_loop (fuel : nat) (ctr : Z) (p : bytes) : Z :=
  match fuel, p with
  | Datatypes.S fuel, _ :: _ => count_loop fuel (ctr + 1) (skip_slashes (skip_name p))
  | _, _ => ctr
  end.

Definition count_components (p : bytes) : Z :=
  let p := skip_slashes p in count_loop (length p) 0 p.

(** [for (; *s == *t && *s && *s != '/'; s++, t++)]. *)
Fixpoint skip_common (s t : bytes) : bytes * bytes :=
  match s, t with
  | c :: s', d :: t' => if decide (c = d /\ c <> SLASH) then skip_common s' t' else (s, t)
  | _, _ => (s, t)
  end.

(** The [do]-[while]: the ends of the two strings that are not in common. *)
Fixpoint strip_common (fuel : nat) (s t : bytes) : outcome (bytes * bytes) :=
  match fuel with
  | O => Hang
  | Datatypes.S fuel =>
      let sp := skip_slashes s in
      let tp := skip_slashes t in
      let '(s, t) := skip_common sp tp in
      let again :=
        match s, t with
        | c :: _, d :: _ => bool_decide (c = d)
        | c :: _, [] | [], c :: _ => bool_decide (c = SLASH)
        | [], [] => false
        end in
      if again then strip_common fuel s t else Ret (sp, tp)
  end.

Definition strip_fuel (s : bytes) : nat := Datatypes.S (length s).

Definition DOTDOT : bytes := B "../".

Fixpoint dotdot_slashes (n : nat) : bytes :=
  match n with O => [] | Datatypes.S n => DOTDOT ++ dotdot_slashes n end.

Definition starts_with_slash (s : bytes) : bool :=
  match s with c :: _ => bool_decide (c = SLASH) | [] => false end.

(** The contents of the buffer of [size] bytes that holds the link [buf] of the file
    [path]. *)
Definition transform_symlink (d : subdir) (path buf : bytes) (size : Z) : outcome bytes :=
  if negb (starts_with_slash buf) || negb (starts_with_slash (base d)) then Ret buf
  else
    match strip_common (strip_fuel buf) buf path with
    | Ret (l, path) =>
        if strlen buf - strlen l <? baselen d then Ret buf
        else
          let dotdots := count_components path in
          if dotdots =? 0 then Ret buf
          else
            let dotdots := dotdots - 1 in
            let llen := strlen l in
            if size <? dotdots * 3 + llen + 2 then Ret buf
            else
              Ret (dotdot_slashes (Z.to_nat dotdots)
                   ++ (if negb (llen =? 0) then l else if dotdots =? 0 then B "." else []))
    | Exit z => Exit z
    | UB => UB
    | Hang => Hang
    end.

(** * The operations *)

Section Module.
Context (alloc_ok : nat -> bool) (d : subdir).
Context {S : Type} (ops : fuse_operations S).

Definition set_next (s : S) (st : stacked S) : stacked S := Stacked s (allocs st) (live st).
Definition add_live (n : Z) (st : stacked S) : stacked S := Stacked (next st) (allocs st) (live st + n).
Definition count_alloc (st : stacked S) : stacked S := Stacked (next st) (Datatypes.S (allocs st)) (live st).

(** An operation of the next file system. *)
Definition on_next {A} (m : M S A) : M (stacked S) A := fun st =>
  match m (next st) with
  | Ret (a, s) => Ret (a, set_next s st)
  | Exit z => Exit z
  | UB => UB
  | Hang => Hang
  end.

Definition malloc : M (stacked S) bool :=
  st ← get;
  let ok := alloc_ok (allocs st) in
  _ ← modify count_alloc;
  _ ← (if ok then modify (add_live 1) else mret tt);
  mret ok.

Definition free : M (stacked S) unit := modify (add_live (-1)).

(** The path under the base; [newlen] is unsigned, and the buffer has two bytes more. *)
Definition subdir_addpath (path : bytes) : M (stacked S) (option bytes) :=
  let newlen := to_u32 (baselen d + strlen path) in
  ok ← malloc;
  if ok : bool then
    let path := match path with c :: p => if decide (c = SLASH) then p else path | [] => path end in
    let newpath := base d ++ path in
    _ ← assert_defined (strlen newpath + 1 <=? to_u32 (newlen + 2));
    mret (Some (if decide (newpath = []) then B "." else newpath))
  else mret None.

(** The body that most operations share: [none] when there is no memory. *)
Definition with_newpath {A} (path : bytes) (none : A) (k : bytes -> M (stacked S) A) : M (stacked S) A :=
  newpath ← subdir_addpath path;
  match newpath with
  | Some newpath => r ← k newpath; _ ← free; mret r
  | None => mret none
  end.

Definition subdir_getattr (path : bytes) : M (stacked S) (Z * attr) :=
  with_newpath path (- ENOMEM, zero_attr) (fun p => on_next (fuse_fs_getattr ops p)).
Definition subdir_fgetattr (path : bytes) (fi : file_info) : M (stacked S) (Z * attr) :=
  with_newpath path (- ENOMEM, zero_attr) (fun p => on_next (fuse_fs_fgetattr ops p fi)).
Definition subdir_access (path : bytes) (mask : Z) : M (stacked S) Z :=
  with_newpath path (- ENOMEM) (fun p => on_next (fuse_fs_access ops p mask)).

Definition subdir_readlink (path : bytes) (size : Z) : M (stacked S) (Z * bytes) :=
  with_newpath path (- ENOMEM, []) (fun p =>
    r ← on_next (fuse_fs_readlink ops p size);
    if (fst r =? 0) && rellinks d then
      match transform_symlink d p (snd r) size with
      | Ret buf => mret (fst r, buf)
      | Exit z => exit z
      | UB => ub
      | Hang => hang
      end
    else mret r).

Definition subdir_opendir (path : bytes) (fi : file_info) : M (stacked S) (Z * file_info) :=
  with_newpath path (- ENOMEM, fi) (fun p => on_next (fuse_fs_opendir ops p fi)).
Definition subdir_releasedir (path : bytes) (fi : file_info) : M (stacked S) Z :=
  with_newpath path (- ENOMEM) (fun p => on_next (fuse_fs_releasedir ops p fi)).
Definition subdir_mknod (path : bytes) (mode rdev : Z) : M (stacked S) Z :=
  with_newpath path (- ENOMEM) (fun p => on_next (fuse_fs_mknod ops p mode rdev)).
Definition subdir_mkdir (path : bytes) (mode : Z) : M (stacked S) Z :=
  with_newpath path (- ENOMEM) (fun p => on_next (fuse_fs_mkdir ops p mode)).
Definition subdir_unlink (path : bytes) : M (stacked S) Z :=
  with_newpath path (- ENOMEM) (fun p => on_next (fuse_fs_unlink ops p)).
Definition subdir_rmdir (path : bytes) : M (stacked S) Z :=
  with_newpath path (- ENOMEM) (fun p => on_next (fuse_fs_rmdir ops p)).
Definition subdir_symlink (from path : bytes) : M (stacked S) Z :=
  with_newpath path (- ENOMEM) (fun p => on_next (fuse_fs_symlink ops from p)).

(** With two paths: both are asked for, and what was got is freed. *)
Definition with_newpaths (from to : bytes) (k : bytes -> bytes -> M S Z) : M (stacked S) Z :=
  newfrom ← subdir_addpath from;
  newto ← subdir_addpath to;
  err ← match newfrom, newto with
        | Some newfrom, Some newto => on_next (k newfrom newto)
        | _, _ => mret (- ENOMEM)
        end;
  _ ← (if newfrom is Some _ then free else mret tt);
  _ ← (if newto is Some _ then free else mret tt);
  mret err.

Definition subdir_rename (from to : bytes) : M (stacked S) Z :=
  with_newpaths from to (fuse_fs_rename ops).
Definition subdir_link (from to : bytes) : M (stacked S) Z :=
  with_newpaths from to (fuse_fs_link ops).
Definition subdir_chmod (path : bytes) (mode : Z) : M (stacked S) Z :=
  with_newpath path (- ENOMEM) (fun p => on_next (fuse_fs_chmod ops p mode)).
Definition subdir_chown (path : bytes) (uid gid : Z) : M (stacked S) Z :=
  with_newpath path (- ENOMEM) (fun p => on_next (fuse_fs_chown ops p uid gid)).
Definition subdir_truncate (path : bytes) (size : Z) : M (stacked S) Z :=
  with_newpath path (- ENOMEM) (fun p => on_next (fuse_fs_truncate ops p size)).
Definition subdir_ftruncate (path : bytes) (size : Z) (fi : file_info) : M (stacked S) Z :=
  with_newpath path (- ENOMEM) (fun p => on_next (fuse_fs_ftruncate ops p size fi)).
Definition subdir_utimens (path : bytes) (ts : timespec * timespec) : M (stacked S) Z :=
  with_newpath path (- ENOMEM) (fun p => on_next (fuse_fs_utimens ops p ts)).
Definition subdir_create (path : bytes) (mode : Z) (fi : file_info) : M (stacked S) (Z * file_info) :=
  with_newpath path (- ENOMEM, fi) (fun p => on_next (fuse_fs_create ops p mode fi)).
Definition subdir_open (path : bytes) (fi : file_info) : M (stacked S) (Z * file_info) :=
  with_newpath path (- ENOMEM, fi) (fun p => on_next (fuse_fs_open ops p fi)).
Definition subdir_read (path : bytes) (size offset : Z) (fi : file_info) : M (stacked S) (Z * bytes) :=
  with_newpath path (- ENOMEM, []) (fun p => on_next (fuse_fs_read ops p size offset fi)).
Definition subdir_write (path buf : bytes) (offset : Z) (fi : file_info) : M (stacked S) Z :=
  with_newpath path (- ENOMEM) (fun p => on_next (fuse_fs_write ops p buf offset fi)).
Definition subdir_statfs (path : bytes) : M (stacked S) (Z * statvfs) :=
  with_newpath path (- ENOMEM, Statvfs 0 0 0 0 0 0 0 0) (fun p => on_next (fuse_fs_statfs ops p)).
Definition subdir_release (path : bytes) (fi : file_info) : M (stacked S) Z :=
  with_newpath path (- ENOMEM) (fun p => on_next (fuse_fs_release ops p fi)).
Definition subdir_fsync (path : bytes) (isdatasync : Z) (fi : file_info) : M (stacked S) Z :=
  with_newpath path (- ENOMEM) (fun p => on_next (fuse_fs_fsync ops p isdatasync fi)).
Definition subdir_fsyncdir (path : bytes) (isdatasync : Z) (fi : file_info) : M (stacked S) Z :=
  with_newpath path (- ENOMEM) (fun p => on_next (fuse_fs_fsyncdir ops p isdatasync fi)).
Definition subdir_setxattr (path name value : bytes) (flags : Z) : M (stacked S) Z :=
  with_newpath path (- ENOMEM) (fun p => on_next (fuse_fs_setxattr ops p name value flags)).
Definition subdir_getxattr (path name : bytes) (size : Z) : M (stacked S) (Z * bytes) :=
  with_newpath path (- ENOMEM, []) (fun p => on_next (fuse_fs_getxattr ops p name size)).
Definition subdir_listxattr (path : bytes) (size : Z) : M (stacked S) (Z * bytes) :=
  with_newpath path (- ENOMEM, []) (fun p => on_next (fuse_fs_listxattr ops p size)).
Definition subdir_removexattr (path name : bytes) : M (stacked S) Z :=
  with_newpath path (- ENOMEM) (fun p => on_next (fuse_fs_removexattr ops p name)).
Definition subdir_bmap (path : bytes) (blocksize idx : Z) : M (stacked S) (Z * Z) :=
  with_newpath path (- ENOMEM, idx) (fun p => on_next (fuse_fs_bmap ops p blocksize idx)).

(** The operations of the record of FuseLib. *)
Definition subdir_path_oper : fuse_operations (stacked S) :=
  {| op_getattr := Some subdir_getattr; op_fgetattr := Some subdir_fgetattr; op_access := Some subdir_access;
     op_readlink := Some subdir_readlink; op_mknod := Some subdir_mknod; op_mkdir := Some subdir_mkdir;
     op_unlink := Some subdir_unlink; op_rmdir := Some subdir_rmdir; op_symlink := Some subdir_symlink;
     op_rename := Some subdir_rename; op_link := Some subdir_link; op_chmod := Some subdir_chmod;
     op_chown := Some subdir_chown; op_truncate := Some subdir_truncate; op_ftruncate := Some subdir_ftruncate;
     op_utimens := Some subdir_utimens; op_utime := None; op_create := Some subdir_create;
     op_open := Some subdir_open; op_release := Some subdir_release; op_read := Some subdir_read;
     op_write := Some subdir_write; op_fsync := Some subdir_fsync; op_statfs := Some subdir_statfs;
     op_setxattr := Some subdir_setxattr; op_getxattr := Some subdir_getxattr;
     op_listxattr := Some subdir_listxattr; op_removexattr := Some subdir_removexattr;
     op_bmap := Some subdir_bmap; op_opendir := Some subdir_opendir; op_releasedir := Some subdir_releasedir;
     op_fsyncdir := Some subdir_fsyncdir |}.
End Module.

(** The module over the file system [fs], the field [next]. *)
Section Whole.
Context (alloc_ok : nat -> bool) (d : subdir) {S D U : Type} (fs : fuse_fs S D U).

Definition subdir_readdir (path : bytes) (buf : D) (filler : fill_dir D) (offset : Z) (fi : file_info) : M (stacked S) (Z * D) :=
  with_newpath alloc_ok d path (- ENOMEM, buf) (fun p => on_next (fuse_fs_readdir fs p buf filler offset fi)).
Definition subdir_flush (path : bytes) (fi : file_info) : M (stacked S) Z :=
  with_newpath alloc_ok d path (- ENOMEM) (fun p => on_next (fuse_fs_flush fs p fi)).
Definition subdir_lock (path : bytes) (fi : file_info) (cmd : Z) (lock : FuseLocks.flock) : M (stacked S) (Z * FuseLocks.flock) :=
  with_newpath alloc_ok d path (- ENOMEM, lock) (fun p => on_next (fuse_fs_lock fs p fi cmd lock)).

(** [struct subdir] in full, which is the [user_data] of the module. *)
Definition subdir_init (conn : FuseLowlevel.fuse_conn_info) : M (stacked S) ((subdir * fuse_fs S D U) * FuseLowlevel.fuse_conn_info) :=
  r ← on_next (fuse_fs_init fs conn);
  mret ((d, fst r), snd r).

(** [fuse_fs_destroy] of the next file system, whose block is among those of the module. *)
Definition fuse_fs_destroy (fs : fuse_fs S D U) : M (stacked S) (list (fuse_module * bool)) :=
  ms ← on_next (match t_destroy (op fs) with Some destroy => destroy (user_data fs) | None => mret [] end);
  put ← match fs_m fs with Some m => r ← fuse_put_module m; mret [r] | None => mret [] end;
  _ ← free;
  mret (ms ++ put).

Definition subdir_destroy (data : subdir * fuse_fs S D U) : M (stacked S) (list (fuse_module * bool)) :=
  ms ← fuse_fs_destroy (snd data);
  _ ← free;                                          (* base *)
  _ ← free;                                          (* d *)
  mret ms.

Definition subdir_oper : fs_table (stacked S) D (subdir * fuse_fs S D U) :=
  {| t_oper := subdir_path_oper alloc_ok d (t_oper (op fs));
     t_readdir := Some subdir_readdir; t_getdir := None; t_flush := Some subdir_flush; t_lock := Some subdir_lock;
     t_init := Some subdir_init; t_destroy := Some subdir_destroy |}.
End Whole.

(** [subdir_new], with the options [base] and [rellinks] and the number of file systems
    below: [None] on an error. The slash may not be appended for lack of memory. *)
Definition subdir_new (base : option bytes) (rellinks : bool) (nexts : nat) (realloc_ok : bool) : option subdir :=
  if negb (Nat.eqb nexts 1) then None
  else
    match base with
    | None => None
    | Some b =>
        if negb (Nat.eqb (length b) 0) && negb (bool_decide (last b = Some SLASH)) then
          if realloc_ok then Some (Subdir (b ++ [SLASH]) rellinks) else None
        else Some (Subdir b rellinks)
    end.
