(* ===== verification/FuseSubdirProps.v ===== *)
(** The subdir module: its links lead where the links of the file system below lead, and
    its operations are those of the file system below on the paths under the base. *)

From S2P Require Import Prelude.
From S2P Require Import CString.
From S2P Require Import Entry.
From S2P Require Import FuseNodes.
From S2P Require Import FuseLib.
From S2P Require Import FuseLibSpec.
From S2P Require Import FuseSubdir.

(** * Paths as names *)

(** The names between the slashes of a path. *)
Fixpoint comps_from (w p : bytes) : list bytes :=
  match p with
  | [] => match w with [] => [] | _ => [w] end
  | c :: p =>
      if decide (c = SLASH) then match w with [] => comps_from [] p | _ => w :: comps_from [] p end
      else comps_from (w ++ [c]) p
  end.

Definition comps (p : bytes) : list bytes := comps_from [] p.

Definition slash_free (n : bytes) : Prop := SLASH ∉ n.

(** At the end of a name. *)
Definition at_end (p : bytes) : Prop := p = [] \/ exists q, p = SLASH :: q.

Lemma comps_slash p : comps (SLASH :: p) = comps p.
Proof. unfold comps. cbn [comps_from]. by rewrite decide_True. Qed.

Lemma comps_from_name n p w : slash_free n -> comps_from w (n ++ p) = comps_from (w ++ n) p.
Proof.
  revert w. induction n as [|c n IH]; intros w Hn; [by rewrite app_nil_r |].
  apply not_elem_of_cons in Hn as [Hc Hn]. cbn [app comps_from]. rewrite decide_False by done.
  rewrite IH by done. by rewrite <- app_assoc.
Qed.

Lemma comps_name n p : slash_free n -> n <> [] -> at_end p -> comps (n ++ p) = n :: comps p.
Proof.
  intros Hn Hne Hp. unfold comps at 1. rewrite comps_from_name by done. cbn [app].
  destruct Hp as [->|[q ->]]; [by destruct n |]. rewrite comps_slash. cbn [comps_from].
  rewrite decide_True by done. by destruct n.
Qed.

Lemma comps_skip p : comps (skip_slashes p) = comps p.
Proof.
  induction p as [|c p IH]; [done |]. cbn [skip_slashes]. destruct (decide (c = SLASH)) as [->|]; [| done].
  by rewrite IH, comps_slash.
Qed.

Lemma skip_slashes_head p : starts_with_slash (skip_slashes p) = false.
Proof.
  induction p as [|c p IH]; [done |]. cbn [skip_slashes]. destruct (decide (c = SLASH)); [done |].
  cbn. by apply bool_decide_eq_false.
Qed.

Lemma length_skip_slashes p : (length (skip_slashes p) <= length p)%nat.
Proof. induction p as [|c p IH]; [done |]. cbn [skip_slashes]. destruct (decide _); simpl; lia. Qed.

Lemma skip_name_split p : exists n, p = n ++ skip_name p /\ slash_free n /\ at_end (skip_name p).
Proof.
  induction p as [|c p (n & IH & Hn & He)].
  - exists []. split; [done |]. split; [apply not_elem_of_nil | by left].
  - cbn [skip_name]. destruct (decide (c = SLASH)) as [->|Hc].
    + exists []. split; [done |]. split; [apply not_elem_of_nil | right; by eexists].
    + exists (c :: n). split; [by rewrite IH at 1 |]. split; [| done]. by apply not_elem_of_cons.
Qed.

(** ** Counting *)

Lemma count_loop_comps fuel ctr p :
  (length p <= fuel)%nat -> starts_with_slash p = false -> count_loop fuel ctr p = ctr + Z.of_nat (length (comps p)).
Proof.
  revert ctr p. induction fuel as [|fuel IH]; intros ctr p Hlen Hp.
  - destruct p; [simpl; lia | simpl in Hlen; lia].
  - destruct p as [|c p]; [simpl; lia |]. cbn [count_loop].
    destruct (skip_name_split (c :: p)) as (n & E & Hn & He).
    assert (n <> []) as Hne.
    { intros ->. cbn [app] in E. rewrite <- E in He. destruct He as [|[q ?]]; simplify_eq. }
    rewrite IH; [| | apply skip_slashes_head].
    + assert (comps (c :: p) = n :: comps (skip_name (c :: p))) as -> by (rewrite E at 1; by apply comps_name).
      rewrite comps_skip. simpl. lia.
    + pose proof (length_skip_slashes (skip_name (c :: p))) as H.
      apply (f_equal length) in E. rewrite length_app in E. destruct n; [done |].
      cbn [length] in E, Hlen. lia.
Qed.

Lemma count_components_comps p : count_components p = Z.of_nat (length (comps p)).
Proof.
  unfold count_components. cbv zeta. rewrite count_loop_comps; [| lia | apply skip_slashes_head].
  rewrite comps_skip. lia.
Qed.

(** ** What two paths have in common *)

Lemma skip_common_split s t s2 t2 :
  skip_common s t = (s2, t2) -> exists w, s = w ++ s2 /\ t = w ++ t2 /\ slash_free w.
Proof.
  revert t. induction s as [|c s IH]; intros t E; [injection E as <- <-; exists []; split_and!; [done | done | apply not_elem_of_nil] |].
  destruct t as [|d t]; [injection E as <- <-; exists []; split_and!; [done | done | apply not_elem_of_nil] |].
  cbn [skip_common] in E. destruct (decide (c = d /\ c <> SLASH)) as [[<- Hc]|].
  - destruct (IH t E) as (w & -> & -> & Hw). exists (c :: w). split_and!; [done | done |]. by apply not_elem_of_cons.
  - injection E as <- <-. exists []. split_and!; [done | done | apply not_elem_of_nil].
Qed.

Lemma skip_common_stop s t c s2 t2 :
  skip_common s t = (c :: s2, c :: t2) -> c = SLASH.
Proof.
  revert t. induction s as [|b s IH]; intros t E; [done |]. destruct t as [|d t]; [done |].
  cbn [skip_common] in E. destruct (decide (b = d /\ b <> SLASH)) as [|Hn]; [by eapply IH |].
  injection E as -> _ -> _. destruct (decide (c = SLASH)); [done |]. by destruct Hn.
Qed.

(** A round that goes on has passed a name of both. *)
Lemma round_again s t s2 t2 :
  skip_common (skip_slashes s) (skip_slashes t) = (s2, t2) ->
  match s2, t2 with
  | c :: _, d :: _ => bool_decide (c = d)
  | c :: _, [] | [], c :: _ => bool_decide (c = SLASH)
  | [], [] => false
  end = true ->
  exists n, at_end s2 /\ at_end t2 /\ slash_free n /\ n <> [] /\
    skip_slashes s = n ++ s2 /\ skip_slashes t = n ++ t2.
Proof.
  intros E Hagain. destruct (skip_common_split _ _ _ _ E) as (n & Es & Et & Hn).
  assert (at_end s2 /\ at_end t2 /\ (starts_with_slash s2 = true \/ starts_with_slash t2 = true)) as (Hs & Ht & Hor).
  { unfold at_end, starts_with_slash.
    destruct s2 as [|c s3], t2 as [|d t3]; try done; apply bool_decide_eq_true in Hagain; subst; [naive_solver.. |].
    assert (d = SLASH) as -> by by eapply skip_common_stop. split_and!; [right; by eexists.. | by left]. }
  exists n. split_and!; try done. intros ->. cbn [app] in Es, Et.
  destruct Hor as [H|H]; [rewrite <- Es in H | rewrite <- Et in H]; by rewrite skip_slashes_head in H.
Qed.

(** The ends of both have lost the same names. *)
Lemma strip_common_comps fuel s t :
  (length s < fuel)%nat ->
  exists sp tp pre, strip_common fuel s t = Ret (sp, tp) /\ comps s = pre ++ comps sp /\ comps t = pre ++ comps tp.
Proof.
  revert s t. induction fuel as [|fuel IH]; intros s t Hlen; [lia |]. cbn [strip_common].
  destruct (skip_common (skip_slashes s) (skip_slashes t)) as [s2 t2] eqn:E.
  destruct (match s2 with [] => match t2 with [] => _ | _ => _ end | _ => _ end) eqn:Hagain.
  - destruct (round_again s t s2 t2 E Hagain) as (n & Hs2 & Ht & Hn & Hne & Es & Et).
    destruct (IH s2 t2) as (sp & tp & pre & Hrun & Hs & Ht').
    { pose proof (length_skip_slashes s) as H. rewrite Es, length_app in H. destruct n; [done |]. simpl in *. lia. }
    exists sp, tp, (n :: pre). split; [exact Hrun |].
    rewrite <- (comps_skip s), Es, <- (comps_skip t), Et.
    rewrite !comps_name by done. by rewrite Hs, Ht'.
  - exists (skip_slashes s), (skip_slashes t), []. by rewrite !comps_skip.
Qed.

(** * Walks *)

(** The directory that a walk along names reaches from a directory. *)
Definition step (cwd : list bytes) (n : bytes) : list bytes :=
  if decide (n = B ".") then cwd else if decide (n = B "..") then removelast cwd else cwd ++ [n].

Definition walk (cwd names : list bytes) : list bytes := foldl step cwd names.

(** A name that is itself, neither [.] nor [..]. *)
Definition proper (n : bytes) : Prop := n <> B "." /\ n <> B "..".

Lemma walk_proper cwd ns : Forall proper ns -> walk cwd ns = cwd ++ ns.
Proof.
  revert cwd. induction ns as [|n ns IH]; intros cwd Hns; [by rewrite app_nil_r |].
  apply Forall_cons in Hns as [[H1 H2] Hns]. cbn. unfold step at 2. rewrite !decide_False by done.
  etrans; [by apply IH |]. by rewrite <- app_assoc.
Qed.

Lemma walk_up pre q : walk (pre ++ q) (replicate (length q) (B "..")) = pre.
Proof.
  induction q as [|n q IH] using rev_ind; [by rewrite app_nil_r |].
  rewrite length_app, Nat.add_comm. cbn [length Nat.add replicate walk foldl].
  unfold step at 2. rewrite decide_False, decide_True by done. by rewrite app_assoc, removelast_last.
Qed.

Lemma walk_app cwd ns ms : walk cwd (ns ++ ms) = walk (walk cwd ns) ms.
Proof. apply foldl_app. Qed.

Lemma comps_dotdots n p : comps (dotdot_slashes n ++ p) = replicate n (B "..") ++ comps p.
Proof.
  induction n as [|n IH]; [done |]. cbn [dotdot_slashes replicate app]. rewrite <- IH.
  set (r := dotdot_slashes n ++ p). change (comps (B ".." ++ SLASH :: r) = B ".." :: comps r).
  rewrite comps_name; [by rewrite comps_slash | | done | right; by eexists].
  apply (bool_decide_unpack (SLASH ∉ _)). reflexivity.
Qed.

Lemma strlen_dotdots n : strlen (dotdot_slashes n) = 3 * Z.of_nat n.
Proof. induction n as [|n IH]; [done |]. cbn [dotdot_slashes]. rewrite strlen_app, IH. change (strlen DOTDOT) with 3. lia. Qed.

(** What [transform_symlink] puts after the directories up. *)
Definition rest_of_link (k : Z) (l : bytes) : bytes :=
  if negb (strlen l =? 0) then l else if k =? 0 then B "." else [].

Lemma walk_rest cwd k l : walk cwd (comps (rest_of_link k l)) = walk cwd (comps l).
Proof.
  unfold rest_of_link. destruct (Z.eqb_spec (strlen l) 0) as [E|]; [| done].
  assert (l = []) as -> by (destruct l; [done | rewrite strlen_cons in E; pose proof (strlen_nonneg l); lia]).
  by destruct (k =? 0).
Qed.

(** From the directory of the link up to what the paths have in common, and on. *)
Lemma link_walk pre l ps :
  ps <> [] ->
  walk (removelast (pre ++ ps)) (comps (dotdot_slashes (length ps - 1) ++ rest_of_link (Z.of_nat (length ps) - 1) l))
    = walk pre (comps l).
Proof.
  intros Hps. rewrite comps_dotdots, walk_app, walk_rest. f_equal.
  rewrite removelast_app by done.
  destruct ps as [|x ps _] using rev_ind; [done |]. rewrite removelast_last, length_app. cbn [length].
  replace (length ps + 1 - 1)%nat with (length ps) by lia. apply walk_up.
Qed.

(** The branch that changes the link. *)
Lemma transform_changes d path buf size l p :
  starts_with_slash buf = true -> starts_with_slash (base d) = true ->
  strip_common (strip_fuel buf) buf path = Ret (l, p) ->
  baselen d <= strlen buf - strlen l -> comps p <> [] ->
  (Z.of_nat (length (comps p)) - 1) * 3 + strlen l + 2 <= size ->
  transform_symlink d path buf size
    = Ret (dotdot_slashes (length (comps p) - 1) ++ rest_of_link (Z.of_nat (length (comps p)) - 1) l).
Proof.
  intros Hb Hbase E Hin Hp Hsize. unfold transform_symlink. rewrite Hb, Hbase, E. cbn [negb orb].
  replace (strlen buf - strlen l <? baselen d) with false by lia. cbv zeta. rewrite count_components_comps.
  assert (length (comps p) <> 0%nat) by by destruct (comps p).
  replace (Z.of_nat (length (comps p)) =? 0) with false by lia.
  replace (size <? (Z.of_nat (length (comps p)) - 1) * 3 + strlen l + 2) with false by lia.
  do 2 f_equal. f_equal. lia.
Qed.

(** In the file system below, the new link leads where the old one did. *)
Lemma transform_symlink_resolves d path buf size :
  Forall proper (comps path) -> exists buf', transform_symlink d path buf size = Ret buf' /\
    (buf' = buf \/ walk (removelast (comps path)) (comps buf') = walk [] (comps buf) /\ strlen buf' < size).
Proof.
  intros Hp. unfold transform_symlink.
  destruct (negb (starts_with_slash buf) || negb (starts_with_slash (base d))); [by eauto |].
  destruct (strip_common_comps (strip_fuel buf) buf path ltac:(unfold strip_fuel; lia)) as (l & p & pre & -> & Hs & Ht).
  destruct (_ <? _); [by eauto |]. cbv zeta. rewrite count_components_comps.
  destruct (Z.eqb_spec (Z.of_nat (length (comps p))) 0) as [|Hne]; [by eauto |].
  destruct (Z.ltb_spec size ((Z.of_nat (length (comps p)) - 1) * 3 + strlen l + 2)); [by eauto |].
  eexists. split; [reflexivity |]. right. fold (rest_of_link (Z.of_nat (length (comps p)) - 1) l).
  replace (Z.to_nat (Z.of_nat (length (comps p)) - 1)) with (length (comps p) - 1)%nat by lia. split.
  - rewrite Ht, link_walk by (by destruct (comps p)). rewrite Hs, walk_app. f_equal.
    rewrite Ht in Hp. apply Forall_app in Hp as [Hpre _]. by rewrite walk_proper.
  - rewrite strlen_app, strlen_dotdots. unfold rest_of_link. pose proof (strlen_nonneg l).
    destruct (Z.eqb_spec (strlen l) 0); cbn [negb]; [| lia].
    destruct (_ =? 0); [change (strlen (B ".")) with 1 | change (strlen []) with 0]; lia.
Qed.

(** * Paths without repeated slashes *)

(** The path with these names, from the root. *)
Definition abs (names : list bytes) : bytes := concat ((fun n => SLASH :: n) <$> names).

(** The same without its first slash. *)
Definition rel (names : list bytes) : bytes := tail (abs names).

Definition name_ok (n : bytes) : Prop := slash_free n /\ n <> [] /\ proper n.

Lemma abs_app ns ms : abs (ns ++ ms) = abs ns ++ abs ms.
Proof. unfold abs. by rewrite fmap_app, concat_app. Qed.

Lemma abs_at_end ns : at_end (abs ns).
Proof. destruct ns; [by left | right; by eexists]. Qed.

Lemma rel_cons n ns : rel (n :: ns) = n ++ abs ns.
Proof. done. Qed.

Lemma name_head n p : name_ok n -> exists c q, n ++ p = c :: q /\ c <> SLASH.
Proof.
  intros (Hn & Hne & _). destruct n as [|c n]; [done |]. exists c, (n ++ p). split; [done |].
  by apply not_elem_of_cons in Hn as [H _].
Qed.

Lemma skip_rel ns : Forall name_ok ns -> skip_slashes (abs ns) = rel ns.
Proof.
  destruct ns as [|n ns]; [done |]. intros [Hn _]%Forall_cons.
  rewrite rel_cons. unfold abs at 1. cbn [fmap list_fmap concat app skip_slashes]. rewrite decide_True by done.
  destruct (name_head n (concat ((fun n => SLASH :: n) <$> ns)) Hn) as (c & q & E & Hc).
  unfold abs. cbn in E |- *. rewrite E. cbn [skip_slashes]. by rewrite decide_False.
Qed.

Lemma comps_abs ns : Forall name_ok ns -> comps (abs ns) = ns.
Proof.
  induction ns as [|n ns IH]; [done |]. intros [(Hs & Hne & _) Hns]%Forall_cons.
  change (abs (n :: ns)) with (SLASH :: n ++ abs ns). rewrite comps_slash, comps_name by (done || apply abs_at_end).
  by rewrite IH.
Qed.

Lemma comps_rel ns : Forall name_ok ns -> comps (rel ns) = ns.
Proof. intros H. by rewrite <- skip_rel, comps_skip, comps_abs. Qed.

Lemma rel_relative ns : Forall name_ok ns -> starts_with_slash (rel ns) = false.
Proof. intros H. rewrite <- skip_rel by done. apply skip_slashes_head. Qed.

(** The names that [strip_common] leaves: of two equal paths it leaves the last. *)
Fixpoint strip_names (ls ps : list bytes) : list bytes * list bytes :=
  match ls, ps with
  | n :: ls', m :: ps' =>
      if decide (n = m /\ ~ (ls' = [] /\ ps' = [])) then strip_names ls' ps' else (ls, ps)
  | _, _ => (ls, ps)
  end.

Lemma skip_common_name n p q : slash_free n -> at_end p -> at_end q -> skip_common (n ++ p) (n ++ q) = (p, q).
Proof.
  intros Hn Hp Hq. induction n as [|c n IH].
  - cbn [app]. destruct Hp as [->|[p' ->]], Hq as [->|[q' ->]]; done.
  - apply not_elem_of_cons in Hn as [Hc Hn]. cbn [app skip_common]. rewrite decide_True by done. by apply IH.
Qed.

(** Two names that differ: the ends are not a reason to go on. *)
Lemma skip_common_differ n m p q :
  slash_free n -> slash_free m -> n <> m -> at_end p -> at_end q ->
  match skip_common (n ++ p) (m ++ q) with
  | (c :: _, d :: _) => bool_decide (c = d)
  | (c :: _, []) | ([], c :: _) => bool_decide (c = SLASH)
  | ([], []) => false
  end = false.
Proof.
  revert m. induction n as [|c n IH]; intros m Hn Hm Hnm Hp Hq.
  - destruct m as [|d m]; [done |]. apply not_elem_of_cons in Hm as [Hd _]. cbn [app].
    destruct Hp as [->|[p' ->]]; cbn [skip_common]; [by apply bool_decide_eq_false |].
    rewrite decide_False by naive_solver. by apply bool_decide_eq_false.
  - apply not_elem_of_cons in Hn as [Hc Hn]. destruct m as [|d m].
    + cbn [app]. destruct Hq as [->|[q' ->]]; cbn [skip_common]; [by apply bool_decide_eq_false |].
      rewrite decide_False by naive_solver. by apply bool_decide_eq_false.
    + apply not_elem_of_cons in Hm as [Hd Hm]. cbn [app skip_common].
      destruct (decide (c = d /\ c <> SLASH)) as [[<- _]|Hcd]; [apply IH; [done | done | congruence | done | done] |].
      apply bool_decide_eq_false. naive_solver.
Qed.

Lemma strip_common_rel fuel s t ls ps :
  (length s < fuel)%nat -> Forall name_ok ls -> Forall name_ok ps -> skip_slashes s = rel ls -> skip_slashes t = rel ps ->
  strip_common fuel s t = Ret (rel (strip_names ls ps).1, rel (strip_names ls ps).2).
Proof.
  revert s t ls ps. induction fuel as [|fuel IH]; intros s t ls ps Hlen Hls Hps Hs Ht; [lia |].
  cbn [strip_common]. rewrite Hs, Ht. destruct ls as [|n ls].
  - cbn [strip_names fst snd]. change (rel []) with ([] : bytes). cbn [skip_common].
    pose proof (rel_relative ps Hps) as H. unfold starts_with_slash in H. destruct (rel ps); [done |]. by rewrite H.
  - destruct ps as [|m ps].
    + cbn [strip_names fst snd]. pose proof (rel_relative (n :: ls) Hls) as H. unfold starts_with_slash in H.
      change (rel []) with ([] : bytes). destruct (rel (n :: ls)); [done |]. cbn [skip_common]. by rewrite H.
    + apply Forall_cons in Hls as [(Hn & Hne & _) Hls]. apply Forall_cons in Hps as [(Hm & _) Hps].
      rewrite !rel_cons. cbn [strip_names]. destruct (decide (n = m)) as [<-|Hnm].
      * rewrite skip_common_name by (done || apply abs_at_end).
        destruct (decide (n = n /\ ~ (ls = [] /\ ps = []))) as [[_ Hne']|Hboth].
        -- replace (match abs ls with [] => _ | _ => _ end) with true.
           ++ apply IH; [| done | done | by apply skip_rel..].
              rewrite rel_cons in Hs. pose proof (length_skip_slashes s) as H. rewrite Hs, length_app in H.
              destruct n; [done |]. cbn [length] in H. lia.
           ++ destruct ls, ps; try done. tauto.
        -- assert (ls = [] /\ ps = []) as [-> ->] by (destruct ls, ps; try tauto; exfalso; apply Hboth; naive_solver). done.
      * rewrite decide_False by naive_solver. pose proof (skip_common_differ n m (abs ls) (abs ps) Hn Hm Hnm (abs_at_end _) (abs_at_end _)) as H.
        destruct (skip_common _ _) as [s2 t2]. cbn [fst snd]. by rewrite H, !rel_cons.
Qed.

Lemma strip_names_split ls ps :
  exists pre, ls = pre ++ (strip_names ls ps).1 /\ ps = pre ++ (strip_names ls ps).2.
Proof.
  revert ps. induction ls as [|n ls IH]; intros ps; [by exists [] |].
  destruct ps as [|m ps]; [by exists [] |]. cbn [strip_names].
  destruct (decide (n = m /\ ~ (ls = [] /\ ps = []))) as [[<- _]|]; [| by exists []].
  destruct (IH ps) as (pre & E1 & E2). exists (n :: pre). cbn [app]. by rewrite <- E1, <- E2.
Qed.

Lemma strip_names_under bs ts rs : rs <> [] -> strip_names (bs ++ ts) (bs ++ rs) = strip_names ts rs.
Proof.
  intros Hrs. induction bs as [|b bs IH]; [done |]. cbn [app strip_names].
  rewrite decide_True; [done |]. split; [done |]. intros [_ H]. by destruct bs.
Qed.

Lemma strlen_abs_rel ns : strlen (abs ns) = strlen (rel ns) + (if decide (ns = []) then 0 else 1).
Proof.
  destruct ns as [|n ns]; [done |]. rewrite decide_False by done. change (abs (n :: ns)) with (SLASH :: rel (n :: ns)).
  rewrite strlen_cons. lia.
Qed.

Lemma strlen_abs_pos ns : ns <> [] -> 1 <= strlen (abs ns).
Proof. intros H. rewrite strlen_abs_rel, decide_False by done. pose proof (strlen_nonneg (rel ns)). lia. Qed.

Lemma length_abs ns : Z.of_nat (length ns) <= strlen (abs ns).
Proof.
  induction ns as [|n ns IH]; [done |]. change (n :: ns) with ([n] ++ ns). rewrite abs_app, strlen_app, length_app.
  pose proof (strlen_abs_pos [n] ltac:(done)). cbn [length]. lia.
Qed.

Lemma names_proper ns : Forall name_ok ns -> Forall proper ns.
Proof. rewrite !Forall_forall. unfold name_ok. naive_solver. Qed.

(** The module over the directory with these names. *)
Definition under (bs : list bytes) : subdir := Subdir (abs bs ++ [SLASH]) true.

Lemma baselen_under bs : baselen (under bs) = strlen (abs bs) + 1.
Proof. unfold baselen. cbn [base under]. by rewrite strlen_app. Qed.

Lemma under_slash bs : starts_with_slash (base (under bs)) = true.
Proof. by destruct bs. Qed.

Lemma abs_slash ns : ns <> [] -> starts_with_slash (abs ns) = true.
Proof. by destruct ns. Qed.

(** What [strip_common] does to a link and a path of the file system below. *)
Lemma strip_common_abs ls ps :
  Forall name_ok ls -> Forall name_ok ps ->
  strip_common (strip_fuel (abs ls)) (abs ls) (abs ps) = Ret (rel (strip_names ls ps).1, rel (strip_names ls ps).2).
Proof. intros Hl Hp. apply strip_common_rel; [unfold strip_fuel; lia | done | done | by apply skip_rel..]. Qed.

Lemma strip_names_left ls ps : (strip_names ls ps).1 = [] -> (strip_names ls ps).2 = [] -> ls = [] /\ ps = [].
Proof.
  revert ps. induction ls as [|n ls IH]; intros ps; [done |]. destruct ps as [|m ps]; [done |]. cbn [strip_names].
  destruct (decide (n = m /\ ~ (ls = [] /\ ps = []))) as [[_ Hne]|]; [| done].
  intros H1 H2. destruct Hne. by apply IH.
Qed.

(** C34. With the option rellinks, an absolute link to a place under the base
    becomes a relative link that leads to that place, both in the file system
    below and in the one that the module shows, where the base is the root. *)
Theorem rellinks_lead_inside (bs ts rs : list bytes) (size : Z) :
  Forall name_ok (bs ++ ts) -> Forall name_ok (bs ++ rs) ->
  ts <> [] -> rs <> [] -> (forall qs, ts = rs ++ qs -> qs = []) ->
  3 * Z.of_nat (length rs) + strlen (abs ts) <= size ->
  exists buf, transform_symlink (under bs) (abs (bs ++ rs)) (abs (bs ++ ts)) size = Ret buf /\
    starts_with_slash buf = false /\ walk (removelast rs) (comps buf) = ts /\
    walk (removelast (bs ++ rs)) (comps buf) = bs ++ ts.
Proof.
  intros Hts Hrs Hne1 Hne2 Hanc Hsize. pose proof (strip_common_abs _ _ Hts Hrs) as Hstrip.
  rewrite strip_names_under in Hstrip by done. pose proof (strip_names_left ts rs) as Hleft.
  destruct (strip_names_split ts rs) as (pre & E1 & E2). destruct (strip_names ts rs) as [a b]. cbn [fst snd] in *.
  assert (b <> []) as Hbne.
  { intros ->. rewrite app_nil_r in E2. subst pre. destruct (Hleft (Hanc a E1) eq_refl). done. }
  apply Forall_app in Hts as [Hbs Hts]. apply Forall_app in Hrs as [_ Hrs].
  rewrite E1 in Hts. rewrite E2 in Hrs. apply Forall_app in Hts as [Hpre Ha]. apply Forall_app in Hrs as [_ Hb].
  pose proof (strlen_abs_rel a) as La. pose proof (strlen_nonneg (rel a)). pose proof (strlen_nonneg (abs pre)).
  exists (dotdot_slashes (length b - 1) ++ rest_of_link (Z.of_nat (length b) - 1) (rel a)). split_and!.
  - etrans; [eapply transform_changes; [apply abs_slash; by destruct bs | apply under_slash | exact Hstrip | | |] |];
      rewrite ?comps_rel by done; try done.
    + rewrite baselen_under, E1, !abs_app, !strlen_app, La. destruct (decide (a = [])) as [->|]; [| lia].
      rewrite app_nil_r in E1. subst pre. pose proof (strlen_abs_pos ts Hne1). change (strlen (rel [])) with 0. lia.
    + rewrite E1, abs_app, strlen_app, La in Hsize. rewrite E2, length_app in Hsize.
      assert (1 <= Z.of_nat (length b)) by (destruct b; [done | cbn [length]; lia]). destruct (decide (a = [])); [| lia].
      subst a. rewrite app_nil_r in E1. subst pre. change (strlen (rel [])) with 0 in *. pose proof (strlen_abs_pos ts Hne1). lia.
  - destruct (length b - 1)%nat eqn:Eb; [| done]. cbn [dotdot_slashes app]. unfold rest_of_link.
    destruct (negb _); [by apply rel_relative |]. replace (Z.of_nat (length b) - 1) with 0 by (destruct b; [done | cbn [length] in *; lia]). done.
  - rewrite E2, link_walk, comps_rel by done. by rewrite walk_proper by by apply names_proper.
  - rewrite E1, E2, !app_assoc, link_walk, comps_rel by done. by rewrite walk_proper by by apply names_proper.
Qed.

(** /data/www shown: its page/index that points to /data/www/pub/a.html. *)
Lemma rellinks_lead_inside_witness :
  exists buf, transform_symlink (under [B "data"; B "www"]) (abs [B "data"; B "www"; B "page"; B "index"])
                (abs [B "data"; B "www"; B "pub"; B "a.html"]) 4096 = Ret buf /\
    starts_with_slash buf = false /\ walk [B "page"] (comps buf) = [B "pub"; B "a.html"] /\
    walk [B "data"; B "www"; B "page"] (comps buf) = [B "data"; B "www"; B "pub"; B "a.html"].
Proof.
  apply (rellinks_lead_inside [B "data"; B "www"] [B "pub"; B "a.html"] [B "page"; B "index"] 4096).
  all: try done; try (apply (bool_decide_unpack _); vm_compute; reflexivity).
Defined.

Example link_across :
  transform_symlink (under [B "data"; B "www"]) (B "/data/www/page/index") (B "/data/www/pub/a.html") 4096 = Ret (B "../pub/a.html").
Proof. vm_compute. reflexivity. Qed.

(** *)
Theorem rellinks_outside_kept (bs ls rs : list bytes) (size : Z) :
  Forall name_ok ls -> Forall name_ok (bs ++ rs) -> (forall ts, ls = bs ++ ts -> ts = []) ->
  transform_symlink (under bs) (abs (bs ++ rs)) (abs ls) size = Ret (abs ls).
Proof.
  intros Hls Hps Hout. unfold transform_symlink. rewrite (strip_common_abs _ _ Hls Hps).
  destruct (negb (starts_with_slash (abs ls)) || _); [done |]. rewrite baselen_under.
  destruct (strip_names_split ls (bs ++ rs)) as (pre & E1 & E2). destruct (strip_names ls (bs ++ rs)) as [a b]. cbn [fst snd] in *.
  enough (strlen (abs ls) - strlen (rel a) < strlen (abs bs) + 1) as ?.
  { by replace (strlen (abs ls) - strlen (rel a) <? strlen (abs bs) + 1) with true by lia. }
  pose proof (strlen_abs_rel a) as La. rewrite E1, abs_app, strlen_app.
  destruct (prefix_weak_total bs pre (bs ++ rs)) as [[q ->]|[q Eq]]; [by eexists | by eexists | |].
  - rewrite <- app_assoc in E1. destruct (app_eq_nil q a (Hout _ E1)) as [-> ->].
    rewrite app_nil_r. change (strlen (rel [])) with 0. change (strlen (abs [])) with 0. lia.
  - destruct q as [|n q].
    + rewrite app_nil_r in Eq. subst pre. rewrite (Hout a E1). change (strlen (rel [])) with 0. change (strlen (abs [])) with 0. lia.
    + rewrite Eq, abs_app, strlen_app. pose proof (strlen_abs_pos (n :: q) ltac:(done)). destruct (decide (a = [])); lia.
Qed.

Lemma rellinks_outside_kept_witness :
  transform_symlink (under [B "data"; B "www"]) (abs [B "data"; B "www"; B "index"]) (abs [B "data"; B "old"]) 4096
    = Ret (abs [B "data"; B "old"]).
Proof.
  apply (rellinks_outside_kept [B "data"; B "www"] [B "data"; B "old"] [B "index"]).
  all: try done; try (apply (bool_decide_unpack _); vm_compute; reflexivity).
Defined.

(** Slashes count for the base: a link out of the base becomes one that leads into it. *)
Lemma rellinks_slashes_pass :
  transform_symlink (under [B "a"]) (B "/a/b") (B "////etc/passwd") 4096 = Ret (B "../etc/passwd") /\
  transform_symlink (under [B "a"]) (B "/a/b") (B "/etc/passwd") 4096 = Ret (B "/etc/passwd").
Proof. split; vm_compute; reflexivity. Qed.
