(* ===== verification/FuseSubdirSpec.v ===== *)
(** What the subdir module promises: a call is the same call of the file system below, on
    the paths under the base, and its blocks of memory are all freed. *)

From S2P Require Import Prelude.
From S2P Require Import CString.
From S2P Require Import Entry.
From S2P Require Import FuseNodes.
From S2P Require Import FuseLib.
From S2P Require Import FuseSubdir.
From S2P Require Import FuseSubdirProps.
From S2P Require FuseLocks.
From S2P Require FuseLowlevel.

(** A call of a file system on paths, by the type of its answer; the directories are read
    into a buffer of type [D]. *)
Inductive fs_call {D : Type} : Type -> Type :=
| CGetattr (path : bytes) : fs_call (Z * attr)
| CFgetattr (path : bytes) (fi : file_info) : fs_call (Z * attr)
| CAccess (path : bytes) (mask : Z) : fs_call Z
| CReadlink (path : bytes) (size : Z) : fs_call (Z * bytes)
| CMknod (path : bytes) (mode rdev : Z) : fs_call Z
| CMkdir (path : bytes) (mode : Z) : fs_call Z
| CUnlink (path : bytes) : fs_call Z
| CRmdir (path : bytes) : fs_call Z
| CSymlink (from path : bytes) : fs_call Z
| CRename (from to : bytes) : fs_call Z
| CLink (from to : bytes) : fs_call Z
| CChmod (path : bytes) (mode : Z) : fs_call Z
| CChown (path : bytes) (uid gid : Z) : fs_call Z
| CTruncate (path : bytes) (size : Z) : fs_call Z
| CFtruncate (path : bytes) (size : Z) (fi : file_info) : fs_call Z
| CUtimens (path : bytes) (ts : timespec * timespec) : fs_call Z
| CCreate (path : bytes) (mode : Z) (fi : file_info) : fs_call (Z * file_info)
| COpen (path : bytes) (fi : file_info) : fs_call (Z * file_info)
| CRelease (path : bytes) (fi : file_info) : fs_call Z
| CRead (path : bytes) (size off : Z) (fi : file_info) : fs_call (Z * bytes)
| CWrite (path buf : bytes) (off : Z) (fi : file_info) : fs_call Z
| CFsync (path : bytes) (datasync : Z) (fi : file_info) : fs_call Z
| CStatfs (path : bytes) : fs_call (Z * statvfs)
| CSetxattr (path name value : bytes) (flags : Z) : fs_call Z
| CGetxattr (path name : bytes) (size : Z) : fs_call (Z * bytes)
| CListxattr (path : bytes) (size : Z) : fs_call (Z * bytes)
| CRemovexattr (path name : bytes) : fs_call Z
| CBmap (path : bytes) (blocksize idx : Z) : fs_call (Z * Z)
| COpendir (path : bytes) (fi : file_info) : fs_call (Z * file_info)
| CReleasedir (path : bytes) (fi : file_info) : fs_call Z
| CFsyncdir (path : bytes) (datasync : Z) (fi : file_info) : fs_call Z
| CReaddir (path : bytes) (buf : D) (filler : fill_dir D) (off : Z) (fi : file_info) : fs_call (Z * D)
| CFlush (path : bytes) (fi : file_info) : fs_call Z
| CLock (path : bytes) (fi : file_info) (cmd : Z) (lock : FuseLocks.flock) : fs_call (Z * FuseLocks.flock).
Arguments fs_call D A : clear implicits, rename.

(** The function of the library that makes the call. *)
Definition call {S D U A} (fs : fuse_fs S D U) (c : fs_call D A) : M S A :=
  let ops := t_oper (op fs) in
  match c with
  | CGetattr p => fuse_fs_getattr ops p
  | CFgetattr p fi => fuse_fs_fgetattr ops p fi
  | CAccess p mask => fuse_fs_access ops p mask
  | CReadlink p size => fuse_fs_readlink ops p size
  | CMknod p mode rdev => fuse_fs_mknod ops p mode rdev
  | CMkdir p mode => fuse_fs_mkdir ops p mode
  | CUnlink p => fuse_fs_unlink ops p
  | CRmdir p => fuse_fs_rmdir ops p
  | CSymlink from p => fuse_fs_symlink ops from p
  | CRename from to => fuse_fs_rename ops from to
  | CLink from to => fuse_fs_link ops from to
  | CChmod p mode => fuse_fs_chmod ops p mode
  | CChown p uid gid => fuse_fs_chown ops p uid gid
  | CTruncate p size => fuse_fs_truncate ops p size
  | CFtruncate p size fi => fuse_fs_ftruncate ops p size fi
  | CUtimens p ts => fuse_fs_utimens ops p ts
  | CCreate p mode fi => fuse_fs_create ops p mode fi
  | COpen p fi => fuse_fs_open ops p fi
  | CRelease p fi => fuse_fs_release ops p fi
  | CRead p size off fi => fuse_fs_read ops p size off fi
  | CWrite p buf off fi => fuse_fs_write ops p buf off fi
  | CFsync p datasync fi => fuse_fs_fsync ops p datasync fi
  | CStatfs p => fuse_fs_statfs ops p
  | CSetxattr p name value flags => fuse_fs_setxattr ops p name value flags
  | CGetxattr p name size => fuse_fs_getxattr ops p name size
  | CListxattr p size => fuse_fs_listxattr ops p size
  | CRemovexattr p name => fuse_fs_removexattr ops p name
  | CBmap p blocksize idx => fuse_fs_bmap ops p blocksize idx
  | COpendir p fi => fuse_fs_opendir ops p fi
  | CReleasedir p fi => fuse_fs_releasedir ops p fi
  | CFsyncdir p datasync fi => fuse_fs_fsyncdir ops p datasync fi
  | CReaddir p buf filler off fi => fuse_fs_readdir fs p buf filler off fi
  | CFlush p fi => fuse_fs_flush fs p fi
  | CLock p fi cmd lock => fuse_fs_lock fs p fi cmd lock
  end.

(** The paths of a call: of a symbolic link only its own, not the one it points to. *)
Definition paths {D A} (c : fs_call D A) : list bytes :=
  match c with
  | CGetattr p | CFgetattr p _ | CAccess p _ | CReadlink p _ | CMknod p _ _ | CMkdir p _ | CUnlink p | CRmdir p
  | CSymlink _ p | CChmod p _ | CChown p _ _ | CTruncate p _ | CFtruncate p _ _ | CUtimens p _ | CCreate p _ _
  | COpen p _ | CRelease p _ | CRead p _ _ _ | CWrite p _ _ _ | CFsync p _ _ | CStatfs p | CSetxattr p _ _ _
  | CGetxattr p _ _ | CListxattr p _ | CRemovexattr p _ | CBmap p _ _ | COpendir p _ | CReleasedir p _
  | CFsyncdir p _ _ | CReaddir p _ _ _ _ | CFlush p _ | CLock p _ _ _ => [p]
  | CRename p q | CLink p q => [p; q]
  end.

(** The call with other paths. *)
Definition on_paths {D A} (f : bytes -> bytes) (c : fs_call D A) : fs_call D A :=
  match c with
  | CGetattr p => CGetattr (f p)
  | CFgetattr p fi => CFgetattr (f p) fi
  | CAccess p mask => CAccess (f p) mask
  | CReadlink p size => CReadlink (f p) size
  | CMknod p mode rdev => CMknod (f p) mode rdev
  | CMkdir p mode => CMkdir (f p) mode
  | CUnlink p => CUnlink (f p)
  | CRmdir p => CRmdir (f p)
  | CSymlink from p => CSymlink from (f p)
  | CRename from to => CRename (f from) (f to)
  | CLink from to => CLink (f from) (f to)
  | CChmod p mode => CChmod (f p) mode
  | CChown p uid gid => CChown (f p) uid gid
  | CTruncate p size => CTruncate (f p) size
  | CFtruncate p size fi => CFtruncate (f p) size fi
  | CUtimens p ts => CUtimens (f p) ts
  | CCreate p mode fi => CCreate (f p) mode fi
  | COpen p fi => COpen (f p) fi
  | CRelease p fi => CRelease (f p) fi
  | CRead p size off fi => CRead (f p) size off fi
  | CWrite p buf off fi => CWrite (f p) buf off fi
  | CFsync p datasync fi => CFsync (f p) datasync fi
  | CStatfs p => CStatfs (f p)
  | CSetxattr p name value flags => CSetxattr (f p) name value flags
  | CGetxattr p name size => CGetxattr (f p) name size
  | CListxattr p size => CListxattr (f p) size
  | CRemovexattr p name => CRemovexattr (f p) name
  | CBmap p blocksize idx => CBmap (f p) blocksize idx
  | COpendir p fi => COpendir (f p) fi
  | CReleasedir p fi => CReleasedir (f p) fi
  | CFsyncdir p datasync fi => CFsyncdir (f p) datasync fi
  | CReaddir p buf filler off fi => CReaddir (f p) buf filler off fi
  | CFlush p fi => CFlush (f p) fi
  | CLock p fi cmd lock => CLock (f p) fi cmd lock
  end.

(** The answer when there is no memory: an error, and otherwise what was there before. *)
Definition no_memory {D A} (c : fs_call D A) : A :=
  match c with
  | CGetattr _ | CFgetattr _ _ => (- ENOMEM, zero_attr)
  | CReadlink _ _ | CRead _ _ _ _ | CGetxattr _ _ _ | CListxattr _ _ => (- ENOMEM, [])
  | CCreate _ _ fi | COpen _ fi | COpendir _ fi => (- ENOMEM, fi)
  | CStatfs _ => (- ENOMEM, Statvfs 0 0 0 0 0 0 0 0)
  | CBmap _ _ idx => (- ENOMEM, idx)
  | CReaddir _ buf _ _ _ => (- ENOMEM, buf)
  | CLock _ _ _ lock => (- ENOMEM, lock)
  | CAccess _ _ | CMknod _ _ _ | CMkdir _ _ | CUnlink _ | CRmdir _ | CSymlink _ _ | CRename _ _ | CLink _ _
  | CChmod _ _ | CChown _ _ _ | CTruncate _ _ | CFtruncate _ _ _ | CUtimens _ _ | CRelease _ _ | CWrite _ _ _ _
  | CFsync _ _ _ | CSetxattr _ _ _ _ | CRemovexattr _ _ | CReleasedir _ _ | CFsyncdir _ _ _ | CFlush _ _ => - ENOMEM
  end.

Section Spec.
Context (alloc_ok : nat -> bool) (d : subdir) {S D U : Type} (fs : fuse_fs S D U).

(** The path below that stands for a path: without its slash, after the base. *)
Definition rebase (path : bytes) : bytes :=
  let p := base d ++ (if starts_with_slash path then tail path else path) in
  if decide (p = []) then B "." else p.

(** The answer, after that of the file system below: only links change. *)
Definition after {A} (c : fs_call D A) : A -> A :=
  match c with
  | CReadlink path size => fun r =>
      match transform_symlink d (rebase path) (snd r) size with
      | Ret buf => if (fst r =? 0) && rellinks d then (fst r, buf) else r
      | _ => r
      end
  | _ => id
  end.

(** The allocations of a call all succeed. *)
Definition memory (st : stacked S) (n : nat) : bool := forallb alloc_ok (seq (allocs st) n).

(** The abstract module: the call below, on the paths under the base. *)
Definition subdir_call {A} (c : fs_call D A) : M (stacked S) A := fun st =>
  let n := length (paths c) in
  if memory st n then
    match call fs (on_paths rebase c) (next st) with
    | Ret (a, s) => Ret (after c a, Stacked s (allocs st + n) (live st))
    | Exit z => Exit z
    | UB => UB
    | Hang => Hang
    end
  else Ret (no_memory c, Stacked (next st) (allocs st + n) (live st)).

(** A path that is short enough for the length of [subdir_addpath], an [unsigned]. *)
Definition short (path : bytes) : Prop := baselen d + strlen path + 2 < 2 ^ 32.

Lemma strlen_rebase path : strlen (base d ++ (if starts_with_slash path then tail path else path)) <= baselen d + strlen path.
Proof.
  unfold baselen. rewrite strlen_app. destruct path as [|c p]; [cbn [starts_with_slash]; lia |].
  destruct (starts_with_slash _); cbn [tail]; rewrite ?strlen_cons; lia.
Qed.

(** One path: a block more, unless there is no memory. *)
Lemma subdir_addpath_run path (st : stacked S) :
  short path ->
  subdir_addpath alloc_ok d path st
    = if alloc_ok (allocs st) then Ret (Some (rebase path), Stacked (next st) (allocs st + 1) (live st + 1))
      else Ret (None, Stacked (next st) (allocs st + 1) (live st)).
Proof.
  intros Hs. pose proof (strlen_rebase path) as Hle. unfold subdir_addpath, malloc, assert_defined.
  unfold short in Hs. pose proof (strlen_nonneg path). assert (0 <= baselen d) by apply strlen_nonneg.
  rewrite (to_u32_id (baselen d + strlen path)), to_u32_id by lia.
  unfold mbind, M_bind, get, modify, mret, M_ret. destruct (alloc_ok (allocs st)); cbn; rewrite Nat.add_1_r; [| done].
  replace (match path with [] => path | c :: p => if decide (c = SLASH) then p else path end)
    with (if starts_with_slash path then tail path else path) by
    (destruct path as [|c p]; [done |]; cbn; by destruct (decide (c = SLASH)) as [->|]; [rewrite bool_decide_eq_true_2 | rewrite bool_decide_eq_false_2]).
  match goal with |- context [?a <=? ?b] => replace (a <=? b) with true by lia end; done.
Qed.

(** The body of the operations with one path. *)
Lemma with_newpath_run {A} path (none : A) (m : bytes -> M S A) (st : stacked S) :
  short path ->
  with_newpath alloc_ok d path none (fun p => on_next (m p)) st
    = if memory st 1 then
        match m (rebase path) (next st) with
        | Ret (a, s) => Ret (a, Stacked s (allocs st + 1) (live st))
        | Exit z => Exit z
        | UB => UB
        | Hang => Hang
        end
      else Ret (none, Stacked (next st) (allocs st + 1) (live st)).
Proof.
  intros Hs. unfold with_newpath, memory, mbind, M_bind. cbn [seq forallb]. rewrite subdir_addpath_run, andb_true_r by done.
  destruct (alloc_ok (allocs st)); [| done]. unfold on_next. cbn [next allocs live].
  destruct (m (rebase path) (next st)) as [[a s]| | |]; [| done..].
  cbn. unfold add_live. cbn. by replace (live st + 1 + -1) with (live st) by lia.
Qed.

(** And of those with two. *)
Lemma with_newpaths_run from to (k : bytes -> bytes -> M S Z) (st : stacked S) :
  short from -> short to ->
  with_newpaths alloc_ok d from to k st
    = if memory st 2 then
        match k (rebase from) (rebase to) (next st) with
        | Ret (a, s) => Ret (a, Stacked s (allocs st + 2) (live st))
        | Exit z => Exit z
        | UB => UB
        | Hang => Hang
        end
      else Ret (- ENOMEM, Stacked (next st) (allocs st + 2) (live st)).
Proof.
  intros Hf Ht. unfold with_newpaths, memory, mbind, M_bind. cbn [seq forallb]. rewrite subdir_addpath_run, andb_true_r by done.
  rewrite <- (Nat.add_1_r (allocs st)).
  destruct (alloc_ok (allocs st)); rewrite subdir_addpath_run by done; cbn [allocs live next];
    destruct (alloc_ok (allocs st + 1)); cbn [andb].
  1: unfold on_next; cbn [next allocs live]; destruct (k _ _ (next st)) as [[a s]| | |]; try done.
  all: cbn; unfold add_live; cbn; rewrite <- ?Nat.add_assoc, <- ?Z.add_assoc; cbn; by rewrite ?Z.add_0_r.
Qed.

(** [transform_symlink] returns. *)
Lemma transform_returns path buf size : exists buf', transform_symlink d path buf size = Ret buf'.
Proof.
  unfold transform_symlink. destruct (_ || _); [by eauto |].
  destruct (strip_common_comps (strip_fuel buf) buf path ltac:(unfold strip_fuel; lia)) as (l & p & pre & -> & _).
  cbv zeta. repeat case_match; eauto.
Qed.

Lemma subdir_readlink_run path size (st : stacked S) :
  short path -> subdir_readlink alloc_ok d (t_oper (op fs)) path size st = subdir_call (CReadlink path size) st.
Proof.
  intros Hs. unfold subdir_readlink, subdir_call, with_newpath, memory, mbind, M_bind. cbn [paths length seq forallb].
  rewrite subdir_addpath_run, andb_true_r by done. destruct (alloc_ok (allocs st)); [| done].
  unfold on_next. cbn [next allocs live call on_paths after].
  destruct (fuse_fs_readlink (t_oper (op fs)) (rebase path) size (next st)) as [[a s]| | |]; [| done..].
  destruct (transform_returns (rebase path) (snd a) size) as [buf E]. rewrite E.
  destruct ((fst a =? 0) && rellinks d); cbn; unfold add_live; cbn; by replace (live st + 1 + -1) with (live st) by lia.
Qed.

Lemma subdir_call_refines {A} m data (c : fs_call D A) (st : stacked S) :
  Forall short (paths c) -> call (FuseFs (subdir_oper alloc_ok d fs) m data) c st = subdir_call c st.
Proof.
  intros Hs. destruct c; cbn [paths] in Hs; apply Forall_cons in Hs as [Hs Hs'];
  first
    [ by apply subdir_readlink_run
    | match goal with |- call _ ?c st = _ =>
        exact (with_newpath_run _ (no_memory c) (fun p => call fs (on_paths (fun _ => p) c)) st Hs) end
    | apply Forall_cons in Hs' as [Hs' _];
      first [ exact (with_newpaths_run _ _ (fuse_fs_rename (t_oper (op fs))) st Hs Hs')
            | exact (with_newpaths_run _ _ (fuse_fs_link (t_oper (op fs))) st Hs Hs') ] ].
Qed.

(** The module, with the data that its [init] returned, and the module that its table came
    from. *)
Definition over (m : option fuse_module) (fs : fuse_fs S D U) : fuse_fs (stacked S) D (subdir * fuse_fs S D U) :=
  FuseFs (subdir_oper alloc_ok d fs) m (d, fs).

(** The counters of a module that is loaded, and what they are with one user less: the shared
    object is closed when it was the last user of the last module of the object. *)
Definition loaded (m : fuse_module) : Prop := 0 < ctr m /\ forall k, so m = Some k -> 0 < k.
Definition put_back (m : fuse_module) : fuse_module * bool :=
  if bool_decide (ctr m = 1) then
    (Module 0 (Z.pred <$> so m), bool_decide (so m = Some 1))
  else (Module (ctr m - 1) (so m), false).

Lemma fuse_put_module_run {T} m (s : T) : loaded m -> fuse_put_module m s = Ret (put_back m, s).
Proof.
  intros [Hc Hk]. unfold fuse_put_module, put_back. rewrite (proj2 (Z.leb_gt _ _)) by done.
  destruct m as [c [k|]]; cbn [ctr so] in *.
  - specialize (Hk k eq_refl). case_bool_decide as E.
    + subst c. cbn. rewrite (proj2 (Z.leb_gt _ _)) by done. replace (bool_decide (Some k = Some 1)) with (k - 1 =? 0); [done |].
      rewrite (bool_decide_ext (Some k = Some 1) (k = 1)) by (split; [by intros [= ->] | by intros ->]).
      case_bool_decide; lia.
    + by rewrite (proj2 (Z.eqb_neq _ _)) by lia.
  - case_bool_decide as E; [by subst c |]. done.
Qed.

(** The table does not depend on what the [init] of the next file system returned. *)
Lemma subdir_oper_started conn s fs' conn' s' :
  fuse_fs_init fs conn s = Ret (fs', conn', s') -> subdir_oper alloc_ok d fs' = subdir_oper alloc_ok d fs.
Proof.
  unfold fuse_fs_init, mbind, M_bind. destruct (t_init (op fs)) as [f|] eqn:Ef; [| by intros [= <- _ _]].
  destruct (f conn s) as [[a s1]| | |]; [| done..]. intros [= <- _ _].
  unfold subdir_oper, subdir_init, fuse_fs_init. cbn [op fs_m]. by rewrite Ef.
Qed.

(** C33. Every operation of the subdir module on paths, those on directories,
    locks and closing included, is one call of the next file system on the paths
    under the base, whose answer it hands on, changed only for links; without
    memory nothing is called and the answer is ENOMEM; either way its blocks of
    memory are freed. init starts the next file system, and destroy ends it,
    puts its module back, which must be loaded, and frees the three blocks of
    the two. Paths are short enough for the unsigned length of a path under the
    base. *)
Theorem subdir_oper_refines (m : option fuse_module) :
  (forall A (c : fs_call D A) st, Forall short (paths c) -> call (over m fs) c st = subdir_call c st) /\
  (forall conn st,
     fuse_fs_init (over m fs) conn st
       = match fuse_fs_init fs conn (next st) with
         | Ret ((fs', conn'), s) => Ret ((over m fs', conn'), Stacked s (allocs st) (live st))
         | Exit z => Exit z
         | UB => UB
         | Hang => Hang
         end) /\
  (forall st, (forall m', fs_m fs = Some m' -> loaded m') ->
     exists destroy, t_destroy (op (over m fs)) = Some destroy /\
       destroy (user_data (over m fs)) st
         = match (match t_destroy (op fs) with Some below => below (user_data fs) | None => mret [] end) (next st) with
           | Ret (ms, s) => Ret (ms ++ (put_back <$> option_list (fs_m fs)), Stacked s (allocs st) (live st - 3))
           | Exit z => Exit z
           | UB => UB
           | Hang => Hang
           end).
Proof.
  split_and!.
  - intros A c st. apply subdir_call_refines.
  - intros conn st. unfold fuse_fs_init at 1, over at 1. cbn [op t_init subdir_oper].
    unfold subdir_init, on_next, mbind, M_bind.
    destruct (fuse_fs_init fs conn (next st)) as [[[fs' conn'] s]| | |] eqn:E; [| done..].
    apply subdir_oper_started in E. cbn. unfold over. by rewrite E.
  - intros st Hm. eexists. split; [done |]. cbn [over user_data].
    unfold subdir_destroy, fuse_fs_destroy, on_next, mbind, M_bind. cbn [snd].
    destruct (match t_destroy (op fs) with Some f => f (user_data fs) | None => mret [] end (next st)) as [[ms s]| | |];
      [| done..].
    pose proof (fun m' E => fuse_put_module_run m' (set_next s st) (Hm m' E)) as Hput.
    destruct (fs_m fs) as [m'|]; [rewrite (Hput m') by done |];
      cbn; unfold add_live; cbn; by replace (live st - 3) with (live st + -1 + -1 + -1) by lia.
Qed.
End Spec.

(** * A file system without most operations, below /a *)

Definition plain_ops : fuse_operations nat :=
  {| op_getattr := None; op_fgetattr := None; op_access := None;
     op_readlink := Some (fun p size n => Ret (0, B "/a/d/f", S n)); op_mknod := None; op_mkdir := None;
     op_unlink := None; op_rmdir := None; op_symlink := None;
     op_rename := Some (fun p q n => Ret (if bool_decide (p = B "/a/x" /\ q = B "/a/y") then 0 else - 2, n)); op_link := None;
     op_chmod := None; op_chown := None; op_truncate := None; op_ftruncate := None; op_utimens := None; op_utime := None;
     op_create := None; op_open := None; op_release := None; op_read := None;
     op_write := None; op_fsync := None; op_statfs := None; op_setxattr := None; op_getxattr := None; op_listxattr := None;
     op_removexattr := None; op_bmap := None; op_opendir := None; op_releasedir := None; op_fsyncdir := None |}.

(** A file system with a parameter of its own, its [user_data], that fills directories by a
    [getdir], sets that parameter when it starts and counts when it ends. *)
Definition plain_fs : fuse_fs nat (list bytes) Z :=
  FuseFs {| t_oper := plain_ops; t_readdir := None;
            t_getdir := Some (fun p buf filler n =>
              let '(buf, err) := filler buf (p ++ B "/.") 4 7 in Ret (err, buf, n));
            t_flush := None; t_lock := None;
            t_init := Some (fun conn n => Ret ((5, conn), n));
            t_destroy := Some (fun u n => Ret ([], n + Z.to_nat u)%nat) |}
         (Some (Module 1 (Some 1))) 0.

Definition to_list : fill_dir (list bytes) := fun buf name _ _ => (buf ++ [name], 0).

Definition below_a (alloc_ok : nat -> bool) : fuse_fs (stacked nat) (list bytes) (subdir * fuse_fs nat (list bytes) Z) :=
  over alloc_ok (under [B "a"]) None plain_fs.

Lemma subdir_oper_refines_witness :
  call (below_a (fun _ => true)) (CRename (B "/x") (B "/y")) (Stacked 3%nat 0 3) = Ret (0, Stacked 3%nat 2 3) /\
  call (below_a (fun _ => true)) (CReadlink (B "/b/c") 4096) (Stacked 3%nat 0 3) = Ret ((0, B "../d/f"), Stacked 4%nat 1 3) /\
  call (below_a (fun n => Nat.eqb n 0)) (CRename (B "/x") (B "/y")) (Stacked 3%nat 0 3) = Ret (- ENOMEM, Stacked 3%nat 2 3) /\
  call (below_a (fun _ => true)) (CReaddir (B "/b") [] to_list 0 (FileInfo 0 0 false false)) (Stacked 3%nat 0 3)
    = Ret ((0, [B "/a/b/."]), Stacked 3%nat 1 3) /\
  exists destroy, t_destroy (op (below_a (fun _ => true))) = Some destroy /\
    destroy (user_data (below_a (fun _ => true))) (Stacked 3%nat 0 3) = Ret ([(Module 0 (Some 0), true)], Stacked 3%nat 0 0).
Proof.
  destruct (subdir_oper_refines (fun _ => true) (under [B "a"]) plain_fs None) as (Hc & _ & Hd).
  destruct (subdir_oper_refines (fun n => Nat.eqb n 0) (under [B "a"]) plain_fs None) as (Hc1 & _ & _).
  split_and!.
  - etrans; [apply Hc; by repeat constructor | vm_compute; reflexivity].
  - etrans; [apply Hc; by repeat constructor | vm_compute; reflexivity].
  - etrans; [apply Hc1; by repeat constructor | vm_compute; reflexivity].
  - etrans; [apply Hc; by repeat constructor | vm_compute; reflexivity].
  - destruct (Hd (Stacked 3%nat 0 3)) as (destroy & E & Hr).
    { intros m' [= <-]. split; [done |]. by intros k [= <-]. }
    exists destroy. split; [done |]. etrans; [exact Hr | vm_compute; reflexivity].
Defined.
