(* ===== verification/FuseInode.v ===== *)
(** The caches of the kernel module (other_fs/fuse-2.7.3/kernel: inode.c, dir.c): the inodes
    that stand for nodes of the library, with their counts of lookups and their attributes,
    the names, and the operations on them, each from its checks to its requests and to what
    it makes of the replies. *)

From S2P Require Import Prelude.
From S2P Require Import CString.
From S2P Require Import FuseWire.
From S2P Require Import FuseWireProps.

Definition EINTR : Z := 4.
Definition EIO : Z := 5.
Definition ENOENT : Z := 2.
Definition ENOMEM : Z := 12.
Definition EACCES : Z := 13.
Definition EBUSY : Z := 16.
Definition ETXTBSY : Z := 26.
Definition EFBIG : Z := 27.
Definition ENAMETOOLONG : Z := 36.
Definition ENOSYS : Z := 38.
Definition EOPNOTSUPP : Z := 95.
Definition FUSE_NAME_MAX : Z := 1024.
Definition FUSE_ROOT_ID : Z := 1.

(** Types of files (linux/stat.h). *)
Definition S_IFMT : Z := 61440.
Definition S_IFREG : Z := 32768.
Definition S_IFDIR : Z := 16384.
Definition S_IFLNK : Z := 40960.
Definition S_IFCHR : Z := 8192.
Definition S_IFBLK : Z := 24576.
Definition S_IFIFO : Z := 4096.
Definition S_IFSOCK : Z := 49152.
Definition has_type (t mode : Z) : bool := Z.land mode S_IFMT =? t.
Definition S_ISREG : Z -> bool := has_type S_IFREG.
Definition S_ISDIR : Z -> bool := has_type S_IFDIR.
Definition S_ISLNK : Z -> bool := has_type S_IFLNK.

(** [(a ^ b) & S_IFMT]: the types differ. *)
Definition differ (a b : Z) : bool := negb (Z.land (Z.lxor a b) S_IFMT =? 0).

(** * Inodes and names *)

(** [struct fuse_inode], with the [struct inode] that it begins with: the node of the
    library and how often it was looked up, the attributes, the time until which they are
    valid; whether the inode is in the table of inodes, whether it is bad, and whether the
    request of its FORGET is there. *)
Record inode := Inode {
  i_nodeid : Z; i_nlookup : Z; i_generation : Z; i_attr : fuse_attr; i_time : Z;
  i_hashed : bool; i_bad : bool; i_forget_req : bool }.

Definition i_mode (i : inode) : Z := a_mode (i_attr i).

Definition set_nodeid v (i : inode) := Inode v (i_nlookup i) (i_generation i) (i_attr i) (i_time i) (i_hashed i) (i_bad i) (i_forget_req i).
Definition set_nlookup v (i : inode) := Inode (i_nodeid i) v (i_generation i) (i_attr i) (i_time i) (i_hashed i) (i_bad i) (i_forget_req i).
Definition set_generation v (i : inode) := Inode (i_nodeid i) (i_nlookup i) v (i_attr i) (i_time i) (i_hashed i) (i_bad i) (i_forget_req i).
Definition set_attr v (i : inode) := Inode (i_nodeid i) (i_nlookup i) (i_generation i) v (i_time i) (i_hashed i) (i_bad i) (i_forget_req i).
Definition set_time v (i : inode) := Inode (i_nodeid i) (i_nlookup i) (i_generation i) (i_attr i) v (i_hashed i) (i_bad i) (i_forget_req i).

Definition set_mode v (a : fuse_attr) : fuse_attr :=
  Attr (a_ino a) (a_size a) (a_blocks a) (a_atime a) (a_mtime a) (a_ctime a) (a_atimensec a) (a_mtimensec a)
    (a_ctimensec a) v (a_nlink a) (a_uid a) (a_gid a) (a_rdev a).
Definition set_nlink v (a : fuse_attr) : fuse_attr :=
  Attr (a_ino a) (a_size a) (a_blocks a) (a_atime a) (a_mtime a) (a_ctime a) (a_atimensec a) (a_mtimensec a)
    (a_ctimensec a) (a_mode a) v (a_uid a) (a_gid a) (a_rdev a).
Definition set_size v (a : fuse_attr) : fuse_attr :=
  Attr (a_ino a) v (a_blocks a) (a_atime a) (a_mtime a) (a_ctime a) (a_atimensec a) (a_mtimensec a)
    (a_ctimensec a) (a_mode a) (a_nlink a) (a_uid a) (a_gid a) (a_rdev a).

Definition zero_attr : fuse_attr := Attr 0 0 0 0 0 0 0 0 0 0 0 0 0 0.

(** A name: the inode of its directory, its inode, and the time until which it is valid;
    [d_disconnected] for one that was made without a directory; [d_held] while a process
    has a reference to it. *)
Record dentry := Dentry {
  d_dir : nat; d_name : bytes; d_inode : option nat; d_time : Z; d_disconnected : bool; d_held : bool }.

Definition set_d_inode v (d : dentry) := Dentry (d_dir d) (d_name d) v (d_time d) (d_disconnected d) (d_held d).
Definition set_d_time v (d : dentry) := Dentry (d_dir d) (d_name d) (d_inode d) v (d_disconnected d) (d_held d).

(** [i_mode] is a type of file. *)
Definition fuse_valid_type (m : Z) : bool :=
  S_ISREG m || S_ISDIR m || S_ISLNK m || has_type S_IFCHR m || has_type S_IFBLK m || has_type S_IFIFO m
  || has_type S_IFSOCK m.

Definition invalid_nodeid (nodeid : Z) : bool := (nodeid =? 0) || (nodeid =? FUSE_ROOT_ID).

(** A new inode; there is memory for its FORGET too. *)
Definition fuse_alloc_inode : inode := Inode 0 0 0 zero_attr 0 true false true.

Definition fuse_inode_eq (i : inode) (nodeid : Z) : bool := i_nodeid i =? nodeid.
Definition fuse_inode_set (nodeid : Z) (i : inode) : inode := set_nodeid nodeid i.

(** The type of the inode stays. The pages are left out. *)
Definition fuse_change_attributes (attr : fuse_attr) (i : inode) : inode :=
  set_attr (Attr (a_ino attr) (a_size attr) (a_blocks attr) (a_atime attr) (a_mtime attr) (a_ctime attr)
    (a_atimensec attr) (a_mtimensec attr) (a_ctimensec attr)
    (Z.land (i_mode i) S_IFMT + Z.land (a_mode attr) 4095) (a_nlink attr) (a_uid attr) (a_gid attr)
    (a_rdev (i_attr i))) i.

(** [None] for [BUG()]; a device keeps its number. *)
Definition fuse_init_inode (attr : fuse_attr) (i : inode) : option inode :=
  let mode := Z.land (a_mode attr) S_IFMT in
  let device := has_type S_IFCHR mode || has_type S_IFBLK mode in
  if fuse_valid_type mode then
    Some (set_attr (Attr 0 (a_size attr) 0 0 0 0 0 0 0 mode 0 0 0 (if device then a_rdev attr else 0)) i)
  else None.

(** What the VFS does to an inode that is bad (fs/bad_inode.c). *)
Definition make_bad_inode (i : inode) : inode :=
  Inode (i_nodeid i) (i_nlookup i) (i_generation i) (set_mode S_IFREG (i_attr i)) (i_time i) false true (i_forget_req i).

(** * The state *)

(** What the file system was found not to implement: the bits [no_access], [no_setxattr] and
    so on of [struct fuse_conn]. *)
Inductive optional :=
  OpAccess | OpSetxattr | OpGetxattr | OpListxattr | OpRemovexattr | OpFlush | OpFsync | OpFsyncdir | OpCreate.

#[export] Instance optional_eq_dec : EqDecision optional.
Proof. solve_decision. Defined.

(** The server [S] is what answers the requests; [forgets] are the FORGETs that are not
    read yet, [held] the requests that are allocated, [calls] how often memory or the
    connection was asked for. *)
Record kern (S : Type) := Kern {
  inodes : gmap nat inode; dentries : gmap nat dentry; forgets : list (Z * Z); jiffies : Z; active : bool;
  missing : list optional; held : Z; calls : nat; server : S }.
Arguments Kern {S}. Arguments inodes {S}. Arguments dentries {S}. Arguments forgets {S}. Arguments jiffies {S}.
Arguments active {S}. Arguments missing {S}. Arguments held {S}. Arguments calls {S}. Arguments server {S}.

(** What a caller finds after [request_send]: the error, and what its arguments hold: an
    entry, attributes, the bytes of an argument of variable size, a size, an open file. *)
Record kreply := KReply {
  kr_error : Z; kr_entry : fuse_entry_out; kr_attr : fuse_attr_out; kr_data : bytes; kr_size : Z;
  kr_open : fuse_open_out }.

(** What the VFS decides: the inode that [iget5_locked] finds or allocates, whether [iput]
    drops an inode, the name that [d_splice_alias] gives to it, [d_find_alias], and the
    names after [d_invalidate] and [dput]; [timespec_to_jiffies]. *)
Record vfs := Vfs {
  v_iget5 : nat -> gmap nat inode -> Z -> option (nat * bool);
  v_iput : nat -> gmap nat inode -> nat -> bool;
  v_splice : gmap nat dentry -> option nat -> nat -> nat;
  v_alias : gmap nat dentry -> nat -> option nat;
  v_invalidate : gmap nat dentry -> nat -> gmap nat dentry;
  v_dput : gmap nat dentry -> nat -> gmap nat dentry;
  v_ticks : Z * Z -> Z }.

Section Kernel.
Context {S : Type} (serve : kernel_call -> M S kreply) (v : vfs) (get_req : nat -> Z).

Definition set_inodes m (k : kern S) : kern S := Kern m (dentries k) (forgets k) (jiffies k) (active k) (missing k) (held k) (calls k) (server k).
Definition set_dentries m (k : kern S) := Kern (inodes k) m (forgets k) (jiffies k) (active k) (missing k) (held k) (calls k) (server k).
Definition set_forgets l (k : kern S) := Kern (inodes k) (dentries k) l (jiffies k) (active k) (missing k) (held k) (calls k) (server k).
Definition add_missing o (k : kern S) := Kern (inodes k) (dentries k) (forgets k) (jiffies k) (active k) (o :: missing k) (held k) (calls k) (server k).
Definition add_held n (k : kern S) := Kern (inodes k) (dentries k) (forgets k) (jiffies k) (active k) (missing k) (held k + n) (calls k) (server k).
Definition count_call (k : kern S) := Kern (inodes k) (dentries k) (forgets k) (jiffies k) (active k) (missing k) (held k) (Datatypes.S (calls k)) (server k).
Definition set_server (s : S) (k : kern S) := Kern (inodes k) (dentries k) (forgets k) (jiffies k) (active k) (missing k) (held k) (calls k) s.

Definition inode_at (a : nat) : M (kern S) inode :=
  k ← get; match inodes k !! a with Some i => mret i | None => ub end.
Definition dentry_at (e : nat) : M (kern S) dentry :=
  k ← get; match dentries k !! e with Some d => mret d | None => ub end.
Definition change_inode (a : nat) (f : inode -> inode) : M (kern S) unit :=
  i ← inode_at a; modify (fun k => set_inodes (<[a := f i]> (inodes k)) k).
Definition change_dentry (e : nat) (f : dentry -> dentry) : M (kern S) unit :=
  d ← dentry_at e; modify (fun k => set_dentries (<[e := f d]> (dentries k)) k).

(** ** Requests *)

(** [0] or an error. *)
Definition fuse_get_req : M (kern S) Z :=
  k ← get;
  let err := get_req (calls k) in
  _ ← modify count_call;
  _ ← (if err =? 0 then modify (add_held 1) else mret tt);
  mret err.

Definition fuse_put_request : M (kern S) unit := modify (add_held (-1)).

Definition ask (c : kernel_call) : M (kern S) kreply := fun k =>
  match serve c (server k) with
  | Ret (r, s) => Ret (r, set_server s k)
  | Exit z => Exit z
  | UB => UB
  | Hang => Hang
  end.

Fixpoint send_forgets (l : list (Z * Z)) : M (kern S) unit :=
  match l with
  | [] => mret tt
  | (id, n) :: l => _ ← ask (KForget id n); send_forgets l
  end.

(** The server reads the requests in order: first the FORGETs that are waiting. *)
Definition request_send (c : kernel_call) : M (kern S) kreply :=
  k ← get;
  _ ← modify (set_forgets []);
  _ ← send_forgets (forgets k);
  ask c.

(** The request is freed when the message is read. *)
Definition fuse_send_forget (nodeid nlookup : Z) : M (kern S) unit :=
  _ ← modify (fun k => set_forgets (forgets k ++ [(nodeid, nlookup)]) k);
  fuse_put_request.

(** ** Inodes *)

(** Not while the file system is being unmounted. *)
Definition fuse_clear_inode (a : nat) : M (kern S) unit :=
  k ← get;
  if active k then
    i ← inode_at a;
    _ ← fuse_send_forget (i_nodeid i) (i_nlookup i);
    change_inode a (fun i => Inode (i_nodeid i) (i_nlookup i) (i_generation i) (i_attr i) (i_time i) (i_hashed i) (i_bad i) false)
  else mret tt.

Definition fuse_destroy_inode (a : nat) : M (kern S) unit :=
  i ← inode_at a;
  _ ← (if i_forget_req i then fuse_put_request else mret tt);
  modify (fun k => set_inodes (delete a (inodes k)) k).

(** The VFS drops an inode. *)
Definition evict (a : nat) : M (kern S) unit := _ ← fuse_clear_inode a; fuse_destroy_inode a.

(** No name refers to the inode: [list_empty(&inode->i_dentry)]. *)
Definition no_dentry (m : gmap nat dentry) (a : nat) : bool :=
  bool_decide (map_Forall (fun _ d => d_inode d <> Some a) m).

(** Nor is it the directory of a name. *)
Definition unused (m : gmap nat dentry) (a : nat) : bool :=
  no_dentry m a && bool_decide (map_Forall (fun _ d => d_dir d <> a) m).

Definition iput (a : nat) : M (kern S) unit :=
  k ← get;
  _ ← modify count_call;
  if v_iput v (calls k) (inodes k) a && unused (dentries k) a then evict a else mret tt.

(** Found, or new with [fuse_alloc_inode] and [fuse_inode_set]. *)
Definition iget5_locked (nodeid : Z) : M (kern S) (option (nat * bool)) :=
  k ← get;
  _ ← modify count_call;
  match v_iget5 v (calls k) (inodes k) nodeid with
  | Some (a, true) =>
      _ ← modify (fun k => set_inodes (<[a := fuse_inode_set nodeid fuse_alloc_inode]> (inodes k)) k);
      _ ← modify (add_held 1);
      mret (Some (a, true))
  | r => mret r
  end.

Fixpoint iget_loop (fuel : nat) (nodeid generation : Z) (attr : fuse_attr) : M (kern S) (option nat) :=
  match fuel with
  | O => hang
  | Datatypes.S fuel =>
      found ← iget5_locked nodeid;
      match found with
      | None => mret None
      | Some (a, new) =>
          i ← inode_at a;
          let ready :=
            _ ← change_inode a (fun i => set_nlookup (to_u64 (i_nlookup i + 1)) i);
            _ ← change_inode a (fuse_change_attributes attr);
            mret (Some a) in
          if new : bool then
            match fuse_init_inode attr (set_generation generation i) with
            | Some i => _ ← change_inode a (fun _ => i); ready
            | None => ub
            end
          else if differ (i_mode i) (a_mode attr) then
            _ ← change_inode a make_bad_inode;
            _ ← iput a;
            iget_loop fuel nodeid generation attr
          else ready
      end
  end.

(** Each round but the last takes an inode out of the table. *)
Definition fuse_iget (nodeid generation : Z) (attr : fuse_attr) : M (kern S) (option nat) :=
  k ← get; iget_loop (Datatypes.S (size (inodes k))) nodeid generation attr.

(** ** Times *)

Definition time_to_jiffies (t : Z * Z) : M (kern S) Z :=
  k ← get;
  if negb (t.1 =? 0) || negb (t.2 =? 0) then mret (to_u64 (jiffies k + v_ticks v t)) else mret 0.

Definition fuse_change_timeout (entry : nat) (o : fuse_entry_out) : M (kern S) unit :=
  t ← time_to_jiffies (eo_entry_valid o);
  _ ← change_dentry entry (set_d_time t);
  d ← dentry_at entry;
  match d_inode d with
  | Some a => t ← time_to_jiffies (eo_attr_valid o); change_inode a (set_time t)
  | None => mret tt
  end.

Definition fuse_invalidate_attr (a : nat) : M (kern S) unit := change_inode a (set_time 0).
Definition fuse_invalidate_entry_cache (entry : nat) : M (kern S) unit := change_dentry entry (set_d_time 0).

Definition fuse_invalidate_entry (entry : nat) : M (kern S) unit :=
  _ ← modify (fun k => set_dentries (v_invalidate v (dentries k) entry) k);
  fuse_invalidate_entry_cache entry.

(** ** Looking a name up *)

(** Whether the name is still valid. *)
Definition fuse_dentry_revalidate (entry : nat) : M (kern S) bool :=
  d ← dentry_at entry;
  k ← get;
  let fresh :=
    match d_inode d with
    | None => mret false
    | Some a =>
        err ← fuse_get_req;
        if negb (err =? 0) then mret false
        else
          err ← fuse_get_req;
          if negb (err =? 0) then _ ← fuse_put_request; mret false
          else
            dir ← inode_at (d_dir d);
            r ← request_send (KLookup (i_nodeid dir) (d_name d));
            _ ← fuse_put_request;
            let outarg := kr_entry r in
            let err := if (kr_error r =? 0) && (eo_nodeid outarg =? 0) then - ENOENT else kr_error r in
            i ← inode_at a;
            if (err =? 0) && negb (eo_nodeid outarg =? i_nodeid i) then
              _ ← fuse_send_forget (eo_nodeid outarg) 1; mret false
            else
              _ ← (if err =? 0 then change_inode a (fun i => set_nlookup (to_u64 (i_nlookup i + 1)) i) else mret tt);
              _ ← fuse_put_request;
              if negb (err =? 0) || differ (a_mode (eo_attr outarg)) (i_mode i) then mret false
              else
                _ ← change_inode a (fuse_change_attributes (eo_attr outarg));
                _ ← fuse_change_timeout entry outarg;
                mret true
    end in
  match d_inode d with
  | Some a => i ← inode_at a; if i_bad i then mret false else if d_time d <? jiffies k then fresh else mret true
  | None => if d_time d <? jiffies k then fresh else mret true
  end.

Definition dput (entry : nat) : M (kern S) unit :=
  modify (fun k => set_dentries (v_dput v (dentries k) entry) k).

Definition d_instantiate (entry : nat) (inode : option nat) : M (kern S) unit :=
  change_dentry entry (set_d_inode inode).

(** The name that has the inode now, if it is not [entry]. *)
Definition d_splice_alias (inode : option nat) (entry : nat) : M (kern S) (option nat) :=
  k ← get;
  d ← dentry_at entry;
  let target := v_splice v (dentries k) inode entry in
  if decide (target = entry) then _ ← d_instantiate entry inode; mret None
  else
    t ← dentry_at target;
    _ ← change_dentry target (fun _ => Dentry (d_dir d) (d_name d) inode (d_time t) false true);
    mret (Some target).

(** An error, or the result of [d_splice_alias]. *)
Definition fuse_d_add_directory (entry inode : nat) : M (kern S) (Z + option nat) :=
  k ← get;
  let splice := r ← d_splice_alias (Some inode) entry; mret (inr r) in
  match v_alias v (dentries k) inode with
  | Some alias =>
      a ← dentry_at alias;
      if negb (d_disconnected a) then
        _ ← fuse_invalidate_entry alias;
        _ ← dput alias;
        k ← get;
        if negb (no_dentry (dentries k) inode) then mret (inl (- EBUSY)) else splice
      else _ ← dput alias; splice
  | None => splice
  end.

(** The end of [fuse_lookup]. *)
Definition lookup_finish (entry : nat) (err : Z) (outarg : fuse_entry_out) (inode : option nat) : M (kern S) (Z + option nat) :=
  _ ← fuse_put_request;
  if negb (err =? 0) && negb (err =? - ENOENT) then mret (inl err)
  else
    isdir ← match inode with Some a => i ← inode_at a; mret (S_ISDIR (i_mode i)) | None => mret false end;
    newent ← match inode with
             | Some a =>
                 if isdir : bool then fuse_d_add_directory entry a
                 else n ← d_splice_alias (Some a) entry; mret (inr n)
             | None => n ← d_splice_alias None entry; mret (inr n)
             end;
    match newent, inode with
    | inl e, Some a => _ ← iput a; mret (inl e)
    | inl e, None => mret (inl e)
    | inr newent, _ =>
        let entry := default entry newent in
        _ ← (if err =? 0 then fuse_change_timeout entry outarg else fuse_invalidate_entry_cache entry);
        mret (inr newent)
    end.

Definition fuse_lookup (dir entry : nat) : M (kern S) (Z + option nat) :=
  d ← dentry_at entry;
  if FUSE_NAME_MAX <? strlen (d_name d) then mret (inl (- ENAMETOOLONG))
  else
    err ← fuse_get_req;
    if negb (err =? 0) then mret (inl err)
    else
      err ← fuse_get_req;
      if negb (err =? 0) then _ ← fuse_put_request; mret (inl err)
      else
        i ← inode_at dir;
        r ← request_send (KLookup (i_nodeid i) (d_name d));
        _ ← fuse_put_request;
        let outarg := kr_entry r in
        let found := negb (eo_nodeid outarg =? 0) in
        let err :=
          if (kr_error r =? 0) && found
             && (invalid_nodeid (eo_nodeid outarg) || negb (fuse_valid_type (a_mode (eo_attr outarg))))
          then - EIO else kr_error r in
        if (err =? 0) && found then
          inode ← fuse_iget (eo_nodeid outarg) (eo_generation outarg) (eo_attr outarg);
          match inode with
          | None => _ ← fuse_send_forget (eo_nodeid outarg) 1; mret (inl (- ENOMEM))
          | Some a => lookup_finish entry err outarg (Some a)
          end
        else lookup_finish entry err outarg None.

(** ** Making a name *)

(** The request [c] is there already; [mode] has the type that is wanted. *)
Definition create_new_entry (c : Z -> bytes -> kernel_call) (dir entry : nat) (mode : Z) : M (kern S) Z :=
  err ← fuse_get_req;
  if negb (err =? 0) then _ ← fuse_put_request; mret err
  else
    d ← dentry_at entry;
    i ← inode_at dir;
    r ← request_send (c (i_nodeid i) (d_name d));
    _ ← fuse_put_request;
    let outarg := kr_entry r in
    let fail (err : Z) : M (kern S) Z := _ ← fuse_put_request; mret err in
    if negb (kr_error r =? 0) then fail (kr_error r)
    else if invalid_nodeid (eo_nodeid outarg) then fail (- EIO)
    else if differ (a_mode (eo_attr outarg)) mode then fail (- EIO)
    else
      inode ← fuse_iget (eo_nodeid outarg) (eo_generation outarg) (eo_attr outarg);
      match inode with
      | None => _ ← fuse_send_forget (eo_nodeid outarg) 1; mret (- ENOMEM)
      | Some a =>
          _ ← fuse_put_request;
          i ← inode_at a;
          k ← get;
          match (if S_ISDIR (i_mode i) then v_alias v (dentries k) a else None) with
          | Some alias => _ ← dput alias; _ ← iput a; mret (- EBUSY)
          | None =>
              _ ← d_instantiate entry (Some a);
              _ ← fuse_change_timeout entry outarg;
              _ ← fuse_invalidate_attr dir;
              mret 0
          end
      end.

(** The request of a creation, when there is memory for it. *)
Definition with_req (k : M (kern S) Z) : M (kern S) Z :=
  err ← fuse_get_req; if negb (err =? 0) then mret err else k.

Definition fuse_mknod (dir entry : nat) (mode rdev : Z) : M (kern S) Z :=
  with_req (create_new_entry (fun id name => KMknod id name mode rdev) dir entry mode).
Definition fuse_mkdir (dir entry : nat) (mode : Z) : M (kern S) Z :=
  with_req (create_new_entry (fun id name => KMkdir id name mode) dir entry S_IFDIR).
Definition fuse_symlink (dir entry : nat) (link : bytes) : M (kern S) Z :=
  with_req (create_new_entry (fun id name => KSymlink id name link) dir entry S_IFLNK).

(** [a] is the inode of the existing name. *)
Definition fuse_link (a newdir newent : nat) : M (kern S) Z :=
  with_req (
    i ← inode_at a;
    err ← create_new_entry (fun id name => KLink (i_nodeid i) id name) newdir newent (i_mode i);
    _ ← (if (err =? 0) || (err =? - EINTR) then fuse_invalidate_attr a else mret tt);
    mret err).

(** ** Removing and moving names *)

(** The inode of a name that is not negative. *)
Definition inode_of (entry : nat) : M (kern S) nat :=
  d ← dentry_at entry; match d_inode d with Some a => mret a | None => ub end.

Definition clear_nlink (a : nat) : M (kern S) unit := change_inode a (fun i => set_attr (set_nlink 0 (i_attr i)) i).

Definition fuse_unlink (dir entry : nat) : M (kern S) Z :=
  with_req (
    d ← dentry_at entry;
    i ← inode_at dir;
    r ← request_send (KUnlink (i_nodeid i) (d_name d));
    _ ← fuse_put_request;
    let err := kr_error r in
    _ ← (if err =? 0 then
           a ← inode_of entry;
           _ ← clear_nlink a;
           _ ← fuse_invalidate_attr a;
           _ ← fuse_invalidate_attr dir;
           fuse_invalidate_entry_cache entry
         else if err =? - EINTR then fuse_invalidate_entry entry else mret tt);
    mret err).

Definition fuse_rmdir (dir entry : nat) : M (kern S) Z :=
  with_req (
    d ← dentry_at entry;
    i ← inode_at dir;
    r ← request_send (KRmdir (i_nodeid i) (d_name d));
    _ ← fuse_put_request;
    let err := kr_error r in
    _ ← (if err =? 0 then
           a ← inode_of entry;
           _ ← clear_nlink a;
           _ ← fuse_invalidate_attr dir;
           fuse_invalidate_entry_cache entry
         else if err =? - EINTR then fuse_invalidate_entry entry else mret tt);
    mret err).

Definition fuse_rename (olddir oldent newdir newent : nat) : M (kern S) Z :=
  with_req (
    od ← dentry_at oldent;
    nd ← dentry_at newent;
    oi ← inode_at olddir;
    ni ← inode_at newdir;
    r ← request_send (KRename (i_nodeid oi) (d_name od) (i_nodeid ni) (d_name nd));
    _ ← fuse_put_request;
    let err := kr_error r in
    _ ← (if err =? 0 then
           a ← inode_of oldent;
           _ ← fuse_invalidate_attr a;
           _ ← fuse_invalidate_attr olddir;
           _ ← (if negb (Nat.eqb olddir newdir) then fuse_invalidate_attr newdir else mret tt);
           if d_inode nd is Some _ then fuse_invalidate_entry_cache newent else mret tt
         else if err =? - EINTR then
           _ ← fuse_invalidate_entry oldent;
           if d_inode nd is Some _ then fuse_invalidate_entry newent else mret tt
         else mret tt);
    mret err).

(** ** Attributes *)

Definition fuse_do_getattr (a : nat) : M (kern S) Z :=
  with_req (
    i ← inode_at a;
    r ← request_send (KGetattr (i_nodeid i));
    _ ← fuse_put_request;
    let arg := kr_attr r in
    if negb (kr_error r =? 0) then mret (kr_error r)
    else
      i ← inode_at a;
      if differ (i_mode i) (a_mode (ao_attr arg)) then
        _ ← change_inode a make_bad_inode; mret (- EIO)
      else
        _ ← change_inode a (fuse_change_attributes (ao_attr arg));
        t ← time_to_jiffies (ao_valid arg);
        _ ← change_inode a (set_time t);
        mret 0).

(** [struct task_struct] and the user of the connection. *)
Record task := Task { t_uid : Z; t_euid : Z; t_suid : Z; t_gid : Z; t_egid : Z; t_sgid : Z }.
Record owner := Owner { user_id : Z; group_id : Z; allow_other : bool; default_permissions : bool }.

Definition fuse_allow_task (fc : owner) (t : task) : bool :=
  allow_other fc
  || ((t_euid t =? user_id fc) && (t_suid t =? user_id fc) && (t_uid t =? user_id fc)
      && (t_egid t =? group_id fc) && (t_sgid t =? group_id fc) && (t_gid t =? group_id fc)).

(** [a] is the inode of the name. *)
Definition fuse_revalidate (fc : owner) (t : task) (a : nat) : M (kern S) Z :=
  if negb (fuse_allow_task fc t) then mret (- EACCES)
  else
    i ← inode_at a;
    k ← get;
    if negb (i_nodeid i =? FUSE_ROOT_ID) && (jiffies k <=? i_time i) then mret 0
    else fuse_do_getattr a.

(** The attributes that [generic_fillattr] copies. *)
Definition fuse_getattr (fc : owner) (t : task) (a : nat) : M (kern S) (Z * option fuse_attr) :=
  err ← fuse_revalidate fc t a;
  if err =? 0 then i ← inode_at a; mret (err, Some (i_attr i)) else mret (err, None).

Definition lacks (k : kern S) (o : optional) : bool := bool_decide (o ∈ missing k).

(** The answer [ENOSYS] is remembered, and [otherwise] is the result. *)
Definition remember (o : optional) (otherwise err : Z) : M (kern S) Z :=
  if err =? - ENOSYS then _ ← modify (add_missing o); mret otherwise else mret err.

Definition fuse_access (a : nat) (mask : Z) : M (kern S) Z :=
  k ← get;
  if lacks k OpAccess then mret 0
  else
    with_req (
      i ← inode_at a;
      r ← request_send (KAccess (i_nodeid i) mask);
      _ ← fuse_put_request;
      remember OpAccess 0 (kr_error r)).

Definition MAY_EXEC : Z := 1.
Definition S_IXUGO : Z := 73.

(** [generic_permission] is the check of the mode by the VFS; [asks] is for the flags
    LOOKUP_ACCESS and LOOKUP_CHDIR. *)
Definition fuse_permission (generic_permission : inode -> Z -> Z) (fc : owner) (t : task) (a : nat) (mask : Z)
  (asks : bool) : M (kern S) Z :=
  if negb (fuse_allow_task fc t) then mret (- EACCES)
  else
    i ← inode_at a;
    if default_permissions fc then
      let err := generic_permission i mask in
      if err =? - EACCES then
        err ← fuse_do_getattr a;
        if err =? 0 then i ← inode_at a; mret (generic_permission i mask) else mret err
      else mret err
    else if negb (Z.land mask MAY_EXEC =? 0) && negb (S_ISDIR (i_mode i)) && (Z.land (i_mode i) S_IXUGO =? 0)
      then mret (- EACCES)
    else if asks then fuse_access a mask
    else mret 0.

(** Without the pages. *)
Definition fuse_vmtruncate (offset : Z) (i : inode) : inode := set_attr (set_size offset (i_attr i)) i.

(** [change_ok] is [inode_change_ok], [limit] the limit on the size of files. *)
Definition fuse_setattr (change_ok : inode -> iattr -> Z) (swapfile : bool) (limit : option Z) (fc : owner) (t : task)
  (a : nat) (attr : iattr) : M (kern S) Z :=
  if negb (fuse_allow_task fc t) then mret (- EACCES)
  else
    i ← inode_at a;
    let err := if default_permissions fc then change_ok i attr else 0 in
    let is_truncate := negb (Z.land (ia_valid attr) ATTR_SIZE =? 0) in
    if negb (err =? 0) then mret err
    else if is_truncate && swapfile then mret (- ETXTBSY)
    else if is_truncate && (if limit is Some l then l <? ia_size attr else false) then mret (- EFBIG)
    else
      with_req (
        r ← request_send (KSetattr (i_nodeid i) (S_ISDIR (i_mode i)) attr);
        _ ← fuse_put_request;
        let outarg := kr_attr r in
        let err := kr_error r in
        if err =? 0 then
          i ← inode_at a;
          if differ (i_mode i) (a_mode (ao_attr outarg)) then
            _ ← change_inode a make_bad_inode; mret (- EIO)
          else
            _ ← (if is_truncate then change_inode a (fuse_vmtruncate (a_size (ao_attr outarg))) else mret tt);
            _ ← change_inode a (fuse_change_attributes (ao_attr outarg));
            t ← time_to_jiffies (ao_valid outarg);
            _ ← change_inode a (set_time t);
            mret 0
        else
          _ ← (if err =? - EINTR then fuse_invalidate_attr a else mret tt);
          mret err).

(** ** Links and extended attributes *)

(** An error, or the destination; [get_page] says when there is a page for it. *)
Definition read_link (get_page : nat -> bool) (a : nat) : M (kern S) (Z + bytes) :=
  err ← fuse_get_req;
  if negb (err =? 0) then mret (inl err)
  else
    k ← get;
    _ ← modify count_call;
    let page := get_page (calls k) in
    link ← (if negb page then mret (inl (- ENOMEM))
            else
              i ← inode_at a;
              r ← request_send (KReadlink (i_nodeid i));
              mret (if kr_error r =? 0 then inr (kr_data r) else inl (kr_error r)));
    _ ← fuse_put_request;
    _ ← fuse_invalidate_attr a;
    mret link.

Definition fuse_setxattr (a : nat) (name value : bytes) (flags : Z) : M (kern S) Z :=
  k ← get;
  if lacks k OpSetxattr then mret (- EOPNOTSUPP)
  else
    with_req (
      i ← inode_at a;
      r ← request_send (KSetxattr (i_nodeid i) name value flags);
      _ ← fuse_put_request;
      remember OpSetxattr (- EOPNOTSUPP) (kr_error r)).

(** The result, and what the buffer of the caller gets. *)
Definition xattr_result (o : optional) (size : Z) (r : kreply) : M (kern S) (Z * bytes) :=
  if kr_error r =? 0 then
    mret (if negb (size =? 0) then (strlen (kr_data r), kr_data r) else (kr_size r, []))
  else err ← remember o (- EOPNOTSUPP) (kr_error r); mret (err, []).

Definition fuse_getxattr (a : nat) (name : bytes) (size : Z) : M (kern S) (Z * bytes) :=
  k ← get;
  if lacks k OpGetxattr then mret (- EOPNOTSUPP, [])
  else
    err ← fuse_get_req;
    if negb (err =? 0) then mret (err, [])
    else
      i ← inode_at a;
      r ← request_send (KGetxattr (i_nodeid i) name size);
      ret ← xattr_result OpGetxattr size r;
      _ ← fuse_put_request;
      mret ret.

Definition fuse_listxattr (fc : owner) (t : task) (a : nat) (size : Z) : M (kern S) (Z * bytes) :=
  k ← get;
  if negb (fuse_allow_task fc t) then mret (- EACCES, [])
  else if lacks k OpListxattr then mret (- EOPNOTSUPP, [])
  else
    err ← fuse_get_req;
    if negb (err =? 0) then mret (err, [])
    else
      i ← inode_at a;
      r ← request_send (KListxattr (i_nodeid i) size);
      ret ← xattr_result OpListxattr size r;
      _ ← fuse_put_request;
      mret ret.

Definition fuse_removexattr (a : nat) (name : bytes) : M (kern S) Z :=
  k ← get;
  if lacks k OpRemovexattr then mret (- EOPNOTSUPP)
  else
    with_req (
      i ← inode_at a;
      r ← request_send (KRemovexattr (i_nodeid i) name);
      _ ← fuse_put_request;
      remember OpRemovexattr (- EOPNOTSUPP) (kr_error r)).

(** ** What the VFS asks for *)

(** The root of the file system, of the type that the mount option says. *)
Definition get_root_inode (mode : Z) : M (kern S) (option nat) :=
  fuse_iget 1 0 (set_nlink 1 (set_mode mode (Attr FUSE_ROOT_ID 0 0 0 0 0 0 0 0 0 0 0 0 0))).

(** The operations of the tables of operations, on names and inodes; and what the VFS does
    on its own: the names change, an inode goes, time passes, the file system is being
    unmounted. *)
Inductive vfs_op :=
| Lookup (entry : nat)
| Revalidate (entry : nat)
| Mknod (entry : nat) (mode rdev : Z)
| Mkdir (entry : nat) (mode : Z)
| Symlink (entry : nat) (link : bytes)
| Link (old entry : nat)
| Unlink (entry : nat)
| Rmdir (entry : nat)
| Rename (oldent newent : nat)
| Getattr (a : nat)
| Permission (a : nat) (mask : Z) (asks : bool)
| Setattr (a : nat) (attr : iattr) (swapfile : bool) (limit : option Z)
| Readlink (a : nat)
| Setxattr (a : nat) (name value : bytes) (flags : Z)
| Getxattr (a : nat) (name : bytes) (size : Z)
| Listxattr (a : nat) (size : Z)
| Removexattr (a : nat) (name : bytes)
| Names (m : gmap nat dentry)
| Evict (a : nat)
| Tick (n : Z)
| Unmount.

Context (get_page : nat -> bool) (fc : owner) (generic_permission : inode -> Z -> Z) (change_ok : inode -> iattr -> Z).

Definition ignore {A} (m : M (kern S) A) : M (kern S) unit := _ ← m; mret tt.

Definition dir_of (entry : nat) : M (kern S) nat := d ← dentry_at entry; mret (d_dir d).

(** The task [t] is the one that runs. *)
Definition run_op (t : task) (op : vfs_op) : M (kern S) unit :=
  match op with
  | Lookup e => dir ← dir_of e; ignore (fuse_lookup dir e)
  | Revalidate e => ignore (fuse_dentry_revalidate e)
  | Mknod e mode rdev => dir ← dir_of e; ignore (fuse_mknod dir e mode rdev)
  | Mkdir e mode => dir ← dir_of e; ignore (fuse_mkdir dir e mode)
  | Symlink e link => dir ← dir_of e; ignore (fuse_symlink dir e link)
  | Link old e => a ← inode_of old; dir ← dir_of e; ignore (fuse_link a dir e)
  | Unlink e => dir ← dir_of e; ignore (fuse_unlink dir e)
  | Rmdir e => dir ← dir_of e; ignore (fuse_rmdir dir e)
  | Rename oldent newent =>
      olddir ← dir_of oldent; newdir ← dir_of newent; ignore (fuse_rename olddir oldent newdir newent)
  | Getattr a => ignore (fuse_getattr fc t a)
  | Permission a mask asks => ignore (fuse_permission generic_permission fc t a mask asks)
  | Setattr a attr swapfile limit => ignore (fuse_setattr change_ok swapfile limit fc t a attr)
  | Readlink a => ignore (read_link get_page a)
  | Setxattr a name value flags => ignore (fuse_setxattr a name value flags)
  | Getxattr a name size => ignore (fuse_getxattr a name size)
  | Listxattr a size => ignore (fuse_listxattr fc t a size)
  | Removexattr a name => ignore (fuse_removexattr a name)
  | Names m => modify (set_dentries m)
  | Evict a => evict a
  | Tick n => modify (fun k => Kern (inodes k) (dentries k) (forgets k) n (active k) (missing k) (held k) (calls k) (server k))
  | Unmount => modify (fun k => Kern (inodes k) (dentries k) (forgets k) (jiffies k) false (missing k) (held k) (calls k) (server k))
  end.
End Kernel.
