(* ===== verification/FuseInodeProps.v ===== *)
(** The account of the caches of the kernel: over any server that keeps count of lookups,
    the kernel never asks it to forget more than it has looked up, names only nodes that
    it may name, frees every request, and refers to no inode that is gone. *)

From S2P Require Import Prelude.
From S2P Require Import CString.
From S2P Require Import FuseWire.
From S2P Require Import FuseWireProps.
From S2P Require Import FuseInode.

(** * Sums *)

Definition total (f : inode -> Z) (m : gmap nat inode) : Z := map_fold (fun _ i acc => f i + acc) 0 m.

Lemma total_insert f m a i : m !! a = None -> total f (<[a := i]> m) = f i + total f m.
Proof. intros Ha. unfold total. rewrite map_fold_insert_L; [done | intros; lia | done]. Qed.

Lemma total_delete f m a i : m !! a = Some i -> total f m = f i + total f (delete a m).
Proof. intros Ha. rewrite <- (insert_delete_id m a i Ha) at 1. apply total_insert, lookup_delete_eq. Qed.

Lemma total_change f m a i j : m !! a = Some i -> total f (<[a := j]> m) = total f m - f i + f j.
Proof.
  intros Ha. rewrite (total_delete f m a i Ha), <- insert_delete_eq, total_insert by apply lookup_delete_eq. lia.
Qed.

Lemma sum_nonneg f m : (forall a i, m !! a = Some i -> 0 <= f i) -> 0 <= total f m.
Proof.
  induction m as [|a i m Ha IH] using map_ind; [done |]. intros Hf. rewrite total_insert by done.
  specialize (Hf a i (lookup_insert_eq _ _ _)) as H1. enough (0 <= total f m) by lia.
  apply IH. intros b j Hb. apply (Hf b). rewrite lookup_insert_ne by congruence. done.
Qed.

(** The lookups of a number in a list of them. *)
Definition pend (l : list (Z * Z)) (id : Z) : Z := foldr (fun p acc => (if p.1 =? id then p.2 else 0) + acc) 0 l.

Lemma pend_app l1 l2 id : pend (l1 ++ l2) id = pend l1 id + pend l2 id.
Proof. induction l1 as [|p l1 IH]; [done |]. cbn [app pend foldr]. fold (pend (l1 ++ l2) id) (pend l1 id). lia. Qed.

Lemma pend_cons id n l i : pend ((id, n) :: l) i = (if id =? i then n else 0) + pend l i.
Proof. done. Qed.

Lemma pend_nonneg l id : Forall (fun p => 0 <= p.2) l -> 0 <= pend l id.
Proof. induction 1 as [|p l Hp _ IH]; [done |]. cbn [pend foldr]. fold (pend l id). destruct (_ =? _); lia. Qed.

(** The lookups of a number that the inodes count. *)
Definition counted (id : Z) (i : inode) : Z := if i_nodeid i =? id then i_nlookup i else 0.
Definition claims (m : gmap nat inode) (id : Z) : Z := total (counted id) m.

(** * Servers *)

(** The lookups that a request takes for granted: of the directories and nodes that it
    names, and those that it gives back. *)
Definition needs (c : kernel_call) : list (Z * Z) :=
  match c with
  | KForget id n => [(id, n)]
  | KRename olddir _ newdir _ => [(olddir, 1); (newdir, 1)]
  | KLink ino newdir _ => [(ino, 1); (newdir, 1)]
  | KLookup id _ | KGetattr id | KSetattr id _ _ | KReadlink id | KMknod id _ _ _ | KMkdir id _ _ | KUnlink id _
  | KRmdir id _ | KSymlink id _ _ | KCreate id _ _ _ | KOpen id _ _ | KRead id _ _ _ _ | KWrite id _ _ _
  | KFlush id _ _ | KRelease id _ _ _ | KFsync id _ _ _ | KStatfs id _ | KSetxattr id _ _ _ | KGetxattr id _ _
  | KListxattr id _ | KRemovexattr id _ | KAccess id _ | KGetlk id _ _ _ _ _ | KSetlk id _ _ _ _ _ _ _
  | KBmap id _ _ => [(id, 1)]
  end.

(** The lookups that a request gives or takes. *)
Definition gets (c : kernel_call) (r : kreply) : list (Z * Z) :=
  match c with
  | KForget id n => [(id, - n)]
  | KLookup _ _ | KMknod _ _ _ _ | KMkdir _ _ _ | KSymlink _ _ _ | KLink _ _ _ | KCreate _ _ _ _ =>
      if (kr_error r =? 0) && negb (eo_nodeid (kr_entry r) =? 0) then [(eo_nodeid (kr_entry r), 1)] else []
  | _ => []
  end.

(** What the kernel relies on: a server that answers every request that names what it has
    handed out, and that keeps the lookups of which it was not asked to forget.
    [admits] are the conditions that are not the business of the kernel. *)
Class Server {S} (serve : kernel_call -> M S kreply) (ok : S -> Prop) (owes : S -> Z -> Z -> Prop)
  (admits : S -> kernel_call -> Prop) : Prop := {
  sv_none s id k : k <= 0 -> owes s id k;
  sv_le s id k j : owes s id k -> j <= k -> owes s id j;
  sv_max s id k : ok s -> owes s id k -> k < 2 ^ 64;
  sv_forget s id n : ok s -> 0 < n -> admits s (KForget id n);
  sv_serve s c : ok s -> (forall id n, (id, n) ∈ needs c -> owes s id n) -> admits s c ->
    runs (serve c) s (fun r s' => ok s' /\ forall id k, owes s id k -> owes s' id (k + pend (gets c r) id)) }.

(** * The VFS *)

(** What the VFS does, as its documentation says: an inode is found in its table or new
    there, an alias is a name of the inode, and names with a reference stay. *)
Class VfsOk (v : vfs) : Prop := {
  vo_iget5 n m id a new : v_iget5 v n m id = Some (a, new) ->
    if new : bool then m !! a = None /\ (forall b i, m !! b = Some i -> i_hashed i = true -> i_nodeid i <> id)
    else exists i, m !! a = Some i /\ i_hashed i = true /\ i_nodeid i = id;
  vo_splice m inode e : v_splice v m inode e = e \/
    exists d, m !! v_splice v m inode e = Some d /\ d_inode d = inode /\ d_disconnected d = true;
  vo_alias m a e : v_alias v m a = Some e -> exists d, m !! e = Some d /\ d_inode d = Some a;
  vo_invalidate m e : v_invalidate v m e ⊆ m /\
    forall e' d, m !! e' = Some d -> e' = e \/ d_held d = true -> v_invalidate v m e !! e' = Some d;
  vo_dput m e : v_dput v m e ⊆ m /\
    forall e' d, m !! e' = Some d -> e' <> e \/ d_held d = true -> v_dput v m e !! e' = Some d }.

(** * Types of files *)

Lemma land_parts m n : Z.land (Z.land m S_IFMT + Z.land n 4095) S_IFMT = Z.land m S_IFMT.
Proof.
  assert (Z.land (Z.land m S_IFMT) (Z.land n 4095) = 0) as H.
  { rewrite (Z.land_comm n), Z.land_assoc, <- (Z.land_assoc m). change (Z.land S_IFMT 4095) with 0. by rewrite Z.land_0_r. }
  rewrite <- Z.add_lor_land, H, Z.add_0_r, Z.land_lor_distr_l, <- !Z.land_assoc.
  change (Z.land S_IFMT S_IFMT) with S_IFMT. change (Z.land 4095 S_IFMT) with 0. by rewrite Z.land_0_r, Z.lor_0_r.
Qed.

Lemma valid_type_land m m' : Z.land m' S_IFMT = Z.land m S_IFMT -> fuse_valid_type m' = fuse_valid_type m.
Proof. intros E. unfold fuse_valid_type, S_ISREG, S_ISDIR, S_ISLNK, has_type. by rewrite E. Qed.

Lemma land_land m : Z.land (Z.land m S_IFMT) S_IFMT = Z.land m S_IFMT.
Proof. by rewrite <- Z.land_assoc. Qed.

Lemma change_type attr i : Z.land (i_mode (fuse_change_attributes attr i)) S_IFMT = Z.land (i_mode i) S_IFMT.
Proof. apply land_parts. Qed.

Lemma differ_spec a b : differ a b = false <-> Z.land a S_IFMT = Z.land b S_IFMT.
Proof.
  unfold differ. rewrite negb_false_iff, Z.eqb_eq.
  assert (Z.land (Z.lxor a b) S_IFMT = Z.lxor (Z.land a S_IFMT) (Z.land b S_IFMT)) as ->.
  { apply Z.bits_inj'. intros n _. rewrite Z.lxor_spec, !Z.land_spec, Z.lxor_spec.
    by destruct (Z.testbit a n), (Z.testbit b n), (Z.testbit S_IFMT n). }
  apply Z.lxor_eq_0_iff.
Qed.

(** * The invariant *)

Definition inode_ok (i : inode) : Prop := 1 <= i_nlookup i /\ fuse_valid_type (i_mode i) = true /\ i_forget_req i = true.

Section Account.
Context {S : Type} {serve : kernel_call -> M S kreply} {v : vfs} {get_req : nat -> Z}.
Context {ok : S -> Prop} {owes : S -> Z -> Z -> Prop} {admits : S -> kernel_call -> Prop}.
Context {sv : Server serve ok owes admits}.
(** Requests that are kept for later, by others than the inodes. *)
Context {kept : Z}.

(** In the middle of an operation, that holds lookups [x] and [h] requests of its own. *)
Record kinv (x : list (Z * Z)) (h : Z) (k : kern S) : Prop := Kinv {
  k_ok : ok (server k);
  k_owes id : owes (server k) id (claims (inodes k) id + pend (forgets k) id + pend x id);
  k_own : Forall (fun p => 0 <= p.2) x;
  k_pending : Forall (fun p => 0 < p.2) (forgets k);
  k_held : held k = Z.of_nat (size (inodes k)) + kept + h;
  k_live a i : inodes k !! a = Some i -> inode_ok i;
  k_hash a b i j : inodes k !! a = Some i -> inodes k !! b = Some j -> i_hashed i = true -> i_hashed j = true ->
    i_nodeid i = i_nodeid j -> a = b;
  k_names e d : dentries k !! e = Some d -> is_Some (inodes k !! d_dir d) /\
    forall a, d_inode d = Some a -> is_Some (inodes k !! a) }.

Lemma claims_nonneg m id : (forall a i, m !! a = Some i -> inode_ok i) -> 0 <= claims m id.
Proof.
  intros Hm. apply sum_nonneg. intros a i Ha. destruct (Hm a i Ha) as [? _]. unfold counted. destruct (_ =? _); lia.
Qed.

Lemma claims_one m a i : (forall a i, m !! a = Some i -> inode_ok i) -> m !! a = Some i -> i_nlookup i <= claims m (i_nodeid i).
Proof.
  intros Hm Ha. unfold claims. rewrite (total_delete _ m a i Ha). unfold counted at 1. rewrite Z.eqb_refl.
  enough (0 <= total (counted (i_nodeid i)) (delete a m)) by lia. apply claims_nonneg.
  intros b j [_ Hb]%lookup_delete_Some. by eapply Hm.
Qed.

Lemma pending_nonneg l id : Forall (fun p : Z * Z => 0 < p.2) l -> 0 <= pend l id.
Proof. intros H. apply pend_nonneg. eapply Forall_impl; [exact H |]. intros p Hp. simpl in *. lia. Qed.

(** ** The parts of the state that do not matter *)

Lemma kinv_count x h k : kinv x h k -> kinv x h (count_call k).
Proof. by destruct 1. Qed.

Lemma kinv_held x h n k : kinv x h k -> kinv x (h + n) (add_held n k).
Proof. destruct 1; split; try done. cbn in *. lia. Qed.

Lemma kinv_own x y h k : kinv x h k -> Forall (fun p => 0 <= p.2) y -> (forall id, pend y id <= pend x id) -> kinv y h k.
Proof.
  destruct 1; intros Hy Hle; split; try done. intros id. eapply sv_le; [done |]. specialize (Hle id). lia.
Qed.

(** ** Requests *)

Lemma runs_fuse_get_req x h k (Q : Z -> kern S -> Prop) :
  kinv x h k ->
  (kinv x (h + 1) (add_held 1 (count_call k)) -> Q 0 (add_held 1 (count_call k))) ->
  (forall err, err <> 0 -> kinv x h (count_call k) -> Q err (count_call k)) ->
  runs (fuse_get_req get_req) k Q.
Proof.
  intros Hk HQ HQ0. unfold fuse_get_req. apply runs_bind, runs_get. cbv zeta. apply runs_bind, runs_modify, runs_bind.
  destruct (Z.eqb_spec (get_req (calls k)) 0) as [E|Hne].
  - apply runs_modify, runs_ret. rewrite E. apply HQ. by apply kinv_held, kinv_count.
  - apply runs_ret, runs_ret. apply HQ0; [done | by apply kinv_count].
Qed.

Lemma runs_fuse_put_request x h k (Q : unit -> kern S -> Prop) :
  kinv x h k -> (kinv x (h - 1) (add_held (-1) k) -> Q tt (add_held (-1) k)) -> runs fuse_put_request k Q.
Proof. intros Hk HQ. apply runs_modify, HQ. by apply (kinv_held x h (-1)). Qed.

(** Asking the server. *)
Lemma runs_ask_server x h k c (Q : kreply -> kern S -> Prop) :
  kinv x h k -> (forall id n, (id, n) ∈ needs c -> owes (server k) id n) -> admits (server k) c ->
  (forall r s, ok s ->
     (forall id, owes s id (claims (inodes k) id + pend (forgets k) id + pend x id + pend (gets c r) id)) ->
     Q r (set_server s k)) ->
  runs (ask serve c) k Q.
Proof.
  intros Hk Hneed Hadm HQ. pose proof (sv_serve (server k) c (k_ok _ _ _ Hk) Hneed Hadm) as H.
  unfold ask. apply runs_eq in H as (r & s & E & Hs & Howes). unfold runs. rewrite E. apply HQ; [done |].
  intros id. apply Howes, (k_owes _ _ _ Hk).
Qed.

(** The FORGETs that are waiting, as the server reads them. *)
Fixpoint drain (l : list (Z * Z)) : M S unit :=
  match l with
  | [] => mret tt
  | (id, n) :: l => _ ← serve (KForget id n); drain l
  end.

Lemma runs_send_forgets l x h k (Q : unit -> kern S -> Prop) :
  kinv (l ++ x) h k -> Forall (fun p => 0 < p.2) l -> Forall (fun p => 0 <= p.2) x ->
  (forall s, kinv x h (set_server s k) -> drain l (server k) = Ret (tt, s) -> Q tt (set_server s k)) ->
  runs (send_forgets serve l) k Q.
Proof.
  revert k Q. induction l as [|[id n] l IH]; intros k Q Hk Hl Hx HQ.
  - apply runs_ret. specialize (HQ (server k)). destruct k. by apply HQ.
  - apply Forall_cons in Hl as [Hn Hl]. cbn [snd] in Hn. cbn [send_forgets]. apply runs_bind.
    pose proof (k_owes _ _ _ Hk) as Ho. pose proof (claims_nonneg (inodes k)) as Hc.
    specialize (fun id => Hc id (k_live _ _ _ Hk)). pose proof (k_pending _ _ _ Hk) as Hp.
    pose proof (sv_serve (server k) (KForget id n) (k_ok _ _ _ Hk)) as Hs.
    apply runs_eq in Hs as (r & s & E & Hok & Howes); [| | apply sv_forget; [by apply (k_ok _ _ _ Hk) | done]].
    2:{ intros i j Hin. cbn in Hin. apply list_elem_of_singleton in Hin as [= -> ->]. eapply sv_le; [apply (Ho id) |].
        cbn [app]. rewrite pend_cons, pend_app, Z.eqb_refl. pose proof (pending_nonneg (forgets k) id Hp).
        pose proof (pending_nonneg l id Hl). pose proof (pend_nonneg x id Hx). specialize (Hc id). lia. }
    unfold ask. unfold runs at 1. rewrite E. cbn [set_server server].
    apply IH; [| done | done |].
    + destruct Hk as [K1 K2 K3 K4 K5 K6 K7 K8]. split; try done.
      * intros i. cbn [set_server server inodes forgets]. eapply sv_le; [apply Howes, (Ho i) |].
        cbn [app gets]. rewrite !pend_cons. change (pend [] i) with 0. destruct (id =? i); lia.
      * by apply Forall_cons in K3 as [_ K3].
    + intros s2 Hk2 Hd. apply (HQ s2); [done |]. cbn [drain]. by rewrite (bind_runs_eq _ _ _ _ _ E).
Qed.

(** The request is one that the server admits, when it has read what is waiting. *)
Definition admitted (k : kern S) (c : kernel_call) : Prop :=
  forall s, drain (forgets k) (server k) = Ret (tt, s) -> admits s c.

Lemma runs_request_send x h k c (Q : kreply -> kern S -> Prop) :
  kinv x h k -> (forall id n, (id, n) ∈ needs c -> n <= claims (inodes k) id) -> admitted k c ->
  (forall r, Forall (fun p => 0 <= p.2) (gets c r)) ->
  (forall r s, kinv (gets c r ++ x) h (set_server s (set_forgets [] k)) -> Q r (set_server s (set_forgets [] k))) ->
  runs (request_send serve c) k Q.
Proof.
  intros Hk Hneed Hadm Hgets HQ. unfold request_send. apply runs_bind, runs_get, runs_bind, runs_modify, runs_bind.
  assert (kinv (forgets k ++ x) h (set_forgets [] k)) as Hk0.
  { destruct Hk as [K1 K2 K3 K4 K5 K6 K7 K8]. split; try done.
    - intros id. cbn. eapply sv_le; [apply K2 |]. rewrite pend_app. change (pend [] id) with 0. lia.
    - apply Forall_app. split; [| done]. eapply Forall_impl; [exact K4 |]. intros p Hp. simpl in *. lia. }
  eapply runs_send_forgets; [exact Hk0 | by apply (k_pending _ _ _ Hk) | by apply (k_own _ _ _ Hk) |].
  intros s Hs Hd. eapply runs_ask_server; [exact Hs | | by apply Hadm |].
  - intros id n Hin. eapply sv_le; [apply (k_owes _ _ _ Hs) |]. cbn. change (pend [] id) with 0.
    pose proof (pend_nonneg x id (k_own _ _ _ Hk)). specialize (Hneed id n Hin). lia.
  - intros r s2 Hok Howes. apply (HQ r s2). destruct Hs as [K1 K2 K3 K4 K5 K6 K7 K8]. split; try done.
    + intros id. eapply sv_le; [apply Howes |]. rewrite (pend_app (gets c r) x id). cbn [set_server set_forgets server inodes forgets]. lia.
    + apply Forall_app. by split.
Qed.

(** A FORGET with a request of the operation. *)
Lemma runs_fuse_send_forget id n x h k (Q : unit -> kern S -> Prop) :
  kinv ((id, n) :: x) h k -> 0 < n ->
  (forall k', k' = add_held (-1) (set_forgets (forgets k ++ [(id, n)]) k) -> kinv x (h - 1) k' -> Q tt k') ->
  runs (fuse_send_forget id n) k Q.
Proof.
  intros Hk Hn HQ. unfold fuse_send_forget. apply runs_bind, runs_modify. apply runs_modify. apply (HQ _ eq_refl).
  apply (kinv_held x h (-1)). destruct Hk as [K1 K2 K3 K4 K5 K6 K7 K8]. apply Forall_cons in K3 as [_ K3]. split; try done.
  - intros i. eapply sv_le; [apply K2 |]. cbn [add_held set_forgets inodes forgets]. rewrite pend_app, !pend_cons. change (pend [] i) with 0. lia.
  - cbn. apply Forall_app. split; [done |]. by repeat constructor.
Qed.

(** ** Inodes *)

Lemma runs_inode_at a i (k : kern S) (Q : inode -> kern S -> Prop) :
  inodes k !! a = Some i -> Q i k -> runs (inode_at a) k Q.
Proof. intros Ha HQ. apply runs_bind, runs_get. by rewrite Ha. Qed.

Lemma runs_dentry_at e d (k : kern S) (Q : dentry -> kern S -> Prop) :
  dentries k !! e = Some d -> Q d k -> runs (dentry_at e) k Q.
Proof. intros He HQ. apply runs_bind, runs_get. by rewrite He. Qed.

Lemma runs_change_inode a i f (k : kern S) (Q : unit -> kern S -> Prop) :
  inodes k !! a = Some i -> Q tt (set_inodes (<[a := f i]> (inodes k)) k) -> runs (change_inode a f) k Q.
Proof. intros Ha HQ. apply runs_bind. by eapply runs_inode_at. Qed.

Lemma runs_change_dentry e d f (k : kern S) (Q : unit -> kern S -> Prop) :
  dentries k !! e = Some d -> Q tt (set_dentries (<[e := f d]> (dentries k)) k) -> runs (change_dentry e f) k Q.
Proof. intros He HQ. apply runs_bind. by eapply runs_dentry_at. Qed.

(** An inode that keeps its number and its place in the table, with [n] more lookups that
    the operation has. *)
Lemma kinv_change x y h k a i j :
  kinv y h k -> inodes k !! a = Some i -> i_nodeid j = i_nodeid i -> (i_hashed j = true -> i_hashed i = true) -> inode_ok j ->
  Forall (fun p => 0 <= p.2) x ->
  (forall id, pend x id + (if i_nodeid i =? id then i_nlookup j - i_nlookup i else 0) <= pend y id) ->
  kinv x h (set_inodes (<[a := j]> (inodes k)) k).
Proof.
  intros [K1 K2 K3 K4 K5 K6 K7 K8] Ha Hid Hh Hj Hx Hle. split; try done.
  - intros id. eapply sv_le; [apply (K2 id) |]. cbn [set_inodes inodes forgets]. unfold claims.
    rewrite (total_change _ _ a i j Ha). unfold counted at 2 3. rewrite Hid. specialize (Hle id). destruct (_ =? id); lia.
  - cbn [set_inodes inodes held]. by rewrite map_size_insert_Some by eauto.
  - intros b n Hb. cbn [set_inodes inodes] in Hb. apply lookup_insert_Some in Hb as [[_ <-]|[_ Hb]]; [done | by eapply K6].
  - intros b c n m Hb Hc Hn Hm E. cbn [set_inodes inodes] in Hb, Hc.
    assert (forall d o, <[a := j]> (inodes k) !! d = Some o -> i_hashed o = true ->
      exists o', inodes k !! d = Some o' /\ i_hashed o' = true /\ i_nodeid o' = i_nodeid o) as Hold.
    { intros d o [[<- <-]|[_ Hd]]%lookup_insert_Some Ho; [exists i; auto | by exists o]. }
    destruct (Hold b n Hb Hn) as (n' & Hb' & Hn' & En). destruct (Hold c m Hc Hm) as (m' & Hc' & Hm' & Em).
    eapply K7; [exact Hb' | exact Hc' | done | done | congruence].
  - intros e d He. cbn [set_inodes dentries inodes] in *. destruct (K8 e d He) as [H1 H2].
    assert (forall b, is_Some (inodes k !! b) -> is_Some (<[a := j]> (inodes k) !! b)) as Hs.
    { intros b Hb. destruct (decide (a = b)) as [<-|]; [by rewrite lookup_insert_eq | by rewrite lookup_insert_ne]. }
    split; [by apply Hs |]. intros b Hb. by apply Hs, H2.
Qed.

Lemma kinv_change_same x h k a i j :
  kinv x h k -> inodes k !! a = Some i -> i_nodeid j = i_nodeid i -> i_nlookup j = i_nlookup i ->
  (i_hashed j = true -> i_hashed i = true) -> inode_ok j -> kinv x h (set_inodes (<[a := j]> (inodes k)) k).
Proof.
  intros Hk Ha Hid Hn Hh Hj. eapply (kinv_change x x); try done; [by apply (k_own _ _ _ Hk) |].
  intros id. rewrite Hn. destruct (_ =? id); lia.
Qed.

Lemma inode_at_least x h k a i :
  kinv x h k -> inodes k !! a = Some i -> 1 <= i_nlookup i <= claims (inodes k) (i_nodeid i).
Proof.
  intros Hk Ha. split; [by apply (k_live _ _ _ Hk a i Ha) |]. eapply claims_one; [| done]. apply (k_live _ _ _ Hk).
Qed.

(** The count does not wrap around. *)
Lemma nlookup_small x h k a i id :
  kinv ((id, 1) :: x) h k -> inodes k !! a = Some i -> i_nodeid i = id -> to_u64 (i_nlookup i + 1) = i_nlookup i + 1.
Proof.
  intros Hk Ha Hid. destruct (inode_at_least _ _ _ _ _ Hk Ha) as [H1 H2]. rewrite Hid in H2.
  pose proof (sv_max _ _ _ (k_ok _ _ _ Hk) (k_owes _ _ _ Hk id)) as Hmax. rewrite pend_cons, Z.eqb_refl in Hmax.
  pose proof (k_own _ _ _ Hk) as [_ Hx]%Forall_cons. pose proof (pend_nonneg x id Hx).
  pose proof (pending_nonneg (forgets k) id (k_pending _ _ _ Hk)). apply to_u64_id. lia.
Qed.

(** A lookup that the operation has is counted by an inode. *)
Lemma runs_nlookup id x h k a i (Q : unit -> kern S -> Prop) :
  kinv ((id, 1) :: x) h k -> inodes k !! a = Some i -> i_nodeid i = id ->
  (forall j, j = set_nlookup (i_nlookup i + 1) i -> kinv x h (set_inodes (<[a := j]> (inodes k)) k) ->
     Q tt (set_inodes (<[a := j]> (inodes k)) k)) ->
  runs (change_inode a (fun i => set_nlookup (to_u64 (i_nlookup i + 1)) i)) k Q.
Proof.
  intros Hk Ha Hid HQ. eapply runs_change_inode; [done |]. cbv beta. rewrite (nlookup_small _ _ _ _ _ _ Hk Ha Hid).
  apply HQ; [done |]. pose proof (k_own _ _ _ Hk) as [_ Hx]%Forall_cons.
  eapply kinv_change; [exact Hk | done | done | done | | done |].
  - destruct (k_live _ _ _ Hk a i Ha) as (? & ? & ?). split_and!; [cbn; lia | done | done].
  - intros id'. rewrite pend_cons. cbn. rewrite Hid. destruct (id =? id'); lia.
Qed.

(** The attributes of an inode change, not its type. *)
Lemma runs_change_attributes attr x h k a i (Q : unit -> kern S -> Prop) :
  kinv x h k -> inodes k !! a = Some i ->
  (forall j, j = fuse_change_attributes attr i -> kinv x h (set_inodes (<[a := j]> (inodes k)) k) ->
     Q tt (set_inodes (<[a := j]> (inodes k)) k)) ->
  runs (change_inode a (fuse_change_attributes attr)) k Q.
Proof.
  intros Hk Ha HQ. eapply runs_change_inode; [done |]. apply HQ; [done |].
  eapply kinv_change_same; [done.. |]. destruct (k_live _ _ _ Hk a i Ha) as (? & Ht & ?). split_and!; [done | | done].
  rewrite <- Ht. apply valid_type_land, change_type.
Qed.

(** ** Inodes come and go *)

Lemma unused_spec m a :
  unused m a = true <-> forall e d, m !! e = Some d -> d_inode d <> Some a /\ d_dir d <> a.
Proof.
  unfold unused, no_dentry. rewrite andb_true_iff, !bool_decide_eq_true. split.
  - intros [H1 H2] e d He. split; [by apply (H1 e d) | by apply (H2 e d)].
  - intros H. split; intros e d He; by destruct (H e d He).
Qed.

Lemma runs_evict x h k a (Q : unit -> kern S -> Prop) :
  kinv x h k -> unused (dentries k) a = true -> is_Some (inodes k !! a) ->
  (forall k', kinv x h k' -> inodes k' = delete a (inodes k) -> dentries k' = dentries k -> Q tt k') ->
  runs (evict a) k Q.
Proof.
  intros Hk Hun [i Ha] HQ. pose proof (k_live _ _ _ Hk a i Ha) as (Hn & _ & Hf). rewrite unused_spec in Hun.
  assert (forall k', server k' = server k -> inodes k' = delete a (inodes k) -> dentries k' = dentries k ->
    held k' = held k - 1 -> (forgets k' = forgets k \/ forgets k' = forgets k ++ [(i_nodeid i, i_nlookup i)]) ->
    kinv x h k') as Hend.
  { intros k' Es Ei Ed Eh Ef. destruct Hk as [K1 K2 K3 K4 K5 K6 K7 K8].
    assert (size (inodes k) = Datatypes.S (size (delete a (inodes k)))) as Hsize.
    { rewrite <- (insert_delete_id _ _ _ Ha) at 1. by rewrite map_size_insert_None by apply lookup_delete_eq. }
    split; rewrite ?Es, ?Ei, ?Ed; try done.
    - intros id. eapply sv_le; [apply (K2 id) |]. unfold claims. rewrite (total_delete _ _ a i Ha). unfold counted at 2.
      destruct Ef as [-> | ->]; rewrite ?pend_app, ?pend_cons; change (pend [] id) with 0; destruct (_ =? id); lia.
    - destruct Ef as [-> | ->]; [done |]. apply Forall_app. split; [done |]. repeat constructor. simpl. lia.
    - lia.
    - intros b j [_ Hb]%lookup_delete_Some. by eapply K6.
    - intros b c j j' [_ Hb]%lookup_delete_Some [_ Hc]%lookup_delete_Some. by apply K7.
    - intros e d He. destruct (K8 e d He) as [H1 H2]. destruct (Hun e d He) as [U1 U2]. split.
      + by rewrite lookup_delete_ne.
      + intros b Hb. rewrite lookup_delete_ne by congruence. by apply H2. }
  unfold evict, fuse_clear_inode, fuse_destroy_inode, fuse_send_forget. apply runs_bind, runs_bind, runs_get. destruct (active k).
  - apply runs_bind. eapply runs_inode_at; [done |]. apply runs_bind, runs_bind, runs_modify. apply runs_modify.
    eapply runs_change_inode; [exact Ha |]. apply runs_bind. eapply runs_inode_at; [apply lookup_insert_eq |].
    cbn [i_forget_req]. apply runs_bind, runs_ret, runs_modify. apply HQ; [apply Hend | |]; try done; cbn.
    + by rewrite delete_insert_eq.
    + by right.
    + by rewrite delete_insert_eq.
  - apply runs_ret, runs_bind. eapply runs_inode_at; [done |]. rewrite Hf. apply runs_bind, runs_modify, runs_modify.
    apply HQ; [apply Hend | |]; try done. by left.
Qed.

Lemma runs_iput x h k a (Q : unit -> kern S -> Prop) :
  kinv x h k -> is_Some (inodes k !! a) ->
  (forall k', kinv x h k' -> inodes k' = delete a (inodes k) \/ inodes k' = inodes k -> dentries k' = dentries k -> Q tt k') ->
  runs (iput v a) k Q.
Proof.
  intros Hk Ha HQ. unfold iput. apply runs_bind, runs_get, runs_bind, runs_modify.
  destruct (v_iput v _ _ _); cbn [andb]; [| apply runs_ret; apply HQ; auto using kinv_count].
  destruct (unused _ _) eqn:Hun; [| apply runs_ret; apply HQ; auto using kinv_count].
  eapply runs_evict; [by apply kinv_count | exact Hun | done |]. intros k' ? ? ?. apply HQ; auto.
Qed.

(** A new inode. *)
Lemma kinv_new id x h k a j :
  kinv ((id, 1) :: x) h k -> inodes k !! a = None ->
  (forall b i, inodes k !! b = Some i -> i_hashed i = true -> i_nodeid i <> id) ->
  i_nodeid j = id -> i_nlookup j = 1 -> inode_ok j -> kinv x h (add_held 1 (set_inodes (<[a := j]> (inodes k)) k)).
Proof.
  intros [K1 K2 K3 K4 K5 K6 K7 K8] Ha Hfresh Hid Hn Hj. apply Forall_cons in K3 as [_ K3].
  assert (forall b, is_Some (inodes k !! b) -> is_Some (<[a := j]> (inodes k) !! b)) as Hs.
  { intros b Hb. rewrite lookup_insert_ne; [done |]. intros <-. rewrite Ha in Hb. by destruct Hb. }
  split; try done.
  - intros i. eapply sv_le; [apply (K2 i) |]. cbn [add_held set_inodes inodes forgets]. unfold claims.
    rewrite total_insert by done. rewrite pend_cons. unfold counted at 1. rewrite Hid, Hn. destruct (id =? i); lia.
  - cbn. rewrite map_size_insert_None by done. lia.
  - intros b i Hb. cbn in Hb. apply lookup_insert_Some in Hb as [[_ <-]|[_ Hb]]; [done | by eapply K6].
  - intros b c i i' Hb Hc Hi Hi' E. cbn in Hb, Hc.
    apply lookup_insert_Some in Hb as [[<- <-]|[_ Hb]], Hc as [[<- <-]|[_ Hc]]; [done | | | by eapply K7].
    + destruct (Hfresh c i' Hc Hi'). congruence.
    + destruct (Hfresh b i Hb Hi). congruence.
  - intros e d He. cbn in *. destruct (K8 e d He) as [H1 H2]. split; [by apply Hs |]. intros b Hb. by apply Hs, H2.
Qed.

Context {vok : VfsOk v}.

Lemma init_valid attr i :
  fuse_valid_type (a_mode attr) = true ->
  exists j, fuse_init_inode attr i = Some j /\ i_nodeid j = i_nodeid i /\ i_nlookup j = i_nlookup i /\
    i_forget_req j = i_forget_req i /\ i_hashed j = i_hashed i /\ i_mode j = Z.land (a_mode attr) S_IFMT.
Proof.
  intros Ht. unfold fuse_init_inode. rewrite (valid_type_land (a_mode attr)), Ht by apply land_land. by eexists.
Qed.

(** The inode [a] stands for the node [id]. *)
Definition stands (k : kern S) (a : nat) (id : Z) : Prop := exists i, inodes k !! a = Some i /\ i_nodeid i = id.

Lemma stands_some k a id : stands k a id -> is_Some (inodes k !! a).
Proof. intros (i & Hi & _). by exists i. Qed.

(** The end of [fuse_iget]. *)
Definition ready (a : nat) (attr : fuse_attr) : M (kern S) (option nat) :=
  _ ← change_inode a (fun i => set_nlookup (to_u64 (i_nlookup i + 1)) i);
  _ ← change_inode a (fuse_change_attributes attr);
  mret (Some a).

Lemma runs_ready id x h k a i attr (Q : option nat -> kern S -> Prop) :
  kinv ((id, 1) :: x) h k -> inodes k !! a = Some i -> i_nodeid i = id ->
  (forall k', kinv x h k' -> stands k' a id -> dentries k' = dentries k -> Q (Some a) k') ->
  runs (ready a attr) k Q.
Proof.
  intros Hk Ha Hid HQ. unfold ready. apply runs_bind. eapply runs_nlookup; [done.. |]. intros j Ej Hk1.
  apply runs_bind. eapply runs_change_attributes; [exact Hk1 | apply lookup_insert_eq |]. intros j2 Ej2 Hk2.
  apply runs_ret, HQ; [exact Hk2 | | done]. eexists. cbn. rewrite lookup_insert_eq. split; [done |].
  by rewrite <- Hid, Ej2, Ej.
Qed.

(** No inode of the table has the number. *)
Definition fresh_id (k : kern S) (id : Z) : Prop :=
  forall b i, inodes k !! b = Some i -> i_hashed i = true -> i_nodeid i <> id.

Lemma runs_iget_loop fuel id gen attr x h k (Q : option nat -> kern S -> Prop) :
  kinv ((id, 1) :: x) h k -> fuse_valid_type (a_mode attr) = true ->
  (1 <= fuel)%nat -> (fresh_id k id \/ (2 <= fuel)%nat) ->
  (forall k', kinv ((id, 1) :: x) h k' -> dentries k' = dentries k -> Q None k') ->
  (forall a k', kinv x h k' -> stands k' a id -> dentries k' = dentries k -> Q (Some a) k') ->
  runs (iget_loop v fuel id gen attr) k Q.
Proof.
  intros Hk Ht. revert k Hk. induction fuel as [|fuel IH]; intros k Hk Hf Hfresh HQ0 HQ; [lia |].
  cbn [iget_loop]. apply runs_bind. unfold iget5_locked. apply runs_bind, runs_get, runs_bind, runs_modify.
  destruct (v_iget5 v (calls k) (inodes k) id) as [[a []]|] eqn:E.
  - pose proof (vo_iget5 _ _ _ _ _ E) as [Ha Hno]. apply runs_bind, runs_modify, runs_bind, runs_modify, runs_ret.
    apply runs_bind. eapply runs_inode_at; [cbn; apply lookup_insert_eq |]. cbv zeta.
    destruct (init_valid attr (set_generation gen (fuse_inode_set id fuse_alloc_inode)) Ht)
      as (j & -> & Ej1 & Ej2 & Ej3 & Ej4 & Ej5). cbn in Ej1, Ej2, Ej3, Ej4.
    apply runs_bind. eapply runs_change_inode; [cbn; apply lookup_insert_eq |]. cbn [add_held set_inodes inodes count_call].
    rewrite insert_insert_eq. apply runs_bind. eapply runs_change_inode; [cbn; apply lookup_insert_eq |].
    cbn [set_inodes inodes]. rewrite insert_insert_eq. apply runs_bind. eapply runs_change_inode; [cbn; apply lookup_insert_eq |].
    cbn [set_inodes inodes]. rewrite insert_insert_eq. rewrite Ej2. change (to_u64 (0 + 1)) with 1.
    apply runs_ret, HQ; [| eexists; cbn; rewrite lookup_insert_eq; done | done].
    apply (kinv_new id x h (count_call k)); [by apply kinv_count | done | done | done | done |].
    split_and!; [cbn; lia | | done]. rewrite <- Ht. apply valid_type_land. rewrite change_type.
    change (i_mode (set_nlookup 1 j)) with (i_mode j). by rewrite Ej5, land_land.
  - pose proof (vo_iget5 _ _ _ _ _ E) as (i & Ha & Hh & Hid). apply runs_ret. apply runs_bind.
    eapply runs_inode_at; [exact Ha |]. cbv zeta. destruct (differ _ _) eqn:Ediff.
    + apply runs_bind. eapply runs_change_inode; [exact Ha |]. apply runs_bind.
      assert (kinv ((id, 1) :: x) h (set_inodes (<[a := make_bad_inode i]> (inodes k)) (count_call k))) as Hk1.
      { destruct (k_live _ _ _ Hk a i Ha) as (? & ? & ?).
        eapply (kinv_change_same _ _ (count_call k)); [by apply kinv_count | done | done | done | done | done]. }
      assert (fresh_id (set_inodes (<[a := make_bad_inode i]> (inodes k)) (count_call k)) id) as Hno.
      { intros b j Hb Hj Hjd. cbn in Hb. apply lookup_insert_Some in Hb as [[<- <-]|[Hab Hb]]; [done |].
        apply Hab. eapply (k_hash _ _ _ Hk); [done | done | done | done | congruence]. }
      destruct Hfresh as [Hfresh|Hf2]; [by destruct (Hfresh a i Ha Hh) |].
      eapply runs_iput; [exact Hk1 | cbn; rewrite lookup_insert_eq; by eexists |]. intros k2 Hk2 Hi2 Hd2.
      apply IH; [done | lia | left | |].
      * intros b j Hb. apply (Hno b). destruct Hi2 as [Hi2|Hi2]; rewrite Hi2 in Hb; [| done].
        by apply lookup_delete_Some in Hb as [_ Hb].
      * intros k3 Hk3 Hd3. apply HQ0; [done | by rewrite Hd3, Hd2].
      * intros b k3 Hk3 Hb3 Hd3. apply HQ; [done | done | by rewrite Hd3, Hd2].
    + eapply (runs_ready id x h (count_call k)); [by apply kinv_count | done | done |]. exact (fun k' => HQ a k').
  - apply runs_ret, runs_ret. apply HQ0; [by apply kinv_count | done].
Qed.

Lemma runs_fuse_iget id gen attr x h k (Q : option nat -> kern S -> Prop) :
  kinv ((id, 1) :: x) h k -> fuse_valid_type (a_mode attr) = true ->
  (forall k', kinv ((id, 1) :: x) h k' -> dentries k' = dentries k -> Q None k') ->
  (forall a k', kinv x h k' -> stands k' a id -> dentries k' = dentries k -> Q (Some a) k') ->
  runs (fuse_iget v id gen attr) k Q.
Proof.
  intros Hk Ht HQ0 HQ. unfold fuse_iget. apply runs_bind, runs_get.
  eapply runs_iget_loop; [done | done | lia | | done | done].
  destruct (decide (inodes k = ∅)) as [E|Hne]; [left | right].
  - intros b i Hb. by rewrite E, lookup_empty in Hb.
  - enough (size (inodes k) <> 0%nat) by lia. by intros ?%map_size_empty_inv.
Qed.

(** ** Names and times *)

Lemma kinv_dentries x h (k : kern S) m :
  kinv x h k ->
  (forall e d, m !! e = Some d -> is_Some (inodes k !! d_dir d) /\ forall a, d_inode d = Some a -> is_Some (inodes k !! a)) ->
  kinv x h (set_dentries m k).
Proof. destruct 1. intros Hm. by split. Qed.

Lemma kinv_fewer x h (k : kern S) m : kinv x h k -> m ⊆ dentries k -> kinv x h (set_dentries m k).
Proof. intros Hk Hm. apply kinv_dentries; [done |]. intros e d He. apply (k_names _ _ _ Hk e). by eapply lookup_weaken. Qed.

Lemma runs_rename_dentry e f d x h k (Q : unit -> kern S -> Prop) :
  kinv x h k -> dentries k !! e = Some d -> is_Some (inodes k !! d_dir (f d)) ->
  (forall a, d_inode (f d) = Some a -> is_Some (inodes k !! a)) ->
  (kinv x h (set_dentries (<[e := f d]> (dentries k)) k) -> Q tt (set_dentries (<[e := f d]> (dentries k)) k)) ->
  runs (change_dentry e f) k Q.
Proof.
  intros Hk He Hd Ha HQ. eapply runs_change_dentry; [done |]. apply HQ, kinv_dentries; [done |].
  intros e' d' [[_ <-]|[_ He']]%lookup_insert_Some; [done |]. by apply (k_names _ _ _ Hk e').
Qed.

(** The inodes that were there are there. *)
Definition stays (k k' : kern S) : Prop := forall a, is_Some (inodes k !! a) -> is_Some (inodes k' !! a).

Lemma stays_same (k k' : kern S) : inodes k' = inodes k -> stays k k'.
Proof. by intros E b; rewrite E. Qed.

Lemma stays_insert (k : kern S) a j k' : inodes k' = <[a := j]> (inodes k) -> stays k k'.
Proof.
  intros E b Hb. rewrite E. destruct (decide (a = b)) as [<-|]; [by rewrite lookup_insert_eq | by rewrite lookup_insert_ne].
Qed.

(** A change of the attributes or the times of an inode. *)
Lemma runs_touch f x h k a (Q : unit -> kern S -> Prop) :
  kinv x h k -> is_Some (inodes k !! a) ->
  (forall i, i_nodeid (f i) = i_nodeid i /\ i_nlookup (f i) = i_nlookup i /\ i_hashed (f i) = i_hashed i /\
     i_forget_req (f i) = i_forget_req i /\ i_mode (f i) = i_mode i) ->
  (forall k', kinv x h k' -> stays k k' -> dentries k' = dentries k -> forgets k' = forgets k -> server k' = server k ->
     Q tt k') ->
  runs (change_inode a f) k Q.
Proof.
  intros Hk [i Ha] Hf HQ. destruct (Hf i) as (E1 & E2 & E3 & E4 & E5). destruct (k_live _ _ _ Hk a i Ha) as (H1 & H2 & H3).
  eapply runs_change_inode; [done |]. apply HQ; try done.
  - eapply kinv_change_same; [done | done | done | done | congruence |]. split_and!; congruence.
  - by eapply stays_insert.
Qed.

Lemma runs_time_to_jiffies t (k : kern S) (Q : Z -> kern S -> Prop) :
  (forall z, Q z k) -> runs (time_to_jiffies v t) k Q.
Proof. intros HQ. unfold time_to_jiffies. apply runs_bind, runs_get. destruct (_ || _); by apply runs_ret. Qed.

Lemma runs_fuse_change_timeout e d o x h k (Q : unit -> kern S -> Prop) :
  kinv x h k -> dentries k !! e = Some d ->
  (forall k', kinv x h k' -> stays k k' -> (forall e', e' <> e -> dentries k' !! e' = dentries k !! e') -> Q tt k') ->
  runs (fuse_change_timeout v e o) k Q.
Proof.
  intros Hk He HQ. unfold fuse_change_timeout. apply runs_bind, runs_time_to_jiffies. intros t. apply runs_bind.
  destruct (k_names _ _ _ Hk e d He) as [Hd Hi].
  eapply runs_rename_dentry; [done | done | done | done |]. intros Hk1. apply runs_bind.
  eapply runs_dentry_at; [apply lookup_insert_eq |]. cbn [set_d_time d_inode]. destruct (d_inode d) as [a|].
  - apply runs_bind, runs_time_to_jiffies. intros t2. eapply runs_touch; [exact Hk1 | by apply Hi | done |].
    intros k' Hk' Hst Ed _ _. apply HQ; [done | done |]. intros e' Hne. rewrite Ed. cbn. by rewrite lookup_insert_ne.
  - apply runs_ret. apply HQ; [done | by apply stays_same |]. intros e' Hne. cbn. by rewrite lookup_insert_ne.
Qed.

Lemma runs_fuse_invalidate_attr a x h k (Q : unit -> kern S -> Prop) :
  kinv x h k -> is_Some (inodes k !! a) ->
  (forall k', kinv x h k' -> stays k k' -> dentries k' = dentries k -> Q tt k') -> runs (fuse_invalidate_attr a) k Q.
Proof. intros Hk Ha HQ. eapply runs_touch; [done | done | done |]. intros k' ? ? ? _ _. by apply HQ. Qed.

Lemma runs_fuse_invalidate_entry_cache e d x h k (Q : unit -> kern S -> Prop) :
  kinv x h k -> dentries k !! e = Some d ->
  (forall k', kinv x h k' -> inodes k' = inodes k -> dentries k' = <[e := set_d_time 0 d]> (dentries k) -> Q tt k') ->
  runs (fuse_invalidate_entry_cache e) k Q.
Proof.
  intros Hk He HQ. destruct (k_names _ _ _ Hk e d He). eapply runs_rename_dentry; [done.. |]. intros Hk1. by apply HQ.
Qed.

(** The names that are held are there, but [e] may have lost its time. *)
Lemma runs_fuse_invalidate_entry e d x h k (Q : unit -> kern S -> Prop) :
  kinv x h k -> dentries k !! e = Some d ->
  (forall k', kinv x h k' -> inodes k' = inodes k -> is_Some (dentries k' !! e) ->
     (forall e' d', dentries k !! e' = Some d' -> d_held d' = true -> e' <> e -> dentries k' !! e' = Some d') -> Q tt k') ->
  runs (fuse_invalidate_entry v e) k Q.
Proof.
  intros Hk He HQ. unfold fuse_invalidate_entry. apply runs_bind, runs_modify.
  destruct (vo_invalidate (dentries k) e) as [Hsub Hkeep]. pose proof (kinv_fewer _ _ _ _ Hk Hsub) as Hk1.
  eapply runs_fuse_invalidate_entry_cache; [exact Hk1 | apply Hkeep; [exact He | by left] |]. intros k' Hk' Ei Ed.
  apply HQ; [done | done | |].
  - rewrite Ed, lookup_insert_eq. by eexists.
  - intros e' d' He' Hh Hne. rewrite Ed, lookup_insert_ne by done. apply Hkeep; [done | by right].
Qed.

Lemma runs_dput e x h k (Q : unit -> kern S -> Prop) :
  kinv x h k ->
  (forall k', kinv x h k' -> inodes k' = inodes k ->
     (forall e' d', dentries k !! e' = Some d' -> d_held d' = true -> dentries k' !! e' = Some d') -> Q tt k') ->
  runs (dput v e) k Q.
Proof.
  intros Hk HQ. apply runs_modify. destruct (vo_dput (dentries k) e) as [Hsub Hkeep].
  apply HQ; [by apply kinv_fewer | done |]. intros e' d' He' Hh. apply Hkeep; [done | by right].
Qed.

Lemma runs_d_splice_alias inode e d x h k (Q : option nat -> kern S -> Prop) :
  kinv x h k -> dentries k !! e = Some d -> (forall a, inode = Some a -> is_Some (inodes k !! a)) ->
  (forall n k', kinv x h k' -> inodes k' = inodes k -> is_Some (dentries k' !! default e n) -> Q n k') ->
  runs (d_splice_alias v inode e) k Q.
Proof.
  intros Hk He Hi HQ. destruct (k_names _ _ _ Hk e d He) as [Hd _]. unfold d_splice_alias.
  apply runs_bind, runs_get, runs_bind. eapply runs_dentry_at; [done |]. cbv zeta.
  destruct (decide (_ = e)) as [_|Hne].
  - apply runs_bind. eapply runs_rename_dentry; [done | done | done | exact Hi |]. intros Hk1. apply runs_ret.
    apply HQ; [done | done |]. cbn. rewrite lookup_insert_eq. by eexists.
  - destruct (vo_splice (dentries k) inode e) as [|(t & Et & _)]; [done |]. apply runs_bind.
    eapply runs_dentry_at; [exact Et |]. apply runs_bind.
    eapply (runs_rename_dentry _ (fun _ => Dentry (d_dir d) (d_name d) inode (d_time t) false true));
      [done | exact Et | exact Hd | exact Hi |].
    intros Hk1. apply runs_ret. apply HQ; [done | done |]. cbn. rewrite lookup_insert_eq. by eexists.
Qed.

Lemma runs_fuse_d_add_directory e d a x h k (Q : Z + option nat -> kern S -> Prop) :
  kinv x h k -> dentries k !! e = Some d -> d_held d = true -> d_inode d = None -> is_Some (inodes k !! a) ->
  (forall r k', kinv x h k' -> inodes k' = inodes k ->
     (forall n, r = inr n -> is_Some (dentries k' !! default e n)) -> Q r k') ->
  runs (fuse_d_add_directory v e a) k Q.
Proof.
  intros Hk He Hh Hneg Ha HQ. unfold fuse_d_add_directory. apply runs_bind, runs_get. cbv zeta.
  assert (forall k1, kinv x h k1 -> inodes k1 = inodes k -> dentries k1 !! e = Some d ->
    runs (r ← d_splice_alias v (Some a) e; mret (inr r)) k1 Q) as Hsplice.
  { intros k1 Hk1 Ei Ed. apply runs_bind. eapply runs_d_splice_alias; [exact Hk1 | exact Ed | |].
    - intros b [= <-]. by rewrite Ei.
    - intros n k2 Hk2 Ei2 Hn. apply runs_ret, HQ; [done | congruence |]. by intros m [= <-]. }
  destruct (v_alias v (dentries k) a) as [alias|] eqn:Ea; [| by apply Hsplice].
  destruct (vo_alias _ _ _ Ea) as (da & Hda & Hai). apply runs_bind. eapply runs_dentry_at; [exact Hda |].
  assert (e <> alias) as Hne by (intros <-; congruence).
  destruct (negb (d_disconnected da)).
  - apply runs_bind. eapply runs_fuse_invalidate_entry; [exact Hk | exact Hda |]. intros k1 Hk1 Ei1 _ Hkeep1.
    apply runs_bind. eapply runs_dput; [exact Hk1 |]. intros k2 Hk2 Ei2 Hkeep2. apply runs_bind, runs_get.
    destruct (negb (no_dentry _ _)).
    + apply runs_ret, HQ; [done | congruence |]. by intros n [=].
    + apply Hsplice; [done | congruence |]. apply Hkeep2; [by apply Hkeep1 | done].
  - apply runs_bind. eapply runs_dput; [exact Hk |]. intros k2 Hk2 Ei2 Hkeep2. apply Hsplice; [done | congruence |].
    by apply Hkeep2.
Qed.

(** ** The operations *)

(** Between operations: nothing is held but the FORGETs of the inodes. *)
Definition settled (k : kern S) : Prop := kinv [] 0 k.

Lemma settled_own x k : kinv x 0 k -> settled k.
Proof.
  intros Hk. eapply kinv_own; [exact Hk | constructor |]. intros id. apply (pend_nonneg x id), (k_own _ _ _ Hk).
Qed.

(** A request about live inodes. *)
Lemma needs_one x h k a i id n :
  kinv x h k -> inodes k !! a = Some i -> (id, n) ∈ [(i_nodeid i, 1)] -> n <= claims (inodes k) id.
Proof. intros Hk Ha [= -> ->]%list_elem_of_singleton. destruct (inode_at_least _ _ _ _ _ Hk Ha). lia. Qed.

Lemma needs_two x h k a i b j id n :
  kinv x h k -> inodes k !! a = Some i -> inodes k !! b = Some j -> (id, n) ∈ [(i_nodeid i, 1); (i_nodeid j, 1)] ->
  n <= claims (inodes k) id.
Proof.
  intros Hk Ha Hb [Hin|Hin]%elem_of_cons.
  - eapply needs_one; [exact Hk | exact Ha |]. by apply list_elem_of_singleton.
  - by eapply needs_one.
Qed.

Lemma gets_nonneg c r : (forall id n, c <> KForget id n) -> Forall (fun p => 0 <= p.2) (gets c r).
Proof.
  intros Hc. destruct c; cbn [gets]; try (by constructor); try (case_match; by repeat constructor). exfalso. by eapply Hc.
Qed.

(** A request for the operation, or an error. *)
Lemma runs_with_req x h k (m : M (kern S) Z) (Q : Z -> kern S -> Prop) :
  kinv x h k ->
  (kinv x (h + 1) (add_held 1 (count_call k)) -> runs m (add_held 1 (count_call k)) Q) ->
  (forall err k', kinv x h k' -> Q err k') -> runs (with_req get_req m) k Q.
Proof.
  intros Hk Hm HQ. unfold with_req. apply runs_bind. eapply runs_fuse_get_req; [done | |].
  - intros Hk1. by apply Hm.
  - intros err Hne Hk1. replace (negb (err =? 0)) with true by lia. by apply runs_ret, HQ.
Qed.

Lemma runs_lookup_finish e d err o inode x k :
  kinv x 1 k -> dentries k !! e = Some d -> d_held d = true -> d_inode d = None ->
  (forall a, inode = Some a -> is_Some (inodes k !! a)) ->
  runs (lookup_finish v e err o inode) k (fun _ => settled).
Proof.
  intros Hk He Hh Hneg Hi. unfold lookup_finish. apply runs_bind. eapply runs_fuse_put_request; [done |].
  intros Hk1. change (1 - 1) with 0 in Hk1. destruct (negb _ && _); [apply runs_ret; by eapply settled_own |].
  set (k1 := add_held (-1) k) in *.
  assert (forall n k2, kinv x 0 k2 -> is_Some (dentries k2 !! default e n) ->
    runs (_ ← (if err =? 0 then fuse_change_timeout v (default e n) o else fuse_invalidate_entry_cache (default e n)); mret (inr n))
      k2 (fun _ : Z + option nat => settled)) as Hend.
  { intros n k2 Hk2 [d2 Hd2]. apply runs_bind. destruct (err =? 0).
    - eapply runs_fuse_change_timeout; [done | done |]. intros k3 Hk3 _ _. apply runs_ret. by eapply settled_own.
    - eapply runs_fuse_invalidate_entry_cache; [done | done |]. intros k3 Hk3 _ _. apply runs_ret. by eapply settled_own. }
  destruct inode as [a|].
  - destruct (Hi a eq_refl) as [i Ha]. apply runs_bind, runs_bind. eapply runs_inode_at; [exact Ha |].
    apply runs_ret, runs_bind. destruct (S_ISDIR _).
    + eapply runs_fuse_d_add_directory; [exact Hk1 | exact He | done | done | by exists i |].
      intros [z|n] k2 Hk2 Ei2 Hn; [| by apply Hend, Hn].
      apply runs_bind. eapply runs_iput; [done | rewrite Ei2; by exists i |]. intros k3 Hk3 _ _. apply runs_ret.
      by eapply settled_own.
    + apply runs_bind. eapply runs_d_splice_alias; [exact Hk1 | exact He | by intros b [= <-]; exists i |].
      intros n k2 Hk2 _ Hn. by apply runs_ret, Hend.
  - apply runs_bind, runs_ret, runs_bind, runs_bind. eapply runs_d_splice_alias; [exact Hk1 | exact He | done |].
    intros n k2 Hk2 _ Hn. by apply runs_ret, Hend.
Qed.

Lemma runs_fuse_lookup e d i k :
  settled k -> dentries k !! e = Some d -> d_held d = true -> d_inode d = None -> inodes k !! d_dir d = Some i ->
  admitted k (KLookup (i_nodeid i) (d_name d)) -> runs (fuse_lookup serve v get_req (d_dir d) e) k (fun _ => settled).
Proof.
  intros Hk He Hh Hneg Hdir Hadm. unfold fuse_lookup. apply runs_bind. eapply runs_dentry_at; [done |].
  destruct (_ <? _); [by apply runs_ret |]. apply runs_bind. eapply runs_fuse_get_req; [done | |].
  2:{ intros err Hne Hk1. replace (negb (err =? 0)) with true by lia. by apply runs_ret. }
  intros Hk1. change (negb (0 =? 0)) with false. cbv iota. apply runs_bind. eapply runs_fuse_get_req; [done | |].
  2:{ intros err Hne Hk2. replace (negb (err =? 0)) with true by lia. apply runs_bind.
      eapply runs_fuse_put_request; [done |]. intros Hk3. by apply runs_ret. }
  intros Hk2. change (negb (0 =? 0)) with false. cbv iota. change (0 + 1 + 1) with 2 in Hk2.
  apply runs_bind. eapply runs_inode_at; [exact Hdir |]. apply runs_bind.
  eapply runs_request_send; [exact Hk2 | intros id n; by eapply needs_one | exact Hadm | intros r; by apply gets_nonneg |].
  intros r s Hk3. rewrite app_nil_r in Hk3. apply runs_bind. eapply runs_fuse_put_request; [exact Hk3 |].
  change (2 - 1) with 1. intros Hk4. cbv zeta. cbn [gets] in Hk4.
  destruct (Z.eqb_spec (kr_error r) 0) as [E0|Hne0]; cbn [andb].
  2:{ replace (kr_error r =? 0) with false by lia. cbn [andb]. by eapply runs_lookup_finish. }
  rewrite E0 in *. destruct (negb (eo_nodeid (kr_entry r) =? 0)) eqn:Efound; cbn [andb] in *.
  2:{ by eapply runs_lookup_finish. }
  destruct (invalid_nodeid _ || _) eqn:Evalid; [by eapply runs_lookup_finish |].
  apply orb_false_iff in Evalid as [_ Hvalid%negb_false_iff]. change (0 =? 0) with true. cbn [andb]. apply runs_bind.
  eapply runs_fuse_iget; [exact Hk4 | done | |].
  - intros k5 Hk5 _. apply runs_bind. eapply runs_fuse_send_forget; [exact Hk5 | lia |]. intros k6 _ Hk6. by apply runs_ret.
  - intros a k5 Hk5 Ha%stands_some Ed. eapply runs_lookup_finish; [exact Hk5 | by rewrite Ed | done | done |]. by intros b [= <-].
Qed.

Lemma runs_fuse_dentry_revalidate e d k :
  settled k -> dentries k !! e = Some d ->
  (forall i, inodes k !! d_dir d = Some i -> admitted k (KLookup (i_nodeid i) (d_name d))) ->
  runs (fuse_dentry_revalidate serve v get_req e) k (fun _ => settled).
Proof.
  intros Hk He Hadm. destruct (k_names _ _ _ Hk e d He) as [[dir Hdir] Hi]. unfold fuse_dentry_revalidate.
  apply runs_bind. eapply runs_dentry_at; [done |]. apply runs_bind, runs_get. cbv zeta.
  destruct (d_inode d) as [a|]; [| destruct (_ <? _); by apply runs_ret].
  destruct (Hi a eq_refl) as [i Ha]. apply runs_bind. eapply runs_inode_at; [done |].
  destruct (i_bad i); [by apply runs_ret |]. destruct (_ <? _); [| by apply runs_ret].
  apply runs_bind. eapply runs_fuse_get_req; [done | |].
  2:{ intros err Hne Hk1. replace (negb (err =? 0)) with true by lia. by apply runs_ret. }
  intros Hk1. change (negb (0 =? 0)) with false. cbv iota. apply runs_bind. eapply runs_fuse_get_req; [done | |].
  2:{ intros err Hne Hk2. replace (negb (err =? 0)) with true by lia. apply runs_bind.
      eapply runs_fuse_put_request; [done |]. intros Hk3. by apply runs_ret. }
  intros Hk2. change (negb (0 =? 0)) with false. cbv iota. change (0 + 1 + 1) with 2 in Hk2.
  apply runs_bind. eapply runs_inode_at; [exact Hdir |]. apply runs_bind.
  eapply runs_request_send; [exact Hk2 | intros id n; by eapply needs_one | by apply Hadm | intros r; by apply gets_nonneg |].
  intros r s Hk3. rewrite app_nil_r in Hk3. apply runs_bind. eapply runs_fuse_put_request; [exact Hk3 |].
  change (2 - 1) with 1. intros Hk4. cbn [gets] in Hk4. apply runs_bind. eapply runs_inode_at; [exact Ha |].
  set (k4 := add_held (-1) _) in *. assert (inodes k4 !! a = Some i) as Ha4 by done.
  assert (dentries k4 !! e = Some d) as He4 by done. clearbody k4.
  set (o := kr_entry r) in *. set (err := if _ : bool then - ENOENT else kr_error r) in *.
  assert (err = 0 -> kr_error r = 0 /\ negb (eo_nodeid o =? 0) = true) as Herr.
  { unfold err. destruct (kr_error r =? 0) eqn:E0, (eo_nodeid o =? 0); cbn [andb]; intros ?; split; done || lia. }
  destruct (Z.eqb_spec err 0) as [E|Hne]; cbn [andb].
  - destruct (Herr E) as [E0 Efound]. rewrite E0, Efound in Hk4. cbn in Hk4.
    destruct (Z.eqb_spec (eo_nodeid o) (i_nodeid i)) as [Eid|]; cbn [negb].
    + apply runs_bind. rewrite Eid in Hk4. eapply runs_nlookup; [exact Hk4 | exact Ha4 | done |]. intros j Ej Hk5.
      apply runs_bind. eapply runs_fuse_put_request; [exact Hk5 |]. change (1 - 1) with 0. intros Hk6.
      cbn [orb]. destruct (differ _ _); [by apply runs_ret |]. apply runs_bind.
      eapply runs_change_attributes; [exact Hk6 | apply lookup_insert_eq |]. intros j2 _ Hk7. apply runs_bind.
      eapply runs_fuse_change_timeout; [exact Hk7 | exact He4 |]. intros k8 Hk8 _ _. by apply runs_ret.
    + apply runs_bind. eapply runs_fuse_send_forget; [exact Hk4 | lia |]. intros k5 _ Hk5. by apply runs_ret.
  - apply runs_bind, runs_ret, runs_bind. eapply runs_fuse_put_request; [exact Hk4 |]. change (1 - 1) with 0. intros Hk5.
    apply runs_ret. by eapply settled_own.
Qed.

(** The requests that make a name. *)
Definition creates (c : Z -> bytes -> kernel_call) : Prop :=
  forall id name r, gets (c id name) r
    = if (kr_error r =? 0) && negb (eo_nodeid (kr_entry r) =? 0) then [(eo_nodeid (kr_entry r), 1)] else [].

Lemma invalid_zero id : invalid_nodeid id = false -> (id =? 0) = false.
Proof. unfold invalid_nodeid. by destruct (id =? 0). Qed.

(** The names that are held, other than [e], are there. *)
Definition holds (e : nat) (k k' : kern S) : Prop :=
  forall e' d', dentries k !! e' = Some d' -> d_held d' = true -> e' <> e -> dentries k' !! e' = Some d'.

Lemma runs_create_new_entry c e d i mode x k (Q : Z -> kern S -> Prop) :
  kinv x 1 k -> dentries k !! e = Some d -> inodes k !! d_dir d = Some i -> creates c ->
  fuse_valid_type mode = true ->
  (forall id n, (id, n) ∈ needs (c (i_nodeid i) (d_name d)) -> n <= claims (inodes k) id) ->
  admitted k (c (i_nodeid i) (d_name d)) ->
  (forall err y k', kinv (y ++ x) 0 k' -> holds e k k' -> Q err k') ->
  runs (create_new_entry serve v get_req c (d_dir d) e mode) k Q.
Proof.
  intros Hk He Hdir Hc Ht Hneed Hadm HQ. unfold create_new_entry. apply runs_bind. eapply runs_fuse_get_req; [done | |].
  2:{ intros err Hne Hk1. replace (negb (err =? 0)) with true by lia. apply runs_bind.
      eapply runs_fuse_put_request; [done |]. intros Hk2. apply runs_ret, (HQ err []); [done | by intros ? ? ?]. }
  intros Hk1. change (negb (0 =? 0)) with false. cbv iota. change (1 + 1) with 2 in Hk1. apply runs_bind.
  eapply runs_dentry_at; [exact He |]. apply runs_bind. eapply runs_inode_at; [exact Hdir |]. apply runs_bind.
  eapply runs_request_send; [exact Hk1 | exact Hneed | exact Hadm | |].
  { intros r. rewrite Hc. case_match; by repeat constructor. }
  intros r s Hk2. apply runs_bind. eapply runs_fuse_put_request; [exact Hk2 |]. change (2 - 1) with 1. intros Hk3. cbv zeta.
  set (k3 := add_held (-1) _) in *. assert (inodes k3 = inodes k) as Ei3 by done. assert (dentries k3 = dentries k) as Ed3 by done.
  clearbody k3. rewrite Hc in Hk3. set (o := kr_entry r) in *.
  assert (forall err y, kinv (y ++ x) 1 k3 -> runs (_ ← fuse_put_request; mret err) k3 Q) as Hfail.
  { intros err y Hk4. apply runs_bind. eapply runs_fuse_put_request; [exact Hk4 |]. intros Hk5. apply runs_ret. eapply HQ; [done |]. intros e' d'. cbn. by rewrite Ed3. }
  destruct (Z.eqb_spec (kr_error r) 0) as [E0|]; cbn [negb]; [| by eapply Hfail].
  destruct (invalid_nodeid _) eqn:Einv; [by eapply Hfail |]. destruct (differ _ _) eqn:Ediff; [by eapply Hfail |].
  rewrite (invalid_zero _ Einv) in Hk3. cbn [andb negb app] in Hk3. apply runs_bind.
  apply differ_spec in Ediff. eapply runs_fuse_iget; [exact Hk3 | by rewrite (valid_type_land mode) | |].
  - intros k4 Hk4 Ed4. apply runs_bind. eapply runs_fuse_send_forget; [exact Hk4 | lia |]. intros k5 E5 Hk5.
    apply runs_ret, (HQ _ []); [done |]. intros e' d'. rewrite E5. cbn. by rewrite Ed4, Ed3.
  - intros a k4 Hk4 (j & Ha & _) Ed4. apply runs_bind. eapply runs_fuse_put_request; [exact Hk4 |]. change (1 - 1) with 0. intros Hk5.
    apply runs_bind. eapply runs_inode_at; [exact Ha |]. apply runs_bind, runs_get.
    destruct (if S_ISDIR _ then _ else _) as [alias|] eqn:Ealias.
    + apply runs_bind. eapply runs_dput; [exact Hk5 |]. intros k6 Hk6 Ei6 Hkeep6. apply runs_bind.
      eapply runs_iput; [exact Hk6 | rewrite Ei6; by exists j |]. intros k7 Hk7 _ Ed7.
      apply runs_ret, (HQ _ []); [done |]. intros e' d' He' Hh' _. rewrite Ed7. apply Hkeep6; [| done]. cbn. by rewrite Ed4, Ed3.
    + apply runs_bind. assert (dentries (add_held (-1) k4) !! e = Some d) as He5 by by rewrite <- He, <- Ed3, <- Ed4.
      destruct (k_names _ _ _ Hk5 e d He5) as [Hd5 _].
      eapply runs_rename_dentry; [exact Hk5 | exact He5 | exact Hd5 | intros b [= <-]; by exists j |]. intros Hk6.
      apply runs_bind. eapply runs_fuse_change_timeout; [exact Hk6 | apply lookup_insert_eq |]. intros k7 Hk7 Hst Hd7.
      apply runs_bind. eapply runs_fuse_invalidate_attr; [exact Hk7 | by apply Hst |]. intros k8 Hk8 _ Ed8.
      apply runs_ret, (HQ _ []); [done |]. intros e' d' He' Hh' Hne. rewrite Ed8, Hd7 by done. cbn.
      rewrite lookup_insert_ne by done. by rewrite Ed4, Ed3.
Qed.

(** A new name, with nothing else to do. *)
Lemma runs_create c e d i mode k :
  settled k -> dentries k !! e = Some d -> inodes k !! d_dir d = Some i -> creates c -> fuse_valid_type mode = true ->
  needs (c (i_nodeid i) (d_name d)) = [(i_nodeid i, 1)] -> admitted k (c (i_nodeid i) (d_name d)) ->
  runs (with_req get_req (create_new_entry serve v get_req c (d_dir d) e mode)) k (fun _ => settled).
Proof.
  intros Hk He Hdir Hc Ht Hneed Hadm. eapply runs_with_req; [done | | by intros].
  intros Hk1. eapply runs_create_new_entry; [exact Hk1 | exact He | exact Hdir | done | done | | exact Hadm |].
  - intros id n. rewrite Hneed. by eapply needs_one.
  - intros err y k' Hk' _. by eapply settled_own.
Qed.

Lemma runs_fuse_link e0 d0 a i0 e d i k :
  settled k -> dentries k !! e0 = Some d0 -> d_held d0 = true -> d_inode d0 = Some a -> e0 <> e ->
  inodes k !! a = Some i0 -> dentries k !! e = Some d -> inodes k !! d_dir d = Some i ->
  admitted k (KLink (i_nodeid i0) (i_nodeid i) (d_name d)) ->
  runs (fuse_link serve v get_req a (d_dir d) e) k (fun _ => settled).
Proof.
  intros Hk He0 Hh0 Hi0 Hne Ha He Hdir Hadm. unfold fuse_link. eapply runs_with_req; [done | | by intros].
  intros Hk1. apply runs_bind. eapply runs_inode_at; [exact Ha |]. apply runs_bind.
  eapply (runs_create_new_entry (fun id name => KLink (i_nodeid i0) id name)); [exact Hk1 | exact He | exact Hdir | done | | | exact Hadm |].
  - by apply (k_live _ _ _ Hk a i0 Ha).
  - intros id n. by eapply needs_two.
  - intros err y k2 Hk2 Hhold. apply runs_bind. destruct (_ || _).
    + eapply runs_fuse_invalidate_attr; [exact Hk2 | |].
      * apply (k_names _ _ _ Hk2 e0 d0); [by apply Hhold | done].
      * intros k3 Hk3 _ _. apply runs_ret. by eapply settled_own.
    + apply runs_ret, runs_ret. by eapply settled_own.
Qed.

(** ** Removal *)

(** A request that changes nothing of the kernel's own. *)
Lemma runs_plain_request x h k c (Q : kreply -> kern S -> Prop) :
  kinv x (h + 1) k -> (forall id n, (id, n) ∈ needs c -> n <= claims (inodes k) id) -> admitted k c ->
  (forall r, gets c r = []) ->
  (forall r k', kinv x h k' -> inodes k' = inodes k -> dentries k' = dentries k -> Q r k') ->
  runs (r ← request_send serve c; _ ← fuse_put_request; mret r) k Q.
Proof.
  intros Hk Hneed Hadm Hg HQ. apply runs_bind. eapply runs_request_send; [exact Hk | exact Hneed | exact Hadm | |].
  { intros r. by rewrite Hg. }
  intros r s Hk1. rewrite Hg in Hk1. apply runs_bind. eapply runs_fuse_put_request; [exact Hk1 |]. intros Hk2.
  apply runs_ret, HQ; [| done | done]. by replace (h + 1 - 1) with h in Hk2 by lia.
Qed.

(** The same in front of a continuation. *)
Lemma runs_plain_then {A} x h k c (f : kreply -> M (kern S) A) (Q : A -> kern S -> Prop) :
  kinv x (h + 1) k -> (forall id n, (id, n) ∈ needs c -> n <= claims (inodes k) id) -> admitted k c ->
  (forall r, gets c r = []) ->
  (forall r k', kinv x h k' -> inodes k' = inodes k -> dentries k' = dentries k -> runs (f r) k' Q) ->
  runs (r ← request_send serve c; _ ← fuse_put_request; f r) k Q.
Proof.
  intros Hk Hneed Hadm Hg HQ. eapply (runs_eq_run _ ((r ← request_send serve c; _ ← fuse_put_request; mret r) ≫= f)).
  { unfold mbind, M_bind. by destruct (request_send serve c k) as [[r k1]| | |]. }
  apply runs_bind. eapply runs_plain_request; [done.. |]. exact HQ.
Qed.

Lemma runs_inode_of e d a (k : kern S) (Q : nat -> kern S -> Prop) :
  dentries k !! e = Some d -> d_inode d = Some a -> Q a k -> runs (inode_of e) k Q.
Proof. intros He Ha HQ. apply runs_bind. eapply runs_dentry_at; [done |]. by rewrite Ha. Qed.

Lemma runs_clear_nlink a x h k (Q : unit -> kern S -> Prop) :
  kinv x h k -> is_Some (inodes k !! a) ->
  (forall k', kinv x h k' -> stays k k' -> dentries k' = dentries k -> Q tt k') -> runs (clear_nlink a) k Q.
Proof. intros Hk Ha HQ. eapply runs_touch; [done | done | done |]. intros k' ? ? ? _ _. by apply HQ. Qed.

Lemma runs_fuse_unlink e d a i k :
  settled k -> dentries k !! e = Some d -> d_inode d = Some a -> inodes k !! d_dir d = Some i ->
  admitted k (KUnlink (i_nodeid i) (d_name d)) ->
  runs (fuse_unlink serve v get_req (d_dir d) e) k (fun _ => settled).
Proof.
  intros Hk He Ha Hdir Hadm. unfold fuse_unlink. eapply runs_with_req; [done | | by intros].
  intros Hk1. apply runs_bind. eapply runs_dentry_at; [exact He |]. apply runs_bind. eapply runs_inode_at; [exact Hdir |].
  eapply runs_plain_then; [exact Hk1 | intros id n; by eapply needs_one | exact Hadm | done |].
  intros r k2 Hk2 Ei Ed. cbv zeta. destruct (k_names _ _ _ Hk2 e d) as [Hd Hi]; [by rewrite Ed |]. apply runs_bind.
  destruct (kr_error r =? 0).
  - apply runs_bind. eapply runs_inode_of; [rewrite Ed; exact He | done |]. apply runs_bind.
    eapply runs_clear_nlink; [done | by apply Hi |]. intros k3 Hk3 Hst3 Ed3. apply runs_bind.
    eapply runs_fuse_invalidate_attr; [done | by apply Hst3, Hi |]. intros k4 Hk4 Hst4 Ed4. apply runs_bind.
    eapply runs_fuse_invalidate_attr; [done | by apply Hst4, Hst3 |]. intros k5 Hk5 Hst5 Ed5.
    eapply runs_fuse_invalidate_entry_cache; [done | rewrite Ed5, Ed4, Ed3, Ed; exact He |]. intros k6 Hk6 _ _.
    by apply runs_ret.
  - destruct (kr_error r =? - EINTR); [| by apply runs_ret, runs_ret].
    eapply runs_fuse_invalidate_entry; [done | rewrite Ed; exact He |]. intros k3 Hk3 _ _ _. by apply runs_ret.
Qed.

Lemma runs_fuse_rmdir e d a i k :
  settled k -> dentries k !! e = Some d -> d_inode d = Some a -> inodes k !! d_dir d = Some i ->
  admitted k (KRmdir (i_nodeid i) (d_name d)) ->
  runs (fuse_rmdir serve v get_req (d_dir d) e) k (fun _ => settled).
Proof.
  intros Hk He Ha Hdir Hadm. unfold fuse_rmdir. eapply runs_with_req; [done | | by intros].
  intros Hk1. apply runs_bind. eapply runs_dentry_at; [exact He |]. apply runs_bind. eapply runs_inode_at; [exact Hdir |].
  eapply runs_plain_then; [exact Hk1 | intros id n; by eapply needs_one | exact Hadm | done |].
  intros r k2 Hk2 Ei Ed. cbv zeta. destruct (k_names _ _ _ Hk2 e d) as [Hd Hi]; [by rewrite Ed |]. apply runs_bind.
  destruct (kr_error r =? 0).
  - apply runs_bind. eapply runs_inode_of; [rewrite Ed; exact He | done |]. apply runs_bind.
    eapply runs_clear_nlink; [done | by apply Hi |]. intros k3 Hk3 Hst3 Ed3. apply runs_bind.
    eapply runs_fuse_invalidate_attr; [done | by apply Hst3 |]. intros k4 Hk4 Hst4 Ed4.
    eapply runs_fuse_invalidate_entry_cache; [done | rewrite Ed4, Ed3, Ed; exact He |]. intros k6 Hk6 _ _.
    by apply runs_ret.
  - destruct (kr_error r =? - EINTR); [| by apply runs_ret, runs_ret].
    eapply runs_fuse_invalidate_entry; [done | rewrite Ed; exact He |]. intros k3 Hk3 _ _ _. by apply runs_ret.
Qed.

Lemma runs_fuse_rename e d a e2 d2 i i2 k :
  settled k -> dentries k !! e = Some d -> d_inode d = Some a -> dentries k !! e2 = Some d2 -> d_held d2 = true -> e2 <> e ->
  inodes k !! d_dir d = Some i -> inodes k !! d_dir d2 = Some i2 ->
  admitted k (KRename (i_nodeid i) (d_name d) (i_nodeid i2) (d_name d2)) ->
  runs (fuse_rename serve v get_req (d_dir d) e (d_dir d2) e2) k (fun _ => settled).
Proof.
  intros Hk He Ha He2 Hh2 Hne Hdir Hdir2 Hadm. unfold fuse_rename. eapply runs_with_req; [done | | by intros].
  intros Hk1. apply runs_bind. eapply runs_dentry_at; [exact He |]. apply runs_bind. eapply runs_dentry_at; [exact He2 |].
  apply runs_bind. eapply runs_inode_at; [exact Hdir |]. apply runs_bind. eapply runs_inode_at; [exact Hdir2 |].
  eapply runs_plain_then; [exact Hk1 | intros id n; by eapply needs_two | exact Hadm | done |].
  intros r k2 Hk2 Ei Ed. cbv zeta. destruct (k_names _ _ _ Hk2 e d) as [Hd Hi]; [by rewrite Ed |].
  assert (is_Some (inodes k2 !! d_dir d2)) as Hd2 by (rewrite Ei; by exists i2). apply runs_bind.
  destruct (kr_error r =? 0).
  - apply runs_bind. eapply runs_inode_of; [rewrite Ed; exact He | done |]. apply runs_bind.
    eapply runs_fuse_invalidate_attr; [done | by apply Hi |]. intros k3 Hk3 Hst3 Ed3. apply runs_bind.
    eapply runs_fuse_invalidate_attr; [done | by apply Hst3 |]. intros k4 Hk4 Hst4 Ed4. apply runs_bind.
    apply (runs_mono _ _ (fun _ k' => settled k' /\ dentries k' = dentries k4)).
    + destruct (negb _); [| by apply runs_ret].
      eapply runs_fuse_invalidate_attr; [done | by apply Hst4, Hst3 |]. by intros k5 Hk5 _ Ed5.
    + intros [] k5 [Hk5 Ed5]. destruct (d_inode d2); [| by apply runs_ret, runs_ret].
      eapply runs_fuse_invalidate_entry_cache; [done | rewrite Ed5, Ed4, Ed3, Ed; exact He2 |]. intros k6 Hk6 _ _.
      by apply runs_ret.
  - destruct (kr_error r =? - EINTR); [| by apply runs_ret, runs_ret]. apply runs_bind.
    eapply runs_fuse_invalidate_entry; [done | rewrite Ed; exact He |]. intros k3 Hk3 _ _ Hkeep.
    destruct (d_inode d2); [| by apply runs_ret, runs_ret].
    eapply runs_fuse_invalidate_entry; [done | apply Hkeep; [rewrite Ed; exact He2 | done | done] |]. intros k4 Hk4 _ _ _.
    by apply runs_ret.
Qed.

(** ** Attributes *)

Lemma runs_make_bad a x h k (Q : unit -> kern S -> Prop) :
  kinv x h k -> is_Some (inodes k !! a) -> (forall k', kinv x h k' -> stays k k' -> Q tt k') ->
  runs (change_inode a make_bad_inode) k Q.
Proof.
  intros Hk [i Ha] HQ. destruct (k_live _ _ _ Hk a i Ha) as (? & ? & ?). eapply runs_change_inode; [done |].
  apply HQ; [| by eapply stays_insert]. eapply kinv_change_same; [done | done | done | done | done | done].
Qed.

(** New attributes from a reply. *)
Lemma runs_refresh attr t a x h k (Q : unit -> kern S -> Prop) :
  kinv x h k -> is_Some (inodes k !! a) -> (forall k', kinv x h k' -> stays k k' -> Q tt k') ->
  runs (_ ← change_inode a (fuse_change_attributes attr); t ← time_to_jiffies v t; change_inode a (set_time t)) k Q.
Proof.
  intros Hk [i Ha] HQ. apply runs_bind. eapply runs_change_attributes; [done | exact Ha |]. intros j _ Hk1.
  apply runs_bind, runs_time_to_jiffies. intros z. eapply runs_touch; [exact Hk1 | cbn; rewrite lookup_insert_eq; by eexists | done |].
  intros k2 Hk2 Hst _ _ _. apply HQ; [done |]. intros b Hb. apply Hst. by eapply stays_insert.
Qed.

(** The same in front of the result. *)
Lemma runs_refresh_then attr t a err x h k (Q : Z -> kern S -> Prop) :
  kinv x h k -> is_Some (inodes k !! a) -> (forall k', kinv x h k' -> stays k k' -> Q err k') ->
  runs (_ ← change_inode a (fuse_change_attributes attr); t ← time_to_jiffies v t; _ ← change_inode a (set_time t); mret err) k Q.
Proof.
  intros Hk Ha HQ. eapply (runs_eq_run _
    ((_ ← change_inode a (fuse_change_attributes attr); t ← time_to_jiffies v t; change_inode a (set_time t)) ≫= fun _ => mret err)).
  { unfold mbind, M_bind. destruct (change_inode a (fuse_change_attributes attr) k) as [[u k1]| | |]; [| done..].
    by destruct (time_to_jiffies v t k1) as [[z k2]| | |]. }
  apply runs_bind. by eapply runs_refresh.
Qed.

Lemma runs_fuse_do_getattr a i k (Q : Z -> kern S -> Prop) :
  settled k -> inodes k !! a = Some i -> admitted k (KGetattr (i_nodeid i)) ->
  (forall err k', settled k' -> is_Some (inodes k' !! a) -> Q err k') -> runs (fuse_do_getattr serve v get_req a) k Q.
Proof.
  intros Hk Ha Hadm HQ. unfold fuse_do_getattr.
  unfold with_req. apply runs_bind. eapply runs_fuse_get_req; [done | |].
  2:{ intros err Hne Hk1. replace (negb (err =? 0)) with true by lia. apply runs_ret, HQ; [done | by exists i]. }
  intros Hk1. change (negb (0 =? 0)) with false. cbv iota. apply runs_bind. eapply runs_inode_at; [exact Ha |].
  eapply runs_plain_then; [exact Hk1 | intros id n; by eapply needs_one | exact Hadm | done |].
  intros r k2 Hk2 Ei Ed. cbv zeta. assert (inodes k2 !! a = Some i) as Ha2 by by rewrite Ei.
  destruct (negb (kr_error r =? 0)); [apply runs_ret, HQ; [done | by exists i] |]. apply runs_bind.
  eapply runs_inode_at; [exact Ha2 |]. destruct (differ _ _).
  - apply runs_bind. eapply runs_make_bad; [done | by exists i |]. intros k3 Hk3 Hst. apply runs_ret, HQ; [done |].
    apply Hst. by exists i.
  - eapply runs_refresh_then; [done | by exists i |]. intros k3 Hk3 Hst. apply HQ; [done |]. apply Hst. by exists i.
Qed.

Lemma runs_fuse_revalidate fc t a i k (Q : Z -> kern S -> Prop) :
  settled k -> inodes k !! a = Some i -> admitted k (KGetattr (i_nodeid i)) ->
  (forall err k', settled k' -> is_Some (inodes k' !! a) -> Q err k') -> runs (fuse_revalidate serve v get_req fc t a) k Q.
Proof.
  intros Hk Ha Hadm HQ. unfold fuse_revalidate. assert (is_Some (inodes k !! a)) by by exists i.
  destruct (negb _); [by apply runs_ret, HQ |]. apply runs_bind. eapply runs_inode_at; [done |]. apply runs_bind, runs_get.
  destruct (_ && _); [by apply runs_ret, HQ |]. by eapply runs_fuse_do_getattr.
Qed.

Lemma runs_fuse_getattr fc t a i k :
  settled k -> inodes k !! a = Some i -> admitted k (KGetattr (i_nodeid i)) ->
  runs (fuse_getattr serve v get_req fc t a) k (fun _ => settled).
Proof.
  intros Hk Ha Hadm. unfold fuse_getattr. apply runs_bind. eapply runs_fuse_revalidate; [done.. |].
  intros err k' Hk' [j Hj]. destruct (err =? 0); [| by apply runs_ret]. apply runs_bind. eapply runs_inode_at; [done |].
  by apply runs_ret.
Qed.

(** A request whose only result is an error, of which [ENOSYS] is remembered. *)
Lemma runs_remembered o otherwise a i c k :
  settled k -> inodes k !! a = Some i -> needs (c (i_nodeid i)) = [(i_nodeid i, 1)] -> (forall r, gets (c (i_nodeid i)) r = []) ->
  admitted k (c (i_nodeid i)) ->
  runs (with_req get_req (i ← inode_at a; r ← request_send serve (c (i_nodeid i)); _ ← fuse_put_request; remember o otherwise (kr_error r)))
    k (fun _ => settled).
Proof.
  intros Hk Ha Hneed Hg Hadm. eapply runs_with_req; [done | | by intros]. intros Hk1. apply runs_bind.
  eapply runs_inode_at; [exact Ha |].
  eapply runs_plain_then; [exact Hk1 | intros id n; rewrite Hneed; by eapply needs_one | exact Hadm | exact Hg |].
  intros r k2 Hk2 _ _. unfold remember. destruct (_ =? - ENOSYS); [| by apply runs_ret]. apply runs_bind, runs_modify, runs_ret.
  destruct Hk2. by split.
Qed.

Lemma runs_fuse_access a i mask k :
  settled k -> inodes k !! a = Some i -> admitted k (KAccess (i_nodeid i) mask) ->
  runs (fuse_access serve get_req a mask) k (fun _ => settled).
Proof.
  intros Hk Ha Hadm. unfold fuse_access. apply runs_bind, runs_get. destruct (lacks k OpAccess); [by apply runs_ret |].
  by apply (runs_remembered OpAccess 0 a i (fun id => KAccess id mask)).
Qed.

Lemma runs_fuse_setxattr a i name value flags k :
  settled k -> inodes k !! a = Some i -> admitted k (KSetxattr (i_nodeid i) name value flags) ->
  runs (fuse_setxattr serve get_req a name value flags) k (fun _ => settled).
Proof.
  intros Hk Ha Hadm. unfold fuse_setxattr. apply runs_bind, runs_get. destruct (lacks k OpSetxattr); [by apply runs_ret |].
  by apply (runs_remembered OpSetxattr (- EOPNOTSUPP) a i (fun id => KSetxattr id name value flags)).
Qed.

Lemma runs_fuse_removexattr a i name k :
  settled k -> inodes k !! a = Some i -> admitted k (KRemovexattr (i_nodeid i) name) ->
  runs (fuse_removexattr serve get_req a name) k (fun _ => settled).
Proof.
  intros Hk Ha Hadm. unfold fuse_removexattr. apply runs_bind, runs_get. destruct (lacks k OpRemovexattr); [by apply runs_ret |].
  by apply (runs_remembered OpRemovexattr (- EOPNOTSUPP) a i (fun id => KRemovexattr id name)).
Qed.

(** The requests for extended attributes. *)
Lemma runs_xattr o size a i c k :
  settled k -> inodes k !! a = Some i -> needs (c (i_nodeid i)) = [(i_nodeid i, 1)] -> (forall r, gets (c (i_nodeid i)) r = []) ->
  admitted k (c (i_nodeid i)) ->
  runs (err ← fuse_get_req get_req;
        if negb (err =? 0) then mret (err, [])
        else i ← inode_at a; r ← request_send serve (c (i_nodeid i)); ret ← xattr_result o size r; _ ← fuse_put_request; mret ret)
    k (fun _ : Z * bytes => settled).
Proof.
  intros Hk Ha Hneed Hg Hadm. apply runs_bind. eapply runs_fuse_get_req; [done | |].
  2:{ intros err Hne Hk1. replace (negb (err =? 0)) with true by lia. by apply runs_ret. }
  intros Hk1. change (negb (0 =? 0)) with false. cbv iota. apply runs_bind. eapply runs_inode_at; [exact Ha |]. apply runs_bind.
  eapply runs_request_send; [exact Hk1 | intros id n; rewrite Hneed; by eapply needs_one | exact Hadm | by intros r; rewrite Hg |].
  intros r s Hk2. rewrite Hg in Hk2. apply runs_bind.
  apply (runs_mono _ _ (fun _ k' => kinv [] 1 k')).
  - unfold xattr_result, remember. destruct (kr_error r =? 0); [by apply runs_ret |]. apply runs_bind.
    destruct (_ =? - ENOSYS); [| by apply runs_ret, runs_ret]. apply runs_bind, runs_modify, runs_ret, runs_ret.
    destruct Hk2. by split.
  - intros ret k3 Hk3. apply runs_bind. eapply runs_fuse_put_request; [exact Hk3 |]. intros Hk4. by apply runs_ret.
Qed.

Lemma runs_fuse_getxattr a i name size k :
  settled k -> inodes k !! a = Some i -> admitted k (KGetxattr (i_nodeid i) name size) ->
  runs (fuse_getxattr serve get_req a name size) k (fun _ => settled).
Proof.
  intros Hk Ha Hadm. unfold fuse_getxattr. apply runs_bind, runs_get. destruct (lacks k OpGetxattr); [by apply runs_ret |].
  by apply (runs_xattr OpGetxattr size a i (fun id => KGetxattr id name size)).
Qed.

Lemma runs_fuse_listxattr fc t a i size k :
  settled k -> inodes k !! a = Some i -> admitted k (KListxattr (i_nodeid i) size) ->
  runs (fuse_listxattr serve get_req fc t a size) k (fun _ => settled).
Proof.
  intros Hk Ha Hadm. unfold fuse_listxattr. apply runs_bind, runs_get. destruct (negb _); [by apply runs_ret |].
  destruct (lacks k OpListxattr); [by apply runs_ret |].
  by apply (runs_xattr OpListxattr size a i (fun id => KListxattr id size)).
Qed.

Lemma runs_read_link get_page a i k :
  settled k -> inodes k !! a = Some i -> admitted k (KReadlink (i_nodeid i)) ->
  runs (read_link serve get_req get_page a) k (fun _ => settled).
Proof.
  intros Hk Ha Hadm. unfold read_link. apply runs_bind. eapply runs_fuse_get_req; [done | |].
  2:{ intros err Hne Hk1. replace (negb (err =? 0)) with true by lia. by apply runs_ret. }
  intros Hk1. change (negb (0 =? 0)) with false. cbv iota. apply runs_bind, runs_get, runs_bind, runs_modify. cbv zeta.
  apply runs_bind. apply (runs_mono _ _ (fun _ k' => kinv [] 1 k' /\ is_Some (inodes k' !! a))).
  - destruct (negb _); [apply runs_ret; split; [by apply kinv_count | by exists i] |]. apply runs_bind.
    eapply runs_inode_at; [exact Ha |]. apply runs_bind.
    pose proof (kinv_count _ _ _ Hk1) as Hk2.
    eapply runs_request_send; [exact Hk2 | intros id n; by eapply needs_one | exact Hadm | by intros r |].
    intros r s Hk3. apply runs_ret. split; [exact Hk3 | by exists i].
  - intros link k2 [Hk2 Ha2]. apply runs_bind. eapply runs_fuse_put_request; [exact Hk2 |]. intros Hk3. apply runs_bind.
    eapply runs_fuse_invalidate_attr; [exact Hk3 | exact Ha2 |]. intros k4 Hk4 _ _. by apply runs_ret.
Qed.

Lemma runs_fuse_permission perm fc t a i mask asks k :
  settled k -> inodes k !! a = Some i -> admitted k (KGetattr (i_nodeid i)) -> admitted k (KAccess (i_nodeid i) mask) ->
  runs (fuse_permission serve v get_req perm fc t a mask asks) k (fun _ => settled).
Proof.
  intros Hk Ha Hg Hm. unfold fuse_permission. destruct (negb _); [by apply runs_ret |]. apply runs_bind.
  eapply runs_inode_at; [done |]. destruct (default_permissions fc).
  - cbv zeta. destruct (_ =? - EACCES); [| by apply runs_ret]. apply runs_bind. eapply runs_fuse_do_getattr; [done.. |].
    intros err k' Hk' [j Hj]. destruct (err =? 0); [| by apply runs_ret]. apply runs_bind. eapply runs_inode_at; [done |].
    by apply runs_ret.
  - destruct (_ && _); [by apply runs_ret |]. destruct asks; [by eapply runs_fuse_access | by apply runs_ret].
Qed.

Lemma runs_fuse_setattr change_ok swapfile limit fc t a i attr k :
  settled k -> inodes k !! a = Some i -> admitted k (KSetattr (i_nodeid i) (S_ISDIR (i_mode i)) attr) ->
  runs (fuse_setattr serve v get_req change_ok swapfile limit fc t a attr) k (fun _ => settled).
Proof.
  intros Hk Ha Hadm. unfold fuse_setattr. destruct (negb _); [by apply runs_ret |]. apply runs_bind.
  eapply runs_inode_at; [done |]. cbv zeta. destruct (negb _); [by apply runs_ret |]. destruct (_ && _); [by apply runs_ret |].
  destruct (_ && _); [by apply runs_ret |]. eapply runs_with_req; [done | | by intros]. intros Hk1.
  eapply runs_plain_then; [exact Hk1 | intros id n; by eapply needs_one | exact Hadm | done |].
  intros r k2 Hk2 Ei _. assert (inodes k2 !! a = Some i) as Ha2 by by rewrite Ei.
  destruct (kr_error r =? 0).
  - apply runs_bind. eapply runs_inode_at; [exact Ha2 |]. destruct (differ _ _).
    + apply runs_bind. eapply runs_make_bad; [done | by exists i |]. intros k3 Hk3 _. by apply runs_ret.
    + apply runs_bind. apply (runs_mono _ _ (fun _ k' => settled k' /\ is_Some (inodes k' !! a))).
      * destruct (negb _); [| apply runs_ret; split; [done | by exists i]].
        eapply runs_touch; [exact Hk2 | by exists i | done |]. intros k3 Hk3 Hst _ _ _. split; [done |]. apply Hst. by exists i.
      * intros [] k3 [Hk3 Ha3]. by eapply runs_refresh_then.
  - apply runs_bind. destruct (_ =? - EINTR); [| by apply runs_ret, runs_ret].
    eapply runs_fuse_invalidate_attr; [done | by exists i |]. intros k3 Hk3 _ _. by apply runs_ret.
Qed.
End Account.
