(* ===== verification/FuseAccount.v ===== *)
(** The kernel's caches as a system: what the VFS may ask for at any time, the states that
    are reached from the mount on, and the account that all of them keep. *)

From S2P Require Import Prelude.
From S2P Require Import CString.
From S2P Require Import FuseWire.
From S2P Require Import FuseWireProps.
From S2P Require Import FuseInode.
From S2P Require Import FuseInodeProps.

(** * What the VFS may ask for *)

(** The number of the directory of a name. *)
Definition parent_id {S} (k : kern S) (d : dentry) (id : Z) : Prop :=
  exists i, inodes k !! d_dir d = Some i /\ i_nodeid i = id.

Definition named {S} (k : kern S) (e : nat) (P : dentry -> Prop) : Prop := exists d, dentries k !! e = Some d /\ P d.

(** The contract of the VFS: a name that is looked up is new and held, one that is removed
    or moved stands for an inode, a target of a move is held; no operation is given a name
    or an inode that is gone. *)
Definition op_ok {S} (k : kern S) (op : vfs_op) : Prop :=
  match op with
  | Lookup e => named k e (fun d => d_held d = true /\ d_inode d = None)
  | Revalidate e | Mkdir e _ | Symlink e _ => named k e (fun _ => True)
  | Mknod e mode _ => named k e (fun _ => True) /\ fuse_valid_type mode = true
  | Link old e => named k old (fun d => d_held d = true /\ is_Some (d_inode d)) /\ named k e (fun _ => True) /\ old <> e
  | Unlink e | Rmdir e => named k e (fun d => is_Some (d_inode d))
  | Rename oldent newent =>
      named k oldent (fun d => is_Some (d_inode d)) /\ named k newent (fun d => d_held d = true) /\ newent <> oldent
  | Getattr a | Permission a _ _ | Setattr a _ _ _ | Readlink a | Setxattr a _ _ _ | Getxattr a _ _ | Listxattr a _
  | Removexattr a _ => is_Some (inodes k !! a)
  | Names m => forall e d, m !! e = Some d ->
      is_Some (inodes k !! d_dir d) /\ forall a, d_inode d = Some a -> is_Some (inodes k !! a)
  | Evict a => is_Some (inodes k !! a) /\ unused (dentries k) a = true
  | Tick _ | Unmount => True
  end.

(** [c] is a request that the operation may send. *)
Definition op_call {S} (k : kern S) (op : vfs_op) (c : kernel_call) : Prop :=
  let child (e : nat) (f : Z -> bytes -> kernel_call) :=
    exists d id, dentries k !! e = Some d /\ parent_id k d id /\ c = f id (d_name d) in
  let about (a : nat) (f : inode -> kernel_call) := exists i, inodes k !! a = Some i /\ c = f i in
  match op with
  | Lookup e | Revalidate e => child e KLookup
  | Mknod e mode rdev => child e (fun id name => KMknod id name mode rdev)
  | Mkdir e mode => child e (fun id name => KMkdir id name mode)
  | Symlink e link => child e (fun id name => KSymlink id name link)
  | Link old e => exists d0 a i, dentries k !! old = Some d0 /\ d_inode d0 = Some a /\ inodes k !! a = Some i /\
      child e (fun id name => KLink (i_nodeid i) id name)
  | Unlink e => child e KUnlink
  | Rmdir e => child e KRmdir
  | Rename oldent newent => exists d id, dentries k !! oldent = Some d /\ parent_id k d id /\
      child newent (fun newid newname => KRename id (d_name d) newid newname)
  | Getattr a => about a (fun i => KGetattr (i_nodeid i))
  | Permission a mask _ => about a (fun i => KGetattr (i_nodeid i)) \/ about a (fun i => KAccess (i_nodeid i) mask)
  | Setattr a attr _ _ => about a (fun i => KSetattr (i_nodeid i) (S_ISDIR (i_mode i)) attr)
  | Readlink a => about a (fun i => KReadlink (i_nodeid i))
  | Setxattr a name value flags => about a (fun i => KSetxattr (i_nodeid i) name value flags)
  | Getxattr a name size => about a (fun i => KGetxattr (i_nodeid i) name size)
  | Listxattr a size => about a (fun i => KListxattr (i_nodeid i) size)
  | Removexattr a name => about a (fun i => KRemovexattr (i_nodeid i) name)
  | Names _ | Evict _ | Tick _ | Unmount => False
  end.

Section System.
Context {S : Type} (serve : kernel_call -> M S kreply) (v : vfs) (get_req : nat -> Z).
Context (get_page : nat -> bool) (fc : owner) (generic_permission : inode -> Z -> Z) (change_ok : inode -> iattr -> Z).
Context (ok : S -> Prop) (owes : S -> Z -> Z -> Prop) (admits : S -> kernel_call -> Prop).

Abbreviation admitted := (admitted (serve := serve) (admits := admits)).
Abbreviation settled n := (settled (ok := ok) (owes := owes) (kept := n)).
Abbreviation run_op := (run_op serve v get_req get_page fc generic_permission change_ok).

(** The operation may run: the server admits what it asks. *)
Definition may (k : kern S) (op : vfs_op) : Prop := op_ok k op /\ forall c, op_call k op c -> admitted k c.

Definition no_inodes (s : S) : kern S := Kern ∅ ∅ [] 0 true [] 0 0 s.

(** The states from the mount on; the server knows the root. *)
Inductive reachable : kern S -> Prop :=
| mounted s mode a k :
    ok s -> owes s 1 1 -> fuse_valid_type mode = true ->
    get_root_inode v mode (no_inodes s) = Ret (Some a, k) -> reachable k
| stepped k t op k' : reachable k -> may k op -> run_op t op k = Ret (tt, k') -> reachable k'.

Context {sv : Server serve ok owes admits} {vok : VfsOk v}.

Lemma runs_ignore {kept} {A} (m : M (kern S) A) k : runs m k (fun _ => settled kept) -> runs (ignore m) k (fun _ => settled kept).
Proof. intros H. apply runs_bind. eapply runs_mono; [exact H |]. intros x k' Hk. by apply runs_ret. Qed.

Lemma runs_dir_of e d (k : kern S) (Q : nat -> kern S -> Prop) :
  dentries k !! e = Some d -> Q (d_dir d) k -> runs (dir_of e) k Q.
Proof. intros He HQ. apply runs_bind. eapply runs_dentry_at; [done |]. by apply runs_ret. Qed.

(** The directory of a name is there. *)
Lemma name_dir {kept} e d k : settled kept k -> dentries k !! e = Some d -> exists i, inodes k !! d_dir d = Some i /\ parent_id k d (i_nodeid i).
Proof. intros Hk He. destruct (k_names _ _ _ Hk e d He) as [[i Hi] _]. exists i. split; [done |]. by exists i. Qed.

Lemma name_inode {kept} e d a k : settled kept k -> dentries k !! e = Some d -> d_inode d = Some a -> is_Some (inodes k !! a).
Proof. intros Hk He. apply (k_names _ _ _ Hk e d He). Qed.

Lemma runs_run_op {kept} t op k : settled kept k -> may k op -> runs (run_op t op) k (fun _ => settled kept).
Proof.
  intros Hk [Hok Hadm].
  destruct op as [e|e|e mode rdev|e mode|e link|old e|e|e|e e2|a|a mask asks|a attr swap lim|a|a nm value fl|a nm n|a n|a nm|m|a|n|];
    cbn [FuseInode.run_op op_ok op_call] in *.
  - destruct Hok as (d & He & Hh & Hneg). destruct (name_dir e d k Hk He) as (i & Hi & Hid). apply runs_bind.
    eapply runs_dir_of; [done |]. apply runs_ignore. eapply runs_fuse_lookup; [done.. |]. apply Hadm. by exists d, (i_nodeid i).
  - destruct Hok as (d & He & _). apply runs_ignore. eapply runs_fuse_dentry_revalidate; [done.. |].
    intros i Hi. apply Hadm. exists d, (i_nodeid i). split_and!; [done | by exists i | done].
  - destruct Hok as [(d & He & _) Ht]. destruct (name_dir e d k Hk He) as (i & Hi & Hid). apply runs_bind.
    eapply runs_dir_of; [done |]. apply runs_ignore. eapply runs_create; [done | done | done | done | done | done |].
    apply Hadm. by exists d, (i_nodeid i).
  - destruct Hok as (d & He & _). destruct (name_dir e d k Hk He) as (i & Hi & Hid). apply runs_bind.
    eapply runs_dir_of; [done |]. apply runs_ignore. eapply runs_create; [done | done | done | done | done | done |].
    apply Hadm. by exists d, (i_nodeid i).
  - destruct Hok as (d & He & _). destruct (name_dir e d k Hk He) as (i & Hi & Hid). apply runs_bind.
    eapply runs_dir_of; [done |]. apply runs_ignore.
    eapply (runs_create (fun id name => KSymlink id name link)); [done | done | done | done | done | done |].
    apply Hadm. by exists d, (i_nodeid i).
  - destruct Hok as ((d0 & He0 & Hh0 & [a Ha]) & (d & He & _) & Hne).
    destruct (name_dir e d k Hk He) as (i & Hi & Hid). destruct (name_inode _ _ _ _ Hk He0 Ha) as [i0 Hi0].
    apply runs_bind. eapply runs_inode_of; [done | done |]. apply runs_bind. eapply runs_dir_of; [done |]. apply runs_ignore.
    eapply runs_fuse_link; [done | exact He0 | done | done | done | done | done | done |].
    apply Hadm. exists d0, a, i0. split_and!; [done | done | done |]. by exists d, (i_nodeid i).
  - destruct Hok as (d & He & [a Ha]). destruct (name_dir e d k Hk He) as (i & Hi & Hid). apply runs_bind.
    eapply runs_dir_of; [done |]. apply runs_ignore. eapply runs_fuse_unlink; [done.. |]. apply Hadm. by exists d, (i_nodeid i).
  - destruct Hok as (d & He & [a Ha]). destruct (name_dir e d k Hk He) as (i & Hi & Hid). apply runs_bind.
    eapply runs_dir_of; [done |]. apply runs_ignore. eapply runs_fuse_rmdir; [done.. |]. apply Hadm. by exists d, (i_nodeid i).
  - destruct Hok as ((d & He & [a Ha]) & (d2 & He2 & Hh2) & Hne). destruct (name_dir e d k Hk He) as (i & Hi & Hid).
    destruct (name_dir e2 d2 k Hk He2) as (i2 & Hi2 & Hid2). apply runs_bind. eapply runs_dir_of; [done |]. apply runs_bind.
    eapply runs_dir_of; [done |]. apply runs_ignore. eapply runs_fuse_rename; [done.. |]. apply Hadm.
    exists d, (i_nodeid i). split_and!; [done | done |]. by exists d2, (i_nodeid i2).
  - destruct Hok as [i Hi]. apply runs_ignore. eapply runs_fuse_getattr; [done.. |]. apply Hadm. by exists i.
  - destruct Hok as [i Hi]. apply runs_ignore. eapply runs_fuse_permission; [done | done | |]; apply Hadm; [left | right]; by exists i.
  - destruct Hok as [i Hi]. apply runs_ignore. eapply runs_fuse_setattr; [done.. |]. apply Hadm. by exists i.
  - destruct Hok as [i Hi]. apply runs_ignore. eapply runs_read_link; [done.. |]. apply Hadm. by exists i.
  - destruct Hok as [i Hi]. apply runs_ignore. eapply runs_fuse_setxattr; [done.. |]. apply Hadm. by exists i.
  - destruct Hok as [i Hi]. apply runs_ignore. eapply runs_fuse_getxattr; [done.. |]. apply Hadm. by exists i.
  - destruct Hok as [i Hi]. apply runs_ignore. eapply runs_fuse_listxattr; [done.. |]. apply Hadm. by exists i.
  - destruct Hok as [i Hi]. apply runs_ignore. eapply runs_fuse_removexattr; [done.. |]. apply Hadm. by exists i.
  - apply runs_modify. by apply kinv_dentries.
  - destruct Hok as [Ha Hun]. eapply runs_evict; [done.. |]. by intros k' Hk' _ _.
  - apply runs_modify. by destruct Hk.
  - apply runs_modify. by destruct Hk.
Qed.

Lemma runs_get_root_inode s mode :
  ok s -> owes s 1 1 -> fuse_valid_type mode = true -> runs (get_root_inode v mode) (no_inodes s) (fun _ => settled 0).
Proof.
  intros Hs Ho Ht. unfold get_root_inode. eapply (runs_fuse_iget (kept := 0) _ _ _ []); [| exact Ht | |].
  - split; try done.
    + intros id. change (claims _ id + pend (forgets _) id) with 0. rewrite Z.add_0_l, pend_cons. change (pend [] id) with 0.
      destruct (Z.eqb_spec 1 id) as [<-|]; [done |]. apply (sv_none (Server := sv)). simpl. lia.
    + by repeat constructor.
  - intros k' Hk' _. by eapply settled_own.
  - by intros a k' Hk' _ _.
Qed.

Lemma reachable_settled k : reachable k -> settled 0 k.
Proof.
  induction 1 as [s mode a k Hs Ho Ht E | k t op k' _ IH Hop E].
  - pose proof (runs_get_root_inode s mode Hs Ho Ht) as H. unfold runs in H. by rewrite E in H.
  - pose proof (runs_run_op t op k IH Hop) as H. unfold runs in H. by rewrite E in H.
Qed.

(** C19. The account of the caches of the kernel, over any server that answers
    and keeps count of lookups: no more is ever given back than was looked up,
    and no count wraps around; every request that is allocated is freed or kept
    for the FORGET of an inode; no two inodes of the table have the same number;
    no name refers to an inode that is gone; and every operation that the VFS
    may ask for returns, in such a state again. *)
Theorem caches_account k :
  reachable k ->
  (forall id, owes (server k) id (claims (inodes k) id + pend (forgets k) id)) /\
  held k = Z.of_nat (size (inodes k)) /\
  (forall a i, inodes k !! a = Some i -> 1 <= i_nlookup i < 2 ^ 64 /\ i_forget_req i = true) /\
  (forall a b i j, inodes k !! a = Some i -> inodes k !! b = Some j -> i_hashed i = true -> i_hashed j = true ->
     i_nodeid i = i_nodeid j -> a = b) /\
  (forall e d, dentries k !! e = Some d -> is_Some (inodes k !! d_dir d) /\
     forall a, d_inode d = Some a -> is_Some (inodes k !! a)) /\
  forall t op, may k op -> exists k', run_op t op k = Ret (tt, k') /\ reachable k'.
Proof.
  intros Hk. pose proof (reachable_settled k Hk) as Hs. pose proof (k_live _ _ _ Hs) as Hlive. split_and!.
  - intros id. pose proof (k_owes _ _ _ Hs id) as H. change (pend [] id) with 0 in H. by rewrite Z.add_0_r in H.
  - rewrite (k_held _ _ _ Hs). lia.
  - intros a i Ha. destruct (Hlive a i Ha) as (? & _ & ?). split; [| done]. split; [done |].
    pose proof (claims_one (inodes k) a i Hlive Ha). pose proof (pending_nonneg (forgets k) (i_nodeid i) (k_pending _ _ _ Hs)).
    pose proof (sv_max _ _ _ (k_ok _ _ _ Hs) (k_owes _ _ _ Hs (i_nodeid i))). change (pend [] (i_nodeid i)) with 0 in *. lia.
  - apply (k_hash _ _ _ Hs).
  - apply (k_names _ _ _ Hs).
  - intros t op Hop. pose proof (runs_run_op t op k Hs Hop) as (u & k' & E & _)%runs_eq. destruct u. exists k'.
    split; [done |]. by eapply stepped.
Qed.
End System.

(** * A plain VFS *)

(** The inode of the table with the number [id]. *)
Definition find_inode (m : gmap nat inode) (id : Z) : option nat :=
  list_find (fun p : nat * inode => i_hashed p.2 = true /\ i_nodeid p.2 = id) (map_to_list m) ≫= fun p => Some (fst (snd p)).

Definition find_alias (m : gmap nat dentry) (a : nat) : option nat :=
  list_find (fun p : nat * dentry => d_inode p.2 = Some a) (map_to_list m) ≫= fun p => Some (fst (snd p)).

(** It drops inodes when it can, keeps every name, and makes no alias. *)
Definition plain_vfs : vfs :=
  {| v_iget5 _ m id := match find_inode m id with Some a => Some (a, false) | None => Some (fresh (dom m), true) end;
     v_iput _ _ _ := true;
     v_splice _ _ e := e;
     v_alias := find_alias;
     v_invalidate m _ := m;
     v_dput m _ := m;
     v_ticks t := 100 * fst t |}.

#[export] Instance plain_vfs_ok : VfsOk plain_vfs.
Proof.
  split; cbn.
  - intros _ m id a new. unfold find_inode. destruct (list_find _ _) as [[j [b i]]|] eqn:E; cbn; intros [= <- <-].
    + apply list_find_Some in E as (Hin & [Hh Hid] & _). exists i. split_and!; [| done | done].
      by apply elem_of_map_to_list, list_elem_of_lookup_2 with j.
    + split; [apply not_elem_of_dom, is_fresh |]. intros b i Hb Hh Hid. rewrite list_find_None, Forall_forall in E.
      by apply (E (b, i)); [apply elem_of_map_to_list |].
  - intros m inode e. by left.
  - intros m a e. unfold find_alias. destruct (list_find _ _) as [[j [b d]]|] eqn:E; cbn; intros [= <-].
    apply list_find_Some in E as (Hin & Hd & _). exists d. split; [| done].
    by apply elem_of_map_to_list, list_elem_of_lookup_2 with j.
  - done.
  - done.
Qed.
