(* ===== verification/FuseBelow.v ===== *)
(** The path-based library as the server of the kernel's caches: what the kernel asks for
    is what the library allows, so that the two keep the same account of lookups. *)

From S2P Require Import Prelude.
From S2P Require Import CString.
From S2P Require Import FuseNodes.
From S2P Require Import FuseNodesSpec.
From S2P Require Import FuseTree.
From S2P Require Import FuseNodesProps.
From S2P Require Import FuseLib.
From S2P Require Import FuseLibSpec.
From S2P Require Import FuseLibProps.
From S2P Require Import FuseStack.
From S2P Require FuseWire.
From S2P Require FuseDevice.
From S2P Require FuseLowlevel.
From S2P Require FuseWireProps.
From S2P Require FuseInode.
From S2P Require FuseInodeProps.
From S2P Require FuseAccount.

#[local] Opaque table_size.

(** * The library as a server *)

(** A request whose reply the device does not take is told to the library. *)
Definition with_lost (lost : bool) (q : FuseLib.request) : FuseLib.request :=
  match q with
  | Lookup parent name _ => Lookup parent name lost
  | Mknod parent name mode rdev _ => Mknod parent name mode rdev lost
  | Mkdir parent name mode _ => Mkdir parent name mode lost
  | Symlink link parent name _ => Symlink link parent name lost
  | Link ino parent name _ => Link ino parent name lost
  | Create parent name mode fi _ => Create parent name mode fi lost
  | Open ino fi _ => Open ino fi lost
  | q => q
  end.

(** What becomes of a request: it is answered; it ends with an error before the session
    reads it; it is aborted while it is served ([set_aborted] of the device). *)
Inductive fate := Answered | Unread (err : Z) | Aborted.

Definition is_aborted (f : fate) : bool := if f is Aborted then true else false.

Definition no_attr : FuseWire.fuse_attr_out := FuseWire.AttrOut (0, 0) FuseInode.zero_attr.
Definition no_entry_out : FuseWire.fuse_entry_out := FuseWire.EntryOut 0 0 (0, 0) (0, 0) FuseInode.zero_attr.

Definition no_open : FuseWire.fuse_open_out := FuseWire.OpenOut 0 0.

Definition failed (err : Z) : FuseInode.kreply := FuseInode.KReply err no_entry_out no_attr [] 0 no_open.

(** What the caller in the kernel finds: the error as the library sends it
    ([send_reply_iov]), the attributes, the entry and
    the data. *)
Definition kreply_of (x : FuseWireProps.ll_reply) : FuseInode.kreply :=
  match x with
  | FuseWireProps.RErr err => failed (if (- err <=? -1000) || (0 <? - err) then - FuseLowlevel.ERANGE else - err)
  | FuseWireProps.REntry e => FuseInode.KReply 0 (FuseWireProps.entry_of e) no_attr [] 0 no_open
  | FuseWireProps.RCreate e fi => FuseInode.KReply 0 (FuseWireProps.entry_of e) no_attr [] 0 (FuseWireProps.open_of fi)
  | FuseWireProps.ROpen fi => FuseInode.KReply 0 no_entry_out no_attr [] 0 (FuseWireProps.open_of fi)
  | FuseWireProps.RAttr st t => FuseInode.KReply 0 no_entry_out (FuseWire.AttrOut t (FuseWireProps.attr_of st)) [] 0 no_open
  | FuseWireProps.RReadlink data | FuseWireProps.RBuf data => FuseInode.KReply 0 no_entry_out no_attr data (strlen data) no_open
  | FuseWireProps.RXattr n => FuseInode.KReply 0 no_entry_out no_attr [] n no_open
  | _ => failed 0
  end.

(** The library, and how many requests it was sent. *)
Record below (S : Type) := Below { library : lib S; requests : nat }.
Arguments Below {S}. Arguments library {S}. Arguments requests {S}.

Section Below.
Context (alloc_ok : nat -> bool) (char_value : ascii -> Z).
Context {S : Type} (ops : fuse_operations S) (conf : lib_config) (t : timeouts) (fates : nat -> fate).

Abbreviation serve_lib := (fuse_path_ops alloc_ok char_value ops conf).

Definition on_library {A} (m : M (lib S) A) : M (below S) A := fun b =>
  match m (library b) with
  | Ret (x, l) => Ret (x, Below l (requests b))
  | Exit z => Exit z
  | UB => UB
  | Hang => Hang
  end.

(** A request of the kernel; what the library does not model is undefined. *)
Definition ask_library (c : FuseWireProps.kernel_call) : M (below S) FuseInode.kreply :=
  b ← get;
  _ ← modify (fun b => Below (library b) (Datatypes.S (requests b)));
  match fates (requests b) with
  | Unread err => mret (failed err)
  | f =>
      match request_of (FuseWireProps.meant c) with
      | None => ub
      | Some q =>
          x ← on_library (serve_lib (with_lost (is_aborted f) q));
          mret (if is_aborted f then failed (- FuseDevice.EINTR) else kreply_of (reply_of t x))
      end
  end.

(** * What the kernel does not know of *)

(** The conditions of a request that are about other things than lookups: the room in the
    table, the files that are open, the sizes of buffers; and no directory is moved into
    itself. *)
Definition beyond (c : gmap nat node) (q : FuseLib.request) : Prop :=
  match q with
  | Lookup _ _ lost => roomy c /\ (negative_timeout conf = false \/ lost = false)
  | Mknod _ _ _ _ _ | Mkdir _ _ _ _ | Symlink _ _ _ _ | Link _ _ _ _ => roomy c
  | Unlink _ _ => Z.of_nat (size c) + 3 <= 2 ^ 31
  | FuseLib.Rename olddir oldname newdir _ => Z.of_nat (size c) + 3 <= 2 ^ 31 /\
      forall a n, entry c olddir oldname a -> c !! a = Some n -> nodeid n <> newdir
  | Create _ _ _ _ _ => roomy c /\ openable c
  | Open _ _ _ => openable c
  | Release ino _ => exists k o, in_use c ino k o /\ 0 < o
  | Read _ size _ _ | Getxattr _ _ size | Listxattr _ size => 0 <= size
  | FuseLib.Forget _ n => 0 < n
  | _ => True
  end.

Definition beneath_admits (b : below S) (c : FuseWireProps.kernel_call) : Prop :=
  match fates (requests b) with
  | Unread _ => forall id n, c = FuseWireProps.KForget id n -> 0 < n
  | f => exists q, request_of (FuseWireProps.meant c) = Some q /\
      beyond (contents (table (library b))) (with_lost (is_aborted f) q)
  end.

Context {answering : FileSystem ops}.

Definition beneath_ok (b : below S) : Prop :=
  lib_reachable (alloc_ok := alloc_ok) (char_value := char_value) (ops := ops) (conf := conf) (library b).

Definition beneath_owes (b : below S) : Z -> Z -> Prop := owes (contents (table (library b))).

Lemma owes_numbered c id : owes c id 1 -> numbered c id.
Proof. intros [?|(a & n & ? & ? & _)]; [lia | by exists a, n]. Qed.

Lemma owes_known c id : owes c id 1 -> known c id.
Proof. intros [?|(a & n & ? & ? & ?)]; [lia |]. exists a, n. split_and!; [done | done | lia]. Qed.

(** What the kernel may name is what the library allows. *)
Lemma beneath_allowed c call q lost :
  request_of (FuseWireProps.meant call) = Some q ->
  (forall id n, (id, n) ∈ FuseInodeProps.needs call -> owes c id n) ->
  beyond c (with_lost lost q) -> lib_allowed (conf := conf) c (with_lost lost q).
Proof.
  intros Eq Hn Hb.
  assert (forall id n l, FuseInodeProps.needs call = (id, n) :: l -> owes c id n) as H1.
  { intros id n l E. apply Hn. rewrite E. by left. }
  assert (forall p id n, FuseInodeProps.needs call = [p; (id, n)] -> owes c id n) as H2.
  { intros p id n E. apply Hn. rewrite E. by right; left. }
  destruct call; cbn in Eq, H1, H2; try (destruct isdir); try discriminate Eq;
    injection Eq as <-; cbn [with_lost lib_allowed beyond] in *;
    try (pose proof (owes_numbered _ _ (H1 _ _ _ eq_refl)) as Hnum; pose proof (owes_known _ _ (H1 _ _ _ eq_refl)) as Hk);
    try (pose proof (owes_known _ _ (H2 _ _ _ eq_refl)) as Hk2); cbn [FuseLowlevel.fi_flags] in *; try done; try by split.
  all: try by right.
  destruct (decide (ino = FUSE_ROOT_ID)) as [->|Hroot]; [by left |]. right.
  destruct (H1 _ _ _ eq_refl) as [?|(a & n & Ha & Hid & Hle)]; [lia |]. by exists a, n.
Qed.

Lemma runs_on_library {A} (m : M (lib S) A) b (Q : A -> below S -> Prop) :
  runs m (library b) (fun x l => Q x (Below l (requests b))) -> runs (on_library m) b Q.
Proof. unfold runs, on_library. by destruct (m (library b)) as [[x l]| | |]. Qed.

Abbreviation served := (FuseLibProps.served (char_value := char_value) (S := S)).

(** An entry is numbered as its node. *)
Lemma entry_number c l ino : served (bump ino 1) c l -> to_u64 ino = ino.
Proof.
  intros (c' & _ & Ht & Hk). destruct (Hk ino 0) as [Hle|(a & n & Ha & <- & _)]; [by left | |].
  - unfold bump in Hle. rewrite Z.eqb_refl in Hle. lia.
  - destruct (t_range _ _ _ Ht a n Ha). apply to_u64_id. lia.
Qed.

(** The lookup that the kernel sees in a reply is one that the library gave. *)
Definition seen (r : FuseInode.kreply) : list (Z * Z) :=
  if (FuseInode.kr_error r =? 0) && negb (FuseWire.eo_nodeid (FuseInode.kr_entry r) =? 0)
  then [(FuseWire.eo_nodeid (FuseInode.kr_entry r), 1)] else [].

Lemma seen_entry c l x e id :
  (x = ReplyEntry e \/ exists fi, x = ReplyCreate e fi) -> served (gain false x) c l ->
  FuseInodeProps.pend (seen (kreply_of (reply_of t x))) id <= gain false x id.
Proof.
  intros Hx Hs. assert (gain false x = if e_ino e =? 0 then unchanged else bump (e_ino e) 1) as Eg
    by by destruct Hx as [->|[fi ->]].
  assert (seen (kreply_of (reply_of t x)) = if to_u64 (e_ino e) =? 0 then [] else [(to_u64 (e_ino e), 1)]) as ->.
  { destruct Hx as [->|[fi ->]]; unfold seen; cbn; by destruct (to_u64 (e_ino e) =? 0). }
  rewrite Eg in *. destruct (Z.eqb_spec (e_ino e) 0) as [->|Hne]; [done |].
  rewrite (entry_number _ _ _ Hs). replace (e_ino e =? 0) with false by lia. rewrite FuseInodeProps.pend_cons.
  change (FuseInodeProps.pend [] id) with 0. unfold bump. rewrite (Z.eqb_sym id). destruct (e_ino e =? id); lia.
Qed.

Lemma seen_gain c l x id :
  served (gain false x) c l -> FuseInodeProps.pend (seen (kreply_of (reply_of t x))) id <= gain false x id.
Proof.
  intros Hs. destruct x as [err|e|a|link|fi|e fi|buf|n|st|n|n|];
    try (eapply seen_entry; [| exact Hs]; by eauto); unfold seen; cbn; done || by rewrite andb_false_r.
Qed.

Lemma reply_gets c l call q x id :
  request_of (FuseWireProps.meant call) = Some q -> beyond c (with_lost false q) ->
  served (gains (with_lost false q) x) c l ->
  FuseInodeProps.pend (FuseInodeProps.gets call (kreply_of (reply_of t x))) id <= gains (with_lost false q) x id.
Proof.
  intros Eq Hb Hs. destruct call; cbn in Eq; try (destruct isdir); try discriminate Eq;
    injection Eq as <-; cbn [with_lost gains beyond] in *; try done; try (by eapply seen_gain).
  cbn [FuseInodeProps.gets]. rewrite FuseInodeProps.pend_cons. change (FuseInodeProps.pend [] id) with 0. unfold bump.
  rewrite (Z.eqb_sym id). destruct (_ =? _); lia.
Qed.

(** A request that is aborted. *)
Lemma aborted_gets c call q x id :
  request_of (FuseWireProps.meant call) = Some q -> beyond c (with_lost true q) ->
  FuseInodeProps.pend (FuseInodeProps.gets call (failed (- FuseDevice.EINTR))) id <= gains (with_lost true q) x id.
Proof.
  intros Eq Hb. assert (gain true x = unchanged) as Hx by by destruct x.
  destruct call; cbn in Eq; try (destruct isdir); try discriminate Eq;
    injection Eq as <-; cbn [with_lost gains beyond] in *; rewrite ?Hx; try done.
  cbn [FuseInodeProps.gets]. rewrite FuseInodeProps.pend_cons. change (FuseInodeProps.pend [] id) with 0. unfold bump.
  rewrite (Z.eqb_sym id). destruct (_ =? _); lia.
Qed.

#[export] Instance library_server : FuseInodeProps.Server ask_library beneath_ok beneath_owes beneath_admits.
Proof.
  split.
  - intros b id k Hk. by left.
  - intros b id k j. apply owes_le.
  - intros b id k Hok [?|(a & n & Ha & _ & ?)]; [lia |]. destruct (lib_reachable_wf _ Hok) as [_ Ht].
    destruct (t_range _ _ _ Ht a n Ha). lia.
  - intros b id n _ Hn. unfold beneath_admits. destruct (fates (requests b)); [by eexists | by intros ? ? [= _ <-] | by eexists].
  - intros b call Hok Hneed Hadm. unfold ask_library. apply runs_bind, runs_get, runs_bind, runs_modify.
    pose proof (lib_reachable_wf _ Hok) as Hwf. unfold beneath_admits in Hadm.
    assert (forall f q, fates (requests b) = f -> request_of (FuseWireProps.meant call) = Some q ->
      beyond (contents (table (library b))) (with_lost (is_aborted f) q) ->
      (forall x, forall id l, served (gains (with_lost (is_aborted f) q) x) (contents (table (library b))) l ->
         FuseInodeProps.pend (FuseInodeProps.gets call
           (if is_aborted f then failed (- FuseDevice.EINTR) else kreply_of (reply_of t x))) id
         <= gains (with_lost (is_aborted f) q) x id) ->
      runs (x ← on_library (serve_lib (with_lost (is_aborted f) q));
            mret (if is_aborted f then failed (- FuseDevice.EINTR) else kreply_of (reply_of t x)))
        (Below (library b) (Datatypes.S (requests b)))
        (fun r b' => beneath_ok b' /\ forall id k, beneath_owes b id k ->
           beneath_owes b' id (k + FuseInodeProps.pend (FuseInodeProps.gets call r) id))) as Hserve.
    { intros f q Hf Eq Hb Hg. pose proof (beneath_allowed _ _ _ _ Eq Hneed Hb) as Hal. apply runs_bind, runs_on_library.
      cbn [library requests]. pose proof (serve_lib_served (alloc_ok := alloc_ok) (library b) _ Hwf Hal) as (x & l & E & Hs)%runs_eq.
      unfold runs at 1. rewrite E. apply runs_ret. split; [by eapply lib_serve; [| by apply lib_allowed_sent |] |].
      intros id k Hk. specialize (Hg x id l Hs). destruct Hs as (c' & Hr & _ & Hkept).
      unfold beneath_owes, contents. cbn [library]. rewrite (rep_core _ _ _ _ Hr).
      eapply owes_le; [by apply Hkept |]. lia. }
    destruct (fates (requests b)) as [|err|] eqn:Ef.
    + destruct Hadm as (q & Eq & Hb). rewrite Eq. apply (Hserve _ _ eq_refl Eq Hb). intros x id l Hs. by eapply reply_gets.
    + apply runs_ret. split; [done |]. intros id k Hk. eapply owes_le; [done |].
      enough (FuseInodeProps.pend (FuseInodeProps.gets call (failed err)) id <= 0) by lia.
      destruct call; cbn; try done; try by rewrite andb_false_r. specialize (Hadm _ _ eq_refl). destruct (_ =? _); lia.
    + destruct Hadm as (q & Eq & Hb). rewrite Eq. apply (Hserve _ _ eq_refl Eq Hb). intros x id l Hs. by eapply aborted_gets.
Qed.

(** * The kernel over the library *)

Context (v : FuseInode.vfs) (get_req : nat -> Z) (get_page : nat -> bool) (fc : FuseInode.owner).
Context (generic_permission : FuseInode.inode -> Z -> Z) (change_ok : FuseInode.inode -> FuseWire.iattr -> Z).
Context {vok : FuseInodeProps.VfsOk v}.

Definition kernel_reachable : FuseInode.kern (below S) -> Prop :=
  FuseAccount.reachable ask_library v get_req get_page fc generic_permission change_ok beneath_ok beneath_owes beneath_admits.

Definition kernel_may : FuseInode.kern (below S) -> FuseInode.vfs_op -> Prop :=
  FuseAccount.may ask_library beneath_admits.
End Below.

(** C18. The kernel over the library: from the mount on, whatever the VFS asks
    for and whichever requests are answered, never read, or aborted while they
    are served, every inode of the kernel stands for a node of the table of the
    library, which still has all the lookups that the inodes count and the
    FORGETs on their way give back; the table stays whole, and every operation
    that the VFS may ask for returns, so that the library never aborts for want
    of a node. Excluded are aborted lookups when negative replies are kept,
    which do abort the library (fuse.c:1321), a full table, and the move of a
    directory into itself; files are released only when they are open. *)
Theorem kernel_over_library {S} alloc_ok char_value (ops : fuse_operations S) conf t fates
    v get_req get_page fc generic_permission change_ok k {answering : FileSystem ops} {vok : FuseInodeProps.VfsOk v} :
  kernel_reachable alloc_ok char_value ops conf t fates v get_req get_page fc generic_permission change_ok k ->
  table_wf char_value (table (library (FuseInode.server k))) /\
  (forall a i, FuseInode.inodes k !! a = Some i -> exists b n,
     contents (table (library (FuseInode.server k))) !! b = Some n /\ nodeid n = FuseInode.i_nodeid i /\
     FuseInodeProps.claims (FuseInode.inodes k) (nodeid n) + FuseInodeProps.pend (FuseInode.forgets k) (nodeid n) <= nlookup n) /\
  forall task op, kernel_may alloc_ok char_value ops conf t fates k op -> exists k',
    FuseInode.run_op (ask_library alloc_ok char_value ops conf t fates) v get_req get_page fc generic_permission change_ok task op k
      = Ret (tt, k') /\
    kernel_reachable alloc_ok char_value ops conf t fates v get_req get_page fc generic_permission change_ok k'.
Proof.
  intros Hk. pose proof (FuseAccount.reachable_settled _ _ _ _ _ _ _ _ _ _ _ Hk) as Hs.
  pose proof (FuseInodeProps.k_live _ _ _ Hs) as Hlive. split_and!.
  - exact (lib_reachable_wf _ (FuseInodeProps.k_ok _ _ _ Hs)).
  - intros a i Ha. pose proof (FuseInodeProps.claims_one _ _ _ Hlive Ha). destruct (Hlive a i Ha) as [Hn _].
    pose proof (FuseInodeProps.pending_nonneg (FuseInode.forgets k) (FuseInode.i_nodeid i) (FuseInodeProps.k_pending _ _ _ Hs)).
    destruct (FuseInodeProps.k_owes _ _ _ Hs (FuseInode.i_nodeid i)) as [Hle|(b & n & Hb & Hid & Hle)];
      change (FuseInodeProps.pend [] _) with 0 in *; [lia |]. exists b, n. split_and!; [done | done |]. rewrite Hid. lia.
  - intros task op Hop. pose proof (FuseAccount.runs_run_op _ v get_req get_page fc generic_permission change_ok _ _ _ task op k Hs Hop) as (u & k' & E & _)%runs_eq.
    destruct u. exists k'. split; [done |]. by eapply FuseAccount.stepped.
Qed.

(** * A mount *)

#[local] Existing Instance FuseAccount.plain_vfs_ok.

(** The library without files, and a kernel with memory. *)
Definition sample_below : below unit := Below booted_lib 0.

Abbreviation sample_ask := (ask_library (fun _ => true) plain_char (answering_ops 0) (plain_config false) sample_timeouts
  (fun n => if Nat.eqb n 1 then Aborted else Answered)).

Definition kernel_of {A} (r : outcome (A * FuseInode.kern (below unit))) : FuseInode.kern (below unit) :=
  match r with Ret (_, k) => k | _ => FuseAccount.no_inodes sample_below end.

Definition sample_mounted : FuseInode.kern (below unit) :=
  kernel_of (FuseInode.get_root_inode FuseAccount.plain_vfs FuseInode.S_IFDIR (FuseAccount.no_inodes sample_below)).

Definition sample_owner : FuseInode.owner := FuseInode.Owner 1000 100 true false.
Definition sample_task : FuseInode.task := FuseInode.Task 1000 1000 1000 100 100 100.

Abbreviation sample_run := (FuseInode.run_op sample_ask FuseAccount.plain_vfs (fun _ => 0) (fun _ => true) sample_owner (fun _ _ => 0)
  (fun _ _ => 0) sample_task).

(** A process looks up [a]. *)
Definition sample_names : gmap nat FuseInode.dentry := {[0%nat := FuseInode.Dentry 0 (B "a") None 0 false true]}.
Definition sample_named : FuseInode.kern (below unit) := FuseInode.set_dentries sample_names sample_mounted.

Example sample_mount :
  FuseInode.get_root_inode FuseAccount.plain_vfs FuseInode.S_IFDIR (FuseAccount.no_inodes sample_below)
    = Ret (Some 0%nat, sample_mounted).
Proof. vm_compute. reflexivity. Qed.

(** The names after the lookup, after one that is aborted, and the lookups that the library
    has counted. *)
Example sample_lookups :
  match (_ ← sample_run (FuseInode.Lookup 0); _ ← sample_run (FuseInode.Tick 101); sample_run (FuseInode.Revalidate 0)) sample_named with
  | Ret (_, k) => Some (FuseInode.d_inode <$> (FuseInode.dentries k !! 0%nat), FuseInode.i_nlookup <$> (FuseInode.inodes k !! 1%nat),
      (fun p => (nodeid p.2, nlookup p.2)) <$> map_to_list (contents (table (library (FuseInode.server k)))))
  | _ => None
  end = Some (Some (Some 1%nat), Some 1, [(2, 1); (1, 1)]).
Proof. vm_compute. reflexivity. Qed.

Abbreviation sample_reachable := (kernel_reachable (fun _ => true) plain_char (answering_ops 0) (plain_config false)
  sample_timeouts (fun n => if Nat.eqb n 1 then Aborted else Answered) FuseAccount.plain_vfs (fun _ => 0) (fun _ => true) sample_owner
  (fun _ _ => 0) (fun _ _ => 0)).
Abbreviation sample_may := (kernel_may (fun _ => true) plain_char (answering_ops 0) (plain_config false) sample_timeouts
  (fun n => if Nat.eqb n 1 then Aborted else Answered)).

Lemma sample_mounted_reachable : sample_reachable sample_mounted.
Proof.
  eapply FuseAccount.mounted; [| | | exact sample_mount]; [| | reflexivity].
  - eapply lib_new; [| exact boot_step]. reflexivity.
  - right. exists 0%nat, root_node. change (contents (table (library sample_below))) with (contents booted).
    rewrite booted_contents. split; [reflexivity |]. split; [reflexivity |]. cbn. lia.
Qed.

Lemma sample_root_there : is_Some (FuseInode.inodes sample_mounted !! 0%nat).
Proof. vm_compute. by eexists. Qed.

Lemma sample_named_reachable : sample_reachable sample_named.
Proof.
  eapply (FuseAccount.stepped _ _ _ _ _ _ _ _ _ _ sample_mounted sample_task (FuseInode.Names sample_names));
    [exact sample_mounted_reachable | | reflexivity].
  split; [| by intros c []]. intros e d He. unfold sample_names in He. apply lookup_singleton_Some in He as [_ <-].
  split; [exact sample_root_there | done].
Qed.

Lemma sample_may_lookup : sample_may sample_named (FuseInode.Lookup 0).
Proof.
  split.
  - eexists. split; [vm_compute; reflexivity |]. by split.
  - intros c (d & id & Hd & (i & Hi & Hid) & ->). intros s Hs. injection Hs as <-.
    assert (d = FuseInode.Dentry 0 (B "a") None 0 false true) as -> by (vm_compute in Hd; by injection Hd as <-).
    assert (id = 1) as -> by (vm_compute in Hi; injection Hi as <-; by rewrite <- Hid).
    exists (Lookup 1 (B "a") false). split; [done |]. split; [| by left].
    destruct (booted_allows (B "a")) as [_ Hroom]. exact Hroom.
Qed.

Lemma kernel_over_library_witness :
  exists k', sample_run (FuseInode.Lookup 0) sample_named = Ret (tt, k') /\ sample_reachable k'.
Proof.
  destruct (kernel_over_library (fun _ => true) plain_char (answering_ops 0) (plain_config false) sample_timeouts
    (fun n => if Nat.eqb n 1 then Aborted else Answered) FuseAccount.plain_vfs (fun _ => 0) (fun _ => true) sample_owner (fun _ _ => 0)
    (fun _ _ => 0) sample_named sample_named_reachable) as (_ & _ & Hrun).
  apply (Hrun sample_task (FuseInode.Lookup 0)). exact sample_may_lookup.
Defined.

Lemma caches_account_witness :
  FuseInode.held sample_named = Z.of_nat (size (FuseInode.inodes sample_named)) /\
  exists k', sample_run (FuseInode.Lookup 0) sample_named = Ret (tt, k') /\ sample_reachable k'.
Proof.
  destruct (FuseAccount.caches_account sample_ask FuseAccount.plain_vfs (fun _ => 0) (fun _ => true) sample_owner (fun _ _ => 0) (fun _ _ => 0)
    _ _ _ sample_named sample_named_reachable) as (_ & Hheld & _ & _ & _ & Hrun).
  split; [exact Hheld |]. apply (Hrun sample_task (FuseInode.Lookup 0)). exact sample_may_lookup.
Defined.
