(* ===== verification/FuseFile.v ===== *)
(** other_fs/fuse-2.7.3/kernel/file.c and dir.c: the open files and directories of the
    kernel module, from [open] or an atomic creation to [release], with what the server gave
    for each of them; and the owners of locks. *)

From S2P Require Import Prelude.
From S2P Require Import CString.
From S2P Require Import FuseWire.
From S2P Require Import FuseWireProps.
From S2P Require Import FuseInode.
From S2P Require FuseDir.

Definition EINVAL : Z := 22.
Definition O_CREAT : Z := 64.
Definition O_EXCL : Z := 128.
Definition O_NOCTTY : Z := 256.
Definition O_TRUNC : Z := 512.
Definition O_DIRECT : Z := 16384.
Definition FOPEN_DIRECT_IO : Z := 1.

(** [flags & ~mask]. *)
Definition without (mask flags : Z) : Z := Z.land flags (Z.lnot mask).
Definition has (mask flags : Z) : bool := negb (Z.land flags mask =? 0).

(** [struct file] with its [struct fuse_file]: the inode, the flags, whether it is a
    directory, the handle of the server, and whether the page cache is passed by. *)
Record file := File { f_inode : nat; f_flags : Z; f_isdir : bool; f_fh : Z; f_direct : bool }.

Section Files.
Context {S : Type} (serve : kernel_call -> M S kreply) (v : vfs) (get_req : nat -> Z) (memory : nat -> bool).
(** [generic_file_open], which refuses large files, and the error of
    [lookup_instantiate_filp]. *)
Context (generic_file_open : inode -> Z -> Z) (instantiate : nat -> Z).

Abbreviation request_send := (request_send serve).
Abbreviation with_req := (with_req get_req).

(** ** Opening *)

Definition kmalloc : M (kern S) bool := k ← get; _ ← modify count_call; mret (memory (calls k)).

(** The block, and the request that is kept for the release. *)
Definition fuse_file_alloc : M (kern S) bool :=
  ff ← kmalloc;
  if ff : bool then
    req ← kmalloc;
    _ ← (if req : bool then modify (add_held 1) else mret tt);
    mret req
  else mret false.

Definition fuse_file_free : M (kern S) unit := fuse_put_request.

Definition fuse_send_open (a : nat) (flags : Z) (isdir : bool) : M (kern S) (Z * fuse_open_out) :=
  err ← fuse_get_req get_req;
  if negb (err =? 0) then mret (err, OpenOut 0 0)
  else
    i ← inode_at a;
    r ← request_send (KOpen (i_nodeid i) isdir (without (Z.lor O_CREAT (Z.lor O_EXCL (Z.lor O_NOCTTY O_TRUNC))) flags));
    _ ← fuse_put_request;
    mret (kr_error r, kr_open r).

(** The pages are left out. *)
Definition fuse_finish_open (a : nat) (flags : Z) (isdir : bool) (outarg : fuse_open_out) : file :=
  File a flags isdir (oo_fh outarg) (has FOPEN_DIRECT_IO (oo_flags outarg)).

(** The error, or the file. *)
Definition fuse_open_common (a : nat) (flags : Z) (isdir : bool) : M (kern S) (Z * option file) :=
  i ← inode_at a;
  let err := generic_file_open i flags in
  if has O_DIRECT flags then mret (- EINVAL, None)
  else if negb (err =? 0) then mret (err, None)
  else
    err ← (if i_nodeid i =? FUSE_ROOT_ID then fuse_do_getattr serve v get_req a else mret 0);
    if negb (err =? 0) then mret (err, None)
    else
      ff ← fuse_file_alloc;
      if negb ff then mret (- ENOMEM, None)
      else
        r ← fuse_send_open a flags isdir;
        let '(err, outarg) := r in
        if negb (err =? 0) then _ ← fuse_file_free; mret (err, None)
        else
          let outarg := if isdir then OpenOut (oo_fh outarg) (without FOPEN_DIRECT_IO (oo_flags outarg)) else outarg in
          mret (0, Some (fuse_finish_open a flags isdir outarg)).

(** ** Closing *)

(** The request that was kept; it is freed when it is answered. *)
Definition fuse_release_fill (nodeid fh flags : Z) (isdir : bool) : kernel_call := KRelease nodeid fh flags isdir.

(** In the background: the server reads it before whatever is sent later, and nobody looks
    at the answer. *)
Definition fuse_release_common (fl : file) : M (kern S) unit :=
  i ← inode_at (f_inode fl);
  _ ← request_send (fuse_release_fill (i_nodeid i) (f_fh fl) (f_flags fl) (f_isdir fl));
  fuse_put_request.

Definition fuse_sync_release (nodeid fh flags : Z) : M (kern S) unit :=
  _ ← request_send (fuse_release_fill nodeid fh flags false);
  fuse_put_request.

(** ** Creating and opening at once *)

(** [intent] is [nd->intent.open.flags]; [flags] those of the file. *)
Definition fuse_create_open (dir entry : nat) (mode intent flags : Z) : M (kern S) (Z * option file) :=
  k ← get;
  if lacks k OpCreate then mret (- ENOSYS, None)
  else
    err ← fuse_get_req get_req;
    if negb (err =? 0) then mret (err, None)
    else
      err ← fuse_get_req get_req;
      if negb (err =? 0) then _ ← fuse_put_request; mret (err, None)
      else
        ff ← fuse_file_alloc;
        if negb ff then _ ← fuse_put_request; _ ← fuse_put_request; mret (- ENOMEM, None)
        else
          let out_free_ff (err : Z) : M (kern S) (Z * option file) :=
            _ ← fuse_file_free; _ ← fuse_put_request; _ ← fuse_put_request; mret (err, None) in
          let oflags := without O_NOCTTY (intent - 1) in
          d ← dentry_at entry;
          i ← inode_at dir;
          r ← request_send (KCreate (i_nodeid i) (d_name d) oflags mode);
          let outentry := kr_entry r in
          if negb (kr_error r =? 0) then
            _ ← (if kr_error r =? - ENOSYS then modify (add_missing OpCreate) else mret tt);
            out_free_ff (kr_error r)
          else if negb (S_ISREG (a_mode (eo_attr outentry))) || invalid_nodeid (eo_nodeid outentry) then out_free_ff (- EIO)
          else
            _ ← fuse_put_request;
            inode ← fuse_iget v (eo_nodeid outentry) (eo_generation outentry) (eo_attr outentry);
            match inode with
            | None =>
                _ ← fuse_sync_release (eo_nodeid outentry) (oo_fh (kr_open r)) (without (Z.lor O_CREAT (Z.lor O_EXCL O_TRUNC)) oflags);
                _ ← fuse_send_forget (eo_nodeid outentry) 1;
                mret (- ENOMEM, None)
            | Some a =>
                _ ← fuse_put_request;
                _ ← d_instantiate entry (Some a);
                _ ← fuse_invalidate_attr dir;
                _ ← fuse_change_timeout v entry outentry;
                k ← get;
                _ ← modify count_call;
                let err := instantiate (calls k) in
                if negb (err =? 0) then
                  _ ← fuse_sync_release (eo_nodeid outentry) (oo_fh (kr_open r)) oflags;
                  mret (err, None)
                else mret (0, Some (fuse_finish_open a flags false (kr_open r)))
            end.

(** [open] says that the name is created to be opened. *)
Definition fuse_create (dir entry : nat) (mode : Z) (open : option (Z * Z)) : M (kern S) (Z * option file) :=
  let mknod := err ← fuse_mknod serve v get_req dir entry mode 0; mret (err, None) in
  match open with
  | Some (intent, flags) =>
      r ← fuse_create_open dir entry mode intent flags;
      if fst r =? - ENOSYS then mknod else mret r
  | None => mknod
  end.

(** ** Open files *)

Definition u32_add (a b : Z) : Z := to_u32 (a + b).

(** [((v << 4 ^ v >> 5) + v) ^ (sum + key)], of 32 bits. *)
Definition mix (v sum key : Z) : Z :=
  Z.lxor (u32_add (Z.lxor (to_u32 (Z.shiftl v 4)) (Z.shiftr v 5)) v) (u32_add sum key).

(** The loop of XTEA, with the key [k] of four words. *)
Fixpoint scramble (k : Z -> Z) (n : nat) (v0 v1 sum : Z) : Z * Z :=
  match n with
  | O => (v0, v1)
  | Datatypes.S n =>
      let v0 := u32_add v0 (mix v1 sum (k (Z.land sum 3))) in
      let sum := u32_add sum 2654435769 in
      let v1 := u32_add v1 (mix v0 sum (k (Z.land (Z.shiftr sum 11) 3))) in
      scramble k n v0 v1 sum
  end.

Definition fuse_lock_owner_id (k : Z -> Z) (id : Z) : Z :=
  let '(v0, v1) := scramble k 32 (to_u32 id) (to_u32 (Z.shiftr id 32)) 0 in
  v0 + Z.shiftl v1 32.

(** A request in any case: without memory for one, that of the file is borrowed. *)
Definition fuse_get_req_nofail : M (kern S) bool :=
  req ← kmalloc;
  _ ← (if req : bool then modify (add_held 1) else mret tt);
  mret req.

Definition put_nofail (own : bool) : M (kern S) unit := if own then fuse_put_request else mret tt.

Definition fuse_flush (key : Z -> Z) (fl : file) (id : Z) : M (kern S) Z :=
  i ← inode_at (f_inode fl);
  k ← get;
  if i_bad i then mret (- EIO)
  else if lacks k OpFlush then mret 0
  else
    req ← fuse_get_req_nofail;
    r ← request_send (KFlush (i_nodeid i) (f_fh fl) (fuse_lock_owner_id key id));
    _ ← put_nofail req;
    remember OpFlush 0 (kr_error r).

Definition fuse_fsync_common (fl : file) (datasync : bool) : M (kern S) Z :=
  i ← inode_at (f_inode fl);
  k ← get;
  let op := if f_isdir fl then OpFsyncdir else OpFsync in
  if i_bad i then mret (- EIO)
  else if lacks k op then mret 0
  else
    with_req (
      r ← request_send (KFsync (i_nodeid i) (f_fh fl) datasync (f_isdir fl));
      _ ← fuse_put_request;
      remember op 0 (kr_error r)).

(** An error, the new position and the destination; [parse_dirfile] gets the bytes of the
    page that the server has filled. *)
Definition fuse_readdir {D} (filldir : D -> bytes -> Z -> Z -> Z -> D * bool) (fl : file) (f_pos : Z) (dst : D)
  : M (kern S) (Z * Z * D) :=
  i ← inode_at (f_inode fl);
  if i_bad i then mret (- EIO, f_pos, dst)
  else
    err ← fuse_get_req get_req;
    if negb (err =? 0) then mret (err, f_pos, dst)
    else
      page ← kmalloc;
      if negb page then _ ← fuse_put_request; mret (- ENOMEM, f_pos, dst)
      else
        r ← request_send (KRead (i_nodeid i) (f_fh fl) f_pos FuseDir.PAGE_SIZE true);
        _ ← fuse_put_request;
        res ← (if kr_error r =? 0
               then FuseDir.parse_dirfile filldir (Datatypes.S (length (kr_data r))) (kr_data r) f_pos dst
               else mret (kr_error r, f_pos, dst));
        _ ← fuse_invalidate_attr (f_inode fl);
        mret res.
End Files.

(** * The kernel with its open files *)

Record fkern (S : Type) := FKern { core : kern S; files : gmap nat file }.
Arguments FKern {S}. Arguments core {S}. Arguments files {S}.

(** The operations on files, with the number of the file, and those on names and inodes. *)
Inductive file_op :=
| FOpen (f a : nat) (flags : Z) (isdir : bool)
| FCreate (f entry : nat) (mode : Z) (open : option (Z * Z))
| FRelease (f : nat)
| FFlush (f : nat) (id : Z)
| FFsync (f : nat) (datasync : bool)
| FReaddir (f : nat) (f_pos : Z)
| Core (op : vfs_op).

Section System.
Context {S : Type} (serve : kernel_call -> M S kreply) (v : vfs) (get_req : nat -> Z) (memory : nat -> bool).
Context (generic_file_open : inode -> Z -> Z) (instantiate : nat -> Z) (key : Z -> Z).
Context (get_page : nat -> bool) (fc : owner) (generic_permission : inode -> Z -> Z) (change_ok : inode -> iattr -> Z).
Context {D : Type} (filldir : D -> bytes -> Z -> Z -> Z -> D * bool) (dst : D).

Definition on_core {A} (m : M (kern S) A) : M (fkern S) A := fun k =>
  match m (core k) with
  | Ret (x, c) => Ret (x, FKern c (files k))
  | Exit z => Exit z
  | UB => UB
  | Hang => Hang
  end.

Definition file_at (f : nat) : M (fkern S) file :=
  k ← get; match files k !! f with Some fl => mret fl | None => ub end.

Definition set_files m (k : fkern S) : fkern S := FKern (core k) m.

(** The file that was opened gets the number [f]. *)
Definition keep_file (f : nat) (r : Z * option file) : M (fkern S) Z :=
  _ ← match r.2 with
      | Some fl => modify (fun k => set_files (<[f := fl]> (files k)) k)
      | None => mret tt
      end;
  mret r.1.

Definition run_file (t : task) (op : file_op) : M (fkern S) unit :=
  match op with
  | FOpen f a flags isdir =>
      r ← on_core (fuse_open_common serve v get_req memory generic_file_open a flags isdir);
      _ ← keep_file f r; mret tt
  | FCreate f entry mode open =>
      dir ← on_core (dir_of entry);
      r ← on_core (fuse_create serve v get_req memory instantiate dir entry mode open);
      _ ← keep_file f r; mret tt
  | FRelease f =>
      fl ← file_at f;
      _ ← on_core (fuse_release_common serve fl);
      modify (fun k => set_files (delete f (files k)) k)
  | FFlush f id => fl ← file_at f; _ ← on_core (fuse_flush serve memory key fl id); mret tt
  | FFsync f datasync => fl ← file_at f; _ ← on_core (fuse_fsync_common serve get_req fl datasync); mret tt
  | FReaddir f f_pos => fl ← file_at f; _ ← on_core (fuse_readdir serve get_req memory filldir fl f_pos dst); mret tt
  | Core op => on_core (run_op serve v get_req get_page fc generic_permission change_ok t op)
  end.
End System.
