(* ===== verification/FuseFileProps.v ===== *)
(** The account of the open files of the kernel module: over any server that keeps the
    handles that it gives, each of them is used while it is open, and released once. *)

From stdpp Require Import gmultiset.
From S2P Require Import Prelude.
From S2P Require Import CString.
From S2P Require Import FuseWire.
From S2P Require Import FuseWireProps.
From S2P Require Import FuseInode.
From S2P Require Import FuseInodeProps.
From S2P Require Import FuseAccount.
From S2P Require Import FuseFile.
From S2P Require FuseDir.
From S2P Require FuseDirProps.

(** * The owners of locks *)

Lemma u32_range z : 0 <= to_u32 z < 2 ^ 32.
Proof. apply Z.mod_pos_bound. lia. Qed.

Lemma u32_add_inj a b c : 0 <= a < 2 ^ 32 -> 0 <= b < 2 ^ 32 -> u32_add a c = u32_add b c -> a = b.
Proof.
  intros Ha Hb E. unfold u32_add, to_u32, to_unsigned in E.
  assert ((a - b) mod 2 ^ 32 = 0) as H.
  { replace (a - b) with ((a + c) - (b + c)) by lia. by rewrite Zminus_mod, E, Z.sub_diag. }
  apply Z.mod_divide in H as [q Hq]; [| lia]. nia.
Qed.

Lemma scramble_inj k n v0 v1 w0 w1 sum :
  0 <= v0 < 2 ^ 32 -> 0 <= v1 < 2 ^ 32 -> 0 <= w0 < 2 ^ 32 -> 0 <= w1 < 2 ^ 32 ->
  scramble k n v0 v1 sum = scramble k n w0 w1 sum -> v0 = w0 /\ v1 = w1.
Proof.
  revert v0 v1 w0 w1 sum. induction n as [|n IH]; intros v0 v1 w0 w1 sum H0 H1 H2 H3; cbn [scramble]; cbv zeta.
  { by intros [= -> ->]. }
  intros E. apply IH in E as [E0 E1]; [| apply u32_range..]. rewrite E0 in E1.
  apply u32_add_inj in E1 as ->; [| done | done]. by apply u32_add_inj in E0 as ->.
Qed.

Lemma scramble_range k n v0 v1 sum :
  0 <= v0 < 2 ^ 32 -> 0 <= v1 < 2 ^ 32 ->
  0 <= fst (scramble k n v0 v1 sum) < 2 ^ 32 /\ 0 <= snd (scramble k n v0 v1 sum) < 2 ^ 32.
Proof.
  revert v0 v1 sum. induction n as [|n IH]; intros v0 v1 sum H0 H1; [done |]. cbn [scramble]. cbv zeta.
  apply IH; apply u32_range.
Qed.

(** C35. The owners of locks that the kernel shows to the server, scrambled by
    32 rounds of XTEA on 32-bit words that wrap around, are of 64 bits, and
    different for different processes, whatever the key. *)
Theorem lock_owners_distinct k a b :
  0 <= a < 2 ^ 64 -> 0 <= b < 2 ^ 64 ->
  0 <= fuse_lock_owner_id k a < 2 ^ 64 /\ (fuse_lock_owner_id k a = fuse_lock_owner_id k b -> a = b).
Proof.
  intros Ha Hb. unfold fuse_lock_owner_id.
  pose proof (scramble_range k 32 (to_u32 a) (to_u32 (Z.shiftr a 32)) 0 (u32_range _) (u32_range _)) as [H0 H1].
  pose proof (scramble_range k 32 (to_u32 b) (to_u32 (Z.shiftr b 32)) 0 (u32_range _) (u32_range _)) as [H2 H3].
  destruct (scramble k 32 (to_u32 a) _ 0) as [v0 v1] eqn:Ea, (scramble k 32 (to_u32 b) _ 0) as [w0 w1] eqn:Eb.
  cbn [fst snd] in *. rewrite !Z.shiftl_mul_pow2 by lia. split; [nia |]. intros E.
  assert (v0 = w0 /\ v1 = w1) as [-> ->] by nia. rewrite <- Eb in Ea.
  apply scramble_inj in Ea as [E0 E1]; [| apply u32_range..]. unfold to_u32, to_unsigned in *.
  rewrite !Z.shiftr_div_pow2 in E1 by lia. rewrite (Z.mod_small (a / 2 ^ 32)), (Z.mod_small (b / 2 ^ 32)) in E1
    by (split; [apply Z.div_pos | apply Z.div_lt_upper_bound]; lia).
  rewrite (Z.div_mod a (2 ^ 32)), (Z.div_mod b (2 ^ 32)) by lia. lia.
Qed.

Lemma lock_owners_distinct_witness :
  0 <= fuse_lock_owner_id (fun i => i) 12345 < 2 ^ 64 /\
  (fuse_lock_owner_id (fun i => i) 12345 = fuse_lock_owner_id (fun i => i) 12346 -> 12345 = 12346).
Proof. apply lock_owners_distinct; lia. Defined.

(** * Servers that open files *)

(** A file or directory that is open: the node, the handle of the server, which of the two. *)
Definition handle : Type := Z * Z * bool.

(** The handle that a request names. *)
Definition uses (c : kernel_call) : option handle :=
  match c with
  | KRead id fh _ _ isdir | KRelease id fh _ isdir | KFsync id fh _ isdir => Some (id, fh, isdir)
  | KWrite id fh _ _ | KFlush id fh _ | KGetlk id fh _ _ _ _ | KSetlk id fh _ _ _ _ _ _ => Some (id, fh, false)
  | _ => None
  end.

(** The handles that are open after a request. *)
Definition after (c : kernel_call) (r : kreply) (hs : gmultiset handle) : gmultiset handle :=
  match c with
  | KOpen id isdir _ => if kr_error r =? 0 then {[+ (id, oo_fh (kr_open r), isdir) +]} ⊎ hs else hs
  | KCreate _ _ _ _ =>
      if kr_error r =? 0 then {[+ (eo_nodeid (kr_entry r), oo_fh (kr_open r), false) +]} ⊎ hs else hs
  | KRelease id fh _ isdir => hs ∖ {[+ (id, fh, isdir) +]}
  | _ => hs
  end.

(** What the kernel relies on, with the handles of a server [handles]: besides the lookups,
    that an open file can be used, and is closed by its release. *)
Class OpenServer {S} (serve : kernel_call -> M S kreply) (ok : S -> Prop) (owes : S -> Z -> Z -> Prop)
  (admits : S -> kernel_call -> Prop) (handles : S -> gmultiset handle) : Prop := {
  os_none s id k : k <= 0 -> owes s id k;
  os_le s id k j : owes s id k -> j <= k -> owes s id j;
  os_max s id k : ok s -> owes s id k -> k < 2 ^ 64;
  os_forget s id n : ok s -> 0 < n -> admits s (KForget id n);
  os_serve s c : ok s -> (forall id n, (id, n) ∈ needs c -> owes s id n) -> admits s c ->
    (forall h, uses c = Some h -> h ∈ handles s) ->
    runs (serve c) s (fun r s' => ok s' /\ (forall id k, owes s id k -> owes s' id (k + pend (gets c r) id)) /\
      handles s' = after c r (handles s)) }.

(** Requests that neither open nor close. *)
Definition plain (c : kernel_call) : bool :=
  match c with KOpen _ _ _ | KCreate _ _ _ _ | KRelease _ _ _ _ => false | _ => true end.

Lemma after_plain c r hs : plain c = true -> after c r hs = hs.
Proof. by destruct c. Qed.

(** ** Computations that leave the numbers of the inodes and the places of the names *)

Definition ids {S} (k k' : kern S) : Prop :=
  (forall a id, stands k a id -> stands k' a id) /\
  forall e a, named k e (fun d => d_dir d = a) -> named k' e (fun d => d_dir d = a).
Definition keeps {S A} (m : M (kern S) A) : Prop := forall k x k', m k = Ret (x, k') -> ids k k'.

Create HintDb keeps.

Section Keeps.
Context {S : Type}.
Implicit Types k : kern S.

Lemma ids_same k k' : inodes k' = inodes k -> dentries k' = dentries k -> ids k k'.
Proof. intros E E'. unfold ids, stands, named. by rewrite E, E'. Qed.

Lemma ids_trans k k1 k2 : ids k k1 -> ids k1 k2 -> ids k k2.
Proof. intros [H1 H2] [H3 H4]. split; auto. Qed.

Lemma keeps_ret {A} (x : A) : keeps (S := S) (mret x).
Proof. intros k y k' [= _ <-]. by apply ids_same. Qed.

Lemma keeps_bind {A C} (m : M (kern S) A) (f : A -> M (kern S) C) : keeps m -> (forall x, keeps (f x)) -> keeps (m ≫= f).
Proof.
  intros Hm Hf k y k' E. unfold mbind, M_bind in E. destruct (m k) as [[x k1]| | |] eqn:E1; try done.
  eapply ids_trans; [by eapply Hm | by eapply Hf].
Qed.

Lemma keeps_if {A} (b : bool) (m m' : M (kern S) A) : keeps m -> keeps m' -> keeps (if b then m else m').
Proof. by destruct b. Qed.

Lemma keeps_modify (f : kern S -> kern S) : (forall k, inodes (f k) = inodes k /\ dentries (f k) = dentries k) -> keeps (modify f).
Proof. intros Hf k x k' [= _ <-]. by apply ids_same; apply Hf. Qed.

Lemma keeps_read {A} (m : M (kern S) A) : (forall k x k', m k = Ret (x, k') -> k' = k) -> keeps m.
Proof. intros Hm k x k' ->%Hm. by apply ids_same. Qed.

Lemma keeps_get : keeps (get (S := kern S)).
Proof. apply keeps_read. by intros k x k' [= _ <-]. Qed.

Lemma keeps_inode_at a : keeps (S := S) (inode_at a).
Proof.
  apply keeps_read. intros k x k'. unfold inode_at, get, mbind, M_bind. destruct (inodes k !! a); by intros [= _ <-].
Qed.

Lemma keeps_dentry_at e : keeps (S := S) (dentry_at e).
Proof.
  apply keeps_read. intros k x k'. unfold dentry_at, get, mbind, M_bind. destruct (dentries k !! e); by intros [= _ <-].
Qed.

Lemma keeps_change_inode a f : (forall i, i_nodeid (f i) = i_nodeid i) -> keeps (S := S) (change_inode a f).
Proof.
  intros Hf k x k'. unfold change_inode, inode_at, get, mbind, M_bind. destruct (inodes k !! a) as [i|] eqn:Ha; [| done].
  intros [= _ <-]. split; [| done]. intros b id (j & Hj & Hid). destruct (decide (a = b)) as [<-|Hne].
  - exists (f i). cbn. rewrite lookup_insert_eq. simplify_eq. by rewrite Hf.
  - exists j. cbn. by rewrite lookup_insert_ne.
Qed.

Lemma keeps_change_dentry e f : (forall d, d_dir (f d) = d_dir d) -> keeps (S := S) (change_dentry e f).
Proof.
  intros Hf k x k'. unfold change_dentry, dentry_at, get, mbind, M_bind. destruct (dentries k !! e) as [d|] eqn:He; [| done].
  intros [= _ <-]. split; [done |]. intros e' a (d' & Hd & Ha). unfold named. cbn. destruct (decide (e = e')) as [<-|Hne].
  - exists (f d). rewrite lookup_insert_eq. simplify_eq. by rewrite Hf.
  - exists d'. by rewrite lookup_insert_ne.
Qed.

Lemma runs_keeps {A} (m : M (kern S) A) k Q : keeps m -> runs m k Q -> runs m k (fun x k' => Q x k' /\ ids k k').
Proof. intros Hm H. apply runs_eq in H as (x & k' & E & H). unfold runs. rewrite E. split; [done |]. by eapply Hm. Qed.
End Keeps.

#[export] Hint Resolve keeps_ret keeps_get keeps_inode_at keeps_dentry_at : keeps.

(** Follows a computation down to its steps. *)
Ltac keeps :=
  repeat first
    [ progress intros
    | solve [auto with keeps]
    | apply keeps_change_inode; done
    | apply keeps_change_dentry; done
    | apply keeps_modify; done
    | apply keeps_bind
    | apply keeps_if
    | case_match ].

Section Steps.
Context {S : Type} {serve : kernel_call -> M S kreply} {v : vfs} {get_req : nat -> Z} {memory : nat -> bool}.

Lemma keeps_ask c : keeps (ask serve c).
Proof.
  intros k x k'. unfold ask. destruct (serve c (server k)) as [[r s]| | |]; intros [= _ <-]. by apply ids_same.
Qed.

Lemma keeps_send_forgets l : keeps (send_forgets serve l).
Proof. induction l as [|[id n] l IH]; cbn [send_forgets]; [apply keeps_ret | apply keeps_bind; [apply keeps_ask | done]]. Qed.
Hint Resolve keeps_ask keeps_send_forgets : keeps.

Lemma keeps_request_send c : keeps (request_send serve c).
Proof. unfold request_send. keeps. Qed.

Lemma keeps_fuse_get_req : keeps (S := S) (fuse_get_req get_req).
Proof. unfold fuse_get_req. keeps. Qed.

Lemma keeps_fuse_put_request : keeps (S := S) fuse_put_request.
Proof. unfold fuse_put_request. keeps. Qed.
Hint Resolve keeps_request_send keeps_fuse_get_req keeps_fuse_put_request : keeps.

Lemma keeps_with_req m : keeps (S := S) m -> keeps (with_req get_req m).
Proof. intros Hm. unfold with_req. keeps. Qed.

Lemma keeps_time_to_jiffies t : keeps (S := S) (time_to_jiffies v t).
Proof. unfold time_to_jiffies. keeps. Qed.

Lemma keeps_fuse_invalidate_attr a : keeps (S := S) (fuse_invalidate_attr a).
Proof. unfold fuse_invalidate_attr. keeps. Qed.

Hint Resolve keeps_time_to_jiffies keeps_fuse_invalidate_attr : keeps.

Lemma keeps_fuse_change_timeout e o : keeps (S := S) (fuse_change_timeout v e o).
Proof. unfold fuse_change_timeout. keeps. Qed.

Lemma keeps_d_instantiate e a : keeps (S := S) (d_instantiate e a).
Proof. unfold d_instantiate. keeps. Qed.

Lemma keeps_fuse_do_getattr a : keeps (fuse_do_getattr serve v get_req a).
Proof. unfold fuse_do_getattr. apply keeps_with_req. keeps. Qed.

Lemma keeps_remember o otherwise err : keeps (S := S) (remember o otherwise err).
Proof. unfold remember. keeps. Qed.

Lemma keeps_kmalloc : keeps (S := S) (kmalloc memory).
Proof. unfold kmalloc. keeps. Qed.
Hint Resolve keeps_fuse_change_timeout keeps_d_instantiate keeps_fuse_do_getattr keeps_remember keeps_kmalloc : keeps.

Lemma keeps_fuse_open_common gfo a flags isdir : keeps (fuse_open_common serve v get_req memory gfo a flags isdir).
Proof. unfold fuse_open_common, fuse_file_alloc, fuse_send_open, fuse_file_free. keeps. Qed.

Lemma keeps_fuse_release_common fl : keeps (fuse_release_common serve fl).
Proof. unfold fuse_release_common. keeps. Qed.

Lemma keeps_fuse_flush key fl id : keeps (fuse_flush serve memory key fl id).
Proof. unfold fuse_flush, fuse_get_req_nofail, put_nofail. keeps. Qed.

Lemma keeps_fuse_fsync_common fl d : keeps (fuse_fsync_common serve get_req fl d).
Proof. unfold fuse_fsync_common. keeps. Qed.

Lemma keeps_parse {D} (filldir : D -> bytes -> Z -> Z -> Z -> D * bool) fuel buf f_pos dst :
  keeps (S := S) (FuseDir.parse_dirfile filldir fuel buf f_pos dst).
Proof.
  revert buf f_pos dst. induction fuel as [|fuel IH]; intros buf f_pos dst; cbn [FuseDir.parse_dirfile]; [done |]. keeps.
Qed.
Hint Resolve keeps_parse : keeps.

Lemma keeps_fuse_readdir {D} (filldir : D -> bytes -> Z -> Z -> Z -> D * bool) fl f_pos dst :
  keeps (fuse_readdir serve get_req memory filldir fl f_pos dst).
Proof. unfold fuse_readdir. keeps. Qed.
End Steps.

(** * The account *)

(** The handles of the open files, by the nodes of their inodes. *)
Definition handle_of (m : gmap nat inode) (fl : file) : handle :=
  (from_option i_nodeid 0 (m !! f_inode fl), f_fh fl, f_isdir fl).

Definition opened (m : gmap nat inode) (fs : gmap nat file) : gmultiset handle :=
  map_fold (fun _ fl acc => {[+ handle_of m fl +]} ⊎ acc) ∅ fs.

Lemma opened_insert m fs f fl : fs !! f = None -> opened m (<[f := fl]> fs) = {[+ handle_of m fl +]} ⊎ opened m fs.
Proof. intros Hf. unfold opened. rewrite map_fold_insert_L; [done | intros; multiset_solver | done]. Qed.

Lemma opened_delete m fs f fl : fs !! f = Some fl -> opened m fs = {[+ handle_of m fl +]} ⊎ opened m (delete f fs).
Proof. intros Hf. rewrite <- (insert_delete_id fs f fl Hf) at 1. apply opened_insert, lookup_delete_eq. Qed.

Lemma opened_in m fs f fl : fs !! f = Some fl -> handle_of m fl ∈ opened m fs.
Proof. intros Hf. rewrite (opened_delete m fs f fl Hf). multiset_solver. Qed.

Lemma opened_same m m' fs :
  (forall f fl, fs !! f = Some fl -> handle_of m' fl = handle_of m fl) -> opened m' fs = opened m fs.
Proof.
  induction fs as [|f fl fs Hf IH] using map_ind; [done |]. intros H. rewrite !opened_insert by done.
  rewrite (H f fl (lookup_insert_eq _ _ _)), IH; [done |]. intros g gl Hg. apply (H g).
  rewrite lookup_insert_ne by congruence. done.
Qed.

Lemma handle_stands {S} (k k' : kern S) fl :
  is_Some (inodes k !! f_inode fl) -> ids k k' ->
  is_Some (inodes k' !! f_inode fl) /\ handle_of (inodes k') fl = handle_of (inodes k) fl.
Proof.
  intros [i Hi] [Hids _]. destruct (Hids (f_inode fl) (i_nodeid i)) as (j & Hj & Hid); [by exists i |].
  split; [by exists j |]. unfold handle_of. rewrite Hi, Hj. cbn. by rewrite Hid.
Qed.

Lemma le_value_nonneg b : 0 <= FuseDir.le_value b.
Proof. induction b as [|c b IH]; cbn [FuseDir.le_value]; [lia |]. unfold code. lia. Qed.

Lemma dirent_size_pos buf : 0 < FuseDir.FUSE_DIRENT_SIZE (FuseDir.load_dirent buf).
Proof.
  unfold FuseDir.FUSE_DIRENT_SIZE, FuseDir.FUSE_NAME_OFFSET. rewrite FuseDirProps.dirent_align.
  cbn [FuseDir.namelen FuseDir.load_dirent]. pose proof (le_value_nonneg (take 4 (drop 16 buf))).
  enough (3 <= (24 + FuseDir.le_value (take 4 (drop 16 buf)) + 7) / 8) by lia. apply Z.div_le_lower_bound; lia.
Qed.

Section Account.
Context {S : Type} {serve : kernel_call -> M S kreply} {v : vfs} {get_req : nat -> Z} {memory : nat -> bool}.
Context {generic_file_open : inode -> Z -> Z} {instantiate : nat -> Z}.
Context {ok : S -> Prop} {owes : S -> Z -> Z -> Prop} {admits : S -> kernel_call -> Prop} {handles : S -> gmultiset handle}.
Context {os : OpenServer serve ok owes admits handles} {vok : VfsOk v}.

(** While the handles [L] are open. *)
Definition ok_at (L : gmultiset handle) (s : S) : Prop := ok s /\ handles s = L.
Definition admits_at (L : gmultiset handle) (s : S) (c : kernel_call) : Prop :=
  admits s c /\ plain c = true /\ (forall h, uses c = Some h -> h ∈ L).

#[local] Instance server_at L : Server serve (ok_at L) owes (admits_at L).
Proof.
  split.
  - apply os_none.
  - apply os_le.
  - intros s id k [Hs _]. by eapply os_max.
  - intros s id n [Hs _] Hn. split_and!; [by eapply os_forget | done | done].
  - intros s c [Hs HL] Hneed (Hadm & Hplain & Huse). eapply runs_mono; [apply os_serve; [done | done | done |] |].
    + by rewrite HL.
    + intros r s' (Hs' & Ho & Hh). rewrite after_plain in Hh by done. split; [split; congruence | done].
Qed.

(** The invariant of the caches, with [n] requests kept for open files. *)
Abbreviation kinv_at L n := (kinv (ok := ok_at L) (owes := owes) (kept := n)).
Abbreviation settled_at L n := (settled (ok := ok_at L) (owes := owes) (kept := n)).

Lemma kinv_shift L n n' x h h' k : kinv_at L n x h k -> n + h = n' + h' -> kinv_at L n' x h' k.
Proof. destruct 1; intros E; split; try done. lia. Qed.

(** The request is one that the server admits at any time. *)
Definition freely (c : kernel_call) : Prop := forall s, admits s c.

Lemma freely_admitted L k c :
  freely c -> plain c = true -> (forall h, uses c = Some h -> h ∈ L) -> admitted (serve := serve) (admits := admits_at L) k c.
Proof. intros Hc Hp Hu s _. by split_and!. Qed.

(** A request that may open or close. *)
Lemma runs_send L n x h k c (Q : kreply -> kern S -> Prop) :
  kinv_at L n x h k -> (forall id j, (id, j) ∈ needs c -> j <= claims (inodes k) id + pend x id) -> freely c ->
  (forall h, uses c = Some h -> h ∈ L) -> (forall r, Forall (fun p => 0 <= p.2) (gets c r)) ->
  (forall r s s', serve c s = Ret (r, s') -> let k' := set_server s' (set_forgets [] k) in
     kinv_at (after c r L) n (gets c r ++ x) h k' -> Q r k') ->
  runs (request_send serve c) k Q.
Proof.
  intros Hk Hneed Hadm Huse Hgets HQ. unfold request_send. apply runs_bind, runs_get, runs_bind, runs_modify, runs_bind.
  assert (kinv_at L n (forgets k ++ x) h (set_forgets [] k)) as Hk0.
  { destruct Hk as [K1 K2 K3 K4 K5 K6 K7 K8]. split; try done.
    - intros id. cbn. eapply os_le; [apply K2 |]. rewrite pend_app. change (pend [] id) with 0. lia.
    - apply Forall_app. split; [| done]. eapply Forall_impl; [exact K4 |]. intros p Hp. simpl in *. lia. }
  eapply runs_send_forgets; [exact Hk0 | by apply (k_pending _ _ _ Hk) | by apply (k_own _ _ _ Hk) |].
  intros s Hs _. destruct (k_ok _ _ _ Hs) as [Hok HL]. cbn [set_server server] in Hok, HL.
  pose proof (os_serve (handles := handles) s c Hok) as Hserve.
  apply runs_eq in Hserve as (r & s' & E & Hok' & Ho & Hh); [| | apply Hadm | by rewrite HL].
  2:{ intros id j Hin. eapply os_le; [apply (k_owes _ _ _ Hs) |]. cbn. change (pend [] id) with 0.
      specialize (Hneed id j Hin). lia. }
  unfold ask, runs. cbn [set_server server]. rewrite E. apply (HQ r s s'); [done |].
  destruct Hs as [K1 K2 K3 K4 K5 K6 K7 K8]. split; try done.
  - split; [done |]. by rewrite <- HL.
  - intros id. cbn [set_server set_forgets server inodes forgets]. eapply os_le; [apply Ho, (K2 id) |].
    cbn. rewrite pend_app. change (pend [] id) with 0. lia.
  - apply Forall_app. by split.
Qed.

Lemma needs_inode L n x h k a i id j :
  kinv_at L n x h k -> inodes k !! a = Some i -> (id, j) ∈ [(i_nodeid i, 1)] -> j <= claims (inodes k) id + pend x id.
Proof.
  intros Hk Ha Hin. pose proof (needs_one _ _ _ _ _ _ _ Hk Ha Hin). pose proof (pend_nonneg x id (k_own _ _ _ Hk)). lia.
Qed.

(** One about a live inode that only gives an error or a handle, in front of the rest. *)
Lemma runs_send_put {A} L n h k a i c (f : kreply -> M (kern S) A) (Q : A -> kern S -> Prop) :
  kinv_at L n [] (h + 1) k -> inodes k !! a = Some i -> needs c = [(i_nodeid i, 1)] -> freely c ->
  (forall h, uses c = Some h -> h ∈ L) -> (forall r, gets c r = []) ->
  (forall r k', kinv_at (after c r L) n [] h k' -> inodes k' = inodes k -> dentries k' = dentries k -> runs (f r) k' Q) ->
  runs (r ← request_send serve c; _ ← fuse_put_request; f r) k Q.
Proof.
  intros Hk Ha Hneed Hadm Huse Hg HQ. apply runs_bind. eapply runs_send; [exact Hk | | done | done | |].
  - intros id j. rewrite Hneed. by eapply needs_inode.
  - intros r. by rewrite Hg.
  - intros r s s' _ k' Hk'. rewrite Hg in Hk'. apply runs_bind. eapply runs_fuse_put_request; [exact Hk' |].
    intros Hk2. apply HQ; [| done | done]. by replace (h + 1 - 1) with h in Hk2 by lia.
Qed.

Lemma runs_kmalloc L n x h k (Q : bool -> kern S -> Prop) :
  kinv_at L n x h k -> (forall b, kinv_at L n x h (count_call k) -> Q b (count_call k)) -> runs (kmalloc memory) k Q.
Proof. intros Hk HQ. unfold kmalloc. apply runs_bind, runs_get, runs_bind, runs_modify, runs_ret, HQ. by apply kinv_count. Qed.

Lemma runs_fuse_file_alloc L n x h k (Q : bool -> kern S -> Prop) :
  kinv_at L n x h k ->
  (forall b k', kinv_at L n x (if b : bool then h + 1 else h) k' -> inodes k' = inodes k -> dentries k' = dentries k -> Q b k') ->
  runs (fuse_file_alloc memory) k Q.
Proof.
  intros Hk HQ. unfold fuse_file_alloc. apply runs_bind. eapply runs_kmalloc; [done |]. intros [] Hk1; [| by apply runs_ret, HQ].
  apply runs_bind. eapply runs_kmalloc; [done |]. intros [] Hk2; apply runs_bind.
  - apply runs_modify, runs_ret, HQ; [by apply kinv_held | done | done].
  - by apply runs_ret, runs_ret, HQ.
Qed.

(** ** Opening and closing *)

(** After an opening of the node [id]: the file's handle is open, and a request is kept. *)
Definition opened_one (L : gmultiset handle) (n : Z) (id : Z) (a : nat) (isdir : bool) (r : Z * option file) (k : kern S) : Prop :=
  match r.2 with
  | None => settled_at L n k
  | Some fl => f_inode fl = a /\ f_isdir fl = isdir /\ settled_at ({[+ (id, f_fh fl, isdir) +]} ⊎ L) (n + 1) k
  end.

Lemma runs_fuse_open_common L n k a i flags isdir :
  settled_at L n k -> inodes k !! a = Some i -> freely (KGetattr (i_nodeid i)) ->
  (forall fl, freely (KOpen (i_nodeid i) isdir fl)) ->
  runs (fuse_open_common serve v get_req memory generic_file_open a flags isdir) k (opened_one L n (i_nodeid i) a isdir).
Proof.
  intros Hk Ha Hga Hop. unfold fuse_open_common. apply runs_bind. eapply runs_inode_at; [done |]. cbv zeta.
  destruct (has O_DIRECT flags); [by apply runs_ret |]. destruct (negb (_ =? 0)); [by apply runs_ret |].
  apply runs_bind. eapply (runs_mono _ _ (fun _ k1 => settled_at L n k1 /\ stands k1 a (i_nodeid i))).
  { destruct (i_nodeid i =? FUSE_ROOT_ID); [| apply runs_ret; split; [done | by exists i]].
    pose proof (runs_keeps _ k (fun _ => settled_at L n) (keeps_fuse_do_getattr (serve := serve) (v := v) (get_req := get_req) a)) as Hkeep.
    eapply runs_mono; [apply Hkeep |].
    - eapply (runs_fuse_do_getattr (sv := server_at L)); [done | done | by apply freely_admitted |]. by intros err k' Hk' _.
    - intros err k1 [Hk1 Hid]. split; [done |]. apply Hid. by exists i. }
  intros err k1 [Hk1 (j & Hj & Hid)]. destruct (negb (err =? 0)); [by apply runs_ret |].
  apply runs_bind. eapply runs_fuse_file_alloc; [exact Hk1 |]. intros [] k2 Hk2 Ei2 _; [| by apply runs_ret].
  cbn [negb]. apply runs_bind. unfold fuse_send_open. apply runs_bind. change (0 + 1) with 1 in Hk2.
  eapply runs_fuse_get_req; [exact Hk2 | |].
  2:{ intros e He Hk3. replace (negb (e =? 0)) with true by lia. apply runs_ret. cbn [fst snd].
      replace (negb (e =? 0)) with true by lia. apply runs_bind. eapply runs_fuse_put_request; [exact Hk3 |].
      change (1 - 1) with 0. intros Hk4. by apply runs_ret. }
  intros Hk3. change (negb (0 =? 0)) with false. cbv iota. apply runs_bind.
  eapply runs_inode_at; [cbn; rewrite Ei2; exact Hj |]. rewrite Hid.
  eapply (runs_send_put L n 1); [exact Hk3 | cbn; rewrite Ei2; exact Hj | by rewrite Hid | apply Hop | done | done |].
  intros r k4 Hk4 _ _. apply runs_ret. cbn [after] in Hk4. destruct (Z.eqb_spec (kr_error r) 0) as [->|Hne]; cbn [negb].
  - change (negb (0 =? 0)) with false. cbv iota. apply runs_ret. unfold opened_one, fuse_finish_open. cbn [snd].
    split; [done |]. split; [by destruct isdir |]. cbn [f_fh].
    assert (oo_fh (if isdir then OpenOut (oo_fh (kr_open r)) (without FOPEN_DIRECT_IO (oo_flags (kr_open r))) else kr_open r)
      = oo_fh (kr_open r)) as -> by by destruct isdir.
    eapply kinv_shift; [exact Hk4 | lia].
  - replace (negb (kr_error r =? 0)) with true by lia. apply runs_bind. eapply runs_fuse_put_request; [exact Hk4 |].
    change (1 - 1) with 0. intros Hk5. by apply runs_ret.
Qed.

Lemma runs_fuse_release_common L n k fl :
  settled_at ({[+ handle_of (inodes k) fl +]} ⊎ L) (n + 1) k -> is_Some (inodes k !! f_inode fl) ->
  (forall id fh flags isdir, freely (KRelease id fh flags isdir)) ->
  runs (fuse_release_common serve fl) k (fun _ => settled_at L n).
Proof.
  intros Hk [i Hi] Hadm. unfold fuse_release_common, handle_of in *. rewrite Hi in Hk. cbn [from_option] in Hk. apply runs_bind.
  eapply runs_inode_at; [done |]. apply runs_bind.
  eapply runs_send; [eapply (kinv_shift _ _ n _ _ 1); [exact Hk | lia] | | apply Hadm | | done |].
  - intros id j. by eapply needs_inode.
  - intros h [= <-]. multiset_solver.
  - intros r s s' _ k' Hk'. cbn [gets app after fuse_release_fill] in Hk'. eapply runs_fuse_put_request; [exact Hk' |].
    change (1 - 1) with 0. intros Hk2. eapply (kinv_shift _ n); [| reflexivity].
    by replace (_ ∖ _) with L in Hk2 by multiset_solver.
Qed.

(** ** Open files *)

Lemma runs_remember L n x h o e1 e2 (k : kern S) (Q : Z -> kern S -> Prop) :
  kinv_at L n x h k -> (forall z k', kinv_at L n x h k' -> Q z k') -> runs (remember o e1 e2) k Q.
Proof.
  intros Hk HQ. unfold remember. destruct (_ =? _); [| by apply runs_ret, HQ].
  apply runs_bind, runs_modify, runs_ret, HQ. by destruct Hk.
Qed.

Lemma runs_fuse_flush L n k key fl id :
  settled_at L n k -> handle_of (inodes k) fl ∈ L -> is_Some (inodes k !! f_inode fl) -> f_isdir fl = false ->
  (forall i fh o, freely (KFlush i fh o)) ->
  runs (fuse_flush serve memory key fl id) k (fun _ => settled_at L n).
Proof.
  intros Hk Hin [i Hi] Hdir Hadm. unfold fuse_flush, handle_of in *. rewrite Hi, Hdir in Hin. cbn in Hin.
  apply runs_bind. eapply runs_inode_at; [done |]. apply runs_bind, runs_get.
  destruct (i_bad i); [by apply runs_ret |]. destruct (lacks k OpFlush); [by apply runs_ret |].
  apply runs_bind. unfold fuse_get_req_nofail. apply runs_bind. eapply runs_kmalloc; [done |]. intros b Hk1. apply runs_bind.
  apply (runs_mono _ _ (fun _ k' => kinv_at L n [] (if b then 1 else 0) k' /\ inodes k' = inodes k)).
  { destruct b; [| by apply runs_ret]. apply runs_modify. split; [by apply (kinv_held [] 0 1) | done]. }
  intros _ k2 [Hk2 Ei2]. apply runs_ret, runs_bind.
  eapply runs_send; [exact Hk2 | | apply Hadm | by intros h [= <-] | done |].
  { intros j z. eapply needs_inode; [exact Hk2 | by rewrite Ei2]. }
  intros r s s' _ k3 Hk3. cbn [gets app after] in Hk3. apply runs_bind.
  eapply (runs_mono _ _ (fun _ => settled_at L n)).
  { unfold put_nofail. destruct b; [| by apply runs_ret]. eapply runs_fuse_put_request; [exact Hk3 |]. done. }
  intros _ k4 Hk4. eapply runs_remember; [exact Hk4 |]. done.
Qed.

Lemma runs_fuse_fsync_common L n k fl d :
  settled_at L n k -> handle_of (inodes k) fl ∈ L -> is_Some (inodes k !! f_inode fl) ->
  (forall i fh d isdir, freely (KFsync i fh d isdir)) ->
  runs (fuse_fsync_common serve get_req fl d) k (fun _ => settled_at L n).
Proof.
  intros Hk Hin [i Hi] Hadm. unfold fuse_fsync_common, handle_of in *. rewrite Hi in Hin. cbn in Hin.
  apply runs_bind. eapply runs_inode_at; [done |]. apply runs_bind, runs_get. cbv zeta.
  destruct (i_bad i); [by apply runs_ret |]. destruct (lacks k _); [by apply runs_ret |].
  eapply runs_with_req; [done | | by intros]. intros Hk1.
  eapply (runs_send_put L n 0); [exact Hk1 | exact Hi | done | apply Hadm | by intros h [= <-] | done |].
  intros r k2 Hk2 _ _. eapply runs_remember; [exact Hk2 |]. done.
Qed.

Lemma runs_parse {D} (filldir : D -> bytes -> Z -> Z -> Z -> D * bool) buf f_pos dst (k : kern S) (Q : Z * Z * D -> kern S -> Prop) :
  (forall x, Q x k) -> runs (FuseDir.parse_dirfile filldir (Datatypes.S (length buf)) buf f_pos dst) k Q.
Proof.
  intros HQ. assert (forall fuel buf, (length buf < fuel)%nat -> forall f_pos dst,
    runs (FuseDir.parse_dirfile filldir fuel buf f_pos dst) k Q) as H; [| by apply H; lia].
  clear buf f_pos dst. induction fuel as [|fuel IH]; intros buf Hlen f_pos dst; [lia |]. cbn [FuseDir.parse_dirfile].
  cbv zeta. destruct (FuseDir.FUSE_NAME_OFFSET <=? _) eqn:Eo; [| by apply runs_ret].
  destruct (_ || _); [by apply runs_ret |]. destruct (_ <? _); [by apply runs_ret |].
  destruct (filldir _ _ _ _ _) as [dst' []]; [by apply runs_ret |]. apply IH. rewrite length_drop.
  unfold FuseDir.FUSE_NAME_OFFSET in Eo.
  pose proof (dirent_size_pos buf). lia.
Qed.

Lemma runs_readdir_page {D} (filldir : D -> bytes -> Z -> Z -> Z -> D * bool) L n k fl f_pos dst :
  settled_at L n k -> handle_of (inodes k) fl ∈ L -> is_Some (inodes k !! f_inode fl) -> f_isdir fl = true ->
  (forall i fh pos count, freely (KRead i fh pos count true)) ->
  runs (fuse_readdir serve get_req memory filldir fl f_pos dst) k (fun _ => settled_at L n).
Proof.
  intros Hk Hin [i Hi] Hdir Hadm. unfold fuse_readdir, handle_of in *. rewrite Hi, Hdir in Hin. cbn in Hin.
  apply runs_bind. eapply runs_inode_at; [done |]. destruct (i_bad i); [by apply runs_ret |].
  apply runs_bind. eapply runs_fuse_get_req; [done | |].
  2:{ intros err Hne Hk1. replace (negb (err =? 0)) with true by lia. by apply runs_ret. }
  intros Hk1. change (negb (0 =? 0)) with false. cbv iota. apply runs_bind. eapply runs_kmalloc; [exact Hk1 |].
  intros [] Hk2; cbn [negb].
  2:{ apply runs_bind. eapply runs_fuse_put_request; [exact Hk2 |]. intros Hk3. by apply runs_ret. }
  eapply (runs_send_put L n 0); [exact Hk2 | exact Hi | done | apply Hadm | by intros h [= <-] | done |].
  intros r k3 Hk3 Ei3 _. apply runs_bind. apply (runs_mono _ _ (fun _ k' => k' = k3)).
  { destruct (_ =? _); [by apply runs_parse | by apply runs_ret]. }
  intros res k4 ->. apply runs_bind. eapply runs_fuse_invalidate_attr; [exact Hk3 | rewrite Ei3; by exists i |].
  intros k5 Hk5 _ _. by apply runs_ret.
Qed.

(** ** Creating and opening at once *)

(** The server creates what it was asked for: a regular file under a number of its own. *)
Definition valid_creates : Prop := forall dir name flags mode s r s',
  serve (KCreate dir name flags mode) s = Ret (r, s') -> kr_error r = 0 ->
  S_ISREG (a_mode (eo_attr (kr_entry r))) = true /\ invalid_nodeid (eo_nodeid (kr_entry r)) = false.

Definition created_at (L : gmultiset handle) (n : Z) (e dir : nat) (r : Z * option file) (k : kern S) : Prop :=
  match r.2 with
  | None => exists lost, settled_at (lost ⊎ L) n k /\ (valid_creates -> lost = ∅) /\ named k e (fun d => d_dir d = dir)
  | Some fl => r.1 = 0 /\ f_isdir fl = false /\ exists id, stands k (f_inode fl) id /\
      settled_at ({[+ (id, f_fh fl, false) +]} ⊎ L) (n + 1) k
  end.

(** The same, wherever the name is. *)
Definition created (L : gmultiset handle) (n : Z) (r : Z * option file) (k : kern S) : Prop :=
  match r.2 with
  | None => exists lost, settled_at (lost ⊎ L) n k /\ (valid_creates -> lost = ∅)
  | Some fl => f_isdir fl = false /\ exists id, stands k (f_inode fl) id /\
      settled_at ({[+ (id, f_fh fl, false) +]} ⊎ L) (n + 1) k
  end.

Lemma created_at_created L n e dir r k : created_at L n e dir r k -> created L n r k.
Proof. unfold created_at, created. destruct r.2; [tauto |]. intros (lost & ? & ? & ?). by exists lost. Qed.

Lemma created_at_none L n e dir err k :
  settled_at L n k -> named k e (fun d => d_dir d = dir) -> created_at L n e dir (err, None) k.
Proof. intros Hk. exists ∅. by rewrite (left_id_L ∅ _). Qed.

Lemma runs_with_ids {A} (m : M (kern S) A) k (Q : A -> kern S -> Prop) :
  keeps m -> runs m k (fun x k' => ids k k' -> Q x k') -> runs m k Q.
Proof. intros Hm H. eapply runs_mono; [by apply runs_keeps |]. intros x k' [H' Hi]. by apply H'. Qed.

Lemma runs_fuse_sync_release L n x h k id fh flags (Q : unit -> kern S -> Prop) :
  kinv_at ({[+ (id, fh, false) +]} ⊎ L) n x h k -> 1 <= claims (inodes k) id + pend x id ->
  (forall id fh flags isdir, freely (KRelease id fh flags isdir)) ->
  (forall k', kinv_at L n x (h - 1) k' -> dentries k' = dentries k -> Q tt k') -> runs (fuse_sync_release serve id fh flags) k Q.
Proof.
  intros Hk Hc Hadm HQ. unfold fuse_sync_release. apply runs_bind.
  eapply runs_send; [exact Hk | | apply Hadm | intros j [= <-]; multiset_solver | done |].
  { intros i j [= -> ->]%list_elem_of_singleton. lia. }
  intros r s s' _ k' Hk'. cbn [gets app after fuse_release_fill] in Hk'. eapply runs_fuse_put_request; [exact Hk' |].
  intros Hk2. apply HQ; [by replace (_ ∖ _) with L in Hk2 by multiset_solver | done].
Qed.

(** The file is made of an inode that was looked up. *)
Lemma runs_create_finish L n e d k a o oo flags1 flags2 :
  kinv_at ({[+ (eo_nodeid o, oo_fh oo, false) +]} ⊎ L) n [] 1 k -> dentries k !! e = Some d -> stands k a (eo_nodeid o) ->
  (forall id fh flags isdir, freely (KRelease id fh flags isdir)) ->
  runs (_ ← d_instantiate e (Some a);
        _ ← fuse_invalidate_attr (d_dir d);
        _ ← fuse_change_timeout v e o;
        k ← get;
        _ ← modify count_call;
        let err := instantiate (calls k) in
        if negb (err =? 0) then
          _ ← fuse_sync_release serve (eo_nodeid o) (oo_fh oo) flags1;
          mret (err, None)
        else mret (0, Some (fuse_finish_open a flags2 false oo))) k (created_at L n e (d_dir d)).
Proof.
  intros Hk He Ha Hadm. destruct (k_names _ _ _ Hk e d He) as [Hdir _]. pose proof (stands_some _ _ _ Ha) as Hsome.
  apply runs_bind. eapply runs_rename_dentry; [exact Hk | exact He | done | by intros b [= <-] |]. intros Hk1.
  apply runs_bind, runs_with_ids; [apply keeps_fuse_invalidate_attr |].
  eapply runs_fuse_invalidate_attr; [exact Hk1 | exact Hdir |]. intros k2 Hk2 _ Ed2 Hi2.
  apply runs_bind, runs_with_ids; [apply keeps_fuse_change_timeout |].
  eapply runs_fuse_change_timeout; [exact Hk2 | rewrite Ed2; apply lookup_insert_eq |]. intros k3 Hk3 _ _ Hi3.
  assert (stands k3 a (eo_nodeid o)) as Ha3 by (destruct Hi2 as [H2 _], Hi3 as [H3 _]; by apply H3, H2).
  apply runs_bind, runs_get, runs_bind, runs_modify. cbv zeta. apply kinv_count in Hk3.
  destruct (Z.eqb_spec (instantiate (calls k3)) 0) as [->|Hne]; cbn [negb].
  - apply runs_ret. split; [done |]. split; [done |]. exists (eo_nodeid o). split; [exact Ha3 |]. eapply kinv_shift; [exact Hk3 | lia].
  - apply runs_bind. eapply runs_fuse_sync_release; [exact Hk3 | | done |].
    + destruct Ha3 as (i & Hi & <-). destruct (inode_at_least _ _ _ _ _ Hk3 Hi). change (pend [] _) with 0. lia.
    + intros k4 Hk4 Ed4. apply runs_ret, created_at_none; [done |]. unfold named. rewrite Ed4. apply Hi3, Hi2.
      eexists. cbn. by rewrite lookup_insert_eq.
Qed.

Lemma runs_fuse_create_open L n e d i mode intent flags k :
  settled_at L n k -> dentries k !! e = Some d -> inodes k !! d_dir d = Some i ->
  (forall fl, freely (KCreate (i_nodeid i) (d_name d) fl mode)) ->
  (forall id fh flags isdir, freely (KRelease id fh flags isdir)) ->
  runs (fuse_create_open serve v get_req memory instantiate (d_dir d) e mode intent flags) k (created_at L n e (d_dir d)).
Proof.
  intros Hk He Hdir Hcr Hrel. assert (named k e (fun d' => d_dir d' = d_dir d)) as Hn by (by exists d). unfold fuse_create_open. apply runs_bind, runs_get.
  destruct (lacks k OpCreate); [by apply runs_ret, created_at_none |].
  apply runs_bind. eapply runs_fuse_get_req; [done | |].
  2:{ intros err Hne Hk1. replace (negb (err =? 0)) with true by lia. by apply runs_ret, created_at_none. }
  intros Hk1. change (negb (0 =? 0)) with false. cbv iota. apply runs_bind. eapply runs_fuse_get_req; [exact Hk1 | |].
  2:{ intros err Hne Hk2. replace (negb (err =? 0)) with true by lia. apply runs_bind.
      eapply runs_fuse_put_request; [exact Hk2 |]. intros Hk3. by apply runs_ret, created_at_none. }
  intros Hk2. change (negb (0 =? 0)) with false. cbv iota. change (0 + 1 + 1) with 2 in Hk2. apply runs_bind.
  eapply runs_fuse_file_alloc; [exact Hk2 |]. intros [] k3 Hk3 Ei3 Ed3; cbn [negb].
  2:{ apply runs_bind. eapply runs_fuse_put_request; [exact Hk3 |]. intros Hk4. apply runs_bind.
      eapply runs_fuse_put_request; [exact Hk4 |]. intros Hk5. apply runs_ret, created_at_none; [done |]. unfold named. cbn. by rewrite Ed3. }
  cbv zeta. change (2 + 1) with 3 in Hk3.
  assert (forall M x err (k' : kern S) lost, M = lost ⊎ L -> kinv_at M n x 3 k' -> dentries k' = dentries k -> (valid_creates -> lost = ∅) ->
    runs (_ ← fuse_file_free; _ ← fuse_put_request; _ ← fuse_put_request; mret (err, None)) k' (created_at L n e (d_dir d))) as Hfail.
  { intros M x err k' lost -> Hk' Ed' Hlost. apply runs_bind. eapply runs_fuse_put_request; [exact Hk' |]. intros H1.
    apply runs_bind. eapply runs_fuse_put_request; [exact H1 |]. intros H2. apply runs_bind.
    eapply runs_fuse_put_request; [exact H2 |]. intros H3. apply runs_ret. exists lost.
    split; [by eapply settled_own |]. split; [done |]. unfold named. cbn. by rewrite Ed'. }
  apply runs_bind. eapply runs_dentry_at; [rewrite Ed3; exact He |]. apply runs_bind.
  eapply runs_inode_at; [rewrite Ei3; exact Hdir |]. apply runs_bind.
  eapply runs_send; [exact Hk3 | | apply Hcr | done | |].
  { intros id j. eapply needs_inode; [exact Hk3 | by rewrite Ei3]. }
  { intros r. apply gets_nonneg. done. }
  intros r s s' Es k4 Hk4. cbn [gets after] in Hk4.
  assert (inodes k4 = inodes k /\ dentries k4 = dentries k) as [Ei4 Ed4] by done. clearbody k4.
  destruct (Z.eqb_spec (kr_error r) 0) as [E0|Hne]; cbn [negb].
  2:{ cbn [andb] in Hk4. apply runs_bind.
      apply (runs_mono _ _ (fun _ k' => kinv_at L n [] 3 k' /\ dentries k' = dentries k4)).
      - destruct (_ =? - ENOSYS); [| by apply runs_ret]. apply runs_modify. split; [by destruct Hk4 | done].
      - intros _ k5 [Hk5 Ed5]. eapply (Hfail L [] _ _ ∅); [by rewrite (left_id_L ∅ _) | done | congruence | done]. }
  cbn [andb] in Hk4.
  set (o := kr_entry r) in *. set (oo := kr_open r) in *.
  destruct (negb _ || invalid_nodeid _) eqn:Ebad.
  { eapply Hfail; [reflexivity | exact Hk4 | done |]. intros Hvalid. destruct (Hvalid _ _ _ _ _ _ _ Es E0) as [H1 H2].
    fold o in H1, H2. by rewrite H1, H2 in Ebad. }
  apply orb_false_iff in Ebad as [Hreg%negb_false_iff Hid]. rewrite (invalid_zero _ Hid) in Hk4. cbn [negb app] in Hk4.
  apply runs_bind. eapply runs_fuse_put_request; [exact Hk4 |]. change (3 - 1) with 2. intros Hk5. apply runs_bind.
  eapply runs_fuse_iget; [exact Hk5 | unfold fuse_valid_type; by rewrite Hreg | |].
  - intros k6 Hk6 Ed6. apply runs_bind. eapply runs_fuse_sync_release; [exact Hk6 | | done |].
    + rewrite pend_cons, Z.eqb_refl. change (pend [] _) with 0.
      pose proof (claims_nonneg (inodes k6) (eo_nodeid o) (k_live _ _ _ Hk6)). lia.
    + change (2 - 1) with 1. intros k7 Hk7 Ed7. apply runs_bind. eapply runs_fuse_send_forget; [exact Hk7 | lia |].
      intros k8 -> Hk8. apply runs_ret, created_at_none; [exact Hk8 |]. unfold named. cbn. rewrite Ed7, Ed6. cbn. by rewrite Ed4.
  - intros a k6 Hk6 Ha Ed6. apply runs_bind. eapply runs_fuse_put_request; [exact Hk6 |]. change (2 - 1) with 1. intros Hk7.
    eapply runs_create_finish; [exact Hk7 | | exact Ha | done]. cbn. rewrite Ed6. cbn. by rewrite Ed4.
Qed.

(** Without an atomic creation, the name is made first. *)
Lemma runs_fuse_create L n e d mode open k :
  settled_at L n k -> dentries k !! e = Some d -> fuse_valid_type mode = true ->
  (forall id name fl, freely (KCreate id name fl mode)) -> (forall id name, freely (KMknod id name mode 0)) ->
  (forall id fh flags isdir, freely (KRelease id fh flags isdir)) ->
  runs (fuse_create serve v get_req memory instantiate (d_dir d) e mode open) k (created L n).
Proof.
  intros Hk He Ht Hcr Hmk Hrel.
  assert (forall lost k', settled_at (lost ⊎ L) n k' -> (valid_creates -> lost = ∅) -> named k' e (fun d' => d_dir d' = d_dir d) ->
    runs (err ← fuse_mknod serve v get_req (d_dir d) e mode 0; mret (err, None)) k' (created L n)) as Hmknod.
  { intros lost k' Hk' Hlost (d' & He' & Ed'). destruct (k_names _ _ _ Hk' e d' He') as [[i' Hi'] _]. rewrite Ed' in Hi'.
    apply runs_bind. unfold fuse_mknod. rewrite <- Ed' in *. eapply runs_mono.
    - eapply (runs_create (sv := server_at (lost ⊎ L)) (fun id name => KMknod id name mode 0)); [exact Hk' | exact He' | exact Hi' | done | done | done |].
      by apply freely_admitted.
    - intros err k2 Hk2. apply runs_ret. by exists lost. }
  unfold fuse_create. destruct open as [[intent flags]|].
  - destruct (k_names _ _ _ Hk e d He) as [[i Hi] _]. apply runs_bind. eapply runs_mono; [by eapply runs_fuse_create_open |].
    intros r k' Hr. destruct (Z.eqb_spec r.1 (- ENOSYS)) as [E|_]; [| by eapply runs_ret, created_at_created].
    unfold created_at in Hr. destruct r as [err [fl|]]; cbn in E, Hr; [by destruct Hr as [-> _] |].
    destruct Hr as (lost & H1 & H2 & H3). by eapply Hmknod.
  - eapply (Hmknod ∅); [by rewrite (left_id_L ∅ _) | done | by exists d].
Qed.
End Account.

(** ** A creation that the kernel does not accept *)

(** The server has created and opened something that is not a regular file, or has no
    number: the kernel answers [EIO], and nothing is sent to the server after that, no
    RELEASE and no FORGET. *)
Lemma invalid_creation_leaks {S} serve v memory instantiate (k : kern S) e d i mode intent flags r s :
  dentries k !! e = Some d -> inodes k !! d_dir d = Some i -> forgets k = [] -> lacks k OpCreate = false ->
  (forall n, memory n = true) ->
  serve (KCreate (i_nodeid i) (d_name d) (without O_NOCTTY (intent - 1)) mode) (server k) = Ret (r, s) -> kr_error r = 0 ->
  negb (S_ISREG (a_mode (eo_attr (kr_entry r)))) || invalid_nodeid (eo_nodeid (kr_entry r)) = true ->
  runs (fuse_create_open serve v (fun _ => 0) memory instantiate (d_dir d) e mode intent flags) k (fun x k' =>
    x = (- EIO, None) /\ server k' = s /\ forgets k' = [] /\ inodes k' = inodes k /\ held k' = held k).
Proof.
  intros He Hi Hf Hl Hm Es Er Hbad. unfold fuse_create_open. apply runs_bind, runs_get. rewrite Hl.
  unfold fuse_file_alloc, kmalloc, fuse_get_req, dentry_at, inode_at, request_send, ask, runs, fuse_file_free, fuse_put_request.
  unfold mbind, M_bind, get, modify, mret, M_ret. cbn. rewrite !Hm. cbn. rewrite He. cbn. rewrite Hi. cbn. rewrite Hf. cbn. rewrite Es. cbn.
  rewrite Er. cbn. rewrite Hbad. cbn. split_and!; [done | done | done | done | lia].
Qed.
