(* ===== verification/FuseFileAccount.v ===== *)
(** The open files of the kernel as a system: what the VFS may ask for at any time, the
    states that are reached from the mount on, and the account that all of them keep; with a
    strict server, that does not answer for a handle that is not open. *)

From stdpp Require Import gmultiset.
From S2P Require Import Prelude.
From S2P Require Import CString.
From S2P Require Import FuseWire.
From S2P Require Import FuseWireProps.
From S2P Require Import FuseInode.
From S2P Require Import FuseInodeProps.
From S2P Require Import FuseAccount.
From S2P Require Import FuseFile.
From S2P Require Import FuseFileProps.

(** * What the VFS may ask for *)

(** The contract of the VFS for files: a new one gets a number of its own, an old one is
    open, and what is done with a directory is not done with a file. *)
Definition file_ok {S} (k : fkern S) (op : file_op) : Prop :=
  match op with
  | FOpen f a _ _ => files k !! f = None /\ is_Some (inodes (core k) !! a)
  | FCreate f e mode _ => files k !! f = None /\ named (core k) e (fun _ => True) /\ fuse_valid_type mode = true
  | FRelease f | FFsync f _ => is_Some (files k !! f)
  | FFlush f _ => exists fl, files k !! f = Some fl /\ f_isdir fl = false
  | FReaddir f _ => exists fl, files k !! f = Some fl /\ f_isdir fl = true
  | Core _ => True
  end.

(** [c] is a request that the operation may send. *)
Definition file_call (op : file_op) (c : kernel_call) : Prop :=
  match op, c with
  | FOpen _ _ _ isdir, KOpen _ isdir' _ => isdir' = isdir
  | FOpen _ _ _ _, KGetattr _ => True
  | FCreate _ _ mode _, KCreate _ _ _ mode' => mode' = mode
  | FCreate _ _ mode _, KMknod _ _ mode' rdev => mode' = mode /\ rdev = 0
  | FCreate _ _ _ _, KRelease _ _ _ _ | FRelease _, KRelease _ _ _ _ => True
  | FFlush _ _, KFlush _ _ _ | FFsync _ _, KFsync _ _ _ _ => True
  | FReaddir _ _, KRead _ _ _ _ isdir => isdir = true
  | _, _ => False
  end.

(** Operations that drop no inode. *)
Definition steady (op : file_op) : bool := match op with FCreate _ _ _ _ | Core _ => false | _ => true end.

Section System.
Context {S : Type} (serve : kernel_call -> M S kreply) (v : vfs) (get_req : nat -> Z) (memory : nat -> bool).
Context (generic_file_open : inode -> Z -> Z) (instantiate : nat -> Z) (key : Z -> Z).
Context (get_page : nat -> bool) (fc : owner) (generic_permission : inode -> Z -> Z) (change_ok : inode -> iattr -> Z).
Context {D : Type} (filldir : D -> bytes -> Z -> Z -> Z -> D * bool) (dst : D).
Context (ok : S -> Prop) (owes : S -> Z -> Z -> Prop) (admits : S -> kernel_call -> Prop) (handles : S -> gmultiset handle).

Abbreviation run_file :=
  (run_file serve v get_req memory generic_file_open instantiate key get_page fc generic_permission change_ok filldir dst).
Abbreviation freely := (freely (admits := admits)).
Abbreviation valid_creates := (valid_creates (serve := serve)).
Abbreviation settled_at L n := (settled (ok := ok_at (ok := ok) (handles := handles) L) (owes := owes) (kept := n)).

Definition may_file (k : fkern S) (op : file_op) : Prop :=
  match op with
  | Core op => may serve admits (core k) op
  | _ => file_ok k op /\ forall c, file_call op c -> freely c
  end.

(** The VFS keeps the inode of an open file. *)
Definition pinned (k k' : fkern S) : Prop :=
  forall f fl id, files k !! f = Some fl -> stands (core k) (f_inode fl) id -> stands (core k') (f_inode fl) id.

(** The states from the mount on, where no file is open. *)
Inductive opens : fkern S -> Prop :=
| nothing_open s mode a c :
    ok s -> handles s = ∅ -> owes s 1 1 -> fuse_valid_type mode = true ->
    get_root_inode v mode (no_inodes s) = Ret (Some a, c) -> opens (FKern c ∅)
| file_step k t op k' :
    opens k -> may_file k op -> run_file t op k = Ret (tt, k') -> steady op = true \/ pinned k k' -> opens k'.

Context {os : OpenServer serve ok owes admits handles} {vok : VfsOk v}.

Record finv (k : fkern S) : Prop := Finv {
  f_account : exists lost, settled_at (opened (inodes (core k)) (files k) ⊎ lost) (Z.of_nat (size (files k))) (core k) /\
    (valid_creates -> lost = ∅);
  f_there f fl : files k !! f = Some fl -> is_Some (inodes (core k) !! f_inode fl) }.

(** ** What does not open and close *)

Lemma op_call_plain (k : kern S) op c : op_call k op c -> plain c = true /\ uses c = None.
Proof. destruct op; cbn; naive_solver. Qed.

Lemma may_at L (k : kern S) op : may serve admits k op -> may serve (admits_at (admits := admits) L) k op.
Proof.
  intros [Hok Hadm]. split; [done |]. intros c Hc s Hs. destruct (op_call_plain k op c Hc) as [Hp Hu].
  split_and!; [by eapply Hadm | done | by rewrite Hu].
Qed.

(** ** Every operation keeps the account *)

Lemma opened_pinned (k k' : fkern S) :
  finv k -> pinned k k' -> files k' = files k ->
  opened (inodes (core k')) (files k) = opened (inodes (core k)) (files k) /\
  forall f fl, files k !! f = Some fl -> is_Some (inodes (core k') !! f_inode fl).
Proof.
  intros [_ Hthere] Hpin E. split.
  - apply opened_same. intros f fl Hf. destruct (Hthere f fl Hf) as [i Hi].
    destruct (Hpin f fl (i_nodeid i) Hf) as (j & Hj & Hid); [by exists i |]. unfold handle_of. rewrite Hi, Hj. cbn. by rewrite Hid.
  - intros f fl Hf. destruct (Hthere f fl Hf) as [i Hi]. eapply stands_some, (Hpin f fl (i_nodeid i) Hf). by exists i.
Qed.

(** An operation on the caches of the kernel, with a file at the end or without. *)
Lemma runs_on_core {A} (m : M (kern S) A) (k : fkern S) (Q : A -> fkern S -> Prop) :
  runs m (core k) (fun x c => Q x (FKern c (files k))) -> runs (on_core m) k Q.
Proof. unfold runs, on_core. destruct (m (core k)) as [[x c]| | |]; done. Qed.

Lemma runs_file_at f fl (k : fkern S) (Q : file -> fkern S -> Prop) :
  files k !! f = Some fl -> Q fl k -> runs (file_at f) k Q.
Proof. intros Hf HQ. apply runs_bind, runs_get. rewrite Hf. by apply runs_ret. Qed.

Lemma finv_same L n lost k c :
  finv k -> L = opened (inodes (core k)) (files k) ⊎ lost -> n = Z.of_nat (size (files k)) -> (valid_creates -> lost = ∅) ->
  settled_at L n c -> pinned k (FKern c (files k)) -> finv (FKern c (files k)).
Proof.
  intros Hk -> -> Hlost Hc Hpin. destruct (opened_pinned k _ Hk Hpin eq_refl) as [E Hthere]. split; [| done].
  exists lost. cbn in E |- *. by rewrite E.
Qed.

Lemma ids_pinned (k : fkern S) c : ids (core k) c -> pinned k (FKern c (files k)).
Proof. intros [Hids _] f fl id _. apply Hids. Qed.

(** With a new file. *)
Lemma finv_open L n lost k c f fl id :
  finv k -> L = opened (inodes (core k)) (files k) ⊎ lost -> n = Z.of_nat (size (files k)) -> (valid_creates -> lost = ∅) ->
  files k !! f = None -> stands c (f_inode fl) id ->
  settled_at ({[+ (id, f_fh fl, f_isdir fl) +]} ⊎ L) (n + 1) c -> pinned k (FKern c (files k)) ->
  finv (FKern c (<[f := fl]> (files k))).
Proof.
  intros Hk -> -> Hlost Hf (i & Hi & Hid) Hc Hpin. destruct (opened_pinned k _ Hk Hpin eq_refl) as [E Hthere]. cbn in E. split.
  - exists lost. cbn. rewrite opened_insert, E, map_size_insert_None by done. split; [| done].
    unfold handle_of. rewrite Hi. cbn [from_option]. rewrite Hid, <- (assoc_L (⊎)).
    by replace (Z.of_nat (Datatypes.S (size (files k)))) with (Z.of_nat (size (files k)) + 1) by lia.
  - cbn. intros g gl [[_ <-]|[_ Hg]]%lookup_insert_Some; [by exists i | by apply (Hthere g)].
Qed.

(** Without one of them. *)
Lemma finv_close lost k c f fl :
  finv k -> (valid_creates -> lost = ∅) -> files k !! f = Some fl ->
  settled_at (opened (inodes (core k)) (delete f (files k)) ⊎ lost) (Z.of_nat (size (files k)) - 1) c -> pinned k (FKern c (files k)) ->
  finv (FKern c (delete f (files k))).
Proof.
  intros Hk Hlost Hf Hc Hpin. destruct (opened_pinned k _ Hk Hpin eq_refl) as [E Hthere]. cbn in E. split.
  - exists lost. cbn. split; [| done]. rewrite map_size_delete_Some by by exists fl.
    assert (size (files k) <> 0%nat) as Hn by (intros H%map_size_empty_inv; by rewrite H in Hf).
    replace (opened (inodes c) (delete f (files k))) with (opened (inodes (core k)) (delete f (files k))).
    + by replace (Z.of_nat (pred (size (files k)))) with (Z.of_nat (size (files k)) - 1) by lia.
    + rewrite !(opened_delete _ (files k) f fl Hf) in E.
      assert (handle_of (inodes c) fl = handle_of (inodes (core k)) fl) as E2; [| rewrite E2 in E; by apply (inj _) in E].
      destruct (f_there k Hk f fl Hf) as [i Hi]. destruct (Hpin f fl (i_nodeid i) Hf) as (j & Hj & Hid); [by exists i |].
      cbn in Hj. unfold handle_of. rewrite Hi, Hj. cbn. by rewrite Hid.
  - cbn. intros g gl [_ Hg]%lookup_delete_Some. by apply (Hthere g).
Qed.

Lemma runs_keep_file f r (k : fkern S) (Q : unit -> fkern S -> Prop) :
  Q tt (match r.2 with Some fl => FKern (core k) (<[f := fl]> (files k)) | None => k end) ->
  runs (_ ← keep_file f r; mret tt) k Q.
Proof. intros HQ. destruct r as [err [fl|]]; exact HQ. Qed.

(** What one operation does: the account is kept, unless the VFS drops the inode of a file. *)
Abbreviation accounted k op := (fun _ k' => steady op = true \/ pinned k k' -> finv k').

Lemma runs_open t f a flags isdir k :
  finv k -> may_file k (FOpen f a flags isdir) ->
  runs (run_file t (FOpen f a flags isdir)) k (accounted k (FOpen f a flags isdir)).
Proof.
  intros Hk [[Hf [i Hi]] Hadm]. destruct (f_account k Hk) as (lost & Hs & Hlost). cbn [FuseFile.run_file].
  apply runs_bind, runs_on_core. eapply runs_mono.
  { apply runs_keeps; [apply keeps_fuse_open_common | eapply runs_fuse_open_common; [exact Hs | exact Hi | by apply Hadm |]].
    intros fl. by apply Hadm. }
  intros [err [fl|]] c [Hr Hids]; apply runs_keep_file; cbn [snd core files]; intros _.
  - destruct Hr as (Ha & Hd & Hc). cbn [snd] in Ha, Hd, Hc. eapply finv_open; try done; [| by rewrite Hd | by apply ids_pinned].
    rewrite Ha. apply Hids. by exists i.
  - eapply finv_same; [done | done | done | done | exact Hr | by apply ids_pinned].
Qed.

Lemma runs_creation t f e mode open k :
  finv k -> may_file k (FCreate f e mode open) ->
  runs (run_file t (FCreate f e mode open)) k (accounted k (FCreate f e mode open)).
Proof.
  intros Hk [(Hf & (d & He & _) & Ht) Hadm]. destruct (f_account k Hk) as (lost & Hs & Hlost). cbn [FuseFile.run_file].
  apply runs_bind, runs_on_core. eapply runs_dir_of; [exact He |]. apply runs_bind, runs_on_core. eapply runs_mono.
  { eapply runs_fuse_create; [exact Hs | exact He | done | | |]; intros; by apply Hadm. }
  intros [err [fl|]] c Hr; apply runs_keep_file; cbn [snd core files]; intros [|Hpin]; try done.
  - destruct Hr as (Hd & id & Hid & Hc). cbn [snd] in Hd, Hid, Hc. eapply finv_open; try done. by rewrite Hd.
  - destruct Hr as (lost' & Hc & Hlost'). eapply (finv_same _ _ (lost' ⊎ lost)); [done | | done | | exact Hc | exact Hpin].
    + multiset_solver.
    + intros Hv. by rewrite Hlost, Hlost'.
Qed.

Lemma runs_close t f k :
  finv k -> may_file k (FRelease f) -> runs (run_file t (FRelease f)) k (accounted k (FRelease f)).
Proof.
  intros Hk [[fl Hf] Hadm]. destruct (f_account k Hk) as (lost & Hs & Hlost). cbn [FuseFile.run_file].
  apply runs_bind. eapply runs_file_at; [done |]. apply runs_bind, runs_on_core. eapply runs_mono.
  { apply runs_keeps; [apply keeps_fuse_release_common |]. eapply (runs_fuse_release_common (generic_file_open := generic_file_open) (opened (inodes (core k)) (delete f (files k)) ⊎ lost)
      (Z.of_nat (size (files k)) - 1)); [| by eapply f_there | intros; by apply Hadm].
    rewrite (opened_delete _ _ f fl Hf), <- (assoc_L (⊎)) in Hs.
    by replace (Z.of_nat (size (files k)) - 1 + 1) with (Z.of_nat (size (files k))) by lia. }
  intros _ c [Hc Hids]. apply runs_modify. intros _. apply (finv_close lost k c f fl); [done | done | done | exact Hc | by apply ids_pinned].
Qed.

(** Using an open file. *)
Lemma runs_used {A} (m : file -> M (kern S) A) f fl k op :
  finv k -> files k !! f = Some fl -> keeps (m fl) ->
  (forall L n, settled_at L n (core k) -> handle_of (inodes (core k)) fl ∈ L -> is_Some (inodes (core k) !! f_inode fl) ->
     runs (m fl) (core k) (fun _ => settled_at L n)) ->
  runs (fl ← file_at f; _ ← on_core (m fl); mret tt) k (accounted k op).
Proof.
  intros Hk Hf Hkeep Hm. destruct (f_account k Hk) as (lost & Hs & Hlost). apply runs_bind. eapply runs_file_at; [done |].
  apply runs_bind, runs_on_core. eapply runs_mono.
  { apply runs_keeps; [done | apply Hm; [exact Hs | | by eapply f_there]]. pose proof (opened_in (inodes (core k)) _ f fl Hf). multiset_solver. }
  intros x c [Hc Hids]. apply runs_ret. intros _. eapply finv_same; [done | done | done | done | exact Hc | by apply ids_pinned].
Qed.

Lemma runs_run_file t op k : finv k -> may_file k op -> runs (run_file t op) k (accounted k op).
Proof.
  intros Hk Hmay. destruct op as [f a flags isdir|f e mode open|f|f id|f d|f pos|op].
  - by apply runs_open.
  - by apply runs_creation.
  - by apply runs_close.
  - destruct Hmay as [(fl & Hf & Hd) Hadm]. eapply runs_used; [done | exact Hf | apply keeps_fuse_flush |].
    intros L n Hs Hin Ha. apply runs_fuse_flush; try done. intros. by apply Hadm.
  - destruct Hmay as [[fl Hf] Hadm]. eapply runs_used; [done | exact Hf | apply keeps_fuse_fsync_common |].
    intros L n Hs Hin Ha. apply runs_fuse_fsync_common; try done. intros. by apply Hadm.
  - destruct Hmay as [(fl & Hf & Hd) Hadm]. eapply runs_used; [done | exact Hf | apply keeps_fuse_readdir |].
    intros L n Hs Hin Ha. apply runs_readdir_page; try done. intros. by apply Hadm.
  - destruct (f_account k Hk) as (lost & Hs & Hlost). cbn [FuseFile.run_file]. apply runs_on_core.
    eapply runs_mono; [eapply (runs_run_op serve v get_req get_page fc generic_permission change_ok _ owes _ (sv := server_at (opened (inodes (core k)) (files k) ⊎ lost))); [exact Hs | by apply may_at] |].
    intros u c Hc [|Hpin]; [done |]. by eapply finv_same.
Qed.

Lemma opens_finv k : opens k -> finv k.
Proof.
  induction 1 as [s mode a c Hs Hh Ho Ht E | k t op k' _ IH Hmay E Hpin].
  - split; [| intros f fl; cbn; by rewrite lookup_empty]. exists ∅. split; [| done]. cbn [core files].
    assert (opened (inodes c) ∅ ⊎ ∅ = ∅) as -> by apply (left_id_L ∅ _).
    pose proof (runs_get_root_inode serve v _ owes _ (sv := server_at ∅) s mode (conj Hs Hh) Ho Ht) as H. unfold runs in H. by rewrite E in H.
  - pose proof (runs_run_file t op k IH Hmay) as H. unfold runs in H. rewrite E in H. by apply H.
Qed.

(** C20. The account of the open files of the kernel, over any server that keeps
    the handles that it gives until they are released: every open file has an
    inode, and its handle is open at the server under the node of that inode,
    once for each file; when the server creates regular files nothing else is
    open there, so that what was opened was released, once, also by a creation
    that fails half-way; every request that was allocated is freed, or kept for
    a FORGET or a RELEASE; and every operation on files, names and inodes that
    the VFS may ask for returns, in such a state again. *)
Theorem open_files_account k :
  opens k ->
  (forall f fl, files k !! f = Some fl ->
     exists i, inodes (core k) !! f_inode fl = Some i /\ (i_nodeid i, f_fh fl, f_isdir fl) ∈ handles (server (core k))) /\
  opened (inodes (core k)) (files k) ⊆ handles (server (core k)) /\
  (valid_creates -> handles (server (core k)) = opened (inodes (core k)) (files k)) /\
  held (core k) = Z.of_nat (size (inodes (core k))) + Z.of_nat (size (files k)) /\
  (forall id, owes (server (core k)) id (claims (inodes (core k)) id + pend (forgets (core k)) id)) /\
  forall t op, may_file k op ->
    exists k', run_file t op k = Ret (tt, k') /\ (steady op = true \/ pinned k k' -> opens k').
Proof.
  intros Hk. pose proof (opens_finv k Hk) as Hf. destruct (f_account k Hf) as (lost & Hs & Hlost).
  destruct (k_ok _ _ _ Hs) as [_ Hh]. split_and!.
  - intros f fl Hfl. destruct (f_there k Hf f fl Hfl) as [i Hi]. exists i. split; [done |]. rewrite Hh.
    pose proof (opened_in (inodes (core k)) _ f fl Hfl) as Hin. unfold handle_of in Hin. rewrite Hi in Hin. cbn in Hin. multiset_solver.
  - rewrite Hh. multiset_solver.
  - intros Hv. rewrite Hh, Hlost by done. apply (right_id_L ∅ _).
  - rewrite (k_held _ _ _ Hs). lia.
  - intros id. pose proof (k_owes _ _ _ Hs id) as H. change (pend [] id) with 0 in H. by rewrite Z.add_0_r in H.
  - intros t op Hmay. pose proof (runs_run_file t op k Hf Hmay) as (u & k' & E & H)%runs_eq. destruct u. exists k'.
    split; [done |]. intros Hpin. by eapply file_step.
Qed.
End System.

(** * A strict server *)

(** It knows the root and one file, of number [2]; it counts the lookups of each, and has
    the open files and the next handle. *)
Record desk := Desk { known : Z -> Z; d_open : gmultiset handle; next : Z }.

Definition desk_file : fuse_attr := Attr 2 0 0 0 0 0 0 0 0 (S_IFREG + 420) 1 0 0 0.
Definition desk_root : fuse_attr := Attr 1 0 0 0 0 0 0 0 0 (S_IFDIR + 493) 2 0 0 0.

Definition desk_reply (err : Z) (fh : Z) : kreply :=
  KReply err (EntryOut 2 0 (1, 0) (1, 0) desk_file) (AttrOut (1, 0) desk_root) [] 0 (OpenOut fh 0).

Definition add_known (id n : Z) (d : desk) : desk :=
  Desk (fun i => if i =? id then known d id + n else known d i) (d_open d) (next d).

(** Nobody is answered who asks about what he does not know, or uses what is not open. *)
Definition desk_knows (d : desk) (c : kernel_call) : bool :=
  forallb (fun p => snd p <=? Z.max 0 (known d (fst p))) (needs c) &&
  match uses c with Some h => bool_decide (h ∈ d_open d) | None => true end.

Definition desk_serve (c : kernel_call) : M desk kreply := fun d =>
  if negb (desk_knows d c) then UB
  else
    match c with
    | KForget id n => Ret (desk_reply 0 0, add_known id (- n) d)
    | KLookup _ _ | KMknod _ _ _ _ | KMkdir _ _ _ | KSymlink _ _ _ | KLink _ _ _ =>
        if known d 2 + 1 <? 2 ^ 64 then Ret (desk_reply 0 0, add_known 2 1 d) else Ret (desk_reply (- 23) 0, d)
    | KCreate _ _ _ _ =>
        if known d 2 + 1 <? 2 ^ 64
        then Ret (desk_reply 0 (next d), add_known 2 1 (Desk (known d) ({[+ (2, next d, false) +]} ⊎ d_open d) (next d + 1)))
        else Ret (desk_reply (- 23) 0, d)
    | KOpen id isdir _ => Ret (desk_reply 0 (next d), Desk (known d) ({[+ (id, next d, isdir) +]} ⊎ d_open d) (next d + 1))
    | KRelease id fh _ isdir => Ret (desk_reply 0 0, Desk (known d) (d_open d ∖ {[+ (id, fh, isdir) +]}) (next d))
    | _ => Ret (desk_reply 0 0, d)
    end.

Definition desk_ok (d : desk) : Prop := forall id, 0 <= known d id < 2 ^ 64.
Definition desk_owes (d : desk) (id n : Z) : Prop := n <= Z.max 0 (known d id).
Definition desk_admits (d : desk) (c : kernel_call) : Prop := match c with KForget _ n => 0 < n | _ => True end.

Lemma desk_ok_add id n d : desk_ok d -> 0 <= known d id + n < 2 ^ 64 -> desk_ok (add_known id n d).
Proof. intros Hd Hn i. specialize (Hd i). cbn. destruct (Z.eqb_spec i id) as [->|]; lia. Qed.

Lemma desk_owes_add id n d i k : desk_ok d -> 0 <= known d id + n -> desk_owes d i k -> desk_owes (add_known id n d) i (k + pend [(id, n)] i).
Proof.
  unfold desk_owes. intros Hd Hn Hk. specialize (Hd i). rewrite pend_cons. change (pend [] i) with 0. cbn.
  destruct (Z.eqb_spec i id) as [->|]; [rewrite Z.eqb_refl; lia |]. destruct (Z.eqb_spec id i); lia.
Qed.

#[export] Instance desk_open_server : OpenServer desk_serve desk_ok desk_owes desk_admits d_open.
Proof.
  split.
  - unfold desk_owes. intros. lia.
  - unfold desk_owes. intros. lia.
  - unfold desk_owes. intros s id k Hs Hk. specialize (Hs id). lia.
  - done.
  - intros d c Hd Hneed Hadm Huse.
    assert (desk_knows d c = true) as Hknow.
    { apply andb_true_iff. split.
      - apply forallb_forall. intros [id n] Hin%list_elem_of_In. apply Z.leb_le. by apply Hneed.
      - destruct (uses c); [| done]. apply bool_decide_eq_true. by apply Huse. }
    pose proof (Hd 2) as H2. unfold runs, desk_serve. rewrite Hknow. cbn [negb].
    assert (forall id k, desk_owes d id k -> desk_owes d id (k + 0)) as H0 by (intros; by rewrite Z.add_0_r).
    destruct c; cbv iota; try (destruct (Z.ltb_spec (known d 2 + 1) (2 ^ 64)); [| split_and!; [exact Hd | exact H0 | done]]);
      try (split_and!; [exact Hd | exact H0 | done]);
      (split_and!; [apply (desk_ok_add _ _ d); [done |] | intros; apply (desk_owes_add _ _ d); [done | | done] | done]); try lia.
    3: cbn; lia.
    all: pose proof (Hneed ino nlookup (list_elem_of_here _ _)) as Hn; cbn in Hadm; unfold desk_owes in Hn; specialize (Hd ino); lia.
Qed.

Lemma desk_creates : valid_creates (serve := desk_serve).
Proof.
  intros dir name flags mode s r s' E _. unfold desk_serve in E. destruct (desk_knows s _); [| done]. cbn [negb] in E. cbv iota in E.
  destruct (_ <? _); by injection E as <- _.
Qed.

(** ** A mount, a directory that is opened, a file that is created *)

Definition desk_start : desk := Desk (fun id => if id =? 1 then 1 else 0) ∅ 7.

Definition desk_owner : owner := Owner 1000 100 true false.
Definition desk_task : task := Task 1000 1000 1000 100 100 100.

Abbreviation desk_run := (run_file desk_serve plain_vfs (fun _ => 0) (fun _ => true) (fun _ _ => 0) (fun _ => 0) (fun i => i)
  (fun _ => true) desk_owner (fun _ _ => 0) (fun _ _ => 0) (fun (d : unit) _ _ _ _ => (d, false)) tt desk_task).
Abbreviation desk_opens := (opens desk_serve plain_vfs (fun _ => 0) (fun _ => true) (fun _ _ => 0) (fun _ => 0) (fun i => i)
  (fun _ => true) desk_owner (fun _ _ => 0) (fun _ _ => 0) (fun (d : unit) _ _ _ _ => (d, false)) tt desk_ok desk_owes desk_admits d_open).
Abbreviation desk_may := (may_file desk_serve desk_admits).

Definition desk_next (op : file_op) (k : fkern desk) : fkern desk :=
  match desk_run op k with Ret (_, k') => k' | _ => k end.

Definition desk_names : gmap nat dentry := {[0%nat := Dentry 0 (B "a") None 0 false true]}.

Definition desk_mounted : fkern desk :=
  FKern match get_root_inode plain_vfs S_IFDIR (no_inodes desk_start) with Ret (_, c) => c | _ => no_inodes desk_start end ∅.
Definition desk_opened : fkern desk := desk_next (FOpen 0 0 0 true) desk_mounted.
Definition desk_named : fkern desk := desk_next (Core (Names desk_names)) desk_opened.
Definition desk_created : fkern desk := desk_next (FCreate 1 0 (S_IFREG + 420) (Some (2, 1))) desk_named.

Lemma desk_start_ok : desk_ok desk_start.
Proof. intros id. cbn. destruct (id =? 1); lia. Qed.

Lemma desk_mounted_opens : desk_opens desk_mounted.
Proof.
  apply (nothing_open _ _ _ _ _ _ _ _ _ _ _ _ _ _ _ _ _ desk_start S_IFDIR 0); [exact desk_start_ok | done | done | done |].
  vm_compute. reflexivity.
Qed.

Lemma desk_opened_opens : desk_opens desk_opened.
Proof.
  eapply (file_step _ _ _ _ _ _ _ _ _ _ _ _ _ _ _ _ _ desk_mounted desk_task (FOpen 0 0 0 true));
    [exact desk_mounted_opens | | vm_compute; reflexivity | left; reflexivity].
  split; [split; [done | vm_compute; by eexists] |]. by intros c Hc s; destruct c.
Qed.

Lemma desk_named_opens : desk_opens desk_named.
Proof.
  eapply (file_step _ _ _ _ _ _ _ _ _ _ _ _ _ _ _ _ _ desk_opened desk_task (Core (Names desk_names)));
    [exact desk_opened_opens | | vm_compute; reflexivity | right].
  2:{ intros f fl id _. assert (inodes (core desk_named) = inodes (core desk_opened)) as E by (vm_compute; reflexivity).
      unfold stands. by rewrite E. }
  split; [| by intros c []]. intros e d He. unfold desk_names in He. apply lookup_singleton_Some in He as [_ <-].
  split; [vm_compute; by eexists | done].
Qed.

Lemma desk_created_opens : desk_opens desk_created.
Proof.
  eapply (file_step _ _ _ _ _ _ _ _ _ _ _ _ _ _ _ _ _ desk_named desk_task (FCreate 1 0 (S_IFREG + 420) (Some (2, 1))));
    [exact desk_named_opens | | vm_compute; reflexivity | right].
  - split; [split_and!; [done | eexists; split; [vm_compute; reflexivity | done] | done] |]. by intros c Hc s; destruct c.
  - intros f fl id Hf. assert (f = 0%nat /\ f_inode fl = 0%nat) as [-> ->].
    { change (files desk_named) with ({[0%nat := File 0 0 true 7 false]} : gmap nat file) in Hf.
      by apply lookup_singleton_Some in Hf as [<- <-]. }
    intros (i & Hi & <-). vm_compute in Hi. injection Hi as <-. eexists. split; [vm_compute; reflexivity | done].
Qed.

Lemma open_files_account_witness :
  d_open (server (core desk_created)) = opened (inodes (core desk_created)) (files desk_created) /\
  held (core desk_created) = 4 /\
  exists k', desk_run (FRelease 0) desk_created = Ret (tt, k') /\ desk_opens k'.
Proof.
  destruct (open_files_account desk_serve plain_vfs (fun _ => 0) (fun _ => true) (fun _ _ => 0) (fun _ => 0) (fun i => i)
    (fun _ => true) desk_owner (fun _ _ => 0) (fun _ _ => 0) (fun (d : unit) _ _ _ _ => (d, false)) tt desk_ok desk_owes desk_admits d_open
    desk_created desk_created_opens) as (_ & _ & Hall & Hheld & _ & Hrun).
  split; [apply Hall, desk_creates |]. split; [exact Hheld |].
  destruct (Hrun desk_task (FRelease 0)) as (k' & E & Hk').
  - split; [vm_compute; by eexists |]. by intros c Hc s; destruct c.
  - exists k'. split; [exact E | by apply Hk'; left].
Defined.
