(* ===== verification/Archive.v ===== *)
(** other_fs/archivemount-0.5.3/archivemount.c: a file system that shows an archive. Its
    tree of nodes in a heap, with lists of siblings that are linked both ways; the reading
    of the archive into the tree, and the callbacks that search and change it. libarchive is
    a class [Libarchive], the system calls are the answers of an [os]. *)

From S2P Require Import Prelude.
From S2P Require Import CString.

Definition EROFS : Z := 30.
Definition ENOENT : Z := 2.
Definition EEXIST : Z := 17.
Definition ENOTDIR : Z := 20.
Definition EISDIR : Z := 21.
Definition EINVAL : Z := 22.
Definition ENOSYS : Z := 38.
Definition ENOTEMPTY : Z := 39.
Definition ENOLINK : Z := 67.

(** Types of files. *)
Definition S_IFMT : Z := 61440.
Definition S_ISDIR (mode : Z) : bool := Z.land mode S_IFMT =? 16384.
Definition S_ISLNK (mode : Z) : bool := Z.land mode S_IFMT =? 40960.

(** [struct stat]. *)
Record stat := Stat {
  st_dev : Z; st_ino : Z; st_mode : Z; st_nlink : Z; st_uid : Z; st_gid : Z; st_rdev : Z; st_size : Z;
  st_atime : Z; st_mtime : Z; st_ctime : Z }.

(** The headers of libarchive, [struct archive_entry]. Below, the numbers of archive.h. *)
Class Libarchive (entry : Type) := {
  archive_entry_new : entry;
  archive_entry_pathname : entry -> bytes;
  archive_entry_mode : entry -> Z;
  archive_entry_ino : entry -> Z;
  archive_entry_size : entry -> Z;
  archive_entry_stat : entry -> stat;
  archive_entry_hardlink : entry -> option bytes;
  archive_entry_symlink : entry -> option bytes;
  archive_entry_set_pathname : bytes -> entry -> entry;
  archive_entry_set_mode : Z -> entry -> entry;
  archive_entry_set_size : Z -> entry -> entry;
  archive_entry_set_uid : Z -> entry -> entry;
  archive_entry_set_gid : Z -> entry -> entry;
  archive_entry_set_uname : bytes -> entry -> entry;
  archive_entry_set_gname : bytes -> entry -> entry;
  archive_entry_set_mtime : Z -> entry -> entry;
  archive_entry_set_atime : Z -> entry -> entry;
  archive_entry_set_rdevmajor : Z -> entry -> entry;
  archive_entry_set_rdevminor : Z -> entry -> entry;
  archive_entry_set_hardlink : bytes -> entry -> entry;
  archive_entry_copy_stat : stat -> entry -> entry }.

Definition ARCHIVE_FORMAT_CPIO : Z := 65536.
Definition ARCHIVE_FORMAT_CPIO_POSIX : Z := 65537.
Definition ARCHIVE_FORMAT_SHAR : Z := 131072.
Definition ARCHIVE_FORMAT_SHAR_BASE : Z := 131073.
Definition ARCHIVE_FORMAT_SHAR_DUMP : Z := 131074.
Definition ARCHIVE_FORMAT_TAR : Z := 196608.
Definition ARCHIVE_FORMAT_TAR_USTAR : Z := 196609.
Definition ARCHIVE_FORMAT_TAR_PAX_INTERCHANGE : Z := 196610.
Definition ARCHIVE_FORMAT_TAR_PAX_RESTRICTED : Z := 196611.
Definition ARCHIVE_FORMAT_TAR_GNUTAR : Z := 196612.
Definition ARCHIVE_FORMAT_ISO9660 : Z := 262144.
Definition ARCHIVE_FORMAT_ISO9660_ROCKRIDGE : Z := 262145.
Definition ARCHIVE_FORMAT_ZIP : Z := 327680.
Definition ARCHIVE_COMPRESSION_NONE : Z := 0.
Definition ARCHIVE_COMPRESSION_GZIP : Z := 1.
Definition ARCHIVE_COMPRESSION_BZIP2 : Z := 2.
Definition ARCHIVE_COMPRESSION_COMPRESS : Z := 3.

(** The system calls of the callbacks. *)
Inductive syscall :=
| Mkstemp (template : bytes) | Close (fd : Z) | Mkdir (path : bytes) (mode : Z) | Mknod (path : bytes) (mode rdev : Z)
| Rmdir (path : bytes) | Unlink (path : bytes) | Lstat (path : bytes) | Getpwuid (uid : Z) | Getgrgid (gid : Z)
| Open (path : bytes) (flags mode : Z) | Pread (fd : Z) (size offset : Z) | Write (fd : Z) (buf : bytes)
| Pwrite (fd : Z) (buf : bytes) (offset : Z) | Truncate (path : bytes) (size : Z) | Rename (from to : bytes).

(** What they answer, the [n]th of them: an error or a value; the name of a user or group,
    or the error that [errno] has then; the descriptor of an open file, what is read from
    it, how much is written to it. *)
Record os := Os {
  os_mkstemp : nat -> bytes + Z; os_call : nat -> option Z; os_lstat : nat -> stat + Z; os_name : nat -> bytes + Z;
  os_open : nat -> Z + Z; os_pread : nat -> bytes + Z; os_write : nat -> Z + Z;
  os_getuid : Z; os_getgid : Z; P_tmpdir : bytes }.

(** ** The tree *)

(** [struct node]. *)
Record node (entry : Type) := Node {
  parent : option nat; prev : option nat; next : option nat; child : option nat;
  name : bytes; location : option bytes; namechanged : bool; nentry : entry; nmodified : bool }.
Arguments Node {entry}.
Arguments parent {entry}. Arguments prev {entry}. Arguments next {entry}. Arguments child {entry}. Arguments name {entry}.
Arguments location {entry}. Arguments namechanged {entry}. Arguments nentry {entry}. Arguments nmodified {entry}.

(** The nodes that are allocated, the root, and the globals of the file. *)
Record fs (entry : Type) := Fs {
  nodes : gmap nat (node entry); root : nat; archiveWriteable : bool; archiveModified : bool; trace : list syscall }.
Arguments Fs {entry}. Arguments nodes {entry}. Arguments root {entry}. Arguments archiveWriteable {entry}.
Arguments archiveModified {entry}. Arguments trace {entry}.

Section Nodes.
Context {entry : Type}.
Implicit Types n : node entry.

Definition set_parent p n := Node p (prev n) (next n) (child n) (name n) (location n) (namechanged n) (nentry n) (nmodified n).
Definition set_prev p n := Node (parent n) p (next n) (child n) (name n) (location n) (namechanged n) (nentry n) (nmodified n).
Definition set_next p n := Node (parent n) (prev n) p (child n) (name n) (location n) (namechanged n) (nentry n) (nmodified n).
Definition set_child p n := Node (parent n) (prev n) (next n) p (name n) (location n) (namechanged n) (nentry n) (nmodified n).
Definition set_name s n := Node (parent n) (prev n) (next n) (child n) s (location n) true (nentry n) (nmodified n).
Definition set_entry (e : entry) n := Node (parent n) (prev n) (next n) (child n) (name n) (location n) (namechanged n) e (nmodified n).

Definition set_nodes (m : gmap nat (node entry)) (s : fs entry) := Fs m (root s) (archiveWriteable s) (archiveModified s) (trace s).
Definition set_modified (s : fs entry) := Fs (nodes s) (root s) (archiveWriteable s) true (trace s).

(** [init_node], with the name and the header that the callers fill in at once; there is
    memory, as no caller looks. *)
Definition init_node (nm : bytes) (loc : option bytes) (e : entry) (m : bool) : node entry :=
  Node None None None None nm loc false e m.

Definition node_at (a : nat) : M (fs entry) (node entry) :=
  s ← get; match nodes s !! a with Some n => mret n | None => ub end.

Definition update (a : nat) (f : node entry -> node entry) : M (fs entry) unit :=
  n ← node_at a; modify (fun s => set_nodes (<[a := f n]> (nodes s)) s).

Definition malloc_node (n : node entry) : M (fs entry) nat :=
  s ← get; let a := fresh (dom (nodes s)) in _ ← modify (set_nodes (<[a := n]> (nodes s))); mret a.

Definition free_node (a : nat) : M (fs entry) unit :=
  _ ← node_at a; modify (fun s => set_nodes (delete a (nodes s)) s).

Definition remove_child (a : nat) : M (fs entry) unit :=
  n ← node_at a;
  _ ← match prev n with
      | Some b => update b (set_next (next n))
      | None => match parent n with Some p => update p (set_child (next n)) | None => mret tt end
      end;
  match next n with Some b => update b (set_prev (prev n)) | None => mret tt end.

(** The last of the siblings from [b] on. *)
Fixpoint last_sibling (fuel : nat) (b : nat) : M (fs entry) nat :=
  match fuel with
  | O => hang
  | S fuel => n ← node_at b; match next n with Some c => last_sibling fuel c | None => mret b end
  end.

Definition sibling_fuel (s : fs entry) : nat := S (size (nodes s)).

(** The pointers [prev] and [next] of a node that becomes the only child stay as they are. *)
Definition insert_as_child (a p : nat) : M (fs entry) unit :=
  _ ← update a (set_parent (Some p));
  pn ← node_at p;
  match child pn with
  | None => update p (set_child (Some a))
  | Some b =>
      s ← get;
      b ← last_sibling (sibling_fuel s) b;
      _ ← update b (set_next (Some a));
      _ ← update a (set_prev (Some b));
      update a (set_next None)
  end.

(** ** Names *)

(** [strrchr(s, '/') + 1]. *)
Definition last_name (s : bytes) : M (fs entry) bytes :=
  if decide (SLASH ∈ s) then mret (basename s) else ub.

(** What is before the first slash and what is after it. *)
Fixpoint next_name (key : bytes) : option (bytes * bytes) :=
  match key with
  | [] => None
  | c :: key' =>
      if decide (c = SLASH) then Some ([], key')
      else match next_name key' with Some (nam, rest) => Some (c :: nam, rest) | None => None end
  end.

(** The first of the siblings from [start] on with this last component. *)
Fixpoint find_name (fuel : nat) (start : option nat) (nam : bytes) : M (fs entry) (option nat) :=
  match fuel with
  | O => hang
  | S fuel =>
      match start with
      | None => mret None
      | Some c =>
          n ← node_at c;
          l ← last_name (name n);
          if strcmp l nam =? 0 then mret (Some c) else find_name fuel (next n) nam
      end
  end.

(** [malloc(size)] and [sprintf] into it. *)
Definition sprintf_new (size : Z) (s : bytes) : M (fs entry) bytes := strcpy size s.

Section Insert.
Context {lib : Libarchive entry}.

(** The end of [insert_by_path], in the directory [cur]. *)
Definition insert_in (a cur : nat) : M (fs entry) Z :=
  n ← node_at a;
  cn ← node_at cur;
  if S_ISDIR (archive_entry_mode (nentry cn)) then
    found ← match child cn with
            | None => mret None
            | Some c => nam ← last_name (name n); s ← get; find_name (sibling_fuel s) (Some c) nam
            end;
    match found with
    | Some t => tn ← node_at t; _ ← update a (set_entry (nentry tn)); mret 0
    | None => _ ← insert_as_child a cur; mret 0
    end
  else mret (- ENOTDIR).

(** The loop of [insert_by_path]: the directory where the components of [key] lead from
    [cur], made on the way. A component that is the last one of [cur] itself does not lead
    anywhere. *)
Fixpoint walk (insert : nat -> M (fs entry) Z) (fuel : nat) (rt cur : nat) (key : bytes) : M (fs entry) nat :=
  match fuel with
  | O => hang
  | S fuel =>
      match next_name key with
      | None => mret cur
      | Some (nam, key') =>
          cn ← node_at cur;
          l ← last_name (name cn);
          found ← (if strcmp l nam =? 0 then mret (Some cur) else s ← get; find_name (sibling_fuel s) (child cn) nam);
          match found with
          | Some c => walk insert fuel rt c key'
          | None =>
              nm ← sprintf_new (strlen (name cn) + strlen nam + 1)
                     (if decide (cur = rt) then SLASH :: nam else name cn ++ SLASH :: nam);
              rn ← node_at rt;
              t ← malloc_node (init_node nm None (nentry rn) false);
              _ ← insert t;
              walk insert fuel rt t key'
          end
      end
  end.

(** The recursion is on nodes with shorter names. *)
Fixpoint insert_by_path (fuel : nat) (rt a : nat) : M (fs entry) Z :=
  match fuel with
  | O => hang
  | S fuel =>
      n ← node_at a;
      match name n with
      | [] => ub
      | _ :: key =>
          cur ← walk (insert_by_path fuel rt) (S (length key)) rt rt key;
          insert_in a cur
      end
  end.

(** A node is inserted with the fuel of its name. *)
Definition insert_node (a : nat) : M (fs entry) Z :=
  s ← get; n ← node_at a; insert_by_path (S (length (name n))) (root s) a.
End Insert.

(** ** Searching *)

(** The loop over the siblings from [start] on, with [below] for the children. *)
Fixpoint scan (below : option nat -> M (fs entry) (option nat)) (fuel : nat) (start : option nat) (path : bytes)
  : M (fs entry) (option nat) :=
  match fuel with
  | O => hang
  | S fuel =>
      match start with
      | None => mret None
      | Some run =>
          n ← node_at run;
          if strcmp path (name n) =? 0 then mret (Some run)
          else
            ret ← (if bool_decide (is_Some (child n)) && (strncmp path (name n) (strlen (name n)) =? 0)
                   then below (child n) else mret None);
            match ret with Some c => mret (Some c) | None => scan below fuel (next n) path end
      end
  end.

(** The names below a node are longer than its name. *)
Fixpoint get_node (depth : nat) (start : option nat) (path : bytes) : M (fs entry) (option nat) :=
  match depth with
  | O => hang
  | S depth => s ← get; scan (fun c => get_node depth c path) (sibling_fuel s) start path
  end.

Definition get_node_for_path (start : nat) (path : bytes) : M (fs entry) (option nat) :=
  get_node (S (length path)) (Some start) path.
End Nodes.
