(* ===== verification/ArchiveFS.v ===== *)
(** other_fs/archivemount-0.5.3/archivemount.c, continued: the archive is read into the tree
    ([build_tree]), and the callbacks of its table of operations. Reading and writing the
    contents of files, and the new archive at the end, are left out. *)

From S2P Require Import Prelude.
From S2P Require Import CString.
From S2P Require Import Archive.

Section Callbacks.
Context {entry : Type} {lib : Libarchive entry} (w : os).
Implicit Types n : node entry.

(** * Reading the archive *)

(** The name of a member in the tree: it starts with a slash, and has none at its end. *)
Definition node_name (pathname : bytes) : bytes :=
  let nm :=
    if strncmp pathname (B "./") 2 =? 0 then drop 1 pathname
    else match pathname with
         | c :: _ => if decide (c = SLASH) then pathname else SLASH :: pathname
         | [] => SLASH :: pathname
         end in
  if decide (last nm = Some SLASH) then take (length nm - 1) nm else nm.

(** The loop over the headers of the archive. *)
Fixpoint read_entries (headers : list entry) : M (fs entry) Z :=
  match headers with
  | [] => mret 0
  | e :: headers =>
      let nm := archive_entry_pathname e in
      if strncmp nm (B "./") 3 =? 0 then read_entries headers
      else
        cur ← malloc_node (init_node (node_name nm) None e false);
        err ← insert_node cur;
        if negb (err =? 0) then mret (- ENOENT) else read_entries headers
  end.

(** Before the first entry: the error of libarchive or of [fstat], the format and the
    compression, and the attributes of the file and of the mount point. *)
Record archive_file := ArchiveFile {
  open_error : option Z; format : Z; compression : Z; fstat : stat + Z; mount_stat : stat; headers : list entry }.

Definition unwriteable (f : archive_file) : bool :=
  negb (Z.land (format f) ARCHIVE_FORMAT_ISO9660 =? 0) || negb (Z.land (format f) ARCHIVE_FORMAT_ISO9660_ROCKRIDGE =? 0)
  || negb (Z.land (format f) ARCHIVE_FORMAT_ZIP =? 0) || (compression f =? ARCHIVE_COMPRESSION_COMPRESS).

Definition root_entry (st : stat) (mount : stat) : entry :=
  archive_entry_set_mode (st_mode mount)
    (archive_entry_set_size (st_size st)
       (archive_entry_set_pathname [SLASH]
          (archive_entry_set_mode (st_mtime st)
             (archive_entry_set_gid (os_getuid w) (archive_entry_set_gid (os_getgid w) archive_entry_new))))).

Definition build_tree (f : archive_file) : M (fs entry) Z :=
  match open_error f with
  | Some err => mret err
  | None =>
      _ ← (if unwriteable f then modify (fun s => Fs (nodes s) (root s) false (archiveModified s) (trace s)) else mret tt);
      r ← malloc_node (init_node [SLASH] None archive_entry_new false);
      _ ← modify (fun s => Fs (nodes s) r (archiveWriteable s) (archiveModified s) (trace s));
      match fstat f with
      | inr err => mret err
      | inl st =>
          _ ← update r (set_entry (root_entry st (mount_stat f)));
          read_entries (headers f)
      end
  end.

(** * System calls *)

Definition call (c : syscall) : M (fs entry) nat :=
  s ← get;
  _ ← modify (fun s => Fs (nodes s) (root s) (archiveWriteable s) (archiveModified s) (trace s ++ [c]));
  mret (length (trace s)).

(** An error, if there is one. *)
Definition call_err (c : syscall) : M (fs entry) (option Z) := i ← call c; mret (os_call w i).

(** ** New nodes *)

Definition to_underscore (c : ascii) : ascii := if decide (c = SLASH) then "_"%char else c.

(** The name of a file that does not exist; the comparison of [mkstemp] with [-1] is taken
    for its result, so that the file that is closed is the standard input. *)
Definition get_temp_file_name (path : bytes) : M (fs entry) (Z + bytes) :=
  let tmppath := map to_underscore path in
  template ← sprintf_new (strlen (P_tmpdir w) + strlen (B "_archivemount") + strlen tmppath + 8)
               (P_tmpdir w ++ B "/archivemount" ++ tmppath ++ B "_XXXXXX");
  i ← call (Mkstemp template);
  match os_mkstemp w i with
  | inr err => mret (inl (- err))
  | inl loc => _ ← call (Close 0); _ ← call (Unlink loc); mret (inr loc)
  end.

(** [getpwuid] and [getgrgid] in [update_entry_stat]. *)
Definition set_names (st : stat) (e : entry) : M (fs entry) entry :=
  i ← call (Getpwuid (st_uid st));
  let e := match os_name w i with inl nm => archive_entry_set_uname nm e | inr _ => e end in
  i ← call (Getgrgid (st_gid st));
  mret match os_name w i with inl nm => archive_entry_set_gname nm e | inr _ => e end.

Definition update_entry_stat (a : nat) : M (fs entry) Z :=
  n ← node_at a;
  match location n with
  | None => ub
  | Some loc =>
      i ← call (Lstat loc);
      match os_lstat w i with
      | inr err => mret (- err)
      | inl st =>
          let e := archive_entry_set_rdevminor (st_dev st) (archive_entry_set_rdevmajor (st_dev st)
                     (archive_entry_set_mode (st_mode st) (archive_entry_set_size (st_size st)
                        (archive_entry_set_mtime (st_mtime st) (archive_entry_set_uid (st_uid st)
                           (archive_entry_set_gid (st_gid st) (nentry n))))))) in
          e ← set_names st e;
          _ ← update a (set_entry e);
          mret 0
      end
  end.

(** The path of a new header: like that of the first child of the root. *)
Definition like (first : bytes) (nm : bytes) : bytes :=
  match nm, first with
  | c :: rest, d :: _ => if decide (c = SLASH) then if decide (d = SLASH) then nm else rest else nm
  | c :: rest, [] => if decide (c = SLASH) then rest else nm
  | [], _ => nm
  end.

Definition new_pathname (nm : bytes) : M (fs entry) bytes :=
  s ← get;
  r ← node_at (root s);
  match child r with
  | Some c => cn ← node_at c; mret (like (archive_entry_pathname (nentry cn)) nm)
  | None => mret nm
  end.

Definition find (path : bytes) : M (fs entry) (option nat) := s ← get; get_node_for_path (root s) path.

(** [archiveModified = 1] and a result. *)
Definition changed (z : Z) : M (fs entry) Z := _ ← modify set_modified; mret z.

(** Between the call that makes the file and the end, for [ar_mkdir] and [ar_mknod], which
    undo it by [undo]. *)
Definition add_file (path loc : bytes) (undo : syscall) : M (fs entry) Z :=
  a ← malloc_node (init_node path (Some loc) archive_entry_new true);
  pathname ← new_pathname path;
  _ ← update a (fun n => set_entry (archive_entry_set_pathname pathname (nentry n)) n);
  tmp ← update_entry_stat a;
  if tmp <? 0 then _ ← call undo; _ ← free_node a; mret tmp
  else
    err ← insert_node a;
    if negb (err =? 0) then _ ← call undo; _ ← free_node a; mret (- ENOENT)
    else changed 0.

(** [tmp] is the truth value of the comparison of the result with 0. *)
Definition ar_mkdir (path : bytes) (mode : Z) : M (fs entry) Z :=
  s ← get;
  if negb (archiveWriteable s) then mret (- EROFS)
  else
    found ← find path;
    if found is Some _ then mret (- EEXIST)
    else
      tmp ← get_temp_file_name path;
      match tmp with
      | inl err => if err <? 0 then mret 1 else ub
      | inr loc =>
          err ← call_err (Mkdir loc mode);
          match err with Some err => mret (- err) | None => add_file path loc (Rmdir loc) end
      end.

Definition ar_mknod (path : bytes) (mode rdev : Z) : M (fs entry) Z :=
  s ← get;
  if negb (archiveWriteable s) then mret (- EROFS)
  else
    found ← find path;
    if found is Some _ then mret (- EEXIST)
    else
      tmp ← get_temp_file_name path;
      match tmp with
      | inl err => if err <? 0 then mret 1 else ub
      | inr loc =>
          err ← call_err (Mknod loc mode rdev);
          match err with Some err => mret (- err) | None => add_file path loc (Unlink loc) end
      end.

(** ** Removing *)

(** The end of [ar_rmdir] and [ar_unlink]; the error of the system call is not negated. *)
Definition drop_node (a : nat) (how : bytes -> syscall) : M (fs entry) Z :=
  n ← node_at a;
  err ← match location n with Some loc => call_err (how loc) | None => mret None end;
  match err with
  | Some err => mret err
  | None => _ ← remove_child a; _ ← free_node a; changed 0
  end.

Definition ar_rmdir (path : bytes) : M (fs entry) Z :=
  s ← get;
  if negb (archiveWriteable s) then mret (- EROFS)
  else
    found ← find path;
    match found with
    | None => mret (- ENOENT)
    | Some a =>
        n ← node_at a;
        if bool_decide (is_Some (child n)) then mret (- ENOTEMPTY)
        else match last (name n) with
             | None => ub
             | Some c =>
                 if decide (c = "."%char) then mret (- EINVAL)
                 else if negb (S_ISDIR (archive_entry_mode (nentry n))) then mret (- ENOTDIR)
                 else drop_node a Rmdir
             end
    end.

Definition ar_unlink (path : bytes) : M (fs entry) Z :=
  s ← get;
  if negb (archiveWriteable s) then mret (- EROFS)
  else
    found ← find path;
    match found with
    | None => mret (- ENOENT)
    | Some a => n ← node_at a; if S_ISDIR (archive_entry_mode (nentry n)) then mret (- EISDIR) else drop_node a Unlink
    end.

(** ** Attributes *)

(** Links are followed by recursion, one step of [fuel] for each. *)
Fixpoint ar_getattr (fuel : nat) (path : bytes) (stbuf : stat) : M (fs entry) (Z * stat) :=
  match fuel with
  | O => hang
  | S fuel =>
      found ← find path;
      match found with
      | None => mret (- ENOENT, stbuf)
      | Some a =>
          n ← node_at a;
          match archive_entry_hardlink (nentry n) with
          | Some target => ar_getattr fuel target stbuf
          | None => mret (0, archive_entry_stat (nentry n))
          end
      end
  end.

(** A change of the attributes of a node: [ar_chmod], [ar_chown] and [ar_utime]. *)
Definition change (a : nat) (f : entry -> entry) : M (fs entry) Z :=
  _ ← update a (fun n => set_entry (f (nentry n)) n); changed 0.

Fixpoint ar_chmod (fuel : nat) (path : bytes) (mode : Z) : M (fs entry) Z :=
  match fuel with
  | O => hang
  | S fuel =>
      s ← get;
      if negb (archiveWriteable s) then mret (- EROFS)
      else
        found ← find path;
        match found with
        | None => mret (- ENOENT)
        | Some a =>
            n ← node_at a;
            match archive_entry_hardlink (nentry n), archive_entry_symlink (nentry n) with
            | Some target, _ | None, Some target => ar_chmod fuel target mode
            | None, None => change a (archive_entry_set_mode mode)
            end
        end
  end.

Fixpoint ar_chown (fuel : nat) (path : bytes) (uid gid : Z) : M (fs entry) Z :=
  match fuel with
  | O => hang
  | S fuel =>
      s ← get;
      if negb (archiveWriteable s) then mret (- EROFS)
      else
        found ← find path;
        match found with
        | None => mret (- ENOENT)
        | Some a =>
            n ← node_at a;
            match archive_entry_hardlink (nentry n) with
            | Some target => ar_chown fuel target uid gid
            | None => change a (fun e => archive_entry_set_gid gid (archive_entry_set_uid uid e))
            end
        end
  end.

Fixpoint ar_utime (fuel : nat) (path : bytes) (actime modtime : Z) : M (fs entry) Z :=
  match fuel with
  | O => hang
  | S fuel =>
      s ← get;
      if negb (archiveWriteable s) then mret (- EROFS)
      else
        found ← find path;
        match found with
        | None => mret (- ENOENT)
        | Some a =>
            n ← node_at a;
            match archive_entry_hardlink (nentry n), archive_entry_symlink (nentry n) with
            | Some target, _ | None, Some target => ar_utime fuel target actime modtime
            | None, None => change a (fun e => archive_entry_set_atime actime (archive_entry_set_mtime modtime e))
            end
        end
  end.

(** ** Links *)

(** [junk] is what [st] holds before the call of [ar_getattr], whose result is not looked
    at. The call returns before the rest of the function, which cannot be reached. *)
Definition ar_symlink (from to : bytes) : M (fs entry) Z := mret (- ENOSYS).

(** A lookup of a name in [ar_link]: the name, nothing, or an error of the call itself. *)
Definition fatal_errno (err : Z) : bool := existsb (Z.eqb err) [4; 5; 24; 23; 12; 34].

Definition ar_link (junk : stat) (fuel : nat) (from to : bytes) : M (fs entry) Z :=
  s ← get;
  if negb (archiveWriteable s) then mret (- EROFS)
  else
    fromnode ← find from;
    match fromnode with
    | None => mret (- ENOENT)
    | Some f =>
        found ← find to;
        if found is Some _ then mret (- EEXIST)
        else
          r ← ar_getattr fuel from junk;
          let st := snd r in
          fn ← node_at f;
          let e := archive_entry_set_hardlink from (archive_entry_copy_stat st
                     (archive_entry_set_pathname (like (archive_entry_pathname (nentry fn)) to) archive_entry_new)) in
          a ← malloc_node (init_node to None e true);
          i ← call (Getpwuid (st_uid st));
          let abandon (err : Z) : M (fs entry) Z := _ ← free_node a; mret (- err) in
          let named (e : entry) : M (fs entry) Z :=
            i ← call (Getgrgid (st_gid st));
            let grouped (e : entry) : M (fs entry) Z :=
              _ ← update a (set_entry e);
              err ← insert_node a;
              if negb (err =? 0) then _ ← free_node a; mret (- ENOENT) else changed 0 in
            match os_name w i with
            | inl nm => grouped (archive_entry_set_gname nm e)
            | inr err => if fatal_errno err then abandon err else grouped e
            end in
          match os_name w i with
          | inl nm => named (archive_entry_set_uname nm e)
          | inr err => if fatal_errno err then abandon err else named e
          end
    end.

(** ** Renaming *)

(** The names of the siblings from [start] on and of what is below them: [to] in the place
    of the first bytes, as many as [from] has. *)
Definition renamed (from to nm : bytes) : bytes :=
  match to with
  | c :: _ => if decide (c = SLASH) then to ++ drop (length from) nm else SLASH :: to ++ drop (length from) nm
  | [] => SLASH :: to ++ drop (length from) nm
  end.

Fixpoint rename_siblings (below : nat -> M (fs entry) unit) (fuel : nat) (start : option nat) (from to : bytes)
  : M (fs entry) unit :=
  match fuel with
  | O => hang
  | S fuel =>
      match start with
      | None => mret tt
      | Some a =>
          n ← node_at a;
          _ ← match child n with Some c => below c | None => mret tt end;
          n ← node_at a;
          _ ← assert_defined (strlen from <=? strlen (name n));
          _ ← update a (set_name (renamed from to (name n)));
          rename_siblings below fuel (next n) from to
      end
  end.

Fixpoint rename_recursively (depth : nat) (start : nat) (from to : bytes) : M (fs entry) unit :=
  match depth with
  | O => hang
  | S depth =>
      s ← get;
      rename_siblings (fun c => rename_recursively depth c from to) (sibling_fuel s) (Some start) from to
  end.

Definition absolute (to : bytes) : bytes :=
  match to with c :: _ => if decide (c = SLASH) then to else SLASH :: to | [] => SLASH :: to end.

(** There are not more levels than nodes. *)
Definition ar_rename (from to : bytes) : M (fs entry) Z :=
  s ← get;
  if negb (archiveWriteable s) then mret (- EROFS)
  else
    found ← find from;
    match found with
    | None => mret (- ENOENT)
    | Some a =>
        n ← node_at a;
        _ ← match child n with
            | Some c => rename_recursively (S (size (nodes s))) c from to
            | None => mret tt
            end;
        _ ← update a (set_name (absolute to));
        _ ← remove_child a;
        ret ← insert_node a;
        changed ret
    end.

(** ** Reading *)

(** [snprintf(buf, size, "%s", tmp)]. *)
Definition snprintf (size : nat) (s : bytes) : bytes := take (size - 1) s.

Definition ar_readlink (path : bytes) (size : nat) : M (fs entry) (Z * bytes) :=
  found ← find path;
  match found with
  | None => mret (- ENOENT, [])
  | Some a =>
      n ← node_at a;
      if negb (S_ISLNK (archive_entry_mode (nentry n))) then mret (- ENOLINK, [])
      else match archive_entry_symlink (nentry n) with Some tmp => mret (0, snprintf size tmp) | None => ub end
  end.

Definition ar_open (path : bytes) (writes : bool) : M (fs entry) Z :=
  found ← find path;
  match found with
  | None => mret (- ENOENT)
  | Some _ => s ← get; if writes && negb (archiveWriteable s) then mret (- EROFS) else mret 0
  end.

(** The filler gets the name, the number and the mode. *)
Fixpoint fill_loop {F} (filler : F -> bytes -> Z * Z -> F * bool) (fuel : nat) (start : option nat) (buf : F) : M (fs entry) F :=
  match fuel with
  | O => hang
  | S fuel =>
      match start with
      | None => mret buf
      | Some a =>
          n ← node_at a;
          nm ← last_name (name n);
          let '(buf, full) := filler buf nm (archive_entry_ino (nentry n), archive_entry_mode (nentry n)) in
          if full : bool then mret buf else fill_loop filler fuel (next n) buf
      end
  end.

Definition ar_readdir {F} (filler : F -> bytes -> Z * Z -> F * bool) (path : bytes) (buf : F) : M (fs entry) (Z * F) :=
  found ← find path;
  match found with
  | None => mret (- ENOENT, buf)
  | Some a =>
      n ← node_at a;
      s ← get;
      buf ← fill_loop filler (sibling_fuel s) (child n) buf;
      mret (0, buf)
  end.
End Callbacks.
