(* ===== verification/ArchiveTree.v ===== *)
(** The tree of archivemount: paths and their components; when the nodes of a heap are a
    tree, with the lists of siblings that their pointers make; what the searches find. *)

From S2P Require Import Prelude.
From S2P Require Import CString.
From S2P Require Import Archive.

(** * Paths *)

Definition component (c : bytes) : Prop := c <> [] /\ SLASH ∉ c.

#[global] Instance component_dec c : Decision (component c) := _.

(** The name [c] in the directory [d]. *)
Definition join (d c : bytes) : bytes := if decide (d = [SLASH]) then SLASH :: c else d ++ SLASH :: c.

(** The path of components from the root. *)
Fixpoint path_from (d : bytes) (cs : list bytes) : bytes :=
  match cs with [] => d | c :: cs => path_from (join d c) cs end.
Definition path_of (cs : list bytes) : bytes := path_from [SLASH] cs.

(** The directory of a path. *)
Definition dirname (s : bytes) : bytes :=
  match take (length s - S (length (basename s))) s with [] => [SLASH] | d => d end.

Lemma join_ends d c : exists d', join d c = d' ++ SLASH :: c /\ (d' = [] /\ d = [SLASH] \/ d' = d /\ d <> [SLASH]).
Proof.
  unfold join. case_decide as Hd; [exists [] | exists d]; split; try done; [by left | by right].
Qed.

Lemma basename_join d c : SLASH ∉ c -> basename (join d c) = c.
Proof. intros Hc. destruct (join_ends d c) as (d' & -> & _). by apply basename_app. Qed.

Lemma slash_join d c : SLASH ∈ join d c.
Proof. destruct (join_ends d c) as (d' & -> & _). set_solver. Qed.

Lemma dirname_join d c : component c -> d <> [] -> dirname (join d c) = d.
Proof.
  intros [Hc Hs] Hd. unfold dirname. rewrite basename_join by done.
  destruct (join_ends d c) as (d' & -> & Hd'). rewrite length_app. cbn [length].
  replace (length d' + S (length c) - S (length c))%nat with (length d') by lia. rewrite take_app_length.
  destruct Hd' as [[-> ->]|[-> Hr]]; [done |]. by destruct d.
Qed.

Lemma length_join d c : component c -> d <> [] -> (length d < length (join d c))%nat.
Proof.
  intros [Hc _] Hd. destruct (join_ends d c) as (d' & -> & [[-> ->]|[-> _]]); rewrite length_app; cbn [length].
  - destruct c; [done |]. cbn [length]. lia.
  - lia.
Qed.

Lemma prefix_join d c : d `prefix_of` join d c.
Proof.
  unfold join. case_decide as Hd; [subst; by exists c | by eexists].
Qed.

Lemma join_nonempty d c : join d c <> [].
Proof. unfold join. case_decide; [done |]. by destruct d. Qed.

Lemma join_inj d1 d2 c1 c2 :
  component c1 -> component c2 -> d1 <> [] -> d2 <> [] -> join d1 c1 = join d2 c2 -> d1 = d2 /\ c1 = c2.
Proof.
  intros H1 H2 Hd1 Hd2 E. split.
  - by rewrite <- (dirname_join d1 c1), E, dirname_join.
  - rewrite <- (basename_join d1 c1), E, basename_join; [done | apply H2 | apply H1].
Qed.

Lemma join_not_root d c : component c -> d <> [] -> join d c <> [SLASH].
Proof.
  intros Hc Hd E. pose proof (length_join d c Hc Hd) as Hl. rewrite E in Hl. destruct d; [done |]. cbn in Hl. lia.
Qed.

(** ** Components in front of a slash *)

Lemma next_name_app c k : SLASH ∉ c -> next_name (c ++ SLASH :: k) = Some (c, k).
Proof.
  induction c as [|x c IH]; intros Hc; cbn [next_name app].
  - by rewrite decide_True.
  - rewrite decide_False by set_solver. by rewrite IH by set_solver.
Qed.

Lemma next_name_none c : SLASH ∉ c -> next_name c = None.
Proof.
  induction c as [|x c IH]; intros Hc; [done |]. cbn [next_name]. rewrite decide_False by set_solver.
  by rewrite IH by set_solver.
Qed.

(** What follows the first slash of a path. *)
Definition key_of (cs : list bytes) (c : bytes) : bytes := foldr (fun d k => d ++ SLASH :: k) c cs.

Lemma path_from_key d cs c : d <> [] -> d <> [SLASH] -> path_from d (cs ++ [c]) = d ++ SLASH :: key_of cs c.
Proof.
  revert d. induction cs as [|x cs IH]; intros d Hne Hd; cbn [path_from app key_of foldr].
  - unfold join. by rewrite decide_False.
  - rewrite IH; [| apply join_nonempty |]; unfold join; rewrite decide_False by done.
    + by rewrite <- app_assoc.
    + destruct d as [|y d]; [done |]. intros [= _ E]. by destruct d.
Qed.

Lemma path_of_key cs c : Forall component cs -> path_of (cs ++ [c]) = SLASH :: key_of cs c.
Proof.
  intros Hcs. unfold path_of. destruct cs as [|x cs]; [done |]. cbn [app path_from].
  apply Forall_cons in Hcs as [[Hx Hs] _]. change (join [SLASH] x) with (SLASH :: x).
  rewrite path_from_key; [done | done |]. by intros [= ->].
Qed.

Lemma path_from_app d cs c : path_from d (cs ++ [c]) = join (path_from d cs) c.
Proof. revert d. induction cs as [|x cs IH]; intros d; [done |]. cbn [path_from app]. apply IH. Qed.

Lemma path_of_app cs c : path_of (cs ++ [c]) = join (path_of cs) c.
Proof. apply path_from_app. Qed.

Lemma path_from_nonempty d cs : d <> [] -> path_from d cs <> [].
Proof. revert d. induction cs as [|x cs IH]; intros d Hd; [done |]. apply IH, join_nonempty. Qed.

Lemma path_of_nonempty cs : path_of cs <> [].
Proof. by apply path_from_nonempty. Qed.

(** The last component of a directory, none for the root. *)
Lemma basename_path cs : Forall component cs -> basename (path_of cs) = default [] (last cs).
Proof.
  destruct cs as [|c cs _] using rev_ind; [done |]. intros [_ [[Hc Hs] _]%Forall_cons]%Forall_app.
  rewrite path_of_app, basename_join, last_snoc by done. done.
Qed.

Lemma slash_path cs : SLASH ∈ path_of cs.
Proof. destruct cs as [|c cs _] using rev_ind; [set_solver |]. rewrite path_of_app. apply slash_join. Qed.

Lemma path_of_inj cs ds : Forall component cs -> Forall component ds -> path_of cs = path_of ds -> cs = ds.
Proof.
  revert ds. induction cs as [|c cs IH] using rev_ind; intros ds Hc Hd.
  - destruct ds as [|d ds _] using rev_ind; [done |]. rewrite path_of_app. apply Forall_app in Hd as [Hds [Hd _]%Forall_cons].
    intros E. by destruct (join_not_root (path_of ds) d Hd (path_of_nonempty ds)).
  - apply Forall_app in Hc as [Hcs [Hc _]%Forall_cons]. destruct ds as [|d ds _] using rev_ind.
    + rewrite path_of_app. intros E. by destruct (join_not_root (path_of cs) c Hc (path_of_nonempty cs)).
    + apply Forall_app in Hd as [Hds [Hd _]%Forall_cons]. rewrite !path_of_app. intros E.
      apply join_inj in E as [E ->]; [| done | done | apply path_of_nonempty..]. by rewrite (IH ds).
Qed.

(** * Lists of siblings *)

Definition head_or {A} (l : list A) (d : option A) : option A := match l with [] => d | x :: _ => Some x end.
Definition last_or {A} (l : list A) (d : option A) : option A := match last l with Some x => Some x | None => d end.

Section Tree.
Context {entry : Type}.
Abbreviation heap := (gmap nat (node entry)).
Implicit Types (h : heap) (n : node entry).

(** The nodes [l] are linked both ways, after [pr] and before [nx]. *)
Fixpoint siblings h (pr : option nat) (l : list nat) (nx : option nat) : Prop :=
  match l with
  | [] => True
  | x :: l => exists n, h !! x = Some n /\ prev n = pr /\ next n = head_or l nx /\ siblings h (Some x) l nx
  end.

Lemma siblings_app h pr l1 l2 nx :
  siblings h pr (l1 ++ l2) nx <-> siblings h pr l1 (head_or l2 nx) /\ siblings h (last_or l1 pr) l2 nx.
Proof.
  revert pr. induction l1 as [|x l1 IH]; intros pr; cbn [siblings app]; [by split; [| intros [_ ?]] |].
  assert (last_or (x :: l1) pr = last_or l1 (Some x)) as ->.
  { unfold last_or. destruct l1 as [|y l1]; [done |]. cbn [last]. by destruct (last (y :: l1)) eqn:El; [| apply last_None in El]. }
  assert (head_or (l1 ++ l2) nx = head_or l1 (head_or l2 nx)) as -> by by destruct l1. split.
  - intros (n & Hx & Hp & Hn & Hl). apply IH in Hl as [H1 H2]. split; [| done]. by exists n.
  - intros [(n & Hx & Hp & Hn & H1) H2]. exists n. split_and!; [done.. |]. by apply IH.
Qed.

(** Other fields may change. *)
Lemma siblings_frame h h' pr l nx :
  (forall x n, x ∈ l -> h !! x = Some n -> exists n', h' !! x = Some n' /\ prev n' = prev n /\ next n' = next n) ->
  siblings h pr l nx -> siblings h' pr l nx.
Proof.
  revert pr. induction l as [|x l IH]; intros pr Hf; [done |]. intros (n & Hx & Hp & Hn & Hl).
  destruct (Hf x n) as (n' & Hx' & Hp' & Hn'); [by left | done |]. exists n'. split_and!; [done | congruence | congruence |].
  apply IH; [| done]. intros y m Hy. apply Hf. by right.
Qed.

(** * Trees *)

Definition parent_of h (x : nat) : option nat := h !! x ≫= parent.

(** The nodes of the list whose directory is [p]. *)
Definition kids h (ns : list nat) (p : nat) : list nat := filter (fun x => parent_of h x = Some p) ns.

(** The root and the nodes [ns], in the order in which they came. *)
Record tree h (rt : nat) (ns : list nat) : Prop := Tree {
  t_nodup : NoDup (rt :: ns);
  t_root : exists n, h !! rt = Some n /\ name n = [SLASH] /\ parent n = None /\ prev n = None /\ next n = None;
  t_node x : x ∈ ns -> exists n p np c,
    h !! x = Some n /\ parent n = Some p /\ p ∈ rt :: ns /\ h !! p = Some np /\ component c /\ name n = join (name np) c;
  t_kids p n : p ∈ rt :: ns -> h !! p = Some n -> child n = head_or (kids h ns p) None /\ siblings h None (kids h ns p) None;
  t_names x y n m : x ∈ ns -> y ∈ ns -> h !! x = Some n -> h !! y = Some m -> name n = name m -> x = y }.

Lemma tree_in h rt ns x : tree h rt ns -> x ∈ rt :: ns -> exists n, h !! x = Some n /\ name n <> [].
Proof.
  intros Ht [->|Hx]%elem_of_cons.
  - destruct (t_root _ _ _ Ht) as (n & Hn & E & _). exists n. by rewrite E.
  - destruct (t_node _ _ _ Ht x Hx) as (n & p & np & c & Hn & _ & _ & _ & _ & E). exists n. split; [done |]. rewrite E. apply join_nonempty.
Qed.

Lemma kids_in h ns p x : x ∈ kids h ns p <-> x ∈ ns /\ parent_of h x = Some p.
Proof. unfold kids. rewrite list_elem_of_filter. tauto. Qed.

Lemma tree_size h rt ns p : tree h rt ns -> (length (kids h ns p) < S (size h))%nat.
Proof.
  intros Ht. pose proof (t_nodup _ _ _ Ht) as Hnd.
  assert (length (rt :: ns) <= size h)%nat.
  { rewrite <- size_dom, <- (size_list_to_set (C := gset nat) _ Hnd). apply subseteq_size. intros x Hx%elem_of_list_to_set.
    destruct (tree_in _ _ _ _ Ht Hx) as (n & Hn & _). by eapply elem_of_dom_2. }
  pose proof (length_filter (fun x => parent_of h x = Some p) ns). unfold kids. cbn [length] in *. lia.
Qed.

(** [z] is [x] or below it. *)
Definition under h (x z : nat) : Prop := rtc (fun z p => parent_of h z = Some p) z x.

Lemma parent_in h rt ns z p : tree h rt ns -> z ∈ rt :: ns -> parent_of h z = Some p ->
  z ∈ ns /\ p ∈ rt :: ns /\ exists n np c, h !! z = Some n /\ h !! p = Some np /\ component c /\ name n = join (name np) c.
Proof.
  intros Ht [->|Hz]%elem_of_cons Hp.
  - destruct (t_root _ _ _ Ht) as (n & Hn & _ & E & _). unfold parent_of in Hp. rewrite Hn in Hp. cbn in Hp. congruence.
  - destruct (t_node _ _ _ Ht z Hz) as (n & p' & np & c & Hn & Hp' & Hin & Hnp & Hc & Hj).
    unfold parent_of in Hp. rewrite Hn in Hp. cbn in Hp. simplify_eq. split_and!; [done.. |]. by exists n, np, c.
Qed.

Lemma under_in h rt ns x z : tree h rt ns -> z ∈ rt :: ns -> under h x z -> x ∈ rt :: ns.
Proof. intros Ht Hz Hu. revert Hz. induction Hu as [|z y x Hp _ IH]; [done |]. intros Hz. apply IH. by eapply parent_in. Qed.

Lemma under_prefix h rt ns x z nx nz :
  tree h rt ns -> z ∈ rt :: ns -> under h x z -> h !! x = Some nx -> h !! z = Some nz -> name nx `prefix_of` name nz.
Proof.
  intros Ht Hz Hu Hx. revert Hz nz. induction Hu as [|z y x Hp _ IH]; intros Hz nz Hnz; [by simplify_eq |].
  destruct (parent_in _ _ _ _ _ Ht Hz Hp) as (_ & Hy & n & np & c & Hn & Hnp & _ & Hj). simplify_eq.
  trans (name np); [by apply IH |]. rewrite Hj. apply prefix_join.
Qed.

Lemma under_root h rt ns z : tree h rt ns -> z ∈ rt :: ns -> under h rt z.
Proof.
  intros Ht. assert (forall len z n, (length (name n) < len)%nat -> h !! z = Some n -> z ∈ rt :: ns -> under h rt z) as H.
  { clear z. induction len as [|len IH]; intros z n Hlen Hn Hz; [lia |]. apply elem_of_cons in Hz as [->|Hz]; [by apply rtc_refl |].
    destruct (t_node _ _ _ Ht z Hz) as (n' & p & np & c & Hn' & Hp & Hin & Hnp & Hc & Hj). simplify_eq.
    eapply rtc_l; [unfold parent_of; by rewrite Hn |]. apply (IH p np); [| done | done].
    assert (name np <> []) as Hne by (destruct (tree_in _ _ _ _ Ht Hin) as (m & Hm & ?); by simplify_eq).
    rewrite Hj in Hlen. pose proof (length_join (name np) c Hc Hne). lia. }
  intros Hz. destruct (tree_in _ _ _ _ Ht Hz) as (n & Hn & _). apply (H (S (length (name n))) z n); [lia | done | done].
Qed.

Lemma under_below h rt ns x z : tree h rt ns -> z ∈ rt :: ns -> under h x z -> z = x \/ exists y, y ∈ kids h ns x /\ under h y z.
Proof.
  intros Ht Hz Hu. apply rtc_inv_r in Hu as [->|(y & Hy & Hp)]; [by left |]. right. exists y. split; [| done].
  pose proof (under_in _ _ _ _ _ Ht Hz Hy) as Hin. apply kids_in. split; [| done]. by eapply parent_in.
Qed.

Lemma kids_below h rt ns x y nx ny :
  tree h rt ns -> y ∈ kids h ns x -> h !! x = Some nx -> h !! y = Some ny -> (length (name nx) < length (name ny))%nat.
Proof.
  intros Ht [Hy Hp]%kids_in Hx Hny. destruct (parent_in h rt ns y x Ht) as (_ & Hin & n & np & c & Hn & Hnp & Hc & Hj); [by right | done |].
  simplify_eq. rewrite Hj. apply length_join; [done |]. destruct (tree_in _ _ _ _ Ht Hin) as (m & Hm & Hne). by simplify_eq.
Qed.

(** ** Running over siblings *)

Lemma runs_node_at a n (s : fs entry) (Q : node entry -> fs entry -> Prop) :
  nodes s !! a = Some n -> Q n s -> runs (node_at a) s Q.
Proof. intros Ha HQ. apply runs_bind, runs_get. rewrite Ha. by apply runs_ret. Qed.

Lemma runs_update_node a n f (s : fs entry) (Q : unit -> fs entry -> Prop) :
  nodes s !! a = Some n -> Q tt (set_nodes (<[a := f n]> (nodes s)) s) -> runs (update a f) s Q.
Proof. intros Ha HQ. apply runs_bind. eapply runs_node_at; [done |]. by apply runs_modify. Qed.

(** What a search among the siblings [l] and below them comes to. *)
Definition found h rt ns (l : list nat) (path : bytes) (o : option nat) : Prop :=
  match o with
  | Some a => a ∈ rt :: ns /\ exists n, h !! a = Some n /\ name n = path
  | None => forall x z n, x ∈ l -> z ∈ rt :: ns -> under h x z -> h !! z = Some n -> name n <> path
  end.

Lemma runs_scan (below : option nat -> M (fs entry) (option nat)) rt ns path l pr fuel (s : fs entry) (Q : option nat -> fs entry -> Prop) :
  tree (nodes s) rt ns -> l ⊆ rt :: ns -> siblings (nodes s) pr l None -> (length l < fuel)%nat ->
  (forall x n, x ∈ l -> nodes s !! x = Some n -> name n `prefix_of` path -> name n <> path -> kids (nodes s) ns x <> [] ->
     runs (below (child n)) s (fun o s' => s' = s /\ found (nodes s) rt ns (kids (nodes s) ns x) path o)) ->
  (forall o, found (nodes s) rt ns l path o -> Q o s) ->
  runs (scan below fuel (head_or l None) path) s Q.
Proof.
  intros Ht. revert pr fuel Q. induction l as [|x l IH]; intros pr fuel Q Hl Hs Hf Hb HQ;
    (destruct fuel as [|fuel]; [cbn in Hf; lia |]); cbn [scan head_or].
  { apply runs_ret, HQ. intros x z n Hx. by apply not_elem_of_nil in Hx. }
  destruct Hs as (n & Hx & Hp & Hn & Hs). apply runs_bind. eapply runs_node_at; [done |].
  assert (x ∈ rt :: ns) as Hin by (apply Hl; by left).
  destruct (Z.eqb_spec (strcmp path (name n)) 0) as [E|Hne].
  { apply strcmp_eq in E. apply runs_ret, HQ. split; [done |]. by exists n. }
  assert (name n <> path) as Hneq by (intros <-; by rewrite strcmp_refl in Hne). apply runs_bind.
  eapply (runs_mono _ _ (fun o s' => s' = s /\ found (nodes s) rt ns [x] path o)).
  - destruct (t_kids _ _ _ Ht x n Hin Hx) as [Hc _].
    assert (forall o, found (nodes s) rt ns (kids (nodes s) ns x) path o -> found (nodes s) rt ns [x] path o) as Hx1.
    { intros [a|]; [done |]. intros Hno y z m ->%list_elem_of_singleton Hz Hu Hm.
      destruct (under_below _ _ _ _ _ Ht Hz Hu) as [->|(y & Hy & Hu')]; [by simplify_eq | by eapply Hno]. }
    destruct (bool_decide_reflect (is_Some (child n))) as [[k Hk]|Hno]; cbn [andb].
    + destruct (Z.eqb_spec (strncmp path (name n) (strlen (name n))) 0) as [Ep|Hnp].
      * eapply runs_mono; [apply (Hb x n) |]; [by left | done | | done | |].
        -- unfold strncmp, strlen in Ep. rewrite Nat2Z.id, firstn_all in Ep. apply strcmp_eq in Ep. rewrite <- Ep. apply prefix_take.
        -- rewrite Hc in Hk. by destruct (kids _ _ _).
        -- intros o s' [-> Ho]. split; [done |]. by apply Hx1.
      * apply runs_ret. split; [done |]. intros y z m ->%list_elem_of_singleton Hz Hu Hm <-. destruct Hnp.
        pose proof (under_prefix _ _ _ _ _ _ _ Ht Hz Hu Hx Hm) as [suf E]. unfold strncmp, strlen. rewrite Nat2Z.id, firstn_all, E.
        rewrite take_app_length. apply strcmp_refl.
    + apply runs_ret. split; [done |]. apply Hx1. destruct (kids _ _ _) as [|k l'] eqn:Ek; [| by destruct Hno; rewrite Hc; eexists].
      intros y z m Hy. by apply not_elem_of_nil in Hy.
  - intros [a|] s' [-> Ho]; [by apply runs_ret, HQ |]. rewrite Hn. eapply IH; [| done | cbn in Hf; lia | |].
    + intros y Hy. apply Hl. by right.
    + intros y m Hy. apply Hb. by right.
    + intros [b|] Ho2; apply HQ; [done |]. intros y z m [->|Hy]%elem_of_cons; [by apply Ho, elem_of_cons; left | by apply Ho2].
Qed.

Lemma runs_get_node_below depth rt ns path l pr (s : fs entry) (Q : option nat -> fs entry -> Prop) :
  tree (nodes s) rt ns -> l ⊆ rt :: ns -> siblings (nodes s) pr l None -> (length l < sibling_fuel s)%nat -> (1 <= depth)%nat ->
  (forall x n, x ∈ l -> nodes s !! x = Some n -> (length path < depth + length (name n))%nat) ->
  (forall o, found (nodes s) rt ns l path o -> Q o s) ->
  runs (get_node depth (head_or l None) path) s Q.
Proof.
  intros Ht. revert l pr Q. induction depth as [|depth IH]; intros l pr Q Hl Hs Hf Hd Hlen HQ; [lia |]. cbn [get_node].
  apply runs_bind, runs_get. eapply runs_scan; [done | done | done | done | | done]. intros x n Hx Hn Hpre Hne Hk.
  assert (x ∈ rt :: ns) as Hin by by apply Hl. destruct (t_kids _ _ _ Ht x n Hin Hn) as [-> Hk']. eapply (IH _ None); [| done | | | |].
  - intros y [Hy _]%kids_in. by right.
  - by eapply tree_size.
  - apply prefix_length in Hpre as Hle. assert (length (name n) <> length path) as Hneq.
    { intros E. apply Hne. destruct Hpre as [suf ->]. rewrite length_app in E. destruct suf; [by rewrite app_nil_r | cbn in E; lia]. }
    specialize (Hlen x n Hx Hn). lia.
  - intros y m Hy Hm. specialize (Hlen x n Hx Hn). pose proof (kids_below _ _ _ _ _ _ _ Ht Hy Hn Hm). lia.
  - done.
Qed.
End Tree.
