(* ===== verification/ArchiveLinks.v ===== *)
(** The tree of archivemount under its two changes: a node becomes the last child of a
    directory, a node leaves the list of its siblings. *)

From S2P Require Import Prelude.
From S2P Require Import CString.
From S2P Require Import Archive.
From S2P Require Import ArchiveTree.

Section Links.
Context {entry : Type}.
Abbreviation heap := (gmap nat (node entry)).
Implicit Types (h : heap) (n : node entry).

(** ** Lists of children *)

Lemma kids_ext h h' ns p : (forall x, x ∈ ns -> parent_of h' x = parent_of h x) -> kids h' ns p = kids h ns p.
Proof.
  induction ns as [|x ns IH]; intros H; [done |]. unfold kids. rewrite !filter_cons, (H x (list_elem_of_here _ _)).
  fold (kids h' ns p). fold (kids h ns p). rewrite IH; [done |]. intros y Hy. apply H. by right.
Qed.

Lemma kids_snoc h ns a p : kids h (ns ++ [a]) p = kids h ns p ++ (if decide (parent_of h a = Some p) then [a] else []).
Proof. unfold kids. by rewrite filter_app. Qed.

Lemma kids_without h ns a p : kids h (filter (.≠ a) ns) p = filter (.≠ a) (kids h ns p).
Proof.
  unfold kids. induction ns as [|x ns IH]; [done |]. rewrite !filter_cons. destruct (decide (x ≠ a)), (decide (parent_of h x = Some p));
    rewrite ?filter_cons; rewrite ?decide_True, ?decide_False by done; by rewrite ?IH.
Qed.

Lemma kids_nodup h ns p : NoDup ns -> NoDup (kids h ns p).
Proof. apply NoDup_filter. Qed.

Lemma kids_none h rt ns a : tree h rt ns -> a ∉ rt :: ns -> kids h ns a = [].
Proof.
  intros Ht Ha. destruct (kids h ns a) as [|x l] eqn:E; [done |]. destruct Ha. assert (x ∈ kids h ns a) as [Hx Hp]%kids_in by (rewrite E; by left).
  by apply (parent_in h rt ns x a Ht); [right |].
Qed.

(** ** Changes that do not touch the links *)

Definition same_links n n' : Prop :=
  parent n' = parent n /\ prev n' = prev n /\ next n' = next n /\ child n' = child n /\ name n' = name n.

Lemma tree_frame h h' rt ns :
  tree h rt ns -> (forall x n, x ∈ rt :: ns -> h !! x = Some n -> exists n', h' !! x = Some n' /\ same_links n n') -> tree h' rt ns.
Proof.
  intros Ht Hf. assert (forall p, kids h' ns p = kids h ns p) as Hkids.
  { intros p. apply kids_ext. intros x Hx. destruct (tree_in h rt ns x Ht) as (n & Hn & _); [by right |].
    destruct (Hf x n) as (n' & Hn' & E & _); [by right | done |]. unfold parent_of. rewrite Hn, Hn'. exact E. }
  split.
  - apply Ht.
  - destruct (t_root _ _ _ Ht) as (n & Hn & ? & ? & ? & ?). destruct (Hf rt n) as (n' & Hn' & ? & ? & ? & ? & ?); [by left | done |].
    exists n'. split_and!; congruence.
  - intros x Hx. destruct (t_node _ _ _ Ht x Hx) as (n & p & np & c & Hn & Hp & Hin & Hnp & Hc & Hj).
    destruct (Hf x n) as (n' & Hn' & Ep & _ & _ & _ & En); [by right | done |].
    destruct (Hf p np) as (np' & Hnp' & _ & _ & _ & _ & Enp); [done | done |].
    exists n', p, np', c. split_and!; congruence.
  - intros p n' Hin Hn'. destruct (tree_in h rt ns p Ht Hin) as (n & Hn & _).
    destruct (Hf p n) as (n2 & Hn2 & _ & _ & _ & Ec & _); [done | done |]. simplify_eq. rewrite Hkids, Ec.
    destruct (t_kids _ _ _ Ht p n Hin Hn) as [E Hs]. split; [done |]. eapply siblings_frame; [| exact Hs].
    intros x m [Hx _]%kids_in Hm. destruct (Hf x m) as (m' & Hm' & _ & ? & ? & _); [by right | done |]. by exists m'.
  - intros x y n m Hx Hy Hn Hm E. destruct (tree_in h rt ns x Ht) as (n0 & Hn0 & _); [by right |].
    destruct (tree_in h rt ns y Ht) as (m0 & Hm0 & _); [by right |].
    destruct (Hf x n0) as (n1 & Hn1 & _ & _ & _ & _ & E1); [by right | done |].
    destruct (Hf y m0) as (m1 & Hm1 & _ & _ & _ & _ & E2); [by right | done |]. simplify_eq.
    eapply (t_names _ _ _ Ht x y n0 m0); [done.. | congruence].
Qed.

Lemma tree_other h h' rt ns : tree h rt ns -> (forall x, x ∈ rt :: ns -> h' !! x = h !! x) -> tree h' rt ns.
Proof. intros Ht Hf. eapply tree_frame; [done |]. intros x n Hx Hn. exists n. by rewrite Hf. Qed.

(** ** A new last child *)

Definition attach h (a p : nat) (ns : list nat) : heap :=
  match last (kids h ns p) with
  | None => alter (set_child (Some a)) p (alter (set_parent (Some p)) a h)
  | Some b => alter (fun n => set_next None (set_prev (Some b) (set_parent (Some p) n))) a (alter (set_next (Some a)) b h)
  end.

(** What becomes of the nodes of the tree. *)
Lemma attach_old h rt ns a p x n :
  tree h rt ns -> a ∉ rt :: ns -> x ∈ rt :: ns -> h !! x = Some n ->
  exists n', attach h a p ns !! x = Some n' /\ parent n' = parent n /\ prev n' = prev n /\ name n' = name n /\
    (last (kids h ns p) <> Some x -> next n' = next n) /\ (x <> p \/ kids h ns p <> [] -> child n' = child n) /\
    location n' = location n /\ namechanged n' = namechanged n /\ nentry n' = nentry n /\ nmodified n' = nmodified n.
Proof.
  intros Ht Ha Hx Hn. assert (x <> a) as Hxa by (by intros ->). unfold attach. destruct (last (kids h ns p)) as [b|] eqn:El.
  - rewrite lookup_alter_ne by done. destruct (decide (x = b)) as [->|Hxb].
    + rewrite lookup_alter_eq, Hn. eexists. split; [reflexivity |]. by split_and!.
    + rewrite lookup_alter_ne, Hn by done. eexists. split; [reflexivity |]. by split_and!.
  - apply last_None in El. destruct (decide (x = p)) as [->|Hxp].
    + rewrite lookup_alter_eq, lookup_alter_ne, Hn by done. eexists. split; [reflexivity |]. split_and!; try done. by intros [?|?].
    + rewrite !lookup_alter_ne, Hn by done. eexists. split; [reflexivity |]. by split_and!.
Qed.

Lemma attach_new h rt ns a p n :
  tree h rt ns -> a ∉ rt :: ns -> p ∈ rt :: ns -> h !! a = Some n ->
  (kids h ns p = [] -> prev n = None /\ next n = None) ->
  exists n', attach h a p ns !! a = Some n' /\ parent n' = Some p /\ prev n' = last (kids h ns p) /\ next n' = None /\
    child n' = child n /\ name n' = name n /\ location n' = location n /\ namechanged n' = namechanged n /\
    nentry n' = nentry n /\ nmodified n' = nmodified n.
Proof.
  intros Ht Ha Hp Hn Hfresh. unfold attach. destruct (last (kids h ns p)) as [b|] eqn:El.
  - assert (b ∈ kids h ns p) as [Hb _]%kids_in by by apply last_Some_elem_of. assert (b <> a) by (intros ->; apply Ha; by right).
    rewrite lookup_alter_eq, lookup_alter_ne, Hn by done. eexists. split; [reflexivity |]. by split_and!.
  - apply last_None in El. assert (p <> a) by by intros ->. destruct (Hfresh El) as [E1 E2].
    rewrite lookup_alter_ne, lookup_alter_eq, Hn by done. eexists. split; [reflexivity |]. by split_and!.
Qed.

Section Attach.
Context (h : heap) (rt : nat) (ns : list nat) (a p : nat) (n : node entry).
Context (Ht : tree h rt ns) (Ha : a ∉ rt :: ns) (Hp : p ∈ rt :: ns) (Hn : h !! a = Some n).
Context (Hfresh : kids h ns p = [] -> prev n = None /\ next n = None).

Lemma attach_kids q : kids (attach h a p ns) (ns ++ [a]) q = kids h ns q ++ (if decide (q = p) then [a] else []).
Proof using Ht Ha Hp Hn Hfresh.
  destruct (attach_new _ _ _ _ _ _ Ht Ha Hp Hn Hfresh) as (n' & Hn' & Pa & _). rewrite kids_snoc. f_equal.
  - apply kids_ext. intros x Hx. destruct (tree_in h rt ns x Ht) as (m & Hm & _); [by right |].
    destruct (attach_old h rt ns a p x m Ht Ha) as (m' & Hm' & E & _); [by right | done |]. unfold parent_of. by rewrite Hm, Hm'.
  - unfold parent_of. rewrite Hn'. cbn. rewrite Pa. destruct (decide (q = p)) as [->|Hq]; [by rewrite decide_True |].
    rewrite decide_False; [done |]. by intros [= ->].
Qed.

(** The list of the directory, with the node at its end. *)
Lemma attach_siblings : siblings (attach h a p ns) None (kids h ns p ++ [a]) None.
Proof using Ht Ha Hp Hn Hfresh.
  destruct (attach_new _ _ _ _ _ _ Ht Ha Hp Hn Hfresh) as (n' & Hn' & _ & Pv & Nx & _).
  pose proof (fun x m => attach_old h rt ns a p x m Ht Ha) as Hold. destruct (tree_in h rt ns p Ht Hp) as (m & Hm & _).
  destruct (t_kids _ _ _ Ht p m Hp Hm) as [_ Hs]. destruct (kids h ns p) as [|b l _] eqn:Ek using rev_ind; [exists n'; by split_and! |].
  apply siblings_app in Hs as [Hs1 (nb & Hnb & Pb & _ & _)]. apply siblings_app. split.
  - apply siblings_app. split.
    + eapply siblings_frame; [| exact Hs1]. intros x k Hx Hk.
      assert (x ∈ kids h ns p) as [Hxn _]%kids_in by (rewrite Ek; apply elem_of_app; by left).
      destruct (Hold x k) as (k' & Hk' & _ & ? & _ & En & _); [by right | done |]. exists k'. split_and!; [done | done |].
      apply En. rewrite last_snoc. intros [= ->]. pose proof (kids_nodup h ns p) as Hnd.
      rewrite Ek in Hnd. apply NoDup_app in Hnd as (_ & Hd & _); [| by apply (NoDup_cons_1_2 rt), Ht]. by apply (Hd x Hx), list_elem_of_singleton.
    + assert (b ∈ kids h ns p) as [Hbn _]%kids_in by (rewrite Ek; apply elem_of_app; right; by left).
      destruct (Hold b nb) as (nb' & Hnb' & _ & ? & _); [by right | done |]. exists nb'. split_and!; [done | congruence | | done].
      unfold attach in Hnb'. rewrite Ek, last_snoc in Hnb'. assert (b <> a) by (intros ->; apply Ha; by right).
      rewrite lookup_alter_ne, lookup_alter_eq, Hnb in Hnb' by done. by injection Hnb' as <-.
  - exists n'. split_and!; [done | | done | done]. rewrite Pv. unfold last_or. by rewrite !last_snoc.
Qed.

Lemma attach_child m m' : h !! p = Some m -> attach h a p ns !! p = Some m' -> child m' = head_or (kids h ns p ++ [a]) None.
Proof using Ht Ha Hp Hn Hfresh.
  intros Hm Hm'. destruct (t_kids _ _ _ Ht p m Hp Hm) as [Ec _].
  destruct (attach_old h rt ns a p p m Ht Ha Hp Hm) as (k & Hk & _ & _ & _ & _ & Ech & _). assert (k = m') as -> by congruence.
  destruct (kids h ns p) as [|b l] eqn:Ek; [| by rewrite Ech, Ec by by right].
  unfold attach in Hm'. rewrite Ek in Hm'. cbn [last] in Hm'. assert (p <> a) by by intros ->.
  rewrite lookup_alter_eq, lookup_alter_ne in Hm' by done. rewrite Hm in Hm'. by injection Hm' as <-.
Qed.

(** The lists of the other directories. *)
Lemma attach_others q m m' : q ∈ rt :: ns -> q <> p -> h !! q = Some m -> attach h a p ns !! q = Some m' ->
  child m' = head_or (kids h ns q) None /\ siblings (attach h a p ns) None (kids h ns q) None.
Proof using Ht Ha Hp Hn Hfresh.
  intros Hq Hqp Hm Hm'. destruct (t_kids _ _ _ Ht q m Hq Hm) as [Ec Hs].
  destruct (attach_old h rt ns a p q m Ht Ha Hq Hm) as (k & Hk & _ & _ & _ & _ & Ech & _). assert (k = m') as -> by congruence.
  split; [rewrite Ech by (by left); done |]. eapply siblings_frame; [| exact Hs]. intros x k [Hx Hpx]%kids_in Hkx.
  destruct (attach_old h rt ns a p x k Ht Ha) as (k' & Hk' & _ & ? & _ & En & _); [by right | done |]. exists k'. split_and!; [done | done |]. apply En.
  intros El%last_Some_elem_of%kids_in. destruct El as [_ El]. congruence.
Qed.

Lemma attach_names x y k m n' :
  (forall y m, y ∈ ns -> h !! y = Some m -> name m <> name n) ->
  attach h a p ns !! a = Some n' -> name n' = name n -> x ∈ ns ++ [a] -> y ∈ ns ++ [a] ->
  attach h a p ns !! x = Some k -> attach h a p ns !! y = Some m -> name k = name m -> x = y.
Proof using Ht Ha Hp Hn Hfresh.
  intros Hnew Hn' Nm. assert (forall x m, x ∈ ns -> attach h a p ns !! x = Some m -> exists m0, h !! x = Some m0 /\ name m = name m0) as Hold.
  { intros z j Hz Hj. destruct (tree_in h rt ns z Ht) as (j0 & Hj0 & _); [by right |].
    destruct (attach_old h rt ns a p z j0 Ht Ha) as (j1 & Hj1 & _ & _ & E & _); [by right | done |]. exists j0. split; congruence. }
  intros [Hx| ->%list_elem_of_singleton]%elem_of_app [Hy| ->%list_elem_of_singleton]%elem_of_app Hk Hm E; [| | | done].
  - destruct (Hold x k Hx Hk) as (k0 & Hk0 & E1), (Hold y m Hy Hm) as (m0 & Hm0 & E2). eapply (t_names _ _ _ Ht x y k0 m0); [done.. | congruence].
  - destruct (Hold x k Hx Hk) as (k0 & Hk0 & E1). destruct (Hnew x k0 Hx Hk0). congruence.
  - destruct (Hold y m Hy Hm) as (m0 & Hm0 & E2). destruct (Hnew y m0 Hy Hm0). congruence.
Qed.

Lemma tree_attach np c :
  h !! p = Some np -> component c -> name n = join (name np) c ->
  (forall y m, y ∈ ns -> h !! y = Some m -> name m <> name n) -> child n = None ->
  tree (attach h a p ns) rt (ns ++ [a]).
Proof using Ht Ha Hp Hn Hfresh.
  intros Hnp Hc Hj Hnew Hch. destruct (attach_new _ _ _ _ _ _ Ht Ha Hp Hn Hfresh) as (n' & Hn' & Pa & Pv & Nx & Ch & Nm & _).
  pose proof (fun x m => attach_old h rt ns a p x m Ht Ha) as Hold. pose proof (t_nodup _ _ _ Ht) as [Hr0 Hnd]%NoDup_cons.
  assert (forall q nq, q ∈ rt :: ns -> h !! q = Some nq -> exists nq', attach h a p ns !! q = Some nq' /\ q ∈ rt :: ns ++ [a] /\ name nq' = name nq) as Hdir.
  { intros q nq Hq Hnq. destruct (Hold q nq Hq Hnq) as (nq' & Hnq' & _ & _ & E & _). exists nq'. split_and!; [done | | done].
    apply (elem_of_app (rt :: ns)). by left. }
  split.
  - apply NoDup_cons. split.
    + intros [?| ->%list_elem_of_singleton]%elem_of_app; [done |]. apply Ha. by left.
    + apply NoDup_app. split_and!; [done | | apply NoDup_singleton]. intros x Hx ->%list_elem_of_singleton. apply Ha. by right.
  - destruct (t_root _ _ _ Ht) as (r & Hr & E1 & E2 & E3 & E4). destruct (Hold rt r) as (r' & Hr' & ? & ? & ? & En & _); [by left | done |].
    exists r'. split_and!; [done | congruence | congruence | congruence |]. rewrite En; [done |]. by intros [? _]%last_Some_elem_of%kids_in.
  - intros x [Hx| ->%list_elem_of_singleton]%elem_of_app.
    + destruct (t_node _ _ _ Ht x Hx) as (m & q & nq & d & Hm & Hq & Hin & Hnq & Hd & Hjm).
      destruct (Hold x m) as (m' & Hm' & E1 & _ & E2 & _); [by right | done |]. destruct (Hdir q nq Hin Hnq) as (nq' & ? & ? & ?).
      exists m', q, nq', d. split_and!; [done | congruence | done | done | done | congruence].
    + destruct (Hdir p np Hp Hnp) as (np' & ? & ? & ?). exists n', p, np', c. split_and!; [done.. | congruence].
  - intros q nq Hq Hnq. rewrite attach_kids. destruct (decide (q = a)) as [->|Hqa].
    { rewrite (kids_none h rt ns a Ht Ha). assert (a <> p) by by intros ->. rewrite decide_False by done. simplify_eq. cbn. split; [congruence | done]. }
    assert (q ∈ rt :: ns) as Hq' by set_solver. destruct (tree_in h rt ns q Ht Hq') as (m & Hm & _).
    destruct (decide (q = p)) as [->|Hqp]; [split; [by eapply attach_child | by apply attach_siblings] |].
    rewrite app_nil_r. by eapply attach_others.
  - intros x y k m Hx Hy Hk Hm E. by eapply attach_names.
Qed.
End Attach.

(** ** Leaving *)

Definition unlink_prev h n : heap :=
  match prev n with
  | Some b => alter (set_next (next n)) b h
  | None => match parent n with Some p => alter (set_child (next n)) p h | None => h end
  end.

Definition detach h (a : nat) : heap :=
  match h !! a with
  | None => h
  | Some n => match next n with Some b => alter (set_prev (prev n)) b (unlink_prev h n) | None => unlink_prev h n end
  end.

(** The siblings of a node of the tree. *)
Lemma tree_split h rt ns a : tree h rt ns -> a ∈ ns ->
  exists n p l1 l2, h !! a = Some n /\ parent n = Some p /\ p ∈ rt :: ns /\ p <> a /\ kids h ns p = l1 ++ a :: l2 /\
    (a ∉ l1) /\ (a ∉ l2) /\ prev n = last l1 /\ next n = head l2 /\
    siblings h None l1 (Some a) /\ siblings h (Some a) l2 None.
Proof.
  intros Ht Ha. destruct (t_node _ _ _ Ht a Ha) as (n & p & np & c & Hn & Hp & Hin & Hnp & Hc & Hj).
  assert (a ∈ kids h ns p) as Hk by (apply kids_in; unfold parent_of; by rewrite Hn).
  destruct (t_kids _ _ _ Ht p np Hin Hnp) as [_ Hs]. pose proof (kids_nodup h ns p) as Hnd.
  destruct (list_elem_of_split _ _ Hk) as (l1 & l2 & E). rewrite E in Hs, Hnd.
  apply siblings_app in Hs as [Hs1 (n' & Hn' & Hpv & Hnx & Hs2)].
  assert (n' = n) as -> by congruence.
  pose proof (t_nodup _ _ _ Ht) as [_ Hns]%NoDup_cons. apply NoDup_app in Hnd as (_ & Hd & [Hd2 _]%NoDup_cons); [| done].
  exists n, p, l1, l2. split_and!; try done.
  - intros ->. assert (name n = name np) as E2 by congruence. rewrite Hj in E2.
    assert (name np <> []) as Hne by (destruct (tree_in _ _ _ _ Ht Hin) as (m & Hm & ?); by simplify_eq).
    pose proof (length_join (name np) c Hc Hne) as Hl. rewrite E2 in Hl. lia.
  - intros Hin1. apply (Hd a Hin1). by left.
  - rewrite Hpv. unfold last_or. by destruct (last l1).
Qed.

(** What becomes of the nodes of the tree. *)
Lemma detach_old h rt ns a x n :
  tree h rt ns -> a ∈ ns -> x ∈ rt :: ns -> h !! x = Some n ->
  exists n', detach h a !! x = Some n' /\ parent n' = parent n /\ name n' = name n /\
    (parent n <> parent_of h a -> prev n' = prev n /\ next n' = next n) /\ (Some x <> parent_of h a -> child n' = child n) /\
    location n' = location n /\ namechanged n' = namechanged n /\ nentry n' = nentry n /\ nmodified n' = nmodified n.
Proof.
  intros Ht Ha Hx Hn. destruct (tree_split h rt ns a Ht Ha) as (m & p & l1 & l2 & Hm & Hp & Hin & Hpa & Ek & _ & _ & Hpv & Hnx & _).
  assert (forall b, b ∈ l1 \/ b ∈ l2 -> parent_of h b = Some p) as Hsib.
  { intros b Hb. apply (kids_in h ns p b). rewrite Ek. apply elem_of_app. destruct Hb; [by left | right; by right]. }
  assert (parent_of h a = Some p) as Epa by (unfold parent_of; by rewrite Hm). rewrite Epa.
  unfold detach. rewrite Hm.
  assert (forall (h1 : heap) b f n1, (b ∈ l1 \/ b ∈ l2) -> parent n1 = parent n -> h1 !! x = Some n1 ->
    parent (f n1) = parent n1 /\ name (f n1) = name n1 /\ child (f n1) = child n1 /\ location (f n1) = location n1 /\
      namechanged (f n1) = namechanged n1 /\ nentry (f n1) = nentry n1 /\ nmodified (f n1) = nmodified n1 ->
    exists n', alter f b h1 !! x = Some n' /\ parent n' = parent n1 /\ name n' = name n1 /\ child n' = child n1 /\ 
      (parent n <> Some p -> prev n' = prev n1 /\ next n' = next n1) /\ location n' = location n1 /\
      namechanged n' = namechanged n1 /\ nentry n' = nentry n1 /\ nmodified n' = nmodified n1) as Hstep.
  { intros h1 b f n1 Hb Ep1 Hn1 (F1 & F2 & F3 & F4 & F5 & F6 & F7). destruct (decide (x = b)) as [->|Hxb].
    - rewrite lookup_alter_eq, Hn1. exists (f n1). split_and!; try done. intros Hne. destruct Hne.
      specialize (Hsib b Hb). unfold parent_of in Hsib. by rewrite Hn in Hsib.
    - rewrite lookup_alter_ne by done. exists n1. by split_and!. }
  assert (exists n1, unlink_prev h m !! x = Some n1 /\
      parent n1 = parent n /\ name n1 = name n /\ (parent n <> Some p -> prev n1 = prev n /\ next n1 = next n) /\
      (Some x <> Some p -> child n1 = child n) /\ location n1 = location n /\
      namechanged n1 = namechanged n /\ nentry n1 = nentry n /\ nmodified n1 = nmodified n) as (n1 & Hn1 & A1 & A2 & A3 & A4 & A5 & A6 & A7 & A8).
  { unfold unlink_prev. rewrite Hpv, Hp. destruct (last l1) as [b|] eqn:El.
    - destruct (Hstep h b (set_next (next m)) n) as (n1 & Hn1 & ? & ? & ? & ? & ? & ? & ? & ?); [left; by apply last_Some_elem_of | done | done | by split_and! |].
      exists n1. by split_and!.
    - destruct (decide (x = p)) as [->|Hxp].
      + rewrite lookup_alter_eq, Hn. eexists. split; [reflexivity |]. by split_and!.
      + rewrite lookup_alter_ne by done. exists n. by split_and!. }
  rewrite Hnx. destruct (head l2) as [b|] eqn:Eh.
  - destruct (Hstep (unlink_prev h m) b (set_prev (prev m)) n1) as (n2 & Hn2 & ? & ? & ? & Hl & ? & ? & ? & ?); [right | done | exact Hn1 | by split_and! |].
    { destruct l2; [done |]. injection Eh as ->. by left. }
    exists n2. split_and!; try congruence.
    + intros Hne. destruct (A3 Hne), (Hl Hne). split; congruence.
    + intros Hne. rewrite <- (A4 Hne). congruence.
  - exists n1. by split_and!.
Qed.

Lemma siblings_alter_ne h f b pr l nx : b ∉ l -> siblings h pr l nx -> siblings (alter f b h) pr l nx.
Proof. intros Hb. apply siblings_frame. intros x n Hx Hn. exists n. rewrite lookup_alter_ne by (by intros ->). done. Qed.

Lemma siblings_alter_last h pr l b nx nx' :
  b ∉ l -> siblings h pr (l ++ [b]) nx -> siblings (alter (set_next nx') b h) pr (l ++ [b]) nx'.
Proof.
  intros Hb [H1 (n & Hn & Hp & _ & _)]%siblings_app. apply siblings_app. split; [by apply siblings_alter_ne |].
  exists (set_next nx' n). by rewrite lookup_alter_eq, Hn.
Qed.

Lemma siblings_alter_first h pr pr' d l nx :
  d ∉ l -> siblings h pr (d :: l) nx -> siblings (alter (set_prev pr') d h) pr' (d :: l) nx.
Proof.
  intros Hd (n & Hn & _ & Hx & Hl). exists (set_prev pr' n). rewrite lookup_alter_eq, Hn. split_and!; [done.. |].
  by apply siblings_alter_ne.
Qed.

(** The list without the node. *)
Lemma unlink_siblings h n p l1 l2 :
  NoDup (l1 ++ l2) -> p ∉ l1 -> p ∉ l2 -> parent n = Some p -> prev n = last l1 -> next n = head l2 ->
  siblings h None l1 (next n) \/ (exists a, siblings h None l1 (Some a)) -> (exists a, siblings h (Some a) l2 None) ->
  siblings (match next n with Some b => alter (set_prev (prev n)) b (unlink_prev h n) | None => unlink_prev h n end)
    None (l1 ++ l2) None.
Proof.
  intros (Hn1 & Hd & Hn2)%NoDup_app Hp1 Hp2 Epa Epv Enx Hs1 [a Hs2].
  assert (siblings (unlink_prev h n) None l1 (next n)) as H1.
  { unfold unlink_prev. rewrite Epv, Epa. destruct l1 as [|b l _] using rev_ind; [done |]. rewrite last_snoc.
    assert (b ∉ l) as Hb by (apply NoDup_app in Hn1 as (_ & H & _); intros Hb; by apply (H b Hb), list_elem_of_singleton).
    destruct Hs1 as [Hs1|[a' Hs1]]; by eapply siblings_alter_last. }
  assert (siblings (unlink_prev h n) (Some a) l2 None) as H2.
  { unfold unlink_prev. rewrite Epv, Epa. destruct (last l1) as [b|] eqn:El; apply siblings_alter_ne; try done.
    apply last_Some_elem_of in El. by apply Hd. }
  rewrite Enx in *. apply siblings_app. destruct l2 as [|d l2]; cbn [head head_or] in *; [done |].
  assert (d ∉ l1) as Hdl by (intros Hin; apply (Hd d Hin); by left). apply NoDup_cons in Hn2 as [Hd2 _].
  split; [by apply siblings_alter_ne |].
  assert (last_or l1 None = prev n) as -> by (unfold last_or; rewrite Epv; by destruct (last l1)).
  by eapply siblings_alter_first.
Qed.

Lemma filter_other (a : nat) (l : list nat) : a ∉ l -> filter (.≠ a) l = l.
Proof.
  induction l as [|x l IH]; intros Hl; [done |]. rewrite filter_cons, decide_True by (intros ->; apply Hl; by left).
  rewrite IH; [done |]. intros Hin. apply Hl. by right.
Qed.

Section Detach.
Context (h : heap) (rt : nat) (ns : list nat) (a : nat).
Context (Ht : tree h rt ns) (Ha : a ∈ ns) (Hka : kids h ns a = []).

Lemma detach_kids q : kids (detach h a) (filter (.≠ a) ns) q = filter (.≠ a) (kids h ns q).
Proof using Ht Ha Hka.
  rewrite kids_without. f_equal. apply kids_ext. intros x Hx. destruct (tree_in h rt ns x Ht) as (k & Hk & _); [by right |].
  destruct (detach_old h rt ns a x k Ht Ha) as (k' & Hk' & E & _); [by right | done |]. unfold parent_of. by rewrite Hk, Hk'.
Qed.

Lemma not_own_kid p : p ∈ rt :: ns -> p ∉ kids h ns p.
Proof using Ht Ha Hka.
  intros Hp [Hpn Epp]%kids_in. destruct (parent_in h rt ns p p Ht) as (_ & _ & n1 & n2 & c & Hn1 & Hn2 & Hc & Hj); [by right | done |].
  assert (n1 = n2) as -> by congruence. assert (name n2 <> []) as Hne by (destruct (tree_in _ _ _ _ Ht Hp) as (m2 & ? & ?); by simplify_eq).
  pose proof (length_join (name n2) c Hc Hne) as Hl. rewrite <- Hj in Hl. lia.
Qed.

(** The directory of the node: what its list starts with, and its list. *)
Lemma detach_child p k k' :
  parent_of h a = Some p -> h !! p = Some k -> detach h a !! p = Some k' -> child k' = head_or (filter (.≠ a) (kids h ns p)) None.
Proof using Ht Ha Hka.
  intros Epa Hk Hk'. destruct (tree_split h rt ns a Ht Ha) as (m & p' & l1 & l2 & Hm & Hp & Hin & Hpa & Ek & Ha1 & Ha2 & Hpv & Hnx & _).
  assert (p' = p) as -> by (unfold parent_of in Epa; rewrite Hm in Epa; cbn in Epa; congruence). pose proof (not_own_kid p Hin) as Hpk.
  destruct (t_kids _ _ _ Ht p k Hin Hk) as [Ec _]. rewrite Ek in Hpk, Ec |- *.
  rewrite filter_app, filter_cons, decide_False by (by intros []). rewrite !filter_other by done.
  unfold detach in Hk'. rewrite Hm in Hk'. assert (unlink_prev h m !! p = Some k') as Hu.
  { destruct (next m) as [b|] eqn:Enb; [| done]. rewrite lookup_alter_ne in Hk'; [done |]. intros ->. apply Hpk.
    apply elem_of_app. right. right. destruct l2; [done |]. injection Hnx as ->. by left. }
  unfold unlink_prev in Hu. rewrite Hpv, Hp in Hu. destruct l1 as [|b l1 _] using rev_ind.
  - cbn [last] in Hu. rewrite lookup_alter_eq, Hk in Hu. injection Hu as <-. cbn. rewrite Hnx. by destruct l2.
  - rewrite last_snoc in Hu. rewrite lookup_alter_ne, Hk in Hu.
    + injection Hu as <-. rewrite Ec. by destruct l1.
    + intros ->. apply Hpk. apply elem_of_app. left. apply elem_of_app. right. by left.
Qed.

Lemma detach_siblings p : parent_of h a = Some p -> siblings (detach h a) None (filter (.≠ a) (kids h ns p)) None.
Proof using Ht Ha Hka.
  intros Epa. destruct (tree_split h rt ns a Ht Ha) as (m & p' & l1 & l2 & Hm & Hp & Hin & Hpa & Ek & Ha1 & Ha2 & Hpv & Hnx & Hs1 & Hs2).
  assert (p' = p) as -> by (unfold parent_of in Epa; rewrite Hm in Epa; cbn in Epa; congruence). pose proof (not_own_kid p Hin) as Hpk.
  pose proof (t_nodup _ _ _ Ht) as [_ Hnd]%NoDup_cons. pose proof (kids_nodup h ns p Hnd) as Hndk. rewrite Ek in Hpk, Hndk |- *.
  rewrite filter_app, filter_cons, decide_False by (by intros []). rewrite !filter_other by done.
  unfold detach. rewrite Hm. apply (unlink_siblings h m p l1 l2); try done.
  - apply NoDup_app in Hndk as (? & Hd & [_ ?]%NoDup_cons). apply NoDup_app. split_and!; [done | | done]. intros x Hx Hx2. apply (Hd x Hx). by right.
  - intros Hx. apply Hpk, elem_of_app. by left.
  - intros Hx. apply Hpk, elem_of_app. right. by right.
  - right. by exists a.
  - by exists a.
Qed.

(** The other directories. *)
Lemma detach_others q k k' : q ∈ rt :: ns -> parent_of h a <> Some q -> h !! q = Some k -> detach h a !! q = Some k' ->
  child k' = head_or (filter (.≠ a) (kids h ns q)) None /\ siblings (detach h a) None (filter (.≠ a) (kids h ns q)) None.
Proof using Ht Ha Hka.
  intros Hq Hqp Hk Hk'. destruct (t_kids _ _ _ Ht q k Hq Hk) as [Ec Hs].
  destruct (detach_old h rt ns a q k Ht Ha Hq Hk) as (k2 & Hk2 & _ & _ & _ & Ech & _). assert (k2 = k') as -> by congruence.
  rewrite filter_other by (intros [_ E]%kids_in; congruence). split; [rewrite Ech; [done | congruence] |].
  eapply siblings_frame; [| exact Hs]. intros x y [Hx Hpx]%kids_in Hy.
  destruct (detach_old h rt ns a x y Ht Ha) as (y' & Hy' & _ & _ & Hl & _); [by right | done |].
  destruct Hl as [? ?]; [| by exists y']. unfold parent_of in Hpx. rewrite Hy in Hpx. cbn in Hpx. congruence.
Qed.

Lemma tree_detach : tree (detach h a) rt (filter (.≠ a) ns).
Proof using Ht Ha Hka.
  pose proof (fun x m => detach_old h rt ns a x m Ht Ha) as Hold. pose proof (t_nodup _ _ _ Ht) as [Hrt Hnd]%NoDup_cons.
  assert (forall x, x ∈ rt :: filter (.≠ a) ns <-> x ∈ rt :: ns /\ x <> a) as Hmem.
  { intros x. rewrite !elem_of_cons, list_elem_of_filter. split; [intros [->|[? ?]]; (split; [tauto |]); [by intros -> | done] |].
    intros [[->|?] ?]; [by left | by right]. }
  split.
  - apply NoDup_cons. split; [| by apply NoDup_filter]. by intros [_ ?]%list_elem_of_filter.
  - destruct (t_root _ _ _ Ht) as (r & Hr & E1 & E2 & E3 & E4). destruct (Hold rt r) as (r' & Hr' & ? & ? & Hl & _); [by left | done |].
    destruct (tree_split h rt ns a Ht Ha) as (m & p & _ & _ & Hm & Hp & _).
    destruct Hl as [? ?]; [unfold parent_of; rewrite Hm; cbn; congruence |]. exists r'. split_and!; congruence.
  - intros x [Hxa Hx]%list_elem_of_filter. destruct (t_node _ _ _ Ht x Hx) as (k & q & nq & c & Hk & Hq & Hiq & Hnq & Hc & Hj).
    destruct (Hold x k) as (k' & Hk' & F1 & F2 & _); [by right | done |]. destruct (Hold q nq) as (nq' & Hnq' & _ & F3 & _); [done | done |].
    exists k', q, nq', c. split_and!; [done | congruence | | done | done | congruence]. apply Hmem. split; [done |]. intros ->.
    assert (x ∈ kids h ns a) as Hka'; [| rewrite Hka in Hka'; by apply not_elem_of_nil in Hka'].
    apply kids_in. split; [done |]. unfold parent_of. by rewrite Hk.
  - intros q nq [Hq Hqa]%Hmem Hnq. rewrite detach_kids. destruct (tree_in h rt ns q Ht Hq) as (k & Hk & _).
    destruct (decide (parent_of h a = Some q)) as [Ep|Hqp]; [split; [by eapply detach_child | by apply detach_siblings] | by eapply detach_others].
  - intros x y k j [_ Hx]%list_elem_of_filter [_ Hy]%list_elem_of_filter Hk Hj E.
    destruct (tree_in h rt ns x Ht) as (k0 & Hk0 & _); [by right |]. destruct (tree_in h rt ns y Ht) as (j0 & Hj0 & _); [by right |].
    destruct (Hold x k0) as (k1 & Hk1 & _ & E1 & _); [by right | done |]. destruct (Hold y j0) as (j1 & Hj1 & _ & E2 & _); [by right | done |].
    eapply (t_names _ _ _ Ht x y k0 j0); [done.. | congruence].
Qed.
End Detach.
End Links.
