(* ===== verification/ArchiveInsert.v ===== *)
(** The operations of archivemount on its tree: where a path leads, the insertion of a node,
    the removal of one. *)

From S2P Require Import Prelude.
From S2P Require Import CString.
From S2P Require Import Archive.
From S2P Require Import ArchiveTree.
From S2P Require Import ArchiveLinks.

(** No component is the one before it. *)
Fixpoint no_repeat (before : bytes) (cs : list bytes) : Prop :=
  match cs with [] => True | c :: cs => before <> c /\ no_repeat c cs end.

#[global] Instance no_repeat_dec before cs : Decision (no_repeat before cs).
Proof. revert before. induction cs as [|c cs IH]; intros before; cbn [no_repeat]; apply _. Defined.

Section Insert.
Context {entry : Type}.
Abbreviation heap := (gmap nat (node entry)).
Implicit Types (h : heap) (n : node entry) (s : fs entry).

(** ** Names in a tree *)

Definition named h (x : nat) (nm : bytes) : Prop := exists n, h !! x = Some n /\ name n = nm.

Lemma tree_unique h rt ns x y nm : tree h rt ns -> x ∈ rt :: ns -> y ∈ rt :: ns -> named h x nm -> named h y nm -> x = y.
Proof.
  intros Ht Hx Hy (n & Hn & En) (m & Hm & Em).
  assert (forall z k, z ∈ ns -> h !! z = Some k -> name k <> [SLASH]) as Hroot.
  { intros z k Hz Hk. destruct (t_node _ _ _ Ht z Hz) as (k' & p & np & c & Hk' & Hp & Hin & Hnp & Hc & Hj).
    assert (k' = k) as -> by congruence. rewrite Hj. apply join_not_root; [done |].
    destruct (tree_in h rt ns p Ht Hin) as (np' & ? & ?). by simplify_eq. }
  destruct (t_root _ _ _ Ht) as (r & Hr & Er & _).
  apply elem_of_cons in Hx as [->|Hx]; apply elem_of_cons in Hy as [->|Hy]; [done | | |].
  - destruct (Hroot y m Hy Hm). congruence.
  - destruct (Hroot x n Hx Hn). congruence.
  - eapply (t_names _ _ _ Ht x y n m); [done.. | congruence].
Qed.

Lemma tree_parent h rt ns x ds d :
  tree h rt ns -> x ∈ rt :: ns -> named h x (path_of (ds ++ [d])) -> component d ->
  exists p, p ∈ rt :: ns /\ named h p (path_of ds) /\ x ∈ kids h ns p.
Proof.
  intros Ht Hx (n & Hn & En) Hd. rewrite path_of_app in En. apply elem_of_cons in Hx as [->|Hx].
  { destruct (t_root _ _ _ Ht) as (r & Hr & Er & _). assert (r = n) as -> by congruence. rewrite Er in En.
    by destruct (join_not_root (path_of ds) d Hd (path_of_nonempty ds)). }
  destruct (t_node _ _ _ Ht x Hx) as (n' & p & np & c & Hn' & Hp & Hin & Hnp & Hc & Hj). assert (n' = n) as -> by congruence.
  rewrite Hj in En. apply join_inj in En as [En _]; [| done | done | | apply path_of_nonempty].
  - exists p. split_and!; [done | by exists np |]. apply kids_in. split; [done |]. unfold parent_of. by rewrite Hn.
  - destruct (tree_in h rt ns p Ht Hin) as (np' & ? & ?). by simplify_eq.
Qed.

Lemma tree_prefix h rt ns x ds1 ds2 :
  tree h rt ns -> x ∈ rt :: ns -> named h x (path_of (ds1 ++ ds2)) -> Forall component ds2 ->
  exists p, p ∈ rt :: ns /\ named h p (path_of ds1).
Proof.
  intros Ht. revert x. induction ds2 as [|d ds2 IH] using rev_ind; intros x Hx Hn Hd.
  - rewrite app_nil_r in Hn. by exists x.
  - apply Forall_app in Hd as [Hds [Hd _]%Forall_cons]. rewrite app_assoc in Hn.
    destruct (tree_parent h rt ns x (ds1 ++ ds2) d Ht Hx Hn Hd) as (p & Hp & Hnp & _). by apply (IH p).
Qed.

Lemma tree_child h rt ns p x ds d :
  tree h rt ns -> p ∈ rt :: ns -> named h p (path_of ds) -> x ∈ rt :: ns -> named h x (path_of (ds ++ [d])) -> component d ->
  x ∈ kids h ns p.
Proof.
  intros Ht Hp Hnp Hx Hn Hd. destruct (tree_parent h rt ns x ds d Ht Hx Hn Hd) as (q & Hq & Hnq & Hk).
  by rewrite <- (tree_unique h rt ns q p _ Ht Hq Hp Hnq Hnp).
Qed.

Lemma kids_name h rt ns p x nm :
  tree h rt ns -> p ∈ rt :: ns -> named h p nm -> x ∈ kids h ns p -> exists n c, h !! x = Some n /\ component c /\ name n = join nm c.
Proof.
  intros Ht Hp (np & Hnp & <-) [Hx Hpx]%kids_in.
  destruct (parent_in h rt ns x p Ht) as (_ & _ & n & np' & c & Hn & Hnp' & Hc & Hj); [by right | done |]. simplify_eq. by exists n, c.
Qed.

(** ** Running over siblings *)

Lemma runs_last_name nm s (Q : bytes -> fs entry -> Prop) : SLASH ∈ nm -> Q (basename nm) s -> runs (last_name nm) s Q.
Proof. intros Hs HQ. unfold last_name. rewrite decide_True by done. by apply runs_ret. Qed.

Lemma runs_find_name l pr nam fuel s (Q : option nat -> fs entry -> Prop) :
  siblings (nodes s) pr l None -> (length l < fuel)%nat -> (forall x n, x ∈ l -> nodes s !! x = Some n -> SLASH ∈ name n) ->
  (forall o, match o with
             | Some x => x ∈ l /\ exists n, nodes s !! x = Some n /\ basename (name n) = nam
             | None => forall x n, x ∈ l -> nodes s !! x = Some n -> basename (name n) <> nam
             end -> Q o s) ->
  runs (find_name fuel (head_or l None) nam) s Q.
Proof.
  revert pr fuel Q. induction l as [|x l IH]; intros pr fuel Q Hs Hf Hsl HQ; (destruct fuel as [|fuel]; [cbn in Hf; lia |]); cbn [find_name head_or].
  { apply runs_ret, HQ. intros x n Hx. by apply not_elem_of_nil in Hx. }
  destruct Hs as (n & Hx & Hp & Hn & Hs). apply runs_bind. eapply runs_node_at; [done |]. apply runs_bind.
  apply runs_last_name; [apply (Hsl x); [by left | done] |].
  destruct (Z.eqb_spec (strcmp (basename (name n)) nam) 0) as [E%strcmp_eq|Hne].
  - apply runs_ret, HQ. split; [by left |]. by exists n.
  - rewrite Hn. eapply IH; [done | cbn in Hf; lia | intros y m Hy Hm; apply (Hsl y m); [by right | done] |]. intros [y|] Ho; apply HQ.
    + destruct Ho as [Hy Ho]. split; [by right | done].
    + intros y m [->|Hy]%elem_of_cons Hm; [| by apply (Ho y m)]. assert (m = n) as -> by congruence. intros E. by rewrite E, strcmp_refl in Hne.
Qed.

(** Among the children of a directory, by the last component. *)
Lemma runs_find_child rt ns p np ds nam s (Q : option nat -> fs entry -> Prop) :
  tree (nodes s) rt ns -> p ∈ rt :: ns -> nodes s !! p = Some np -> name np = path_of ds -> component nam ->
  (forall o, match o with
             | Some x => x ∈ kids (nodes s) ns p /\ named (nodes s) x (path_of (ds ++ [nam]))
             | None => forall x, x ∈ rt :: ns -> ~ named (nodes s) x (path_of (ds ++ [nam]))
             end -> Q o s) ->
  runs (find_name (sibling_fuel s) (child np) nam) s Q.
Proof.
  intros Ht Hp Hnp En Hc HQ. destruct (t_kids _ _ _ Ht p np Hp Hnp) as [-> Hs].
  assert (named (nodes s) p (path_of ds)) as Hnm by by exists np.
  assert (forall x n, x ∈ kids (nodes s) ns p -> nodes s !! x = Some n -> exists c, component c /\ name n = join (path_of ds) c) as Hk.
  { intros x n Hx Hn. destruct (kids_name _ _ _ _ _ _ Ht Hp Hnm Hx) as (n' & c & Hn' & Hc' & Hj). simplify_eq. by exists c. }
  eapply runs_find_name; [exact Hs | by eapply tree_size | |].
  - intros x n Hx Hn. destruct (Hk x n Hx Hn) as (c & _ & ->). apply slash_join.
  - intros [x|] Ho; apply HQ.
    + destruct Ho as [Hx (n & Hn & E)]. split; [done |]. exists n. split; [done |]. destruct (Hk x n Hx Hn) as (c & [_ Hsl] & Hj).
      rewrite Hj in E |- *. rewrite basename_join in E by done. by rewrite E, path_of_app.
    + intros x Hx Hnx. pose proof (tree_child _ _ _ _ _ _ _ Ht Hp Hnm Hx Hnx Hc) as Hkx. destruct Hnx as (n & Hn & E).
      apply (Ho x n Hkx Hn). rewrite E, path_of_app, basename_join; [done | apply Hc].
Qed.

Lemma runs_last_sibling l b pr fuel s (Q : nat -> fs entry -> Prop) :
  siblings (nodes s) pr (l ++ [b]) None -> (length l < fuel)%nat -> Q b s ->
  forall x, head_or (l ++ [b]) None = Some x -> runs (last_sibling fuel x) s Q.
Proof.
  revert pr fuel. induction l as [|y l IH]; intros pr fuel Hs Hf HQ x Hx; (destruct fuel as [|fuel]; [cbn in Hf; lia |]);
    cbn in Hx; injection Hx as <-; destruct Hs as (n & Hn & _ & Enx & Hs); cbn [last_sibling]; apply runs_bind; (eapply runs_node_at; [done |]);
    rewrite Enx.
  - by apply runs_ret.
  - destruct (head_or (l ++ [b]) None) as [z|] eqn:Ez; [| by destruct l]. eapply IH; [done | cbn in Hf; lia | done | done].
Qed.

(** ** The two changes *)

Lemma insert_alter h x n (f : node entry -> node entry) : h !! x = Some n -> <[x := f n]> h = alter f x h.
Proof.
  intros Hx. apply map_eq. intros y. destruct (decide (x = y)) as [<-|Hne].
  - by rewrite lookup_insert_eq, lookup_alter_eq, Hx.
  - by rewrite lookup_insert_ne, lookup_alter_ne.
Qed.

Lemma runs_alter a f s (Q : unit -> fs entry -> Prop) :
  is_Some (nodes s !! a) -> Q tt (set_nodes (alter f a (nodes s)) s) -> runs (update a f) s Q.
Proof. intros [n Hn] HQ. eapply runs_update_node; [done |]. by erewrite insert_alter. Qed.

Lemma alter_swap h (f g : node entry -> node entry) a b : a <> b -> alter f a (alter g b h) = alter g b (alter f a h).
Proof.
  intros Hne. apply map_eq. intros y. destruct (decide (y = a)) as [->|Ha]; [| destruct (decide (y = b)) as [->|Hb]].
  - by rewrite lookup_alter_eq, !(lookup_alter_ne _ _ b a), lookup_alter_eq.
  - by rewrite lookup_alter_ne, !lookup_alter_eq, lookup_alter_ne.
  - by rewrite !lookup_alter_ne.
Qed.

(** The name of the node may have been changed. *)
Lemma runs_remove_child rt ns a f h s (Q : unit -> fs entry -> Prop) :
  tree h rt ns -> a ∈ ns -> nodes s = alter f a h ->
  (forall n, parent (f n) = parent n /\ prev (f n) = prev n /\ next (f n) = next n) ->
  Q tt (set_nodes (alter f a (detach h a)) s) -> runs (remove_child a) s Q.
Proof.
  intros Ht Ha Es Hf HQ. destruct (tree_split _ _ _ a Ht Ha) as (n & p & l1 & l2 & Hn & Hp & Hin & Hpa & Ek & Ha1 & Ha2 & Hpv & Hnx & Hs1 & Hs2).
  unfold detach in HQ. rewrite Hn in HQ. unfold unlink_prev in HQ. unfold remove_child. destruct (Hf n) as (F1 & F2 & F3).
  assert (forall b, b ∈ l1 \/ b ∈ l2 -> a <> b /\ is_Some (nodes s !! b)) as Hsib.
  { intros b Hb. assert (a <> b) as Hab by (intros <-; tauto). split; [done |]. rewrite Es, lookup_alter_ne by done.
    assert (b ∈ kids h ns p) as [Hbn _]%kids_in.
    { rewrite Ek. apply elem_of_app. destruct Hb; [by left | right; by right]. }
    destruct (tree_in _ _ _ b Ht) as (m & Hm & _); [by right | by eexists]. }
  assert (forall b, next n = Some b -> a <> b /\ is_Some (nodes s !! b)) as Hnext.
  { intros b E. apply Hsib. right. rewrite E in Hnx. destruct l2; [done |]. injection Hnx as ->. by left. }
  apply runs_bind. eapply runs_node_at; [by rewrite Es, lookup_alter_eq, Hn |]. apply runs_bind. rewrite F1, F2, F3, Hp. rewrite Hp in HQ.
  eapply (runs_mono _ _ (fun _ s' => s' = set_nodes (alter f a match prev n with
      Some b => alter (set_next (next n)) b h | None => alter (set_child (next n)) p h end) s)).
  - destruct (prev n) as [b|] eqn:Eb.
    + destruct (Hsib b) as [Hab Hb]; [left; apply last_Some_elem_of; congruence |]. apply runs_alter; [done |]. by rewrite Es, alter_swap.
    + apply runs_alter; [| by rewrite Es, alter_swap]. rewrite Es, lookup_alter_ne by done.
      destruct (tree_in _ _ _ p Ht Hin) as (m & Hm & _). by eexists.
  - intros _ s' ->. destruct (next n) as [b|] eqn:Enx; [| by apply runs_ret]. destruct (Hnext b eq_refl) as [Hab Hb].
    rewrite Es, lookup_alter_ne in Hb by done. apply runs_alter; cbn.
    + rewrite lookup_alter_ne by done. destruct (prev n); by apply lookup_alter_is_Some.
    + by rewrite alter_swap.
Qed.

Lemma alter_links h a b p : b <> a ->
  alter (set_next None) a (alter (set_prev (Some b)) a (alter (set_next (Some a)) b (alter (set_parent (Some p)) a h))) =
  alter (fun n => set_next None (set_prev (Some b) (set_parent (Some p) n))) a (alter (set_next (Some a)) b h).
Proof.
  intros Hne. apply map_eq. intros y. destruct (decide (y = a)) as [->|Hy].
  - rewrite !lookup_alter_eq, !(lookup_alter_ne _ _ b a), lookup_alter_eq by done. by destruct (h !! a).
  - rewrite !(lookup_alter_ne _ _ a y) by done. destruct (decide (y = b)) as [->|Hyb].
    + by rewrite !lookup_alter_eq, lookup_alter_ne.
    + by rewrite !(lookup_alter_ne _ _ b y), lookup_alter_ne.
Qed.

Lemma runs_insert_as_child rt ns a p s (Q : unit -> fs entry -> Prop) :
  tree (nodes s) rt ns -> a ∉ rt :: ns -> is_Some (nodes s !! a) -> p ∈ rt :: ns ->
  Q tt (set_nodes (attach (nodes s) a p ns) s) -> runs (insert_as_child a p) s Q.
Proof.
  intros Ht Ha [n Hn] Hp HQ. assert (p <> a) as Hpa by by intros ->. destruct (tree_in _ _ _ p Ht Hp) as (np & Hnp & _).
  destruct (t_kids _ _ _ Ht p np Hp Hnp) as [Ec Hs]. unfold insert_as_child. apply runs_bind, runs_alter; [by eexists |].
  apply runs_bind. eapply runs_node_at; [cbn; rewrite lookup_alter_ne; done |]. rewrite Ec. unfold attach in HQ.
  pose proof (tree_size _ _ _ p Ht) as Hsz.
  destruct (kids (nodes s) ns p) as [|b l _] eqn:Ek using rev_ind.
  - cbn [head_or last] in *. apply runs_alter; [cbn; apply lookup_alter_is_Some; by eexists | exact HQ].
  - rewrite last_snoc in HQ. destruct (head_or (l ++ [b]) None) as [x|] eqn:Ex; [| by destruct l].
    apply runs_bind, runs_get, runs_bind.
    eapply (runs_last_sibling l b None); [| | | exact Ex].
    + cbn. apply siblings_alter_ne; [| done]. intros Hin. assert (a ∈ kids (nodes s) ns p) as [Hin' _]%kids_in by by rewrite Ek.
      apply Ha. by right.
    + rewrite length_app in Hsz. unfold sibling_fuel. cbn. rewrite <- size_dom, dom_alter_L, size_dom. cbn in Hsz. lia.
    + assert (b ∈ kids (nodes s) ns p) as [Hb _]%kids_in by (rewrite Ek; apply elem_of_app; right; by left).
      destruct (tree_in _ _ _ b Ht) as (nb & Hnb & _); [by right |]. assert (b <> a) as Hba by (intros ->; apply Ha; by right).
      apply runs_bind, runs_alter; [cbn; apply lookup_alter_is_Some; by eexists |].
      apply runs_bind, runs_alter; [cbn; apply lookup_alter_is_Some, lookup_alter_is_Some; by eexists |].
      apply runs_alter; [cbn; apply lookup_alter_is_Some, lookup_alter_is_Some, lookup_alter_is_Some; by eexists |].
      cbn. by rewrite (alter_links _ a b p) by done.
Qed.

(** ** Insertion *)

Context {lib : Libarchive entry}.

Lemma runs_get_node_for_path ns path s (Q : option nat -> fs entry -> Prop) :
  tree (nodes s) (root s) ns ->
  (forall o, match o with
             | Some x => x ∈ root s :: ns /\ named (nodes s) x path
             | None => forall x, x ∈ root s :: ns -> ~ named (nodes s) x path
             end -> Q o s) ->
  runs (get_node_for_path (root s) path) s Q.
Proof.
  intros Ht HQ. unfold get_node_for_path. change (Some (root s)) with (head_or [root s] None).
  destruct (t_root _ _ _ Ht) as (r & Hr & Er & _ & E1 & E2).
  eapply runs_get_node_below; [exact Ht | | | | lia | |].
  - intros x ->%list_elem_of_singleton. by left.
  - exists r. split_and!; [done | exact E1 | done | done].
  - unfold sibling_fuel. cbn. assert (size (nodes s) <> 0%nat); [| lia]. intros E%map_size_empty_inv. by rewrite E in Hr.
  - intros x n ->%list_elem_of_singleton Hn. assert (n = r) as -> by congruence. rewrite Er. cbn. lia.
  - intros [x|] Ho; apply HQ; [done |]. intros z Hz (n & Hn & En). by apply (Ho (root s) z n); [left | | eapply under_root | |].
Qed.

(** The loop of an insertion, in directories that are there. *)
Lemma runs_walk insert ns cs : forall ds c fuel p s (Q : nat -> fs entry -> Prop),
  tree (nodes s) (root s) ns -> p ∈ root s :: ns -> named (nodes s) p (path_of ds) ->
  Forall component ds -> Forall component cs -> component c -> no_repeat (default [] (last ds)) cs ->
  (length (key_of cs c) < fuel)%nat -> (exists q, q ∈ root s :: ns /\ named (nodes s) q (path_of (ds ++ cs))) ->
  (forall q, q ∈ root s :: ns -> named (nodes s) q (path_of (ds ++ cs)) -> Q q s) ->
  runs (walk insert fuel (root s) p (key_of cs c)) s Q.
Proof.
  induction cs as [|d cs IH]; intros ds c fuel p s Q Ht Hp Hnp Hds Hcs Hc Hnr Hf Hex HQ; (destruct fuel as [|fuel]; [cbn in Hf; lia |]);
    cbn [walk key_of foldr].
  { rewrite next_name_none by apply Hc. apply runs_ret, HQ; [done |]. by rewrite app_nil_r. }
  apply Forall_cons in Hcs as [Hd Hcs]. destruct Hnr as [Hne Hnr]. rewrite next_name_app by apply Hd.
  pose proof Hnp as (np & Hp' & En). apply runs_bind. eapply runs_node_at; [done |]. apply runs_bind.
  rewrite En. apply runs_last_name; [apply slash_path |]. rewrite basename_path by done.
  assert (forall ds', ds ++ d :: cs = (ds ++ [d]) ++ ds' <-> ds' = cs) as Happ.
  { intros ds'. rewrite <- app_assoc. split; [by intros [= ->]%(inj (app ds)) | by intros ->]. }
  destruct (Z.eqb_spec (strcmp (default [] (last ds)) d) 0) as [E%strcmp_eq|_]; [done |].
  apply runs_bind, runs_bind, runs_get. eapply (runs_find_child (root s) ns p np ds d); [done.. |].
  intros o Ho. destruct Hex as (q & Hq & Hnq). rewrite (proj2 (Happ cs) eq_refl) in Hnq. destruct o as [x|].
  - destruct Ho as [[Hx _]%kids_in Hnx]. eapply (IH (ds ++ [d])); [done | by right | done | | done | done | | | |].
    + apply Forall_app. split; [done |]. by apply Forall_singleton.
    + by rewrite last_snoc.
    + cbn in Hf. rewrite length_app in Hf. cbn in Hf. unfold key_of. lia.
    + by exists q.
    + intros q' Hq' Hnq'. apply HQ; [done |]. by rewrite (proj2 (Happ cs) eq_refl).
  - destruct (tree_prefix _ _ _ q (ds ++ [d]) cs Ht Hq Hnq Hcs) as (x & Hx & Hnx). by destruct (Ho x Hx).
Qed.

(** In its directory: a node of that name there gives it its header, and it is lost; a file
    is not a directory. *)
Lemma runs_insert_in ns cs c a n p np s (Q : Z -> fs entry -> Prop) :
  tree (nodes s) (root s) ns -> a ∉ root s :: ns -> nodes s !! a = Some n -> p ∈ root s :: ns -> nodes s !! p = Some np ->
  name np = path_of cs -> name n = path_of (cs ++ [c]) -> component c ->
  (S_ISDIR (archive_entry_mode (nentry np)) = false -> Q (- ENOTDIR) s) ->
  (S_ISDIR (archive_entry_mode (nentry np)) = true -> forall x m, x ∈ ns -> nodes s !! x = Some m -> name m = name n ->
     Q 0 (set_nodes (<[a := set_entry (nentry m) n]> (nodes s)) s)) ->
  (S_ISDIR (archive_entry_mode (nentry np)) = true -> (forall x, x ∈ root s :: ns -> ~ named (nodes s) x (name n)) ->
     Q 0 (set_nodes (attach (nodes s) a p ns) s)) ->
  runs (insert_in a p) s Q.
Proof.
  intros Ht Ha Hn Hp Hnp Ep En Hc Hfile Hdup Hnew. unfold insert_in. apply runs_bind. eapply runs_node_at; [done |].
  apply runs_bind. eapply runs_node_at; [done |]. destruct (S_ISDIR _) eqn:Ed; [| by apply runs_ret, Hfile].
  apply runs_bind. eapply (runs_mono _ _ (fun o s' => s' = s /\ match o with
      | Some x => x ∈ kids (nodes s) ns p /\ named (nodes s) x (name n)
      | None => forall x, x ∈ root s :: ns -> ~ named (nodes s) x (name n) end)).
  - destruct (child np) as [b|] eqn:Eb.
    + apply runs_bind, runs_last_name; [rewrite En; apply slash_path |]. rewrite En, path_of_app, basename_join by apply Hc.
      rewrite <- path_of_app. apply runs_bind, runs_get. rewrite <- Eb.
      eapply (runs_find_child (root s) ns p np cs c); [done.. |]. by intros o Ho.
    + apply runs_ret. split; [done |]. intros x Hx Hnx. rewrite En in Hnx.
      destruct (t_kids _ _ _ Ht p np Hp Hnp) as [Ek _]. assert (named (nodes s) p (path_of cs)) as Hnm by by exists np.
      pose proof (tree_child _ _ _ _ _ _ _ Ht Hp Hnm Hx Hnx Hc) as Hk. rewrite Eb in Ek.
      destruct (kids (nodes s) ns p); [by apply not_elem_of_nil in Hk | done].
  - intros [x|] s' [-> Ho].
    + destruct Ho as [[Hx _]%kids_in (m & Hm & Em)]. apply runs_bind. eapply runs_node_at; [done |]. apply runs_bind.
      eapply runs_update_node; [done |]. by apply runs_ret, (Hdup eq_refl x m).
    + apply runs_bind. eapply runs_insert_as_child; [done | done | by eexists | done |]. by apply runs_ret, Hnew.
Qed.

Lemma runs_insert_node ns cs c a n p np s (Q : Z -> fs entry -> Prop) :
  tree (nodes s) (root s) ns -> a ∉ root s :: ns -> nodes s !! a = Some n -> p ∈ root s :: ns -> nodes s !! p = Some np ->
  name np = path_of cs -> name n = path_of (cs ++ [c]) -> Forall component cs -> component c -> no_repeat [] cs ->
  (S_ISDIR (archive_entry_mode (nentry np)) = false -> Q (- ENOTDIR) s) ->
  (S_ISDIR (archive_entry_mode (nentry np)) = true -> forall x m, x ∈ ns -> nodes s !! x = Some m -> name m = name n ->
     Q 0 (set_nodes (<[a := set_entry (nentry m) n]> (nodes s)) s)) ->
  (S_ISDIR (archive_entry_mode (nentry np)) = true -> (forall x, x ∈ root s :: ns -> ~ named (nodes s) x (name n)) ->
     Q 0 (set_nodes (attach (nodes s) a p ns) s)) ->
  runs (insert_node a) s Q.
Proof.
  intros Ht Ha Hn Hp Hnp Ep En Hcs Hc Hnr Hfile Hdup Hnew. unfold insert_node. apply runs_bind, runs_get, runs_bind.
  eapply runs_node_at; [done |]. cbn [insert_by_path]. apply runs_bind. eapply runs_node_at; [done |].
  rewrite En, path_of_key by done. apply runs_bind.
  destruct (t_root _ _ _ Ht) as (r & Hr & Er & _).
  eapply (runs_walk _ ns cs []); [done | by left | by exists r | done | done | done | done | lia | |].
  - exists p. split; [done |]. by exists np.
  - intros q Hq Hnq. assert (q = p) as ->.
    { eapply (tree_unique _ _ _ q p (path_of cs) Ht Hq Hp Hnq). by exists np. }
    by eapply runs_insert_in.
Qed.
End Insert.
