(* ===== verification/ArchiveSpec.v ===== *)
(** What archivemount shows, as an abstract file system: the root and the members in the
    order in which they came, each with its path; a directory lists those whose path is one
    component longer. The callbacks as functions on it, and when a heap of nodes stands for
    such a file system. *)

From S2P Require Import Prelude.
From S2P Require Import CString.
From S2P Require Import Archive.
From S2P Require Import ArchiveTree.
From S2P Require Import ArchiveLinks.
From S2P Require Import ArchiveInsert.
From S2P Require Import ArchiveFS.

Record member (entry : Type) := Member {
  m_name : bytes; m_location : option bytes; m_renamed : bool; m_entry : entry; m_modified : bool }.
Arguments Member {entry}. Arguments m_name {entry}. Arguments m_location {entry}. Arguments m_renamed {entry}.
Arguments m_entry {entry}. Arguments m_modified {entry}.

Record view (entry : Type) := View {
  v_root : member entry; v_members : list (member entry); v_writeable : bool; v_modified : bool; v_trace : list syscall }.
Arguments View {entry}. Arguments v_root {entry}. Arguments v_members {entry}. Arguments v_writeable {entry}.
Arguments v_modified {entry}. Arguments v_trace {entry}.

Section Spec.
Context {entry : Type} {lib : Libarchive entry} (w : os).
Implicit Types (v : view entry) (m : member entry).

Definition set_member_entry (e : entry) m := Member (m_name m) (m_location m) (m_renamed m) e (m_modified m).
Definition with_members ms v := View (v_root v) ms (v_writeable v) (v_modified v) (v_trace v).
Definition modified v := View (v_root v) (v_members v) (v_writeable v) true (v_trace v).
Definition after_call (c : syscall) v := View (v_root v) (v_members v) (v_writeable v) (v_modified v) (v_trace v ++ [c]).

Definition find_member (path : bytes) (ms : list (member entry)) : option (member entry) :=
  snd <$> list_find (fun m => m_name m = path) ms.

Definition lookup v (path : bytes) : option (member entry) :=
  if decide (path = [SLASH]) then Some (v_root v) else find_member path (v_members v).

(** The children of a directory. *)
Definition listed v (path : bytes) : list (member entry) := filter (fun m => dirname (m_name m) = path) (v_members v).

Definition remove (path : bytes) v := with_members (filter (fun m => m_name m <> path) (v_members v)) v.
Definition add m v := with_members (v_members v ++ [m]) v.

(** A change of one member, and of its header. *)
Definition alter_member (path : bytes) (f : member entry -> member entry) v : view entry :=
  let g m := if decide (m_name m = path) then f m else m in
  View (g (v_root v)) (map g (v_members v)) (v_writeable v) (v_modified v) (v_trace v).

Definition alter_entry (path : bytes) (f : entry -> entry) v : view entry :=
  modified (alter_member path (fun m => set_member_entry (f (m_entry m)) m) v).

(** ** The callbacks *)

(** Where hard links lead; also symbolic links, if [soft]. *)
Fixpoint follow (soft : bool) (fuel : nat) v (path : bytes) : option (option (member entry)) :=
  match fuel with
  | O => None
  | S fuel =>
      match lookup v path with
      | None => Some None
      | Some m =>
          match archive_entry_hardlink (m_entry m), (if soft then archive_entry_symlink (m_entry m) else None) with
          | Some target, _ | None, Some target => follow soft fuel v target
          | None, None => Some (Some m)
          end
      end
  end.

Definition spec_getattr (fuel : nat) (path : bytes) (buf : stat) v : option (Z * stat) :=
  o ← follow false fuel v path;
  Some match o with None => (- ENOENT, buf) | Some m => (0, archive_entry_stat (m_entry m)) end.

(** [ar_chmod], [ar_chown] and [ar_utime]. *)
Definition spec_change (soft : bool) (fuel : nat) (path : bytes) (f : entry -> entry) v : option (Z * view entry) :=
  if negb (v_writeable v) then match fuel with O => None | S _ => Some (- EROFS, v) end
  else
    o ← follow soft fuel v path;
    Some match o with None => (- ENOENT, v) | Some m => (0, alter_entry (m_name m) f v) end.

(** What the filler is given. *)
Definition items v (path : bytes) : list (bytes * (Z * Z)) :=
  map (fun m => (basename (m_name m), (archive_entry_ino (m_entry m), archive_entry_mode (m_entry m)))) (listed v path).

Fixpoint feed {F} (filler : F -> bytes -> Z * Z -> F * bool) (buf : F) (its : list (bytes * (Z * Z))) : F :=
  match its with
  | [] => buf
  | (nm, st) :: its => let '(buf, full) := filler buf nm st in if full : bool then buf else feed filler buf its
  end.

Definition spec_readdir {F} (filler : F -> bytes -> Z * Z -> F * bool) (path : bytes) (buf : F) v : Z * F :=
  match lookup v path with None => (- ENOENT, buf) | Some _ => (0, feed filler buf (items v path)) end.

Definition spec_drop (m : member entry) (how : bytes -> syscall) v : Z * view entry :=
  match m_location m with
  | Some loc =>
      let v' := after_call (how loc) v in
      match os_call w (length (v_trace v)) with
      | Some err => (err, v')
      | None => (0, modified (remove (m_name m) v'))
      end
  | None => (0, modified (remove (m_name m) v))
  end.

Definition spec_unlink (path : bytes) v : Z * view entry :=
  if negb (v_writeable v) then (- EROFS, v)
  else match lookup v path with
       | None => (- ENOENT, v)
       | Some m => if S_ISDIR (archive_entry_mode (m_entry m)) then (- EISDIR, v) else spec_drop m Unlink v
       end.

Definition spec_rmdir (path : bytes) v : Z * view entry :=
  if negb (v_writeable v) then (- EROFS, v)
  else match lookup v path with
       | None => (- ENOENT, v)
       | Some m =>
           if decide (listed v path = []) then
             if decide (last (m_name m) = Some "."%char) then (- EINVAL, v)
             else if negb (S_ISDIR (archive_entry_mode (m_entry m))) then (- ENOTDIR, v)
             else spec_drop m Rmdir v
           else (- ENOTEMPTY, v)
       end.

(** ** New members *)

(** The path can be made: its directory is there, and no component of the directory is
    repeated at once. *)
Definition creatable v (path : bytes) : Prop := exists cs c,
  path = path_of (cs ++ [c]) /\ Forall component cs /\ component c /\ no_repeat [] cs /\ is_Some (lookup v (path_of cs)).

Definition spec_pathname (nm : bytes) v : bytes :=
  match listed v [SLASH] with m :: _ => like (archive_entry_pathname (m_entry m)) nm | [] => nm end.

Definition spec_names (st : stat) (e : entry) v : entry * view entry :=
  let e := match os_name w (length (v_trace v)) with inl nm => archive_entry_set_uname nm e | inr _ => e end in
  let v := after_call (Getpwuid (st_uid st)) v in
  let e := match os_name w (length (v_trace v)) with inl nm => archive_entry_set_gname nm e | inr _ => e end in
  (e, after_call (Getgrgid (st_gid st)) v).

Definition with_stat (st : stat) (e : entry) : entry :=
  archive_entry_set_rdevminor (st_dev st) (archive_entry_set_rdevmajor (st_dev st)
    (archive_entry_set_mode (st_mode st) (archive_entry_set_size (st_size st)
       (archive_entry_set_mtime (st_mtime st) (archive_entry_set_uid (st_uid st) (archive_entry_set_gid (st_gid st) e)))))).

(** The member becomes the last one, in a directory. *)
Definition spec_insert m v : Z * view entry :=
  match lookup v (dirname (m_name m)) with
  | Some d => if S_ISDIR (archive_entry_mode (m_entry d)) then (0, modified (add m v)) else (- ENOENT, v)
  | None => (- ENOENT, v)
  end.

Definition spec_add (path loc : bytes) (undo : syscall) v : Z * view entry :=
  let e := archive_entry_set_pathname (spec_pathname path v) archive_entry_new in
  let v1 := after_call (Lstat loc) v in
  match os_lstat w (length (v_trace v)) with
  | inr err => (- err, after_call undo v1)
  | inl st =>
      let '(e, v2) := spec_names st (with_stat st e) v1 in
      let '(z, v3) := spec_insert (Member path (Some loc) false e true) v2 in
      (z, if z =? 0 then v3 else after_call undo v3)
  end.

Definition temp_template (path : bytes) : bytes := P_tmpdir w ++ B "/archivemount" ++ map to_underscore path ++ B "_XXXXXX".

Definition spec_create (make undo : bytes -> syscall) (path : bytes) v : Z * view entry :=
  if negb (v_writeable v) then (- EROFS, v)
  else match lookup v path with
       | Some _ => (- EEXIST, v)
       | None =>
           let v1 := after_call (Mkstemp (temp_template path)) v in
           match os_mkstemp w (length (v_trace v)) with
           | inr _ => (1, v1)
           | inl loc =>
               let v2 := after_call (Unlink loc) (after_call (Close 0) v1) in
               let v3 := after_call (make loc) v2 in
               match os_call w (length (v_trace v2)) with
               | Some err => (- err, v3)
               | None => spec_add path loc (undo loc) v3
               end
           end
       end.

Definition link_entry (from to : bytes) (st : stat) m : entry :=
  archive_entry_set_hardlink from (archive_entry_copy_stat st
    (archive_entry_set_pathname (like (archive_entry_pathname (m_entry m)) to) archive_entry_new)).

(** The names of the owner and the group, which may be errors of the call itself. *)
Definition spec_group (st : stat) (e : entry) v : (entry + Z) * view entry :=
  let v' := after_call (Getgrgid (st_gid st)) v in
  match os_name w (length (v_trace v)) with
  | inl nm => (inl (archive_entry_set_gname nm e), v')
  | inr err => (if fatal_errno err then inr err else inl e, v')
  end.

Definition spec_owner (st : stat) (e : entry) v : (entry + Z) * view entry :=
  let v1 := after_call (Getpwuid (st_uid st)) v in
  match os_name w (length (v_trace v)) with
  | inl nm => spec_group st (archive_entry_set_uname nm e) v1
  | inr err => if fatal_errno err then (inr err, v1) else spec_group st e v1
  end.

Definition spec_link (junk : stat) (fuel : nat) (from to : bytes) v : option (Z * view entry) :=
  if negb (v_writeable v) then Some (- EROFS, v)
  else match lookup v from with
       | None => Some (- ENOENT, v)
       | Some m =>
           match lookup v to with
           | Some _ => Some (- EEXIST, v)
           | None =>
               r ← spec_getattr fuel from junk v;
               Some match spec_owner (snd r) (link_entry from to (snd r) m) v with
                    | (inr err, v') => (- err, v')
                    | (inl e, v') => spec_insert (Member to None false e true) v'
                    end
           end
       end.

Definition spec_readlink (path : bytes) (size : nat) v : option (Z * bytes) :=
  match lookup v path with
  | None => Some (- ENOENT, [])
  | Some m =>
      if negb (S_ISLNK (archive_entry_mode (m_entry m))) then Some (- ENOLINK, [])
      else tmp ← archive_entry_symlink (m_entry m); Some (0, snprintf size tmp)
  end.

Definition spec_open (path : bytes) (writes : bool) v : Z :=
  match lookup v path with
  | None => - ENOENT
  | Some _ => if writes && negb (v_writeable v) then - EROFS else 0
  end.

(** ** Nodes that stand for members *)

Definition data (n : node entry) : member entry := Member (name n) (location n) (namechanged n) (nentry n) (nmodified n).

Definition stands (h : gmap nat (node entry)) (x : nat) m : Prop := exists n, h !! x = Some n /\ data n = m.

(** The state of the program shows the abstract file system, with the nodes [ns]. *)
Record shown (s : fs entry) (ns : list nat) v : Prop := Shown {
  s_tree : tree (nodes s) (root s) ns;
  s_root : stands (nodes s) (root s) (v_root v);
  s_members : Forall2 (stands (nodes s)) ns (v_members v);
  s_writeable : archiveWriteable s = v_writeable v;
  s_modified : archiveModified s = v_modified v;
  s_trace : trace s = v_trace v }.

Definition shows (s : fs entry) v : Prop := exists ns, shown s ns v.

Lemma stands_named h x m nm : stands h x m -> m_name m = nm <-> named h x nm.
Proof. intros (n & Hn & <-). split; [intros <-; by exists n | intros (n' & Hn' & <-)]. by simplify_eq. Qed.

Lemma shown_root s ns v : shown s ns v -> m_name (v_root v) = [SLASH].
Proof.
  intros Hs. destruct (t_root _ _ _ (s_tree _ _ _ Hs)) as (n & Hn & En & _). eapply stands_named; [apply (s_root _ _ _ Hs) |]. by exists n.
Qed.

Lemma Forall2_member h ns ms x : Forall2 (stands h) ns ms -> x ∈ ns -> exists m, m ∈ ms /\ stands h x m.
Proof.
  intros Hf Hx. apply list_elem_of_lookup in Hx as [i Hi]. destruct (Forall2_lookup_l _ _ _ _ _ Hf Hi) as (m & Hm & Hs).
  exists m. split; [by eapply list_elem_of_lookup_2 | done].
Qed.

Lemma find_member_in h rt ns ms x n :
  tree h rt ns -> Forall2 (stands h) ns ms -> x ∈ ns -> h !! x = Some n -> find_member (name n) ms = Some (data n).
Proof.
  intros Ht Hf Hx Hn. unfold find_member. destruct (list_find (fun m => m_name m = name n) ms) as [[i m]|] eqn:E; cbn.
  - apply list_find_Some in E as (Hi & Em & _). destruct (Forall2_lookup_r _ _ _ _ _ Hf Hi) as (y & Hy & Hm).
    apply list_elem_of_lookup_2 in Hy. apply (stands_named _ _ _ _ Hm) in Em. pose proof Hm as (k & Hk & <-).
    assert (y = x) as ->; [| by simplify_eq]. eapply (tree_unique h rt ns); [done | by right | by right | done | by exists n].
  - exfalso. destruct (Forall2_member _ _ _ _ Hf Hx) as (m & Hm & Hs). eapply list_find_None in E. rewrite Forall_forall in E.
    apply (E m Hm). apply (stands_named _ _ _ _ Hs). by exists n.
Qed.

Lemma find_member_none h ns ms path :
  Forall2 (stands h) ns ms -> (forall x, x ∈ ns -> ~ named h x path) -> find_member path ms = None.
Proof.
  intros Hf Hno. unfold find_member. destruct (list_find (fun m => m_name m = path) ms) as [[i m]|] eqn:E; [| done]. exfalso.
  apply list_find_Some in E as (Hi & Em & _). destruct (Forall2_lookup_r _ _ _ _ _ Hf Hi) as (y & Hy & Hm).
  apply (Hno y); [by eapply list_elem_of_lookup_2 | by apply (stands_named _ _ _ _ Hm)].
Qed.

(** What a search finds. *)
Definition finds (s : fs entry) ns v (path : bytes) (o : option nat) : Prop :=
  match o with
  | Some x => x ∈ root s :: ns /\ exists n, nodes s !! x = Some n /\ name n = path /\ lookup v path = Some (data n)
  | None => lookup v path = None /\ forall x, x ∈ root s :: ns -> ~ named (nodes s) x path
  end.

Lemma shown_lookup s ns v x n : shown s ns v -> x ∈ root s :: ns -> nodes s !! x = Some n -> lookup v (name n) = Some (data n).
Proof.
  intros Hs Hx Hn. pose proof (s_tree _ _ _ Hs) as Ht. unfold lookup. apply elem_of_cons in Hx as [->|Hx].
  - destruct (t_root _ _ _ Ht) as (r & Hr & Er & _). assert (r = n) as -> by congruence. rewrite decide_True by done.
    destruct (s_root _ _ _ Hs) as (r' & Hr' & Ed). assert (r' = n) as -> by congruence. by rewrite Ed.
  - rewrite decide_False.
    + eapply find_member_in; [done | apply (s_members _ _ _ Hs) | done | done].
    + intros E. pose proof (t_nodup _ _ _ Ht) as [Hr _]%NoDup_cons. apply Hr.
      assert (root s = x) as ->; [| done]. destruct (t_root _ _ _ Ht) as (r & Hr' & Er & _).
      eapply (tree_unique _ _ _ _ _ [SLASH] Ht); [by left | by right | by exists r | by exists n].
Qed.

Lemma runs_find s ns v path (Q : option nat -> fs entry -> Prop) :
  shown s ns v -> (forall o, finds s ns v path o -> Q o s) -> runs (find path) s Q.
Proof.
  intros Hs HQ. pose proof (s_tree _ _ _ Hs) as Ht. unfold find. apply runs_bind, runs_get. eapply runs_get_node_for_path; [done |].
  intros [x|] Ho; apply HQ.
  - destruct Ho as [Hx (n & Hn & <-)]. split; [done |]. exists n. split_and!; [done | done |]. by eapply shown_lookup.
  - split; [| exact Ho]. unfold lookup. case_decide as E.
    + subst. destruct (Ho (root s)); [by left |]. destruct (t_root _ _ _ Ht) as (r & Hr & Er & _). by exists r.
    + eapply find_member_none; [apply (s_members _ _ _ Hs) |]. intros x Hx. apply Ho. by right.
Qed.
End Spec.
