(* ===== verification/ArchiveRefine.v ===== *)
(** archivemount refines the abstract file system: each callback, on a heap of nodes that
    shows one, does what the function of the specification says. *)

From S2P Require Import Prelude.
From S2P Require Import CString.
From S2P Require Import Archive.
From S2P Require Import ArchiveTree.
From S2P Require Import ArchiveLinks.
From S2P Require Import ArchiveInsert.
From S2P Require Import ArchiveFS.
From S2P Require Import ArchiveSpec.

Section Refine.
Context {entry : Type} {lib : Libarchive entry} (w : os).
Abbreviation heap := (gmap nat (node entry)).
Implicit Types (h : heap) (n : node entry) (s : fs entry) (v : view entry) (m : member entry).

Lemma Forall2_impl_in {A C} (P R : A -> C -> Prop) l k :
  Forall2 P l k -> (forall x y, x ∈ l -> P x y -> R x y) -> Forall2 R l k.
Proof.
  induction 1 as [|x y l k Hxy _ IH]; intros H; constructor; [apply H; [by left | done] |]. apply IH. intros a c Ha. apply H. by right.
Qed.

(** ** Changes of what is shown *)

Lemma shown_frame s ns v h :
  shown s ns v -> (forall x, x ∈ root s :: ns -> h !! x = nodes s !! x) -> shown (set_nodes h s) ns v.
Proof.
  intros [H1 H2 H3 H4 H5 H6] Hf. split; try done.
  - by apply (tree_other (nodes s)).
  - destruct H2 as (n & Hn & Ed). exists n. cbn. by rewrite Hf by by left.
  - cbn. eapply Forall2_impl_in; [exact H3 |]. intros x m Hx (n & Hn & Ed). exists n. by rewrite Hf by by right.
Qed.

Lemma shown_call s ns v c :
  shown s ns v -> shown (Fs (nodes s) (root s) (archiveWriteable s) (archiveModified s) (trace s ++ [c])) ns (after_call c v).
Proof. intros [H1 H2 H3 H4 H5 H6]. split; try done. cbn. by rewrite H6. Qed.

Lemma shown_modified s ns v : shown s ns v -> shown (set_modified s) ns (modified v).
Proof. by intros [H1 H2 H3 H4 H5 H6]. Qed.

Lemma runs_syscall c s ns v (Q : nat -> fs entry -> Prop) :
  shown s ns v ->
  (forall s', shown s' ns (after_call c v) -> nodes s' = nodes s -> root s' = root s -> Q (length (v_trace v)) s') -> runs (call c) s Q.
Proof.
  intros Hs HQ. unfold call. apply runs_bind, runs_get, runs_bind, runs_modify, runs_ret. rewrite <- (s_trace _ _ _ Hs) in HQ.
  apply HQ; [by apply shown_call | done | done].
Qed.

Lemma shown_change s ns v x n f g :
  shown s ns v -> x ∈ root s :: ns -> nodes s !! x = Some n ->
  parent (f n) = parent n -> prev (f n) = prev n -> next (f n) = next n -> child (f n) = child n -> name (f n) = name n ->
  data (f n) = g (data n) ->
  shown (set_nodes (<[x := f n]> (nodes s)) s) ns (alter_member (name n) g v).
Proof.
  intros Hs Hx Hn E1 E2 E3 E4 E5 Ed. pose proof (s_tree _ _ _ Hs) as Ht. destruct Hs as [_ H2 H3 H4 H5 H6].
  set (h' := <[x := f n]> (nodes s)).
  assert (forall y m, y ∈ root s :: ns -> stands (nodes s) y m -> stands h' y (if decide (m_name m = name n) then g m else m)) as Hst.
  { intros y m Hy (k & Hk & <-). destruct (decide (x = y)) as [<-|Hne].
    - assert (k = n) as -> by congruence. rewrite decide_True by done. exists (f n). unfold h'. by rewrite lookup_insert_eq.
    - rewrite decide_False; [exists k; unfold h'; by rewrite lookup_insert_ne |]. intros E. apply Hne.
      eapply (tree_unique _ _ _ x y (name n) Ht Hx Hy); [by exists n | by exists k]. }
  split; try done.
  - cbn. eapply tree_frame; [exact Ht |]. intros y k Hy Hk. destruct (decide (x = y)) as [<-|Hne].
    + exists (f n). unfold h'. rewrite lookup_insert_eq. assert (k = n) as -> by congruence. by split_and!.
    + exists k. unfold h'. rewrite lookup_insert_ne by done. by split_and!.
  - apply Hst; [by left | done].
  - cbn. apply Forall2_fmap_r. eapply Forall2_impl_in; [exact H3 |]. intros y m Hy Hm. apply Hst; [by right | done].
Qed.

Lemma shown_entry s ns v x n f :
  shown s ns v -> x ∈ root s :: ns -> nodes s !! x = Some n ->
  shown (set_modified (set_nodes (<[x := set_entry (f (nentry n)) n]> (nodes s)) s)) ns (alter_entry (name n) f v).
Proof. intros Hs Hx Hn. apply shown_modified. by apply (shown_change s ns v x n (fun n => set_entry (f (nentry n)) n)). Qed.

Lemma shown_attach s ns v a n p np c :
  shown s ns v -> a ∉ root s :: ns -> nodes s !! a = Some n -> p ∈ root s :: ns -> nodes s !! p = Some np ->
  component c -> name n = join (name np) c -> (forall x, x ∈ root s :: ns -> ~ named (nodes s) x (name n)) ->
  child n = None -> (kids (nodes s) ns p = [] -> prev n = None /\ next n = None) ->
  shown (set_nodes (attach (nodes s) a p ns) s) (ns ++ [a]) (add (data n) v).
Proof.
  intros Hs Ha Hn Hp Hnp Hc Hj Hnew Hch Hfresh. pose proof (s_tree _ _ _ Hs) as Ht. destruct Hs as [_ H2 H3 H4 H5 H6].
  assert (forall x m, x ∈ root s :: ns -> stands (nodes s) x m -> stands (attach (nodes s) a p ns) x m) as Hst.
  { intros x m Hx (k & Hk & <-). destruct (attach_old _ _ _ a p x k Ht Ha Hx Hk) as (k' & Hk' & _ & _ & E1 & _ & _ & E2 & E3 & E4 & E5).
    exists k'. split; [done |]. unfold data. congruence. }
  split; try done.
  - eapply tree_attach; try done. intros y m Hy Hm E. apply (Hnew y); [by right |]. by exists m.
  - apply Hst; [by left | done].
  - cbn. apply Forall2_app.
    + eapply Forall2_impl_in; [exact H3 |]. intros x m Hx Hm. apply Hst; [by right | done].
    + constructor; [| constructor]. destruct (attach_new _ _ _ a p n Ht Ha Hp Hn Hfresh) as (n' & Hn' & _ & _ & _ & _ & E1 & E2 & E3 & E4 & E5).
      exists n'. split; [done |]. unfold data. congruence.
Qed.

Lemma shown_detach s ns v a n :
  shown s ns v -> a ∈ ns -> nodes s !! a = Some n -> kids (nodes s) ns a = [] ->
  shown (set_nodes (delete a (detach (nodes s) a)) s) (filter (.≠ a) ns) (remove (name n) v).
Proof.
  intros Hs Ha Hn Hk. pose proof (s_tree _ _ _ Hs) as Ht. destruct Hs as [_ H2 H3 H4 H5 H6].
  assert (forall x m, x ∈ root s :: ns -> x <> a -> stands (nodes s) x m -> stands (delete a (detach (nodes s) a)) x m) as Hst.
  { intros x m Hx Hne (k & Hk' & <-). destruct (detach_old _ _ _ a x k Ht Ha Hx Hk') as (k' & Hk2 & _ & E1 & _ & _ & E2 & E3 & E4 & E5).
    exists k'. rewrite lookup_delete_ne by done. split; [done |]. unfold data. congruence. }
  pose proof (t_nodup _ _ _ Ht) as [Hr _]%NoDup_cons. assert (root s <> a) as Hra by by intros <-.
  split; try done.
  - cbn. eapply tree_other; [by apply tree_detach |]. intros x [->|[Hx _]%list_elem_of_filter]%elem_of_cons; by rewrite lookup_delete_ne.
  - by apply Hst; [left | |].
  - cbn. clear H2 H4 H5 H6. assert (forall l ms, l ⊆ ns -> Forall2 (stands (nodes s)) l ms ->
      Forall2 (stands (delete a (detach (nodes s) a))) (filter (.≠ a) l) (filter (fun m => m_name m <> name n) ms)) as Hf; [| by apply Hf].
    intros l ms Hl. induction 1 as [|x m l ms Hm _ IH]; [done |]. assert (x ∈ ns) as Hx by (apply Hl; by left).
    rewrite !filter_cons. destruct (decide (x ≠ a)) as [Hne|He].
    + rewrite decide_True; [constructor; [apply Hst; [by right | done | done] |]; apply IH; intros y Hy; apply Hl; by right |].
      intros E. apply Hne. apply (stands_named _ _ _ _ Hm) in E. eapply (tree_unique _ _ _ x a (name n) Ht); [by right | by right | done | by exists n].
    + apply dec_stable in He as ->. rewrite decide_False; [apply IH; intros y Hy; apply Hl; by right |]. intros E. apply E.
      apply (stands_named _ _ _ _ Hm). by exists n.
Qed.

(** ** Directories *)

Lemma shown_listed s ns v p np :
  shown s ns v -> p ∈ root s :: ns -> nodes s !! p = Some np ->
  Forall2 (stands (nodes s)) (kids (nodes s) ns p) (listed v (name np)).
Proof.
  intros Hs Hp Hnp. pose proof (s_tree _ _ _ Hs) as Ht. pose proof (s_members _ _ _ Hs) as Hf. unfold listed.
  assert (forall l ms, l ⊆ ns -> Forall2 (stands (nodes s)) l ms ->
    Forall2 (stands (nodes s)) (kids (nodes s) l p) (filter (fun m => dirname (m_name m) = name np) ms)) as H; [| by apply H].
  intros l ms Hl. induction 1 as [|x m l ms Hm _ IH]; [done |]. assert (x ∈ ns) as Hx by (apply Hl; by left).
  unfold kids. rewrite !filter_cons. fold (kids (nodes s) l p).
  destruct (t_node _ _ _ Ht x Hx) as (n & q & nq & c & Hn & Hq & Hiq & Hnq & Hc & Hj).
  assert (dirname (m_name m) = name nq) as Hdir.
  { destruct Hm as (n' & Hn' & <-). assert (n' = n) as -> by congruence. cbn. rewrite Hj. apply dirname_join; [done |].
    destruct (tree_in _ _ _ q Ht Hiq) as (? & ? & ?). by simplify_eq. }
  destruct (decide (parent_of (nodes s) x = Some p)) as [E|Hne].
  - unfold parent_of in E. rewrite Hn in E. cbn in E. assert (q = p) as -> by congruence. assert (nq = np) as -> by congruence.
    rewrite decide_True by done. constructor; [done |]. apply IH. intros y Hy. apply Hl. by right.
  - rewrite decide_False; [apply IH; intros y Hy; apply Hl; by right |]. intros E. apply Hne. unfold parent_of. rewrite Hn. cbn. rewrite Hq.
    f_equal. eapply (tree_unique _ _ _ q p (name np) Ht Hiq Hp); [exists nq; split; [done | congruence] | by exists np].
Qed.

Lemma runs_fill_loop {F} (filler : F -> bytes -> Z * Z -> F * bool) l ms pr fuel buf s (Q : F -> fs entry -> Prop) :
  Forall2 (stands (nodes s)) l ms -> siblings (nodes s) pr l None -> (length l < fuel)%nat -> Forall (fun m => SLASH ∈ m_name m) ms ->
  Q (feed filler buf (map (fun m => (basename (m_name m), (archive_entry_ino (m_entry m), archive_entry_mode (m_entry m)))) ms)) s ->
  runs (fill_loop filler fuel (head_or l None) buf) s Q.
Proof.
  intros Hf. revert pr fuel buf. induction Hf as [|x m l ms (n & Hn & <-) _ IH]; intros pr fuel buf Hs Hlen Hsl HQ;
    (destruct fuel as [|fuel]; [cbn in Hlen; lia |]); cbn [fill_loop head_or].
  { by apply runs_ret. }
  destruct Hs as (n' & Hn' & _ & Enx & Hs). assert (n' = n) as -> by congruence. apply Forall_cons in Hsl as [Hsl Hsls].
  apply runs_bind. eapply runs_node_at; [done |]. apply runs_bind. apply runs_last_name; [exact Hsl |]. cbn [feed map data m_name m_entry] in HQ.
  destruct (filler buf (basename (name n)) _) as [buf' []] eqn:E.
  - by apply runs_ret.
  - rewrite Enx. eapply IH; [done | cbn in Hlen; lia | done |]. exact HQ.
Qed.

Lemma listed_slash s ns v path : shown s ns v -> Forall (fun m => SLASH ∈ m_name m) (listed v path).
Proof.
  intros Hs. apply Forall_forall. intros m [_ Hm]%list_elem_of_filter. apply list_elem_of_lookup in Hm as [i Hi].
  destruct (Forall2_lookup_r _ _ _ _ _ (s_members _ _ _ Hs) Hi) as (x & Hx & n & Hn & <-).
  destruct (t_node _ _ _ (s_tree _ _ _ Hs) x) as (n' & p & np & c & Hn' & _ & _ & _ & _ & Hj); [by eapply list_elem_of_lookup_2 |].
  assert (n' = n) as -> by congruence. cbn. rewrite Hj. apply slash_join.
Qed.

Lemma runs_ar_readdir {F} (filler : F -> bytes -> Z * Z -> F * bool) path buf s ns v :
  shown s ns v -> runs (ar_readdir filler path buf) s (fun r s' => r = spec_readdir filler path buf v /\ shown s' ns v).
Proof.
  intros Hs. unfold ar_readdir, spec_readdir. apply runs_bind. eapply runs_find; [exact Hs |]. intros [x|] Ho.
  - destruct Ho as [Hx (n & Hn & <- & ->)]. apply runs_bind. eapply runs_node_at; [done |]. apply runs_bind, runs_get, runs_bind.
    destruct (t_kids _ _ _ (s_tree _ _ _ Hs) x n Hx Hn) as [-> Hsib].
    eapply runs_fill_loop; [by eapply shown_listed | exact Hsib | by eapply tree_size, s_tree | by eapply listed_slash |].
    by apply runs_ret.
  - destruct Ho as [-> _]. by apply runs_ret.
Qed.

(** ** Attributes *)

Lemma runs_ar_getattr fuel path buf s ns v r :
  shown s ns v -> spec_getattr fuel path buf v = Some r ->
  runs (ar_getattr fuel path buf) s (fun x s' => x = r /\ s' = s).
Proof.
  intros Hs. unfold spec_getattr. revert path. induction fuel as [|fuel IH]; intros path Hr; [done |]. cbn [ar_getattr follow] in *.
  apply runs_bind. eapply runs_find; [exact Hs |]. intros [x|] Ho.
  - destruct Ho as [Hx (n & Hn & <- & El)]. rewrite El in Hr. cbn [data m_entry] in Hr. apply runs_bind. eapply runs_node_at; [done |].
    destruct (archive_entry_hardlink (nentry n)) as [target|].
    + apply IH. by destruct (false : bool).
    + cbn in Hr. injection Hr as <-. by apply runs_ret.
  - destruct Ho as [El _]. rewrite El in Hr. cbn in Hr. injection Hr as <-. by apply runs_ret.
Qed.

Lemma runs_change s ns v x n f :
  shown s ns v -> x ∈ root s :: ns -> nodes s !! x = Some n ->
  runs (change x f) s (fun z s' => z = 0 /\ shown s' ns (alter_entry (name n) f v)).
Proof.
  intros Hs Hx Hn. unfold change. apply runs_bind. eapply runs_update_node; [done |]. apply runs_bind, runs_modify, runs_ret.
  split; [done |]. by apply shown_entry.
Qed.

(** The three callbacks that change attributes have one shape: links, then the change. *)
Ltac links_then_change Hr :=
  repeat match goal with
  | IH : forall _, _ = Some _ -> _ |- context [match ?o (nentry ?n) with Some _ => _ | None => _ end] =>
      destruct (o (nentry n)); [by apply IH |]
  end;
  cbn in Hr; injection Hr as <- <-;
  by apply runs_change.

Ltac follows_links :=
  lazymatch goal with
  | Hs : shown ?s ?ns ?v, Hr : spec_change _ ?fuel ?path _ _ = Some _ |- _ =>
      revert path Hr; induction fuel; intros path Hr; unfold spec_change in *; [by destruct (v_writeable v) |];
      cbn [ar_chmod ar_chown ar_utime follow] in *; apply runs_bind, runs_get; rewrite (s_writeable _ _ _ Hs);
      destruct (v_writeable v); cbn [negb] in *; [| injection Hr as <- <-; by apply runs_ret];
      apply runs_bind; eapply runs_find; [exact Hs |]; intros [?|] Ho; cbn [finds] in Ho;
      [ let n := fresh "n" in let Hn := fresh "Hn" in let El := fresh "El" in destruct Ho as [? (n & Hn & <- & El)];
        rewrite El in Hr; cbn [data m_entry] in Hr; apply runs_bind; eapply runs_node_at; [exact Hn |]; links_then_change Hr
      | let El := fresh "El" in destruct Ho as [El _]; rewrite El in Hr; cbn in Hr; injection Hr as <- <-; by apply runs_ret ]
  end.

Lemma runs_ar_chmod fuel path mode s ns v z v' :
  shown s ns v -> spec_change true fuel path (archive_entry_set_mode mode) v = Some (z, v') ->
  runs (ar_chmod fuel path mode) s (fun x s' => x = z /\ shown s' ns v').
Proof. intros Hs Hr. follows_links. Qed.

Lemma runs_ar_chown fuel path uid gid s ns v z v' :
  shown s ns v -> spec_change false fuel path (fun e => archive_entry_set_gid gid (archive_entry_set_uid uid e)) v = Some (z, v') ->
  runs (ar_chown fuel path uid gid) s (fun x s' => x = z /\ shown s' ns v').
Proof. intros Hs Hr. follows_links. Qed.

Lemma runs_ar_utime fuel path actime modtime s ns v z v' :
  shown s ns v -> spec_change true fuel path (fun e => archive_entry_set_atime actime (archive_entry_set_mtime modtime e)) v = Some (z, v') ->
  runs (ar_utime fuel path actime modtime) s (fun x s' => x = z /\ shown s' ns v').
Proof. intros Hs Hr. follows_links. Qed.

(** ** Removing *)

Lemma find_not_root s ns v x n path :
  shown s ns v -> x ∈ root s :: ns -> nodes s !! x = Some n -> name n = path -> path <> [SLASH] -> x ∈ ns.
Proof.
  intros Hs [->|Hx]%elem_of_cons Hn En Hp; [| done]. destruct (t_root _ _ _ (s_tree _ _ _ Hs)) as (r & Hr & Er & _). congruence.
Qed.

Lemma kids_empty s ns v x n : shown s ns v -> x ∈ root s :: ns -> nodes s !! x = Some n -> listed v (name n) = [] <-> kids (nodes s) ns x = [].
Proof.
  intros Hs Hx Hn. pose proof (shown_listed s ns v x n Hs Hx Hn) as Hf. split; intros E; rewrite E in Hf.
  - by inversion Hf.
  - by inversion Hf.
Qed.

Lemma runs_drop_node s ns v x n how :
  shown s ns v -> x ∈ ns -> nodes s !! x = Some n -> kids (nodes s) ns x = [] ->
  runs (drop_node w x how) s (fun z s' => z = (spec_drop w (data n) how v).1 /\ shows s' (spec_drop w (data n) how v).2).
Proof.
  intros Hs Hx Hn Hk. unfold drop_node, spec_drop. cbn [data m_location m_name]. apply runs_bind. eapply runs_node_at; [done |].
  assert (forall s1 v1, shown s1 ns v1 -> nodes s1 = nodes s -> root s1 = root s ->
    runs (_ ← remove_child x; _ ← free_node x; changed 0) s1 (fun z s' => z = 0 /\ shows s' (modified (remove (name n) v1)))) as Hend.
  { intros s1 v1 Hs1 En Er. apply runs_bind. rewrite <- En in Hn, Hk.
    eapply (runs_remove_child _ _ x id); [apply Hs1 | done | by rewrite alter_id | done |]. rewrite alter_id by done.
    destruct (detach_old _ _ _ x x n (s_tree _ _ _ Hs1) Hx) as (n' & Hn' & _); [by right | done |].
    apply runs_bind. unfold free_node. apply runs_bind. eapply runs_node_at; [exact Hn' |]. apply runs_modify. unfold changed.
    apply runs_bind, runs_modify, runs_ret. split; [done |]. eexists. apply shown_modified. exact (shown_detach s1 ns v1 x n Hs1 Hx Hn Hk). }
  apply runs_bind. destruct (location n) as [loc|]; [| apply runs_ret; by eapply Hend].
  unfold call_err. apply runs_bind. eapply runs_syscall; [exact Hs |]. intros s1 Hs1 En Er. apply runs_ret.
  destruct (os_call w _) as [err|]; [apply runs_ret; split; [done | by exists ns] | by eapply Hend].
Qed.

Lemma runs_ar_unlink path s ns v :
  shown s ns v -> path <> [SLASH] ->
  (forall m, lookup v path = Some m -> S_ISDIR (archive_entry_mode (m_entry m)) = false -> listed v path = []) ->
  runs (ar_unlink w path) s (fun z s' => z = (spec_unlink w path v).1 /\ shows s' (spec_unlink w path v).2).
Proof.
  intros Hs Hp Hl. unfold ar_unlink, spec_unlink. apply runs_bind, runs_get. rewrite (s_writeable _ _ _ Hs).
  destruct (v_writeable v); cbn [negb]; [| apply runs_ret; split; [done | by exists ns]].
  apply runs_bind. eapply runs_find; [exact Hs |]. intros [x|] Ho.
  - destruct Ho as [Hx (n & Hn & En & El)]. rewrite El. apply runs_bind. eapply runs_node_at; [done |]. cbn [data m_entry].
    destruct (S_ISDIR _) eqn:Ed; [apply runs_ret; split; [done | by exists ns] |].
    apply (runs_drop_node s ns v x n); [done | by eapply find_not_root | done |].
    eapply kids_empty; [done | done | done |]. rewrite En. by apply (Hl (data n)).
  - destruct Ho as [-> _]. apply runs_ret. split; [done | by exists ns].
Qed.

Lemma runs_ar_rmdir path s ns v :
  shown s ns v -> path <> [SLASH] ->
  runs (ar_rmdir w path) s (fun z s' => z = (spec_rmdir w path v).1 /\ shows s' (spec_rmdir w path v).2).
Proof.
  intros Hs Hp. unfold ar_rmdir, spec_rmdir. apply runs_bind, runs_get. rewrite (s_writeable _ _ _ Hs).
  destruct (v_writeable v); cbn [negb]; [| apply runs_ret; split; [done | by exists ns]].
  apply runs_bind. eapply runs_find; [exact Hs |]. intros [x|] Ho; [| destruct Ho as [-> _]; apply runs_ret; split; [done | by exists ns]].
  destruct Ho as [Hx (n & Hn & <- & ->)]. apply runs_bind. eapply runs_node_at; [done |]. cbn [data m_entry m_name].
  pose proof (kids_empty s ns v x n Hs Hx Hn) as Hk. destruct (t_kids _ _ _ (s_tree _ _ _ Hs) x n Hx Hn) as [-> _].
  destruct (decide (listed v (name n) = [])) as [El|Hne].
  - rewrite (proj1 Hk El). cbn [head_or]. rewrite bool_decide_false by (by intros []).
    destruct (tree_in _ _ _ x (s_tree _ _ _ Hs) Hx) as (n' & Hn' & Hne). assert (n' = n) as -> by congruence.
    destruct (last (name n)) as [c|] eqn:Ec; [| by apply last_None in Ec].
    destruct (decide (c = "."%char)) as [->|Hc].
    + rewrite decide_True by done. apply runs_ret. split; [done | by exists ns].
    + rewrite decide_False by congruence. destruct (S_ISDIR _); cbn [negb]; [| apply runs_ret; split; [done | by exists ns]].
      apply (runs_drop_node s ns v x n); [done | by eapply find_not_root | done | by apply Hk].
  - rewrite bool_decide_true; [apply runs_ret; split; [done | by exists ns] |].
    destruct (kids (nodes s) ns x); [by destruct Hne; apply Hk | by eexists].
Qed.
End Refine.
