(* ===== verification/ArchiveCreate.v ===== *)
(** archivemount refines the abstract file system, continued: new files, directories and hard
    links, and the reading of the archive. *)

From S2P Require Import Prelude.
From S2P Require Import CString.
From S2P Require Import Archive.
From S2P Require Import ArchiveTree.
From S2P Require Import ArchiveLinks.
From S2P Require Import ArchiveInsert.
From S2P Require Import ArchiveFS.
From S2P Require Import ArchiveSpec.
From S2P Require Import ArchiveRefine.

Section Create.
Context {entry : Type} {lib : Libarchive entry} (w : os).
Implicit Types (n : node entry) (s : fs entry) (v : view entry) (m : member entry).

(** A node that is not in the tree, and has no links. *)
Definition loose s (ns : list nat) (a : nat) n : Prop :=
  (a ∉ root s :: ns) /\ nodes s !! a = Some n /\ parent n = None /\ prev n = None /\ next n = None /\ child n = None.

Lemma runs_malloc_node n s ns v (Q : nat -> fs entry -> Prop) :
  shown s ns v -> parent n = None -> prev n = None -> next n = None -> child n = None ->
  (forall a s', shown s' ns v -> loose s' ns a n -> Q a s') -> runs (malloc_node n) s Q.
Proof.
  intros Hs E1 E2 E3 E4 HQ. unfold malloc_node. apply runs_bind, runs_get. cbv zeta. apply runs_bind, runs_modify, runs_ret.
  pose proof (is_fresh (dom (nodes s))) as Hfr. set (a := fresh (dom (nodes s))) in *.
  assert (a ∉ root s :: ns) as Ha.
  { intros Hin. destruct (tree_in _ _ _ a (s_tree _ _ _ Hs) Hin) as (k & Hk & _). apply Hfr. by eapply elem_of_dom_2. }
  apply HQ.
  - apply shown_frame; [done |]. intros x Hx. rewrite lookup_insert_ne; [done |]. by intros ->.
  - split_and!; try done. cbn. apply lookup_insert_eq.
Qed.

Lemma runs_set_entry s ns v a n f (Q : unit -> fs entry -> Prop) :
  shown s ns v -> loose s ns a n ->
  (forall s', shown s' ns v -> loose s' ns a (set_entry (f n) n) -> Q tt s') -> runs (update a (fun n => set_entry (f n) n)) s Q.
Proof.
  intros Hs (Ha & Hn & E1 & E2 & E3 & E4) HQ. eapply runs_update_node; [done |]. apply HQ.
  - apply shown_frame; [done |]. intros x Hx. rewrite lookup_insert_ne; [done |]. by intros ->.
  - split_and!; try done. cbn. apply lookup_insert_eq.
Qed.

Lemma runs_free_loose s ns v a n (Q : unit -> fs entry -> Prop) :
  shown s ns v -> loose s ns a n -> (forall s', shown s' ns v -> Q tt s') -> runs (free_node a) s Q.
Proof.
  intros Hs (Ha & Hn & _) HQ. unfold free_node. apply runs_bind. eapply runs_node_at; [done |]. apply runs_modify, HQ.
  apply shown_frame; [done |]. intros x Hx. rewrite lookup_delete_ne; [done |]. by intros ->.
Qed.

Lemma runs_call_loose c s ns v a n (Q : nat -> fs entry -> Prop) :
  shown s ns v -> loose s ns a n ->
  (forall s', shown s' ns (after_call c v) -> loose s' ns a n -> Q (length (v_trace v)) s') -> runs (call c) s Q.
Proof.
  intros Hs Hl HQ. eapply runs_syscall; [done |]. intros s' Hs' En Er. apply HQ; [done |]. unfold loose. by rewrite En, Er.
Qed.

(** ** Where a path leads *)

Lemma lookup_node s ns v path m :
  shown s ns v -> lookup v path = Some m -> exists x n, x ∈ root s :: ns /\ nodes s !! x = Some n /\ data n = m /\ name n = path.
Proof.
  intros Hs. unfold lookup. case_decide as Ep.
  - intros [= <-]. destruct (s_root _ _ _ Hs) as (n & Hn & <-). exists (root s), n. split_and!; [by left | done | done |].
    destruct (t_root _ _ _ (s_tree _ _ _ Hs)) as (r & Hr & Er & _). congruence.
  - unfold find_member. destruct (list_find _ _) as [[i k]|] eqn:E; [| done]. cbn. intros [= <-].
    apply list_find_Some in E as (Hi & Ek & _). destruct (Forall2_lookup_r _ _ _ _ _ (s_members _ _ _ Hs) Hi) as (x & Hx & n & Hn & <-).
    exists x, n. split_and!; [right; by eapply list_elem_of_lookup_2 | done | done | done].
Qed.

Lemma lookup_none s ns v path x : shown s ns v -> lookup v path = None -> x ∈ root s :: ns -> ~ named (nodes s) x path.
Proof. intros Hs Hl Hx (n & Hn & <-). by rewrite (shown_lookup s ns v x n Hs Hx Hn) in Hl. Qed.

Lemma lookup_name v path m : lookup v path = Some m -> m_name (v_root v) = [SLASH] -> m_name m = path.
Proof.
  unfold lookup. case_decide as Ep; [by intros [= <-] -> |]. unfold find_member. destruct (list_find _ _) as [[i k]|] eqn:E; [| done].
  cbn. intros [= <-] _. by apply list_find_Some in E as (_ & Ek & _).
Qed.

Lemma creatable_dirname v path : creatable v path -> is_Some (lookup v (dirname path)).
Proof.
  intros (cs & c & -> & Hcs & Hc & _ & Hd). rewrite path_of_app, dirname_join; [done | done | apply path_of_nonempty].
Qed.

(** The insertion of a node that is not in the tree. *)
Lemma runs_insert_member s ns v a n (Q : Z -> fs entry -> Prop) :
  shown s ns v -> a ∉ root s :: ns -> nodes s !! a = Some n -> child n = None ->
  (listed v (dirname (name n)) = [] -> prev n = None /\ next n = None) -> creatable v (name n) -> lookup v (name n) = None ->
  (forall d, lookup v (dirname (name n)) = Some d -> S_ISDIR (archive_entry_mode (m_entry d)) = true ->
     forall s', shown s' (ns ++ [a]) (add (data n) v) -> Q 0 s') ->
  (forall d, lookup v (dirname (name n)) = Some d -> S_ISDIR (archive_entry_mode (m_entry d)) = false -> Q (- ENOTDIR) s) ->
  runs (insert_node a) s Q.
Proof.
  intros Hs Ha Hn Ech Hfresh (cs & c & En & Hcs & Hc & Hnr & [d Hd]) Hnone HQ HQ0.
  destruct (lookup_node s ns v (path_of cs) d Hs Hd) as (p & np & Hp & Hnp & Ed & Enp).
  assert (dirname (name n) = path_of cs) as Edir by (rewrite En, path_of_app; apply dirname_join; [done | apply path_of_nonempty]).
  rewrite Edir in HQ, HQ0, Hfresh. assert (archive_entry_mode (nentry np) = archive_entry_mode (m_entry d)) as Em by by rewrite <- Ed.
  eapply (runs_insert_node ns cs c a n p np); try done; [apply (s_tree _ _ _ Hs) | rewrite Em..]; intros Hdir.
  - by apply (HQ0 d).
  - intros x k Hx Hk Enk. by destruct (lookup_none s ns v (name n) x Hs Hnone); [right | exists k].
  - intros Hnew. apply (HQ d); [done | done |]. eapply shown_attach; try done; [by rewrite Enp, <- path_of_app |].
    intros Hk. apply Hfresh. rewrite <- Enp. by eapply kids_empty.
Qed.

Lemma runs_insert_loose s ns v a n (Q : Z -> fs entry -> Prop) :
  shown s ns v -> loose s ns a n -> creatable v (name n) -> lookup v (name n) = None ->
  (forall d, lookup v (dirname (name n)) = Some d -> S_ISDIR (archive_entry_mode (m_entry d)) = true ->
     forall s', shown s' (ns ++ [a]) (add (data n) v) -> Q 0 s') ->
  (forall d, lookup v (dirname (name n)) = Some d -> S_ISDIR (archive_entry_mode (m_entry d)) = false -> Q (- ENOTDIR) s) ->
  runs (insert_node a) s Q.
Proof. intros Hs (Ha & Hn & _ & E2 & E3 & E4). by eapply runs_insert_member. Qed.

(** ** Files and directories *)

Lemma runs_get_temp_file_name path s ns v (Q : Z + bytes -> fs entry -> Prop) :
  shown s ns v ->
  (forall err s', os_mkstemp w (length (v_trace v)) = inr err -> shown s' ns (after_call (Mkstemp (temp_template w path)) v) -> Q (inl (- err)) s') ->
  (forall loc s', os_mkstemp w (length (v_trace v)) = inl loc ->
     shown s' ns (after_call (Unlink loc) (after_call (Close 0) (after_call (Mkstemp (temp_template w path)) v))) ->
     nodes s' = nodes s -> root s' = root s -> Q (inr loc) s') ->
  runs (get_temp_file_name w path) s Q.
Proof.
  intros Hs HQ0 HQ. unfold get_temp_file_name. cbv zeta. apply runs_bind. unfold sprintf_new. apply runs_strcpy.
  { rewrite !strlen_app. unfold strlen. rewrite length_map. cbn. lia. }
  change (P_tmpdir w ++ _) with (temp_template w path). apply runs_bind. eapply runs_syscall; [done |]. intros s1 Hs1 En1 Er1.
  destruct (os_mkstemp w _) as [loc|err] eqn:E; [| by apply runs_ret, HQ0].
  apply runs_bind. eapply runs_syscall; [done |]. intros s2 Hs2 En2 Er2. apply runs_bind. eapply runs_syscall; [done |]. intros s3 Hs3 En3 Er3.
  apply runs_ret, HQ; [done | done | congruence | congruence].
Qed.

Lemma runs_set_names st e s ns v a n (Q : entry -> fs entry -> Prop) :
  shown s ns v -> loose s ns a n ->
  (forall s', shown s' ns (spec_names w st e v).2 -> loose s' ns a n -> Q (spec_names w st e v).1 s') -> runs (set_names w st e) s Q.
Proof.
  intros Hs Hl HQ. unfold set_names. apply runs_bind. eapply runs_call_loose; [done | done |]. intros s1 Hs1 Hl1. cbv zeta. apply runs_bind.
  eapply runs_call_loose; [done | done |]. intros s2 Hs2 Hl2. apply runs_ret. by apply HQ.
Qed.

Lemma runs_update_entry_stat s ns v a n loc (Q : Z -> fs entry -> Prop) :
  shown s ns v -> loose s ns a n -> location n = Some loc ->
  (forall err s', os_lstat w (length (v_trace v)) = inr err -> shown s' ns (after_call (Lstat loc) v) -> loose s' ns a n -> Q (- err) s') ->
  (forall st s', os_lstat w (length (v_trace v)) = inl st ->
     let r := spec_names w st (with_stat st (nentry n)) (after_call (Lstat loc) v) in
     shown s' ns r.2 -> loose s' ns a (set_entry r.1 n) -> Q 0 s') ->
  runs (update_entry_stat w a) s Q.
Proof.
  intros Hs Hl Eloc HQ0 HQ. unfold update_entry_stat. apply runs_bind. eapply runs_node_at; [apply Hl |]. rewrite Eloc.
  apply runs_bind. eapply runs_call_loose; [done | done |]. intros s1 Hs1 Hl1.
  destruct (os_lstat w _) as [st|err] eqn:E; [| by apply runs_ret, HQ0]. cbv zeta. apply runs_bind.
  eapply runs_set_names; [done | done |]. intros s2 Hs2 Hl2. apply runs_bind.
  eapply (runs_set_entry s2 ns _ a n (fun _ => _)); [done | done |]. intros s3 Hs3 Hl3. by apply runs_ret, (HQ st).
Qed.

Lemma runs_new_pathname nm s ns v (Q : bytes -> fs entry -> Prop) :
  shown s ns v -> Q (spec_pathname nm v) s -> runs (new_pathname nm) s Q.
Proof.
  intros Hs HQ. unfold new_pathname, spec_pathname in *. apply runs_bind, runs_get. apply runs_bind.
  destruct (t_root _ _ _ (s_tree _ _ _ Hs)) as (r & Hr & Er & _). eapply runs_node_at; [done |].
  assert (root s ∈ root s :: ns) as Hin by by left.
  destruct (t_kids _ _ _ (s_tree _ _ _ Hs) (root s) r Hin Hr) as [-> _].
  pose proof (shown_listed s ns v (root s) r Hs Hin Hr) as Hf. rewrite Er in Hf.
  destruct Hf as [|x m l ms (n & Hn & <-) _]; cbn [head_or]; [by apply runs_ret |].
  apply runs_bind. eapply runs_node_at; [done |]. by apply runs_ret.
Qed.

(** Errors are positive numbers. *)
Class OsOk : Prop := {
  ok_lstat i err : os_lstat w i = inr err -> 0 < err;
  ok_mkstemp i err : os_mkstemp w i = inr err -> 0 < err }.
Context {wok : OsOk}.

Lemma creatable_same v v' path : v_root v' = v_root v -> v_members v' = v_members v -> creatable v path -> creatable v' path.
Proof. unfold creatable, lookup. by intros -> ->. Qed.

Lemma spec_names_view st e v :
  v_root (spec_names w st e v).2 = v_root v /\ v_members (spec_names w st e v).2 = v_members v.
Proof. done. Qed.

Lemma runs_add_file path loc undo s ns v :
  shown s ns v -> creatable v path -> lookup v path = None ->
  runs (add_file w path loc undo) s (fun z s' => z = (spec_add w path loc undo v).1 /\ shows s' (spec_add w path loc undo v).2).
Proof.
  intros Hs Hcr Hnone. unfold add_file, spec_add. cbv zeta. apply runs_bind. eapply runs_malloc_node; [done | done | done | done | done |].
  intros a s1 Hs1 Hl1. apply runs_bind. eapply runs_new_pathname; [done |]. apply runs_bind.
  eapply (runs_set_entry s1 ns v a _ (fun n => archive_entry_set_pathname (spec_pathname path v) (nentry n))); [done | done |].
  intros s2 Hs2 Hl2. apply runs_bind. eapply runs_update_entry_stat; [done | done | done | |].
  - intros err s3 E Hs3 Hl3. rewrite E. pose proof (ok_lstat (length (v_trace v)) err E). replace (- err <? 0) with true by lia.
    apply runs_bind. eapply runs_call_loose; [done | done |]. intros s4 Hs4 Hl4. apply runs_bind. eapply runs_free_loose; [done | done |].
    intros s5 Hs5. apply runs_ret. split; [done | by exists ns].
  - intros st s3 ->. cbn [init_node set_entry nentry]. set (v1 := after_call (Lstat loc) v).
    destruct (spec_names w st _ v1) as [e v2] eqn:Ev. cbn [fst snd]. intros Hs3 Hl3. change (0 <? 0) with false. cbv iota.
    assert (v_root v2 = v_root v /\ v_members v2 = v_members v) as [Er Em].
    { pose proof (spec_names_view st (with_stat st (archive_entry_set_pathname (spec_pathname path v) archive_entry_new)) v1) as H. by rewrite Ev in H. }
    set (m := Member path (Some loc) false e true). apply runs_bind. eapply runs_insert_loose; [done | done | | | |].
    + by apply (creatable_same v).
    + unfold lookup. by rewrite Er, Em.
    + intros d Hd Hdir s4 Hs4. change (negb (0 =? 0)) with false. cbv iota. unfold changed. apply runs_bind, runs_modify, runs_ret.
      unfold spec_insert. change (m_name m) with path. cbn [set_entry init_node name] in Hd. rewrite Hd, Hdir. cbn.
      split; [done |]. eexists. by apply shown_modified.
    + intros d Hd Hdir. change (negb (- ENOTDIR =? 0)) with true. cbv iota. apply runs_bind.
      eapply runs_call_loose; [done | done |]. intros s4 Hs4 Hl4. apply runs_bind. eapply runs_free_loose; [done | done |].
      intros s5 Hs5. apply runs_ret. unfold spec_insert. change (m_name m) with path. cbn [set_entry init_node name] in Hd. rewrite Hd, Hdir. cbn.
      split; [done | by exists ns].
Qed.

(** [ar_mkdir] and [ar_mknod], after the checks. *)
Lemma runs_new_file make undo path s ns v :
  shown s ns v -> creatable v path -> lookup v path = None -> v_writeable v = true ->
  runs (tmp ← get_temp_file_name w path;
        match tmp with
        | inl err => if err <? 0 then mret 1 else ub
        | inr loc => err ← call_err w (make loc); match err with Some err => mret (- err) | None => add_file w path loc (undo loc) end
        end) s (fun z s' => z = (spec_create w make undo path v).1 /\ shows s' (spec_create w make undo path v).2).
Proof.
  intros Hs Hcr Hnone Hw. unfold spec_create. rewrite Hw, Hnone. cbn [negb]. cbv zeta. apply runs_bind.
  eapply runs_get_temp_file_name; [done | |].
  - intros err s1 E Hs1. rewrite E. pose proof (ok_mkstemp (length (v_trace v)) err E). replace (- err <? 0) with true by lia.
    apply runs_ret. split; [done | by exists ns].
  - intros loc s1 E Hs1 _ _. rewrite E. unfold call_err. apply runs_bind, runs_bind. eapply runs_syscall; [done |]. intros s2 Hs2 _ _.
    apply runs_ret. destruct (os_call w _) as [err|]; [apply runs_ret; split; [done | by exists ns] |].
    apply (runs_add_file path loc (undo loc) s2 ns); [done | by apply (creatable_same v) | done].
Qed.

Lemma runs_ar_mkdir path mode s ns v :
  shown s ns v -> creatable v path ->
  let r := spec_create w (fun loc => Mkdir loc mode) Rmdir path v in runs (ar_mkdir w path mode) s (fun z s' => z = r.1 /\ shows s' r.2).
Proof.
  intros Hs Hcr. cbv zeta. unfold ar_mkdir. apply runs_bind, runs_get. rewrite (s_writeable _ _ _ Hs).
  destruct (v_writeable v) eqn:Hw; cbn [negb].
  2:{ unfold spec_create. rewrite Hw. apply runs_ret. split; [done | by exists ns]. }
  apply runs_bind. eapply runs_find; [exact Hs |]. intros [x|] Ho.
  - destruct Ho as (_ & n & _ & _ & El). unfold spec_create. rewrite Hw, El. apply runs_ret. split; [done | by exists ns].
  - by apply (runs_new_file (fun loc => Mkdir loc mode) Rmdir path s ns v); [| | apply Ho |].
Qed.

Lemma runs_ar_mknod path mode rdev s ns v :
  shown s ns v -> creatable v path ->
  let r := spec_create w (fun loc => Mknod loc mode rdev) Unlink path v in
  runs (ar_mknod w path mode rdev) s (fun z s' => z = r.1 /\ shows s' r.2).
Proof.
  intros Hs Hcr. cbv zeta. unfold ar_mknod. apply runs_bind, runs_get. rewrite (s_writeable _ _ _ Hs).
  destruct (v_writeable v) eqn:Hw; cbn [negb].
  2:{ unfold spec_create. rewrite Hw. apply runs_ret. split; [done | by exists ns]. }
  apply runs_bind. eapply runs_find; [exact Hs |]. intros [x|] Ho.
  - destruct Ho as (_ & n & _ & _ & El). unfold spec_create. rewrite Hw, El. apply runs_ret. split; [done | by exists ns].
  - by apply (runs_new_file (fun loc => Mknod loc mode rdev) Unlink path s ns v); [| | apply Ho |].
Qed.

(** ** Links *)

(** The last steps of [ar_link], on the new node [a]: it is inserted; or it is freed. *)
Definition link_end (a : nat) (e : entry) : M (fs entry) Z :=
  _ ← update a (set_entry e); err ← insert_node a; if negb (err =? 0) then _ ← free_node a; mret (- ENOENT) else changed 0.

Lemma runs_link_end to e0 e s ns v a :
  shown s ns v -> loose s ns a (init_node to None e0 true) -> creatable v to -> lookup v to = None ->
  runs (link_end a e) s (fun z s' =>
    z = (spec_insert (Member to None false e true) v).1 /\ shows s' (spec_insert (Member to None false e true) v).2).
Proof.
  intros Hs Hl Hcr Hnone. unfold link_end. apply runs_bind. eapply (runs_set_entry s ns v a _ (fun _ => e)); [done | done |]. intros s1 Hs1 Hl1.
  apply runs_bind. eapply runs_insert_loose; [done | done | done | done | |]; intros d Hd Hdir; unfold spec_insert; cbn [set_entry init_node name m_name] in *;
    rewrite Hd, Hdir.
  - intros s2 Hs2. change (negb (0 =? 0)) with false. cbv iota. unfold changed. apply runs_bind, runs_modify, runs_ret.
    split; [done |]. eexists. by apply shown_modified.
  - change (negb (- ENOTDIR =? 0)) with true. cbv iota. apply runs_bind. eapply runs_free_loose; [done | done |].
    intros s2 Hs2. apply runs_ret. split; [done | by exists ns].
Qed.

Lemma runs_link_abandon err s ns v a n :
  shown s ns v -> loose s ns a n -> runs (_ ← free_node a; mret (- err)) s (fun z s' => z = - err /\ shows s' v).
Proof.
  intros Hs Hl. apply runs_bind. eapply runs_free_loose; [done | done |]. intros s3 Hs3. apply runs_ret. split; [done | by exists ns].
Qed.

(** What the specification makes of the names of the owner and the group. *)
Definition link_result (to : bytes) (r : (entry + Z) * view entry) : Z * view entry :=
  match r with (inr err, v') => (- err, v') | (inl e, v') => spec_insert (Member to None false e true) v' end.

Lemma runs_link_group to st e0 e s ns v a :
  shown s ns v -> loose s ns a (init_node to None e0 true) -> creatable v to -> lookup v to = None ->
  runs (i ← call (Getgrgid (st_gid st));
    match os_name w i with
    | inl nm => link_end a (archive_entry_set_gname nm e)
    | inr err => if fatal_errno err then _ ← free_node a; mret (- err) else link_end a e
    end) s (fun z s' => z = (link_result to (spec_group w st e v)).1 /\ shows s' (link_result to (spec_group w st e v)).2).
Proof.
  intros Hs Hl Hcr Hnone. apply runs_bind. eapply runs_call_loose; [done | done |]. intros s1 Hs1 Hl1. unfold spec_group. cbv zeta.
  assert (creatable (after_call (Getgrgid (st_gid st)) v) to) as Hcr1 by by apply (creatable_same v).
  destruct (os_name w _) as [nm|err]; [| destruct (fatal_errno err)]; cbn [link_result];
    [by eapply runs_link_end | by eapply runs_link_abandon | by eapply runs_link_end].
Qed.

Lemma runs_ar_link junk fuel from to s ns v z v' :
  shown s ns v -> creatable v to -> spec_link w junk fuel from to v = Some (z, v') ->
  runs (ar_link w junk fuel from to) s (fun x s' => x = z /\ shows s' v').
Proof.
  intros Hs Hcr Hspec. unfold spec_link in Hspec. unfold ar_link. apply runs_bind, runs_get. rewrite (s_writeable _ _ _ Hs).
  destruct (v_writeable v); cbn [negb] in *; [| injection Hspec as <- <-; apply runs_ret; split; [done | by exists ns]].
  apply runs_bind. eapply runs_find; [exact Hs |]. intros [f|] Hf.
  2:{ destruct Hf as [El _]. rewrite El in Hspec. injection Hspec as <- <-. apply runs_ret. split; [done | by exists ns]. }
  destruct Hf as (Hf & fn & Hfn & Efn & El). rewrite El in Hspec. apply runs_bind. eapply runs_find; [exact Hs |]. intros [x|] Ho.
  { destruct Ho as (_ & n & _ & _ & El2). rewrite El2 in Hspec. injection Hspec as <- <-. apply runs_ret. split; [done | by exists ns]. }
  destruct Ho as [Hnone _]. rewrite Hnone in Hspec. destruct (spec_getattr fuel from junk v) as [[z0 st]|] eqn:Eg; [| done].
  cbn [mbind option_bind snd] in Hspec. apply runs_bind. eapply runs_mono; [by eapply runs_ar_getattr |]. intros r s' [-> ->]. cbn [snd].
  apply runs_bind. eapply runs_node_at; [done |]. cbv zeta.
  change (archive_entry_set_hardlink from _) with (link_entry from to st (data fn)).
  set (e0 := link_entry from to st (data fn)) in *. apply runs_bind. eapply runs_malloc_node; [done | done | done | done | done |].
  intros a s1 Hs1 Hl1. unfold spec_owner in Hspec. cbv zeta in Hspec. apply runs_bind. eapply runs_call_loose; [done | done |]. intros s2 Hs2 Hl2.
  set (v1 := after_call (Getpwuid (st_uid st)) v) in *. assert (creatable v1 to) as Hcr1 by by apply (creatable_same v).
  destruct (os_name w (length (v_trace v))) as [nm|err]; [| destruct (fatal_errno err)].
  - eapply runs_mono; [by apply (runs_link_group to st e0 (archive_entry_set_uname nm e0) s2 ns v1) |]. intros x s3 [-> H].
    injection Hspec as E. change (link_result to (spec_group w st (archive_entry_set_uname nm e0) v1) = (z, v')) in E. by rewrite E in H |- *.
  - injection Hspec as <- <-. by eapply runs_link_abandon.
  - eapply runs_mono; [by apply (runs_link_group to st e0 e0 s2 ns v1) |]. intros x s3 [-> H].
    injection Hspec as E. change (link_result to (spec_group w st e0 v1) = (z, v')) in E. by rewrite E in H |- *.
Qed.

(** ** Reading *)

Lemma runs_ar_readlink path size s ns v r :
  shown s ns v -> spec_readlink path size v = Some r -> runs (ar_readlink path size) s (fun x s' => x = r /\ s' = s).
Proof.
  intros Hs Hr. unfold ar_readlink, spec_readlink in *. apply runs_bind. eapply runs_find; [exact Hs |]. intros [x|] Ho.
  - destruct Ho as (_ & n & Hn & _ & El). rewrite El in Hr. cbn [data m_entry] in Hr. apply runs_bind. eapply runs_node_at; [done |].
    destruct (S_ISLNK _); cbn [negb] in *; [| injection Hr as <-; by apply runs_ret].
    destruct (archive_entry_symlink _); [| done]. injection Hr as <-. by apply runs_ret.
  - destruct Ho as [El _]. rewrite El in Hr. injection Hr as <-. by apply runs_ret.
Qed.

Lemma runs_ar_open path writes s ns v :
  shown s ns v -> runs (ar_open path writes) s (fun z s' => z = spec_open path writes v /\ s' = s).
Proof.
  intros Hs. unfold ar_open, spec_open. apply runs_bind. eapply runs_find; [exact Hs |]. intros [x|] Ho.
  - destruct Ho as (_ & n & _ & _ & ->). apply runs_bind, runs_get. rewrite (s_writeable _ _ _ Hs). destruct (writes && _); by apply runs_ret.
  - destruct Ho as [-> _]. by apply runs_ret.
Qed.
End Create.
