(* ===== verification/ArchiveRename.v ===== *)
(** The renaming of files and of empty directories in archivemount. *)

From S2P Require Import Prelude.
From S2P Require Import CString.
From S2P Require Import Archive.
From S2P Require Import ArchiveTree.
From S2P Require Import ArchiveLinks.
From S2P Require Import ArchiveInsert.
From S2P Require Import ArchiveFS.
From S2P Require Import ArchiveSpec.
From S2P Require Import ArchiveRefine.
From S2P Require Import ArchiveCreate.

Section Rename.
Context {entry : Type} {lib : Libarchive entry}.
Implicit Types (n : node entry) (s : fs entry) (v : view entry) (m : member entry).

Definition renamed_member (to : bytes) m := Member to (m_location m) true (m_entry m) (m_modified m).

Definition spec_rename (from to : bytes) v : Z * view entry :=
  if negb (v_writeable v) then (- EROFS, v)
  else match lookup v from with
       | None => (- ENOENT, v)
       | Some m =>
           let v1 := remove from v in
           match lookup v1 (dirname to) with
           | Some d => if S_ISDIR (archive_entry_mode (m_entry d)) then (0, modified (add (renamed_member to m) v1)) else (- ENOTDIR, modified v1)
           | None => (- ENOENT, modified v1)
           end
       end.

(** A file or an empty directory gets a new name. The pointers [prev] and [next] of the node
    are right in its new place: there is another node in that directory, or there was none
    in the old one. *)
Definition movable v (from to : bytes) : Prop :=
  let v1 := remove from v in
  from <> [SLASH] /\ listed v from = [] /\ creatable v1 to /\ lookup v1 to = None /\
  (listed v1 (dirname to) <> [] \/ listed v1 (dirname from) = []).

(** ** The node *)

Lemma detach_self h rt ns a : tree h rt ns -> a ∈ ns -> detach (entry := entry) h a !! a = h !! a.
Proof.
  intros Ht Ha. destruct (tree_split _ _ _ a Ht Ha) as (n & p & l1 & l2 & Hn & Hp & Hin & Hpa & Ek & Ha1 & Ha2 & Hpv & Hnx & _).
  unfold detach. rewrite Hn. assert (unlink_prev h n !! a = Some n) as Hu.
  { unfold unlink_prev. rewrite Hpv, Hp. destruct (last l1) as [b|] eqn:El; rewrite lookup_alter_ne; try done.
    intros ->. by apply Ha1, last_Some_elem_of. }
  rewrite Hnx. destruct (head l2) as [b|] eqn:Eh; [| done]. rewrite lookup_alter_ne; [done |]. intros ->. apply Ha2.
  destruct l2; [done |]. injection Eh as ->. by left.
Qed.

(** A node without siblings. *)
Lemma alone s ns v a n :
  shown s ns v -> a ∈ ns -> nodes s !! a = Some n -> listed (remove (name n) v) (dirname (name n)) = [] -> prev n = None /\ next n = None.
Proof.
  intros Hs Ha Hn El. pose proof (s_tree _ _ _ Hs) as Ht.
  destruct (tree_split _ _ _ a Ht Ha) as (n' & p & l1 & l2 & Hn' & Hp & Hin & Hpa & Ek & Ha1 & Ha2 & Hpv & Hnx & _).
  assert (n' = n) as -> by congruence. destruct (tree_in _ _ _ p Ht Hin) as (np & Hnp & Hne).
  assert (dirname (name n) = name np) as Edir.
  { destruct (t_node _ _ _ Ht a Ha) as (k & q & nq & c & Hk & Hq & _ & Hnq & Hc & Hj). assert (k = n) as -> by congruence.
    assert (q = p) as -> by congruence. assert (nq = np) as -> by congruence. rewrite Hj. by apply dirname_join. }
  rewrite Edir in El. pose proof (shown_listed s ns v p np Hs Hin Hnp) as Hf.
  assert (forall x, x ∈ kids (nodes s) ns p -> x = a) as Hone.
  { intros x Hx. destruct (decide (x = a)) as [->|Hxa]; [done |]. destruct (Forall2_member _ _ _ _ Hf Hx) as (m & Hm & Hst).
    exfalso. assert (m ∈ listed (remove (name n) v) (name np)) as Hin'; [| by rewrite El in Hin'; apply not_elem_of_nil in Hin'].
    unfold listed in Hm |- *. apply list_elem_of_filter in Hm as [Hd Hm]. apply list_elem_of_filter. split; [done |]. cbn.
    apply list_elem_of_filter. split; [| done]. intros E. apply Hxa. apply (stands_named _ _ _ _ Hst) in E. apply kids_in in Hx as [Hx _].
    eapply (tree_unique _ _ _ x a _ Ht); [by right | by right | done | by exists n]. }
  rewrite Ek in Hone. rewrite Hpv, Hnx. split.
  - destruct (last l1) as [b|] eqn:E; [| done]. apply last_Some_elem_of in E. destruct Ha1. by rewrite <- (Hone b) by (apply elem_of_app; by left).
  - destruct l2 as [|b l2]; [done |]. destruct Ha2. rewrite <- (Hone b); [by left |]. apply elem_of_app. right. right. by left.
Qed.

Lemma creatable_absolute v path : creatable v path -> absolute path = path.
Proof. intros (cs & c & -> & Hcs & _). rewrite path_of_key by done. cbn [absolute]. by rewrite decide_True. Qed.

Lemma runs_ar_rename from to s ns v :
  shown s ns v -> movable v from to ->
  runs (ar_rename from to) s (fun z s' => z = (spec_rename from to v).1 /\ shows s' (spec_rename from to v).2).
Proof.
  intros Hs (Hroot & Hleaf & Hcr & Hnone & Hplace). unfold ar_rename, spec_rename. apply runs_bind, runs_get. rewrite (s_writeable _ _ _ Hs).
  destruct (v_writeable v); cbn [negb]; [| apply runs_ret; split; [done | by exists ns]].
  apply runs_bind. eapply runs_find; [exact Hs |]. intros [a|] Ho.
  2:{ destruct Ho as [-> _]. apply runs_ret. split; [done | by exists ns]. }
  destruct Ho as [Hin (n & Hn & En & El)]. rewrite El. assert (a ∈ ns) as Ha by by eapply find_not_root.
  pose proof (s_tree _ _ _ Hs) as Ht. assert (kids (nodes s) ns a = []) as Hk by (eapply kids_empty; [done | done | done | by rewrite En]).
  destruct (t_kids _ _ _ Ht a n Hin Hn) as [Ech _]. rewrite Hk in Ech. cbn [head_or] in Ech.
  apply runs_bind. eapply runs_node_at; [done |]. rewrite Ech. apply runs_bind, runs_ret. rewrite (creatable_absolute _ _ Hcr).
  apply runs_bind, runs_alter; [by eexists |]. apply runs_bind.
  eapply (runs_remove_child (root s) ns a (set_name to) (nodes s)); [done | done | done | by intros k |]. cbn [set_nodes nodes root].
  set (s1 := set_nodes (alter (set_name to) a (detach (nodes s) a)) s). set (v1 := remove from v) in *.
  assert (a ∉ root s :: filter (.≠ a) ns) as Hout.
  { intros [->|[? _]%list_elem_of_filter]%elem_of_cons; [| done]. by pose proof (t_nodup _ _ _ Ht) as [? _]%NoDup_cons. }
  assert (shown s1 (filter (.≠ a) ns) v1) as Hs1.
  { pose proof (shown_detach s ns v a n Hs Ha Hn Hk) as Hd. rewrite En in Hd. unfold s1.
    eapply (shown_frame _ _ _ (alter (set_name to) a (detach (nodes s) a))) in Hd; [exact Hd |].
    intros x Hx. cbn. assert (a <> x) as Hne by by intros <-. by rewrite lookup_alter_ne, lookup_delete_ne. }
  change (set_nodes _ _) with s1. destruct (creatable_dirname _ _ Hcr) as [d Hd]. fold v1. rewrite Hd. apply runs_bind.
  eapply (runs_insert_member s1 _ v1 a (set_name to n)); [exact Hs1 | done | | done | | done | done | |].
  - cbn. by rewrite lookup_alter_eq, (detach_self _ (root s) ns), Hn.
  - intros Hempty. cbn in Hempty. cbn. destruct Hplace as [?|Hlast]; [done |]. apply (alone s ns v a n); [done | done | done |]. by rewrite En.
  - intros d' Hd' Hdir s2 Hs2. cbn in Hd'. assert (d' = d) as -> by congruence. rewrite Hdir. unfold changed. apply runs_bind, runs_modify, runs_ret.
    split; [done |]. eexists. by apply shown_modified.
  - intros d' Hd' Hdir. cbn in Hd'. assert (d' = d) as -> by congruence. rewrite Hdir. unfold changed. apply runs_bind, runs_modify, runs_ret.
    split; [done |]. eexists. by apply shown_modified.
Qed.
End Rename.
