(* ===== verification/ArchiveMount.v ===== *)
(** archivemount as a whole: the archive is read into the tree, and then the callbacks answer
    like the abstract file system whose members are the headers of the archive, in their order. *)

From S2P Require Import Prelude.
From S2P Require Import CString.
From S2P Require Import Archive.
From S2P Require Import ArchiveTree.
From S2P Require Import ArchiveLinks.
From S2P Require Import ArchiveInsert.
From S2P Require Import ArchiveFS.
From S2P Require Import ArchiveSpec.
From S2P Require Import ArchiveRefine.
From S2P Require Import ArchiveCreate.
From S2P Require Import ArchiveRename.

Section Mount.
Context {entry : Type} {lib : Libarchive entry} (w : os).
Implicit Types (s : fs entry) (v : view entry) (m : member entry) (e : entry).

(** * Reading the archive *)

Definition skipped e : bool := strncmp (archive_entry_pathname e) (B "./") 3 =? 0.

Definition member_of e : member entry := Member (node_name (archive_entry_pathname e)) None false e false.

Definition archive_members (es : list entry) : list (member entry) := map member_of (filter (fun e => skipped e = false) es).

(** Every header has a path that can be made, that is new, and whose directory is a directory. *)
Fixpoint regular (es : list entry) v : Prop :=
  match es with
  | [] => True
  | e :: es =>
      if skipped e then regular es v
      else
        let m := member_of e in
        creatable v (m_name m) /\ lookup v (m_name m) = None /\
        (exists d, lookup v (dirname (m_name m)) = Some d /\ S_ISDIR (archive_entry_mode (m_entry d)) = true) /\
        regular es (add m v)
  end.

(** The file system before the first header. *)
Definition empty_view (f : @archive_file entry) (st : stat) (writeable : bool) : view entry :=
  View (Member [SLASH] None false (root_entry w st (mount_stat f)) false) [] (writeable && negb (unwriteable f)) false [].

Definition archive_view (f : @archive_file entry) (st : stat) (writeable : bool) : view entry :=
  with_members (archive_members (headers f)) (empty_view f st writeable).

(** What [main] has set before [build_tree]. *)
Definition initial (writeable : bool) : fs entry := Fs ∅ 0 writeable false [].

Lemma with_members_id v : with_members (v_members v) v = v.
Proof. by destruct v. Qed.

Lemma runs_headers es : forall s ns v,
  shown s ns v -> regular es v ->
  runs (read_entries es) s (fun z s' => z = 0 /\ shows s' (with_members (v_members v ++ archive_members es) v)).
Proof.
  induction es as [|e es IH]; intros s ns v Hs Hr; cbn [read_entries regular] in *.
  { apply runs_ret. split; [done |]. exists ns. unfold archive_members. cbn. by rewrite app_nil_r, with_members_id. }
  cbv zeta. fold (skipped e). unfold archive_members. rewrite filter_cons. fold (archive_members es).
  destruct (skipped e) eqn:Esk; [rewrite decide_False by done; by eapply IH |]. rewrite decide_True by done.
  destruct Hr as (Hc & Hnone & (d & Hd & Hdir) & Hr). cbn [map]. fold (archive_members es).
  apply runs_bind. eapply runs_malloc_node; [exact Hs | done | done | done | done |]. intros a s1 Hs1 Hl1. apply runs_bind.
  eapply runs_insert_loose; [exact Hs1 | exact Hl1 | exact Hc | exact Hnone | |]; intros d' Hd' Hdir'.
  - intros s2 Hs2. change (negb (0 =? 0)) with false. cbv iota. eapply runs_mono; [by eapply IH |]. intros z s' [-> Hz]. split; [done |].
    cbn [add with_members v_members] in Hz. by rewrite <- app_assoc in Hz.
  - change (m_name (member_of e)) with (node_name (archive_entry_pathname e)) in Hd. cbn [init_node name] in Hd'. congruence.
Qed.

(** A tree with nothing below the root. *)
Lemma shown_empty (r : nat) (e : entry) wr md tr :
  shown (Fs {[ r := init_node [SLASH] None e false ]} r wr md tr) [] (View (Member [SLASH] None false e false) [] wr md tr).
Proof.
  split; try done; cbn [nodes root].
  - split.
    + by apply NoDup_singleton.
    + exists (init_node [SLASH] None e false). split_and!; [apply lookup_singleton_eq | done..].
    + intros x Hx. by apply not_elem_of_nil in Hx.
    + intros p n Hp Hn. apply list_elem_of_singleton in Hp as ->. rewrite lookup_singleton_eq in Hn. by injection Hn as <-.
    + intros x y n m Hx. by apply not_elem_of_nil in Hx.
  - eexists. split; [apply lookup_singleton_eq | done].
Qed.

Lemma runs_build_tree f st wr :
  open_error f = None -> fstat f = inl st -> regular (headers f) (empty_view f st wr) ->
  runs (build_tree w f) (initial wr) (fun z s' => z = 0 /\ shows s' (archive_view f st wr)).
Proof.
  intros Ho Hf Hr. unfold build_tree. rewrite Ho, Hf. apply runs_bind.
  apply (runs_mono _ _ (fun _ s' => s' = initial (wr && negb (unwriteable f)))).
  { destruct (unwriteable f); [by apply runs_modify; rewrite andb_false_r | apply runs_ret; by rewrite andb_true_r]. }
  intros _ s ->. apply runs_bind. unfold malloc_node. apply runs_bind, runs_get. cbv zeta. apply runs_bind, runs_modify, runs_ret.
  cbn [initial nodes set_nodes root archiveWriteable archiveModified trace]. set (r := fresh (dom ∅)).
  apply runs_bind, runs_modify. apply runs_bind. eapply runs_update_node; [apply lookup_insert_eq |].
  eapply runs_mono; [eapply (runs_headers (headers f)); [| exact Hr] |].
  - pose proof (shown_empty r (root_entry w st (mount_stat f)) (wr && negb (unwriteable f)) false []) as H.
    unfold set_nodes. cbn [nodes root archiveWriteable archiveModified trace]. rewrite insert_insert_eq. exact H.
  - intros z s [-> Hs]. split; [done |]. exact Hs.
Qed.

(** * The callbacks together *)

(** The entries of the table of operations that search or change the tree. *)
Inductive ar_op :=
| OpGetattr (path : bytes) | OpReadlink (path : bytes) (size : nat) | OpReaddir (path : bytes)
| OpMknod (path : bytes) (mode rdev : Z) | OpMkdir (path : bytes) (mode : Z) | OpSymlink (from to : bytes)
| OpUnlink (path : bytes) | OpRmdir (path : bytes) | OpRename (from to : bytes) | OpLink (from to : bytes)
| OpChmod (path : bytes) (mode : Z) | OpChown (path : bytes) (uid gid : Z) | OpUtime (path : bytes) (actime modtime : Z)
| OpOpen (path : bytes) (writes : bool).

Inductive answer :=
| Code (z : Z) | Attributes (z : Z) (st : stat) | Target (z : Z) (buf : bytes) | Listing (z : Z) (names : list (bytes * (Z * Z))).

(** A filler that takes every name. *)
Definition collect (buf : list (bytes * (Z * Z))) (nm : bytes) (st : Z * Z) : list (bytes * (Z * Z)) * bool := (buf ++ [(nm, st)], false).

(** [stbuf] is what the buffer of [ar_getattr] holds, [fuel] bounds the links that a callback follows. *)
Context (stbuf : stat) (fuel : nat).

Definition perform (o : ar_op) : M (fs entry) answer :=
  match o with
  | OpGetattr path => r ← ar_getattr fuel path stbuf; mret (Attributes r.1 r.2)
  | OpReadlink path size => r ← ar_readlink path size; mret (Target r.1 r.2)
  | OpReaddir path => r ← ar_readdir collect path []; mret (Listing r.1 r.2)
  | OpMknod path mode rdev => z ← ar_mknod w path mode rdev; mret (Code z)
  | OpMkdir path mode => z ← ar_mkdir w path mode; mret (Code z)
  | OpSymlink from to => z ← ar_symlink from to; mret (Code z)
  | OpUnlink path => z ← ar_unlink w path; mret (Code z)
  | OpRmdir path => z ← ar_rmdir w path; mret (Code z)
  | OpRename from to => z ← ar_rename from to; mret (Code z)
  | OpLink from to => z ← ar_link w stbuf fuel from to; mret (Code z)
  | OpChmod path mode => z ← ar_chmod fuel path mode; mret (Code z)
  | OpChown path uid gid => z ← ar_chown fuel path uid gid; mret (Code z)
  | OpUtime path actime modtime => z ← ar_utime fuel path actime modtime; mret (Code z)
  | OpOpen path writes => z ← ar_open path writes; mret (Code z)
  end.

Fixpoint perform_all (ops : list ar_op) : M (fs entry) (list answer) :=
  match ops with
  | [] => mret []
  | o :: ops => a ← perform o; l ← perform_all ops; mret (a :: l)
  end.

(** The program: the archive is read, then the callbacks are called. *)
Definition mounted (f : @archive_file entry) (ops : list ar_op) : M (fs entry) (list answer) := _ ← build_tree w f; perform_all ops.

(** The answer of the abstract file system and what it becomes; none if links go on for
    more than [fuel] steps. *)
Definition expected (o : ar_op) v : option (answer * view entry) :=
  let coded (r : Z * view entry) : answer * view entry := (Code r.1, r.2) in
  match o with
  | OpGetattr path => r ← spec_getattr fuel path stbuf v; Some (Attributes r.1 r.2, v)
  | OpReadlink path size => r ← spec_readlink path size v; Some (Target r.1 r.2, v)
  | OpReaddir path => let r := spec_readdir collect path [] v in Some (Listing r.1 r.2, v)
  | OpMknod path mode rdev => Some (coded (spec_create w (fun loc => Mknod loc mode rdev) Unlink path v))
  | OpMkdir path mode => Some (coded (spec_create w (fun loc => Mkdir loc mode) Rmdir path v))
  | OpSymlink from to => Some (Code (- ENOSYS), v)
  | OpUnlink path => Some (coded (spec_unlink w path v))
  | OpRmdir path => Some (coded (spec_rmdir w path v))
  | OpRename from to => Some (coded (spec_rename from to v))
  | OpLink from to => coded <$> spec_link w stbuf fuel from to v
  | OpChmod path mode => coded <$> spec_change true fuel path (archive_entry_set_mode mode) v
  | OpChown path uid gid => coded <$> spec_change false fuel path (fun e => archive_entry_set_gid gid (archive_entry_set_uid uid e)) v
  | OpUtime path actime modtime =>
      coded <$> spec_change true fuel path (fun e => archive_entry_set_atime actime (archive_entry_set_mtime modtime e)) v
  | OpOpen path writes => Some (Code (spec_open path writes v), v)
  end.

(** What the callbacks are shown for: a new name is in a directory that is there, and the root is not
    removed; no name in the path is that of its directory. What is renamed has nothing below
    it, and its place in the new directory is as [movable] says. *)
Definition permitted (o : ar_op) v : Prop :=
  match o with
  | OpMknod path _ _ | OpMkdir path _ | OpLink _ path => creatable v path
  | OpUnlink path =>
      path <> [SLASH] /\ forall m, lookup v path = Some m -> S_ISDIR (archive_entry_mode (m_entry m)) = false -> listed v path = []
  | OpRmdir path => path <> [SLASH]
  | OpRename from to => movable v from to
  | _ => True
  end.

(** Histories of the abstract file system. *)
Inductive history : view entry -> list ar_op -> list answer -> view entry -> Prop :=
| h_nil v : history v [] [] v
| h_cons v o a v1 ops l v2 : permitted o v -> expected o v = Some (a, v1) -> history v1 ops l v2 -> history v (o :: ops) (a :: l) v2.

Context {wok : OsOk w}.

(** After the callback: its answer, and the state that it has left. *)
Ltac answers H :=
  apply runs_bind; eapply runs_mono; [by eapply H |]; let x := fresh in intros x ? [-> Hx]; apply runs_ret; split; [done |];
  first [exact Hx | eexists; exact Hx | rewrite Hx; by eexists].

Lemma runs_perform o s v a v' :
  shows s v -> permitted o v -> expected o v = Some (a, v') -> runs (perform o) s (fun x s' => x = a /\ shows s' v').
Proof.
  intros [ns Hs] Hp He. destruct o; cbn [perform permitted expected] in *.
  - destruct (spec_getattr _ _ _ _) as [r|] eqn:E; [| done]. injection He as <- <-. answers @runs_ar_getattr.
  - destruct (spec_readlink _ _ _) as [r|] eqn:E; [| done]. injection He as <- <-. answers @runs_ar_readlink.
  - injection He as <- <-. answers @runs_ar_readdir.
  - injection He as <- <-. answers @runs_ar_mknod.
  - injection He as <- <-. answers @runs_ar_mkdir.
  - injection He as <- <-. apply runs_bind, runs_ret, runs_ret. split; [done | by exists ns].
  - injection He as <- <-. destruct Hp. answers @runs_ar_unlink.
  - injection He as <- <-. answers @runs_ar_rmdir.
  - injection He as <- <-. answers @runs_ar_rename.
  - destruct (spec_link _ _ _ _ _ _) as [[z v1]|] eqn:E; [| done]. injection He as <- <-. answers @runs_ar_link.
  - destruct (spec_change _ _ _ _ _) as [[z v1]|] eqn:E; [| done]. injection He as <- <-. answers @runs_ar_chmod.
  - destruct (spec_change _ _ _ _ _) as [[z v1]|] eqn:E; [| done]. injection He as <- <-. answers @runs_ar_chown.
  - destruct (spec_change _ _ _ _ _) as [[z v1]|] eqn:E; [| done]. injection He as <- <-. answers @runs_ar_utime.
  - injection He as <- <-. answers @runs_ar_open.
Qed.

Lemma runs_perform_all v ops l v' s :
  shows s v -> history v ops l v' -> runs (perform_all ops) s (fun x s' => x = l /\ shows s' v').
Proof.
  intros Hs Hh. revert s Hs. induction Hh as [v|v o a v1 ops l v2 Hp He _ IH]; intros s Hs; cbn [perform_all]; [by apply runs_ret |].
  apply runs_bind. eapply runs_mono; [by eapply runs_perform |]. intros x s1 [-> Hs1]. apply runs_bind.
  eapply runs_mono; [by apply IH |]. intros y s2 [-> Hs2]. by apply runs_ret.
Qed.

(** C21. archivemount refines an abstract file system, a list of members in the
    order in which they came, for any libarchive and any answers of the system:
    an archive whose headers name new files in directories that came before them
    is read whole, and every history of callbacks on attributes, directories,
    links, new files, removals and renames gets the answers of the abstract file
    system. The archive and the new files have no directory named like the one
    it is in; a rename is of a file or an empty directory, to a new name, and
    not from a directory with other entries into an empty one; the root is not
    removed or moved; links are followed for no more steps than a bound that the
    history respects, and there is memory. Outside of these bounds the program
    fails (repeated_name_is_misplaced, rename_drags_siblings,
    rename_onto_file_loses). *)
Theorem archive_refines f st wr ops answers v' :
  open_error f = None -> fstat f = inl st -> regular (headers f) (empty_view f st wr) ->
  history (archive_view f st wr) ops answers v' ->
  runs (mounted f ops) (initial wr) (fun l s' => l = answers /\ shows s' v').
Proof.
  intros Ho Hf Hr Hh. unfold mounted. apply runs_bind. eapply runs_mono; [by eapply runs_build_tree |].
  intros z s [-> Hs]. by eapply runs_perform_all.
Qed.
End Mount.
