(* ===== verification/ArchiveProps.v ===== *)
(** Properties of archivemount: what is in an archive is found, links end unless they go in
    circles, and where the program does not do what it means to. *)

From S2P Require Import Prelude.
From S2P Require Import CString.
From S2P Require Import Archive.
From S2P Require Import ArchiveTree.
From S2P Require Import ArchiveLinks.
From S2P Require Import ArchiveInsert.
From S2P Require Import ArchiveFS.
From S2P Require Import ArchiveSpec.
From S2P Require Import ArchiveRefine.
From S2P Require Import ArchiveCreate.
From S2P Require Import ArchiveRename.
From S2P Require Import ArchiveMount.

(** * A concrete libarchive *)

Module Header.

Record header := Header { pathname : bytes; attributes : stat; hardlink : option bytes; symlink : option bytes }.

Definition with_stat (f : stat -> stat) (h : header) := Header (pathname h) (f (attributes h)) (hardlink h) (symlink h).

#[export] Instance sample_libarchive : Libarchive header := {
  archive_entry_new := Header [] (Stat 0 0 0 0 0 0 0 0 0 0 0) None None;
  archive_entry_pathname := pathname;
  archive_entry_mode h := st_mode (attributes h);
  archive_entry_ino h := st_ino (attributes h);
  archive_entry_size h := st_size (attributes h);
  archive_entry_stat := attributes;
  archive_entry_hardlink := hardlink;
  archive_entry_symlink := symlink;
  archive_entry_set_pathname nm h := Header nm (attributes h) (hardlink h) (symlink h);
  archive_entry_set_mode z := with_stat (fun st => Stat (st_dev st) (st_ino st) z (st_nlink st) (st_uid st) (st_gid st) (st_rdev st) (st_size st) (st_atime st) (st_mtime st) (st_ctime st));
  archive_entry_set_size z := with_stat (fun st => Stat (st_dev st) (st_ino st) (st_mode st) (st_nlink st) (st_uid st) (st_gid st) (st_rdev st) z (st_atime st) (st_mtime st) (st_ctime st));
  archive_entry_set_uid z := with_stat (fun st => Stat (st_dev st) (st_ino st) (st_mode st) (st_nlink st) z (st_gid st) (st_rdev st) (st_size st) (st_atime st) (st_mtime st) (st_ctime st));
  archive_entry_set_gid z := with_stat (fun st => Stat (st_dev st) (st_ino st) (st_mode st) (st_nlink st) (st_uid st) z (st_rdev st) (st_size st) (st_atime st) (st_mtime st) (st_ctime st));
  archive_entry_set_uname _ h := h;
  archive_entry_set_gname _ h := h;
  archive_entry_set_mtime z := with_stat (fun st => Stat (st_dev st) (st_ino st) (st_mode st) (st_nlink st) (st_uid st) (st_gid st) (st_rdev st) (st_size st) (st_atime st) z (st_ctime st));
  archive_entry_set_atime z := with_stat (fun st => Stat (st_dev st) (st_ino st) (st_mode st) (st_nlink st) (st_uid st) (st_gid st) (st_rdev st) (st_size st) z (st_mtime st) (st_ctime st));
  archive_entry_set_rdevmajor _ h := h;
  archive_entry_set_rdevminor z := with_stat (fun st => Stat (st_dev st) (st_ino st) (st_mode st) (st_nlink st) (st_uid st) (st_gid st) z (st_size st) (st_atime st) (st_mtime st) (st_ctime st));
  archive_entry_set_hardlink nm h := Header (pathname h) (attributes h) (Some nm) (symlink h);
  archive_entry_copy_stat st h := Header (pathname h) st (hardlink h) (symlink h) }.

(** Directories with mode 755 and files with mode 644 of a size. *)
Definition directory (nm : bytes) (ino : Z) : header := Header nm (Stat 0 ino 16877 2 0 0 0 0 0 0 0) None None.
Definition file (nm : bytes) (ino size : Z) : header := Header nm (Stat 0 ino 33188 1 0 0 0 size 0 0 0) None None.
Definition hard (nm target : bytes) (ino : Z) : header := Header nm (Stat 0 ino 33188 1 0 0 0 0 0 0 0) (Some target) None.

Definition no_stat : stat := Stat 0 0 0 0 0 0 0 0 0 0 0.

(** The attributes of the archive and of the mount point. *)
Definition archive_stat : stat := Stat 1 50 33188 1 0 0 0 10240 0 1200000000 0.
Definition mount_point : stat := Stat 1 60 16832 2 0 0 0 4096 0 0 0.

(** An archive before its first header is read: libarchive has no format then. *)
Definition tar (es : list header) : @archive_file header := ArchiveFile None 0 0 (inl archive_stat) mount_point es.

(** Temporary files are directories of mode 755 when they are looked at, and cannot be read; users
    have no names. *)
Definition sample_os : os :=
  Os (fun _ => inl (B "/tmp/t")) (fun _ => None) (fun _ => inl (Stat 1 70 16877 2 0 0 0 4096 0 0 0)) (fun _ => inr 2)
    (fun _ => inl 5) (fun _ => inr EISDIR) (fun _ => inr EISDIR) 1000 1000 (B "/tmp").

#[export] Instance sample_os_ok : OsOk sample_os.
Proof. by split. Qed.

(** What is mounted, and the answers to callbacks. *)
Definition session (es : list header) (ops : list (ar_op)) : M (fs header) (list answer) := mounted sample_os no_stat 5 (tar es) ops.
End Header.
Import Header.

Section Props.
Context {entry : Type} {lib : Libarchive entry} (w : os).
Implicit Types (s : fs entry) (v : view entry) (m : member entry) (e : entry).

(** * What is in the archive *)

Lemma lookup_add_ne m v path : m_name m <> path -> lookup (add m v) path = lookup v path.
Proof.
  intros Hne. unfold lookup. case_decide; [done |]. unfold find_member. cbn [add with_members v_members].
  destruct (list_find (fun m => m_name m = path) (v_members v)) as [[i k]|] eqn:E.
  - by rewrite (list_find_app_l _ _ _ _ _ E).
  - rewrite list_find_app_r by done. cbn. by rewrite decide_False.
Qed.

Lemma lookup_add m v : m_name m <> [SLASH] -> lookup v (m_name m) = None -> lookup (add m v) (m_name m) = Some m.
Proof.
  intros Hr. unfold lookup. rewrite !decide_False by done. unfold find_member. cbn [add with_members v_members]. intros E.
  rewrite list_find_app_r by (by destruct (list_find _ _)). cbn. by rewrite decide_True.
Qed.

Lemma creatable_not_root v path : creatable v path -> path <> [SLASH].
Proof. intros (cs & c & -> & _ & Hc & _). rewrite path_of_app. by apply join_not_root, path_of_nonempty. Qed.

(** What is there stays, and every header becomes a member. *)
Lemma regular_keeps es : forall v path m,
  regular es v -> lookup v path = Some m -> lookup (with_members (v_members v ++ archive_members es) v) path = Some m.
Proof.
  induction es as [|e es IH]; intros v path m Hr Hl; cbn [regular] in Hr.
  { unfold archive_members. cbn. by rewrite app_nil_r, with_members_id. }
  unfold archive_members. rewrite filter_cons. destruct (skipped e) eqn:Esk; [rewrite decide_False by done; by apply IH |].
  rewrite decide_True by done. destruct Hr as (_ & Hnone & _ & Hr). cbn [map]. fold (archive_members es).
  change (with_members _ v) with (with_members (v_members v ++ [member_of e] ++ archive_members es) (add (member_of e) v)).
  rewrite app_assoc. apply (IH (add (member_of e) v)); [done |]. rewrite lookup_add_ne; [done |]. intros E. by rewrite E, Hl in Hnone.
Qed.

Lemma regular_members es : forall v e,
  regular es v -> e ∈ es -> skipped e = false ->
  lookup (with_members (v_members v ++ archive_members es) v) (m_name (member_of e)) = Some (member_of e).
Proof.
  induction es as [|e' es IH]; intros v e Hr He Hsk; [by apply not_elem_of_nil in He |]. cbn [regular] in Hr.
  unfold archive_members. rewrite filter_cons. apply elem_of_cons in He as [<-|He]; destruct (skipped _) eqn:Esk; try done.
  - rewrite decide_True by done. destruct Hr as (Hc & Hnone & _ & Hr). cbn [map]. fold (archive_members es).
    change (with_members _ v) with (with_members (v_members v ++ [member_of e] ++ archive_members es) (add (member_of e) v)).
    rewrite app_assoc. apply (regular_keeps es (add (member_of e) v)); [done |]. apply lookup_add; [by eapply creatable_not_root | done].
  - rewrite decide_False by done. by apply IH.
  - rewrite decide_True by done. destruct Hr as (_ & _ & _ & Hr). cbn [map]. fold (archive_members es).
    change (with_members _ v) with (with_members (v_members v ++ [member_of e'] ++ archive_members es) (add (member_of e') v)).
    rewrite app_assoc. by apply (IH (add (member_of e') v)).
Qed.

(** Every header of the archive is found after it is mounted: [ar_getattr] of its path
    gives its attributes, unless it is a hard link, and there is no other error. *)
Theorem archive_found f st wr e fuel buf :
  open_error f = None -> fstat f = inl st -> regular (headers f) (empty_view w f st wr) ->
  e ∈ headers f -> skipped e = false -> archive_entry_hardlink e = None ->
  runs (_ ← build_tree w f; ar_getattr (S fuel) (node_name (archive_entry_pathname e)) buf) (initial wr)
    (fun r s' => r = (0, archive_entry_stat e) /\ shows s' (archive_view w f st wr)).
Proof.
  intros Ho Hf Hr He Hsk Hlk. apply runs_bind. eapply runs_mono; [by eapply runs_build_tree |]. intros z s [-> [ns Hs]].
  pose proof (regular_members _ _ e Hr He Hsk) as El. eapply runs_mono; [eapply runs_ar_getattr; [exact Hs |] | intros r s' [-> ->]; split; [reflexivity | by exists ns]].
  unfold spec_getattr. cbn [follow]. change (node_name _) with (m_name (member_of e)).
  change (archive_view w f st wr) with (with_members (v_members (empty_view w f st wr) ++ archive_members (headers f)) (empty_view w f st wr)).
  rewrite El. cbn. by rewrite Hlk.
Qed.

(** * Links *)

(** C37. If the hard links of the archive can be ranked so that each leads to
    one of a smaller rank, if it leads anywhere, ar_getattr ends after at most
    as many links as the rank, with the attributes that the links lead to. *)
Theorem links_end s v (rank : bytes -> nat) path buf :
  shows s v ->
  (forall p m t m', lookup v p = Some m -> archive_entry_hardlink (m_entry m) = Some t -> lookup v t = Some m' -> (rank t < rank p)%nat) ->
  exists r, spec_getattr (S (S (rank path))) path buf v = Some r /\
    runs (ar_getattr (S (S (rank path))) path buf) s (fun x s' => x = r /\ s' = s).
Proof.
  intros [ns Hs] Hrank.
  assert (forall fuel p, (rank p < fuel)%nat -> is_Some (follow false (S fuel) v p)) as Hf.
  { induction fuel as [|fuel IH]; intros p Hp; [lia |]. cbn [follow]. destruct (lookup v p) as [m|] eqn:El; [| by eexists].
    destruct (archive_entry_hardlink (m_entry m)) as [t|] eqn:Et; [| by eexists].
    destruct (lookup v t) as [m'|] eqn:Et'; [| by eexists]. pose proof (Hrank p m t m' El Et Et').
    destruct (IH t) as [r Hr]; [lia |]. cbn [follow] in Hr. rewrite Et' in Hr. by exists r. }
  destruct (Hf (S (rank path)) path) as [o Ho]; [lia |]. unfold spec_getattr. rewrite Ho. eexists. split; [reflexivity |].
  eapply runs_ar_getattr; [done |]. unfold spec_getattr. by rewrite Ho.
Qed.

Lemma lookup_in v path m : lookup v path = Some m -> m ∈ v_root v :: v_members v.
Proof.
  unfold lookup. case_decide; [intros [= <-]; by left |]. unfold find_member. destruct (list_find _ _) as [[i k]|] eqn:E; [| done].
  cbn. intros [= <-]. apply list_find_Some in E as (Hi & _). right. by eapply list_elem_of_lookup_2.
Qed.

Lemma lookup_relative s v path : shows s v -> head path <> Some SLASH -> lookup v path = None.
Proof.
  intros [ns Hs] Hp. destruct (lookup v path) as [m|] eqn:El; [| done]. exfalso. pose proof (s_tree _ _ _ Hs) as Ht.
  destruct (lookup_node s ns v path m Hs El) as (x & n & Hx & Hn & _ & En). subst path. apply Hp.
  destruct (t_root _ _ _ Ht) as (r & Hr & Er & _).
  destruct (under_prefix _ _ _ (root s) x r n Ht Hx (under_root _ _ _ _ Ht Hx) Hr Hn) as [k ->]. by rewrite Er.
Qed.

(** C38. A hard link whose target does not start with a slash, as archives have
    them, leads nowhere: ar_getattr answers -ENOENT and leaves the buffer as it
    was, whatever else is in the tree. *)
Theorem relative_link_dangles s v path m target fuel buf :
  shows s v -> lookup v path = Some m -> archive_entry_hardlink (m_entry m) = Some target -> head target <> Some SLASH ->
  runs (ar_getattr (S (S fuel)) path buf) s (fun r s' => r = (- ENOENT, buf) /\ s' = s).
Proof.
  intros Hs El Et Hp. pose proof (lookup_relative s v target Hs Hp) as Hnone. destruct Hs as [ns Hs].
  eapply runs_ar_getattr; [done |]. unfold spec_getattr. cbn [follow]. by rewrite El, Et, Hnone.
Qed.
End Props.

(** * Witnesses *)

(** A directory [d] with a file [a], a file [b]; the directory of the archive itself is skipped. *)
Definition small : list header := [directory (B "./") 1; directory (B "./d/") 2; file (B "./d/a") 3 5; file (B "b") 4 7].

Ltac decided := apply (bool_decide_unpack _); vm_compute; exact I.
Ltac create l c := exists l, c; split_and!; [reflexivity | decided | decided | decided | vm_compute; by eexists].
Ltac is_directory := eexists; split; vm_compute; reflexivity.

Lemma small_regular : regular small (empty_view sample_os (tar small) archive_stat true).
Proof.
  cbn [small regular]. change (skipped (directory (B "./") 1)) with true. cbv iota.
  change (skipped (directory (B "./d/") 2)) with false. change (skipped (file (B "./d/a") 3 5)) with false.
  change (skipped (file (B "b") 4 7)) with false. cbv iota. split_and!; try done; try is_directory.
  - create (@nil bytes) (B "d").
  - create [B "d"] (B "a").
  - create (@nil bytes) (B "b").
Qed.

Lemma archive_found_witness :
  runs (_ ← build_tree sample_os (tar small); ar_getattr 1 (B "/d/a") no_stat) (initial true)
    (fun r _ => r = (0, Stat 0 3 33188 1 0 0 0 5 0 0 0)).
Proof.
  assert (B "/d/a" = node_name (archive_entry_pathname (file (B "./d/a") 3 5))) as -> by (vm_compute; reflexivity).
  eapply runs_mono; [apply (archive_found sample_os (tar small) archive_stat true (file (B "./d/a") 3 5) 0 no_stat) |].
  - reflexivity.
  - reflexivity.
  - exact small_regular.
  - right. right. left.
  - reflexivity.
  - reflexivity.
  - intros r s' [-> _]. reflexivity.
Defined.

(** A file with a hard link to it, and one whose target is written as archives do. *)
Definition linked : list header := [file (B "a") 2 9; hard (B "b") (B "/a") 3; hard (B "c") (B "a") 4].

Lemma linked_regular : regular linked (empty_view sample_os (tar linked) archive_stat true).
Proof.
  cbn [linked regular]. change (skipped (file (B "a") 2 9)) with false. change (skipped (hard (B "b") (B "/a") 3)) with false.
  change (skipped (hard (B "c") (B "a") 4)) with false. cbv iota. split_and!; try done; try is_directory.
  - create (@nil bytes) (B "a").
  - create (@nil bytes) (B "b").
  - create (@nil bytes) (B "c").
Qed.

Lemma links_end_witness :
  runs (_ ← build_tree sample_os (tar linked); ar_getattr 3 (B "/b") no_stat) (initial true) (fun r _ => r = (0, Stat 0 2 33188 1 0 0 0 9 0 0 0)).
Proof.
  apply runs_bind. eapply runs_mono; [apply (runs_build_tree sample_os (tar linked) archive_stat true); [reflexivity | reflexivity | exact linked_regular] |].
  intros z s [_ Hs]. set (rank p := if decide (p = B "/b") then 1%nat else 0%nat).
  destruct (links_end s (archive_view sample_os (tar linked) archive_stat true) rank (B "/b") no_stat Hs) as (r & Hr & Hrun).
  - intros p m t m' El Et El'. pose proof (lookup_name _ _ _ El eq_refl) as En. apply lookup_in in El.
    repeat (apply elem_of_cons in El as [->|El]; [vm_compute in En; subst p; vm_compute in Et; try discriminate Et |]).
    + injection Et as <-. vm_compute. lia.
    + injection Et as <-. vm_compute in El'. discriminate El'.
    + by apply not_elem_of_nil in El.
  - vm_compute in Hr. injection Hr as <-. eapply runs_mono; [exact Hrun |]. intros x s' [-> _]. reflexivity.
Defined.

Lemma relative_link_dangles_witness :
  runs (_ ← build_tree sample_os (tar linked); ar_getattr 2 (B "/c") no_stat) (initial true) (fun r _ => r = (- ENOENT, no_stat)).
Proof.
  apply runs_bind. eapply runs_mono; [apply (runs_build_tree sample_os (tar linked) archive_stat true); [reflexivity | reflexivity | exact linked_regular] |].
  intros z s [_ Hs]. eapply runs_mono; [eapply (relative_link_dangles s _ (B "/c") _ (B "a") 0); [exact Hs | vm_compute; reflexivity | reflexivity | discriminate] |].
  intros r s' [-> _]. reflexivity.
Defined.

(** A directory is made, the file is moved into it and linked, and the list is read. *)
Definition small_ops : list ar_op :=
  [OpMkdir (B "/e") 493; OpRename (B "/b") (B "/d/b"); OpLink (B "/d/b") (B "/e/b"); OpUnlink (B "/d/a"); OpRmdir (B "/d");
   OpChmod (B "/e/b") 33152; OpGetattr (B "/e/b"); OpReaddir (B "/")].

Definition small_answers : list answer :=
  [Code 0; Code 0; Code 0; Code 0; Code (- ENOTEMPTY); Code 0; Attributes 0 (Stat 0 4 33152 1 0 0 0 7 0 0 0);
   Listing 0 [(B "d", (2, 16877)); (B "e", (0, 16877))]].

Lemma archive_refines_witness :
  runs (session small small_ops) (initial true) (fun l _ => l = small_answers).
Proof.
  eapply runs_mono; [unshelve eapply (archive_refines sample_os no_stat 5 (tar small) archive_stat true small_ops small_answers) |].
  - refine (_ : view header). shelve.
  - reflexivity.
  - reflexivity.
  - exact small_regular.
  - unfold small_ops, small_answers.
    eapply h_cons; [create (@nil bytes) (B "e") | vm_compute; reflexivity |].
    eapply h_cons; [split_and!; [done | reflexivity | create [B "d"] (B "b") | reflexivity | left; by vm_compute] | vm_compute; reflexivity |].
    eapply h_cons; [create [B "e"] (B "b") | vm_compute; reflexivity |].
    eapply h_cons; [split; [done | intros; vm_compute; reflexivity] | vm_compute; reflexivity |].
    eapply h_cons; [done | vm_compute; reflexivity |].
    eapply h_cons; [done | vm_compute; reflexivity |].
    eapply h_cons; [done | vm_compute; reflexivity |].
    eapply h_cons; [done | vm_compute; reflexivity |].
    apply h_nil.
  - intros l s' [-> _]. reflexivity.
Defined.

(** * Where the program fails *)

(** The name of a directory that is the name of the directory it is in: what is in the inner
    one is listed in the outer one. *)
Theorem repeated_name_is_misplaced :
  runs (session [directory (B "d/") 2; directory (B "d/d/") 3; file (B "d/d/f") 4 1] [OpReaddir (B "/d/d"); OpReaddir (B "/d")]) (initial true)
    (fun l _ => l = [Listing 0 []; Listing 0 [(B "d", (3, 16877)); (B "f", (4, 33188))]]).
Proof. vm_compute. reflexivity. Qed.

(** A file whose directory, below the top level, is not in the archive: the memory for its
    name is one byte short. *)
Theorem missing_directory_overruns : session [file (B "x/y/z") 2 1] [] (initial true) = UB.
Proof. vm_compute. reflexivity. Qed.

(** The header of a directory that comes after what is in it is not used: the directory has
    the attributes of the root. *)
Theorem late_directory_has_root_attributes :
  runs (session [file (B "d/f") 2 1; directory (B "d/") 3] [OpGetattr (B "/d"); OpGetattr (B "/")]) (initial true)
    (fun l _ => let root_stat := Stat 0 0 16832 0 0 1000 0 10240 0 0 0 in l = [Attributes 0 root_stat; Attributes 0 root_stat]).
Proof. vm_compute. reflexivity. Qed.

(** A file that is moved into an empty directory takes the files that came after it along: they
    are listed in both. *)
Theorem rename_drags_siblings :
  runs (session [directory (B "e/") 2; file (B "a") 3 1; file (B "b") 4 1] [OpRename (B "/a") (B "/e/a"); OpReaddir (B "/e"); OpReaddir (B "/")])
    (initial true)
    (fun l _ => l = [Code 0; Listing 0 [(B "a", (3, 33188)); (B "b", (4, 33188))]; Listing 0 [(B "e", (2, 16877)); (B "b", (4, 33188))]]).
Proof. vm_compute. reflexivity. Qed.

(** A file that is renamed to one that is there is lost: the old one stays. *)
Theorem rename_onto_file_loses :
  runs (session [file (B "a") 2 11; file (B "b") 3 22] [OpRename (B "/a") (B "/b"); OpGetattr (B "/b"); OpGetattr (B "/a")]) (initial true)
    (fun l _ => l = [Code 0; Attributes 0 (Stat 0 3 33188 1 0 0 0 22 0 0 0); Attributes (- ENOENT) no_stat]).
Proof. vm_compute. reflexivity. Qed.

(** Hard links in a circle: the recursion of [ar_getattr] does not end. *)
Definition circle : @archive_file header := tar [hard (B "a") (B "/b") 2; hard (B "b") (B "/a") 3].
Definition circle_tree : fs header :=
  Eval vm_compute in match build_tree sample_os circle (initial true) with Ret (_, s) => s | _ => initial true end.

Lemma getattr_link (s : fs header) path x n target fuel :
  find path s = Ret (Some x, s) -> nodes s !! x = Some n -> hardlink (nentry n) = Some target ->
  ar_getattr (S fuel) path no_stat s = ar_getattr fuel target no_stat s.
Proof. intros Hf Hn Ht. cbn [ar_getattr]. unfold mbind at 1, M_bind. rewrite Hf. unfold node_at, mbind, M_bind, get. rewrite Hn. cbn [mret M_ret archive_entry_hardlink sample_libarchive]. by rewrite Ht. Qed.

Lemma circle_runs k : ar_getattr k (B "/a") no_stat circle_tree = Hang /\ ar_getattr k (B "/b") no_stat circle_tree = Hang.
Proof.
  induction k as [|k [IHa IHb]]; [done |]. split.
  - erewrite getattr_link; [exact IHb | vm_compute; reflexivity..].
  - erewrite getattr_link; [exact IHa | vm_compute; reflexivity..].
Qed.

Theorem link_circle_never_ends fuel : mounted sample_os no_stat fuel circle [OpGetattr (B "/a")] (initial true) = Hang.
Proof.
  unfold mounted, mbind at 1, M_bind. assert (build_tree sample_os circle (initial true) = Ret (0, circle_tree)) as -> by (vm_compute; reflexivity).
  cbn [perform_all perform]. unfold mbind, M_bind. by rewrite (proj1 (circle_runs fuel)).
Qed.

(** The formats are numbers, but they are tested like sets of flags: those of tar and cpio
    archives have a bit in common with that of ZIP archives, and are not writeable. *)
Theorem tar_is_unwriteable (es : list header) :
  unwriteable (ArchiveFile None ARCHIVE_FORMAT_TAR_USTAR 0 (inl archive_stat) mount_point es) = true /\
  unwriteable (ArchiveFile None ARCHIVE_FORMAT_CPIO 0 (inl archive_stat) mount_point es) = true.
Proof. done. Qed.

(** A new file closes the standard input instead of the file that [mkstemp] has opened. *)
Theorem new_file_closes_stdin :
  runs (session [] [OpMkdir (B "/d") 493]) (initial true)
    (fun l s => l = [Code 0] /\ firstn 4 (trace s) = [Mkstemp (B "/tmp/archivemount_d_XXXXXX"); Close 0; Unlink (B "/tmp/t"); Mkdir (B "/tmp/t") 493]).
Proof. vm_compute. split; reflexivity. Qed.
