(* ===== verification/ArchiveData.v ===== *)
(** other_fs/archivemount-0.5.3/archivemount.c, continued: the contents of files. Members are
    read from the archive by libarchive; new and changed files are in temporary files. *)

From S2P Require Import Prelude.
From S2P Require Import CString.
From S2P Require Import Archive.
From S2P Require Import ArchiveFS.

Definition MAXBUF : Z := 4096.

Definition O_RDONLY : Z := 0.
Definition O_WRONLY : Z := 1.
Definition O_CREAT : Z := 64.
Definition O_EXCL : Z := 128.

Definition ARCHIVE_RETRY : Z := -10.
Definition ARCHIVE_WARN : Z := -20.
Definition ARCHIVE_FATAL : Z := -30.

(** A member of the archive as libarchive reads it: its header, and what [archive_read_data]
    returns, and puts into the buffer, after some bytes for some size. *)
Record stored (entry : Type) := Stored { header_of : entry; archive_read_data : Z -> Z -> Z * bytes }.
Arguments Stored {entry}. Arguments header_of {entry}. Arguments archive_read_data {entry}.

Definition archive_error (ret : Z) : bool := (ret =? ARCHIVE_FATAL) || (ret =? ARCHIVE_WARN) || (ret =? ARCHIVE_RETRY).

Section Data.
Context {entry : Type} {lib : Libarchive entry} (w : os) (archive : list (stored entry)).
Implicit Types n : node entry.

(** ** Reading *)

(** The loop that reads [offset] bytes and throws them away: how far it has come, the rest of
    [offset], and [ret], which is an [int], while [archive_read_data] returns an [ssize_t]. *)
Fixpoint skip_offset (fuel : nat) (st : stored entry) (pos offset ret : Z) : Z * Z * Z :=
  match fuel with
  | O => (pos, offset, ret)
  | S fuel =>
      if 0 <? offset then
        let skip := if MAXBUF <? offset then MAXBUF else offset in
        let '(got, _) := archive_read_data st pos skip in
        let ret := to_i32 got in
        if archive_error ret then (pos, offset, -1) else skip_offset fuel st (pos + Z.max 0 got) (offset - skip) ret
      else (pos, offset, ret)
  end.

(** One round for each [MAXBUF] bytes. *)
Definition skip_fuel (offset : Z) : nat := S (Z.to_nat (offset / MAXBUF + 1)).

(** What is in a buffer after some bytes are put at its start. *)
Definition over (data buf : bytes) : bytes := data ++ drop (length data) buf.

(** The loop over the headers: it goes on after the member that it looks for, with what is
    left of [offset]. *)
Fixpoint read_member (realpath : bytes) (members : list (stored entry)) (size offset ret : Z) (buf : bytes) : Z * bytes :=
  match members with
  | [] => (ret, buf)
  | st :: members =>
      if strcmp realpath (archive_entry_pathname (header_of st)) =? 0 then
        let '(pos, offset, ret) := skip_offset (skip_fuel offset) st 0 offset ret in
        if negb (offset =? 0) then (ret, buf)
        else
          let '(got, data) := archive_read_data st pos size in
          let ret := to_i32 got in
          if archive_error ret then (-1, over data buf) else read_member realpath members size offset ret (over data buf)
      else read_member realpath members size offset ret buf
  end.

Definition sys_open (path : bytes) (flags mode : Z) : M (fs entry) (Z + Z) := i ← call (Open path flags mode); mret (os_open w i).

(** [errno] after a call that may fail itself. *)
Definition errno_after (c : syscall) (err : Z) : M (fs entry) Z := e ← call_err w c; mret (default err e).

(** The result and the buffer. Errors of libarchive when the archive is opened are only
    written to the log. *)
Fixpoint ar_read (fuel : nat) (path : bytes) (size offset : Z) (buf : bytes) : M (fs entry) (Z * bytes) :=
  match fuel with
  | O => hang
  | S fuel =>
      found ← find path;
      match found with
      | None => mret (- ENOENT, buf)
      | Some a =>
          n ← node_at a;
          match archive_entry_hardlink (nentry n), archive_entry_symlink (nentry n) with
          | Some target, _ | None, Some target => ar_read fuel target size offset buf
          | None, None =>
              if nmodified n then
                match location n with
                | None => ub
                | Some loc =>
                    opened ← sys_open loc O_RDONLY 0;
                    match opened with
                    | inr err => mret (- err, buf)
                    | inl fh =>
                        i ← call (Pread fh size offset);
                        match os_pread w i with
                        | inr err => err ← errno_after (Close fh) err; _ ← call (Close fh); mret (- err, buf)
                        | inl data =>
                            let ret := to_i32 (Z.of_nat (length data)) in
                            _ ← assert_defined (negb (ret =? -1));   (* [errno] would not be set *)
                            _ ← call (Close fh); mret (ret, over data buf)
                        end
                    end
                end
              else mret (read_member (archive_entry_pathname (nentry n)) archive size offset (-1) buf)
          end
      end
  end.

(** ** Writing *)

(** [node->location = location; node->modified = 1]. *)
Definition set_location (loc : bytes) n := Node (parent n) (prev n) (next n) (child n) (name n) (Some loc) (namechanged n) (nentry n) true.

(** After a failure: the temporary file is closed and removed. *)
Definition undo_temp (fh : Z) (loc : bytes) : M (fs entry) unit := _ ← call (Close fh); _ ← call (Unlink loc); mret tt.

(** The temporary file of a node is opened; without one, it is made, and then filled by [copy].
    A result instead of the file is that of the callback. *)
Definition open_temp (a : nat) (path : bytes) (copy : node entry -> bytes -> Z -> M (fs entry) (option Z)) : M (fs entry) (Z + bytes * Z) :=
  n ← node_at a;
  match location n with
  | Some loc =>
      opened ← sys_open loc O_WRONLY 0;
      match opened with
      | inr err => err ← errno_after (Unlink loc) err; mret (inl (- err))
      | inl fh => mret (inr (loc, fh))
      end
  | None =>
      tmp ← get_temp_file_name w path;
      match tmp with
      | inl err => if err <? 0 then mret (inl 1) else ub
      | inr loc =>
          opened ← sys_open loc (Z.lor O_WRONLY (Z.lor O_CREAT O_EXCL)) (archive_entry_mode (nentry n));
          match opened with
          | inr err => err ← errno_after (Unlink loc) err; mret (inl (- err))
          | inl fh =>
              failed ← copy n loc fh;
              mret match failed with Some z => inl z | None => inr (loc, fh) end
          end
      end
  end.

(** A block of the original file. *)
Definition block_length (tmpsize : Z) : Z := if MAXBUF <? tmpsize then MAXBUF else tmpsize.

Definition write_block (fh : Z) (data : bytes) : M (fs entry) (Z + Z) := i ← call (Write fh data); mret (os_write w i).

(** The copying loop of [ar_truncate]; a size is not negative. *)
Fixpoint truncate_copy (links fuel : nat) (path : bytes) (size : Z) (loc : bytes) (fh tmpsize tmpoffset : Z) (tmpbuf : bytes) : M (fs entry) (option Z) :=
  match fuel with
  | O => hang
  | S fuel =>
      if tmpsize =? 0 then mret None
      else
        let len := block_length tmpsize in
        r ← ar_read links path len tmpoffset tmpbuf;
        if r.1 <? 0 then _ ← undo_temp fh loc; mret (Some r.1)
        else
          wrote ← write_block fh (take (Z.to_nat r.1) r.2);
          match wrote with
          | inr err => _ ← undo_temp fh loc; mret (Some (- err))
          | inl _ =>
              _ ← assert_defined (in_i32 (tmpoffset + len));
              if size <=? tmpoffset + len then mret None
              else truncate_copy links fuel path size loc fh (tmpsize - len) (tmpoffset + len) r.2
          end
  end.

(** That of [ar_write]: every result but 0 counts as an error. *)
Fixpoint write_copy (links fuel : nat) (path : bytes) (loc : bytes) (fh tmpsize tmpoffset : Z) (tmpbuf : bytes) : M (fs entry) (option Z) :=
  match fuel with
  | O => hang
  | S fuel =>
      if tmpsize =? 0 then mret None
      else
        let len := block_length tmpsize in
        r ← ar_read links path len tmpoffset tmpbuf;
        if negb (r.1 =? 0) then _ ← undo_temp fh loc; mret (Some r.1)
        else
          wrote ← write_block fh (take (Z.to_nat len) r.2);
          match wrote with
          | inr err => _ ← undo_temp fh loc; mret (Some (- err))
          | inl _ =>
              _ ← assert_defined (in_i32 (tmpoffset + len));
              write_copy links fuel path loc fh (tmpsize - len) (tmpoffset + len) r.2
          end
  end.

(** The end of [ar_truncate] and [ar_write]. *)
Definition record_temp (a : nat) (loc : bytes) (fh ret : Z) : M (fs entry) Z :=
  _ ← update a (set_location loc);
  tmp ← update_entry_stat w a;
  if tmp <? 0 then _ ← undo_temp fh loc; mret tmp
  else _ ← call (Close fh); changed ret.

(** What [malloc] gives for the buffer. *)
Context (junk : bytes).

(** The path in a recursion is the target of the link. *)
Fixpoint ar_truncate (fuel : nat) (path : bytes) (size : Z) : M (fs entry) Z :=
  match fuel with
  | O => hang
  | S fuel' =>
      s ← get;
      if negb (archiveWriteable s) then mret (- EROFS)
      else
        found ← find path;
        match found with
        | None => mret (- ENOENT)
        | Some a =>
            n ← node_at a;
            match archive_entry_hardlink (nentry n), archive_entry_symlink (nentry n) with
            | Some target, _ | None, Some target => ar_truncate fuel' target size
            | None, None =>
                opened ← open_temp a path (fun n loc fh =>
                  let tmpsize := archive_entry_size (nentry n) in
                  truncate_copy fuel (skip_fuel tmpsize) path size loc fh tmpsize 0 junk);
                match opened with
                | inl z => mret z
                | inr (loc, fh) =>
                    err ← call_err w (Truncate loc size);
                    match err with
                    | Some err => _ ← undo_temp fh loc; mret (- err)
                    | None => record_temp a loc fh 0
                    end
                end
            end
        end
  end.

Fixpoint ar_write (fuel : nat) (path : bytes) (buf : bytes) (offset : Z) : M (fs entry) Z :=
  match fuel with
  | O => hang
  | S fuel' =>
      s ← get;
      if negb (archiveWriteable s) then mret (- EROFS)
      else
        found ← find path;
        match found with
        | None => mret (- ENOENT)
        | Some a =>
            n ← node_at a;
            if S_ISLNK (archive_entry_mode (nentry n)) then
              match archive_entry_symlink (nentry n) with Some target => ar_write fuel' target buf offset | None => ub end
            else
              match archive_entry_hardlink (nentry n), archive_entry_symlink (nentry n) with
              | Some target, _ | None, Some target => ar_write fuel' target buf offset
              | None, None =>
                  opened ← open_temp a path (fun n loc fh =>
                    let tmpsize := archive_entry_size (nentry n) in
                    write_copy fuel (skip_fuel tmpsize) path loc fh tmpsize 0 junk);
                  match opened with
                  | inl z => mret z
                  | inr (loc, fh) =>
                      i ← call (Pwrite fh buf offset);
                      match os_write w i with
                      | inr err => _ ← undo_temp fh loc; mret (- err)
                      | inl ret => record_temp a loc fh ret
                      end
                  end
              end
        end
  end.

(** ** The callbacks that do nothing *)

Definition ar_statfs (path : bytes) : M (fs entry) Z := mret (- ENOSYS).
Definition ar_fsync (path : bytes) (isdatasync : Z) : M (fs entry) Z := mret 0.
Definition ar_release (path : bytes) : M (fs entry) Z := mret 0.
End Data.
