(* ===== verification/ArchiveDataProps.v ===== *)
(** The contents of files in archivemount: what is read is what is in the archive, a write
    to a file of the archive is lost, and what truncation keeps. *)

From S2P Require Import Prelude.
From S2P Require Import CString.
From S2P Require Import Archive.
From S2P Require Import ArchiveTree.
From S2P Require Import ArchiveLinks.
From S2P Require Import ArchiveInsert.
From S2P Require Import ArchiveFS.
From S2P Require Import ArchiveSpec.
From S2P Require Import ArchiveRefine.
From S2P Require Import ArchiveCreate.
From S2P Require Import ArchiveMount.
From S2P Require Import ArchiveProps.
From S2P Require Import ArchiveData.

Section DataProps.
Context {entry : Type} {lib : Libarchive entry} (w : os).
Implicit Types (s : fs entry) (v : view entry) (m : member entry) (e : entry) (st : stored entry).

(** A part of a file. *)
Definition part (size offset : Z) (data : bytes) : bytes := take (Z.to_nat size) (drop (Z.to_nat offset) data).

(** libarchive reads the bytes [data] of a member. *)
Definition holds st (data : bytes) : Prop := forall pos size, 0 <= pos -> 0 <= size ->
  archive_read_data st pos size = (Z.of_nat (length (part size pos data)), part size pos data).

(** ** Reading from the archive *)

Lemma archive_no_error z : 0 <= z -> archive_error z = false.
Proof. unfold archive_error, ARCHIVE_FATAL, ARCHIVE_WARN, ARCHIVE_RETRY. lia. Qed.

Lemma length_part size offset (data : bytes) : 0 <= size -> 0 <= offset ->
  Z.of_nat (length (part size offset data)) = Z.max 0 (Z.min size (Z.of_nat (length data) - offset)).
Proof. intros H1 H2. unfold part. rewrite length_take, length_drop. lia. Qed.

Lemma skip_fuel_enough offset : 0 <= offset -> offset <= MAXBUF * (Z.of_nat (skip_fuel offset) - 1).
Proof. unfold skip_fuel, MAXBUF. intros H. pose proof (Z.div_mod offset 4096). pose proof (Z.mod_pos_bound offset 4096). lia. Qed.

Lemma skip_offset_holds st data fuel : forall pos offset ret,
  holds st data -> 0 <= pos -> offset <= MAXBUF * (Z.of_nat fuel - 1) -> 0 <= offset ->
  exists pos' ret', skip_offset fuel st pos offset ret = (pos', 0, ret') /\ 0 <= pos' /\
    (pos' = pos + offset \/ pos' <= pos + offset /\ Z.of_nat (length data) <= pos').
Proof.
  induction fuel as [|fuel IH]; intros pos offset ret Hh Hp Hf Ho; [unfold MAXBUF in *; lia |]. cbn [skip_offset]. destruct (Z.ltb_spec 0 offset) as [Hlt|].
  2:{ exists pos, ret. assert (offset = 0) as -> by lia. split_and!; [done | done | left; lia]. }
  set (skip := if MAXBUF <? offset then MAXBUF else offset). assert (0 < skip <= offset /\ (skip = offset \/ skip = MAXBUF) /\ skip <= 4096) as (Hs & Hs' & Hmax).
  { unfold skip, MAXBUF in *. destruct (Z.ltb_spec 4096 offset); lia. }
  rewrite Hh by lia. pose proof (length_part skip pos data) as El. cbv zeta.
  rewrite to_i32_id by lia. rewrite archive_no_error by lia.
  destruct (IH (pos + Z.max 0 (Z.of_nat (length (part skip pos data)))) (offset - skip) (Z.of_nat (length (part skip pos data))) Hh)
    as (pos' & ret' & -> & Hp' & Hend); [lia | unfold MAXBUF in *; lia | lia |].
  exists pos', ret'. split_and!; [done | done |]. lia.
Qed.

Lemma part_same size pos offset data : 0 <= offset -> pos <= offset -> Z.of_nat (length data) <= pos ->
  part size pos data = part size offset data.
Proof. intros H1 H2 H3. unfold part. rewrite !drop_ge by lia. done. Qed.

Lemma read_other (realpath : bytes) members size offset ret buf :
  Forall (fun st => archive_entry_pathname (header_of st) <> realpath) members ->
  read_member realpath members size offset ret buf = (ret, buf).
Proof.
  induction 1 as [|st members Hne _ IH]; [done |]. cbn [read_member].
  destruct (Z.eqb_spec (strcmp realpath (archive_entry_pathname (header_of st))) 0) as [E%strcmp_eq|]; [congruence | exact IH].
Qed.

Lemma read_other_app (realpath : bytes) l members size offset ret buf :
  Forall (fun st => archive_entry_pathname (header_of st) <> realpath) l ->
  read_member realpath (l ++ members) size offset ret buf = read_member realpath members size offset ret buf.
Proof.
  induction 1 as [|st l Hne _ IH]; [done |]. cbn [read_member app].
  destruct (Z.eqb_spec (strcmp realpath (archive_entry_pathname (header_of st))) 0) as [E%strcmp_eq|]; [congruence | exact IH].
Qed.

(** The only member of that name. *)
Lemma read_member_holds l1 st l2 data size offset buf :
  let path := archive_entry_pathname (header_of st) in
  Forall (fun st => archive_entry_pathname (header_of st) <> path) l1 ->
  Forall (fun st => archive_entry_pathname (header_of st) <> path) l2 ->
  holds st data -> 0 <= size < 2 ^ 31 -> 0 <= offset ->
  let d := part size offset data in read_member path (l1 ++ st :: l2) size offset (-1) buf = (Z.of_nat (length d), over d buf).
Proof.
  intros path H1 H2 Hh Hs Ho d. rewrite read_other_app by done. cbn [read_member]. unfold path. rewrite strcmp_refl. cbn [Z.eqb].
  destruct (skip_offset_holds st data (skip_fuel offset) 0 offset (-1) Hh) as (pos & ret & -> & Hp & Hend); [lia | apply skip_fuel_enough; lia | lia |].
  cbn [negb Z.eqb]. rewrite Hh by lia. assert (part size pos data = d) as ->.
  { unfold d. destruct Hend as [->|[? ?]]; [done |]. apply part_same; lia. }
  pose proof (length_part size offset data) as El. fold d in El. cbv zeta. rewrite to_i32_id by lia.
  rewrite archive_no_error by lia. by apply read_other.
Qed.

(** ** The names of the headers *)

(** A name that is there is not that of a header that comes after. *)
Lemma regular_new es : forall v nm m e,
  regular es v -> lookup v nm = Some m -> e ∈ es -> skipped e = false -> m_name (member_of e) <> nm.
Proof.
  induction es as [|e' es IH]; intros v nm m e Hr Hl He Hsk; [by apply not_elem_of_nil in He |]. cbn [regular] in Hr.
  destruct (skipped e') eqn:Esk.
  - apply elem_of_cons in He as [->|He]; [congruence | by eapply IH].
  - destruct Hr as (_ & Hnone & _ & Hr). assert (m_name (member_of e') <> nm) as Hne by (intros E; by rewrite E, Hl in Hnone).
    apply elem_of_cons in He as [->|He]; [done |]. eapply IH; [exact Hr | by rewrite lookup_add_ne | done | done].
Qed.

Lemma regular_after es : forall v es1 e es2 e',
  regular es v -> es = es1 ++ e :: es2 -> skipped e = false -> e' ∈ es2 -> skipped e' = false -> m_name (member_of e') <> m_name (member_of e).
Proof.
  induction es as [|e0 es IH]; intros v es1 e es2 e' Hr E Hsk He' Hsk'; [by destruct es1 |]. cbn [regular] in Hr.
  destruct es1 as [|e1 es1]; injection E as <- ->.
  - rewrite Hsk in Hr. destruct Hr as (Hc & Hnone & _ & Hr). eapply regular_new; [exact Hr | | done | done].
    apply lookup_add; [by eapply creatable_not_root | done].
  - destruct (skipped e0); [by eapply IH | destruct Hr as (_ & _ & _ & Hr); by eapply IH].
Qed.

(** The pathname of a header that is not skipped is that of no other one. *)
Lemma regular_pathnames es v es1 e es2 :
  regular es v -> es = es1 ++ e :: es2 -> skipped e = false ->
  Forall (fun e' => archive_entry_pathname e' <> archive_entry_pathname e) es1 /\
  Forall (fun e' => archive_entry_pathname e' <> archive_entry_pathname e) es2.
Proof.
  intros Hr E Hsk. assert (forall e', archive_entry_pathname e' = archive_entry_pathname e -> skipped e' = false /\
    m_name (member_of e') = m_name (member_of e)) as Hsame by (intros e' Ep; unfold skipped in *; cbn; by rewrite Ep).
  split; apply Forall_forall; intros e' He' Ep; destruct (Hsame e' Ep) as [Hsk' En].
  - apply list_elem_of_split in He' as (k1 & k2 & ->). rewrite <- app_assoc in E. cbn [app] in E.
    eapply (regular_after es v k1 e' (k2 ++ e :: es2) e); [done | done | done | | done | done]. apply elem_of_app. right. by left.
  - eapply (regular_after es v es1 e es2 e'); done.
Qed.

(** C23. What is read from a file is what the archive holds: after the mount of
    an archive whose headers name new files in directories that came before
    them, none of them named like the one it is in, ar_read of a member that is
    neither a link nor skipped gives the bytes asked for, of a number that an
    int holds, up to the end of the member, through buffers of MAXBUF bytes that
    are thrown away. *)
Theorem archive_read (archive : list (stored entry)) f ast wr st data fuel size offset buf :
  open_error f = None -> fstat f = inl ast -> headers f = map header_of archive -> regular (headers f) (empty_view w f ast wr) ->
  st ∈ archive -> skipped (header_of st) = false -> archive_entry_hardlink (header_of st) = None ->
  archive_entry_symlink (header_of st) = None -> holds st data -> 0 <= size < 2 ^ 31 -> 0 <= offset ->
  runs (_ ← build_tree w f; ar_read w archive (S fuel) (node_name (archive_entry_pathname (header_of st))) size offset buf) (initial wr)
    (fun r s' => r = (Z.of_nat (length (part size offset data)), over (part size offset data) buf) /\ shows s' (archive_view w f ast wr)).
Proof.
  intros Ho Hf Eh Hr Hst Hsk Hl1 Hl2 Hh Hs Hoff. apply runs_bind. eapply runs_mono; [by eapply runs_build_tree |]. intros z s [-> [ns Hsh]].
  assert (header_of st ∈ headers f) as Hin by (rewrite Eh; by apply list_elem_of_fmap_2).
  pose proof (regular_members _ _ (header_of st) Hr Hin Hsk) as El. change (lookup (archive_view w f ast wr) (m_name (member_of (header_of st))) = Some (member_of (header_of st))) in El.
  cbn [ar_read]. apply runs_bind. eapply runs_find; [exact Hsh |]. change (node_name _) with (m_name (member_of (header_of st))).
  intros [x|] Hx; cbn [finds] in Hx; [| by destruct Hx as [Hx _]; rewrite Hx in El]. destruct Hx as (_ & n & Hn & _ & El'). rewrite El in El'.
  injection El' as Ename Eloc Eren Eentry Emod. apply runs_bind. eapply runs_node_at; [exact Hn |]. rewrite <- Eentry, Hl1, Hl2, <- Emod.
  apply list_elem_of_split in Hst as (l1 & l2 & ->). rewrite map_app in Eh. cbn [map] in Eh.
  destruct (regular_pathnames _ _ _ _ _ Hr Eh Hsk) as [H1 H2]. apply runs_ret. split; [| by exists ns].
  apply (read_member_holds l1 st l2 data); [by apply (List.Forall_map header_of) in H1 | by apply (List.Forall_map header_of) in H2 | done | done | done].
Qed.

(** ** Writing *)

Definition traced (tr : list syscall) v : view entry := View (v_root v) (v_members v) (v_writeable v) (v_modified v) (v_trace v ++ tr).

Lemma traced_more tr1 tr2 v : traced tr2 (traced tr1 v) = traced (tr1 ++ tr2) v.
Proof. unfold traced. cbn. by rewrite <- app_assoc. Qed.

Lemma traced_call c v : after_call c v = traced [c] v.
Proof. done. Qed.

Lemma runs_call_traced c s ns v (Q : nat -> fs entry -> Prop) :
  shown s ns v -> (forall s', shown s' ns (traced [c] v) -> nodes s' = nodes s -> root s' = root s -> Q (length (v_trace v)) s') -> runs (call c) s Q.
Proof. intros Hs HQ. eapply runs_syscall; [exact Hs |]. intros s' Hs' En Er. by apply HQ. Qed.

Lemma runs_undo_temp fh loc s ns v (Q : unit -> fs entry -> Prop) :
  shown s ns v -> (forall s', shown s' ns (traced [Close fh; Unlink loc] v) -> Q tt s') -> runs (undo_temp fh loc) s Q.
Proof.
  intros Hs HQ. unfold undo_temp. apply runs_bind. eapply runs_call_traced; [exact Hs |]. intros s1 Hs1 _ _.
  apply runs_bind. eapply runs_call_traced; [exact Hs1 |]. intros s2 Hs2 _ _. apply runs_ret, HQ. by rewrite traced_more in Hs2.
Qed.

Lemma runs_errno_after c err s ns v (Q : Z -> fs entry -> Prop) :
  shown s ns v -> (forall z s', shown s' ns (traced [c] v) -> Q z s') -> runs (errno_after w c err) s Q.
Proof.
  intros Hs HQ. unfold errno_after, call_err. apply runs_bind, runs_bind. eapply runs_call_traced; [exact Hs |]. intros s1 Hs1 _ _.
  apply runs_ret, runs_ret. by apply HQ.
Qed.

Lemma runs_sys_open path flags mode s ns v (Q : Z + Z -> fs entry -> Prop) :
  shown s ns v -> (forall s', shown s' ns (traced [Open path flags mode] v) -> nodes s' = nodes s -> root s' = root s -> Q (os_open w (length (v_trace v))) s') ->
  runs (sys_open w path flags mode) s Q.
Proof. intros Hs HQ. unfold sys_open. apply runs_bind. eapply runs_call_traced; [exact Hs |]. intros s1 Hs1 En Er. by apply runs_ret, HQ. Qed.

Lemma shown_node s ns v x n path m :
  shown s ns v -> finds s ns v path (Some x) -> nodes s !! x = Some n -> lookup v path = Some m -> data n = m.
Proof. intros Hs (_ & n' & Hn' & _ & El) Hn Hm. congruence. Qed.

(** Reading a member that is neither a link nor changed. *)
Lemma runs_read_stored archive s ns v path m fuel size offset buf (Q : Z * bytes -> fs entry -> Prop) :
  shown s ns v -> lookup v path = Some m -> archive_entry_hardlink (m_entry m) = None -> archive_entry_symlink (m_entry m) = None ->
  m_modified m = false -> Q (read_member (archive_entry_pathname (m_entry m)) archive size offset (-1) buf) s ->
  runs (ar_read w archive (S fuel) path size offset buf) s Q.
Proof.
  intros Hs El Hl1 Hl2 Hm HQ. cbn [ar_read]. apply runs_bind. eapply runs_find; [exact Hs |]. intros [x|] Hx; cbn [finds] in Hx.
  - destruct Hx as (_ & n & Hn & _ & El'). rewrite El in El'. injection El' as ->. apply runs_bind. eapply runs_node_at; [exact Hn |].
    cbn [data m_entry m_modified] in *. rewrite Hl1, Hl2, Hm. by apply runs_ret.
  - destruct Hx as [Hx _]. congruence.
Qed.

Context {wok : OsOk w}.

(** System calls that write nothing to a file. *)
Definition harmless (c : syscall) : Prop := match c with Write _ _ | Pwrite _ _ _ | Truncate _ _ => False | _ => True end.

(** C36. A write to a file of the archive that is not empty is lost: whatever
    the system calls answer, nothing is written and no member changes; if the
    temporary file is made, the answer is the number of bytes that were read
    from the archive first, as if so much had been written. *)
Theorem archived_write_lost archive s v path m buf offset junk fuel :
  shows s v -> lookup v path = Some m -> v_writeable v = true -> m_location m = None -> m_modified m = false ->
  S_ISLNK (archive_entry_mode (m_entry m)) = false -> archive_entry_hardlink (m_entry m) = None -> archive_entry_symlink (m_entry m) = None ->
  let size := archive_entry_size (m_entry m) in
  let first := (read_member (archive_entry_pathname (m_entry m)) archive (block_length size) 0 (-1) junk).1 in
  size <> 0 -> first <> 0 ->
  runs (ar_write w archive junk (S fuel) path buf offset) s (fun z s' =>
    exists tr, shows s' (traced tr v) /\ Forall harmless tr /\
      (forall loc fh, os_mkstemp w (length (v_trace v)) = inl loc -> os_open w (length (v_trace v) + 3) = inl fh -> z = first)).
Proof.
  intros [ns Hs] El Hw Hloc Hm Hl0 Hl1 Hl2 size first Hsize Hfirst. cbn [ar_write]. apply runs_bind, runs_get.
  rewrite (s_writeable _ _ _ Hs), Hw. cbn [negb]. apply runs_bind. eapply runs_find; [exact Hs |]. intros [x|] Hx; cbn [finds] in Hx; [| by destruct Hx as [Hx _]; rewrite Hx in El].
  destruct Hx as (_ & n & Hn & _ & El'). rewrite El in El'. injection El' as ->. cbn [data m_entry m_location m_modified] in *.
  apply runs_bind. eapply runs_node_at; [exact Hn |]. rewrite Hl0, Hl1, Hl2. apply runs_bind. unfold open_temp. apply runs_bind.
  eapply runs_node_at; [exact Hn |]. rewrite Hloc. apply runs_bind. eapply runs_get_temp_file_name; [exact Hs | |].
  - intros err s1 E Hs1. pose proof (ok_mkstemp w (length (v_trace v)) err E). replace (- err <? 0) with true by lia. apply runs_ret, runs_ret.
    rewrite traced_call in Hs1. eexists. split_and!; [by exists ns | by repeat constructor | intros loc fh E'; congruence].
  - intros loc s1 E Hs1 _ _. rewrite !traced_call, !traced_more in Hs1. apply runs_bind. eapply runs_sys_open; [exact Hs1 |]. intros s2 Hs2 _ _.
    rewrite traced_more in Hs2. cbn [traced v_trace]. rewrite length_app. cbn [length].
    destruct (os_open w _) as [fh|err] eqn:Eo.
    + apply runs_bind. cbn [skip_fuel write_copy]. unfold skip_fuel. cbn [write_copy]. fold size. rewrite (proj2 (Z.eqb_neq size 0)) by done. cbv zeta. apply runs_bind.
      eapply runs_read_stored; [exact Hs2 | exact El | done | done | done |]. cbn [data m_entry]. fold first. rewrite (proj2 (Z.eqb_neq first 0)) by done. cbn [negb].
      apply runs_bind. eapply runs_undo_temp; [exact Hs2 |]. intros s3 Hs3. rewrite traced_more in Hs3. apply runs_ret, runs_ret, runs_ret.
      eexists. split_and!; [by exists ns | by repeat constructor | done].
    + apply runs_bind. eapply runs_errno_after; [exact Hs2 |]. intros err' s3 Hs3. rewrite traced_more in Hs3. apply runs_ret, runs_ret.
      eexists. split_and!; [by exists ns | by repeat constructor | intros loc' fh _ Eo'; congruence].
Qed.

(** ** Truncation *)

Definition located (loc : bytes) m : member entry := Member (m_name m) (Some loc) (m_renamed m) (m_entry m) true.

(** The end of a callback that has filled a temporary file. *)
Definition spec_record (path loc : bytes) (fh ret : Z) m v : Z * view entry :=
  let v1 := alter_member path (located loc) v in
  match os_lstat w (length (v_trace v)) with
  | inr err => (- err, traced [Close fh; Unlink loc] (traced [Lstat loc] v1))
  | inl st =>
      let '(e, v2) := spec_names w st (with_stat st (m_entry m)) (traced [Lstat loc] v1) in
      (ret, modified (traced [Close fh] (alter_member path (set_member_entry e) v2)))
  end.

Lemma runs_names_shown (st : stat) e s ns v (Q : entry -> fs entry -> Prop) :
  shown s ns v -> (forall s', shown s' ns (spec_names w st e v).2 -> nodes s' = nodes s -> root s' = root s -> Q (spec_names w st e v).1 s') ->
  runs (set_names w st e) s Q.
Proof.
  intros Hs HQ. unfold set_names. apply runs_bind. eapply runs_syscall; [exact Hs |]. intros s1 Hs1 En1 Er1. cbv zeta. apply runs_bind.
  eapply runs_syscall; [exact Hs1 |]. intros s2 Hs2 En2 Er2. apply runs_ret, HQ; [done | congruence | congruence].
Qed.

Lemma runs_record_temp s ns v x n loc fh ret :
  shown s ns v -> x ∈ root s :: ns -> nodes s !! x = Some n ->
  runs (record_temp w x loc fh ret) s (fun z s' => let r := spec_record (name n) loc fh ret (data n) v in z = r.1 /\ shown s' ns r.2).
Proof.
  intros Hs Hx Hn. unfold record_temp, spec_record. apply runs_bind. eapply runs_update_node; [exact Hn |].
  pose proof (shown_change s ns v x n (set_location loc) (located loc) Hs Hx Hn eq_refl eq_refl eq_refl eq_refl eq_refl eq_refl) as Hs0.
  set (s0 := set_nodes _ s) in *. assert (nodes s0 !! x = Some (set_location loc n)) as Hn0 by apply lookup_insert_eq.
  apply runs_bind. unfold update_entry_stat. apply runs_bind. eapply runs_node_at; [exact Hn0 |]. cbn [set_location location].
  apply runs_bind. eapply runs_syscall; [exact Hs0 |]. intros s1 Hs1 En1 Er1. change (v_trace (alter_member _ _ v)) with (v_trace v).
  destruct (os_lstat w _) as [st|err] eqn:E.
  - cbv zeta. apply runs_bind. change (archive_entry_set_rdevminor _ _) with (with_stat st (nentry n)).
    eapply runs_names_shown; [exact Hs1 |]. intros s2 Hs2 En2 Er2. rewrite traced_call in *. cbn [data m_entry].
    destruct (spec_names w st (with_stat st (nentry n)) _) as [e v2]. cbn [fst snd] in *.
    assert (nodes s2 !! x = Some (set_location loc n)) as Hn2 by congruence.
    apply runs_bind. eapply runs_update_node; [exact Hn2 |]. apply runs_ret. change (0 <? 0) with false. cbv iota. apply runs_bind.
    assert (x ∈ root s2 :: ns) as Hx2 by (rewrite Er2, Er1; exact Hx).
    pose proof (shown_change s2 ns v2 x (set_location loc n) (set_entry e) (set_member_entry e) Hs2 Hx2 Hn2 eq_refl eq_refl eq_refl eq_refl eq_refl eq_refl) as Hs3.
    eapply runs_call_traced; [exact Hs3 |]. intros s4 Hs4 _ _. unfold changed. apply runs_bind, runs_modify, runs_ret. split; [done |]. by apply shown_modified.
  - pose proof (ok_lstat w (length (v_trace v)) err E). apply runs_ret. replace (- err <? 0) with true by lia. apply runs_bind.
    eapply runs_undo_temp; [exact Hs1 |]. intros s2 Hs2. by apply runs_ret.
Qed.

(** The copying loop: blocks that begin like the rest of the file, as far as it is kept. *)
Lemma runs_truncate_copy l1 st l2 data path m size loc fh links ns v fuel : forall s tr tmpsize tmpoffset tmpbuf,
  archive_entry_pathname (m_entry m) = archive_entry_pathname (header_of st) ->
  Forall (fun st' => archive_entry_pathname (header_of st') <> archive_entry_pathname (header_of st)) l1 ->
  Forall (fun st' => archive_entry_pathname (header_of st') <> archive_entry_pathname (header_of st)) l2 ->
  holds st data -> lookup v path = Some m -> archive_entry_hardlink (m_entry m) = None -> archive_entry_symlink (m_entry m) = None ->
  m_modified m = false -> (forall i err, os_write w i <> inr err) ->
  shown s ns (traced tr v) -> 0 <= tmpsize -> 0 <= tmpoffset -> tmpoffset + tmpsize = Z.of_nat (length data) ->
  Z.of_nat (length data) < 2 ^ 31 -> tmpsize <= MAXBUF * (Z.of_nat fuel - 1) ->
  runs (truncate_copy w (l1 ++ st :: l2) (S links) fuel path size loc fh tmpsize tmpoffset tmpbuf) s (fun o s' =>
    o = None /\ nodes s' = nodes s /\ root s' = root s /\ exists blocks, shown s' ns (traced (tr ++ map (Write fh) blocks) v) /\
      take (Z.to_nat (size - tmpoffset)) (concat blocks) = part (size - tmpoffset) tmpoffset data).
Proof.
  induction fuel as [|fuel IH]; intros s tr tmpsize tmpoffset tmpbuf Ep H1 H2 Hh El Hl1 Hl2 Hm Hw Hs Hsz Hoff Hsum Hmax Hf;
    [unfold MAXBUF in *; lia |]. cbn [truncate_copy]. destruct (Z.eqb_spec tmpsize 0) as [->|Hne].
  { apply runs_ret. split_and!; [done.. |]. exists []. cbn [map concat]. rewrite app_nil_r, take_nil. split; [done |]. unfold part. by rewrite drop_ge, take_nil by lia. }
  set (len := block_length tmpsize). assert (0 < len <= tmpsize /\ (len = tmpsize \/ len = MAXBUF)) as [Hlen Hlen'].
  { unfold len, block_length, MAXBUF in *. destruct (Z.ltb_spec 4096 tmpsize); lia. }
  apply runs_bind. eapply runs_read_stored; [exact Hs | exact El | done | done | done |]. rewrite Ep.
  rewrite (read_member_holds l1 st l2 data) by (done || (unfold MAXBUF in *; lia)). cbn [fst snd]. pose proof (length_part len tmpoffset data) as Elen.
  set (d := part len tmpoffset data) in *. assert (Z.of_nat (length d) = len) as Ed by lia. replace (Z.of_nat (length d) <? 0) with false by lia.
  apply runs_bind. unfold write_block. apply runs_bind. eapply runs_call_traced; [exact Hs |]. intros s1 Hs1 En1 Er1. rewrite traced_more in Hs1. apply runs_ret.
  destruct (os_write w _) as [z|err] eqn:Ew; [| by apply Hw in Ew]. apply runs_bind, runs_assert.
  { unfold in_i32. apply in_range_spec. unfold MAXBUF in *. lia. }
  assert (take (Z.to_nat (Z.of_nat (length d))) (over d tmpbuf) = d) as Etake by (unfold over; by rewrite Nat2Z.id, take_app_length). rewrite Etake in Hs1.
  assert (drop (Z.to_nat tmpoffset) data = d ++ drop (Z.to_nat (tmpoffset + len)) data) as Esplit.
  { unfold d, part. rewrite Z2Nat.inj_add by lia. rewrite <- drop_drop. by rewrite take_drop. }
  destruct (Z.leb_spec size (tmpoffset + len)) as [Hle|Hgt].
  - apply runs_ret. split_and!; [done.. |]. exists [d]. cbn [map concat]. rewrite app_nil_r. split; [done |]. unfold part. rewrite Esplit.
    by rewrite take_app_le by lia.
  - eapply runs_mono; [eapply (IH s1 (tr ++ [Write fh d]) (tmpsize - len) (tmpoffset + len)); try done; [lia | lia | lia | unfold MAXBUF in *; lia] |].
    intros o s2 (-> & En2 & Er2 & blocks & Hs2 & Eb). split_and!; [done | congruence | congruence |]. exists (d :: blocks). cbn [map concat]. rewrite <- app_assoc in Hs2. split; [exact Hs2 |].
    unfold part in *. rewrite Esplit. replace (Z.to_nat (size - tmpoffset)) with (length d + Z.to_nat (size - (tmpoffset + len)))%nat by lia.
    rewrite !take_app_add. f_equal. exact Eb.
Qed.

Lemma find_alter (path : bytes) (f : member entry -> member entry) (ms : list (member entry)) :
  (forall m, m_name (f m) = m_name m) ->
  find_member path (map (fun m => if decide (m_name m = path) then f m else m) ms) = f <$> find_member path ms.
Proof.
  intros Hf. unfold find_member. induction ms as [|m ms IH]; [done |]. cbn [map list_find].
  destruct (decide (m_name m = path)) as [E|Hne].
  - by rewrite decide_True by (by rewrite Hf).
  - destruct (list_find _ (map _ ms)) as [[i k]|], (list_find _ ms) as [[j k']|]; by simplify_option_eq.
Qed.

Lemma lookup_alter_member path f v :
  m_name (v_root v) = [SLASH] -> (forall m, m_name (f m) = m_name m) -> lookup (alter_member path f v) path = f <$> lookup v path.
Proof.
  intros Hr Hf. unfold lookup. case_decide as Hp.
  - subst path. cbn [alter_member v_root]. by rewrite decide_True.
  - by apply find_alter.
Qed.

(** Nothing goes wrong with temporary files. *)
Record untroubled : Prop := Untroubled {
  u_call i : os_call w i = None; u_lstat i : exists attrs, os_lstat w i = inl attrs; u_write i err : os_write w i <> inr err }.

Lemma spec_record_ok path loc fh ret m v :
  untroubled -> m_name (v_root v) = [SLASH] -> lookup v path = Some m ->
  exists who v', spec_record path loc fh ret m v = (ret, v') /\ v_trace v' = v_trace v ++ [Lstat loc] ++ who ++ [Close fh] /\
    exists m', lookup v' path = Some m' /\ m_location m' = Some loc /\ m_modified m' = true.
Proof.
  intros Hu Hr El. unfold spec_record. destruct (u_lstat Hu (length (v_trace v))) as [attrs ->].
  destruct (spec_names w attrs _ _) as [e v2] eqn:Ev. eexists [Getpwuid (st_uid attrs); Getgrgid (st_gid attrs)], _. split; [reflexivity |].
  unfold spec_names in Ev. injection Ev as _ <-. split.
  - cbn. by rewrite <- !app_assoc.
  - pose proof (lookup_alter_member path (located loc) v Hr (fun _ => eq_refl)) as E1. rewrite El in E1.
    set (v1 := alter_member path (located loc) v) in *.
    pose proof (lookup_alter_member path (set_member_entry e) v1) as E2. rewrite E1 in E2. eexists. split; [apply E2 | done].
    + unfold v1. cbn. by case_decide.
    + done.
Qed.

(** Truncation of a file of the archive keeps its beginning: if nothing goes wrong, what is
    written to the temporary file is, in the first [size] bytes, what the member holds, before
    the file is truncated to [size]; then the temporary file belongs to the member. *)
Theorem truncate_keeps l1 st l2 held s v path m size junk fuel loc fh :
  untroubled -> os_mkstemp w (length (v_trace v)) = inl loc -> os_open w (length (v_trace v) + 3) = inl fh ->
  archive_entry_pathname (m_entry m) = archive_entry_pathname (header_of st) ->
  Forall (fun st' => archive_entry_pathname (header_of st') <> archive_entry_pathname (header_of st)) l1 ->
  Forall (fun st' => archive_entry_pathname (header_of st') <> archive_entry_pathname (header_of st)) l2 ->
  holds st held -> archive_entry_size (m_entry m) = Z.of_nat (length held) -> Z.of_nat (length held) < 2 ^ 31 ->
  shows s v -> lookup v path = Some m -> v_writeable v = true -> m_location m = None -> m_modified m = false ->
  archive_entry_hardlink (m_entry m) = None -> archive_entry_symlink (m_entry m) = None -> 0 <= size ->
  runs (ar_truncate w (l1 ++ st :: l2) junk (S fuel) path size) s (fun z s' => z = 0 /\ exists blocks who v',
    shows s' v' /\ take (Z.to_nat size) (concat blocks) = take (Z.to_nat size) held /\
    v_trace v' = v_trace v ++
      [Mkstemp (temp_template w path); Close 0; Unlink loc; Open loc (Z.lor O_WRONLY (Z.lor O_CREAT O_EXCL)) (archive_entry_mode (m_entry m))] ++
      map (Write fh) blocks ++ [Truncate loc size; Lstat loc] ++ who ++ [Close fh] /\
    exists m', lookup v' path = Some m' /\ m_location m' = Some loc /\ m_modified m' = true).
Proof.
  intros Hu Emk Eopen Ep H1 H2 Hh Esz Hmax [ns Hs] El Hw Hloc Hm Hl1 Hl2 Hsize. cbn [ar_truncate]. apply runs_bind, runs_get.
  rewrite (s_writeable _ _ _ Hs), Hw. cbn [negb]. apply runs_bind. eapply runs_find; [exact Hs |].
  intros [x|] Hx; cbn [finds] in Hx; [| by destruct Hx as [Hx _]; rewrite Hx in El].
  destruct Hx as (Hin & n & Hn & En & El'). pose proof El' as Em. rewrite El in Em. injection Em as ->. cbn [data m_entry m_location m_modified] in *.
  apply runs_bind. eapply runs_node_at; [exact Hn |]. rewrite Hl1, Hl2. apply runs_bind. unfold open_temp. apply runs_bind.
  eapply runs_node_at; [exact Hn |]. rewrite Hloc. apply runs_bind. eapply runs_get_temp_file_name; [exact Hs | intros err s1 E; congruence |].
  intros loc' s1 E Hs1 En1 Er1. assert (loc' = loc) as -> by congruence. rewrite !traced_call, !traced_more in Hs1. apply runs_bind.
  eapply runs_sys_open; [exact Hs1 |]. intros s2 Hs2 En2 Er2. rewrite traced_more in Hs2. cbn [traced v_trace]. rewrite length_app. cbn [length].
  change (length ([Mkstemp _] ++ _ ++ _)) with 3%nat. rewrite Eopen. apply runs_bind. rewrite Esz.
  eapply runs_mono; [eapply (runs_truncate_copy l1 st l2 held path (data n)); try done; try lia; [by intros i err; apply (u_write Hu) | apply skip_fuel_enough; lia] |].
  intros o s3 (-> & En3 & Er3 & blocks & Hs3 & Eb). apply runs_ret. unfold call_err. apply runs_bind, runs_bind.
  eapply runs_call_traced; [exact Hs3 |]. intros s4 Hs4 En4 Er4. rewrite traced_more in Hs4. apply runs_ret. rewrite (u_call Hu).
  assert (nodes s4 !! x = Some n) as Hn4 by congruence. assert (x ∈ root s4 :: ns) as Hin4 by (rewrite Er4, Er3, Er2, Er1; exact Hin).
  eapply runs_mono; [by eapply runs_record_temp |]. intros z s5 [-> Hs5]. rewrite En in Hs5 |- *.
  set (tr := _ ++ [Truncate loc size]) in *.
  destruct (spec_record_ok path loc fh 0 (data n) (traced tr v) Hu (shown_root _ _ _ Hs) El) as (who & v' & E' & Et & m' & Hm').
  rewrite E' in Hs5 |- *. split; [done |]. exists blocks, who, v'. split_and!; [by exists ns | | | by exists m'].
  - unfold part in Eb. by rewrite Z.sub_0_r in Eb.
  - rewrite Et. unfold tr, traced. cbn [v_trace]. by rewrite <- !app_assoc.
Qed.
End DataProps.

(** * Witnesses *)

Import Header.

(** A member as libarchive reads it, and the archive [small] with contents. *)
Definition reader (data : bytes) (pos size : Z) : Z * bytes := (Z.of_nat (length (part size pos data)), part size pos data).

Definition small_stored : list (stored header) :=
  [Stored (directory (B "./") 1) (reader []); Stored (directory (B "./d/") 2) (reader []);
   Stored (file (B "./d/a") 3 5) (reader (B "hello")); Stored (file (B "b") 4 7) (reader (B "goodbye"))].

Definition stored_a : stored header := Stored (file (B "./d/a") 3 5) (reader (B "hello")).
Definition small_view : view header := archive_view sample_os (tar small) archive_stat true.

Lemma archive_read_witness :
  runs (_ ← build_tree sample_os (tar small); ar_read sample_os small_stored 1 (B "/d/a") 3 1 (B "....")) (initial true)
    (fun r _ => r = (3, B "ell.")).
Proof.
  assert (B "/d/a" = node_name (archive_entry_pathname (header_of stored_a))) as -> by (vm_compute; reflexivity).
  eapply runs_mono; [apply (archive_read sample_os small_stored (tar small) archive_stat true stored_a (B "hello") 0 3 1 (B "....")) |].
  - reflexivity.
  - reflexivity.
  - reflexivity.
  - exact small_regular.
  - right. right. left.
  - reflexivity.
  - reflexivity.
  - reflexivity.
  - by intros pos size _ _.
  - lia.
  - lia.
  - intros r s' [-> _]. reflexivity.
Defined.

Lemma archived_write_lost_witness :
  runs (_ ← build_tree sample_os (tar small); ar_write sample_os small_stored [] 1 (B "/b") (B "new contents") 0) (initial true)
    (fun z s' => z = 7 /\ exists v, shows s' v /\ v_members v = v_members small_view).
Proof.
  apply runs_bind. eapply runs_mono; [apply (runs_build_tree sample_os (tar small) archive_stat true); [reflexivity | reflexivity | exact small_regular] |].
  intros z s [_ Hs]. eapply runs_mono; [apply (archived_write_lost sample_os small_stored s small_view (B "/b") (member_of (file (B "b") 4 7)) _ _ _ _ Hs) |].
  - vm_compute. reflexivity.
  - reflexivity.
  - reflexivity.
  - reflexivity.
  - reflexivity.
  - reflexivity.
  - reflexivity.
  - discriminate.
  - by vm_compute.
  - intros r s' (tr & Hs' & _ & Hr). split; [rewrite (Hr (B "/tmp/t") 5) by reflexivity; reflexivity | by eexists].
Defined.

(** The same system, in which temporary files can be written. *)
Definition calm_os : os :=
  Os (os_mkstemp sample_os) (os_call sample_os) (os_lstat sample_os) (os_name sample_os) (os_open sample_os) (os_pread sample_os)
    (fun _ => inl 5) (os_getuid sample_os) (os_getgid sample_os) (P_tmpdir sample_os).

Lemma calm_untroubled : untroubled calm_os.
Proof. split; [done | by eexists | done]. Qed.

#[export] Instance calm_os_ok : OsOk calm_os.
Proof. by split. Qed.

Lemma truncate_keeps_witness :
  runs (_ ← build_tree calm_os (tar small); ar_truncate calm_os small_stored [] 1 (B "/d/a") 2) (initial true)
    (fun z s' => z = 0 /\ exists blocks v, shows s' v /\ take 2 (concat blocks) = B "he").
Proof.
  apply runs_bind. eapply runs_mono; [apply (runs_build_tree calm_os (tar small) archive_stat true); [reflexivity | reflexivity | exact small_regular] |].
  intros z s [_ Hs].
  eapply runs_mono; [apply (truncate_keeps calm_os (take 2 small_stored) stored_a (drop 3 small_stored) (B "hello") s
    (archive_view calm_os (tar small) archive_stat true) (B "/d/a") (member_of (file (B "./d/a") 3 5)) 2 [] 0 (B "/tmp/t") 5) |].
  - exact calm_untroubled.
  - reflexivity.
  - reflexivity.
  - reflexivity.
  - repeat constructor; discriminate.
  - repeat constructor; discriminate.
  - by intros pos size _ _.
  - reflexivity.
  - by vm_compute.
  - exact Hs.
  - vm_compute. reflexivity.
  - reflexivity.
  - reflexivity.
  - reflexivity.
  - reflexivity.
  - reflexivity.
  - lia.
  - intros r s' (-> & blocks & who & v & Hv & Eb & _). split; [done |]. exists blocks, v. split; [exact Hv | exact Eb].
Defined.
