(* ===== verification/ArchiveSave.v ===== *)
(** other_fs/archivemount-0.5.3/archivemount.c, continued: the new archive that is written
    after unmounting, and [main]. *)

From S2P Require Import Prelude.
From S2P Require Import CString.
From S2P Require Import Archive.
From S2P Require Import ArchiveFS.
From S2P Require Import ArchiveData.

Definition PATH_MAX : Z := 4096.

(** The rest of a header of libarchive: its wide strings. *)
Class Wide (entry wide : Type) := {
  archive_entry_gname_w : entry -> option wide;
  archive_entry_uname_w : entry -> option wide;
  archive_entry_hardlink_w : entry -> option wide;
  archive_entry_symlink_w : entry -> option wide;
  archive_entry_copy_gname_w : wide -> entry -> entry;
  archive_entry_copy_uname_w : wide -> entry -> entry;
  archive_entry_copy_hardlink_w : wide -> entry -> entry;
  archive_entry_copy_symlink_w : wide -> entry -> entry;
  archive_entry_copy_hardlink : bytes -> entry -> entry }.

(** What is written to the new archive. *)
Inductive out (entry : Type) := WHeader (e : entry) | WData (buf : bytes).
Arguments WHeader {entry}. Arguments WData {entry}.

(** The new archive, and the node whose header has been freed. *)
Record saving (entry : Type) := Saving { sv_fs : fs entry; sv_out : list (out entry); sv_freed : option nat }.
Arguments Saving {entry}. Arguments sv_fs {entry}. Arguments sv_out {entry}. Arguments sv_freed {entry}.

Section Search.
Context {entry : Type} {lib : Libarchive entry}.
Implicit Types n : node entry.

(** Both searches visit a node, what is below it, and then its next sibling. *)
Fixpoint search_siblings (hit : node entry -> bool) (below : nat -> M (fs entry) (option nat)) (fuel : nat) (start : option nat)
  : M (fs entry) (option nat) :=
  match fuel with
  | O => hang
  | S fuel =>
      match start with
      | None => mret None
      | Some run =>
          n ← node_at run;
          if hit n then mret (Some run)
          else
            ret ← match child n with Some c => below c | None => mret None end;
            match ret with Some c => mret (Some c) | None => search_siblings hit below fuel (next n) end
      end
  end.

Fixpoint search (hit : node entry -> bool) (depth : nat) (start : nat) : M (fs entry) (option nat) :=
  match depth with
  | O => hang
  | S depth => s ← get; search_siblings hit (search hit depth) (sibling_fuel s) (Some start)
  end.

(** Names get longer on every level. *)
Definition level_fuel (s : fs entry) : nat := S (map_fold (fun _ n k => Nat.max (length (name n)) k) O (nodes s)).

Definition find_modified_node (start : nat) : M (fs entry) (option nat) := s ← get; search nmodified (level_fuel s) start.

(** A path without the slash in front. *)
Definition strip (path : bytes) : bytes := match path with c :: path' => if decide (c = SLASH) then path' else path | [] => [] end.

Definition get_node_for_entry (start : nat) (e : entry) : M (fs entry) (option nat) :=
  s ← get; search (fun n => strcmp (strip (archive_entry_pathname e)) (strip (archive_entry_pathname (nentry n))) =? 0) (level_fuel s) start.
End Search.

Section Save.
Context {entry wide : Type} {lib : Libarchive entry} {wlib : Wide entry wide} (w : os).
Implicit Types n : node entry.

Definition on_fs {A} (m : M (fs entry) A) : M (saving entry) A := fun sv =>
  match m (sv_fs sv) with
  | Ret (x, s) => Ret (x, Saving s (sv_out sv) (sv_freed sv))
  | Exit z => Exit z
  | UB => UB
  | Hang => Hang
  end.

Definition emit (o : out entry) : M (saving entry) unit := modify (fun sv => Saving (sv_fs sv) (sv_out sv ++ [o]) (sv_freed sv)).

(** ** Files that were changed *)

(** The loop that copies a temporary file, until a read returns nothing; the error of a read. *)
Fixpoint copy_data (fuel : nat) (fh offset : Z) : M (saving entry) (option Z) :=
  match fuel with
  | O => hang
  | S fuel =>
      i ← on_fs (call (Pread fh MAXBUF offset));
      match os_pread w i with
      | inr err => mret (Some err)
      | inl [] => mret None
      | inl buf => _ ← emit (WData buf); copy_data fuel fh (offset + Z.of_nat (length buf))
      end
  end.

Definition clear_modified n := Node (parent n) (prev n) (next n) (child n) (name n) (location n) (namechanged n) (nentry n) false.

(** [wentry] as it is left, and whether it has been freed. The descriptor that is closed when
    the file cannot be looked at is 0. *)
Definition write_new_modded_file (fuel : nat) (a : nat) (wentry : entry) : M (saving entry) (entry * bool) :=
  n ← on_fs (node_at a);
  let written (e : entry) : M (saving entry) (entry * bool) := _ ← on_fs (update a clear_modified); mret (e, false) in
  match location n with
  | None => _ ← emit (WHeader wentry); written wentry
  | Some loc =>
      i ← on_fs (call (Lstat loc));
      match os_lstat w i with
      | inr _ => _ ← on_fs (call (Close 0)); mret (wentry, true)
      | inl st =>
          let wentry := archive_entry_copy_stat st wentry in
          opened ← on_fs (sys_open w loc O_RDONLY 0);
          match opened with
          | inr _ => mret (wentry, true)
          | inl fh =>
              _ ← emit (WHeader wentry);
              err ← copy_data fuel fh 0;
              _ ← on_fs (call (Close fh));
              match err with
              | Some _ => mret (wentry, true)
              | None => _ ← on_fs (call (if S_ISDIR (st_mode st) then Rmdir loc else Unlink loc)); written wentry
              end
          end
      end
  end.

(** ** The members of the old archive *)

(** A member of the old archive, with the blocks of [archive_read_data_block]. *)
Record old_member := OldMember { om_header : entry; om_blocks : list bytes }.

Definition copied {A} (o : option A) (f : A -> entry -> entry) (e : entry) : entry := match o with Some x => f x e | None => e end.

(** The new header of a node, for the header that it had. *)
Definition new_header n (nm : bytes) : entry :=
  let e := nentry n in
  archive_entry_set_pathname (if namechanged n then if bool_decide (head nm = Some SLASH) then name n else drop 1 (name n) else nm)
    (copied (archive_entry_uname_w e) archive_entry_copy_uname_w
       (copied (archive_entry_symlink_w e) archive_entry_copy_symlink_w
          (archive_entry_copy_stat (archive_entry_stat e)
             (copied (archive_entry_hardlink_w e) archive_entry_copy_hardlink_w
                (copied (archive_entry_hardlink e) archive_entry_copy_hardlink
                   (copied (archive_entry_gname_w e) archive_entry_copy_gname_w archive_entry_new)))))).

(** The body of the loop over the old archive. A header that [write_new_modded_file] has
    freed is freed again. *)
Definition save_member (fuel : nat) (om : old_member) : M (saving entry) unit :=
  sv ← get;
  found ← on_fs (get_node_for_entry (root (sv_fs sv)) (om_header om));
  match found with
  | None => mret tt
  | Some a =>
      n ← on_fs (node_at a);
      let wentry := new_header n (archive_entry_pathname (om_header om)) in
      if nmodified n then
        r ← write_new_modded_file fuel a wentry; if r.2 : bool then ub else mret tt
      else
        let wentry := archive_entry_copy_stat (archive_entry_stat (nentry n)) wentry in
        _ ← emit (WHeader wentry);
        modify (fun sv => Saving (sv_fs sv) (sv_out sv ++ map WData (om_blocks om)) (sv_freed sv))
  end.

Fixpoint save_members (fuel : nat) (oms : list old_member) : M (saving entry) unit :=
  match oms with [] => mret tt | om :: oms => _ ← save_member fuel om; save_members fuel oms end.

(** The loop over the nodes that are still marked: the header is that of the node. *)
Fixpoint save_new (fuel : nat) (rounds : nat) : M (saving entry) unit :=
  match rounds with
  | O => hang
  | S rounds =>
      sv ← get;
      found ← on_fs (find_modified_node (root (sv_fs sv)));
      match found with
      | None => mret tt
      | Some a =>
          if bool_decide (sv_freed sv = Some a) then ub
          else
            n ← on_fs (node_at a);
            r ← write_new_modded_file fuel a (nentry n);
            _ ← on_fs (update a (set_entry r.1));
            _ ← (if r.2 : bool then modify (fun sv => Saving (sv_fs sv) (sv_out sv) (Some a)) else mret tt);
            save_new fuel rounds
      end
  end.

(** ** The archive *)

Inductive write_format := Cpio | Shar | PaxRestricted | Pax | Ustar.
Inductive write_compression := Gzip | Bzip2 | Uncompressed.

Definition has (format flags : Z) : bool := negb (Z.land format flags =? 0).

Definition compression_of (compression : Z) : write_compression :=
  if compression =? ARCHIVE_COMPRESSION_GZIP then Gzip else if compression =? ARCHIVE_COMPRESSION_BZIP2 then Bzip2 else Uncompressed.

Definition format_of (format : Z) : option write_format :=
  if has format ARCHIVE_FORMAT_CPIO || has format ARCHIVE_FORMAT_CPIO_POSIX then Some Cpio
  else if has format ARCHIVE_FORMAT_SHAR || has format ARCHIVE_FORMAT_SHAR_BASE || has format ARCHIVE_FORMAT_SHAR_DUMP then Some Shar
  else if has format ARCHIVE_FORMAT_TAR_PAX_RESTRICTED then Some PaxRestricted
  else if has format ARCHIVE_FORMAT_TAR_PAX_INTERCHANGE then Some Pax
  else if has format ARCHIVE_FORMAT_TAR_USTAR || has format ARCHIVE_FORMAT_TAR || has format ARCHIVE_FORMAT_TAR_GNUTAR || (format =? 0)
  then Some Ustar else None.

(** The archive file, what libarchive says of it and of the new one. *)
Record save_file := SaveFile {
  sf_archiveFd : Z; sf_open_error : option Z; sf_format : Z; sf_compression : Z; sf_write_error : option Z; sf_members : list old_member }.

Definition ENOTSUP : Z := 95.

Definition save (fuel rounds : nat) (archiveFile : bytes) (f : save_file) : M (saving entry) (Z * option (write_format * write_compression)) :=
  oldfilename ← strcpy PATH_MAX (archiveFile ++ B ".orig");
  _ ← on_fs (call (Close (sf_archiveFd f)));
  err ← on_fs (call_err w (Rename archiveFile oldfilename));
  match err with
  | Some err => _ ← on_fs (sys_open w archiveFile O_RDONLY 0); mret (- err, None)
  | None =>
      old ← on_fs (sys_open w oldfilename O_RDONLY 0);
      match sf_open_error f with
      | Some err => mret (err, None)
      | None =>
          match format_of (sf_format f) with
          | None => mret (- ENOTSUP, None)
          | Some fmt =>
              let how := Some (fmt, compression_of (sf_compression f)) in
              opened ← on_fs (sys_open w archiveFile (Z.lor O_WRONLY (Z.lor O_CREAT O_EXCL)) 420);
              match opened with
              | inr err => mret (- err, None)
              | inl tempfile =>
                  match sf_write_error f with
                  | Some err => mret (err, None)
                  | None =>
                      _ ← save_members fuel (sf_members f);
                      _ ← save_new fuel rounds;
                      _ ← on_fs (call (Close tempfile));
                      _ ← on_fs (call (Close (match old with inl fd => fd | inr _ => -1 end)));
                      _ ← on_fs (sys_open w archiveFile O_RDONLY 0);
                      mret (0, how)
                  end
              end
          end
      end
  end.
End Save.
