(* ===== verification/ArchiveSaveProps.v ===== *)
(** The new archive of archivemount: when only names and attributes have changed, it holds
    the members that are left, in their order; a new directory destroys it. *)

From S2P Require Import Prelude.
From S2P Require Import CString.
From S2P Require Import Archive.
From S2P Require Import ArchiveTree.
From S2P Require Import ArchiveLinks.
From S2P Require Import ArchiveInsert.
From S2P Require Import ArchiveFS.
From S2P Require Import ArchiveSpec.
From S2P Require Import ArchiveRefine.
From S2P Require Import ArchiveCreate.
From S2P Require Import ArchiveMount.
From S2P Require Import ArchiveProps.
From S2P Require Import ArchiveData.
From S2P Require Import ArchiveDataProps.
From S2P Require Import ArchiveSave.

Section SearchProps.
Context {entry : Type} {lib : Libarchive entry}.
Implicit Types (s : fs entry) (v : view entry) (m : member entry) (n : node entry).

(** What a search among the siblings [l] and below them comes to. *)
Definition hits (h : gmap nat (node entry)) rt ns (l : list nat) (hit : node entry -> bool) (o : option nat) : Prop :=
  match o with
  | Some a => a ∈ rt :: ns /\ exists n, h !! a = Some n /\ hit n = true
  | None => forall x z n, x ∈ l -> z ∈ rt :: ns -> under h x z -> h !! z = Some n -> hit n = false
  end.

Lemma runs_search_siblings hit (below : nat -> M (fs entry) (option nat)) rt ns l pr fuel s (Q : option nat -> fs entry -> Prop) :
  tree (nodes s) rt ns -> l ⊆ rt :: ns -> siblings (nodes s) pr l None -> (length l < fuel)%nat ->
  (forall x n k l', x ∈ l -> nodes s !! x = Some n -> kids (nodes s) ns x = k :: l' ->
     runs (below k) s (fun o s' => s' = s /\ hits (nodes s) rt ns (kids (nodes s) ns x) hit o)) ->
  (forall o, hits (nodes s) rt ns l hit o -> Q o s) ->
  runs (search_siblings hit below fuel (head_or l None)) s Q.
Proof.
  intros Ht. revert pr fuel Q. induction l as [|x l IH]; intros pr fuel Q Hl Hs Hf Hb HQ;
    (destruct fuel as [|fuel]; [cbn in Hf; lia |]); cbn [search_siblings head_or].
  { apply runs_ret, HQ. intros x z n Hx. by apply not_elem_of_nil in Hx. }
  destruct Hs as (n & Hx & Hp & Hn & Hs). apply runs_bind. eapply runs_node_at; [done |].
  assert (x ∈ rt :: ns) as Hin by (apply Hl; by left).
  destruct (hit n) eqn:Eh; [apply runs_ret, HQ; split; [done |]; by exists n |]. apply runs_bind.
  eapply (runs_mono _ _ (fun o s' => s' = s /\ hits (nodes s) rt ns [x] hit o)).
  - destruct (t_kids _ _ _ Ht x n Hin Hx) as [-> _].
    assert (forall o, hits (nodes s) rt ns (kids (nodes s) ns x) hit o -> hits (nodes s) rt ns [x] hit o) as Hx1.
    { intros [a|]; [done |]. intros Hno y z m ->%list_elem_of_singleton Hz Hu Hm.
      destruct (under_below _ _ _ _ _ Ht Hz Hu) as [->|(y & Hy & Hu')]; [by simplify_eq | by eapply Hno]. }
    destruct (kids (nodes s) ns x) as [|k l'] eqn:Ek; cbn [head_or].
    + apply runs_ret. split; [done |]. apply Hx1. intros y z m Hy. by apply not_elem_of_nil in Hy.
    + eapply runs_mono; [by eapply Hb; [left | |] |]. intros o s' [-> Ho]. split; [done |]. rewrite Ek in Ho. by apply Hx1.
  - intros [a|] s' [-> Ho]; [by apply runs_ret, HQ |]. rewrite Hn. eapply IH; [| done | cbn in Hf; lia | |].
    + intros y Hy. apply Hl. by right.
    + intros y m k l' Hy. apply Hb. by right.
    + intros [b|] Ho2; apply HQ; [done |]. intros y z m [->|Hy]%elem_of_cons; [by apply Ho, elem_of_cons; left | by apply Ho2].
Qed.

(** No name is longer. *)
Lemma level_bound s x n : nodes s !! x = Some n -> (length (name n) < level_fuel s)%nat.
Proof.
  unfold level_fuel. intros Hx. apply le_n_S. revert x n Hx.
  apply (map_fold_weak_ind (fun r h => forall x n, h !! x = Some n -> (length (name n) <= r)%nat)).
  - intros x n Hx. by rewrite lookup_empty in Hx.
  - intros y k h r Hy IH x n Hx. destruct (decide (y = x)) as [->|Hne].
    + rewrite lookup_insert_eq in Hx. injection Hx as ->. lia.
    + rewrite lookup_insert_ne in Hx by done. specialize (IH x n Hx). lia.
Qed.

Lemma runs_search hit depth rt ns l pr s (Q : option nat -> fs entry -> Prop) : forall k l',
  tree (nodes s) rt ns -> l = k :: l' -> l ⊆ rt :: ns -> siblings (nodes s) pr l None -> (length l < sibling_fuel s)%nat ->
  (forall x n, x ∈ l -> nodes s !! x = Some n -> (level_fuel s <= depth + length (name n))%nat) ->
  (forall o, hits (nodes s) rt ns l hit o -> Q o s) ->
  runs (search hit depth k) s Q.
Proof.
  revert l pr Q. induction depth as [|depth IH]; intros l pr Q k l' Ht El Hl Hs Hf Hd HQ.
  { assert (k ∈ rt :: ns) as Hk by (apply Hl; subst; by left). destruct (tree_in _ _ _ _ Ht Hk) as (n & Hn & _).
    pose proof (level_bound s k n Hn). specialize (Hd k n). subst l. cbn in Hd. rewrite elem_of_cons in Hd. specialize (Hd (or_introl eq_refl) Hn). lia. }
  cbn [search]. apply runs_bind, runs_get. change (Some k) with (head_or (k :: l') None). rewrite <- El.
  eapply runs_search_siblings; [done.. | | done]. intros x n j l2 Hx Hn Ek. assert (x ∈ rt :: ns) as Hin by by apply Hl.
  destruct (t_kids _ _ _ Ht x n Hin Hn) as [_ Hk']. eapply (IH _ None); [done | exact Ek | | done | by eapply tree_size | | by intros o Ho].
  - intros y [Hy _]%kids_in. by right.
  - intros y m Hy Hm. specialize (Hd x n Hx Hn). pose proof (kids_below _ _ _ _ _ _ _ Ht Hy Hn Hm). lia.
Qed.

(** ** Members *)

Lemma shown_data s ns v x n : shown s ns v -> x ∈ root s :: ns -> nodes s !! x = Some n -> data n ∈ v_root v :: v_members v.
Proof.
  intros Hs [->|Hx]%elem_of_cons Hn.
  - destruct (s_root _ _ _ Hs) as (k & Hk & Ed). assert (k = n) as -> by congruence. rewrite Ed. by left.
  - destruct (Forall2_member _ _ _ _ (s_members _ _ _ Hs) Hx) as (m & Hm & k & Hk & Ed). assert (k = n) as -> by congruence. right. by rewrite Ed.
Qed.

Lemma shown_has s ns v m : shown s ns v -> m ∈ v_root v :: v_members v -> exists x n, x ∈ root s :: ns /\ nodes s !! x = Some n /\ data n = m.
Proof.
  intros Hs [->|Hm]%elem_of_cons.
  - destruct (s_root _ _ _ Hs) as (n & Hn & Ed). exists (root s), n. split_and!; [by left | done | done].
  - apply list_elem_of_lookup in Hm as [i Hi]. destruct (Forall2_lookup_r _ _ _ _ _ (s_members _ _ _ Hs) Hi) as (x & Hx & n & Hn & Ed).
    exists x, n. split_and!; [right; by eapply list_elem_of_lookup_2 | done | done].
Qed.

(** The search of the whole tree. *)
Lemma runs_search_root hit s ns v (Q : option nat -> fs entry -> Prop) :
  shown s ns v ->
  (forall o, match o with
             | Some x => exists n, x ∈ root s :: ns /\ nodes s !! x = Some n /\ hit n = true
             | None => forall x n, x ∈ root s :: ns -> nodes s !! x = Some n -> hit n = false
             end -> Q o s) ->
  runs (search hit (level_fuel s) (root s)) s Q.
Proof.
  intros Hs HQ. pose proof (s_tree _ _ _ Hs) as Ht. destruct (t_root _ _ _ Ht) as (r & Hr & Er & _ & E1 & E2).
  eapply (runs_search hit _ (root s) ns [root s] None); [exact Ht | reflexivity | | | | |].
  - intros x ->%list_elem_of_singleton. by left.
  - exists r. by split_and!.
  - unfold sibling_fuel. cbn. assert (size (nodes s) <> 0%nat); [| lia]. intros E%map_size_empty_inv. by rewrite E in Hr.
  - intros x n _ _. lia.
  - intros [x|] Ho; apply HQ; [destruct Ho as [? (n & ? & ?)]; by exists n |]. intros x n Hx Hn.
    apply (Ho (root s) x n); [by left | done | by eapply under_root | done].
Qed.
End SearchProps.

(** What libarchive documents of the fields of a header: a getter returns what was set, and
    the setters of other fields leave it. *)
Class HeaderLaws (entry wide : Type) {lib : Libarchive entry} {wlib : Wide entry wide} : Prop := {
  pathname_set nm (e : entry) : archive_entry_pathname (archive_entry_set_pathname nm e) = nm;
  pathname_copy_stat st (e : entry) : archive_entry_pathname (archive_entry_copy_stat st e) = archive_entry_pathname e;
  stat_copy_stat st (e : entry) : archive_entry_stat (archive_entry_copy_stat st e) = st;
  symlink_copy x (e : entry) : archive_entry_symlink_w (archive_entry_copy_symlink_w x e) = Some x;
  symlink_copy_stat st (e : entry) : archive_entry_symlink_w (archive_entry_copy_stat st e) = archive_entry_symlink_w e;
  symlink_set_pathname nm (e : entry) : archive_entry_symlink_w (archive_entry_set_pathname nm e) = archive_entry_symlink_w e;
  symlink_copy_uname x (e : entry) : archive_entry_symlink_w (archive_entry_copy_uname_w x e) = archive_entry_symlink_w e;
  hardlink_copy x (e : entry) : archive_entry_hardlink_w (archive_entry_copy_hardlink_w x e) = Some x;
  hardlink_copy_stat st (e : entry) : archive_entry_hardlink_w (archive_entry_copy_stat st e) = archive_entry_hardlink_w e;
  hardlink_set_pathname nm (e : entry) : archive_entry_hardlink_w (archive_entry_set_pathname nm e) = archive_entry_hardlink_w e;
  hardlink_copy_uname x (e : entry) : archive_entry_hardlink_w (archive_entry_copy_uname_w x e) = archive_entry_hardlink_w e }.

Section SaveProps.
Context {entry wide : Type} {lib : Libarchive entry} {wlib : Wide entry wide} (w : os).
Implicit Types (s : fs entry) (v : view entry) (m : member entry) (sv : saving entry).

Definition path_key m : bytes := strip (archive_entry_pathname (m_entry m)).

(** The member of a header of the old archive. *)
Definition member_for v (om : @old_member entry) : option (member entry) :=
  snd <$> list_find (fun m => path_key m = strip (archive_entry_pathname (om_header om))) (v_root v :: v_members v).

(** What becomes of it in the new archive, if it is not changed. *)
Definition kept_header m (nm : bytes) : entry :=
  archive_entry_copy_stat (archive_entry_stat (m_entry m))
    (new_header (Node None None None None (m_name m) (m_location m) (m_renamed m) (m_entry m) (m_modified m)) nm).

Definition saved_member v (om : @old_member entry) : list (out entry) :=
  match member_for v om with
  | Some m => WHeader (kept_header m (archive_entry_pathname (om_header om))) :: map WData (om_blocks om)
  | None => []
  end.

(** The name that a member has now, written with a slash in front if the old one was. *)
Definition path_now m (old : bytes) : bytes :=
  if m_renamed m then match old with c :: _ => if decide (c = SLASH) then m_name m else drop 1 (m_name m) | [] => drop 1 (m_name m) end
  else old.

(** A header that describes a member, whose header in the old archive had the path [old]: its
    name and its attributes of now, and where it leads if it is a link. *)
Record describes m (old : bytes) (e : entry) : Prop := Describes {
  d_pathname : archive_entry_pathname e = path_now m old;
  d_stat : archive_entry_stat e = archive_entry_stat (m_entry m);
  d_symlink x : archive_entry_symlink_w (m_entry m) = Some x -> archive_entry_symlink_w e = Some x;
  d_hardlink x : archive_entry_symlink_w (m_entry m) = None -> archive_entry_hardlink_w (m_entry m) = Some x ->
    archive_entry_hardlink_w e = Some x }.

(** The new archive: for each member of the old one that is still there, a header that
    describes it and its blocks; nothing else. *)
Fixpoint holds_members v (oms : list (@old_member entry)) (o : list (out entry)) : Prop :=
  match oms with
  | [] => o = []
  | om :: oms =>
      match member_for v om with
      | None => holds_members v oms o
      | Some m => exists e rest, o = WHeader e :: map WData (om_blocks om) ++ rest /\
          describes m (archive_entry_pathname (om_header om)) e /\ holds_members v oms rest
      end
  end.

Lemma kept_header_describes {laws : HeaderLaws entry wide} m old : describes m old (kept_header m old).
Proof.
  unfold kept_header, new_header. cbn [nentry namechanged name]. split.
  - rewrite pathname_copy_stat, pathname_set. unfold path_now. destruct (m_renamed m); [| done].
    destruct old as [|c old]; cbn [head]; [by rewrite bool_decide_false |].
    case_decide as E; [subst; by rewrite bool_decide_true | by rewrite bool_decide_false by congruence].
  - by rewrite stat_copy_stat.
  - intros x Hx. rewrite Hx, symlink_copy_stat, symlink_set_pathname. cbn [copied].
    destruct (archive_entry_uname_w _); cbn [copied]; by rewrite ?symlink_copy_uname, symlink_copy.
  - intros x Hs Hx. rewrite Hs, Hx, hardlink_copy_stat, hardlink_set_pathname. cbn [copied].
    destruct (archive_entry_uname_w _); cbn [copied]; by rewrite ?hardlink_copy_uname, hardlink_copy_stat, hardlink_copy.
Qed.

Lemma saved_members_hold {laws : HeaderLaws entry wide} v oms : holds_members v oms (concat (map (saved_member v) oms)).
Proof.
  induction oms as [|om oms IH]; [done |]. cbn [holds_members map concat].
  destruct (member_for v om) as [m|] eqn:E; [| by unfold saved_member at 1; rewrite E].
  unfold saved_member at 1. rewrite E. eexists _, _. split; [reflexivity |]. split; [apply kept_header_describes | done].
Qed.

(** Every member is found by its header, and none is marked. *)
Definition savable v : Prop :=
  NoDup (map path_key (v_root v :: v_members v)) /\ Forall (fun m => m_modified m = false) (v_root v :: v_members v).

Lemma runs_on_fs {A} (m : M (fs entry) A) sv (Q : A -> saving entry -> Prop) :
  runs m (sv_fs sv) (fun x s => Q x (Saving s (sv_out sv) (sv_freed sv))) -> runs (on_fs m) sv Q.
Proof. unfold runs, on_fs. destruct (m (sv_fs sv)) as [[x s]| | |]; done. Qed.

Lemma find_unique {A} (f : A -> bytes) k (l : list A) (x : A) : NoDup (map f l) -> x ∈ l -> f x = k -> snd <$> list_find (fun y => f y = k) l = Some x.
Proof.
  intros Hnd Hx Ek. destruct (list_find (fun y => f y = k) l) as [[i y]|] eqn:E; cbn.
  - apply list_find_Some in E as (Hi & Em & _). f_equal. apply list_elem_of_lookup in Hx as [j Hj].
    assert (i = j) as ->; [| congruence]. eapply NoDup_lookup; [exact Hnd | |].
    + rewrite list_lookup_fmap, Hi. reflexivity.
    + rewrite list_lookup_fmap, Hj. cbn. congruence.
  - exfalso. eapply list_find_None in E. rewrite Forall_forall in E. by apply (E x Hx).
Qed.

Lemma runs_get_entry s ns v om (Q : option nat -> fs entry -> Prop) :
  shown s ns v -> NoDup (map path_key (v_root v :: v_members v)) ->
  (forall o, match o with
             | Some x => exists n, x ∈ root s :: ns /\ nodes s !! x = Some n /\ member_for v om = Some (data n)
             | None => member_for v om = None
             end -> Q o s) ->
  runs (get_node_for_entry (root s) (om_header om)) s Q.
Proof.
  intros Hs Hnd HQ. unfold get_node_for_entry. apply runs_bind, runs_get. eapply runs_search_root; [exact Hs |]. intros [x|] Ho; apply HQ.
  - destruct Ho as (n & Hx & Hn & E%Z.eqb_eq%strcmp_eq). exists n. split_and!; [done | done |].
    apply (find_unique path_key); [done | by eapply shown_data | done].
  - unfold member_for. destruct (list_find _ _) as [[i m]|] eqn:E; [| done]. exfalso. apply list_find_Some in E as (Hi & Em & _).
    apply list_elem_of_lookup_2 in Hi. destruct (shown_has s ns v m Hs Hi) as (x & n & Hx & Hn & Ed).
    specialize (Ho x n Hx Hn). cbv beta in Ho. rewrite <- Ed in Em. unfold path_key, data in Em. cbn [m_entry] in Em. rewrite Em, strcmp_refl in Ho. done.
Qed.

Lemma runs_find_modified s ns v (Q : option nat -> fs entry -> Prop) :
  shown s ns v -> Forall (fun m => m_modified m = false) (v_root v :: v_members v) -> Q None s -> runs (find_modified_node (root s)) s Q.
Proof.
  intros Hs Hm HQ. unfold find_modified_node. apply runs_bind, runs_get. eapply runs_search_root; [exact Hs |]. intros [x|] Ho; [| done].
  exfalso. destruct Ho as (n & Hx & Hn & Eh). rewrite Forall_forall in Hm. pose proof (Hm _ (shown_data s ns v x n Hs Hx Hn)) as E. cbn in E. congruence.
Qed.

Lemma savable_traced tr v : savable v -> savable (traced tr v).
Proof. done. Qed.

Lemma saved_traced tr v om : saved_member (traced tr v) om = saved_member v om.
Proof. done. Qed.

Lemma runs_save_members fuel oms : forall sv ns v,
  shown (sv_fs sv) ns v -> savable v ->
  runs (save_members w fuel oms) sv (fun _ sv' => sv' = Saving (sv_fs sv) (sv_out sv ++ concat (map (saved_member v) oms)) (sv_freed sv)).
Proof.
  induction oms as [|om oms IH]; intros sv ns v Hs Hv; cbn [save_members map concat].
  { apply runs_ret. rewrite app_nil_r. by destruct sv. }
  apply runs_bind.
  apply (runs_mono _ _ (fun _ sv' => sv' = Saving (sv_fs sv) (sv_out sv ++ saved_member v om) (sv_freed sv))).
  - unfold save_member. apply runs_bind, runs_get, runs_bind, runs_on_fs. destruct Hv as [Hnd Hm]. eapply runs_get_entry; [exact Hs | exact Hnd |].
    unfold saved_member. intros [x|] Ho.
    + destruct Ho as (n & Hx & Hn & ->). apply runs_bind, runs_on_fs. cbn [sv_fs sv_out sv_freed]. eapply runs_node_at; [exact Hn |].
      rewrite Forall_forall in Hm. pose proof (Hm _ (shown_data _ _ _ _ _ Hs Hx Hn)) as E. cbn in E. cbv zeta. rewrite E.
      apply runs_bind. unfold emit. apply runs_modify, runs_modify. cbn [sv_fs sv_out sv_freed]. by rewrite <- app_assoc.
    + rewrite Ho. apply runs_ret. cbn. by rewrite app_nil_r.
  - intros _ sv1 ->. eapply runs_mono; [by eapply IH |]. intros _ sv2 ->. cbn. by rewrite <- app_assoc.
Qed.

Lemma runs_save_new fuel rounds s ns v out freed (Q : unit -> saving entry -> Prop) :
  shown s ns v -> savable v -> Q tt (Saving s out freed) -> runs (save_new w fuel (S rounds)) (Saving s out freed) Q.
Proof.
  intros Hs [_ Hm] HQ. cbn [save_new]. apply runs_bind, runs_get, runs_bind, runs_on_fs. cbn [sv_fs sv_out sv_freed].
  eapply runs_find_modified; [exact Hs | exact Hm |]. by apply runs_ret.
Qed.

(** ** Saving *)

(** The system calls of [save] answer. *)
Record saves : Prop := Saves { sv_call i : os_call w i = None; sv_open i : exists fd, os_open w i = inl fd }.

Lemma runs_on_call c s ns v out freed (Q : nat -> saving entry -> Prop) :
  shown s ns v -> (forall s', shown s' ns (traced [c] v) -> Q (length (v_trace v)) (Saving s' out freed)) ->
  runs (on_fs (call c)) (Saving s out freed) Q.
Proof. intros Hs HQ. apply runs_on_fs. eapply runs_call_traced; [exact Hs |]. intros s' Hs' _ _. by apply HQ. Qed.

Lemma runs_on_open path flags mode s ns v out freed (Q : Z + Z -> saving entry -> Prop) :
  saves -> shown s ns v -> (forall fd s', shown s' ns (traced [Open path flags mode] v) -> Q (inl fd) (Saving s' out freed)) ->
  runs (on_fs (sys_open w path flags mode)) (Saving s out freed) Q.
Proof.
  intros Hw Hs HQ. apply runs_on_fs. eapply runs_sys_open; [exact Hs |]. intros s' Hs' _ _.
  destruct (sv_open Hw (length (v_trace v))) as [fd ->]. by apply HQ.
Qed.

Lemma runs_save fuel rounds archiveFile f fmt s ns v :
  saves -> strlen archiveFile + 5 < PATH_MAX -> sf_open_error f = None -> sf_write_error f = None -> format_of (sf_format f) = Some fmt ->
  shown s ns v -> savable v ->
  runs (save w fuel (S rounds) archiveFile f) (Saving s [] None) (fun r sv =>
    r = (0, Some (fmt, compression_of (sf_compression f))) /\ sv_out sv = concat (map (saved_member v) (sf_members f)) /\
    exists tr, shown (sv_fs sv) ns (traced tr v)).
Proof.
  intros Hw Hlen Ho Hwe Hfmt Hs Hv. unfold save. apply runs_bind, runs_strcpy; [rewrite strlen_app; change (strlen (B ".orig")) with 5; lia |].
  apply runs_bind. eapply runs_on_call; [exact Hs |]. intros s1 Hs1. apply runs_bind, runs_on_fs. unfold call_err. apply runs_bind.
  eapply runs_call_traced; [exact Hs1 |]. intros s2 Hs2 _ _. apply runs_ret. rewrite (sv_call Hw). cbn [sv_out sv_freed].
  apply runs_bind. eapply runs_on_open; [done | exact Hs2 |]. intros fd s3 Hs3. rewrite Ho, Hfmt. cbv zeta.
  apply runs_bind. eapply runs_on_open; [done | exact Hs3 |]. intros tempfile s4 Hs4. rewrite Hwe. apply runs_bind.
  eapply runs_mono; [eapply runs_save_members; [exact Hs4 | exact Hv] |]. intros _ sv5 ->. cbn [sv_fs sv_out sv_freed app].
  apply runs_bind. eapply runs_save_new; [exact Hs4 | exact Hv |].
  apply runs_bind. eapply runs_on_call; [exact Hs4 |]. intros s6 Hs6. apply runs_bind. eapply runs_on_call; [exact Hs6 |]. intros s7 Hs7.
  apply runs_bind. eapply runs_on_open; [done | exact Hs7 |]. intros fd' s8 Hs8. apply runs_ret. split_and!; [done | done |].
  rewrite !traced_more in Hs8. by eexists.
Qed.

Context (stbuf : stat) (links : nat) {wok : OsOk w} {laws : HeaderLaws entry wide}.

(** C22. Renaming, removing and changing attributes reach the new archive: when
    an archive has been mounted, callbacks have been made, both within the
    bounds of archive_refines, no member is marked as modified, the headers have
    different paths, the system answers, the name of the archive fits its buffer
    and its format is one that save knows, save writes, for each header of the
    old archive whose member is still there, a header that has its name of now,
    its attributes and the target of its link, and its blocks, in their order,
    and nothing else; of libarchive it is assumed that what is set in a header
    is read back from it. *)
Theorem archive_saved mf ast wr ops answers v fuel rounds archiveFile f fmt :
  open_error mf = None -> fstat mf = inl ast -> regular (headers mf) (empty_view w mf ast wr) ->
  history w stbuf links (archive_view w mf ast wr) ops answers v -> savable v ->
  saves -> strlen archiveFile + 5 < PATH_MAX -> sf_open_error f = None -> sf_write_error f = None -> format_of (sf_format f) = Some fmt ->
  runs (mounted w stbuf links mf ops) (initial wr) (fun _ s =>
    runs (save w fuel (S rounds) archiveFile f) (Saving s [] None) (fun r sv =>
      r = (0, Some (fmt, compression_of (sf_compression f))) /\ holds_members v (sf_members f) (sv_out sv))).
Proof.
  intros Ho Hf Hr Hh Hv Hw Hlen Hoe Hwe Hfmt. unfold mounted. apply runs_bind. eapply runs_mono; [by eapply runs_build_tree |].
  intros z s [-> Hs]. eapply runs_mono; [by eapply runs_perform_all |]. intros l s' [_ [ns Hs']].
  eapply runs_mono; [by eapply runs_save |]. intros r sv (-> & -> & _). split; [done | apply saved_members_hold].
Qed.
End SaveProps.

(** * Witnesses *)

Import Header.

#[export] Instance sample_wide : Wide header bytes := {
  archive_entry_gname_w _ := None; archive_entry_uname_w _ := None; archive_entry_hardlink_w := hardlink; archive_entry_symlink_w := symlink;
  archive_entry_copy_gname_w _ h := h; archive_entry_copy_uname_w _ h := h; archive_entry_copy_hardlink_w nm h := Header (pathname h) (attributes h) (Some nm) (symlink h);
  archive_entry_copy_symlink_w nm h := Header (pathname h) (attributes h) (hardlink h) (Some nm);
  archive_entry_copy_hardlink nm h := Header (pathname h) (attributes h) (Some nm) (symlink h) }.

#[export] Instance sample_header_laws : HeaderLaws header bytes.
Proof. by split. Qed.

(** The members of [small] in the old archive. *)
Definition small_file : @save_file header :=
  SaveFile 4 None 0 ARCHIVE_COMPRESSION_GZIP None
    [OldMember (directory (B "./") 1) []; OldMember (directory (B "./d/") 2) []; OldMember (file (B "./d/a") 3 5) [B "hello"];
     OldMember (file (B "b") 4 7) [B "good"; B "bye"]].

Lemma sample_saves : saves sample_os.
Proof. split; [done | by eexists]. Qed.

(** A file is removed, and another one put into its directory. *)
Lemma archive_saved_witness :
  exists v : view header, map m_name (v_members v) = [B "/d"; B "/d/b"] /\
  runs (session small [OpRename (B "/b") (B "/d/b"); OpUnlink (B "/d/a"); OpChmod (B "/d/b") 33152]) (initial true) (fun _ s =>
    runs (save sample_os 1 1 (B "x.tgz") small_file) (Saving s [] None) (fun r sv =>
      r = (0, Some (Ustar, Gzip)) /\ holds_members v (sf_members small_file) (sv_out sv))).
Proof.
  eexists. split.
  2:{ unshelve eapply (archive_saved sample_os no_stat 5 (tar small) archive_stat true
        [OpRename (B "/b") (B "/d/b"); OpUnlink (B "/d/a"); OpChmod (B "/d/b") 33152] [Code 0; Code 0; Code 0] _ 1 0 (B "x.tgz") small_file Ustar).
      - reflexivity.
      - reflexivity.
      - exact small_regular.
      - eapply h_cons; [split_and!; [done | reflexivity | create [B "d"] (B "b") | reflexivity | left; by vm_compute] | vm_compute; reflexivity |].
        eapply h_cons; [split; [done | intros; vm_compute; reflexivity] | vm_compute; reflexivity |].
        eapply h_cons; [done | vm_compute; reflexivity |].
        apply h_nil.
      - split; [vm_compute; decided | vm_compute; repeat constructor].
      - exact sample_saves.
      - by vm_compute.
      - reflexivity.
      - reflexivity.
      - reflexivity. }
  vm_compute. reflexivity.
Defined.

(** The new archive in full. *)
Example small_saved :
  runs (session small [OpRename (B "/b") (B "/d/b"); OpUnlink (B "/d/a"); OpChmod (B "/d/b") 33152]) (initial true) (fun _ s =>
    runs (save sample_os 1 1 (B "x.tgz") small_file) (Saving s [] None) (fun r sv =>
      r = (0, Some (Ustar, Gzip)) /\
      sv_out sv = [WHeader (directory (B "./d/") 2); WHeader (Header (B "d/b") (Stat 0 4 33152 1 0 0 0 7 0 0 0) None None); WData (B "good"); WData (B "bye")])).
Proof. vm_compute. split; reflexivity. Qed.

(** * Where saving fails *)

(** A new directory: its temporary file, which is a directory, cannot be read; its header is
    freed, and used again. *)
Theorem new_directory_destroys fuel rounds :
  runs (session small [OpMkdir (B "/e") 493]) (initial true) (fun l s =>
    l = [Code 0] /\ save sample_os (S fuel) (S (S rounds)) (B "x.tgz") small_file (Saving s [] None) = UB).
Proof. vm_compute. split; reflexivity. Qed.

(** An archive of the format tar, if libarchive says so, is written as cpio. *)
Theorem tar_is_written_as_cpio : format_of ARCHIVE_FORMAT_TAR = Some Cpio /\ format_of ARCHIVE_FORMAT_TAR_GNUTAR = Some Cpio.
Proof. done. Qed.
